(* ===== verification/_CoqProject ===== *)
-Q . S2P
Prelude.v
Crypto.v
Text.v
Types.v
Cbor.v
Payloads.v
Tx.v
FeeMarket.v
Leaves.v
Store.v
StoreInv.v
StateRoot.v
ApplyAccounts.v
ApplyValidators.v
Governance.v
Archival.v
ApplyTx.v
TxSpec.v
TxRefine.v
Invariants.v
Supply.v
Mempool.v
Block.v
BlockInv.v
Chain.v
ChainInv.v
Recovery.v
Examples.v
ChainProps.v
MempoolProps.v
RecoveryProps.v
ArchivalProps.v
Round.v
RoundProps.v
Commit.v
CommitProps.v
Records.v
RecordsProps.v
Upgrade.v
Storage.v
StorageRep.v
StorageProps.v
StorageHistory.v
RestartProps.v
NodeConfig.v
NodeConfigProps.v
Keystore.v
KeystoreProps.v
BlockTree.v
BlockTreeProps.v
Proposer.v
ProposerProps.v
Node.v
NodeProps.v
DiskProps.v
AdmissionProps.v
SlhDsa.v
SlhDsaProps.v
SlhSignProps.v
SlhCodecProps.v
PqVerifier.v
PqVerifierProps.v
LightClient.v
LightClientProps.v
FileStore.v
FileStoreRep.v
FileStoreProps.v
FileStoreHistory.v
MigrationProps.v
Tsa.v
ColdStorage.v
ColdStorageProps.v
Submission.v
SubmissionProps.v
