(* ===== verification/Prelude.v ===== *)
(** * Verification of the Viper post-quantum chain

    A shallow embedding of the deterministic core of the node (the crates under
    [src/crates]) with the theorems that make it correct.

    ** The program

    Clients sign transactions (pqc-tx) with post-quantum keys (pqc-crypto) and
    submit their CBOR encoding.  The mempool (pqc-mempool) validates a transaction
    against a view of the state and keeps at most one per (sender, nonce) slot.  The
    consensus engine (pqc-consensus) takes the pending transactions in a fixed
    order, applies each to the state store (pqc-state), pays out the fees, runs the
    end-of-block transitions and puts the state root into the block header.  Blocks
    are appended to a linked chain store; recovery and followers replay the stored
    blocks and compare the roots.  Validators vote on blocks in rounds; a block is
    committed by a quorum of signatures, which importing nodes check.  The node (pqcd)
    ties this together: it imports and produces blocks, signs and collects votes, and
    admits transactions.  It keeps its blocks in RocksDB, or in files in older
    deployments, and recovers its state from them when it starts.  It is started from a
    configuration, from which the genesis state and the keys come, and can move old blocks
    to signed archives and back.  Signatures are ML-DSA or SLH-DSA; the latter is a
    vendored crate.  A light client follows the
    headers by the attestations of a committee drawn from the stakes.

    ** Files, in dependency order

    - [Prelude]: outcomes (value, error, panic), bounded integers, byte strings,
      record update, the tactics [run_inv], [bool_hyps] and [no_panic], hint
      databases, list and map lemmas.
    - [Crypto] (pqc-crypto: alg, registry, hash_registry, hash, address, envelope).
    - [Text]: hexadecimal text and trimming, shared by the readers of configurations.
    - [Types] (pqc-types: account, keyset, transaction, validator, churn,
      consensus_rotation, attestation, proof_anchor, governance).
    - [Cbor]: CBOR values, the [ciborium] interface, the field loop of the decoders.
    - [Payloads] (pqc-types/slashing.rs, the decoders of pqc-state/apply).
    - [Tx] (pqc-tx: codec, preimage, hash, fees, validate; pqc-types/fork.rs).
    - [FeeMarket] (fee market of pqc-state/store.rs, storage_fund.rs).
    - [Leaves] (store/state_merkle.rs), [Store] (store.rs), [StoreInv] (its
      invariant), [StateRoot] (rebuild and binding of the root).
    - [ApplyAccounts], [ApplyValidators], [Governance], [Archival] (apply/*.rs and
      pqc-types/archival.rs), [ApplyTx] (apply.rs, gas_schedule.rs).
    - [TxSpec], [TxRefine]: an abstract specification of a transaction's effect
      and the proof that the handlers implement it.
    - [Invariants], [Supply]: the invariant of the state, its history, the supply.
    - [Mempool] (pqc-mempool), [Block] (pqc-types/block.rs, engine.rs, epoch.rs),
      [BlockInv], [Chain] (chain.rs), [ChainInv], [Recovery] (recovery.rs).
    - [Examples]: a small chain the witnesses run on.
    - [ChainProps], [MempoolProps], [RecoveryProps], [ArchivalProps]: theorems.
    - [Round] (quorum.rs, round.rs) and [RoundProps]: one height of voting, a network
      of correct and faulty validators as a step relation, agreement.
    - [Commit] (commit.rs, consensus_msg.rs) and [CommitProps]: commit proofs, votes.
    - [Records] (the records of storage.rs) and [RecordsProps]: what a checkpoint keeps.
    - [Upgrade] (upgrade.rs): state migrations.
    - [Storage] (storage_rocksdb.rs), [StorageRep], [StorageProps], [StorageHistory]:
      the store on RocksDB, its representation relation and what it promises;
      [RestartProps]: a node that stops and starts again.
    - [NodeConfig] (pqcd/src/node.rs, pqc-p2p/src/config.rs, the recovery in
      start_from_config_path of devnet.rs) and [NodeConfigProps]: the
      configuration, the genesis state, starting a node, the snapshot commands.
    - [Keystore] (pqcd/src/keystore.rs) and [KeystoreProps]: the signing keys of a node.
    - [BlockTree] (block_tree_cache.rs, reception.rs) and [BlockTreeProps].
    - [Proposer] (proposer.rs, archival.rs) and [ProposerProps]: building a block,
      epoch summaries.
    - [Node] (pqcd: devnet.rs, devnet/dispatch.rs, devnet/consensus_loops.rs, p2p.rs):
      import, sibling resolution, votes, the phases of the consensus loop,
      the sender budget, over an abstract disk.  [NodeProps], [AdmissionProps]: theorems
      on the handlers.  [DiskProps]: the store on RocksDB implements the abstract disk.
    - [SlhDsa] (vendor/slh-dsa), [SlhDsaProps], [SlhSignProps], [SlhCodecProps]: the
      signature scheme; [PqVerifier] (pqc-crypto: sign, verify) and [PqVerifierProps].
    - [LightClient] (pqc-light-client) and [LightClientProps].
    - [FileStore] (DiskChainStore of storage.rs, migrate_store of pqcd/src/node.rs),
      [FileStoreRep], [FileStoreProps], [FileStoreHistory]: the store in files;
      [MigrationProps]: moving it to RocksDB.
    - [Tsa] (pqc-tsa): time-stamp requests.  [ColdStorage] (pqcd/src/cold_storage.rs and its
      commands in node.rs) and [ColdStorageProps]: archives of old blocks.
    - [Submission] (pqcd/src/archival.rs, the epoch step of devnet/dispatch.rs) and
      [SubmissionProps]: the archival submissions a node builds.

    ** How code becomes definitions

    A Rust function keeps its name.  A fallible function returns an [outcome]:
    [Ok], [Err] with the code's error, or [Panic], which is what an overflowing
    plain operator or a failed [expect] does (the workspace is built with overflow
    checks).  Unsigned integers are [N]; saturating operators carry their maximum.
    Methods that take [&mut self] return the new state.  A [HashMap] is a [gmap],
    and the model iterates it in key order.  So does the code, which sorts first, except where
    the order has no effect; the loop that ends unbondings is one, since each round updates the row
    of its own validator and the exits it returns are credits to different accounts.  The cargo
    feature [token_economics] is on, as it is by default; without it transfers and evidence are
    refused and the state root has no leaf for the storage fund.  The
    leaf cache of each map of the store is modelled as its own map, updated where
    the code updates it.  An operation on files returns, beside its result, the list of
    file operations it performs; a process may stop after any of them or in the middle
    of a write.  An import of an archive returns the store beside its result, because what
    it appended before an error stays.  What a power failure does to unsynchronised data is not part of this.

    ** Parameters

    SHAKE-256 ([Shake]: reading n bytes gives n bytes), signature verification
    ([Verifier]: any boolean function), signing ([Signer]; theorems that need it assume
    that a signature made with a registered key verifies) and the CBOR library ([Ciborium]: a reader
    and a writer, without a law) come from external crates.  So do the serde records
    ([Serde]; [SerdeLaws]: what is written is read back), RocksDB ([RocksDb];
    [RocksDbLaws]: reads see the batches written, a batch is applied as a whole or
    not at all, iteration is in key order), SHA-2 and HMAC ([Sha2], [Rng] for the random
    generator: outputs of the declared length), ML-DSA ([MlDsa] and [MlDsaKeys], functions without a
    law, so they return on every input), hexadecimal text ([Hex]: lower-case digits, read back), the readers of
    configuration and key files ([ConfigFormats], [KeystoreFormat], without a law), the JSON
    of a manifest ([Json]), compression ([Zstd]: both read back what they wrote), reading CBOR
    items off a stream ([CborStream]: an item that was written is read back and the bytes
    after it are left, an item takes bytes from the front) and the time-stamping service
    ([TsaClient], without a law).  System calls that read the clock, the environment or a
    file return arguments of the definitions.  A round
    trip through [Ciborium] assumes that the one value it serialises is read back.  Binding theorems say that the
    committed values agree or that two different inputs of a named finite list
    have the same digest.

    ** What the theorems show

    - Codecs: transactions, archival records; what a strict decoder accepts.
    - Authorisation: the signed preimage determines the transaction; validation
      succeeds exactly for a current nonce, a usable key, a sufficient fee and a
      verifying signature; no replay, no use of revoked keys or retired algorithms.
    - State: the incremental state root is the root of a rebuild and binds the
      accounts and validators; account invariants, tombstones and decided records
      are permanent; the token supply is conserved, with one named exception.
    - Fees: bounds and monotonicity of the base-fee update.
    - Mempool: index consistency, replacement, canonical block order.
    - Chain: the block store implements a linked list; recovery reproduces the
      state; the cases in which a produced block is not replayable.
    - Archival overlay: the threshold of verified signatures behind a record, and
      which epochs get a summary; what a node signs is what the chain verifies, but its
      own pool refuses it.
    - Voting: with less than a third of faulty validators two correct ones never commit
      different blocks at a height, a quorum decides, recorded evidence is only against
      faulty validators.
    - Commit proofs: two proofs for different blocks of a height expose more than a
      third of the validators; a block the proposer collects votes for passes the check
      exactly when its signers use ML-DSA.
    - Storage: after any history of operations and stops, the database or the directory
      opens with the chain that was written; pruning is guarded; a restart recovers
      the node's state; which states a checkpoint loses, and what happens then; the
      migration from files keeps the chain; an archive restores the blocks it was made of,
      and no archive damages the chain it is imported into.
    - Start: the genesis state satisfies the invariants and has the configured supply and
      validators; a node continues where it stopped, and when the entry points that ignore
      the static validator pool agree with it; which key the keystore selects.
    - SLH-DSA: a signature made by the crate verifies for all twelve parameter sets, no
      routine panics, the codecs are exact, the WOTS+ checksum does its work; the node's
      verifier is total and the sizes agree with the algorithm registry.
    - Light client: the committee is the whole set in order of stake or a sample without
      repetition, weighted by stake and drawn in the order of the addresses.
    - Node: the orphan cache is consistent and bounded, the sender budget holds; and
      where the code breaks the rules above: an honest node signs conflicting votes,
      evidence is executed outside of blocks, SLH-DSA validators cannot commit, an API node
      serves the genesis state over a checkpoint it cannot restore, a refused archive leaves
      its blocks behind.

    ** Fuel and bounds

    [fake_exponential] has its own limit of 128 rounds in the code, which is the
    fuel of the model.  The migration loop of [Upgrade] has no bound; it runs with fuel
    and one round per version is proved to be enough, so four rounds at the start of a
    node.  The loops of an export and of an import run once per block and once per byte of a
    batch, which is enough because every round takes at least one; a length in a time-stamp
    request has at most eight bytes.  [base_2b] of SLH-DSA refills
    its buffer at most b times per digit, and the committee selection draws at most
    16 members; both bounds are those of the code.  All other recursion is
    structural on lists or on a height.

    ** Not modelled

    The peer-to-peer transport, the HTTP API, the command line, encrypted key files and HSM
    access, the archival sidecar and the upload of archives: input and output around
    third-party libraries.  The genesis ceremony and the audit log, which write files for
    operators.  Multisignature policies and receipts, which no other crate uses.  Of the
    node: the single-producer loop, snapshot sync over the network, KEM rotation and the
    attack modes of test builds.  ML-DSA, ML-KEM, SHA-2 and SHAKE, which are external
    crates.  Log output, counters and the diagnostic text inside errors. *)

From Stdlib Require Export NArith ZArith Lia Strings.Byte Strings.String.
From stdpp Require Export sorting base tactics countable option numbers list fin_maps gmap.

#[global] Open Scope N_scope.
#[global] Set Default Goal Selector "!".

(** ** Outcomes

    The node is built with [overflow-checks = true], so a plain arithmetic
    operator that overflows aborts the process.  A fallible Rust function is
    therefore modelled by three outcomes: a value, one of the function's errors,
    or a panic. *)

Inductive outcome (E A : Type) : Type :=
  | Ok (a : A)
  | Err (e : E)
  | Panic.

Arguments Ok {E A} a.
Arguments Err {E A} e.
Arguments Panic {E A}.

Global Instance outcome_ret {E} : MRet (outcome E) := fun A => @Ok E A.
Global Instance outcome_bind {E} : MBind (outcome E) := fun A B f m =>
  match m with
  | Ok a => f a
  | Err e => Err e
  | Panic => Panic
  end.

(** [if !cond { return Err(e) }] *)
Definition ensure {E} (b : bool) (e : E) : outcome E unit :=
  if b then Ok tt else Err e.

(** [opt.ok_or(e)?] *)
Definition ok_or {E A} (o : option A) (e : E) : outcome E A :=
  match o with Some a => Ok a | None => Err e end.

(** [r.map_err(f)?] *)
Definition map_err {E F A} (f : E -> F) (m : outcome E A) : outcome F A :=
  match m with Ok a => Ok a | Err e => Err (f e) | Panic => Panic end.

(** A loop body that can fail, run over a list from left to right. *)
Fixpoint foldM {E A B} (f : A -> B -> outcome E A) (acc : A) (l : list B) : outcome E A :=
  match l with
  | [] => Ok acc
  | x :: l' => acc' ← f acc x; foldM f acc' l'
  end.

(** [iter().enumerate().map(f).collect::<Result<Vec<_>, _>>()]. *)
Fixpoint collect_at {E A B} (f : N -> A -> outcome E B) (i : N) (l : list A)
    : outcome E (list B) :=
  match l with
  | [] => Ok []
  | x :: l' => y ← f i x; ys ← collect_at f (i + 1) l'; Ok (y :: ys)
  end.
Abbreviation collect f l := (collect_at (fun _ => f) 0 l).

Section outcome_lemmas.
Context {E : Type}.

Lemma Ok_inj {A} (a b : A) : @Ok E A a = Ok b -> a = b.
Proof. by intros [=]. Qed.

Lemma bind_Ok {A B} (m : outcome E A) (f : A -> outcome E B) b :
  (m ≫= f) = Ok b <-> exists a, m = Ok a /\ f a = Ok b.
Proof. destruct m; cbn; naive_solver. Qed.

Lemma bind_Panic {A B} (m : outcome E A) (f : A -> outcome E B) :
  (m ≫= f) = Panic <-> m = Panic \/ exists a, m = Ok a /\ f a = Panic.
Proof. destruct m; cbn; naive_solver. Qed.

Lemma ensure_Ok (b : bool) (e : E) u : ensure b e = Ok u <-> b = true.
Proof. destruct b, u; cbn; naive_solver. Qed.

Lemma ensure_Panic (b : bool) (e : E) : ensure b e <> Panic.
Proof. by destruct b. Qed.

Lemma ok_or_Ok {A} (o : option A) (e : E) a : ok_or o e = Ok a <-> o = Some a.
Proof. destruct o; cbn; naive_solver. Qed.

Lemma ok_or_Panic {A} (o : option A) (e : E) : ok_or o e <> Panic.
Proof. by destruct o. Qed.

Lemma map_err_Ok {F A} (f : E -> F) (m : outcome E A) a :
  map_err f m = Ok a <-> m = Ok a.
Proof. destruct m; cbn; naive_solver. Qed.

Lemma foldM_app {A B} (f : A -> B -> outcome E A) acc l1 l2 :
  foldM f acc (l1 ++ l2) = (a ← foldM f acc l1; foldM f a l2).
Proof.
  revert acc. induction l1 as [|x l1 IH]; intros acc; [done|]. cbn.
  destruct (f acc x); cbn; [apply IH|done|done].
Qed.

(** An invariant of the body is an invariant of the loop. *)
Lemma foldM_invariant {A B} (f : A -> B -> outcome E A) (I : A -> Prop) l acc r :
  (forall a b a', b ∈ l -> I a -> f a b = Ok a' -> I a') ->
  I acc -> foldM f acc l = Ok r -> I r.
Proof.
  revert acc. induction l as [|x l IH]; intros acc Hf Hacc; cbn.
  - by intros [= <-].
  - intros (a & Ha & Hr)%bind_Ok. eapply IH; [|by eapply Hf; [left| |]|done].
    intros ???? . apply Hf. by right.
Qed.

(** A conversion that undoes another, over a list. *)
Lemma collect_at_fmap {A B} (f : N -> A -> outcome E B) (g : B -> A) i l :
  (forall j x, x ∈ l -> f j (g x) = Ok x) -> collect_at f i (g <$> l) = Ok l.
Proof.
  revert i. induction l as [|x l IH]; intros i Hfg; cbn; [done|].
  rewrite Hfg by left. cbn. rewrite IH; [done|]. intros j y ?. apply Hfg. by right.
Qed.

Lemma collect_at_Forall2 {A B} (f : N -> A -> outcome E B) (P : A -> B -> Prop) i l l' :
  (forall j x y, x ∈ l -> f j x = Ok y -> P x y) -> collect_at f i l = Ok l' -> Forall2 P l l'.
Proof.
  revert i l'. induction l as [|x l IH]; intros i l' HP; cbn.
  - by intros [= <-].
  - intros (y & Hy & (ys & Hys & [= <-])%bind_Ok)%bind_Ok. constructor.
    + eapply HP; [by left|done].
    + eapply IH; [|done]. intros j z w ?. apply HP. by right.
Qed.

(** *** Functions that do not panic *)

Lemma bind_no_panic {A B} (m : outcome E A) (f : A -> outcome E B) :
  m <> Panic -> (forall a, m = Ok a -> f a <> Panic) -> (m ≫= f) <> Panic.
Proof. intros Hm Hf [?|(a & Ha & Hp)]%bind_Panic; [done|by eapply Hf]. Qed.

Lemma map_err_no_panic {F A} (f : E -> F) (m : outcome E A) : m <> Panic -> map_err f m <> Panic.
Proof. by destruct m. Qed.

Lemma collect_at_no_panic {A B} (f : N -> A -> outcome E B) i l :
  (forall j x, f j x <> Panic) -> collect_at f i l <> Panic.
Proof.
  intros Hf. revert i. induction l as [|x l IH]; intros i; cbn; [done|].
  apply bind_no_panic; [done|]. intros y _. by apply bind_no_panic.
Qed.

Lemma foldM_no_panic {A B} (f : A -> B -> outcome E A) (I : A -> Prop) l acc :
  (forall a b a', b ∈ l -> I a -> f a b = Ok a' -> I a') ->
  (forall a b, b ∈ l -> I a -> f a b <> Panic) -> I acc -> foldM f acc l <> Panic.
Proof.
  revert acc. induction l as [|x l IH]; intros acc Hi Hp Hacc; cbn; [done|].
  apply bind_no_panic; [apply Hp; [by left|done]|]. intros a Ha. apply IH.
  - intros ????. apply Hi. by right.
  - intros ??? . apply Hp. by right.
  - eapply Hi; [by left|done|done].
Qed.
End outcome_lemmas.

(** ** Machine integers

    An unsigned [w]-bit integer is an [N]; that it stays below its maximum is
    written out by the operation used.  The constants are notations, so the
    arithmetic decision procedures see the numerals. *)

Abbreviation u8_max := 255 (only parsing).
Abbreviation u16_max := 65535 (only parsing).
Abbreviation u32_max := 4294967295 (only parsing).
Abbreviation u64_max := 18446744073709551615 (only parsing).
Abbreviation u128_max := 340282366920938463463374607431768211455 (only parsing).

(** [a.saturating_add(b)], [a.saturating_mul(b)]; [a.saturating_sub(b)] is
    [N.sub]. *)
Definition sat_add (m a b : N) : N := N.min (a + b) m.
Definition sat_mul (m a b : N) : N := N.min (a * b) m.

(** [a + b] and [a - b] with overflow checks. *)
Definition add_checked {E} (m a b : N) : outcome E N :=
  if a + b <=? m then Ok (a + b) else Panic.
Definition sub_checked {E} (a b : N) : outcome E N :=
  if b <=? a then Ok (a - b) else Panic.

(** [uN::try_from(x)] for a signed source. *)
Definition try_from_Z (m : N) (z : Z) : option N :=
  if (0 <=? z)%Z && (z <=? Z.of_N m)%Z then Some (Z.to_N z) else None.

Lemma add_checked_Ok {E} m a b c :
  add_checked (E := E) m a b = Ok c <-> c = a + b /\ a + b <= m.
Proof. unfold add_checked. destruct (N.leb_spec (a + b) m); naive_solver lia. Qed.

Lemma add_checked_Panic {E} m a b :
  add_checked (E := E) m a b = Panic <-> m < a + b.
Proof. unfold add_checked. destruct (N.leb_spec (a + b) m); naive_solver lia. Qed.

Lemma sub_checked_Ok {E} a b c :
  sub_checked (E := E) a b = Ok c <-> c = a - b /\ b <= a.
Proof. unfold sub_checked. destruct (N.leb_spec b a); naive_solver lia. Qed.

Lemma sub_checked_Panic {E} a b :
  sub_checked (E := E) a b = Panic <-> a < b.
Proof. unfold sub_checked. destruct (N.leb_spec b a); naive_solver lia. Qed.

Lemma try_from_Z_Some m z n :
  try_from_Z m z = Some n <-> (0 <= z)%Z /\ n = Z.to_N z /\ n <= m.
Proof.
  unfold try_from_Z. destruct (Z.leb_spec 0 z), (Z.leb_spec z (Z.of_N m)); cbn;
    naive_solver lia.
Qed.

Lemma try_from_Z_of_N m n : n <= m -> try_from_Z m (Z.of_N n) = Some n.
Proof. intros. apply try_from_Z_Some. lia. Qed.

Lemma sat_add_small m a b : a + b <= m -> sat_add m a b = a + b.
Proof. unfold sat_add. lia. Qed.

Lemma sat_mul_small m a b : a * b <= m -> sat_mul m a b = a * b.
Proof. unfold sat_mul. lia. Qed.

Lemma sat_mul_le m a b : sat_mul m a b <= a * b.
Proof. unfold sat_mul. lia. Qed.

(** [N.div_le_mono] and the basis-point bound every fee and slash split uses. *)
Lemma bps_le m x bps : bps <= 10000 -> sat_mul m x bps / 10000 <= x.
Proof.
  intros. apply N.Div0.div_le_upper_bound. etrans; [apply sat_mul_le|]. nia.
Qed.

(** Case analysis on boolean comparisons, and the inversion of a successful
    run: every [let .. ?] of a function contributes its equation. *)
Ltac bool_hyps :=
  repeat match goal with
  | H : (_ && _) = true |- _ => apply andb_prop in H as [? ?]
  | H : (_ || _) = false |- _ => apply orb_false_elim in H as [? ?]
  | H : negb _ = true |- _ => apply negb_true_iff in H
  | H : negb _ = false |- _ => apply negb_false_iff in H
  | H : bool_decide _ = true |- _ => apply bool_decide_eq_true in H
  | H : bool_decide _ = false |- _ => apply bool_decide_eq_false in H
  | H : (_ <=? _) = true |- _ => apply N.leb_le in H
  | H : (_ <=? _) = false |- _ => apply N.leb_gt in H
  | H : (_ <? _) = true |- _ => apply N.ltb_lt in H
  | H : (_ <? _) = false |- _ => apply N.ltb_ge in H
  | H : (_ =? _) = true |- _ => apply N.eqb_eq in H
  | H : (_ =? _) = false |- _ => apply N.eqb_neq in H
  end.

Ltac run_step :=
  match goal with
  | H : (_ ≫= _) = Ok _ |- _ => apply bind_Ok in H as (? & ? & H)
  | H : ensure _ _ = Ok _ |- _ => apply ensure_Ok in H
  | H : ok_or _ _ = Ok _ |- _ => apply ok_or_Ok in H
  | H : map_err _ _ = Ok _ |- _ => apply map_err_Ok in H
  | H : add_checked _ _ _ = Ok _ |- _ => apply add_checked_Ok in H as [? ?]
  | H : sub_checked _ _ = Ok _ |- _ => apply sub_checked_Ok in H as [? ?]
  | H : Ok _ = Ok _ |- _ => apply Ok_inj in H
  | H : Err _ = Ok _ |- _ => discriminate H
  | H : Panic = Ok _ |- _ => discriminate H
  | x : unit |- _ => destruct x
  end.

(** A run without a panic, one [?] or [match] at a time. *)
Create HintDb panics discriminated.

Ltac no_panic :=
  repeat match goal with
  | |- Ok _ <> Panic => discriminate
  | |- Err _ <> Panic => discriminate
  | |- ensure _ _ <> Panic => apply ensure_Panic
  | |- ok_or _ _ <> Panic => apply ok_or_Panic
  | |- map_err _ _ <> Panic => apply map_err_no_panic
  | |- (_ ≫= _) <> Panic => apply bind_no_panic; [|intros ? ?]
  | |- _ <> Panic => solve [eauto with panics]
  | |- (match ?x with _ => _ end) <> Panic => destruct x eqn:?
  end.

Ltac run_inv := repeat (run_step; cbn beta in * ); bool_hyps; subst.

(** ** Bytes *)

Abbreviation bytes := (list byte).

Global Instance byte_eq_decision : EqDecision byte := Byte.byte_eq_dec.
Global Program Instance byte_countable : Countable byte :=
  inj_countable Byte.to_N Byte.of_N _.
Next Obligation. apply Byte.of_to_N. Qed.

Definition byte_of_N (n : N) : byte := default x00 (Byte.of_N (n mod 256)).

(** A byte-string literal [b"..."]. *)
Definition bstr (s : string) : bytes := list_byte_of_string s.

(** [x.to_be_bytes()] and [uN::from_be_bytes] for an [n]-byte integer. *)
Fixpoint be_bytes (n : nat) (x : N) : bytes :=
  match n with
  | O => []
  | S n' => be_bytes n' (x / 256) ++ [byte_of_N x]
  end.

Definition of_be_bytes (l : bytes) : N :=
  foldl (fun acc b => acc * 256 + Byte.to_N b) 0 l.

(** [x.to_le_bytes()] and [uN::from_le_bytes]. *)
Definition le_bytes (n : nat) (x : N) : bytes := reverse (be_bytes n x).
Definition of_le_bytes (l : bytes) : N := of_be_bytes (reverse l).

(** [v.len()] as an integer. *)
Definition len {A} (l : list A) : N := N.of_nat (length l).

Lemma to_N_byte_of_N n : Byte.to_N (byte_of_N n) = n mod 256.
Proof.
  unfold byte_of_N. destruct (Byte.of_N (n mod 256)) as [b|] eqn:Hb; cbn.
  - by apply Byte.to_of_N.
  - apply Byte.of_N_None_iff in Hb. pose proof (N.mod_lt n 256). lia.
Qed.

Lemma byte_of_N_to_N b : byte_of_N (Byte.to_N b) = b.
Proof.
  unfold byte_of_N. pose proof (Byte.to_N_bounded b).
  rewrite N.mod_small by lia. by rewrite Byte.of_to_N.
Qed.

Lemma to_N_inj a b : Byte.to_N a = Byte.to_N b -> a = b.
Proof. intros H. by rewrite <-(byte_of_N_to_N a), H, byte_of_N_to_N. Qed.

Lemma of_be_bytes_snoc l b : of_be_bytes (l ++ [b]) = of_be_bytes l * 256 + Byte.to_N b.
Proof. unfold of_be_bytes. by rewrite foldl_app. Qed.

Lemma length_be_bytes n x : length (be_bytes n x) = n.
Proof.
  revert x. induction n as [|n IH]; intros x; [done|]. cbn. rewrite length_app, IH. cbn. lia.
Qed.

Lemma length_le_bytes n x : length (le_bytes n x) = n.
Proof. unfold le_bytes. by rewrite length_reverse, length_be_bytes. Qed.

Lemma of_be_bytes_be_bytes n x : of_be_bytes (be_bytes n x) = x mod 256 ^ N.of_nat n.
Proof.
  revert x. induction n as [|n IH]; intros x; [by rewrite N.mod_1_r|].
  cbn [be_bytes]. rewrite of_be_bytes_snoc, IH, to_N_byte_of_N, Nat2N.inj_succ, N.pow_succ_r'.
  rewrite N.Div0.mod_mul_r. lia.
Qed.

Lemma of_be_bytes_small n x : x < 256 ^ N.of_nat n -> of_be_bytes (be_bytes n x) = x.
Proof. intros. rewrite of_be_bytes_be_bytes. by apply N.mod_small. Qed.

Lemma of_le_bytes_small n x : x < 256 ^ N.of_nat n -> of_le_bytes (le_bytes n x) = x.
Proof. unfold of_le_bytes, le_bytes. rewrite reverse_involutive. apply of_be_bytes_small. Qed.

Lemma be_bytes_inj n x y :
  x < 256 ^ N.of_nat n -> y < 256 ^ N.of_nat n -> be_bytes n x = be_bytes n y -> x = y.
Proof. intros Hx Hy H. by rewrite <-(of_be_bytes_small n x), H, of_be_bytes_small. Qed.

Lemma of_be_bytes_bound l : of_be_bytes l < 256 ^ N.of_nat (length l).
Proof.
  induction l as [|b l IH] using rev_ind; [done|].
  rewrite of_be_bytes_snoc, length_app. cbn [length].
  rewrite Nat.add_1_r, Nat2N.inj_succ, N.pow_succ_r'.
  pose proof (Byte.to_N_bounded b). lia.
Qed.

Lemma be_bytes_of_be_bytes l : be_bytes (length l) (of_be_bytes l) = l.
Proof.
  induction l as [|b l IH] using rev_ind; [done|].
  rewrite of_be_bytes_snoc, length_app, Nat.add_1_r. cbn [be_bytes].
  pose proof (Byte.to_N_bounded b).
  rewrite (N.div_add_l _ 256) by lia. rewrite (N.div_small (Byte.to_N b)) by lia.
  rewrite N.add_0_r, IH. f_equal. f_equal. apply to_N_inj. rewrite to_N_byte_of_N.
  rewrite N.add_comm, N.Div0.mod_add. by apply N.mod_small; lia.
Qed.

Lemma le_bytes_of_le_bytes l : le_bytes (length l) (of_le_bytes l) = l.
Proof.
  unfold le_bytes, of_le_bytes.
  by rewrite <-(length_reverse l), be_bytes_of_be_bytes, reverse_involutive.
Qed.

Lemma of_le_bytes_bound l : of_le_bytes l < 256 ^ N.of_nat (length l).
Proof. unfold of_le_bytes. rewrite <-(length_reverse l). apply of_be_bytes_bound. Qed.

(** Splitting two equal concatenations at a known width. *)
Lemma app_inj_width {A} (k1 k2 l1 l2 : list A) :
  length k1 = length k2 -> k1 ++ l1 = k2 ++ l2 -> k1 = k2 /\ l1 = l2.
Proof. intros. by apply app_inj_1. Qed.

(** *** Lexicographic order: the [Ord] of [[u8; 32]] and of [Vec<u8>] *)

Fixpoint bytes_leb (a b : bytes) : bool :=
  match a, b with
  | [], _ => true
  | _ :: _, [] => false
  | x :: a', y :: b' =>
      (Byte.to_N x <? Byte.to_N y) || ((Byte.to_N x =? Byte.to_N y) && bytes_leb a' b')
  end.

Definition bytes_le (a b : bytes) : Prop := bytes_leb a b = true.
Definition bytes_lt (a b : bytes) : Prop := bytes_le a b /\ a <> b.

Global Instance bytes_le_dec : RelDecision bytes_le.
Proof. intros a b. unfold bytes_le. apply _. Defined.

Global Instance bytes_le_total : Total bytes_le.
Proof.
  unfold bytes_le. intros a. induction a as [|x a IH]; intros [|y b]; cbn; auto.
  destruct (IH b); destruct (N.ltb_spec (Byte.to_N x) (Byte.to_N y)),
    (N.ltb_spec (Byte.to_N y) (Byte.to_N x)), (N.eqb_spec (Byte.to_N x) (Byte.to_N y)),
    (N.eqb_spec (Byte.to_N y) (Byte.to_N x)); cbn; auto; lia.
Qed.

Global Instance bytes_le_trans : Transitive bytes_le.
Proof.
  unfold bytes_le. intros a. induction a as [|x a IH]; intros [|y b] [|z c]; cbn; auto; [done|].
  rewrite !orb_true_iff, !andb_true_iff, !N.ltb_lt, !N.eqb_eq.
  intros [?|[? ?]] [?|[? ?]]; [left; lia|left; lia|left; lia|right]. split; [lia|eauto].
Qed.

Global Instance bytes_le_antisymm : AntiSymm (=) bytes_le.
Proof.
  unfold bytes_le. intros a. induction a as [|x a IH]; intros [|y b]; cbn; auto; try done.
  rewrite !orb_true_iff, !andb_true_iff, !N.ltb_lt, !N.eqb_eq.
  intros [?|[Hxy ?]] [?|[? ?]]; try lia. f_equal; [by apply to_N_inj|auto].
Qed.

Global Instance bytes_le_refl : Reflexive bytes_le.
Proof. intros a. by destruct (total bytes_le a a). Qed.

(** Big-endian keys of one width are ordered as the numbers. *)
Lemma bytes_le_app l1 l2 r1 r2 :
  length l1 = length l2 -> bytes_le (l1 ++ r1) (l2 ++ r2) <-> bytes_lt l1 l2 \/ (l1 = l2 /\ bytes_le r1 r2).
Proof.
  unfold bytes_lt, bytes_le. revert l2. induction l1 as [|x l1 IH]; intros [|y l2] Hlen; try done.
  - cbn. naive_solver.
  - injection Hlen as Hlen. specialize (IH _ Hlen). cbn.
    rewrite !orb_true_iff, !andb_true_iff, !N.ltb_lt, !N.eqb_eq, IH. split.
    + intros [?|[Hxy [[? ?]|[-> ?]]]]; [left|left|right].
      * split; [by left|]. intros [= ->]. lia.
      * split; [by right|]. by intros [= -> ->].
      * by rewrite (to_N_inj _ _ Hxy).
    + intros [[[?|[? ?]] Hne]|[[= -> ->] ?]]; [by left|right|right]; [|tauto].
      split; [done|left; split; [done|]]. intros ->. apply Hne. f_equal. by apply to_N_inj.
Qed.

Lemma bytes_le_be n a b :
  a < 256 ^ N.of_nat n -> b < 256 ^ N.of_nat n -> bytes_le (be_bytes n a) (be_bytes n b) <-> a <= b.
Proof.
  revert a b. induction n as [|n IH]; intros a b; [cbn; unfold bytes_le; cbn; lia|].
  rewrite Nat2N.inj_succ, N.pow_succ_r'. intros Ha Hb. cbn [be_bytes].
  assert (a / 256 < 256 ^ N.of_nat n) as Ha' by (apply N.Div0.div_lt_upper_bound; lia).
  assert (b / 256 < 256 ^ N.of_nat n) as Hb' by (apply N.Div0.div_lt_upper_bound; lia).
  rewrite bytes_le_app by (by rewrite !length_be_bytes). unfold bytes_lt. rewrite IH by done.
  assert (be_bytes n (a / 256) = be_bytes n (b / 256) <-> a / 256 = b / 256) as Heq.
  { split; [by apply be_bytes_inj|by intros ->]. }
  assert (bytes_le [byte_of_N a] [byte_of_N b] <-> a mod 256 <= b mod 256) as Hlast.
  { unfold bytes_le. cbn. rewrite !to_N_byte_of_N, andb_true_r, orb_true_iff, N.ltb_lt, N.eqb_eq. lia. }
  rewrite Heq, Hlast. pose proof (N.div_mod a 256 ltac:(done)) as Hda.
  pose proof (N.div_mod b 256 ltac:(done)) as Hdb. pose proof (N.mod_lt a 256 ltac:(done)) as Hma.
  pose proof (N.mod_lt b 256 ltac:(done)) as Hmb. clear -Hda Hdb Hma Hmb.
  set (a / 256) in *. set (b / 256) in *. set (a mod 256) in *. set (b mod 256) in *. lia.
Qed.

Lemma bytes_lt_be n a b :
  a < 256 ^ N.of_nat n -> b < 256 ^ N.of_nat n -> bytes_lt (be_bytes n a) (be_bytes n b) <-> a < b.
Proof.
  intros Ha Hb. unfold bytes_lt. rewrite bytes_le_be by done. split.
  - intros [? Hne]. enough (a <> b) by lia. by intros ->.
  - intros ?. split; [lia|]. intros ?%be_bytes_inj; [lia|done|done].
Qed.

(** ** Record update

    [r <| f := v |>] replaces one field and [r <| f ::= g |>] maps it.  A record
    declares its eta expansion once; the setter of each field is computed from
    it by instance search. *)

Class Settable (R : Type) := settable_eta : R -> R.
Class Setter {R T : Type} (proj : R -> T) := set : (T -> T) -> R -> R.
Arguments set {R T} proj {_} f r.

Ltac build_setter :=
  lazymatch goal with
  | |- @Setter ?R ?T ?p =>
      let eta := constr:(ltac:(typeclasses eauto) : Settable R) in
      exact (fun (f : T -> T) (r : R) =>
        ltac:(let e := eval hnf in (eta r) in
              match e with
              | context C [p r] => let e' := context C [f (p r)] in exact e'
              end))
  end.

#[export] Hint Extern 0 (Setter _) => build_setter : typeclass_instances.

Declare Scope record_scope.
Delimit Scope record_scope with rec.
#[global] Open Scope record_scope.

Notation "r <| f := v |>" := (set f (fun _ => v) r)
  (at level 1, left associativity) : record_scope.
Notation "r <| f ::= g |>" := (set f g r)
  (at level 1, left associativity) : record_scope.

(** ** Finite maps *)

(** The entries of a map in increasing key order: what
    [m.iter().collect()] followed by [sort_by_key] computes. *)
Definition le_key {K V} (le : relation K) (x y : K * V) : Prop := le x.1 y.1.

Global Instance le_key_dec {K V} (le : relation K) `{!RelDecision le} (x y : K * V) :
  Decision (le_key le x y).
Proof. unfold le_key. apply _. Defined.

Definition sorted_entries {K V} `{Countable K} (le : relation K) `{!RelDecision le}
    (m : gmap K V) : list (K * V) :=
  merge_sort (le_key le) (map_to_list m).

(** The sum of a measure over the values of a map. *)
Definition map_sum {K V} `{Countable K} (f : V -> N) (m : gmap K V) : N :=
  map_fold (fun _ v acc => f v + acc) 0 m.

Fixpoint list_sumN {A} (f : A -> N) (l : list A) : N :=
  match l with
  | [] => 0
  | x :: l' => f x + list_sumN f l'
  end.

Section maps.
Context {K V : Type} `{Countable K}.
Implicit Types (m : gmap K V) (f : V -> N).

Lemma map_sum_empty f : map_sum f (∅ : gmap K V) = 0.
Proof. apply map_fold_empty. Qed.

Lemma map_sum_insert_fresh f m k v :
  m !! k = None -> map_sum f (<[k := v]> m) = f v + map_sum f m.
Proof.
  intros. apply (map_fold_insert_L (fun _ v acc => f v + acc)); [intros; lia|done].
Qed.

Lemma map_sum_delete f m k v :
  m !! k = Some v -> map_sum f m = f v + map_sum f (delete k m).
Proof. intros. apply (map_fold_delete_L (fun _ v acc => f v + acc)); [intros; lia|done]. Qed.

Lemma map_sum_insert_Some f m k v v' :
  m !! k = Some v -> map_sum f (<[k := v']> m) + f v = map_sum f m + f v'.
Proof.
  intros Hk. rewrite <-insert_delete_eq, map_sum_insert_fresh by apply lookup_delete_eq.
  rewrite (map_sum_delete f m k v) by done. lia.
Qed.

Lemma map_sum_lookup_le f m k v : m !! k = Some v -> f v <= map_sum f m.
Proof. intros Hk. rewrite (map_sum_delete f m k v) by done. lia. Qed.

Lemma map_sum_insert_same f m k v v' :
  m !! k = Some v -> f v' = f v -> map_sum f (<[k := v']> m) = map_sum f m.
Proof. intros Hk ?. pose proof (map_sum_insert_Some f m k v v' Hk). lia. Qed.

Lemma map_sum_ext f g m :
  (forall k v, m !! k = Some v -> f v = g v) -> map_sum f m = map_sum g m.
Proof.
  induction m as [|k v m Hk IH] using map_ind; intros Hfg; [done|].
  rewrite !map_sum_insert_fresh by done. f_equal.
  - apply (Hfg k). by simplify_map_eq.
  - apply IH. intros k' v' ?. apply (Hfg k'). rewrite lookup_insert_ne; [done|naive_solver].
Qed.

Context (le : relation K) `{!RelDecision le}.

Lemma sorted_entries_Permutation m : sorted_entries le m ≡ₚ map_to_list m.
Proof. apply merge_sort_Permutation. Qed.

Lemma sorted_entries_elem m k v : (k, v) ∈ sorted_entries le m <-> m !! k = Some v.
Proof. rewrite sorted_entries_Permutation. apply elem_of_map_to_list. Qed.

Lemma sorted_entries_NoDup_fst m : NoDup (sorted_entries le m).*1.
Proof. rewrite sorted_entries_Permutation. apply NoDup_fst_map_to_list. Qed.

Lemma sorted_entries_sorted `{!Transitive le, !Total le} m :
  StronglySorted le (sorted_entries le m).*1.
Proof.
  assert (StronglySorted (le_key le) (sorted_entries le m)) as Hs.
  { apply StronglySorted_merge_sort.
    - intros x y z. unfold le_key. apply transitivity.
    - intros x y. apply (total le). }
  induction Hs as [|x l Hl IH Hx]; cbn; constructor; [done|].
  by apply Forall_fmap.
Qed.

(** A sorted list of the entries of a map is their listing. *)
Lemma sorted_entries_unique `{!Transitive le, !Total le, !AntiSymm (=) le} m (l : list (K * V)) :
  (forall k v, (k, v) ∈ l <-> m !! k = Some v) -> NoDup l -> StronglySorted le l.*1 ->
  sorted_entries le m = l.
Proof.
  intros Hl Hnd Hs. apply (StronglySorted_unique_strong (le_key le)).
  - intros [k1 v1] [k2 v2] H1%sorted_entries_elem H2%Hl H12 H21. unfold le_key in *; cbn in *.
    assert (k1 = k2) as -> by (by apply (anti_symm le)). congruence.
  - apply StronglySorted_merge_sort.
    + intros x y z. unfold le_key. apply transitivity.
    + intros x y. apply (total le).
  - clear Hl Hnd. induction l as [|x l IH]; [constructor|].
    apply StronglySorted_inv in Hs as [Hs Hx]. constructor; [by apply IH|].
    change (Forall (le x.1) l.*1) in Hx. rewrite Forall_fmap in Hx. exact Hx.
  - apply NoDup_Permutation; [|done|].
    + eapply NoDup_fmap_1, sorted_entries_NoDup_fst.
    + intros [k v]. by rewrite sorted_entries_elem, Hl.
Qed.

(** The listing determines the map. *)
Lemma sorted_entries_inj m1 m2 : sorted_entries le m1 = sorted_entries le m2 -> m1 = m2.
Proof.
  intros Heq. apply map_eq. intros k. apply option_eq. intros v.
  by rewrite <-!sorted_entries_elem, Heq.
Qed.
End maps.

Lemma map_sum_fmap {K V W} `{Countable K} (f : V -> N) (g : W -> V) (m : gmap K W) :
  map_sum f (g <$> m) = map_sum (fun w => f (g w)) m.
Proof.
  induction m as [|k v m Hk IH] using map_ind; [by rewrite fmap_empty|].
  rewrite fmap_insert, !map_sum_insert_fresh, IH; [done|done|].
  by rewrite lookup_fmap, Hk.
Qed.

Lemma list_sumN_app {A} (f : A -> N) l1 l2 :
  list_sumN f (l1 ++ l2) = list_sumN f l1 + list_sumN f l2.
Proof. induction l1; cbn; lia. Qed.

Lemma list_sumN_Permutation {A} (f : A -> N) l1 l2 :
  l1 ≡ₚ l2 -> list_sumN f l1 = list_sumN f l2.
Proof. induction 1; cbn; lia. Qed.

Lemma list_sumN_const {A} (c : N) (l : list A) : list_sumN (fun _ => c) l = c * len l.
Proof. unfold len. induction l; cbn [list_sumN length]; lia. Qed.

(** A saturating sum is the plain sum cut at the maximum. *)
Lemma foldl_sat_add {A} m (f : A -> N) l acc :
  acc <= m -> foldl (fun acc x => sat_add m acc (f x)) acc l = N.min (acc + list_sumN f l) m.
Proof.
  revert acc. induction l as [|x l IH]; intros acc ?; cbn; [lia|].
  rewrite IH; unfold sat_add; lia.
Qed.

#[global] Arguments be_bytes : simpl never.
#[global] Arguments le_bytes : simpl never.
#[global] Arguments of_be_bytes : simpl never.
#[global] Arguments of_le_bytes : simpl never.
#[global] Arguments len : simpl never.

Create HintDb viper discriminated.
#[export] Hint Resolve sat_mul_le bps_le : viper.
#[export] Hint Rewrite @length_be_bytes @length_le_bytes @length_app @length_reverse : viper.
