(* ===== verification/Crypto.v ===== *)
(** * pqc-crypto: algorithm and hash registries, tagged hashing, Merkle trees,
      address derivation and TLV envelopes.

    SHAKE-256 itself comes from the [sha3] crate and is a parameter, [Shake]; its
    only law is that reading [n] bytes yields [n] bytes.  Signature verification is the
    parameter [Verifier] of the modules that use it.
    Binding theorems are stated against an explicit list of the inputs that were
    hashed: either the committed values agree, or two different inputs of that
    list have the same digest. *)

From S2P Require Import Prelude.

(** ** [alg.rs] *)

Module AlgId.
Inductive t : Set :=
  | MlDsa44 | MlDsa65 | MlDsa87 | FnDsaPadded512
  | SlhDsaSha2128s | SlhDsaShake192s | SlhDsaShake256s | SlhDsaShake128s
  | MlKem768.

Global Instance eq_dec : EqDecision t.
Proof. solve_decision. Defined.

Definition as_u16 (a : t) : N :=
  match a with
  | MlDsa44 => 0x0001
  | MlDsa65 => 0x0002
  | MlDsa87 => 0x0003
  | FnDsaPadded512 => 0x0010
  | SlhDsaSha2128s => 0x0020
  | SlhDsaShake192s => 0x0021
  | SlhDsaShake256s => 0x0022
  | SlhDsaShake128s => 0x0023
  | MlKem768 => 0x0100
  end.

Definition from_u16 (v : N) : option t :=
  match v with
  | 0x0001 => Some MlDsa44
  | 0x0002 => Some MlDsa65
  | 0x0003 => Some MlDsa87
  | 0x0010 => Some FnDsaPadded512
  | 0x0020 => Some SlhDsaSha2128s
  | 0x0021 => Some SlhDsaShake192s
  | 0x0022 => Some SlhDsaShake256s
  | 0x0023 => Some SlhDsaShake128s
  | 0x0100 => Some MlKem768
  | _ => None
  end.

Definition allowed_for_consensus (a : t) : bool :=
  match a with MlDsa65 | MlDsa87 | SlhDsaShake192s => true | _ => false end.

Definition allowed_for_archival (a : t) : bool :=
  match a with SlhDsaShake192s | SlhDsaShake256s => true | _ => false end.

Lemma alg_from_as_u16 a : from_u16 (as_u16 a) = Some a.
Proof. by destruct a. Qed.

Lemma alg_as_u16_inj a b : as_u16 a = as_u16 b -> a = b.
Proof. intros H. apply (inj Some). by rewrite <-!alg_from_as_u16, H. Qed.

Lemma alg_as_u16_lt a : as_u16 a < 65536.
Proof. by destruct a. Qed.

Lemma alg_from_u16_as_u16 v a : from_u16 v = Some a -> as_u16 a = v.
Proof.
  unfold from_u16.
  repeat match goal with |- context [match ?x with _ => _ end] => destruct x end;
    intros [= <-] || intros [=]; reflexivity.
Qed.
End AlgId.

Module Lifecycle.
Inductive t : Set := Active | Discouraged | Deprecated | Banned.

Global Instance eq_dec : EqDecision t.
Proof. solve_decision. Defined.

Definition admits_transactions (l : t) : bool :=
  match l with Active | Discouraged => true | _ => false end.
End Lifecycle.

Module SigClass.
Inductive t : Set := Reduced | Standard | Premium.

Global Instance eq_dec : EqDecision t.
Proof. solve_decision. Defined.
End SigClass.

(** ** [registry.rs], [hash_registry.rs] *)

Record AlgEntry := mkAlgEntry {
  alg_id : AlgId.t;
  alg_spec_ref : bytes;
  alg_pk_size : N;
  alg_sig_size : N;
  alg_sig_class : option SigClass.t;
  alg_min_fee : N;
  alg_lifecycle : Lifecycle.t;
  alg_benchmark_verify_per_sec : N
}.

Global Instance eta_AlgEntry : Settable AlgEntry := fun x =>
  mkAlgEntry (alg_id x) (alg_spec_ref x) (alg_pk_size x) (alg_sig_size x) (alg_sig_class x)
    (alg_min_fee x) (alg_lifecycle x) (alg_benchmark_verify_per_sec x).

Definition phase1_registry : list AlgEntry :=
  [ mkAlgEntry AlgId.MlDsa44 (bstr "FIPS 204") 1312 2420 (Some SigClass.Standard) 0 Lifecycle.Active 89000;
    mkAlgEntry AlgId.MlDsa65 (bstr "FIPS 204") 1952 3309 (Some SigClass.Standard) 0 Lifecycle.Active 55000;
    mkAlgEntry AlgId.MlDsa87 (bstr "FIPS 204") 2592 4627 (Some SigClass.Standard) 0 Lifecycle.Active 37000;
    mkAlgEntry AlgId.FnDsaPadded512 (bstr "FIPS 206 (draft)") 897 666 (Some SigClass.Reduced) 0 Lifecycle.Active 62000;
    mkAlgEntry AlgId.SlhDsaSha2128s (bstr "FIPS 205") 32 7856 (Some SigClass.Premium) 0 Lifecycle.Active 951;
    mkAlgEntry AlgId.SlhDsaShake128s (bstr "FIPS 205") 32 7856 (Some SigClass.Premium) 0 Lifecycle.Active 951;
    mkAlgEntry AlgId.SlhDsaShake192s (bstr "FIPS 205") 48 16224 (Some SigClass.Premium) 0 Lifecycle.Active 312;
    mkAlgEntry AlgId.SlhDsaShake256s (bstr "FIPS 205") 64 29792 (Some SigClass.Premium) 0 Lifecycle.Active 132;
    mkAlgEntry AlgId.MlKem768 (bstr "FIPS 203") 1184 0 None 0 Lifecycle.Active 0 ].

(** [HashId(pub u8)]; the sentinel [0x00] has no value. *)
Definition HASH_ID_SENTINEL : N := 0x00.
Definition HASH_ID_SHAKE_256 : N := 0x01.
Definition HASH_CORE_RESERVED_MAX : N := 0x0F.

Definition HashId_from_u8 (raw : N) : option N :=
  if raw =? HASH_ID_SENTINEL then None else Some raw.

Record HashEntry := mkHashEntry {
  hash_id : N;
  hash_spec_ref : bytes;
  hash_output_size_bytes : N;
  hash_lifecycle : Lifecycle.t
}.

Definition phase1_hash_registry : list HashEntry :=
  [ mkHashEntry HASH_ID_SHAKE_256 (bstr "FIPS 202 (SHAKE-256)") 32 Lifecycle.Active ].

(** ** [hash.rs] *)

(** The extendable-output function: [n] bytes of output over an input. *)
Class Shake := {
  shake256 : nat -> bytes -> bytes;
  shake256_length : forall n d, length (shake256 n d) = n
}.

Definition shake256_32 `{Shake} (data : bytes) : bytes := shake256 32 data.
Definition shake256_n `{Shake} (n : nat) (chunks : list bytes) : bytes :=
  shake256 n (concat chunks).

Lemma shake256_32_length `{Shake} d : length (shake256_32 d) = 32%nat.
Proof. apply shake256_length. Qed.

(** Two inputs of [Q] with one digest. *)
Definition collision_in `{Shake} (Q : list bytes) : Prop :=
  exists x y, x ∈ Q /\ y ∈ Q /\ x <> y /\ shake256_32 x = shake256_32 y.

Section hashing.
Context `{Shake}.

Definition tagged_preimage (tag data : bytes) : bytes :=
  shake256_32 tag ++ shake256_32 tag ++ data.

Definition tagged_hash (tag data : bytes) : bytes :=
  shake256_32 (tagged_preimage tag data).

(** [TaggedHasher]: the absorbed bytes. *)
Definition TaggedHasher_new (tag : bytes) : bytes := shake256_32 tag ++ shake256_32 tag.
Definition push_chunk (d chunk : bytes) : bytes :=
  d ++ be_bytes 8 (N.min (len chunk) u64_max) ++ chunk.
Definition push_u64 (d : bytes) (v : N) : bytes := push_chunk d (be_bytes 8 v).
Definition finish (d : bytes) : bytes := shake256_32 d.

(** A whole [TaggedHasher] run over its chunks in order. *)
Definition chunks_preimage (tag : bytes) (chunks : list bytes) : bytes :=
  foldl push_chunk (TaggedHasher_new tag) chunks.
Definition hash_chunks (tag : bytes) (chunks : list bytes) : bytes :=
  finish (chunks_preimage tag chunks).

(** One layer of the fold: adjacent pairs, a trailing node with itself. *)
Fixpoint merkle_layer (branch_domain : bytes) (layer : list bytes) : list bytes :=
  match layer with
  | a :: b :: rest => tagged_hash branch_domain (a ++ b) :: merkle_layer branch_domain rest
  | [a] => [tagged_hash branch_domain (a ++ a)]
  | [] => []
  end.

(** [while layer.len() > 1]; the layer halves, so its length is enough fuel. *)
Fixpoint merkle_loop (branch_domain : bytes) (fuel : nat) (layer : list bytes) : bytes :=
  match fuel, layer with
  | S fuel', _ :: _ :: _ => merkle_loop branch_domain fuel' (merkle_layer branch_domain layer)
  | _, a :: _ => a
  | _, [] => []
  end.

Definition binary_merkle_root (leaves : list bytes) (branch_domain : bytes) : bytes :=
  match leaves with
  | [] => tagged_hash branch_domain []
  | _ => merkle_loop branch_domain (length leaves) leaves
  end.
End hashing.

#[global] Arguments push_chunk : simpl never.

(** ** [error.rs]; the text inside [Backend] and [Bech32mEncodingError] is left out. *)

Module CryptoError.
Inductive t : Set :=
  | UnknownAlgId (raw : N)
  | NotASigningAlgorithm (a : AlgId.t)
  | AlgorithmBanned (a : AlgId.t)
  | PublicKeyLengthMismatch (a : AlgId.t) (expected got : N)
  | SignatureLengthMismatch (a : AlgId.t) (expected got : N)
  | VerificationFailed
  | InvalidKeySize
  | InvalidSignatureSize
  | Backend
  | KemInvalidKey
  | Bech32mEncodingError.
End CryptoError.

(** ** [sign.rs]: the trait [SignatureVerifier].  [verify a pk msg sig] is
    [verify(..).is_ok()] for a key and a signature of algorithm [a]; [PqVerifier] has the
    node's implementation. *)

Class Verifier := verify : AlgId.t -> bytes -> bytes -> bytes -> bool.

(** ** [address.rs] *)

Definition ADDRESS_DOMAIN_V1 : bytes := bstr "VIPER-ADDR-V1".

Definition derive_address `{Shake} (chain_id : bytes) (a : AlgId.t) (pk_bytes : bytes) : bytes :=
  tagged_hash ADDRESS_DOMAIN_V1 (chain_id ++ be_bytes 2 (AlgId.as_u16 a) ++ pk_bytes).

(** ** [envelope.rs] *)


Definition ENVELOPE_VERSION : byte := x01.
Definition HEADER_SIZE : N := 5.

Definition encode_envelope (a : AlgId.t) (payload : bytes) : outcome CryptoError.t bytes :=
  ensure (len payload <=? u16_max) CryptoError.InvalidSignatureSize ;;
  Ok (ENVELOPE_VERSION :: le_bytes 2 (AlgId.as_u16 a)
        ++ le_bytes 2 (len payload) ++ payload).

Definition decode_envelope (b : bytes) : outcome CryptoError.t (AlgId.t * bytes) :=
  match b with
  | version :: a0 :: a1 :: l0 :: l1 :: rest =>
      ensure (bool_decide (version = ENVELOPE_VERSION)) CryptoError.InvalidSignatureSize ;;
      let algo_id_raw := of_le_bytes [a0; a1] in
      let payload_len := of_le_bytes [l0; l1] in
      ensure (len b =? HEADER_SIZE + payload_len) CryptoError.InvalidSignatureSize ;;
      a ← ok_or (AlgId.from_u16 algo_id_raw) CryptoError.InvalidSignatureSize;
      Ok (a, rest)
  | _ => Err CryptoError.InvalidSignatureSize
  end.

(** ** Binding of tagged hashes *)

Section binding.
Context `{Shake}.
Implicit Types (tag data : bytes).

Lemma tagged_hash_length tag data : length (tagged_hash tag data) = 32%nat.
Proof. apply shake256_32_length. Qed.

Lemma hash_chunks_length tag cs : length (hash_chunks tag cs) = 32%nat.
Proof. apply shake256_32_length. Qed.

Lemma collision_in_mono (Q1 Q2 : list bytes) :
  Q1 ⊆ Q2 -> collision_in Q1 -> collision_in Q2.
Proof. intros Hsub (x & y & ? & ? & ? & ?). exists x, y. auto. Qed.

(** Equal digests of two hashed inputs: the inputs agree, or they collide. *)
Lemma shake_inj_or Q x y :
  x ∈ Q -> y ∈ Q -> shake256_32 x = shake256_32 y -> x = y \/ collision_in Q.
Proof. intros. destruct (decide (x = y)); [by left|right]. exists x, y. auto. Qed.

Lemma tagged_preimage_inj tag data1 data2 :
  tagged_preimage tag data1 = tagged_preimage tag data2 -> data1 = data2.
Proof. unfold tagged_preimage. intros Heq. by apply app_inv_head, app_inv_head in Heq. Qed.

Lemma tagged_preimage_tag tag1 tag2 data1 data2 :
  tagged_preimage tag1 data1 = tagged_preimage tag2 data2 ->
  shake256_32 tag1 = shake256_32 tag2.
Proof.
  unfold tagged_preimage. intros Heq. apply app_inj_width in Heq as [? _]; [done|].
  by rewrite !shake256_32_length.
Qed.

(** Length-prefixed chunks have a unique parse. *)
Definition chunk_ok (c : bytes) : Prop := len c <= u64_max.

Lemma push_chunk_app d c : push_chunk d c = d ++ push_chunk [] c.
Proof. done. Qed.

Lemma foldl_push_chunk_app d cs : foldl push_chunk d cs = d ++ foldl push_chunk [] cs.
Proof.
  revert d. induction cs as [|c cs IH]; intros d; cbn; [by rewrite app_nil_r|].
  rewrite IH, (IH (push_chunk [] c)), push_chunk_app. by rewrite app_assoc.
Qed.

Lemma chunks_inj cs1 cs2 :
  Forall chunk_ok cs1 -> Forall chunk_ok cs2 ->
  foldl push_chunk [] cs1 = foldl push_chunk [] cs2 -> cs1 = cs2.
Proof.
  revert cs2. induction cs1 as [|c1 cs1 IH]; intros [|c2 cs2] H1 H2; cbn [foldl].
  - done.
  - rewrite foldl_push_chunk_app. unfold push_chunk at 1.
    intros Heq%(f_equal length). autorewrite with viper in Heq. cbn in Heq. lia.
  - rewrite foldl_push_chunk_app. unfold push_chunk at 1.
    intros Heq%(f_equal length). autorewrite with viper in Heq. cbn in Heq. lia.
  - rewrite foldl_push_chunk_app, (foldl_push_chunk_app (push_chunk [] c2)).
    unfold push_chunk at 1 3. cbn [app]. rewrite <-!app_assoc. intros Heq.
    apply Forall_cons_1 in H1 as [Hc1 H1], H2 as [Hc2 H2]. unfold chunk_ok in Hc1, Hc2.
    apply app_inj_width in Heq as [Hlen Heq]; [|by rewrite !length_be_bytes].
    apply be_bytes_inj in Hlen; [|cbn; lia|cbn; lia].
    apply app_inj_width in Heq as [-> Heq]; [|unfold len in *; lia].
    f_equal. by apply IH.
Qed.

Lemma chunks_preimage_inj tag cs1 cs2 :
  Forall chunk_ok cs1 -> Forall chunk_ok cs2 ->
  chunks_preimage tag cs1 = chunks_preimage tag cs2 -> cs1 = cs2.
Proof.
  unfold chunks_preimage. intros ?? Heq.
  rewrite foldl_push_chunk_app, (foldl_push_chunk_app (TaggedHasher_new _)) in Heq.
  by apply app_inv_head, chunks_inj in Heq.
Qed.
End binding.

(** ** Binding of the Merkle root

    The fold over a list of tagged leaves computes the digest of an explicit
    binary tree.  Digests of trees are injective up to a collision, and the tree
    determines the leaf list as long as the leaves are pairwise different: the
    self-paired trailing node then cannot be mistaken for a second leaf. *)

Section merkle.
Context `{Shake} (leaf_domain branch_domain : bytes).

Inductive mtree : Type :=
  | MLeaf (payload : bytes)
  | MNode (l r : mtree).

Fixpoint mhash (t : mtree) : bytes :=
  match t with
  | MLeaf p => tagged_hash leaf_domain p
  | MNode l r => tagged_hash branch_domain (mhash l ++ mhash r)
  end.

Fixpoint mleaves (t : mtree) : list bytes :=
  match t with
  | MLeaf p => [p]
  | MNode l r => mleaves l ++ mleaves r
  end.

Fixpoint tree_layer (ts : list mtree) : list mtree :=
  match ts with
  | a :: b :: rest => MNode a b :: tree_layer rest
  | [a] => [MNode a a]
  | [] => []
  end.

Fixpoint tree_loop (fuel : nat) (ts : list mtree) : mtree :=
  match fuel, ts with
  | S fuel', _ :: _ :: _ => tree_loop fuel' (tree_layer ts)
  | _, a :: _ => a
  | _, [] => MLeaf []
  end.

Definition merkle_tree (ps : list bytes) : mtree := tree_loop (length ps) (MLeaf <$> ps).

(** The inputs SHAKE-256 is evaluated on when the root of a tree is computed. *)
Fixpoint tree_queries (t : mtree) : list bytes :=
  match t with
  | MLeaf p => [tagged_preimage leaf_domain p]
  | MNode l r =>
      tagged_preimage branch_domain (mhash l ++ mhash r) :: tree_queries l ++ tree_queries r
  end.

Definition merkle_queries (ps : list bytes) : list bytes :=
  leaf_domain :: branch_domain :: tree_queries (merkle_tree ps).

(** The root over leaves tagged with [leaf_domain]. *)
Definition tagged_root (ps : list bytes) : bytes :=
  binary_merkle_root (tagged_hash leaf_domain <$> ps) branch_domain.

(** *** The fold computes the digest of the tree *)

Lemma mtree_list_ind (P : list mtree -> Prop) :
  P [] -> (forall a, P [a]) -> (forall a b l, P l -> P (a :: b :: l)) -> forall l, P l.
Proof.
  intros H0 H1 H2. fix IH 1. intros [|a [|b l]]; [apply H0|apply H1|apply H2, IH].
Qed.

Lemma merkle_layer_tree ts :
  merkle_layer branch_domain (mhash <$> ts) = mhash <$> tree_layer ts.
Proof. induction ts as [|a|a b ts IH] using mtree_list_ind; cbn; [done..|]. by rewrite IH. Qed.

Lemma length_tree_layer ts : (2 * length (tree_layer ts) <= length ts + 1)%nat.
Proof. induction ts as [|a|a b ts IH] using mtree_list_ind; cbn in *; lia. Qed.

Lemma merkle_loop_tree fuel ts :
  ts <> [] -> merkle_loop branch_domain fuel (mhash <$> ts) = mhash (tree_loop fuel ts).
Proof.
  revert ts. induction fuel as [|fuel IH]; intros [|a [|b ts]] Hne; try done.
  change (merkle_loop branch_domain fuel (merkle_layer branch_domain (mhash <$> a :: b :: ts))
    = mhash (tree_loop fuel (tree_layer (a :: b :: ts)))).
  rewrite merkle_layer_tree. by apply IH.
Qed.

Lemma tagged_root_tree ps : ps <> [] -> tagged_root ps = mhash (merkle_tree ps).
Proof.
  intros Hne. unfold tagged_root, merkle_tree, binary_merkle_root.
  assert (tagged_hash leaf_domain <$> ps = mhash <$> (MLeaf <$> ps)) as ->.
  { rewrite <-list_fmap_compose. done. }
  destruct ps as [|p ps]; [done|]. cbn [fmap list_fmap].
  rewrite <-merkle_loop_tree by done. cbn. by rewrite !length_fmap.
Qed.

(** *** Digests of trees are injective up to a collision *)

Lemma mhash_length t : length (mhash t) = 32%nat.
Proof. destruct t; apply tagged_hash_length. Qed.

Lemma mhash_inj_or Q t1 t2 :
  leaf_domain <> branch_domain -> leaf_domain ∈ Q -> branch_domain ∈ Q ->
  tree_queries t1 ⊆ Q -> tree_queries t2 ⊆ Q ->
  mhash t1 = mhash t2 -> t1 = t2 \/ collision_in Q.
Proof.
  intros Hdom Hl Hb. revert t2.
  induction t1 as [p1|l1 IHl r1 IHr]; intros [p2|l2 r2] Hq1 Hq2 Heq; cbn in *.
  all: apply (shake_inj_or Q) in Heq as [Heq|?];
    [|by right|apply Hq1; by left|apply Hq2; by left].
  - left. f_equal. by eapply tagged_preimage_inj.
  - right. apply tagged_preimage_tag in Heq. exists leaf_domain, branch_domain. auto.
  - right. apply tagged_preimage_tag in Heq. exists leaf_domain, branch_domain. auto.
  - apply tagged_preimage_inj, app_inj_width in Heq as [Hl12 Hr12]; [|by rewrite !mhash_length].
    apply list_subseteq_cons_iff in Hq1 as [_ [Hq1l Hq1r]%list_subseteq_app_iff_l].
    apply list_subseteq_cons_iff in Hq2 as [_ [Hq2l Hq2r]%list_subseteq_app_iff_l].
    destruct (IHl l2) as [->|?]; [done..| |by right].
    destruct (IHr r2) as [->|?]; [done..| |by right]. by left.
Qed.

(** *** The tree determines a duplicate-free leaf list *)

Definition flat (ts : list mtree) : list bytes := ts ≫= mleaves.

(** [ps] is a prefix of [F] and covers it. *)
Definition covers (ps F : list bytes) : Prop := ps `prefix_of` F /\ F ⊆ ps.

Lemma flat_tree_layer ts : exists k, flat (tree_layer ts) = flat ts ++ k /\ k ⊆ flat ts.
Proof.
  induction ts as [|a|a b ts (k & Hk & Hsub)] using mtree_list_ind.
  - by exists [].
  - exists (mleaves a). cbn. rewrite !app_nil_r. split; [done|set_solver].
  - exists k. unfold flat in *. cbn. rewrite Hk, !app_assoc. split; [done|set_solver].
Qed.

Lemma tree_layer_covers ps ts : covers ps (flat ts) -> covers ps (flat (tree_layer ts)).
Proof.
  destruct (flat_tree_layer ts) as (k & -> & Hk). intros [Hpre Hsub]. split.
  - by apply prefix_app_r.
  - set_solver.
Qed.

Lemma tree_layer_nil ts : tree_layer ts = [] -> ts = [].
Proof. by destruct ts as [|a [|b ts]]. Qed.

Lemma tree_loop_covers ps fuel ts :
  ts <> [] -> (length ts <= S fuel)%nat ->
  covers ps (flat ts) -> covers ps (mleaves (tree_loop fuel ts)).
Proof.
  revert ts. induction fuel as [|fuel IH]; intros [|a [|b ts]] Hne Hlen Hcov;
    try done; cbn in Hlen; try lia.
  1,2: by unfold flat in Hcov; cbn in Hcov; rewrite app_nil_r in Hcov.
  change (tree_loop (S fuel) (a :: b :: ts)) with (tree_loop fuel (tree_layer (a :: b :: ts))).
  apply IH; [done| |by apply tree_layer_covers].
  pose proof (length_tree_layer (a :: b :: ts)). cbn in *. lia.
Qed.

Lemma flat_MLeaf ps : flat (MLeaf <$> ps) = ps.
Proof. induction ps as [|p ps IH]; [done|]. unfold flat in *. cbn. by rewrite IH. Qed.

Lemma merkle_tree_covers ps : ps <> [] -> covers ps (mleaves (merkle_tree ps)).
Proof.
  intros Hne. apply tree_loop_covers; [by destruct ps|rewrite length_fmap; lia|].
  rewrite flat_MLeaf. by split.
Qed.

Lemma covers_unique ps1 ps2 F :
  NoDup ps1 -> NoDup ps2 -> covers ps1 F -> covers ps2 F -> ps1 = ps2.
Proof.
  intros Hn1 Hn2 [Hp1 Hs1] [Hp2 Hs2].
  assert (forall a b, NoDup a -> F ⊆ b -> a `prefix_of` F -> b `prefix_of` a -> a = b) as Hgo.
  { intros a b Hna Hsub HaF [[|x k] ->]; [by rewrite app_nil_r|]. exfalso.
    apply NoDup_app in Hna as (_ & Hdis & _). apply (Hdis x); [|left].
    apply Hsub. destruct HaF as [? ->]. set_solver. }
  destruct (prefix_weak_total ps1 ps2 F); [done..| |].
  - symmetry. by apply Hgo.
  - by apply Hgo.
Qed.

Lemma merkle_tree_inj ps1 ps2 :
  ps1 <> [] -> ps2 <> [] -> NoDup ps1 -> NoDup ps2 ->
  merkle_tree ps1 = merkle_tree ps2 -> ps1 = ps2.
Proof.
  intros Hne1 Hne2 Hn1 Hn2 Heq. eapply covers_unique; [done|done|by apply merkle_tree_covers|].
  rewrite Heq. by apply merkle_tree_covers.
Qed.

Lemma tagged_root_inj_or ps1 ps2 :
  leaf_domain <> branch_domain ->
  ps1 <> [] -> ps2 <> [] -> NoDup ps1 -> NoDup ps2 ->
  tagged_root ps1 = tagged_root ps2 ->
  ps1 = ps2 \/ collision_in (merkle_queries ps1 ++ merkle_queries ps2).
Proof.
  intros ????? Heq. rewrite !tagged_root_tree in Heq by done.
  destruct (mhash_inj_or (merkle_queries ps1 ++ merkle_queries ps2)
    (merkle_tree ps1) (merkle_tree ps2)) as [?|?]; auto.
  - apply elem_of_app; left. by left.
  - apply elem_of_app; left. right. by left.
  - apply list_subseteq_app_l. by do 2 apply list_subseteq_cons.
  - apply list_subseteq_app_r. by do 2 apply list_subseteq_cons.
  - left. by apply merkle_tree_inj.
Qed.
End merkle.

(** ** Envelopes *)

Lemma length_two {A} (l : list A) : length l = 2%nat -> exists a b, l = [a; b].
Proof. destruct l as [|a [|b [|]]]; naive_solver. Qed.

Lemma encode_decode_envelope a p b :
  encode_envelope a p = Ok b -> decode_envelope b = Ok (a, p).
Proof.
  unfold encode_envelope. intros Henc. run_inv.
  destruct (length_two (le_bytes 2 (AlgId.as_u16 a))) as (a0 & a1 & Ha);
    [apply length_le_bytes|].
  destruct (length_two (le_bytes 2 (len p))) as (l0 & l1 & Hl); [apply length_le_bytes|].
  rewrite Ha, Hl. cbn -[N.eqb]. rewrite <-Ha, <-Hl, !of_le_bytes_small.
  - rewrite bool_decide_true by done. cbn -[N.eqb].
    assert (len (ENVELOPE_VERSION :: a0 :: a1 :: l0 :: l1 :: p) =? HEADER_SIZE + len p = true)
      as ->. { apply N.eqb_eq. unfold len, HEADER_SIZE. cbn [length]. lia. }
    cbn. by rewrite AlgId.alg_from_as_u16.
  - change (256 ^ N.of_nat 2) with 65536. lia.
  - change (256 ^ N.of_nat 2) with 65536. apply AlgId.alg_as_u16_lt.
Qed.

Lemma decode_encode_envelope a p b :
  decode_envelope b = Ok (a, p) -> encode_envelope a p = Ok b.
Proof.
  unfold decode_envelope. destruct b as [|v [|a0 [|a1 [|l0 [|l1 rest]]]]]; try done.
  intros Hdec. run_inv. injection Hdec as -> ->.
  apply AlgId.alg_from_u16_as_u16 in H1.
  assert (len p = of_le_bytes [l0; l1]) as Hlen
    by (unfold len, HEADER_SIZE in *; cbn [length] in *; lia).
  unfold encode_envelope. rewrite Hlen, H1.
  rewrite (le_bytes_of_le_bytes [l0; l1] : le_bytes 2 _ = _).
  rewrite (le_bytes_of_le_bytes [a0; a1] : le_bytes 2 _ = _).
  pose proof (of_le_bytes_bound [l0; l1]) as Hb. change (256 ^ N.of_nat (length [l0; l1]))
    with 65536 in Hb. by rewrite (proj2 (N.leb_le _ _)) by lia.
Qed.

(** ** A concrete hash and verifier, for evaluating the model on examples

    [example_shake] is a polynomial hash over the input bytes;
    [example_verifier] accepts exactly the signatures equal to the message. *)

Definition example_mix (acc : N) (b : byte) : N :=
  N.land (acc * 257 + Byte.to_N b + 1) (N.ones 48).

Definition example_shake : Shake := {|
  shake256 := fun n d => be_bytes n (foldl example_mix 0 d);
  shake256_length := fun n d => length_be_bytes n (foldl example_mix 0 d)
|}.

Definition example_verifier : Verifier :=
  fun _ _ msg sig => bool_decide (msg = sig).
