(* ===== verification/Text.v ===== *)
(** * Text: hexadecimal, decimal and trimmed strings.

    A Rust [String] is its UTF-8 bytes.  The [hex] crate is the parameter [Hex], with its
    documented behaviour as laws.  [str::trim] and the zero-padded formatting of integers
    belong to the standard library. *)

From S2P Require Import Prelude Crypto.

(** [0-9] or [a-f] *)
Definition is_lower_hex (c : byte) : bool :=
  let n := Byte.to_N c in ((48 <=? n) && (n <=? 57)) || ((97 <=? n) && (n <=? 102)).

(** [hex::encode] writes two lower-case digits per byte; [hex::decode] reads an even number
    of digits, and what was written is read back. *)
Class Hex := {
  hex_encode : bytes -> bytes;
  hex_decode : bytes -> option bytes;
  hex_encode_length : forall b, length (hex_encode b) = (2 * length b)%nat;
  hex_encode_lower : forall b, Forall is_lower_hex (hex_encode b);
  hex_decode_encode : forall b, hex_decode (hex_encode b) = Some b;
  hex_decode_length : forall s b, hex_decode s = Some b -> length s = (2 * length b)%nat
}.

Lemma hex_encode_inj `{Hex} a b : hex_encode a = hex_encode b -> a = b.
Proof. intros He%(f_equal hex_decode). rewrite !hex_decode_encode in He. congruence. Qed.

(** ** Trimming *)

(** The encodings of the characters with the property [White_Space]. *)
Definition whitespace : list bytes :=
  [ [x09]; [x0a]; [x0b]; [x0c]; [x0d]; [x20]; [xc2; x85]; [xc2; xa0]; [xe1; x9a; x80];
    [xe2; x80; x80]; [xe2; x80; x81]; [xe2; x80; x82]; [xe2; x80; x83]; [xe2; x80; x84];
    [xe2; x80; x85]; [xe2; x80; x86]; [xe2; x80; x87]; [xe2; x80; x88]; [xe2; x80; x89];
    [xe2; x80; x8a]; [xe2; x80; xa8]; [xe2; x80; xa9]; [xe2; x80; xaf]; [xe2; x81; x9f];
    [xe3; x80; x80] ].

(** [str::strip_prefix] *)
Definition strip_prefix (p s : bytes) : option bytes :=
  if bool_decide (take (length p) s = p) then Some (drop (length p) s) else None.

(** One character of [ws] off the front, as often as there is one. *)
Fixpoint trim_front (ws : list bytes) (fuel : nat) (s : bytes) : bytes :=
  match fuel with
  | O => s
  | S fuel' =>
      match list_find (fun p => is_Some (strip_prefix p s)) ws with
      | Some (_, p) => trim_front ws fuel' (drop (length p) s)
      | None => s
      end
  end.

(** [str::trim]: a string has at most as many characters as bytes. *)
Definition trim (s : bytes) : bytes :=
  let s := trim_front whitespace (length s) s in
  reverse (trim_front (reverse <$> whitespace) (length s) (reverse s)).

(** [s.trim_start_matches("0x")] *)
Fixpoint trim_0x (fuel : nat) (s : bytes) : bytes :=
  match fuel with
  | O => s
  | S fuel' => match strip_prefix (bstr "0x") s with Some s' => trim_0x fuel' s' | None => s end
  end.
Definition trim_start_0x (s : bytes) : bytes := trim_0x (length s) s.

(** ** Hexadecimal text survives trimming *)

Lemma strip_prefix_digits p s :
  Forall is_lower_hex s -> existsb (fun c => negb (is_lower_hex c)) p = true -> strip_prefix p s = None.
Proof.
  intros Hs Hp. apply existsb_exists in Hp as (c & Hin & Hc). unfold strip_prefix.
  rewrite bool_decide_false; [done|]. intros He. apply (Forall_take _ (length p)) in Hs.
  rewrite He, Forall_forall in Hs. specialize (Hs c (proj2 (list_elem_of_In _ _) Hin)). cbn in Hs.
  by destruct (is_lower_hex c).
Qed.

Lemma trim_front_digits ws fuel s :
  Forall is_lower_hex s -> forallb (existsb (fun c => negb (is_lower_hex c))) ws = true ->
  trim_front ws fuel s = s.
Proof.
  intros Hs Hws. destruct fuel; [done|]. cbn. destruct (list_find _ ws) as [[i p]|] eqn:Hf; [|done].
  apply list_find_Some in Hf as (Hi & Hp & _). exfalso.
  rewrite (strip_prefix_digits p s Hs) in Hp; [by apply is_Some_None in Hp|].
  apply (proj1 (forallb_forall _ _) Hws). apply list_elem_of_In, (list_elem_of_lookup_2 _ _ _ Hi).
Qed.

Lemma trim_digits s : Forall is_lower_hex s -> trim s = s.
Proof.
  intros Hs. unfold trim. rewrite (trim_front_digits whitespace) by (done || reflexivity).
  rewrite trim_front_digits by (by rewrite ?Forall_reverse || reflexivity). apply reverse_involutive.
Qed.

Lemma trim_start_0x_digits s : Forall is_lower_hex s -> trim_start_0x s = s.
Proof.
  intros Hs. unfold trim_start_0x. destruct (length s); [done|]. cbn.
  by rewrite (strip_prefix_digits (bstr "0x")).
Qed.

(** ** An example *)

Definition hex_digit (n : N) : byte := byte_of_N (if n <? 10 then 48 + n else 87 + n).
Definition digit_value (c : byte) : option N :=
  let n := Byte.to_N c in
  if (48 <=? n) && (n <=? 57) then Some (n - 48)
  else if (97 <=? n) && (n <=? 102) then Some (n - 87)
  else if (65 <=? n) && (n <=? 70) then Some (n - 55) else None.

Definition example_hex_encode (b : bytes) : bytes :=
  b ≫= fun x => [hex_digit (Byte.to_N x / 16); hex_digit (Byte.to_N x mod 16)].
Fixpoint example_hex_decode (s : bytes) : option bytes :=
  match s with
  | [] => Some []
  | hi :: lo :: s' =>
      h ← digit_value hi; l ← digit_value lo; rest ← example_hex_decode s';
      Some (byte_of_N (16 * h + l) :: rest)
  | _ => None
  end.

Lemma digit_value_hex n : n < 16 -> digit_value (hex_digit n) = Some n /\ is_lower_hex (hex_digit n) = true.
Proof.
  intros Hn. unfold digit_value, is_lower_hex, hex_digit. rewrite to_N_byte_of_N.
  destruct (N.ltb_spec n 10); rewrite N.mod_small by lia.
  - replace (48 <=? 48 + n) with true by (symmetry; apply N.leb_le; lia).
    replace (48 + n <=? 57) with true by (symmetry; apply N.leb_le; lia).
    split; [|done]. f_equal. lia.
  - replace (87 + n <=? 57) with false by (symmetry; apply N.leb_gt; lia).
    replace (97 <=? 87 + n) with true by (symmetry; apply N.leb_le; lia).
    replace (87 + n <=? 102) with true by (symmetry; apply N.leb_le; lia).
    rewrite andb_false_r. split; [|done]. f_equal. lia.
Qed.

Lemma nibbles x : Byte.to_N x / 16 < 16 /\ Byte.to_N x mod 16 < 16.
Proof.
  pose proof (Byte.to_N_bounded x). split; [apply N.Div0.div_lt_upper_bound; lia|by apply N.mod_lt].
Qed.

Lemma example_hex_decode_length n s b :
  (length s <= n)%nat -> example_hex_decode s = Some b -> length s = (2 * length b)%nat.
Proof.
  revert s b. induction n as [|n IH]; intros [|hi [|lo s]] b Hn Hd; cbn in *; simplify_option_eq; try done; try lia.
  match goal with H : example_hex_decode s = Some _ |- _ => apply IH in H; cbn; lia end.
Qed.

Definition example_hex : Hex.
Proof.
  refine {| hex_encode := example_hex_encode; hex_decode := example_hex_decode |}.
  - induction b as [|x b IH]; [done|]. cbn in *. fold (example_hex_encode b). lia.
  - induction b as [|x b IH]; [constructor|]. destruct (nibbles x) as [Hh Hl].
    apply Forall_app. split; [|exact IH]. repeat constructor; by apply Is_true_true, digit_value_hex.
  - induction b as [|x b IH]; [done|]. destruct (nibbles x) as [Hh Hl].
    change (example_hex_encode (x :: b)) with
      (hex_digit (Byte.to_N x / 16) :: hex_digit (Byte.to_N x mod 16) :: example_hex_encode b).
    cbn [example_hex_decode]. rewrite (proj1 (digit_value_hex _ Hh)), (proj1 (digit_value_hex _ Hl)).
    cbn [mbind option_bind]. rewrite IH. cbn [mbind option_bind]. do 2 f_equal.
    rewrite <-(N.div_mod (Byte.to_N x) 16) by done. apply byte_of_N_to_N.
  - intros s b. exact (example_hex_decode_length (length s) s b (le_n _)).
Defined.
