(* ===== verification/Types.v ===== *)
(** * pqc-types: the chain's data.

    Newtypes around [[u8; 32]] ([Address], [TxHash], [AttestationId], [AnchorId],
    [BlockHash]) are the bytes themselves.  Enums live in a module of their own so
    that a constructor reads as in the source ([KeyStatus.Active]); struct fields
    carry a prefix.  Also here: key lookup, account invariants and the churn
    limits. *)

From S2P Require Import Prelude Crypto.

Abbreviation Address := bytes.
Abbreviation TxHash := bytes.

(** ** [keyset.rs] *)

Module KeyStatus.
Inductive t : Set := Pending | Active | Revoked.

Global Instance eq_dec : EqDecision t.
Proof. solve_decision. Defined.
End KeyStatus.

Module allowed_tx.
Definition VAULT : N := N.shiftl 1 0.
Definition ATTESTATION : N := N.shiftl 1 1.
Definition KEY_MGMT : N := N.shiftl 1 2.
Definition GOVERNANCE : N := N.shiftl 1 3.
Definition ALL : N := N.lor (N.lor (N.lor VAULT ATTESTATION) KEY_MGMT) GOVERNANCE.
Definition SLH_DSA_ONLY : N := KEY_MGMT.
End allowed_tx.

Record KeyEntry := mkKeyEntry {
  key_alg_id : AlgId.t;
  key_pk_bytes : bytes;
  key_version : N;
  key_valid_from_height : N;
  key_status : KeyStatus.t;
  key_allowed_tx_types : N
}.

Global Instance eta_KeyEntry : Settable KeyEntry := fun x =>
  mkKeyEntry (key_alg_id x) (key_pk_bytes x) (key_version x) (key_valid_from_height x)
    (key_status x) (key_allowed_tx_types x).

Definition can_sign (k : KeyEntry) (tx_type_bit current_height : N) : bool :=
  bool_decide (key_status k = KeyStatus.Active)
  && (key_valid_from_height k <=? current_height)
  && negb (N.land (key_allowed_tx_types k) tx_type_bit =? 0).

Inductive KeyLookupError : Set :=
  | KeyLookupNotFound
  | AlgMismatch
  | KeyRevoked
  | KeyNotYetActive (valid_from_height : N)
  | PermissionDenied.

Abbreviation KeySet := (list KeyEntry).

Module KeySetOps.
Definition lookup (keys : KeySet) (alg : AlgId.t) (version tx_type_bit current_height : N)
    : outcome KeyLookupError KeyEntry :=
  entry ← ok_or (list_find (fun k => key_version k = version) keys) KeyLookupNotFound;
  let k := snd entry in
  ensure (bool_decide (key_alg_id k = alg)) AlgMismatch ;;
  ensure (negb (bool_decide (key_status k = KeyStatus.Revoked))) KeyRevoked ;;
  ensure (key_valid_from_height k <=? current_height)
    (KeyNotYetActive (key_valid_from_height k)) ;;
  ensure (bool_decide (key_status k = KeyStatus.Active))
    (KeyNotYetActive (key_valid_from_height k)) ;;
  ensure (negb (N.land (key_allowed_tx_types k) tx_type_bit =? 0)) PermissionDenied ;;
  Ok k.

Definition has_active_key (keys : KeySet) : bool :=
  existsb (fun k => bool_decide (key_status k = KeyStatus.Active)) keys.

(** [any(|k| !seen.insert(k.key_version))] *)
Fixpoint has_duplicate_versions_from (seen : list N) (keys : KeySet) : bool :=
  match keys with
  | [] => false
  | k :: rest =>
      bool_decide (key_version k ∈ seen)
      || has_duplicate_versions_from (key_version k :: seen) rest
  end.

Definition has_duplicate_versions (keys : KeySet) : bool :=
  has_duplicate_versions_from [] keys.
End KeySetOps.

(** ** [account.rs] *)

Definition VERIFIER_TEMPLATE_ID_EOA : N := 0x0001.

Record Account := mkAccount {
  acc_address : Address;
  acc_balance : N;
  acc_nonce : N;
  acc_keys : KeySet;
  acc_policy_version : N;
  acc_policy_hash : option bytes;
  acc_verifier_template_id : N;
  acc_auth_data : bytes
}.

Global Instance eta_Account : Settable Account := fun x =>
  mkAccount (acc_address x) (acc_balance x) (acc_nonce x) (acc_keys x)
    (acc_policy_version x) (acc_policy_hash x) (acc_verifier_template_id x) (acc_auth_data x).

Inductive InvariantViolation : Set := I1_NoActiveKey | I2_DuplicateVersions | I3_EoaAuthData.

Definition check_invariants (a : Account) : outcome InvariantViolation unit :=
  ensure (KeySetOps.has_active_key (acc_keys a)) I1_NoActiveKey ;;
  ensure (negb (KeySetOps.has_duplicate_versions (acc_keys a))) I2_DuplicateVersions ;;
  ensure (negb ((acc_verifier_template_id a =? VERIFIER_TEMPLATE_ID_EOA)
                && negb (bool_decide (acc_auth_data a = [])))) I3_EoaAuthData.

(** The account [distribute_block_fees], [credit_treasury] and [token_transfer]
    create for a recipient that has none. *)
Definition implicit_account (addr : Address) (balance : N) : Account :=
  mkAccount addr balance 0 [] 0 None VERIFIER_TEMPLATE_ID_EOA [].

(** ** [transaction.rs] *)

Module MsgType.
Inductive t : Set :=
  | VaultCreate | VaultPolicyUpdate | TokenTransfer
  | AttestationCreate | AttestationRevoke | ProofAnchor
  | KeyAdd | KeyRotate | KeyRevoke | ConsensusKeyRotate
  | GovernanceProposal | GovernanceVote
  | ValidatorRegister | ValidatorExit | ValidatorUnjail
  | SubmitEquivocationEvidence | ValidatorRotatePeerId | ValidatorRegisterArchivalKey
  | ArchivalRecordSubmit | ArchivalRecordAddAnchor | ArchivalRecordRenew.

Global Instance eq_dec : EqDecision t.
Proof. solve_decision. Defined.

Definition as_u16 (m : t) : N :=
  match m with
  | VaultCreate => 0x0001
  | VaultPolicyUpdate => 0x0002
  | TokenTransfer => 0x0003
  | AttestationCreate => 0x0100
  | AttestationRevoke => 0x0101
  | ProofAnchor => 0x0102
  | KeyAdd => 0x0200
  | KeyRotate => 0x0201
  | KeyRevoke => 0x0202
  | ConsensusKeyRotate => 0x0203
  | GovernanceProposal => 0x0300
  | GovernanceVote => 0x0301
  | ValidatorRegister => 0x0400
  | ValidatorExit => 0x0401
  | ValidatorUnjail => 0x0402
  | SubmitEquivocationEvidence => 0x0403
  | ValidatorRotatePeerId => 0x0404
  | ValidatorRegisterArchivalKey => 0x0405
  | ArchivalRecordSubmit => 0x0700
  | ArchivalRecordAddAnchor => 0x0701
  | ArchivalRecordRenew => 0x0702
  end.

Definition from_u16 (v : N) : option t :=
  match v with
  | 0x0001 => Some VaultCreate
  | 0x0002 => Some VaultPolicyUpdate
  | 0x0003 => Some TokenTransfer
  | 0x0100 => Some AttestationCreate
  | 0x0101 => Some AttestationRevoke
  | 0x0102 => Some ProofAnchor
  | 0x0200 => Some KeyAdd
  | 0x0201 => Some KeyRotate
  | 0x0202 => Some KeyRevoke
  | 0x0203 => Some ConsensusKeyRotate
  | 0x0300 => Some GovernanceProposal
  | 0x0301 => Some GovernanceVote
  | 0x0400 => Some ValidatorRegister
  | 0x0401 => Some ValidatorExit
  | 0x0402 => Some ValidatorUnjail
  | 0x0403 => Some SubmitEquivocationEvidence
  | 0x0404 => Some ValidatorRotatePeerId
  | 0x0405 => Some ValidatorRegisterArchivalKey
  | 0x0700 => Some ArchivalRecordSubmit
  | 0x0701 => Some ArchivalRecordAddAnchor
  | 0x0702 => Some ArchivalRecordRenew
  | _ => None
  end.

Definition required_permission_bit (m : t) : N :=
  match m with
  | VaultCreate | VaultPolicyUpdate | TokenTransfer => allowed_tx.VAULT
  | AttestationCreate | AttestationRevoke | ProofAnchor => allowed_tx.ATTESTATION
  | KeyAdd | KeyRotate | KeyRevoke | ConsensusKeyRotate => allowed_tx.KEY_MGMT
  | GovernanceProposal | GovernanceVote => allowed_tx.GOVERNANCE
  | ValidatorRegister | ValidatorExit | ValidatorUnjail | SubmitEquivocationEvidence
  | ValidatorRotatePeerId | ValidatorRegisterArchivalKey | ArchivalRecordSubmit
  | ArchivalRecordAddAnchor | ArchivalRecordRenew => allowed_tx.GOVERNANCE
  end.

Lemma msg_from_as_u16 m : from_u16 (as_u16 m) = Some m.
Proof. by destruct m. Qed.
End MsgType.

Record Transaction := mkTransaction {
  tx_version : N;
  tx_chain_id : bytes;
  tx_msg_type : MsgType.t;
  tx_sender : Address;
  tx_nonce : N;
  tx_fee : N;
  tx_fee_tip : N;
  tx_gas_limit : N;
  tx_payload : bytes;
  tx_sig_alg_id : AlgId.t;
  tx_sig_key_version : N;
  tx_signature : bytes
}.

Global Instance eta_Transaction : Settable Transaction := fun x =>
  mkTransaction (tx_version x) (tx_chain_id x) (tx_msg_type x) (tx_sender x) (tx_nonce x)
    (tx_fee x) (tx_fee_tip x) (tx_gas_limit x) (tx_payload x) (tx_sig_alg_id x)
    (tx_sig_key_version x) (tx_signature x).

(** ** [validator.rs] *)

Definition VALIDATOR_MAX_ACTIVE_SET_SIZE : N := 24.
Definition VALIDATOR_UNBONDING_PERIOD : N := 120.
Definition VALIDATOR_EPOCH_DURATION_DEVNET : N := 60.
Definition VALIDATOR_PEER_ID_MAX_LEN : N := 64.

Module ValidatorStatus.
Inductive t : Set :=
  | Candidate
  | Active
  | Jailed
  | Unbonding (start_height : N)
  | Exited.

Global Instance eq_dec : EqDecision t.
Proof. solve_decision. Defined.
End ValidatorStatus.

Record ValidatorRecord := mkValidatorRecord {
  val_operator : Address;
  val_node_id : bytes;
  val_consensus_alg_id : AlgId.t;
  val_consensus_pk : bytes;
  val_self_bond : N;
  val_status : ValidatorStatus.t;
  val_registered_height : N;
  val_tombstoned : bool
}.

Global Instance eta_ValidatorRecord : Settable ValidatorRecord := fun x =>
  mkValidatorRecord (val_operator x) (val_node_id x) (val_consensus_alg_id x)
    (val_consensus_pk x) (val_self_bond x) (val_status x) (val_registered_height x)
    (val_tombstoned x).

Definition val_is_active (v : ValidatorRecord) : bool :=
  bool_decide (val_status v = ValidatorStatus.Active).

Record ValidatorRegisterPayload := mkValidatorRegisterPayload {
  reg_node_id : bytes;
  reg_consensus_alg_id : N;
  reg_consensus_pk : bytes;
  reg_self_bond : N;
  reg_peer_id : bytes
}.

(** ** [churn.rs] *)

Record ChurnConfig := mkChurnConfig {
  activation_target_bps : N;
  activation_min_stake : N;
  exit_target_bps : N;
  exit_min_stake : N
}.

Definition viper_pq_1 : ChurnConfig := mkChurnConfig 39 0 313 0.

Definition stake_weighted_activation_limit (active_stake : N) (cfg : ChurnConfig) : N :=
  let scaled := sat_mul u128_max active_stake (activation_target_bps cfg) / 10000 in
  N.max (activation_min_stake cfg) scaled.

Definition stake_weighted_exit_limit (active_stake : N) (cfg : ChurnConfig) : N :=
  let scaled := sat_mul u128_max active_stake (exit_target_bps cfg) / 10000 in
  N.max (exit_min_stake cfg) scaled.

(** ** [consensus_rotation.rs], [attestation.rs], [proof_anchor.rs] *)

Record ConsensusKeyRotation := mkConsensusKeyRotation {
  rot_operator : Address;
  rot_new_alg_id : AlgId.t;
  rot_new_pk_bytes : bytes;
  rot_rotation_start_height : N;
  rot_recorded_at_height : N
}.

Module AttestationStatus.
Inductive t : Set := Active | Revoked.

Global Instance eq_dec : EqDecision t.
Proof. solve_decision. Defined.
End AttestationStatus.

Record AttestationRevocation := mkAttestationRevocation {
  rev_revoked_at_height : N;
  rev_revoker : Address;
  rev_revocation_reason_hash : option bytes
}.

Record Attestation := mkAttestation {
  att_attestation_id : bytes;
  att_attester : Address;
  att_subject : bytes;
  att_attestation_type : N;
  att_content_hash : bytes;
  att_schema_id : bytes;
  att_metadata_hash : option bytes;
  att_anchor_height : N;
  att_expires_at_height : option N;
  att_status : AttestationStatus.t;
  att_revocation : option AttestationRevocation
}.

Global Instance eta_Attestation : Settable Attestation := fun x =>
  mkAttestation (att_attestation_id x) (att_attester x) (att_subject x)
    (att_attestation_type x) (att_content_hash x) (att_schema_id x) (att_metadata_hash x)
    (att_anchor_height x) (att_expires_at_height x) (att_status x) (att_revocation x).

Definition is_supported_attestation_type (ty : N) : bool := (0x0001 <=? ty) && (ty <=? 0x0006).

Record ProofAnchor := mkProofAnchor {
  pa_anchor_id : bytes;
  pa_claimer : Address;
  pa_claim_type : N;
  pa_asset_id_hash : bytes;
  pa_proof_hash : bytes;
  pa_schema_id : option bytes;
  pa_anchor_height : N
}.

Definition is_supported_claim_type (ty : N) : bool := (0x0001 <=? ty) && (ty <=? 0x0003).

(** ** [governance.rs] *)

Module GovernanceProposalType.
Inductive t : Set :=
  | RegistryUpdate | BurnRateUpdate | FeeParamUpdate | SoftwareUpgrade
  | AddAlgorithm | AddSlashingVerifier | AddHash | AddAuthTemplate.

Global Instance eq_dec : EqDecision t.
Proof. solve_decision. Defined.

Definition from_u8 (raw : N) : option t :=
  match raw with
  | 0x01 => Some RegistryUpdate
  | 0x02 => Some BurnRateUpdate
  | 0x03 => Some FeeParamUpdate
  | 0x04 => Some SoftwareUpgrade
  | 0x05 => Some AddAlgorithm
  | 0x06 => Some AddSlashingVerifier
  | 0x07 => Some AddHash
  | 0x08 => Some AddAuthTemplate
  | _ => None
  end.

Definition as_u8 (p : t) : N :=
  match p with
  | RegistryUpdate => 0x01
  | BurnRateUpdate => 0x02
  | FeeParamUpdate => 0x03
  | SoftwareUpgrade => 0x04
  | AddAlgorithm => 0x05
  | AddSlashingVerifier => 0x06
  | AddHash => 0x07
  | AddAuthTemplate => 0x08
  end.
End GovernanceProposalType.

Module ProposalStatus.
Inductive t : Set := Voting | Executed | Expired | Rejected | ExecutionFailed.

Global Instance eq_dec : EqDecision t.
Proof. solve_decision. Defined.
End ProposalStatus.

Record AddAlgorithmProposal := mkAddAlgorithmProposal {
  aap_alg_id : N;
  aap_spec_ref : bytes;
  aap_pk_size : N;
  aap_sig_size : N;
  aap_sig_class : option N;
  aap_min_fee : N;
  aap_benchmark_verify_per_sec : N;
  aap_initial_lifecycle : Lifecycle.t
}.

Definition decode_sig_class (raw : N) : option (option SigClass.t) :=
  match raw with
  | 0 => Some None
  | 1 => Some (Some SigClass.Reduced)
  | 2 => Some (Some SigClass.Standard)
  | 3 => Some (Some SigClass.Premium)
  | _ => None
  end.

Record AddAuthTemplateProposal := mkAddAuthTemplateProposal {
  aat_template_id : N;
  aat_spec_ref : bytes;
  aat_lifecycle : Lifecycle.t
}.

Record AddHashProposal := mkAddHashProposal {
  ahp_hash_id : N;
  ahp_spec_ref : bytes;
  ahp_output_size_bytes : N;
  ahp_initial_lifecycle : Lifecycle.t
}.

(** [SlashingVerifierProposal] and [SlashingVerifierEntry] have the same fields. *)
Record SlashingVerifierEntry := mkSlashingVerifierEntry {
  sv_evidence_type : N;
  sv_spec_ref : bytes;
  sv_slash_fraction_bps : N;
  sv_jail_duration_blocks : N;
  sv_tombstone : bool;
  sv_lifecycle : Lifecycle.t
}.

Inductive ProposalEffect : Type :=
  | EffRegistryUpdate (alg : AlgId.t) (target_lifecycle : option Lifecycle.t)
      (new_min_fee : option N)
  | EffBurnRateUpdate (new_burn_rate_bps : N)
  | EffFeeParamUpdate (new_block_gas_limit : N)
  | EffSoftwareUpgrade (activate_at_timestamp_ns expected_version : N)
  | EffAddAlgorithm (p : AddAlgorithmProposal)
  | EffAddSlashingVerifier (p : SlashingVerifierEntry)
  | EffAddHash (p : AddHashProposal)
  | EffAddAuthTemplate (p : AddAuthTemplateProposal).

Record PendingUpgrade := mkPendingUpgrade {
  upg_proposal_id : TxHash;
  upg_activate_at_timestamp_ns : N;
  upg_expected_version : N
}.

Record PendingProposal := mkPendingProposal {
  prop_proposal_id : TxHash;
  prop_proposal_type : GovernanceProposalType.t;
  prop_proposer : Address;
  prop_voting_deadline : N;
  prop_execute_after : N;
  prop_effect : ProposalEffect;
  prop_votes : gmap bytes bool;
  prop_status : ProposalStatus.t;
  prop_rationale_hash : bytes
}.

Global Instance eta_PendingProposal : Settable PendingProposal := fun x =>
  mkPendingProposal (prop_proposal_id x) (prop_proposal_type x) (prop_proposer x)
    (prop_voting_deadline x) (prop_execute_after x) (prop_effect x) (prop_votes x)
    (prop_status x) (prop_rationale_hash x).

Record GovernanceReceipt := mkGovernanceReceipt {
  rcp_proposal_id : TxHash;
  rcp_proposal_type : GovernanceProposalType.t;
  rcp_proposer : Address;
  rcp_target_alg_id : AlgId.t;
  rcp_lifecycle_before : Lifecycle.t;
  rcp_lifecycle_after : Lifecycle.t;
  rcp_min_fee_before : N;
  rcp_min_fee_after : N;
  rcp_rationale_hash : bytes;
  rcp_executed_at_height : N
}.

(** ** [slashing.rs] *)

Record EquivocationVote := mkEquivocationVote {
  ev_height : N;
  ev_round : N;
  ev_block_hash : bytes;
  ev_step : N;
  ev_signature : bytes
}.

Record RecentSlashEntry := mkRecentSlashEntry {
  rs_height : N;
  rs_slashed_stake : N
}.

Record EquivocationEvidence := mkEquivocationEvidence {
  evid_validator_address : bytes;
  evid_height : N;
  evid_vote_a : EquivocationVote;
  evid_vote_b : EquivocationVote
}.

(** ** [archival.rs] *)

Module AnchorKind.
Inductive t : Set := Rfc3161Tsa | BitcoinOpReturn | EthereumL1 | OtherTsa.

Global Instance eq_dec : EqDecision t.
Proof. solve_decision. Defined.

Definition as_u8 (k : t) : N :=
  match k with
  | Rfc3161Tsa => 0x01
  | BitcoinOpReturn => 0x02
  | EthereumL1 => 0x03
  | OtherTsa => 0xFF
  end.

Definition from_u8 (raw : N) : option t :=
  match raw with
  | 0x01 => Some Rfc3161Tsa
  | 0x02 => Some BitcoinOpReturn
  | 0x03 => Some EthereumL1
  | 0xFF => Some OtherTsa
  | _ => None
  end.
End AnchorKind.

Record TsaRef := mkTsaRef {
  tsa_url : bytes;
  tsa_cert_fingerprint_sha256 : bytes;
  tsa_policy_oid : option bytes
}.

Record TimestampAnchor := mkTimestampAnchor {
  anc_kind : AnchorKind.t;
  anc_tsa_ref : option TsaRef;
  anc_external_hash : bytes;
  anc_posted_at_height : N
}.

Record ValidatorArchivalKey := mkValidatorArchivalKey {
  vak_operator : bytes;
  vak_archival_alg_id : N;
  vak_archival_pk : bytes;
  vak_registered_at_height : N
}.

Record ArchivalRecord := mkArchivalRecord {
  ar_epoch_number : N;
  ar_epoch_root : bytes;
  ar_signer_addresses : list bytes;
  ar_slh_signatures : list bytes;
  ar_timestamp_anchors : list TimestampAnchor;
  ar_evidence_record_version : N
}.

Global Instance eta_ArchivalRecord : Settable ArchivalRecord := fun x =>
  mkArchivalRecord (ar_epoch_number x) (ar_epoch_root x) (ar_signer_addresses x)
    (ar_slh_signatures x) (ar_timestamp_anchors x) (ar_evidence_record_version x).

(** ** Key-set facts *)

Lemma has_active_key_spec keys :
  KeySetOps.has_active_key keys = true <->
  exists k, k ∈ keys /\ key_status k = KeyStatus.Active.
Proof.
  unfold KeySetOps.has_active_key. rewrite existsb_exists.
  setoid_rewrite <-list_elem_of_In. setoid_rewrite bool_decide_eq_true. done.
Qed.

Lemma has_duplicate_versions_from_spec seen keys :
  NoDup seen ->
  KeySetOps.has_duplicate_versions_from seen keys = false <->
  NoDup (reverse (key_version <$> keys) ++ seen).
Proof.
  revert seen. induction keys as [|k keys IH]; intros seen Hseen; [done|].
  rewrite fmap_cons, reverse_cons, <-app_assoc.
  cbn [KeySetOps.has_duplicate_versions_from app]. rewrite orb_false_iff.
  split.
  - intros [Hk Hd]. bool_hyps. apply IH; [by constructor|done].
  - intros Hnd. assert (NoDup (key_version k :: seen)) as Hks.
    { by apply NoDup_app in Hnd as (_ & _ & ?). }
    split; [|by apply IH]. apply bool_decide_eq_false. by apply NoDup_cons_1_1 in Hks.
Qed.

Lemma has_duplicate_versions_spec keys :
  KeySetOps.has_duplicate_versions keys = false <-> NoDup (key_version <$> keys).
Proof.
  unfold KeySetOps.has_duplicate_versions.
  rewrite has_duplicate_versions_from_spec by constructor.
  by rewrite app_nil_r, reverse_Permutation.
Qed.

(** The invariants I-1 and I-2 as properties of the key list. *)
Lemma check_invariants_Ok a u :
  check_invariants a = Ok u ->
  (exists k, k ∈ acc_keys a /\ key_status k = KeyStatus.Active) /\
  NoDup (key_version <$> acc_keys a).
Proof.
  unfold check_invariants. intros Hc. run_inv.
  by rewrite <-has_active_key_spec, <-has_duplicate_versions_spec.
Qed.

Lemma lookup_Ok keys alg version bit h k :
  KeySetOps.lookup keys alg version bit h = Ok k ->
  k ∈ keys /\ key_version k = version /\ key_alg_id k = alg /\ can_sign k bit h = true.
Proof.
  unfold KeySetOps.lookup. intros Hl. run_inv.
  destruct x as [i k]; cbn in *. apply list_find_Some in H as (Hi & ? & _).
  apply list_elem_of_lookup_2 in Hi. unfold can_sign.
  repeat split; try done.
  rewrite bool_decide_true by done. cbn.
  by rewrite (proj2 (N.leb_le _ _)), (proj2 (N.eqb_neq _ _)) by done.
Qed.
