(* ===== verification/Cbor.v ===== *)
(** * CBOR values and the payload-decoding idiom.

    The [ciborium] crate is a parameter: [from_reader] parses bytes into a
    [Value.t], [into_writer] serialises one.  No law is built in; a round-trip
    theorem assumes [cbor_roundtrips v] for the one value it serialises.  Every
    payload decoder of the node is a loop over the entries of a CBOR map with
    integer keys; [decode_fields] is that loop. *)

From S2P Require Import Prelude.

Module Value.
Unset Elimination Schemes.
Inductive t : Type :=
  | Integer (z : Z)
  | Bytes (b : bytes)
  | Float (bits : N)
  | Text (s : bytes)
  | Bool (b : bool)
  | Null
  | Tag (tag : N) (v : t)
  | Array (l : list t)
  | Map (m : list (t * t)).
Set Elimination Schemes.
End Value.

(** [Value::Integer(n.into())] for an unsigned [n]. *)
Definition Value_uint (n : N) : Value.t := Value.Integer (Z.of_N n).

Class Ciborium := {
  from_reader : bytes -> option Value.t;
  into_writer : Value.t -> bytes
}.

Definition cbor_roundtrips `{Ciborium} (v : Value.t) : Prop :=
  from_reader (into_writer v) = Some v.

(** The decoding loop: entries in wire order, a key that is not an integer is
    an error, a repeated key overwrites. *)
Definition int_key {E} (e : E) (k : Value.t) : outcome E Z :=
  match k with Value.Integer z => Ok z | _ => Err e end.

Definition decode_fields {E A} (e : E) (field : A -> Z -> Value.t -> outcome E A) (init : A)
    (pairs : list (Value.t * Value.t)) : outcome E A :=
  foldM (fun acc kv => key ← int_key e kv.1; field acc key kv.2) init pairs.

(** [uN::try_from(i128::from(expect_integer(v)?))]. *)
Definition expect_uint {E} (e : E) (max : N) (v : Value.t) : outcome E N :=
  match v with
  | Value.Integer z => ok_or (try_from_Z max z) e
  | _ => Err e
  end.

Definition expect_bytes {E} (e : E) (v : Value.t) : outcome E bytes :=
  match v with Value.Bytes b => Ok b | _ => Err e end.

Definition expect_text {E} (e : E) (v : Value.t) : outcome E bytes :=
  match v with Value.Text s => Ok s | _ => Err e end.

Definition expect_map {E} (e : E) (v : Value.t) : outcome E (list (Value.t * Value.t)) :=
  match v with Value.Map m => Ok m | _ => Err e end.

Definition expect_array {E} (e : E) (v : Value.t) : outcome E (list Value.t) :=
  match v with Value.Array l => Ok l | _ => Err e end.

(** A byte string of a fixed width; [e_len] is the error for the wrong width. *)
Definition expect_bytes_n {E} (e e_len : E) (n : N) (v : Value.t) : outcome E bytes :=
  b ← expect_bytes e v;
  ensure (len b =? n) e_len ;;
  Ok b.

(** [String::from_utf8]: the well-formed byte sequences of the Unicode standard
    (table 3-7). *)
Definition in_range (lo hi : N) (b : byte) : bool :=
  (lo <=? Byte.to_N b) && (Byte.to_N b <=? hi).

Fixpoint utf8_valid (s : bytes) : bool :=
  match s with
  | [] => true
  | a :: s1 =>
      if in_range 0x00 0x7F a then utf8_valid s1
      else match s1 with
      | [] => false
      | b :: s2 =>
          if in_range 0xC2 0xDF a then in_range 0x80 0xBF b && utf8_valid s2
          else match s2 with
          | [] => false
          | c :: s3 =>
              if in_range 0xE0 0xEF a then
                (if Byte.to_N a =? 0xE0 then in_range 0xA0 0xBF b
                 else if Byte.to_N a =? 0xED then in_range 0x80 0x9F b
                 else in_range 0x80 0xBF b)
                && in_range 0x80 0xBF c && utf8_valid s3
              else match s3 with
              | [] => false
              | d :: s4 =>
                  in_range 0xF0 0xF4 a
                  && (if Byte.to_N a =? 0xF0 then in_range 0x90 0xBF b
                      else if Byte.to_N a =? 0xF4 then in_range 0x80 0x8F b
                      else in_range 0x80 0xBF b)
                  && in_range 0x80 0xBF c && in_range 0x80 0xBF d && utf8_valid s4
              end
          end
      end
  end.

(** ** Facts used by the round trips *)

Section facts.
Context {E : Type}.

Lemma decode_fields_nil {A} (e : E) field (init : A) :
  decode_fields e field init [] = Ok init.
Proof. done. Qed.

Lemma decode_fields_uint {A} (e : E) field (init : A) k v rest :
  decode_fields e field init ((Value_uint k, v) :: rest) =
  (acc ← field init (Z.of_N k) v; decode_fields e field acc rest).
Proof. done. Qed.

Lemma decode_fields_app {A} (e : E) field (init : A) l1 l2 :
  decode_fields e field init (l1 ++ l2) =
  (acc ← decode_fields e field init l1; decode_fields e field acc l2).
Proof. apply foldM_app. Qed.

(** An invariant of the field handler is an invariant of the decoded fields. *)
Lemma decode_fields_invariant {A} (e : E) field (I : A -> Prop) init pairs r :
  (forall acc key v acc', I acc -> field acc key v = Ok acc' -> I acc') ->
  I init -> decode_fields e field init pairs = Ok r -> I r.
Proof.
  intros Hf. apply foldM_invariant. intros acc [k v] acc' _ Hacc Hs. run_inv. eauto.
Qed.

Lemma expect_uint_of_N (e : E) max n :
  n <= max -> expect_uint e max (Value_uint n) = Ok n.
Proof. intros. cbn. by rewrite try_from_Z_of_N. Qed.

Lemma expect_uint_Ok (e : E) max v n :
  expect_uint e max v = Ok n -> n <= max /\ v = Value_uint n.
Proof.
  destruct v; cbn; try done. intros Hz. run_inv.
  apply try_from_Z_Some in Hz as (? & -> & ?). split; [done|].
  unfold Value_uint. by rewrite Z2N.id.
Qed.

Lemma expect_bytes_n_Bytes (e e_len : E) n b :
  len b = n -> expect_bytes_n e e_len n (Value.Bytes b) = Ok b.
Proof. intros <-. cbn. by rewrite N.eqb_refl. Qed.

Lemma expect_bytes_Ok (e : E) v b : expect_bytes e v = Ok b -> v = Value.Bytes b.
Proof. destruct v; cbn; try done. by intros [= ->]. Qed.

Lemma expect_bytes_n_Ok (e e_len : E) n v b :
  expect_bytes_n e e_len n v = Ok b -> len b = n /\ v = Value.Bytes b.
Proof.
  unfold expect_bytes_n. intros Hb. run_inv. by apply expect_bytes_Ok in H.
Qed.
End facts.

#[export] Hint Rewrite @decode_fields_uint @decode_fields_nil : cbor.

(** A reader and writer for one value, for evaluating the model on examples. *)
Definition example_cbor (v : Value.t) : Ciborium := {|
  from_reader := fun _ => Some v;
  into_writer := fun _ => [x00]
|}.

(** A reader with a table of documents, for the same purpose. *)
Definition example_codec (docs : list (bytes * Value.t)) : Ciborium := {|
  from_reader := fun b => (fun d => snd (snd d)) <$> list_find (fun d => fst d = b) docs;
  into_writer := fun _ => [x00]
|}.
