(* ===== verification/Payloads.v ===== *)
(** * Transaction payloads of accounts, attestations, validators and slashing.

    The decoders of [pqc-state/src/apply/*.rs] and the evidence codec of
    [pqc-types/src/slashing.rs].  The diagnostic text inside [PayloadDecode] is
    dropped; which error a decoder returns is kept. *)

From S2P Require Import Prelude Crypto Types Cbor.

(** ** [error.rs] *)

Module ApplyError.
Inductive t : Set :=
  (* vault_create *)
  | AccountExists | UnsupportedAlgorithm | InvalidKeyPermissions | InvalidKeySize
  | InvalidActivationHeight
  (* token_transfer *)
  | TransferAmountZero | SelfTransfer | InsufficientFunds | InvalidRecipient
  (* attestations and anchors *)
  | AttestationExists | InvalidAttestationType | InvalidHash | InvalidExpiry
  | InvalidClaimType | PolicyVersionConflict
  | AttestationNotFound | AttestationAlreadyRevoked | UnauthorizedRevoker
  (* key management *)
  | KeyVersionConflict | KeyNotFound | KeyAlreadyRevoked | InsufficientActiveKeys
  | InvalidKeyRotation | SignerIsTarget
  (* consensus_key_rotate *)
  | NotAValidator | AlgorithmNotAllowedForConsensus | InvalidRotationHeight
  | ConsensusKeyConflict
  (* governance *)
  | ProposalOutOfScope | InvalidLifecycleTransition | GovernanceNoEffect
  | AlgorithmAlreadyRegistered (id : N) | ReservedAlgIdRange (id : N) | InvalidSize
  | InvalidInitialLifecycle | DuplicateSlashingVerifier (id : N)
  | ReservedSlashingEvidenceType (id : N) | InvalidSlashingFraction
  | HashAlreadyRegistered (id : N) | ReservedHashIdRange (id : N)
  (* validators *)
  | ValidatorAlreadyRegistered | ValidatorNotFound | ValidatorNotActive | ValidatorNotJailed
  | ValidatorSetFull | ValidatorExitWouldEmptySet | AlgorithmNotAllowedForConsensusKey
  | ValidatorBondZero | ValidatorConsensusKeyConflict
  | ValidatorPeerIdTooLarge | ValidatorPeerIdConflict | ValidatorPeerIdEmpty
  | ValidatorPeerIdNotRotatable
  (* equivocation slashing *)
  | AlreadyTombstoned | EvidenceExpired | InvalidEquivocationVote | EquivocationNotProven
  | EvidenceHeightMismatch | EvidenceRoundMismatch | EvidenceStepMismatch | InvalidSignature
  (* governance voting *)
  | ProposalNotFound | ProposalNotVoting | VotingPeriodClosed | AlreadyVoted
  | NotAnActiveValidatorForVote | DuplicateProposal | BurnRateOutOfRange | BlockGasLimitZero
  (* archival overlay *)
  | ArchivalAlgorithmNotAllowed | ArchivalInvalidPkSize | ArchivalValidatorNotEligible
  | DuplicateArchivalRecord | ArchivalEpochInFuture | ArchivalSignerNotAuthorized
  | ArchivalThresholdNotMet | ArchivalSignatureInvalid | ArchivalMissingKey
  | ArchivalRecordNotFound | ArchivalUnknownAnchorKind | ArchivalAnchorTooLarge
  | ArchivalNotRenewer
  (* decoding, upgrades *)
  | PayloadDecode | TokenEconomicsDisabled
  | MigrationNoHandler (from_version to_version : N)
  | SoftwareUpgradeVersionMismatch (activate_at_timestamp_ns expected_version actual_version : N).
End ApplyError.

Abbreviation result := (outcome ApplyError.t).
Abbreviation payload_err := ApplyError.PayloadDecode (only parsing).

(** ** The shared helpers *)

Definition decode_u16 : Value.t -> result N := expect_uint payload_err u16_max.
Definition decode_u32 : Value.t -> result N := expect_uint payload_err u32_max.
Definition decode_u64 : Value.t -> result N := expect_uint payload_err u64_max.

(** [expect_hash32] of attestation.rs and proof_anchor.rs. *)
Definition expect_hash32 : Value.t -> result bytes :=
  expect_bytes_n payload_err ApplyError.InvalidHash 32.

(** [expect_u128] of transfer.rs: an integer, or 16 big-endian bytes. *)
Definition expect_u128 (v : Value.t) : result N :=
  match v with
  | Value.Integer z => ok_or (try_from_Z u128_max z) payload_err
  | Value.Bytes b => ensure (len b =? 16) payload_err ;; Ok (of_be_bytes b)
  | _ => Err payload_err
  end.

Abbreviation missing o := (ok_or o payload_err).

Section payloads.
Context `{Ciborium}.

(** [from_reader(payload)] followed by the match on [Value::Map]. *)
Definition read_map (payload : bytes) : result (list (Value.t * Value.t)) :=
  v ← ok_or (from_reader payload) payload_err;
  expect_map payload_err v.

(** The same after the explicit check for an empty payload. *)
Definition read_nonempty_map (payload : bytes) : result (list (Value.t * Value.t)) :=
  ensure (negb (bool_decide (payload = []))) payload_err ;;
  read_map payload.
End payloads.

Section accounts.
Context `{Ciborium}.

(** ** [apply/vault.rs] *)

Record VaultCreatePayload := mkVaultCreatePayload {
  vc_alg_id : N;
  vc_pk_bytes : bytes;
  vc_allowed_tx_types : N;
  vc_valid_from_height : N
}.

Definition decode_vault_create_payload (payload : bytes) : result VaultCreatePayload :=
  map ← read_nonempty_map payload;
  fields ← decode_fields payload_err (fun '(a, p, t, f) key v =>
    match key with
    | 1%Z => x ← decode_u16 v; Ok (Some x, p, t, f)
    | 2%Z => x ← expect_bytes payload_err v; Ok (a, Some x, t, f)
    | 3%Z => x ← decode_u32 v; Ok (a, p, Some x, f)
    | 4%Z => x ← decode_u64 v; Ok (a, p, t, Some x)
    | 5%Z => Ok (a, p, t, f)
    | _ => Err payload_err
    end) (None, None, None, None) map;
  let '(a, p, t, f) := fields in
  alg_id ← missing a; pk_bytes ← missing p; allowed ← missing t; valid_from ← missing f;
  Ok (mkVaultCreatePayload alg_id pk_bytes allowed valid_from).

Record VaultPolicyUpdatePayload := mkVaultPolicyUpdatePayload {
  vpu_policy_version : N;
  vpu_policy_hash : bytes
}.

Definition decode_vault_policy_update_payload (payload : bytes)
    : result VaultPolicyUpdatePayload :=
  map ← read_nonempty_map payload;
  fields ← decode_fields payload_err (fun '(ver, hash) key v =>
    match key with
    | 1%Z => x ← decode_u32 v; Ok (Some x, hash)
    | 2%Z => x ← expect_hash32 v; Ok (ver, Some x)
    | 3%Z => Ok (ver, hash)
    | _ => Err payload_err
    end) (None, None) map;
  let '(ver, hash) := fields in
  policy_version ← missing ver; policy_hash ← missing hash;
  Ok (mkVaultPolicyUpdatePayload policy_version policy_hash).

(** ** [apply/transfer.rs] *)

Record TokenTransferPayload := mkTokenTransferPayload {
  tt_recipient : Address;
  tt_amount : N
}.

Definition decode_token_transfer_payload (payload : bytes) : result TokenTransferPayload :=
  map ← read_nonempty_map payload;
  fields ← decode_fields payload_err (fun '(r, a) key v =>
    match key with
    | 1%Z => x ← expect_bytes payload_err v; Ok (Some x, a)
    | 2%Z => x ← expect_u128 v; Ok (r, Some x)
    | 3%Z => Ok (r, a)
    | _ => Err payload_err
    end) (None, None) map;
  let '(r, a) := fields in
  recipient ← missing r;
  ensure (len recipient =? 32) ApplyError.InvalidRecipient ;;
  amount ← missing a;
  Ok (mkTokenTransferPayload recipient amount).

(** ** [apply/key_mgmt.rs] *)

Definition decode_map (payload : bytes) : result (list (Z * Value.t)) :=
  map ← read_nonempty_map payload;
  foldM (fun acc kv => key ← int_key payload_err kv.1; Ok (acc ++ [(key, kv.2)])) [] map.

Record KeyAddPayload := mkKeyAddPayload {
  ka_alg_id : N;
  ka_pk_bytes : bytes;
  ka_key_version : N;
  ka_valid_from_height : N;
  ka_allowed_tx_types : N
}.

Definition decode_key_add_payload (payload : bytes) : result KeyAddPayload :=
  map ← decode_map payload;
  fields ← foldM (fun '(a, p, k, f, t) '(key, v) =>
    match key with
    | 1%Z => x ← decode_u16 v; Ok (Some x, p, k, f, t)
    | 2%Z => x ← expect_bytes payload_err v; Ok (a, Some x, k, f, t)
    | 3%Z => x ← decode_u32 v; Ok (a, p, Some x, f, t)
    | 4%Z => x ← decode_u64 v; Ok (a, p, k, Some x, t)
    | 5%Z => x ← decode_u32 v; Ok (a, p, k, f, Some x)
    | _ => Err payload_err
    end) (None, None, None, None, None) map;
  let '(a, p, k, f, t) := fields in
  alg_id ← missing a; pk ← missing p; key_version ← missing k; valid_from ← missing f;
  allowed ← missing t;
  Ok (mkKeyAddPayload alg_id pk key_version valid_from allowed).

(** [KeyRotatePayload]: the new key's fields, named as in [KeyAddPayload], and
    the version it replaces. *)
Record KeyRotatePayload := mkKeyRotatePayload {
  kr_new : KeyAddPayload;
  kr_revoke_key_version : N
}.

Definition decode_key_rotate_payload (payload : bytes) : result KeyRotatePayload :=
  map ← decode_map payload;
  fields ← foldM (fun '(a, p, k, f, t, r) '(key, v) =>
    match key with
    | 1%Z => x ← decode_u16 v; Ok (Some x, p, k, f, t, r)
    | 2%Z => x ← expect_bytes payload_err v; Ok (a, Some x, k, f, t, r)
    | 3%Z => x ← decode_u32 v; Ok (a, p, Some x, f, t, r)
    | 4%Z => x ← decode_u64 v; Ok (a, p, k, Some x, t, r)
    | 5%Z => x ← decode_u32 v; Ok (a, p, k, f, Some x, r)
    | 6%Z => x ← decode_u32 v; Ok (a, p, k, f, t, Some x)
    | _ => Err payload_err
    end) (None, None, None, None, None, None) map;
  let '(a, p, k, f, t, r) := fields in
  alg_id ← missing a; pk ← missing p; key_version ← missing k; valid_from ← missing f;
  allowed ← missing t; revoke ← missing r;
  Ok (mkKeyRotatePayload (mkKeyAddPayload alg_id pk key_version valid_from allowed) revoke).

Definition decode_key_revoke_payload (payload : bytes) : result N :=
  map ← decode_map payload;
  target ← foldM (fun _ '(key, v) =>
    match key with
    | 1%Z => x ← decode_u32 v; Ok (Some x)
    | _ => Err payload_err
    end) None map;
  missing target.

(** ** [apply/attestation.rs], [apply/proof_anchor.rs] *)

Record AttestationCreatePayload := mkAttestationCreatePayload {
  ac_subject : bytes;
  ac_attestation_type : N;
  ac_content_hash : bytes;
  ac_schema_id : bytes;
  ac_metadata_hash : option bytes;
  ac_expires_at_height : option N
}.

Definition decode_attestation_create_payload (payload : bytes)
    : result AttestationCreatePayload :=
  map ← read_nonempty_map payload;
  fields ← decode_fields payload_err (fun '(s, t, c, i, m, e) key v =>
    match key with
    | 1%Z => x ← expect_hash32 v; Ok (Some x, t, c, i, m, e)
    | 2%Z => x ← decode_u16 v; Ok (s, Some x, c, i, m, e)
    | 3%Z => x ← expect_hash32 v; Ok (s, t, Some x, i, m, e)
    | 4%Z => x ← expect_hash32 v; Ok (s, t, c, Some x, m, e)
    | 5%Z => x ← expect_hash32 v; Ok (s, t, c, i, Some x, e)
    | 6%Z => x ← decode_u64 v; Ok (s, t, c, i, m, Some x)
    | _ => Err payload_err
    end) (None, None, None, None, None, None) map;
  let '(s, t, c, i, m, e) := fields in
  subject ← missing s; attestation_type ← missing t; content_hash ← missing c;
  schema_id ← missing i;
  Ok (mkAttestationCreatePayload subject attestation_type content_hash schema_id m e).

Record AttestationRevokePayload := mkAttestationRevokePayload {
  arp_attestation_id : bytes;
  arp_revocation_reason_hash : option bytes
}.

Definition decode_attestation_revoke_payload (payload : bytes)
    : result AttestationRevokePayload :=
  map ← read_nonempty_map payload;
  fields ← decode_fields payload_err (fun '(i, r) key v =>
    match key with
    | 1%Z => x ← expect_hash32 v; Ok (Some x, r)
    | 2%Z => x ← expect_hash32 v; Ok (i, Some x)
    | _ => Err payload_err
    end) (None, None) map;
  let '(i, r) := fields in
  id ← missing i;
  Ok (mkAttestationRevokePayload id r).

Record ProofAnchorPayload := mkProofAnchorPayload {
  pap_claim_type : N;
  pap_asset_id_hash : bytes;
  pap_proof_hash : bytes;
  pap_schema_id : option bytes
}.

Definition decode_proof_anchor_payload (payload : bytes) : result ProofAnchorPayload :=
  map ← read_nonempty_map payload;
  fields ← decode_fields payload_err (fun '(c, a, p, s) key v =>
    match key with
    | 1%Z => x ← decode_u16 v; Ok (Some x, a, p, s)
    | 2%Z => x ← expect_hash32 v; Ok (c, Some x, p, s)
    | 3%Z => x ← expect_hash32 v; Ok (c, a, Some x, s)
    | 4%Z => x ← expect_hash32 v; Ok (c, a, p, Some x)
    | _ => Err payload_err
    end) (None, None, None, None) map;
  let '(c, a, p, s) := fields in
  claim_type ← missing c; asset_id_hash ← missing a; proof_hash ← missing p;
  Ok (mkProofAnchorPayload claim_type asset_id_hash proof_hash s).
End accounts.

Section validators.
Context `{Ciborium}.

(** ** [apply/consensus_rotate.rs] *)

Record ConsensusKeyRotatePayload := mkConsensusKeyRotatePayload {
  ckr_new_consensus_alg_id : N;
  ckr_new_consensus_pk_bytes : bytes;
  ckr_rotation_start_height : N
}.

Definition decode_consensus_key_rotate_payload (payload : bytes)
    : result ConsensusKeyRotatePayload :=
  map ← read_nonempty_map payload;
  fields ← decode_fields payload_err (fun '(a, p, h) key v =>
    match key with
    | 1%Z => x ← decode_u16 v; Ok (Some x, p, h)
    | 2%Z => x ← expect_bytes payload_err v; Ok (a, Some x, h)
    | 3%Z => x ← decode_u64 v; Ok (a, p, Some x)
    | _ => Err payload_err
    end) (None, None, None) map;
  let '(a, p, h) := fields in
  alg_id ← missing a; pk ← missing p; start ← missing h;
  Ok (mkConsensusKeyRotatePayload alg_id pk start).

(** ** [apply/validator.rs]: here unknown keys and non-integer keys are skipped *)

Definition decode_register_payload (payload : bytes) : result ValidatorRegisterPayload :=
  map ← read_map payload;
  fields ← foldM (fun '(n, a, p, b, i) '(k, v) =>
    match k with
    | Value.Integer 1%Z =>
        x ← expect_bytes payload_err v;
        ensure (utf8_valid x) payload_err ;;
        Ok (Some x, a, p, b, i)
    | Value.Integer 2%Z => x ← decode_u16 v; Ok (n, Some x, p, b, i)
    | Value.Integer 3%Z => x ← expect_bytes payload_err v; Ok (n, a, Some x, b, i)
    | Value.Integer 4%Z =>
        x ← expect_bytes_n payload_err payload_err 16 v;
        Ok (n, a, p, Some (of_be_bytes x), i)
    | Value.Integer 5%Z => x ← expect_bytes payload_err v; Ok (n, a, p, b, Some x)
    | _ => Ok (n, a, p, b, i)
    end) (None, None, None, None, None) map;
  let '(n, a, p, b, i) := fields in
  let peer_id := default [] i in
  node_id ← missing n; alg_id ← missing a; pk ← missing p; self_bond ← missing b;
  Ok (mkValidatorRegisterPayload node_id alg_id pk self_bond peer_id).

Definition decode_rotate_peer_id_payload (payload : bytes) : result bytes :=
  map ← read_map payload;
  new_peer_id ← foldM (fun i '(k, v) =>
    match k with
    | Value.Integer 1%Z => x ← expect_bytes payload_err v; Ok (Some x)
    | _ => Ok i
    end) None map;
  missing new_peer_id.

Definition register_payload_value (p : ValidatorRegisterPayload) : Value.t :=
  Value.Map ([ (Value_uint 1, Value.Bytes (reg_node_id p));
               (Value_uint 2, Value_uint (reg_consensus_alg_id p));
               (Value_uint 3, Value.Bytes (reg_consensus_pk p));
               (Value_uint 4, Value.Bytes (be_bytes 16 (reg_self_bond p))) ]
    ++ (if bool_decide (reg_peer_id p = []) then []
        else [ (Value_uint 5, Value.Bytes (reg_peer_id p)) ])).

Definition encode_register_payload (p : ValidatorRegisterPayload) : bytes :=
  into_writer (register_payload_value p).

Definition rotate_peer_id_value (new_peer_id : bytes) : Value.t :=
  Value.Map [ (Value_uint 1, Value.Bytes new_peer_id) ].

Definition encode_rotate_peer_id_payload (new_peer_id : bytes) : bytes :=
  into_writer (rotate_peer_id_value new_peer_id).

Definition encode_empty_validator_payload : bytes := into_writer (Value.Map []).
End validators.

(** ** Equivocation evidence: [pqc-types/src/slashing.rs] *)

Inductive EvidenceDecodeError : Set :=
  | InvalidFormat
  | MissingField (k : N)
  | InvalidField (k : N)
  | InvalidStep (v : N).

Definition encode_equivocation_vote (v : EquivocationVote) : Value.t :=
  Value.Map
    [ (Value_uint 1, Value_uint (ev_height v));
      (Value_uint 2, Value_uint (ev_round v));
      (Value_uint 3, Value.Bytes (ev_block_hash v));
      (Value_uint 4, Value_uint (ev_step v));
      (Value_uint 5, Value.Bytes (ev_signature v)) ].

(** [i64::try_from] on a key; every key outside the range is an unknown key. *)
Definition i64_key (k : Value.t) : outcome EvidenceDecodeError Z :=
  z ← int_key InvalidFormat k;
  ensure ((-(2 ^ 63) <=? z)%Z && (z <? 2 ^ 63)%Z) InvalidFormat ;;
  Ok z.

Definition decode_evidence_fields {A} (field : A -> Z -> Value.t -> outcome EvidenceDecodeError A)
    (init : A) (pairs : list (Value.t * Value.t)) : outcome EvidenceDecodeError A :=
  foldM (fun acc kv => key ← i64_key kv.1; field acc key kv.2) init pairs.

Definition decode_equivocation_vote (value : Value.t)
    : outcome EvidenceDecodeError EquivocationVote :=
  map ← expect_map InvalidFormat value;
  fields ← decode_evidence_fields (fun '(h, r, b, s, g) key v =>
    match key with
    | 1%Z => x ← expect_uint (InvalidField 1) u64_max v; Ok (Some x, r, b, s, g)
    | 2%Z => x ← expect_uint (InvalidField 2) u32_max v; Ok (h, Some x, b, s, g)
    | 3%Z => x ← expect_bytes_n (InvalidField 3) (InvalidField 3) 32 v; Ok (h, r, Some x, s, g)
    | 4%Z =>
        x ← expect_uint (InvalidField 4) u8_max v;
        ensure ((x =? 1) || (x =? 2)) (InvalidStep x) ;;
        Ok (h, r, b, Some x, g)
    | 5%Z => x ← expect_bytes (InvalidField 5) v; Ok (h, r, b, s, Some x)
    | _ => Err InvalidFormat
    end) (None, None, None, None, None) map;
  let '(h, r, b, s, g) := fields in
  height ← ok_or h (MissingField 1); round ← ok_or r (MissingField 2);
  block_hash ← ok_or b (MissingField 3); step ← ok_or s (MissingField 4);
  signature ← ok_or g (MissingField 5);
  Ok (mkEquivocationVote height round block_hash step signature).

Section evidence.
Context `{Ciborium}.

Definition evidence_value (ev : EquivocationEvidence) : Value.t :=
  Value.Map
    [ (Value_uint 1, Value.Bytes (evid_validator_address ev));
      (Value_uint 2, Value_uint (evid_height ev));
      (Value_uint 3, encode_equivocation_vote (evid_vote_a ev));
      (Value_uint 4, encode_equivocation_vote (evid_vote_b ev)) ].

Definition encode_equivocation_evidence (ev : EquivocationEvidence) : bytes :=
  into_writer (evidence_value ev).

Definition decode_equivocation_evidence (payload : bytes)
    : outcome EvidenceDecodeError EquivocationEvidence :=
  value ← ok_or (from_reader payload) InvalidFormat;
  map ← expect_map InvalidFormat value;
  fields ← decode_evidence_fields (fun '(a, h, va, vb) key v =>
    match key with
    | 1%Z => x ← expect_bytes_n (InvalidField 1) (InvalidField 1) 32 v; Ok (Some x, h, va, vb)
    | 2%Z => x ← expect_uint (InvalidField 2) u64_max v; Ok (a, Some x, va, vb)
    | 3%Z => x ← decode_equivocation_vote v; Ok (a, h, Some x, vb)
    | 4%Z => x ← decode_equivocation_vote v; Ok (a, h, va, Some x)
    | _ => Err InvalidFormat
    end) (None, None, None, None) map;
  let '(a, h, va, vb) := fields in
  validator_address ← ok_or a (MissingField 1); height ← ok_or h (MissingField 2);
  vote_a ← ok_or va (MissingField 3); vote_b ← ok_or vb (MissingField 4);
  Ok (mkEquivocationEvidence validator_address height vote_a vote_b).
End evidence.

(** ** Round trips *)

Definition vote_wf (v : EquivocationVote) : Prop :=
  ev_height v <= u64_max /\ ev_round v <= u32_max /\ len (ev_block_hash v) = 32 /\
  (ev_step v = 1 \/ ev_step v = 2).

Definition evidence_wf (ev : EquivocationEvidence) : Prop :=
  len (evid_validator_address ev) = 32 /\ evid_height ev <= u64_max /\
  vote_wf (evid_vote_a ev) /\ vote_wf (evid_vote_b ev).

(** [from_option] of a bound: an absent field has nothing to satisfy yet. *)
Definition opt_wf {A} (P : A -> Prop) (o : option A) : Prop :=
  forall x, o = Some x -> P x.

Lemma opt_wf_None {A} (P : A -> Prop) : opt_wf P None.
Proof. by intros x. Qed.

Lemma opt_wf_Some {A} (P : A -> Prop) x : P x -> opt_wf P (Some x).
Proof. by intros ? ? [= <-]. Qed.

#[export] Hint Resolve opt_wf_None opt_wf_Some : viper.

Ltac fields_step :=
  repeat match goal with
  | H : context [match ?k with _ => _ end] |- _ => is_var k; destruct k
  end; run_inv;
  repeat match goal with
  | H : expect_uint _ _ _ = Ok _ |- _ => apply expect_uint_Ok in H as [? ->]
  | H : expect_bytes_n _ _ _ _ = Ok _ |- _ => apply expect_bytes_n_Ok in H as [? ->]
  | H : expect_bytes _ _ = Ok _ |- _ => apply expect_bytes_Ok in H as ->
  end; simplify_eq.

Lemma decode_vote_wf value v : decode_equivocation_vote value = Ok v -> vote_wf v.
Proof.
  unfold decode_equivocation_vote. intros Hd. run_inv.
  destruct x0 as [[[[h r] b] s] g].
  assert (opt_wf (fun x => x <= u64_max) h /\ opt_wf (fun x => x <= u32_max) r /\
    opt_wf (fun x => len x = 32) b /\ opt_wf (fun x => x = 1 \/ x = 2) s) as Hinv.
  { eapply (foldM_invariant _ (fun '(h, r, b, s, g) =>
      opt_wf (fun x => x <= u64_max) h /\ opt_wf (fun x => x <= u32_max) r /\
      opt_wf (fun x => len x = 32) b /\ opt_wf (fun x => x = 1 \/ x = 2) s)) in H0;
      [done| |eauto with viper].
    intros [[[[h1 r1] b1] s1] g1] [k w] [[[[h2 r2] b2] s2] g2] _ (?&?&?&?) Hs.
    cbn in Hs. run_inv. destruct x0 as [|p|p]; [done| |done].
    fields_step; split_and!; eauto with viper.
    apply opt_wf_Some. apply orb_true_iff in H7 as [?|?]; bool_hyps; auto. }
  destruct Hinv as (? & ? & ? & ?). run_inv. unfold vote_wf; cbn. auto.
Qed.

Lemma decode_evidence_fields_cons {A} field (init : A) k v rest :
  k < 2 ^ 63 ->
  decode_evidence_fields field init ((Value_uint k, v) :: rest) =
  (acc ← field init (Z.of_N k) v; decode_evidence_fields field acc rest).
Proof.
  intros Hk. unfold decode_evidence_fields. cbn -[Z.pow].
  assert ((-(2 ^ 63) <=? Z.of_N k)%Z && (Z.of_N k <? 2 ^ 63)%Z = true) as ->; [|done].
  apply andb_true_iff. rewrite Z.leb_le, Z.ltb_lt. lia.
Qed.

(** One entry of an evidence map whose value is in range. *)
Ltac evidence_cbn :=
  cbn -[expect_uint expect_bytes_n decode_evidence_fields decode_equivocation_vote
        encode_equivocation_vote Value_uint].
Ltac evidence_entry :=
  evidence_cbn; rewrite decode_evidence_fields_cons by done; evidence_cbn;
  rewrite ?expect_uint_of_N, ?expect_bytes_n_Bytes by (done || lia); evidence_cbn.

Lemma decode_encode_vote v :
  vote_wf v -> decode_equivocation_vote (encode_equivocation_vote v) = Ok v.
Proof.
  intros (Hh & Hr & Hb & Hs). destruct v as [h r b s g]; cbn in Hh, Hr, Hb, Hs.
  unfold decode_equivocation_vote, encode_equivocation_vote.
  cbn -[decode_evidence_fields Value_uint].
  do 3 evidence_entry. destruct Hs as [-> | ->]; by do 2 evidence_entry.
Qed.

Section roundtrips.
Context `{Ciborium}.

Lemma decode_evidence_wf payload ev :
  decode_equivocation_evidence payload = Ok ev -> evidence_wf ev.
Proof.
  unfold decode_equivocation_evidence. intros Hd. run_inv.
  destruct x1 as [[[a h] va] vb].
  eapply (foldM_invariant _ (fun '(a, h, va, vb) =>
    opt_wf (fun x => len x = 32) a /\ opt_wf (fun x => x <= u64_max) h /\
    opt_wf vote_wf va /\ opt_wf vote_wf vb)) in H2;
    [destruct H2 as (? & ? & ? & ?); run_inv; unfold evidence_wf; cbn; auto | |
     eauto 6 with viper].
  intros [[[a1 h1] va1] vb1] [k w] [[[a2 h2] va2] vb2] _ (?&?&?&?) Hs.
  cbn in Hs. run_inv. destruct x1 as [|p|p]; [done| |done].
  fields_step; split_and!; eauto using decode_vote_wf with viper.
Qed.

Lemma decode_encode_evidence ev :
  cbor_roundtrips (evidence_value ev) -> evidence_wf ev ->
  decode_equivocation_evidence (encode_equivocation_evidence ev) = Ok ev.
Proof.
  unfold cbor_roundtrips, encode_equivocation_evidence, decode_equivocation_evidence.
  intros -> (Ha & Hh & Hva & Hvb). destruct ev as [a h va vb]; cbn in Ha, Hh, Hva, Hvb.
  cbn -[decode_evidence_fields Value_uint encode_equivocation_vote].
  do 2 evidence_entry. do 2 (evidence_entry; rewrite decode_encode_vote by done).
  done.
Qed.

Definition register_wf (p : ValidatorRegisterPayload) : Prop :=
  utf8_valid (reg_node_id p) = true /\ reg_consensus_alg_id p <= u16_max /\
  reg_self_bond p <= u128_max.

Lemma decode_register_wf payload p :
  decode_register_payload payload = Ok p -> register_wf p.
Proof.
  unfold decode_register_payload. intros Hd. run_inv.
  destruct x0 as [[[[n a] k] b] i].
  eapply (foldM_invariant _ (fun '(n, a, k, b, i) =>
    opt_wf (fun x => utf8_valid x = true) n /\ opt_wf (fun x => x <= u16_max) a /\
    opt_wf (fun x => x <= u128_max) b)) in H1;
    [destruct H1 as (? & ? & ?); run_inv; unfold register_wf; cbn; auto | |
     eauto 6 with viper].
  intros [[[[n1 a1] k1] b1] i1] [key w] [[[[n2 a2] k2] b2] i2] _ (?&?&?) Hs.
  destruct key as [z| | | | | | | |]; try (simplify_eq; done).
  unfold decode_u16 in Hs.
  fields_step; split_and!; eauto with viper.
  apply opt_wf_Some. pose proof (of_be_bytes_bound x0).
  unfold len in *. assert (length x0 = 16%nat) as Hl by lia. rewrite Hl in *.
  change (256 ^ N.of_nat 16) with 340282366920938463463374607431768211456 in *. lia.
Qed.

Lemma decode_encode_register p :
  cbor_roundtrips (register_payload_value p) -> register_wf p ->
  decode_register_payload (encode_register_payload p) = Ok p.
Proof.
  unfold cbor_roundtrips, encode_register_payload, decode_register_payload, read_map.
  intros -> (Hn & Ha & Hb). destruct p as [n a k b i]; cbn in Hn, Ha, Hb.
  assert (of_be_bytes (be_bytes 16 b) = b) as Hbe by (apply of_be_bytes_small; cbn; lia).
  cbn -[decode_u16 expect_bytes_n]. rewrite Hn. cbn -[decode_u16 expect_bytes_n].
  rewrite (expect_uint_of_N payload_err u16_max a Ha : decode_u16 (Value_uint a) = _).
  cbn -[expect_bytes_n].
  rewrite expect_bytes_n_Bytes by (unfold len; by rewrite length_be_bytes). cbn.
  rewrite Hbe. by case_bool_decide; cbn; simplify_eq.
Qed.
End roundtrips.
