(* ===== verification/Tx.v ===== *)
(** * pqc-tx: the transaction codec, the signed preimage, fees and validation.

    [fork.rs] of pqc-types is here too, since a fork digest is the first part of
    every signed preimage.  The state a transaction is validated against is the
    interface [StateView]; the store implements it in [Store]. *)

From S2P Require Import Prelude Crypto Types Cbor.

(** ** [error.rs] *)

Module TxError.
Inductive t : Set :=
  | EncodingInvalid
  | VersionUnsupported (v : N)
  | ChainIdMismatch
  | MsgTypeUnknown (v : N)
  | AlgorithmNotFound (id : N)
  | AlgorithmBanned (id : N)
  | SenderNotFound
  | KeyLookupFailed (e : KeyLookupError)
  | SignatureInvalid
  | NonceInvalid (expected got : N)
  | FeeInsufficient (paid required base bytes_ sigverify exec : N)
  | GasLimitTooLow (g : N)
  | BalanceInsufficient (balance fee : N)
  | VerifyBudgetExceeded
  | TxTooLarge (size : N)
  | PayloadInvalid
  | FeeBelowMarket (required provided : N).
End TxError.

(** ** [fork.rs] *)

Definition VIPER_FORK_VERSION_V1 : N := 1.
Definition FORK_DIGEST_DOMAIN : bytes := bstr "VIPER-FORK-V1".
Definition GENESIS_VALIDATOR_LEAF_DOMAIN : bytes := bstr "VIPER-VALIDATOR-GENESIS-LEAF-V1".
Definition GENESIS_VALIDATORS_ROOT_DOMAIN : bytes := bstr "VIPER-VALIDATORS-ROOT-V1".

Definition VIPER_RESEARCH_1_GENESIS_VALIDATORS_ROOT : bytes :=
  [x61; xd6; xc7; xfe; x2f; x96; x60; x4d; x57; xed; x0c; xaf; x3f; xe4; x8a; xa1;
   x90; xbb; x19; x20; x69; xdf; x8e; xcd; x75; xfa; xa0; x76; xe8; xde; x6d; x8d].

Section fork.
Context `{Shake}.

Definition ForkDigest_compute (fork_version : N) (genesis_validators_root : bytes) : bytes :=
  shake256_n 4 [FORK_DIGEST_DOMAIN; be_bytes 4 fork_version; genesis_validators_root].

Definition viper_research_1 : bytes :=
  ForkDigest_compute VIPER_FORK_VERSION_V1 VIPER_RESEARCH_1_GENESIS_VALIDATORS_ROOT.

Definition compute_genesis_validator_leaf (address : Address) (a : AlgId.t) (consensus_pk : bytes)
    : bytes :=
  hash_chunks GENESIS_VALIDATOR_LEAF_DOMAIN
    [address; be_bytes 2 (AlgId.as_u16 a); be_bytes 8 (len consensus_pk); consensus_pk].

(** [entries.sort_by(|a, b| a.0.cmp(&b.0))] is a stable sort by address. *)
Definition compute_genesis_validators_root (validators : list (Address * AlgId.t * bytes))
    : bytes :=
  let entries := (fun '(addr, a, pk) => (addr, compute_genesis_validator_leaf addr a pk))
                   <$> validators in
  hash_chunks GENESIS_VALIDATORS_ROOT_DOMAIN (merge_sort (le_key bytes_le) entries).*2.

Lemma viper_research_1_length : length viper_research_1 = 4%nat.
Proof. apply shake256_length. Qed.
End fork.

(** ** [codec.rs] *)

(** [MapFields::from_pairs]: one entry, then the loop. *)
Definition insert_field (m : gmap Z Value.t) (kv : Value.t * Value.t)
    : outcome TxError.t (gmap Z Value.t) :=
  key ← int_key TxError.EncodingInvalid kv.1;
  match m !! key with
  | Some _ => Err TxError.EncodingInvalid
  | None => Ok (<[key := kv.2]> m)
  end.

Definition fields_from_pairs (pairs : list (Value.t * Value.t))
    : outcome TxError.t (gmap Z Value.t) :=
  foldM insert_field ∅ pairs.

Definition get_uint (m : gmap Z Value.t) (max : N) (key : Z) : outcome TxError.t N :=
  match m !! key with
  | Some v => expect_uint TxError.EncodingInvalid max v
  | None => Err TxError.EncodingInvalid
  end.

Definition get_u64_optional (m : gmap Z Value.t) (key : Z) : outcome TxError.t (option N) :=
  match m !! key with
  | None => Ok None
  | Some _ => x ← get_uint m u64_max key; Ok (Some x)
  end.

Definition get_bytes (m : gmap Z Value.t) (key : Z) : outcome TxError.t bytes :=
  match m !! key with
  | Some v => expect_bytes TxError.EncodingInvalid v
  | None => Err TxError.EncodingInvalid
  end.

Definition tx_of_fields (m : gmap Z Value.t) : outcome TxError.t Transaction :=
  tx_version ← get_uint m u8_max 1;
  chain_id ← get_bytes m 2;
  msg_type_raw ← get_uint m u16_max 3;
  sender_bytes ← get_bytes m 4;
  nonce ← get_uint m u64_max 5;
  fee ← get_uint m u64_max 6;
  fee_tip ← get_u64_optional m 7;
  gas_limit ← get_uint m u64_max 8;
  payload ← get_bytes m 9;
  sig_alg_id_raw ← get_uint m u16_max 10;
  sig_key_version ← get_uint m u32_max 11;
  signature ← get_bytes m 12;
  msg_type ← ok_or (MsgType.from_u16 msg_type_raw) (TxError.MsgTypeUnknown msg_type_raw);
  sig_alg_id ← ok_or (AlgId.from_u16 sig_alg_id_raw) (TxError.AlgorithmNotFound sig_alg_id_raw);
  envelope ← map_err (fun _ => TxError.EncodingInvalid) (decode_envelope signature);
  ensure (bool_decide (envelope.1 = sig_alg_id)) TxError.EncodingInvalid ;;
  ensure (len sender_bytes =? 32) TxError.EncodingInvalid ;;
  Ok (mkTransaction tx_version chain_id msg_type sender_bytes nonce fee (default 0 fee_tip)
        gas_limit payload sig_alg_id sig_key_version envelope.2).

(** The entries [encode_tx] writes; the tip is omitted when zero. *)
Definition tx_pairs (tx : Transaction) (envelope : bytes) : list (Value.t * Value.t) :=
  [ (Value_uint 1, Value_uint (tx_version tx));
    (Value_uint 2, Value.Bytes (tx_chain_id tx));
    (Value_uint 3, Value_uint (MsgType.as_u16 (tx_msg_type tx)));
    (Value_uint 4, Value.Bytes (tx_sender tx));
    (Value_uint 5, Value_uint (tx_nonce tx));
    (Value_uint 6, Value_uint (tx_fee tx)) ]
  ++ (if tx_fee_tip tx =? 0 then [] else [ (Value_uint 7, Value_uint (tx_fee_tip tx)) ])
  ++ [ (Value_uint 8, Value_uint (tx_gas_limit tx));
       (Value_uint 9, Value.Bytes (tx_payload tx));
       (Value_uint 10, Value_uint (AlgId.as_u16 (tx_sig_alg_id tx)));
       (Value_uint 11, Value_uint (tx_sig_key_version tx));
       (Value_uint 12, Value.Bytes envelope) ].

(** The map a signature covers: keys 1 to 11, the tip always present. *)
Definition preimage_value (tx : Transaction) : Value.t :=
  Value.Map
    [ (Value_uint 1, Value_uint (tx_version tx));
      (Value_uint 2, Value.Bytes (tx_chain_id tx));
      (Value_uint 3, Value_uint (MsgType.as_u16 (tx_msg_type tx)));
      (Value_uint 4, Value.Bytes (tx_sender tx));
      (Value_uint 5, Value_uint (tx_nonce tx));
      (Value_uint 6, Value_uint (tx_fee tx));
      (Value_uint 7, Value_uint (tx_fee_tip tx));
      (Value_uint 8, Value_uint (tx_gas_limit tx));
      (Value_uint 9, Value.Bytes (tx_payload tx));
      (Value_uint 10, Value_uint (AlgId.as_u16 (tx_sig_alg_id tx)));
      (Value_uint 11, Value_uint (tx_sig_key_version tx)) ].

Definition DOMAIN_SEPARATOR : bytes := bstr "PQC-TX-V1".

Section codec.
Context `{Ciborium}.

Definition decode_tx (b : bytes) : outcome TxError.t Transaction :=
  value ← ok_or (from_reader b) TxError.EncodingInvalid;
  map ← expect_map TxError.EncodingInvalid value;
  ensure (bool_decide (into_writer (Value.Map map) = b)) TxError.EncodingInvalid ;;
  fields ← fields_from_pairs map;
  tx_of_fields fields.

Definition encode_tx (tx : Transaction) : outcome TxError.t bytes :=
  envelope ← map_err (fun _ => TxError.EncodingInvalid)
               (encode_envelope (tx_sig_alg_id tx) (tx_signature tx));
  Ok (into_writer (Value.Map (tx_pairs tx envelope))).

(** ** [preimage.rs], [hash.rs] *)

Context `{Shake}.

Definition preimage_body (fork_digest : bytes) (tx : Transaction) : bytes :=
  fork_digest ++ into_writer (preimage_value tx).

Definition build_preimage (fork_digest : bytes) (tx : Transaction) : bytes :=
  tagged_hash DOMAIN_SEPARATOR (preimage_body fork_digest tx).

Definition compute_tx_hash (raw_bytes : bytes) : bytes := shake256_32 raw_bytes.
End codec.

(** ** [validate.rs]: fees *)

Record FeeParams := mkFeeParams {
  fp_base_fee : N;
  fp_byte_fee : N;
  fp_sigverify_fee_v_a : N;
  fp_sigverify_fee_v_b : N;
  fp_sigverify_fee_v_c : N;
  fp_exec_fee_per_gas : N;
  fp_base_fee_dynamic : N
}.

Global Instance eta_FeeParams : Settable FeeParams := fun x =>
  mkFeeParams (fp_base_fee x) (fp_byte_fee x) (fp_sigverify_fee_v_a x) (fp_sigverify_fee_v_b x)
    (fp_sigverify_fee_v_c x) (fp_exec_fee_per_gas x) (fp_base_fee_dynamic x).

Definition lane_multiplier_bps (m : MsgType.t) : N :=
  match m with
  | MsgType.ValidatorRegister | MsgType.ValidatorExit | MsgType.GovernanceProposal => 20000
  | _ => 10000
  end.

(** The final [as u64] truncates. *)
Definition effective_base_fee (params : FeeParams) (m : MsgType.t) : N :=
  let dynamic := if 0 <? fp_base_fee_dynamic params then fp_base_fee_dynamic params
                 else fp_base_fee params in
  (sat_mul u128_max dynamic (lane_multiplier_bps m) / 10000) mod 2 ^ 64.

Record FeeBreakdown := mkFeeBreakdown { fb_base : N; fb_bytes : N; fb_sigverify : N; fb_exec : N }.

Definition fee_total (f : FeeBreakdown) : N :=
  sat_add u64_max (sat_add u64_max (sat_add u64_max (fb_base f) (fb_bytes f)) (fb_sigverify f))
    (fb_exec f).

Definition MAX_TX_BYTES : N := 1048576.

Definition sigverify_class (a : AlgId.t) : SigClass.t :=
  match a with
  | AlgId.FnDsaPadded512 => SigClass.Reduced
  | AlgId.MlDsa44 | AlgId.MlDsa65 | AlgId.MlDsa87 => SigClass.Standard
  | AlgId.SlhDsaSha2128s => SigClass.Premium
  | _ => SigClass.Standard
  end.

Definition class_fee (params : FeeParams) (c : SigClass.t) : N :=
  match c with
  | SigClass.Reduced => fp_sigverify_fee_v_a params
  | SigClass.Standard => fp_sigverify_fee_v_b params
  | SigClass.Premium => fp_sigverify_fee_v_c params
  end.

Definition sigverify_fee_for_alg (a : AlgId.t) (params : FeeParams) (registry_min_fee : N) : N :=
  N.max (class_fee params (sigverify_class a)) registry_min_fee.

Definition required_fee_breakdown (tx : Transaction) (raw_bytes_len : N) (params : FeeParams)
    (registry_min_fee : N) : FeeBreakdown :=
  mkFeeBreakdown (effective_base_fee params (tx_msg_type tx))
    (sat_mul u64_max (fp_byte_fee params) raw_bytes_len)
    (sigverify_fee_for_alg (tx_sig_alg_id tx) params registry_min_fee)
    (sat_mul u64_max (fp_exec_fee_per_gas params) (tx_gas_limit tx)).

Definition actual_fee_breakdown (tx : Transaction) (raw_bytes_len gas_used : N)
    (params : FeeParams) (registry_min_fee : N) : FeeBreakdown :=
  mkFeeBreakdown (effective_base_fee params (tx_msg_type tx))
    (sat_mul u64_max (fp_byte_fee params) raw_bytes_len)
    (sigverify_fee_for_alg (tx_sig_alg_id tx) params registry_min_fee)
    (sat_mul u64_max (fp_exec_fee_per_gas params) (N.min gas_used (tx_gas_limit tx))).

(** ** [state_view.rs], [validate.rs]: the pipeline *)

Class StateView (S : Type) := {
  view_get_account : S -> Address -> option Account;
  view_alg_lifecycle : S -> AlgId.t -> option Lifecycle.t;
  view_alg_sig_class : S -> AlgId.t -> option SigClass.t;
  view_alg_min_fee : S -> AlgId.t -> option N;
  view_chain_id : S -> bytes;
  view_current_height : S -> N;
  view_base_fee_dynamic : S -> N
}.

Record ValidationContext := mkValidationContext {
  ctx_chain_id : bytes;
  ctx_fork_digest : bytes;
  ctx_current_height : N;
  ctx_sender_account : option Account;
  ctx_fee_params : FeeParams;
  ctx_alg_lifecycle : AlgId.t -> option Lifecycle.t;
  ctx_alg_min_fee : AlgId.t -> option N
}.

Section validate.
Context `{Ciborium, Shake, Verifier}.

Definition validate_tx (tx : Transaction) (raw_bytes : bytes) (ctx : ValidationContext)
    : outcome TxError.t unit :=
  let alg := tx_sig_alg_id tx in
  ensure (len raw_bytes <=? MAX_TX_BYTES) (TxError.TxTooLarge (len raw_bytes)) ;;
  ensure (tx_version tx =? 1) (TxError.VersionUnsupported (tx_version tx)) ;;
  ensure (bool_decide (tx_chain_id tx = ctx_chain_id ctx)) TxError.ChainIdMismatch ;;
  lifecycle ← ok_or (ctx_alg_lifecycle ctx alg) (TxError.AlgorithmNotFound (AlgId.as_u16 alg));
  ensure (Lifecycle.admits_transactions lifecycle) (TxError.AlgorithmBanned (AlgId.as_u16 alg)) ;;
  account ← ok_or (ctx_sender_account ctx) TxError.SenderNotFound;
  key_entry ← map_err TxError.KeyLookupFailed
    (KeySetOps.lookup (acc_keys account) alg (tx_sig_key_version tx)
      (MsgType.required_permission_bit (tx_msg_type tx)) (ctx_current_height ctx));
  ensure (verify (key_alg_id key_entry) (key_pk_bytes key_entry)
            (build_preimage (ctx_fork_digest ctx) tx) (tx_signature tx))
    TxError.SignatureInvalid ;;
  ensure (tx_nonce tx =? acc_nonce account)
    (TxError.NonceInvalid (acc_nonce account) (tx_nonce tx)) ;;
  registry_min_fee ← ok_or (ctx_alg_min_fee ctx alg)
    (TxError.AlgorithmNotFound (AlgId.as_u16 alg));
  let fee_breakdown :=
    required_fee_breakdown tx (len raw_bytes) (ctx_fee_params ctx) registry_min_fee in
  let required := fee_total fee_breakdown in
  ensure (required <=? tx_fee tx)
    (TxError.FeeInsufficient (tx_fee tx) required (fb_base fee_breakdown)
      (fb_bytes fee_breakdown) (fb_sigverify fee_breakdown) (fb_exec fee_breakdown)) ;;
  let max_debit := sat_add u128_max (tx_fee tx) (tx_fee_tip tx) in
  ensure (max_debit <=? acc_balance account)
    (TxError.BalanceInsufficient (acc_balance account) max_debit).
End validate.

(** ** The codec *)

(** What the Rust types and the envelope length field guarantee. *)
Definition tx_wf (tx : Transaction) : Prop :=
  tx_version tx <= u8_max /\ len (tx_sender tx) = 32 /\ tx_nonce tx <= u64_max /\
  tx_fee tx <= u64_max /\ tx_fee_tip tx <= u64_max /\ tx_gas_limit tx <= u64_max /\
  tx_sig_key_version tx <= u32_max /\ len (tx_signature tx) <= u16_max.

Definition int_pairs (kvs : list (Z * Value.t)) : list (Value.t * Value.t) :=
  (fun kv => (Value.Integer kv.1, kv.2)) <$> kvs.

(** [tx_pairs] with the keys as integers. *)
Definition tx_kvs (tx : Transaction) (envelope : bytes) : list (Z * Value.t) :=
  [ (1%Z, Value_uint (tx_version tx));
    (2%Z, Value.Bytes (tx_chain_id tx));
    (3%Z, Value_uint (MsgType.as_u16 (tx_msg_type tx)));
    (4%Z, Value.Bytes (tx_sender tx));
    (5%Z, Value_uint (tx_nonce tx));
    (6%Z, Value_uint (tx_fee tx)) ]
  ++ (if tx_fee_tip tx =? 0 then [] else [ (7%Z, Value_uint (tx_fee_tip tx)) ])
  ++ [ (8%Z, Value_uint (tx_gas_limit tx));
       (9%Z, Value.Bytes (tx_payload tx));
       (10%Z, Value_uint (AlgId.as_u16 (tx_sig_alg_id tx)));
       (11%Z, Value_uint (tx_sig_key_version tx));
       (12%Z, Value.Bytes envelope) ].

Lemma tx_pairs_kvs tx env : tx_pairs tx env = int_pairs (tx_kvs tx env).
Proof. unfold tx_pairs, tx_kvs, int_pairs. by destruct (tx_fee_tip tx =? 0). Qed.

Lemma tx_kvs_NoDup tx env : NoDup (tx_kvs tx env).*1.
Proof.
  unfold tx_kvs. destruct (tx_fee_tip tx =? 0); cbn; apply (bool_decide_unpack _); by vm_compute.
Qed.

Lemma fields_from_pairs_from kvs m :
  NoDup kvs.*1 -> (forall k, k ∈ kvs.*1 -> m !! k = None) ->
  foldM insert_field m (int_pairs kvs) = Ok (list_to_map kvs ∪ m).
Proof.
  revert m. induction kvs as [|[k v] kvs IH]; intros m Hnd Hm; cbn -[insert_field].
  { by rewrite (left_id_L ∅ (∪)). }
  cbn in Hnd. apply NoDup_cons in Hnd as [Hk Hnd].
  assert (insert_field m (Value.Integer k, v) = Ok (<[k := v]> m)) as ->
    by (unfold insert_field; cbn; by rewrite Hm by left).
  cbn -[insert_field].
  rewrite IH; [|done|].
  - f_equal. rewrite <-insert_union_r; [by rewrite insert_union_l|].
    by apply not_elem_of_list_to_map.
  - intros k' Hk'. rewrite lookup_insert_ne by set_solver. apply Hm. by right.
Qed.

Lemma fields_from_pairs_int kvs :
  NoDup kvs.*1 -> fields_from_pairs (int_pairs kvs) = Ok (list_to_map kvs).
Proof.
  intros. unfold fields_from_pairs. rewrite fields_from_pairs_from; [|done|done].
  by rewrite (right_id_L ∅ (∪)).
Qed.

Lemma msg_as_u16_le m : MsgType.as_u16 m <= u16_max.
Proof. by destruct m. Qed.

Lemma alg_as_u16_le a : AlgId.as_u16 a <= u16_max.
Proof. by destruct a. Qed.

Lemma get_uint_Some m max key n :
  m !! key = Some (Value_uint n) -> n <= max -> get_uint m max key = Ok n.
Proof. unfold get_uint. intros -> ?. by apply expect_uint_of_N. Qed.

Lemma get_bytes_Some m key b : m !! key = Some (Value.Bytes b) -> get_bytes m key = Ok b.
Proof. unfold get_bytes. by intros ->. Qed.

(** A field map that agrees with the entries of [tx] decodes to [tx], whatever
    else it holds. *)
Lemma tx_of_fields_agree tx env m :
  encode_envelope (tx_sig_alg_id tx) (tx_signature tx) = Ok env -> tx_wf tx ->
  (forall k v, (k, v) ∈ tx_kvs tx env -> m !! k = Some v) ->
  (tx_fee_tip tx = 0 -> m !! 7%Z = None) ->
  tx_of_fields m = Ok tx.
Proof.
  intros Henv (Hv & Hs & Hn & Hf & Ht & Hg & Hk & _) Hm Htip.
  assert (get_u64_optional m 7 = Ok (if tx_fee_tip tx =? 0 then None else Some (tx_fee_tip tx)))
    as H7.
  { unfold get_u64_optional. unfold tx_kvs in Hm. destruct (N.eqb_spec (tx_fee_tip tx) 0).
    - by rewrite Htip.
    - assert (m !! 7%Z = Some (Value_uint (tx_fee_tip tx))) as H7 by (apply Hm; set_solver).
      by rewrite H7, (get_uint_Some _ _ _ _ H7). }
  unfold tx_of_fields.
  rewrite (get_uint_Some m u8_max 1 (tx_version tx)), (get_bytes_Some m 2 (tx_chain_id tx)),
    (get_uint_Some m u16_max 3 (MsgType.as_u16 (tx_msg_type tx))),
    (get_bytes_Some m 4 (tx_sender tx)), (get_uint_Some m u64_max 5 (tx_nonce tx)),
    (get_uint_Some m u64_max 6 (tx_fee tx)), H7, (get_uint_Some m u64_max 8 (tx_gas_limit tx)),
    (get_bytes_Some m 9 (tx_payload tx)),
    (get_uint_Some m u16_max 10 (AlgId.as_u16 (tx_sig_alg_id tx))),
    (get_uint_Some m u32_max 11 (tx_sig_key_version tx)), (get_bytes_Some m 12 env)
    by first [done | apply msg_as_u16_le | apply alg_as_u16_le
             | apply Hm; unfold tx_kvs; set_solver].
  cbn -[decode_envelope len]. rewrite MsgType.msg_from_as_u16, AlgId.alg_from_as_u16.
  cbn -[decode_envelope len]. rewrite (encode_decode_envelope _ _ _ Henv).
  cbn -[len]. rewrite bool_decide_true, Hs by done. cbn.
  destruct (N.eqb_spec (tx_fee_tip tx) 0) as [H0|]; cbn; [rewrite <-H0|]; by destruct tx.
Qed.

Section codec_facts.
Context `{Ciborium}.

Lemma decode_tx_entries tx env kvs :
  encode_envelope (tx_sig_alg_id tx) (tx_signature tx) = Ok env -> tx_wf tx ->
  tx_kvs tx env ⊆ kvs -> NoDup kvs.*1 -> (tx_fee_tip tx = 0 -> 7%Z ∉ kvs.*1) ->
  cbor_roundtrips (Value.Map (int_pairs kvs)) ->
  decode_tx (into_writer (Value.Map (int_pairs kvs))) = Ok tx.
Proof.
  intros Henv Hwf Hsub Hnd H7 Hrt. unfold decode_tx. rewrite Hrt. cbn -[fields_from_pairs].
  rewrite bool_decide_true by done. cbn -[fields_from_pairs].
  rewrite fields_from_pairs_int by done. cbn.
  apply (tx_of_fields_agree _ env); [done..| |].
  - intros k v Hkv. apply elem_of_list_to_map; [done|]. by apply Hsub.
  - intros H0. apply not_elem_of_list_to_map_1. auto.
Qed.

Lemma get_uint_Ok m max key n : get_uint m max key = Ok n -> n <= max.
Proof. unfold get_uint. case_match; [|done]. by intros [? _]%expect_uint_Ok. Qed.

Lemma tx_of_fields_wf m tx : tx_of_fields m = Ok tx -> tx_wf tx.
Proof.
  unfold tx_of_fields. intros Hd. run_inv.
  repeat match goal with Hg : get_uint _ _ _ = Ok _ |- _ => apply get_uint_Ok in Hg end.
  destruct x13 as [a sig]; cbn in *.
  assert (len sig <= u16_max).
  { match goal with He : decode_envelope _ = _ |- _ =>
      apply decode_encode_envelope in He; unfold encode_envelope in He end. by run_inv. }
  unfold tx_wf; cbn. split_and!; try done.
  match goal with Ht : get_u64_optional _ _ = _ |- _ => unfold get_u64_optional in Ht end.
  case_match; run_inv; [|done]. eapply get_uint_Ok. done.
Qed.

Lemma decode_tx_wf b tx : decode_tx b = Ok tx -> tx_wf tx.
Proof. unfold decode_tx. intros Hd. run_inv. by apply tx_of_fields_wf in Hd. Qed.
End codec_facts.

(** ** Properties *)

Lemma Value_uint_inj a b : Value_uint a = Value_uint b -> a = b.
Proof. intros [= Heq]. lia. Qed.

Lemma msg_as_u16_inj a b : MsgType.as_u16 a = MsgType.as_u16 b -> a = b.
Proof. intros Heq. apply (inj Some). by rewrite <-!MsgType.msg_from_as_u16, Heq. Qed.

Lemma preimage_value_inj tx1 tx2 :
  preimage_value tx1 = preimage_value tx2 ->
  tx1 <| tx_signature := tx_signature tx2 |> = tx2.
Proof.
  destruct tx1, tx2. unfold preimage_value. cbn -[Value_uint]. intros Heq.
  injection Heq. intros.
  repeat match goal with Hv : Z.of_N _ = Z.of_N _ |- _ => apply N2Z.inj in Hv end.
  repeat match goal with
  | Hv : MsgType.as_u16 _ = _ |- _ => apply msg_as_u16_inj in Hv
  | Hv : AlgId.as_u16 _ = _ |- _ => apply AlgId.alg_as_u16_inj in Hv
  end. by subst.
Qed.

Lemma fee_total_mono b1 b2 :
  fb_base b1 <= fb_base b2 -> fb_bytes b1 <= fb_bytes b2 ->
  fb_sigverify b1 <= fb_sigverify b2 -> fb_exec b1 <= fb_exec b2 ->
  fee_total b1 <= fee_total b2.
Proof. unfold fee_total, sat_add. lia. Qed.

(** The fee settled after execution never exceeds the fee checked at admission. *)
Lemma actual_fee_le_required tx raw_len gas_used params min_fee :
  fee_total (actual_fee_breakdown tx raw_len gas_used params min_fee) <=
  fee_total (required_fee_breakdown tx raw_len params min_fee).
Proof.
  apply fee_total_mono; cbn; [lia..|]. unfold sat_mul.
  pose proof (N.le_min_r gas_used (tx_gas_limit tx)). nia.
Qed.

Section properties.
Context `{Ciborium}.

(** Encoding a transaction and decoding the bytes gives the transaction back
    exactly when its fields fit the widths of the wire format (32-byte sender,
    [u8] version, [u64] amounts, [u32] key version, a signature that fits the
    envelope's 16-bit length); the omitted zero tip is restored. *)
Lemma tx_codec_roundtrip tx env :
  encode_envelope (tx_sig_alg_id tx) (tx_signature tx) = Ok env ->
  cbor_roundtrips (Value.Map (tx_pairs tx env)) ->
  exists b, encode_tx tx = Ok b /\ (decode_tx b = Ok tx <-> tx_wf tx).
Proof.
  intros Henv Hrt. exists (into_writer (Value.Map (tx_pairs tx env))).
  unfold encode_tx. rewrite Henv. split; [done|]. split; [apply decode_tx_wf|]. intros Hwf.
  rewrite tx_pairs_kvs in *.
  apply (decode_tx_entries _ env); [done..|apply tx_kvs_NoDup| |done].
  unfold tx_kvs. intros ->. cbn. set_solver by lia.
Qed.

(** [decode_tx] does not enforce the ascending key order its rule R-1 states,
    nor does it refuse unknown keys: every arrangement of a transaction's entries,
    with any further entries under other keys, decodes to the same transaction, so
    one signed transaction has many accepted encodings and transaction hashes. *)
Lemma decode_tx_key_order tx env extra kvs :
  encode_envelope (tx_sig_alg_id tx) (tx_signature tx) = Ok env -> tx_wf tx ->
  kvs ≡ₚ tx_kvs tx env ++ extra -> NoDup kvs.*1 -> 7%Z ∉ extra.*1 ->
  cbor_roundtrips (Value.Map (int_pairs kvs)) ->
  decode_tx (into_writer (Value.Map (int_pairs kvs))) = Ok tx.
Proof.
  intros Henv Hwf Hperm Hnd H7 Hrt. apply (decode_tx_entries _ env); [done..| |done| |done].
  - intros kv Hkv. rewrite Hperm. apply elem_of_app. by left.
  - intros H0. rewrite Hperm, fmap_app. apply not_elem_of_app. split; [|done].
    unfold tx_kvs. rewrite H0. cbn. set_solver by lia.
Qed.

Context `{Shake}.

(** C15 A signed preimage binds the fork digest and every field of the transaction
    except the signature itself: two transactions with the same preimage agree on
    all of them, or the two hashed messages are a SHAKE-256 collision. *)
Theorem preimage_binds fd1 fd2 tx1 tx2 :
  length fd1 = 4%nat -> length fd2 = 4%nat ->
  cbor_roundtrips (preimage_value tx1) -> cbor_roundtrips (preimage_value tx2) ->
  build_preimage fd1 tx1 = build_preimage fd2 tx2 ->
  (fd1 = fd2 /\ tx1 <| tx_signature := tx_signature tx2 |> = tx2) \/
  collision_in [ tagged_preimage DOMAIN_SEPARATOR (preimage_body fd1 tx1);
                 tagged_preimage DOMAIN_SEPARATOR (preimage_body fd2 tx2) ].
Proof.
  intros Hl1 Hl2 Hr1 Hr2 Heq.
  apply (shake_inj_or [ tagged_preimage DOMAIN_SEPARATOR (preimage_body fd1 tx1);
    tagged_preimage DOMAIN_SEPARATOR (preimage_body fd2 tx2) ]) in Heq as [Heq|?];
    [|by right|by left|by right; left].
  left. apply tagged_preimage_inj, app_inj_width in Heq as [-> Heq]; [|congruence].
  split; [done|]. apply preimage_value_inj.
  apply (inj Some). unfold cbor_roundtrips in *. congruence.
Qed.

Context `{Verifier}.

(** C16 What an accepted transaction guarantees: it is for this chain and within
    the size cap; its sender has an active key of the named version and algorithm
    with the permission bit of the operation, and the signature verifies under
    that key; the nonce is the account's; the balance covers fee and tip; and the
    offered fee covers the fee that settlement will charge for any gas use. *)
Theorem validate_tx_sound raw tx ctx :
  decode_tx raw = Ok tx -> validate_tx tx raw ctx = Ok tt ->
  exists account key lifecycle min_fee,
    len raw <= MAX_TX_BYTES /\ tx_chain_id tx = ctx_chain_id ctx /\
    ctx_alg_lifecycle ctx (tx_sig_alg_id tx) = Some lifecycle /\
    Lifecycle.admits_transactions lifecycle = true /\
    ctx_sender_account ctx = Some account /\ key ∈ acc_keys account /\
    key_version key = tx_sig_key_version tx /\ key_alg_id key = tx_sig_alg_id tx /\
    can_sign key (MsgType.required_permission_bit (tx_msg_type tx)) (ctx_current_height ctx)
      = true /\
    verify (tx_sig_alg_id tx) (key_pk_bytes key) (build_preimage (ctx_fork_digest ctx) tx)
      (tx_signature tx) = true /\
    tx_nonce tx = acc_nonce account /\ tx_fee tx + tx_fee_tip tx <= acc_balance account /\
    ctx_alg_min_fee ctx (tx_sig_alg_id tx) = Some min_fee /\
    forall gas_used,
      fee_total (actual_fee_breakdown tx (len raw) gas_used (ctx_fee_params ctx) min_fee)
        <= tx_fee tx.
Proof.
  intros Hdec%decode_tx_wf Hval. unfold validate_tx in Hval. run_inv.
  match goal with Hl : KeySetOps.lookup _ _ _ _ _ = Ok _ |- _ =>
    apply lookup_Ok in Hl as (? & ? & Halg & ?) end.
  destruct Hdec as (_ & _ & _ & ? & ? & _). rewrite sat_add_small in * by lia.
  rewrite Halg in *. eexists _, _, _, _. split_and!; try done.
  intros g. etrans; [apply actual_fee_le_required|done].
Qed.
End properties.

(** ** Witnesses *)

Definition example_sender : Address := be_bytes 32 7.
Definition example_key : KeyEntry :=
  mkKeyEntry AlgId.MlDsa65 [x05] 1 0 KeyStatus.Active allowed_tx.ALL.
Definition example_account : Account :=
  mkAccount example_sender 1000 4 [example_key] 0 None VERIFIER_TEMPLATE_ID_EOA [].
Definition example_unsigned_tx : Transaction :=
  mkTransaction 1 (bstr "viper") MsgType.TokenTransfer example_sender 4 100 0 21000
    [xa0] AlgId.MlDsa65 1 [].
Definition example_tx : Transaction :=
  let cbor := example_cbor Value.Null in
  let shake := example_shake in
  example_unsigned_tx <| tx_signature := build_preimage [x01; x02; x03; x04] example_unsigned_tx |>.
Definition example_envelope : bytes :=
  match encode_envelope AlgId.MlDsa65 (tx_signature example_tx) with Ok e => e | _ => [] end.
Definition example_ctx : ValidationContext :=
  mkValidationContext (bstr "viper") [x01; x02; x03; x04] 10 (Some example_account)
    (mkFeeParams 1 1 1 1 1 0 0)
    (fun _ => Some Lifecycle.Active) (fun _ => Some 0).

Lemma example_encode_envelope :
  encode_envelope (tx_sig_alg_id example_tx) (tx_signature example_tx) = Ok example_envelope.
Proof. by vm_compute. Qed.

Lemma example_tx_wf : tx_wf example_tx.
Proof. unfold tx_wf. split_and!; by vm_compute. Qed.

Lemma tx_codec_roundtrip_witness :
  let cbor := example_cbor (Value.Map (tx_pairs example_tx example_envelope)) in
  exists b, encode_tx example_tx = Ok b /\ (decode_tx b = Ok example_tx <-> tx_wf example_tx).
Proof.
  intros cbor. apply (tx_codec_roundtrip example_tx example_envelope).
  - exact example_encode_envelope.
  - reflexivity.
Defined.

(** The entries in reverse order, and an entry under the unused key 99. *)
Definition example_reordered : list (Z * Value.t) :=
  (99%Z, Value.Null) :: reverse (tx_kvs example_tx example_envelope).

Lemma decode_tx_key_order_witness :
  let cbor := example_cbor (Value.Map (int_pairs example_reordered)) in
  decode_tx (into_writer (Value.Map (int_pairs example_reordered))) = Ok example_tx.
Proof.
  intros cbor. apply (decode_tx_key_order example_tx example_envelope [(99%Z, Value.Null)]).
  - exact example_encode_envelope.
  - exact example_tx_wf.
  - unfold example_reordered. rewrite reverse_Permutation. apply Permutation_cons_append.
  - apply (bool_decide_unpack _). by vm_compute.
  - apply (bool_decide_unpack _). by vm_compute.
  - reflexivity.
Defined.

Lemma preimage_binds_witness :
  let cbor := example_cbor (preimage_value example_tx) in
  let shake := example_shake in
  let fd := [x01; x02; x03; x04] in
  (fd = fd /\ example_tx <| tx_signature := [] |> = example_unsigned_tx) \/
  collision_in [ tagged_preimage DOMAIN_SEPARATOR (preimage_body fd example_tx);
                 tagged_preimage DOMAIN_SEPARATOR (preimage_body fd example_unsigned_tx) ].
Proof.
  intros cbor shake fd. apply (preimage_binds fd fd example_tx example_unsigned_tx).
  - reflexivity.
  - reflexivity.
  - reflexivity.
  - reflexivity.
  - reflexivity.
Defined.

Lemma validate_tx_sound_witness :
  let cbor := example_cbor (Value.Map (tx_pairs example_tx example_envelope)) in
  let shake := example_shake in
  let verifier := example_verifier in
  exists account key lifecycle min_fee,
    len [x00] <= MAX_TX_BYTES /\ tx_chain_id example_tx = ctx_chain_id example_ctx /\
    ctx_alg_lifecycle example_ctx (tx_sig_alg_id example_tx) = Some lifecycle /\
    Lifecycle.admits_transactions lifecycle = true /\
    ctx_sender_account example_ctx = Some account /\ key ∈ acc_keys account /\
    key_version key = tx_sig_key_version example_tx /\
    key_alg_id key = tx_sig_alg_id example_tx /\
    can_sign key (MsgType.required_permission_bit (tx_msg_type example_tx))
      (ctx_current_height example_ctx) = true /\
    verify (tx_sig_alg_id example_tx) (key_pk_bytes key)
      (build_preimage (ctx_fork_digest example_ctx) example_tx) (tx_signature example_tx) = true /\
    tx_nonce example_tx = acc_nonce account /\
    tx_fee example_tx + tx_fee_tip example_tx <= acc_balance account /\
    ctx_alg_min_fee example_ctx (tx_sig_alg_id example_tx) = Some min_fee /\
    forall gas_used,
      fee_total (actual_fee_breakdown example_tx (len [x00]) gas_used
        (ctx_fee_params example_ctx) min_fee) <= tx_fee example_tx.
Proof.
  intros cbor shake verifier. apply (validate_tx_sound [x00] example_tx example_ctx).
  - by vm_compute.
  - by vm_compute.
Defined.

(** The signature class that prices a transaction agrees with the class the
    algorithm registry records, except for the three SLH-DSA-SHAKE parameter sets:
    the registry has them as premium and the fee computation charges the standard
    rate. *)
Lemma sigverify_class_vs_registry e c :
  e ∈ phase1_registry -> alg_sig_class e = Some c ->
  sigverify_class (alg_id e) = c <->
  ~ (alg_id e ∈ [AlgId.SlhDsaShake128s; AlgId.SlhDsaShake192s; AlgId.SlhDsaShake256s]).
Proof.
  unfold phase1_registry. rewrite !elem_of_cons, elem_of_nil.
  intros He Hc. destruct_or?; subst; cbn in *; simplify_eq; set_solver.
Qed.

Lemma sigverify_class_vs_registry_witness :
  sigverify_class AlgId.SlhDsaShake192s = SigClass.Premium <->
  ~ (AlgId.SlhDsaShake192s
       ∈ [AlgId.SlhDsaShake128s; AlgId.SlhDsaShake192s; AlgId.SlhDsaShake256s]).
Proof.
  apply (sigverify_class_vs_registry
    (mkAlgEntry AlgId.SlhDsaShake192s (bstr "FIPS 205") 48 16224 (Some SigClass.Premium) 0
       Lifecycle.Active 312)).
  - unfold phase1_registry. do 6 right. left.
  - reflexivity.
Defined.
