(* ===== verification/FeeMarket.v ===== *)
(** * The fee market and the storage fund.

    The exponential base-fee update of [pqc-state/src/store.rs]
    ([fake_exponential], [apply_fee_market_step]) and
    [pqc-state/src/storage_fund.rs].  The loop of [fake_exponential] breaks after
    128 rounds, so 128 is exactly its fuel. *)

From S2P Require Import Prelude.

Definition COMPUTE_RESERVE_FLOOR : N := 100.
Definition BASE_FEE_MIN : N := COMPUTE_RESERVE_FLOOR.
Definition BASE_FEE_MAX : N := 10000000.
Definition DEFAULT_BLOCK_GAS_LIMIT : N := 10000000.
Definition DEFAULT_BASE_FEE : N := 0.
Definition COMPUTE_FEE_UPDATE_FRACTION : N := 3338477.
Definition DEFAULT_COMPUTE_TARGET : N := DEFAULT_BLOCK_GAS_LIMIT / 2.

Record FeeMarketDimension := mkFeeMarketDimension {
  fm_base_fee : N;
  fm_limit : N;
  fm_target : N;
  fm_excess : N;
  fm_reserve_floor : N;
  fm_update_fraction : N
}.

Global Instance eta_FeeMarketDimension : Settable FeeMarketDimension := fun x =>
  mkFeeMarketDimension (fm_base_fee x) (fm_limit x) (fm_target x) (fm_excess x)
    (fm_reserve_floor x) (fm_update_fraction x).

Definition compute_default : FeeMarketDimension :=
  mkFeeMarketDimension DEFAULT_BASE_FEE DEFAULT_BLOCK_GAS_LIMIT DEFAULT_COMPUTE_TARGET 0
    COMPUTE_RESERVE_FLOOR COMPUTE_FEE_UPDATE_FRACTION.

Definition reserved_default (reserve_floor : N) : FeeMarketDimension :=
  mkFeeMarketDimension reserve_floor 0 0 0 reserve_floor 1.

Record FeeMarketState := mkFeeMarketState {
  fm_compute : FeeMarketDimension;
  fm_storage : FeeMarketDimension;
  fm_witness : FeeMarketDimension;
  fm_contention : FeeMarketDimension;
  fm_burn_rate_bps : N
}.

Global Instance eta_FeeMarketState : Settable FeeMarketState := fun x =>
  mkFeeMarketState (fm_compute x) (fm_storage x) (fm_witness x) (fm_contention x)
    (fm_burn_rate_bps x).

Definition FeeMarketState_default : FeeMarketState :=
  mkFeeMarketState compute_default (reserved_default COMPUTE_RESERVE_FLOOR)
    (reserved_default COMPUTE_RESERVE_FLOOR) (reserved_default COMPUTE_RESERVE_FLOOR) 0.

(** [while numerator_accum > 0 { .. if i > 128 { break } }]; returns [output]. *)
Fixpoint fake_exponential_loop (fuel : nat) (numerator denominator output numerator_accum i : N)
    : N :=
  match fuel with
  | O => output
  | S fuel' =>
      if numerator_accum =? 0 then output
      else fake_exponential_loop fuel' numerator denominator
             (sat_add u128_max output numerator_accum)
             (sat_mul u128_max numerator_accum numerator / sat_mul u128_max denominator i)
             (i + 1)
  end.

Definition fake_exponential (factor numerator denominator : N) : N :=
  if denominator =? 0 then factor
  else
    let output := fake_exponential_loop 128 numerator denominator 0
                    (sat_mul u128_max factor denominator) 1 in
    N.min (output / denominator) u64_max.

(** [x.clamp(lo, hi)] asserts [lo <= hi]. *)
Definition clamp {E} (lo hi x : N) : outcome E N :=
  if lo <=? hi then Ok (N.max lo (N.min x hi)) else Panic.

(** The nested function [step] of [apply_fee_market_step]. *)
Definition fee_market_dim_step {E} (dim : FeeMarketDimension) (used : N)
    : outcome E FeeMarketDimension :=
  let sum := sat_add u64_max (fm_excess dim) used in
  let excess := sum - fm_target dim in
  let denom_mul := sat_mul u64_max (fm_reserve_floor dim) (fm_update_fraction dim) in
  let raw := fake_exponential (fm_reserve_floor dim) excess denom_mul in
  base_fee ← clamp (fm_reserve_floor dim) BASE_FEE_MAX raw;
  Ok (dim <| fm_excess := excess |> <| fm_base_fee := base_fee |>).

Definition fee_market_step {E} (s : FeeMarketState)
    (compute_used storage_used witness_used contention_used : N) : outcome E FeeMarketState :=
  compute ← fee_market_dim_step (fm_compute s) compute_used;
  storage ← fee_market_dim_step (fm_storage s) storage_used;
  witness ← fee_market_dim_step (fm_witness s) witness_used;
  contention ← fee_market_dim_step (fm_contention s) contention_used;
  Ok (mkFeeMarketState compute storage witness contention (fm_burn_rate_bps s)).

(** ** [storage_fund.rs] *)

Definition DEFAULT_PERPETUAL_COST_PER_BYTE : N := 1.
Definition DEFAULT_REBATE_FRACTION_BPS : N := 9900.
Definition REBATE_BPS_DENOM : N := 10000.

Record StorageFundState := mkStorageFundState {
  sf_balance : N;
  sf_perpetual_cost_per_byte : N;
  sf_rebate_fraction_bps : N
}.

Global Instance eta_StorageFundState : Settable StorageFundState := fun x =>
  mkStorageFundState (sf_balance x) (sf_perpetual_cost_per_byte x) (sf_rebate_fraction_bps x).

Definition StorageFundState_default : StorageFundState :=
  mkStorageFundState 0 DEFAULT_PERPETUAL_COST_PER_BYTE DEFAULT_REBATE_FRACTION_BPS.

Definition storage_fee (f : StorageFundState) (b : N) : N :=
  sat_mul u128_max b (sf_perpetual_cost_per_byte f).

Definition storage_rebate (f : StorageFundState) (original_fee : N) : N :=
  sat_mul u128_max original_fee (sf_rebate_fraction_bps f) / REBATE_BPS_DENOM.

Definition storage_fund_credit (f : StorageFundState) (amount : N) : StorageFundState :=
  f <| sf_balance := sat_add u128_max (sf_balance f) amount |>.

(** The new state and the amount actually debited. *)
Definition storage_fund_debit (f : StorageFundState) (amount : N) : StorageFundState * N :=
  let debit := N.min amount (sf_balance f) in
  (f <| sf_balance := sf_balance f - debit |>, debit).

(** ** The exponential *)

Lemma fake_exponential_loop_ge fuel n d o a i :
  o <= u128_max -> o <= fake_exponential_loop fuel n d o a i.
Proof.
  revert o a i. induction fuel as [|fuel IH]; intros o a i Ho; cbn; [lia|].
  destruct (a =? 0); [lia|]. etrans; [|apply IH]; unfold sat_add; lia.
Qed.

(** The loop is monotone in everything but the denominator. *)
Lemma fake_exponential_loop_mono fuel n1 n2 d o1 o2 a1 a2 i :
  n1 <= n2 -> o1 <= o2 -> a1 <= a2 -> o2 <= u128_max ->
  fake_exponential_loop fuel n1 d o1 a1 i <= fake_exponential_loop fuel n2 d o2 a2 i.
Proof.
  revert o1 o2 a1 a2 i. induction fuel as [|fuel IH]; intros o1 o2 a1 a2 i Hn Ho Ha Hm; [done|].
  cbn [fake_exponential_loop]. destruct (N.eqb_spec a1 0), (N.eqb_spec a2 0); try lia.
  - etrans; [exact Ho|]. etrans; [|apply fake_exponential_loop_ge]; unfold sat_add; lia.
  - apply IH; [done|unfold sat_add; lia| |unfold sat_add; lia].
    apply N.Div0.div_le_mono. unfold sat_mul. nia.
Qed.

Lemma fake_exponential_mono f n1 n2 d :
  n1 <= n2 -> fake_exponential f n1 d <= fake_exponential f n2 d.
Proof.
  intros Hn. unfold fake_exponential. destruct (d =? 0); [done|].
  apply N.min_le_compat_r, N.Div0.div_le_mono. by apply fake_exponential_loop_mono.
Qed.

Lemma fake_exponential_loop_zero fuel d k :
  k <= u128_max -> fake_exponential_loop (S (S fuel)) 0 d 0 k 1 = k.
Proof.
  intros Hk. cbn [fake_exponential_loop].
  rewrite sat_add_small, N.add_0_l by lia.
  assert (sat_mul u128_max k 0 = 0) as -> by (unfold sat_mul; lia).
  rewrite N.Div0.div_0_l. cbn. destruct (N.eqb_spec k 0); lia.
Qed.

Lemma fake_exponential_zero f d :
  f <= u64_max -> d <= u64_max -> fake_exponential f 0 d = f.
Proof.
  intros Hf Hd. unfold fake_exponential. destruct (N.eqb_spec d 0) as [|Hd0]; [done|].
  rewrite sat_mul_small by nia.
  rewrite fake_exponential_loop_zero by nia.
  rewrite N.div_mul by done. lia.
Qed.

(** The reserve price is a lower bound of the curve itself. *)
Lemma fake_exponential_ge_factor f n d :
  f <= u64_max -> d <= u64_max -> f <= fake_exponential f n d.
Proof.
  intros. rewrite <-(fake_exponential_zero f d) at 1 by done. apply fake_exponential_mono. lia.
Qed.

(** ** Properties of the update *)

(** A dimension as the node configures it: [u64] fields and a reserve floor the
    clamp accepts. *)
Definition dim_wf (d : FeeMarketDimension) : Prop :=
  fm_excess d <= u64_max /\ fm_target d <= u64_max /\ fm_reserve_floor d <= BASE_FEE_MAX.

Definition fee_market_wf (s : FeeMarketState) : Prop :=
  dim_wf (fm_compute s) /\ dim_wf (fm_storage s) /\ dim_wf (fm_witness s) /\
  dim_wf (fm_contention s).

Lemma dim_step_Ok {E} d used :
  dim_wf d -> exists d', fee_market_dim_step (E := E) d used = Ok d' /\ dim_wf d' /\
    fm_excess d' = sat_add u64_max (fm_excess d) used - fm_target d /\
    fm_base_fee d' = N.min BASE_FEE_MAX
      (fake_exponential (fm_reserve_floor d) (fm_excess d')
        (sat_mul u64_max (fm_reserve_floor d) (fm_update_fraction d))) /\
    fm_reserve_floor d' = fm_reserve_floor d /\ fm_target d' = fm_target d /\
    fm_limit d' = fm_limit d /\ fm_update_fraction d' = fm_update_fraction d.
Proof.
  intros (He & Ht & Hf). unfold fee_market_dim_step, clamp.
  rewrite (proj2 (N.leb_le _ _)) by done. cbn -[N.sub sat_add].
  eexists. split; [done|]. cbn -[N.sub sat_add]. unfold dim_wf; cbn -[N.sub sat_add].
  split_and!; try done; [unfold sat_add; lia|].
  pose proof (fake_exponential_ge_factor (fm_reserve_floor d)
    (sat_add u64_max (fm_excess d) used - fm_target d)
    (sat_mul u64_max (fm_reserve_floor d) (fm_update_fraction d))).
  unfold BASE_FEE_MAX in *. unfold sat_mul in *. lia.
Qed.

Lemma fee_market_step_Ok {E} s c t w k :
  fee_market_wf s -> exists s', fee_market_step (E := E) s c t w k = Ok s' /\ fee_market_wf s' /\
    fm_burn_rate_bps s' = fm_burn_rate_bps s.
Proof.
  intros (Hc & Ht & Hw & Hk). unfold fee_market_step.
  destruct (dim_step_Ok (E := E) _ c Hc) as (c' & -> & ? & _).
  destruct (dim_step_Ok (E := E) _ t Ht) as (t' & -> & ? & _).
  destruct (dim_step_Ok (E := E) _ w Hw) as (w' & -> & ? & _).
  destruct (dim_step_Ok (E := E) _ k Hk) as (k' & -> & ? & _).
  eexists. split; [done|]. done.
Qed.

(** C34 The per-block base-fee update of a dimension never panics and keeps the
    fee between the reserve floor and the maximum; it is exactly the floor while
    usage stays within the target, it does not decrease when more is used, and the
    excess it accumulates is usage beyond the target, saturating at [u64::MAX]. *)
Theorem fee_market_dim_step_spec d used1 used2 :
  dim_wf d -> used1 <= used2 ->
  exists d1 d2,
    fee_market_dim_step (E := unit) d used1 = Ok d1 /\
    fee_market_dim_step (E := unit) d used2 = Ok d2 /\
    fm_reserve_floor d <= fm_base_fee d1 <= BASE_FEE_MAX /\
    fm_base_fee d1 <= fm_base_fee d2 /\
    fm_excess d1 = N.min (fm_excess d + used1) u64_max - fm_target d /\
    (fm_excess d + used1 <= fm_target d -> fm_base_fee d1 = fm_reserve_floor d).
Proof.
  intros Hwf Hle. pose proof Hwf as (He & Ht & Hf).
  destruct (dim_step_Ok (E := unit) d used1 Hwf) as (d1 & -> & _ & He1 & Hb1 & _).
  destruct (dim_step_Ok (E := unit) d used2 Hwf) as (d2 & -> & _ & He2 & Hb2 & _).
  set (den := sat_mul u64_max (fm_reserve_floor d) (fm_update_fraction d)) in *.
  assert (den <= u64_max) by (unfold den, sat_mul; lia).
  assert (fm_excess d1 <= fm_excess d2) as Hex by (rewrite He1, He2; unfold sat_add; lia).
  pose proof (fake_exponential_mono (fm_reserve_floor d) _ _ den Hex).
  assert (fm_reserve_floor d <= u64_max) by (unfold BASE_FEE_MAX in *; lia).
  pose proof (fake_exponential_ge_factor (fm_reserve_floor d) (fm_excess d1) den).
  exists d1, d2. split_and!; [done|done|lia|lia|lia|done|].
  intros Hle1. assert (fm_excess d1 = 0) as Hz by (rewrite He1; unfold sat_add; lia).
  rewrite Hb1, Hz, fake_exponential_zero by done. lia.
Qed.

Lemma fee_market_dim_step_spec_witness :
  exists d1 d2,
    fee_market_dim_step (E := unit) compute_default 5000000 = Ok d1 /\
    fee_market_dim_step (E := unit) compute_default 9000000 = Ok d2 /\
    100 <= fm_base_fee d1 <= BASE_FEE_MAX /\ fm_base_fee d1 <= fm_base_fee d2 /\
    fm_excess d1 = N.min (0 + 5000000) u64_max - 5000000 /\
    (0 + 5000000 <= 5000000 -> fm_base_fee d1 = 100).
Proof.
  apply (fee_market_dim_step_spec compute_default 5000000 9000000).
  - repeat split; by vm_compute.
  - by vm_compute.
Defined.
