(* ===== verification/Leaves.v ===== *)
(** * Leaf hashes: [pqc-state/src/store/state_merkle.rs].

    The leaf of an entity is a tagged hash over length-prefixed chunks.  For each
    kind of entity [*_chunks] lists the chunks in the order the code pushes them
    and [compute_*_leaf_hash] hashes them. *)

From S2P Require Import Prelude Crypto Types FeeMarket.

(** The integer widths the chunks are written with. *)
Definition u8 (n : N) : bytes := [byte_of_N n].
Abbreviation u16 := (be_bytes 2) (only parsing).
Abbreviation u32 := (be_bytes 4) (only parsing).
Abbreviation u64 := (be_bytes 8) (only parsing).
Abbreviation u128 := (be_bytes 16) (only parsing).

Definition flag (b : bool) : bytes := if b then u8 1 else u8 0.

(** [match o { Some(h) => { push(&[1]); push(&h) } None => push(&[0]) }] *)
Definition opt_chunks (o : option bytes) : list bytes :=
  match o with Some h => [u8 1; h] | None => [u8 0] end.

Definition encode_lifecycle_byte (l : Lifecycle.t) : N :=
  match l with
  | Lifecycle.Active => 0
  | Lifecycle.Discouraged => 1
  | Lifecycle.Deprecated => 2
  | Lifecycle.Banned => 3
  end.

(** ** Accounts *)

Definition key_status_byte (s : KeyStatus.t) : N :=
  match s with KeyStatus.Pending => 0 | KeyStatus.Active => 1 | KeyStatus.Revoked => 2 end.

Definition key_chunks (k : KeyEntry) : list bytes :=
  [ u16 (AlgId.as_u16 (key_alg_id k)); u32 (key_version k); u64 (key_valid_from_height k);
    u8 (key_status_byte (key_status k)); u32 (key_allowed_tx_types k); key_pk_bytes k ].

(** [keys.sort_by_key(|k| k.key_version)], a stable sort. *)
Definition key_version_le (a b : KeyEntry) : Prop := key_version a <= key_version b.

Global Instance key_version_le_dec a b : Decision (key_version_le a b).
Proof. unfold key_version_le. apply _. Defined.

Definition keys_by_version (keys : KeySet) : list KeyEntry := merge_sort key_version_le keys.

Definition account_chunks (a : Account) : list bytes :=
  let keys := keys_by_version (acc_keys a) in
  [acc_address a; u128 (acc_balance a); u64 (acc_nonce a); u64 (len keys)]
  ++ concat (key_chunks <$> keys)
  ++ [u32 (acc_policy_version a)] ++ opt_chunks (acc_policy_hash a)
  ++ [u16 (acc_verifier_template_id a); acc_auth_data a].

(** ** Attestations, anchors and rotations *)

Definition attestation_chunks (a : Attestation) : list bytes :=
  [ att_attestation_id a; att_attester a; att_subject a; u16 (att_attestation_type a);
    att_content_hash a; att_schema_id a ]
  ++ opt_chunks (att_metadata_hash a)
  ++ [u64 (att_anchor_height a)]
  ++ opt_chunks (be_bytes 8 <$> att_expires_at_height a)
  ++ [u8 (match att_status a with AttestationStatus.Active => 0 | AttestationStatus.Revoked => 1 end)]
  ++ match att_revocation a with
     | Some rev =>
         [u8 1; u64 (rev_revoked_at_height rev); rev_revoker rev]
         ++ opt_chunks (rev_revocation_reason_hash rev)
     | None => [u8 0]
     end.

Definition proof_anchor_chunks (a : ProofAnchor) : list bytes :=
  [ pa_anchor_id a; pa_claimer a; u16 (pa_claim_type a); pa_asset_id_hash a; pa_proof_hash a ]
  ++ opt_chunks (pa_schema_id a) ++ [u64 (pa_anchor_height a)].

Definition consensus_rotation_chunks (r : ConsensusKeyRotation) : list bytes :=
  [ rot_operator r; u16 (AlgId.as_u16 (rot_new_alg_id r)); u64 (len (rot_new_pk_bytes r));
    rot_new_pk_bytes r; u64 (rot_rotation_start_height r); u64 (rot_recorded_at_height r) ].

(** ** Registries *)

Definition sig_class_byte (c : option SigClass.t) : N :=
  match c with
  | Some SigClass.Reduced => 1
  | Some SigClass.Standard => 2
  | Some SigClass.Premium => 3
  | None => 0
  end.

Definition alg_chunks (e : AlgEntry) : list bytes :=
  [ u16 (AlgId.as_u16 (alg_id e)); alg_spec_ref e; u64 (alg_pk_size e); u64 (alg_sig_size e);
    u64 (alg_min_fee e); u8 (encode_lifecycle_byte (alg_lifecycle e));
    u8 (sig_class_byte (alg_sig_class e)); u32 (alg_benchmark_verify_per_sec e) ].

Definition hash_registry_chunks (e : HashEntry) : list bytes :=
  [ u8 (hash_id e); u64 (len (hash_spec_ref e)); hash_spec_ref e; u32 (hash_output_size_bytes e);
    u8 (encode_lifecycle_byte (hash_lifecycle e)) ].

Definition slashing_verifier_chunks (e : SlashingVerifierEntry) : list bytes :=
  [ u8 (sv_evidence_type e); u64 (len (sv_spec_ref e)); sv_spec_ref e;
    u16 (sv_slash_fraction_bps e); u64 (sv_jail_duration_blocks e); flag (sv_tombstone e);
    u8 (encode_lifecycle_byte (sv_lifecycle e)) ].

(** ** Validators *)

Definition validator_status_chunks (s : ValidatorStatus.t) : list bytes :=
  match s with
  | ValidatorStatus.Candidate => [u8 0]
  | ValidatorStatus.Active => [u8 1]
  | ValidatorStatus.Jailed => [u8 2]
  | ValidatorStatus.Unbonding start_height => [u8 3; u64 start_height]
  | ValidatorStatus.Exited => [u8 4]
  end.

Definition validator_chunks (v : ValidatorRecord) : list bytes :=
  [ val_operator v; val_node_id v; u16 (AlgId.as_u16 (val_consensus_alg_id v));
    u64 (len (val_consensus_pk v)); val_consensus_pk v; u128 (val_self_bond v);
    u64 (val_registered_height v) ]
  ++ validator_status_chunks (val_status v) ++ [flag (val_tombstoned v)].

Definition peer_id_binding_chunks (operator : Address) (peer_id : bytes) : list bytes :=
  [operator; u64 (len peer_id); peer_id].

(** ** Governance *)

Definition receipt_chunks (r : GovernanceReceipt) : list bytes :=
  [ rcp_proposal_id r; u8 (GovernanceProposalType.as_u8 (rcp_proposal_type r)); rcp_proposer r;
    u16 (AlgId.as_u16 (rcp_target_alg_id r));
    u8 (encode_lifecycle_byte (rcp_lifecycle_before r));
    u8 (encode_lifecycle_byte (rcp_lifecycle_after r));
    u64 (rcp_min_fee_before r); u64 (rcp_min_fee_after r); rcp_rationale_hash r;
    u64 (rcp_executed_at_height r) ].

Definition proposal_status_byte (s : ProposalStatus.t) : N :=
  match s with
  | ProposalStatus.Voting => 0
  | ProposalStatus.Executed => 1
  | ProposalStatus.Expired => 2
  | ProposalStatus.Rejected => 3
  | ProposalStatus.ExecutionFailed => 4
  end.

Definition effect_chunks (e : ProposalEffect) : list bytes :=
  match e with
  | EffRegistryUpdate alg target_lifecycle new_min_fee =>
      [u8 1; u16 (AlgId.as_u16 alg)]
      ++ match target_lifecycle with
         | Some lc => [u8 1 ++ u8 (encode_lifecycle_byte lc)]
         | None => [u8 0]
         end
      ++ opt_chunks (be_bytes 8 <$> new_min_fee)
  | EffBurnRateUpdate bps => [u8 2; u16 bps]
  | EffFeeParamUpdate limit => [u8 3; u64 limit]
  | EffSoftwareUpgrade ts ver => [u8 4; u64 ts; u16 ver]
  | EffAddAlgorithm p =>
      [ u8 5; u16 (aap_alg_id p); u64 (len (aap_spec_ref p)); aap_spec_ref p;
        u32 (aap_pk_size p); u32 (aap_sig_size p); u8 (default 0 (aap_sig_class p));
        u64 (aap_min_fee p); u32 (aap_benchmark_verify_per_sec p);
        u8 (encode_lifecycle_byte (aap_initial_lifecycle p)) ]
  | EffAddSlashingVerifier p =>
      [ u8 6; u8 (sv_evidence_type p); u64 (len (sv_spec_ref p)); sv_spec_ref p;
        u16 (sv_slash_fraction_bps p); u64 (sv_jail_duration_blocks p); flag (sv_tombstone p);
        u8 (encode_lifecycle_byte (sv_lifecycle p)) ]
  | EffAddHash p =>
      [ u8 7; u8 (ahp_hash_id p); u64 (len (ahp_spec_ref p)); ahp_spec_ref p;
        u32 (ahp_output_size_bytes p); u8 (encode_lifecycle_byte (ahp_initial_lifecycle p)) ]
  | EffAddAuthTemplate p =>
      [ u8 8; u16 (aat_template_id p); u64 (len (aat_spec_ref p)); aat_spec_ref p;
        u8 (encode_lifecycle_byte (aat_lifecycle p)) ]
  end.

(** The proposer is not hashed. *)
Definition proposal_chunks (p : PendingProposal) : list bytes :=
  let votes := sorted_entries bytes_le (prop_votes p) in
  [ prop_proposal_id p; u8 (GovernanceProposalType.as_u8 (prop_proposal_type p));
    u8 (proposal_status_byte (prop_status p)); u64 (prop_voting_deadline p);
    u64 (prop_execute_after p); u64 (len votes) ]
  ++ concat ((fun '(addr, yes) => [addr; flag yes]) <$> votes)
  ++ effect_chunks (prop_effect p) ++ [prop_rationale_hash p].

Definition upgrade_chunks (u : PendingUpgrade) : list bytes :=
  [upg_proposal_id u; u64 (upg_activate_at_timestamp_ns u); u16 (upg_expected_version u)].

(** ** Singletons *)

Definition storage_fund_chunks (f : StorageFundState) : list bytes :=
  [ u128 (sf_balance f); u64 (sf_perpetual_cost_per_byte f); u64 (sf_rebate_fraction_bps f) ].

Definition dim_chunks (d : FeeMarketDimension) : list bytes :=
  [ u64 (fm_base_fee d); u64 (fm_limit d); u64 (fm_target d); u64 (fm_excess d);
    u64 (fm_reserve_floor d); u64 (fm_update_fraction d) ].

Definition fee_market_chunks (s : FeeMarketState) : list bytes :=
  dim_chunks (fm_compute s) ++ dim_chunks (fm_storage s) ++ dim_chunks (fm_witness s)
  ++ dim_chunks (fm_contention s) ++ [u64 (fm_burn_rate_bps s)].

Definition recent_slashes_chunks (l : list RecentSlashEntry) : list bytes :=
  u64 (len l) :: concat ((fun e => [u64 (rs_height e); u128 (rs_slashed_stake e)]) <$> l).

(** ** Archival overlay: [apply/archival.rs] *)

(** [push_tsa_ref] *)
Definition tsa_ref_chunks (r : option TsaRef) : list bytes :=
  match r with
  | Some r =>
      [u8 1; u64 (len (tsa_url r)); tsa_url r; tsa_cert_fingerprint_sha256 r]
      ++ match tsa_policy_oid r with
         | Some oid => [u8 1; u64 (len oid); oid]
         | None => [u8 0]
         end
  | None => [u8 0]
  end.

Definition archival_record_chunks (r : ArchivalRecord) : list bytes :=
  [u64 (ar_epoch_number r); ar_epoch_root r; u64 (len (ar_signer_addresses r))]
  ++ ar_signer_addresses r
  ++ [u64 (len (ar_slh_signatures r))]
  ++ concat ((fun s => [u64 (len s); s]) <$> ar_slh_signatures r)
  ++ [u64 (len (ar_timestamp_anchors r))]
  ++ concat ((fun a =>
       [u8 (AnchorKind.as_u8 (anc_kind a))] ++ tsa_ref_chunks (anc_tsa_ref a)
       ++ [u64 (len (anc_external_hash a)); anc_external_hash a; u64 (anc_posted_at_height a)])
       <$> ar_timestamp_anchors r)
  ++ [u64 (ar_evidence_record_version r)].

Definition archival_key_chunks (k : ValidatorArchivalKey) : list bytes :=
  [ vak_operator k; u16 (vak_archival_alg_id k); u64 (len (vak_archival_pk k));
    vak_archival_pk k; u64 (vak_registered_at_height k) ].

(** ** The leaf hashes *)

Section leaf_hashes.
Context `{Shake}.

Definition compute_account_leaf_hash (a : Account) : bytes :=
  hash_chunks (bstr "PQC-ACCOUNT-LEAF-V1") (account_chunks a).
Definition compute_attestation_leaf_hash (a : Attestation) : bytes :=
  hash_chunks (bstr "PQC-ATTESTATION-LEAF-V1") (attestation_chunks a).
Definition compute_alg_leaf_hash (e : AlgEntry) : bytes :=
  hash_chunks (bstr "PQC-ALG-LEAF-V1") (alg_chunks e).
Definition compute_proof_anchor_leaf_hash (a : ProofAnchor) : bytes :=
  hash_chunks (bstr "PQC-PROOF-ANCHOR-LEAF-V1") (proof_anchor_chunks a).
Definition compute_consensus_rotation_leaf_hash (r : ConsensusKeyRotation) : bytes :=
  hash_chunks (bstr "PQC-CONSENSUS-ROTATE-LEAF-V1") (consensus_rotation_chunks r).
Definition compute_receipt_leaf_hash (r : GovernanceReceipt) : bytes :=
  hash_chunks (bstr "PQC-RECEIPT-LEAF-V1") (receipt_chunks r).
Definition compute_peer_id_binding_leaf_hash (operator : Address) (peer_id : bytes) : bytes :=
  hash_chunks (bstr "PQC-PEER-ID-BINDING-LEAF-V1") (peer_id_binding_chunks operator peer_id).
Definition compute_validator_leaf_hash (v : ValidatorRecord) : bytes :=
  hash_chunks (bstr "PQC-VALIDATOR-LEAF-V1") (validator_chunks v).
Definition compute_storage_fund_leaf_hash (f : StorageFundState) : bytes :=
  hash_chunks (bstr "VIPER-STORAGE-FUND-V1") (storage_fund_chunks f).
Definition compute_fee_market_leaf_hash (s : FeeMarketState) : bytes :=
  hash_chunks (bstr "VIPER-FEE-MARKET-V1") (fee_market_chunks s).
Definition compute_recent_slashes_leaf_hash (l : list RecentSlashEntry) : bytes :=
  hash_chunks (bstr "VIPER-RECENT-SLASHES-V1") (recent_slashes_chunks l).
Definition compute_proposal_leaf_hash (p : PendingProposal) : bytes :=
  hash_chunks (bstr "PQC-PROPOSAL-LEAF-V1") (proposal_chunks p).
Definition compute_upgrade_leaf_hash (u : PendingUpgrade) : bytes :=
  hash_chunks (bstr "PQC-UPGRADE-LEAF-V1") (upgrade_chunks u).
Definition compute_hash_registry_leaf_hash (e : HashEntry) : bytes :=
  hash_chunks (bstr "VIPER-HASH-REGISTRY-V1") (hash_registry_chunks e).
Definition compute_slashing_verifier_leaf_hash (e : SlashingVerifierEntry) : bytes :=
  hash_chunks (bstr "VIPER-SLASHING-REGISTRY-V1") (slashing_verifier_chunks e).
Definition compute_archival_record_leaf_hash (r : ArchivalRecord) : bytes :=
  hash_chunks (bstr "VIPER-ARCHIVAL-RECORDS-V1") (archival_record_chunks r).
Definition compute_archival_key_leaf_hash (k : ValidatorArchivalKey) : bytes :=
  hash_chunks (bstr "VIPER-ARCHIVAL-KEYS-V1") (archival_key_chunks k).
End leaf_hashes.
