(* ===== verification/Store.v ===== *)
(** * The state store: [pqc-state/src/store.rs].

    Each [HashMap] of the store is grouped with its cache of leaf hashes in a
    [Table]; an operation updates the rows and the cache separately, as the code
    does ([get_*_mut] followed by [commit_*_mutation]), so a missing recomputation
    is visible.  A record is stored under its own key ([store_ok] states it), so
    listing a table by map key is the code's sort by the record's key field.
    [Shake] is the only parameter. *)

From S2P Require Import Prelude Crypto Types FeeMarket Leaves Tx.

(** ** Tables: a map and the cache of its leaf hashes *)

Record Table (K V : Type) `{Countable K} := mkTable {
  rows : gmap K V;
  leaves : gmap K bytes
}.
Arguments mkTable {K V _ _} rows leaves.
Arguments rows {K V _ _} t.
Arguments leaves {K V _ _} t.

Section table.
Context {K V : Type} `{Countable K} (leaf_hash : K -> V -> bytes).

Definition tbl_empty : Table K V := mkTable ∅ ∅.

(** Insert the row and its leaf. *)
Definition tbl_insert (k : K) (v : V) (t : Table K V) : Table K V :=
  mkTable (<[k := v]> (rows t)) (<[k := leaf_hash k v]> (leaves t)).

(** Write through a mutable reference: the leaf is left as it was. *)
Definition tbl_put (k : K) (v : V) (t : Table K V) : Table K V :=
  mkTable (<[k := v]> (rows t)) (leaves t).

(** Recompute the leaf of a row that exists. *)
Definition tbl_commit (k : K) (t : Table K V) : Table K V :=
  match rows t !! k with
  | Some v => mkTable (rows t) (<[k := leaf_hash k v]> (leaves t))
  | None => t
  end.

Definition tbl_remove (k : K) (t : Table K V) : Table K V :=
  mkTable (delete k (rows t)) (delete k (leaves t)).
End table.

(** ** The store *)

Record StateStore := mkStateStore {
  st_accounts : Table bytes Account;
  st_attestations : Table bytes Attestation;
  st_proof_anchors : Table bytes ProofAnchor;
  st_rotations : Table bytes ConsensusKeyRotation;
  st_receipts : Table bytes GovernanceReceipt;
  st_validators : Table bytes ValidatorRecord;
  st_peer_ids : Table bytes bytes;
  st_block_height : N;
  st_algs : Table N AlgEntry;
  st_chain_id : bytes;
  st_fee_market : FeeMarketState;
  st_fee_market_leaf : bytes;
  st_storage_fund : StorageFundState;
  st_storage_fund_leaf : bytes;
  st_proposals : Table bytes PendingProposal;
  st_archival_records : Table N ArchivalRecord;
  st_archival_keys : Table bytes ValidatorArchivalKey;
  st_archival_signer_set : gset bytes;
  st_archival_threshold : option (N * N);
  st_archival_renewers : gset bytes;
  st_upgrades : Table bytes PendingUpgrade;
  st_recent_slashes : list RecentSlashEntry;
  st_recent_slashes_leaf : bytes;
  st_slashing_registry : Table N SlashingVerifierEntry;
  st_hash_registry : Table N HashEntry
}.

Global Instance eta_StateStore : Settable StateStore := fun x =>
  mkStateStore (st_accounts x) (st_attestations x) (st_proof_anchors x) (st_rotations x)
    (st_receipts x) (st_validators x) (st_peer_ids x) (st_block_height x) (st_algs x)
    (st_chain_id x) (st_fee_market x) (st_fee_market_leaf x) (st_storage_fund x)
    (st_storage_fund_leaf x) (st_proposals x) (st_archival_records x) (st_archival_keys x)
    (st_archival_signer_set x) (st_archival_threshold x) (st_archival_renewers x)
    (st_upgrades x) (st_recent_slashes x) (st_recent_slashes_leaf x) (st_slashing_registry x)
    (st_hash_registry x).

Definition DEFAULT_EQUIVOCATION_SLASH_FRACTION_BPS : N := 500.
Definition SLASHING_EVIDENCE_TYPE_EQUIVOCATION : N := 0x01.
Definition SLASHING_EVIDENCE_TYPE_DOWNTIME : N := 0x02.
Definition SLASHING_CORE_RESERVED_MAX : N := 0x0F.
Definition STATE_LEAF_DOMAIN : bytes := bstr "VIPER-STATE-LEAF-V1".
Definition STATE_BRANCH_DOMAIN : bytes := bstr "VIPER-STATE-BRANCH-V1".

(** The section sign of the seeded reference is its UTF-8 encoding. *)
Definition equivocation_entry : SlashingVerifierEntry :=
  mkSlashingVerifierEntry SLASHING_EVIDENCE_TYPE_EQUIVOCATION
    (bstr "SPEC-SLASH-001 " ++ [xc2; xa7] ++ bstr "10 (equivocation, ADR-024)")
    DEFAULT_EQUIVOCATION_SLASH_FRACTION_BPS 0 true Lifecycle.Active.

(** The leaf hash of each table. *)
Abbreviation h_account := (fun _ : bytes => compute_account_leaf_hash).
Abbreviation h_attestation := (fun _ : bytes => compute_attestation_leaf_hash).
Abbreviation h_proof_anchor := (fun _ : bytes => compute_proof_anchor_leaf_hash).
Abbreviation h_rotation := (fun _ : bytes => compute_consensus_rotation_leaf_hash).
Abbreviation h_receipt := (fun _ : bytes => compute_receipt_leaf_hash).
Abbreviation h_validator := (fun _ : bytes => compute_validator_leaf_hash).
Abbreviation h_peer_id := compute_peer_id_binding_leaf_hash.
Abbreviation h_alg := (fun _ : N => compute_alg_leaf_hash).
Abbreviation h_proposal := (fun _ : bytes => compute_proposal_leaf_hash).
Abbreviation h_upgrade := (fun _ : bytes => compute_upgrade_leaf_hash).
Abbreviation h_slashing := (fun _ : N => compute_slashing_verifier_leaf_hash).
Abbreviation h_hash := (fun _ : N => compute_hash_registry_leaf_hash).
Abbreviation h_archival_record := (fun _ : N => compute_archival_record_leaf_hash).
Abbreviation h_archival_key := (fun _ : bytes => compute_archival_key_leaf_hash).

Section store.
Context `{Shake}.

(** *** Accounts, attestations, anchors *)

Definition get_account (s : StateStore) (addr : Address) : option Account :=
  rows (st_accounts s) !! addr.
Definition put_account (addr : Address) (a : Account) (s : StateStore) : StateStore :=
  s <| st_accounts ::= tbl_put addr a |>.
Definition commit_account_mutation (addr : Address) (s : StateStore) : StateStore :=
  s <| st_accounts ::= tbl_commit h_account addr |>.
Definition insert_account (a : Account) (s : StateStore) : StateStore :=
  s <| st_accounts ::= tbl_insert h_account (acc_address a) a |>.

Definition get_attestation (s : StateStore) (id : bytes) : option Attestation :=
  rows (st_attestations s) !! id.
Definition insert_attestation (a : Attestation) (s : StateStore) : StateStore :=
  s <| st_attestations ::= tbl_insert h_attestation (att_attestation_id a) a |>.

Definition get_proof_anchor (s : StateStore) (id : bytes) : option ProofAnchor :=
  rows (st_proof_anchors s) !! id.
Definition insert_proof_anchor (a : ProofAnchor) (s : StateStore) : StateStore :=
  s <| st_proof_anchors ::= tbl_insert h_proof_anchor (pa_anchor_id a) a |>.

(** *** Algorithm registry *)

Definition alg_entry (s : StateStore) (a : AlgId.t) : option AlgEntry :=
  rows (st_algs s) !! AlgId.as_u16 a.
Definition put_alg_entry (a : AlgId.t) (e : AlgEntry) (s : StateStore) : StateStore :=
  s <| st_algs ::= tbl_put (AlgId.as_u16 a) e |>.
Definition commit_alg_entry_mutation (a : AlgId.t) (s : StateStore) : StateStore :=
  s <| st_algs ::= tbl_commit h_alg (AlgId.as_u16 a) |>.
Definition insert_alg_entry (e : AlgEntry) (s : StateStore) : StateStore :=
  s <| st_algs ::= tbl_insert h_alg (AlgId.as_u16 (alg_id e)) e |>.
Definition alg_entry_registered (s : StateStore) (raw : N) : bool :=
  bool_decide (is_Some (rows (st_algs s) !! raw)).
Definition store_alg_min_fee (s : StateStore) (a : AlgId.t) : option N :=
  alg_min_fee <$> alg_entry s a.

(** *** Validators and their bindings *)

Definition get_validator (s : StateStore) (operator : Address) : option ValidatorRecord :=
  rows (st_validators s) !! operator.
Definition put_validator (operator : Address) (v : ValidatorRecord) (s : StateStore) : StateStore :=
  s <| st_validators ::= tbl_put operator v |>.
Definition commit_validator_mutation (operator : Address) (s : StateStore) : StateStore :=
  s <| st_validators ::= tbl_commit h_validator operator |>.
Definition insert_validator (v : ValidatorRecord) (s : StateStore) : StateStore :=
  s <| st_validators ::= tbl_insert h_validator (val_operator v) v |>.

Definition get_validator_peer_id (s : StateStore) (operator : Address) : option bytes :=
  rows (st_peer_ids s) !! operator.
Definition set_validator_peer_id (operator : Address) (peer_id : bytes) (s : StateStore)
    : StateStore :=
  if bool_decide (peer_id = []) then s <| st_peer_ids ::= tbl_remove operator |>
  else s <| st_peer_ids ::= tbl_insert h_peer_id operator peer_id |>.

Definition binds_peer_id (s : StateStore) (op : bytes) : bool :=
  match val_status <$> get_validator s op with
  | Some ValidatorStatus.Active | Some ValidatorStatus.Candidate
  | Some ValidatorStatus.Jailed => true
  | _ => false
  end.

Definition peer_id_in_use (s : StateStore) (peer_id : bytes) : bool :=
  negb (bool_decide (peer_id = []))
  && existsb (fun '(op, bound) => bool_decide (bound = peer_id) && binds_peer_id s op)
       (map_to_list (rows (st_peer_ids s))).

Definition consensus_key_in_use (s : StateStore) (pk : bytes) : bool :=
  existsb (fun '(_, v) =>
    (bool_decide (val_status v = ValidatorStatus.Active)
     || bool_decide (val_status v = ValidatorStatus.Candidate))
    && bool_decide (val_consensus_pk v = pk))
    (map_to_list (rows (st_validators s))).

Definition validators_in_order (s : StateStore) : list ValidatorRecord :=
  (sorted_entries bytes_le (rows (st_validators s))).*2.
Definition active_validators (s : StateStore) : list ValidatorRecord :=
  filter (fun v => val_status v = ValidatorStatus.Active) (validators_in_order s).
Definition active_validator_count (s : StateStore) : N := len (active_validators s).
Definition is_active_validator (s : StateStore) (addr : Address) : bool :=
  match get_validator s addr with Some v => val_is_active v | None => false end.

(** [active_self_bond_total] and [total_active_self_bond] are the same sum. *)
Definition total_active_self_bond (s : StateStore) : N :=
  foldl (fun acc v => sat_add u128_max acc (val_self_bond v)) 0 (active_validators s).

(** *** Consensus-key rotations *)

Definition get_consensus_key_rotation (s : StateStore) (operator : Address)
    : option ConsensusKeyRotation :=
  rows (st_rotations s) !! operator.
Definition insert_consensus_key_rotation (r : ConsensusKeyRotation) (s : StateStore) : StateStore :=
  s <| st_rotations ::= tbl_insert h_rotation (rot_operator r) r |>.

Definition activate_rotation (addr : bytes) (s : StateStore) : StateStore * option (Address * AlgId.t) :=
  match rows (st_rotations s) !! addr with
  | None => (s, None)
  | Some r =>
      let s := s <| st_rotations ::= tbl_remove addr |> in
      match get_validator s addr with
      | Some record =>
          let record := record <| val_consensus_alg_id := rot_new_alg_id r |>
                               <| val_consensus_pk := rot_new_pk_bytes r |> in
          (commit_validator_mutation addr (put_validator addr record s),
           Some (rot_operator r, rot_new_alg_id r))
      | None => (s, None)
      end
  end.

Definition due_rotations (s : StateStore) (current_height : N) : list bytes :=
  (filter (fun '(_, r) => rot_rotation_start_height r <= current_height)
     (sorted_entries bytes_le (rows (st_rotations s)))).*1.

Definition activate_pending_consensus_key_rotations (current_height : N) (s : StateStore)
    : StateStore * list (Address * AlgId.t) :=
  foldl (fun '(s, acts) addr =>
    let '(s, act) := activate_rotation addr s in
    (s, acts ++ from_option (fun a => [a]) [] act))
    (s, []) (due_rotations s current_height).

(** *** Epoch transitions *)

Definition candidate_le (a b : ValidatorRecord) : Prop :=
  val_registered_height a < val_registered_height b \/
  (val_registered_height a = val_registered_height b /\ bytes_le (val_operator a) (val_operator b)).

Global Instance candidate_le_dec a b : Decision (candidate_le a b).
Proof. unfold candidate_le. apply _. Defined.

Definition validator_candidates_ordered (s : StateStore) : list Address :=
  val_operator <$> merge_sort candidate_le
    (filter (fun v => val_status v = ValidatorStatus.Candidate) (validators_in_order s)).

(** The loop that admits candidates in order until the limit would be passed;
    the first is always admitted. *)
Fixpoint admit_candidates (s : StateStore) (limit : N) (ordered : list Address) (accumulated : N)
    (admitted : list Address) : list Address :=
  match ordered with
  | [] => admitted
  | op :: rest =>
      match get_validator s op with
      | None => admit_candidates s limit rest accumulated admitted
      | Some record =>
          let next_total := sat_add u128_max accumulated (val_self_bond record) in
          if (limit <? next_total) && negb (bool_decide (admitted = [])) then admitted
          else admit_candidates s limit rest next_total (admitted ++ [op])
      end
  end.

Definition activate_validator (operator : Address) (s : StateStore) : StateStore :=
  match get_validator s operator with
  | Some record =>
      if bool_decide (val_status record = ValidatorStatus.Candidate) then
        commit_validator_mutation operator
          (put_validator operator (record <| val_status := ValidatorStatus.Active |>) s)
      else s
  | None => s
  end.

Definition epoch_admissions (s : StateStore) (churn : ChurnConfig) : list Address :=
  admit_candidates s (stake_weighted_activation_limit (total_active_self_bond s) churn)
    (validator_candidates_ordered s) 0 [].

Definition process_epoch_transitions (churn : ChurnConfig) (s : StateStore) : StateStore :=
  foldl (fun s op => activate_validator op s) s (epoch_admissions s churn).

(** *** Unbonding *)

Definition unbonding_expired (current_height : N) (v : ValidatorRecord) : bool :=
  match val_status v with
  | ValidatorStatus.Unbonding start_height =>
      sat_add u64_max start_height VALIDATOR_UNBONDING_PERIOD <=? current_height
  | _ => false
  end.

(** First every expired record is marked [Exited], then the leaves of the exited
    operators are recomputed. *)
Definition process_validator_unbonding_expirations (current_height : N) (s : StateStore)
    : StateStore * list (Address * N) :=
  let expired := filter (fun v => unbonding_expired current_height v) (validators_in_order s) in
  let exits := (fun v => (val_operator v, val_self_bond v)) <$> expired in
  let mark v := if unbonding_expired current_height v
                then v <| val_status := ValidatorStatus.Exited |> else v in
  let s := s <| st_validators ::= fun t => mkTable (mark <$> rows t) (leaves t) |> in
  (foldl (fun s op => commit_validator_mutation op s) s exits.*1, exits).

(** *** Governance *)

Definition get_governance_receipt (s : StateStore) (id : TxHash) : option GovernanceReceipt :=
  rows (st_receipts s) !! id.
Definition insert_governance_receipt (r : GovernanceReceipt) (s : StateStore) : StateStore :=
  s <| st_receipts ::= tbl_insert h_receipt (rcp_proposal_id r) r |>.

Definition get_pending_proposal (s : StateStore) (id : TxHash) : option PendingProposal :=
  rows (st_proposals s) !! id.
Definition put_pending_proposal (id : TxHash) (p : PendingProposal) (s : StateStore) : StateStore :=
  s <| st_proposals ::= tbl_put id p |>.
Definition insert_pending_proposal (p : PendingProposal) (s : StateStore) : StateStore :=
  s <| st_proposals ::= tbl_insert h_proposal (prop_proposal_id p) p |>.
Definition commit_proposal_mutation (id : TxHash) (s : StateStore) : StateStore :=
  s <| st_proposals ::= tbl_commit h_proposal id |>.
Definition pending_proposals_in_order (s : StateStore) : list PendingProposal :=
  (sorted_entries bytes_le (rows (st_proposals s))).*2.

Definition insert_pending_upgrade (u : PendingUpgrade) (s : StateStore) : StateStore :=
  s <| st_upgrades ::= tbl_insert h_upgrade (upg_proposal_id u) u |>.
Definition remove_pending_upgrade (id : TxHash) (s : StateStore) : StateStore :=
  s <| st_upgrades ::= tbl_remove id |>.

Definition upgrade_le (a b : PendingUpgrade) : Prop :=
  upg_activate_at_timestamp_ns a < upg_activate_at_timestamp_ns b \/
  (upg_activate_at_timestamp_ns a = upg_activate_at_timestamp_ns b /\
   bytes_le (upg_proposal_id a) (upg_proposal_id b)).

Global Instance upgrade_le_dec a b : Decision (upgrade_le a b).
Proof. unfold upgrade_le. apply _. Defined.

Definition pending_upgrades_in_order (s : StateStore) : list PendingUpgrade :=
  merge_sort upgrade_le (map_to_list (rows (st_upgrades s))).*2.

(** *** The recent-slashes ledger *)

Definition recent_slashed_stake_in_window (s : StateStore) (current_height window_blocks : N) : N :=
  let cutoff := current_height - window_blocks in
  foldl (fun acc e => sat_add u128_max acc (rs_slashed_stake e)) 0
    (filter (fun e => cutoff <= rs_height e /\ rs_height e <= current_height)
       (st_recent_slashes s)).

Definition set_recent_slashes (l : list RecentSlashEntry) (s : StateStore) : StateStore :=
  s <| st_recent_slashes := l |>
    <| st_recent_slashes_leaf := compute_recent_slashes_leaf_hash l |>.

Definition record_recent_slash (e : RecentSlashEntry) (s : StateStore) : StateStore :=
  set_recent_slashes (st_recent_slashes s ++ [e]) s.

(** [pop_front] while the front is older than the cutoff. *)
Fixpoint prune_front (cutoff_height : N) (l : list RecentSlashEntry)
    : list RecentSlashEntry * bool :=
  match l with
  | e :: l' => if rs_height e <? cutoff_height then ((prune_front cutoff_height l').1, true)
               else (l, false)
  | [] => ([], false)
  end.

Definition prune_recent_slashes_before (cutoff_height : N) (s : StateStore) : StateStore :=
  let '(l, changed) := prune_front cutoff_height (st_recent_slashes s) in
  if changed then set_recent_slashes l s else s.

(** *** Slashing-verifier and hash registries *)

Definition slashing_verifier_entry (s : StateStore) (ty : N) : option SlashingVerifierEntry :=
  rows (st_slashing_registry s) !! ty.
Definition insert_slashing_verifier_entry (e : SlashingVerifierEntry) (s : StateStore)
    : StateStore :=
  s <| st_slashing_registry ::= tbl_insert h_slashing (sv_evidence_type e) e |>.
Definition slashing_verifier_registered (s : StateStore) (ty : N) : bool :=
  bool_decide (is_Some (slashing_verifier_entry s ty)).
Definition effective_slash_fraction_bps (s : StateStore) (ty : N) : N :=
  from_option sv_slash_fraction_bps DEFAULT_EQUIVOCATION_SLASH_FRACTION_BPS
    (slashing_verifier_entry s ty).

Definition hash_entry (s : StateStore) (id : N) : option HashEntry :=
  rows (st_hash_registry s) !! id.
Definition insert_hash_entry (e : HashEntry) (s : StateStore) : StateStore :=
  s <| st_hash_registry ::= tbl_insert h_hash (hash_id e) e |>.
Definition hash_registered (s : StateStore) (id : N) : bool :=
  bool_decide (is_Some (hash_entry s id)).

(** *** Archival overlay *)

Definition get_archival_record (s : StateStore) (epoch : N) : option ArchivalRecord :=
  rows (st_archival_records s) !! epoch.
Definition insert_archival_record (r : ArchivalRecord) (s : StateStore) : StateStore :=
  s <| st_archival_records ::= tbl_insert h_archival_record (ar_epoch_number r) r |>.

Definition push_archival_anchor (epoch : N) (a : TimestampAnchor) (s : StateStore) : StateStore :=
  match get_archival_record s epoch with
  | Some r =>
      s <| st_archival_records ::= tbl_insert h_archival_record epoch
             (r <| ar_timestamp_anchors := ar_timestamp_anchors r ++ [a] |>) |>
  | None => s
  end.

Definition increment_archival_record_version (epoch : N) (ers_bundle_hash : bytes)
    (current_block_height : N) (s : StateStore) : StateStore :=
  match get_archival_record s epoch with
  | Some r =>
      let anchor := mkTimestampAnchor AnchorKind.Rfc3161Tsa None ers_bundle_hash
                      current_block_height in
      s <| st_archival_records ::= tbl_insert h_archival_record epoch
             (r <| ar_evidence_record_version :=
                     sat_add u16_max (ar_evidence_record_version r) 1 |>
                <| ar_timestamp_anchors := ar_timestamp_anchors r ++ [anchor] |>) |>
  | None => s
  end.

Definition get_archival_key (s : StateStore) (operator : Address) : option ValidatorArchivalKey :=
  rows (st_archival_keys s) !! operator.
Definition insert_archival_key (k : ValidatorArchivalKey) (s : StateStore) : StateStore :=
  s <| st_archival_keys ::= tbl_insert h_archival_key (vak_operator k) k |>.

Definition is_archival_signer (s : StateStore) (addr : Address) : bool :=
  if bool_decide (st_archival_signer_set s = ∅) then
    is_active_validator s addr && bool_decide (is_Some (get_archival_key s addr))
  else bool_decide (addr ∈ st_archival_signer_set s).

Definition archival_threshold (s : StateStore) : N * N :=
  match st_archival_threshold s with
  | Some t => t
  | None =>
      let n :=
        if bool_decide (st_archival_signer_set s = ∅) then
          len (filter (fun v => is_Some (get_archival_key s (val_operator v)))
                 (active_validators s))
        else N.of_nat (size (st_archival_signer_set s)) in
      let n_u16 := N.min n u16_max in
      (sat_add u16_max (sat_mul u16_max n_u16 2) 2 / 3, n_u16)
  end.

Definition is_archival_renewer (s : StateStore) (addr : Address) : bool :=
  bool_decide (addr ∈ st_archival_renewers s).

(** *** Fee market and storage fund *)

Definition restore_fee_market (fm : FeeMarketState) (s : StateStore) : StateStore :=
  s <| st_fee_market_leaf := compute_fee_market_leaf_hash fm |> <| st_fee_market := fm |>.

(** Direct writes to the public field [fee_market], then
    [recompute_fee_market_leaf_hash]. *)
Definition put_fee_market (fm : FeeMarketState) (s : StateStore) : StateStore :=
  s <| st_fee_market := fm |>.
Definition recompute_fee_market_leaf_hash (s : StateStore) : StateStore :=
  s <| st_fee_market_leaf := compute_fee_market_leaf_hash (st_fee_market s) |>.

Definition apply_fee_market_step {E} (compute_used storage_used witness_used contention_used : N)
    (s : StateStore) : outcome E StateStore :=
  fm ← fee_market_step (st_fee_market s) compute_used storage_used witness_used contention_used;
  Ok (recompute_fee_market_leaf_hash (put_fee_market fm s)).

Definition apply_aimd_update {E} (block_gas_used : N) (s : StateStore) : outcome E StateStore :=
  apply_fee_market_step block_gas_used 0 0 0 s.

Definition recompute_storage_fund_leaf_hash (s : StateStore) : StateStore :=
  s <| st_storage_fund_leaf := compute_storage_fund_leaf_hash (st_storage_fund s) |>.
Definition restore_storage_fund (f : StorageFundState) (s : StateStore) : StateStore :=
  s <| st_storage_fund_leaf := compute_storage_fund_leaf_hash f |> <| st_storage_fund := f |>.
Definition credit_storage_fund (amount : N) (s : StateStore) : StateStore :=
  recompute_storage_fund_leaf_hash
    (s <| st_storage_fund := storage_fund_credit (st_storage_fund s) amount |>).
Definition debit_storage_fund (amount : N) (s : StateStore) : StateStore * N :=
  let '(f, debited) := storage_fund_debit (st_storage_fund s) amount in
  (recompute_storage_fund_leaf_hash (s <| st_storage_fund := f |>), debited).

(** *** Heights *)

Definition activate_key (height : N) (k : KeyEntry) : KeyEntry :=
  if bool_decide (key_status k = KeyStatus.Pending) && (key_valid_from_height k <=? height)
  then k <| key_status := KeyStatus.Active |> else k.

Definition has_activating_key (height : N) (a : Account) : bool :=
  existsb (fun k => bool_decide (key_status k = KeyStatus.Pending)
                    && (key_valid_from_height k <=? height)) (acc_keys a).

Definition activate_keys (height : N) (a : Account) : Account :=
  a <| acc_keys := activate_key height <$> acc_keys a |>.

Definition advance_height {E} (s : StateStore) : outcome E StateStore :=
  height ← add_checked u64_max (st_block_height s) 1;
  let activating :=
    acc_address <$> filter (fun a => has_activating_key height a)
                      (map_to_list (rows (st_accounts s))).*2 in
  let s := s <| st_block_height := height |>
             <| st_accounts ::= fun t => mkTable (activate_keys height <$> rows t) (leaves t) |> in
  Ok (foldl (fun s addr => commit_account_mutation addr s) s activating).

(** *** The state root *)

Definition state_payload (category : N) (sort_key leaf : bytes) : bytes :=
  byte_of_N category :: sort_key ++ leaf.

(** The leaves of one table in key order. *)
Definition table_payloads {K V} `{Countable K} (category : N) (key_bytes : K -> bytes)
    (le : relation K) `{!RelDecision le} (t : Table K V) : list bytes :=
  (fun '(k, leaf) => state_payload category (key_bytes k) leaf) <$> sorted_entries le (leaves t).

Definition state_payloads (s : StateStore) : list bytes :=
  [state_payload 0x00 [] (be_bytes 8 (st_block_height s))]
  ++ table_payloads 0x01 id bytes_le (st_accounts s)
  ++ table_payloads 0x02 id bytes_le (st_attestations s)
  ++ table_payloads 0x03 id bytes_le (st_proof_anchors s)
  ++ table_payloads 0x04 id bytes_le (st_rotations s)
  ++ table_payloads 0x05 (be_bytes 2) N.le (st_algs s)
  ++ table_payloads 0x06 id bytes_le (st_receipts s)
  ++ table_payloads 0x07 id bytes_le (st_validators s)
  ++ table_payloads 0x08 id bytes_le (st_proposals s)
  ++ table_payloads 0x09 id bytes_le (st_upgrades s)
  ++ [state_payload 0x0A [] (st_fee_market_leaf s)]
  ++ [state_payload 0x0B [] (st_storage_fund_leaf s)]
  ++ [state_payload 0x0C [] (st_recent_slashes_leaf s)]
  ++ table_payloads 0x0D id bytes_le (st_peer_ids s)
  ++ table_payloads 0x0E u8 N.le (st_slashing_registry s)
  ++ table_payloads 0x0F u8 N.le (st_hash_registry s)
  ++ table_payloads 0x10 (be_bytes 8) N.le (st_archival_records s)
  ++ table_payloads 0x11 id bytes_le (st_archival_keys s).

Definition state_root (s : StateStore) : bytes :=
  tagged_root STATE_LEAF_DOMAIN STATE_BRANCH_DOMAIN (state_payloads s).

(** *** Construction *)

Definition StateStore_new : StateStore :=
  mkStateStore tbl_empty tbl_empty tbl_empty tbl_empty tbl_empty tbl_empty tbl_empty 0
    (foldl (fun t e => tbl_insert h_alg (AlgId.as_u16 (alg_id e)) e t) tbl_empty phase1_registry)
    [] FeeMarketState_default (compute_fee_market_leaf_hash FeeMarketState_default)
    StorageFundState_default (compute_storage_fund_leaf_hash StorageFundState_default)
    tbl_empty tbl_empty tbl_empty ∅ None ∅ tbl_empty [] (compute_recent_slashes_leaf_hash [])
    (tbl_insert h_slashing SLASHING_EVIDENCE_TYPE_EQUIVOCATION equivocation_entry tbl_empty)
    (foldl (fun t e => tbl_insert h_hash (hash_id e) e t) tbl_empty phase1_hash_registry).

Definition from_snapshot_full_with_proofs (accounts : list Account)
    (attestations : list Attestation) (proof_anchors : list ProofAnchor)
    (governance_receipts : list GovernanceReceipt) (alg_registry_entries : list AlgEntry)
    (block_height : N) (chain_id : bytes) : StateStore :=
  let s := StateStore_new in
  let s := foldl (fun s a => insert_account a s) s accounts in
  let s := foldl (fun s a => insert_attestation a s) s attestations in
  let s := foldl (fun s a => insert_proof_anchor a s) s proof_anchors in
  let s := foldl (fun s r => insert_governance_receipt r s) s governance_receipts in
  let s := s <| st_algs := tbl_empty |> in
  let s := foldl (fun s e => insert_alg_entry e s) s alg_registry_entries in
  s <| st_block_height := block_height |> <| st_chain_id := chain_id |>.
End store.

(** ** [impl StateView for StateStore] *)

Global Instance store_view : StateView StateStore := {|
  view_get_account := get_account;
  view_alg_lifecycle s a := alg_lifecycle <$> alg_entry s a;
  view_alg_sig_class s a := alg_entry s a ≫= alg_sig_class;
  view_alg_min_fee s a := alg_min_fee <$> alg_entry s a;
  view_chain_id := st_chain_id;
  view_current_height := st_block_height;
  view_base_fee_dynamic s := fm_base_fee (fm_compute (st_fee_market s))
|}.
