(* ===== verification/StoreInv.v ===== *)
(** * The store invariant: leaf caches, keys and the state root.

    [store_ok] says that every leaf cache is exactly the leaf hashes of its rows,
    that every record sits under its own key and that keys have their width.  Each
    store operation preserves it.  Its consequences: the incremental state root is
    the root of a full rebuild, and it binds the accounts. *)

From S2P Require Import Prelude Crypto Types FeeMarket Leaves Tx Store.

(** ** Tables *)

Section table_inv.
Context {K V : Type} `{Countable K} (h : K -> V -> bytes) (P : K -> V -> Prop).
Implicit Types (t : Table K V).

Definition coherent t : Prop := forall k, leaves t !! k = h k <$> rows t !! k.

Definition table_ok t : Prop := coherent t /\ map_Forall P (rows t).

Lemma tbl_empty_ok : table_ok tbl_empty.
Proof. split; [intros k; cbn; by rewrite !lookup_empty|apply map_Forall_empty]. Qed.

Lemma tbl_insert_ok k v t : P k v -> table_ok t -> table_ok (tbl_insert h k v t).
Proof.
  intros HP [Hc Hf]. split; [|by apply map_Forall_insert_2].
  intros k'. cbn. destruct (decide (k = k')) as [->|].
  - by rewrite !lookup_insert_eq.
  - by rewrite !lookup_insert_ne.
Qed.

Lemma tbl_remove_ok k t : table_ok t -> table_ok (tbl_remove k t).
Proof.
  intros [Hc Hf]. split; [|by apply map_Forall_delete].
  intros k'. cbn. destruct (decide (k = k')) as [->|].
  - by rewrite !lookup_delete_eq.
  - by rewrite !lookup_delete_ne.
Qed.

(** Write, then recompute: the same as inserting. *)
Lemma tbl_commit_put k v t : tbl_commit h k (tbl_put k v t) = tbl_insert h k v t.
Proof. unfold tbl_commit, tbl_put. cbn. by rewrite lookup_insert_eq. Qed.

Lemma tbl_commit_rows k t : rows (tbl_commit h k t) = rows t.
Proof. unfold tbl_commit. by destruct (rows t !! k). Qed.

Lemma tbl_commits_rows ks t : rows (foldl (fun t k => tbl_commit h k t) t ks) = rows t.
Proof.
  revert t. induction ks as [|k ks IH]; intros t; cbn; [done|]. by rewrite IH, tbl_commit_rows.
Qed.

(** Recomputing a set of leaves that covers the stale ones restores coherence. *)
Lemma tbl_commits_coherent ks t :
  (forall k, rows t !! k = None -> leaves t !! k = None) ->
  (forall k, k ∉ ks -> leaves t !! k = h k <$> rows t !! k) ->
  coherent (foldl (fun t k => tbl_commit h k t) t ks).
Proof.
  revert t. induction ks as [|k ks IH]; intros t Hn Hc; cbn.
  { intros k. apply Hc. by apply not_elem_of_nil. }
  apply IH; intros k'; rewrite tbl_commit_rows; intros Hk'.
  - unfold tbl_commit. destruct (rows t !! k) as [v|] eqn:Hk; [|auto]; cbn.
    rewrite lookup_insert_ne by congruence. auto.
  - unfold tbl_commit. destruct (rows t !! k) as [v|] eqn:Hk; cbn.
    + destruct (decide (k = k')) as [->|]; [by rewrite lookup_insert_eq, Hk|].
      rewrite lookup_insert_ne by done. apply Hc. by apply not_elem_of_cons.
    + destruct (decide (k = k')) as [<-|]; [rewrite Hk; cbn; auto|].
      apply Hc. by apply not_elem_of_cons.
Qed.

(** A change of some rows followed by the recomputation of their leaves: what
    [advance_height] and the unbonding pass do. *)
Lemma tbl_update_commits_ok (f : V -> V) (changed : V -> bool) ks t :
  table_ok t -> (forall k v, P k v -> P k (f v)) -> (forall v, changed v = false -> f v = v) ->
  (forall k v, rows t !! k = Some v -> changed v = true -> k ∈ ks) ->
  table_ok (foldl (fun t k => tbl_commit h k t) (mkTable (f <$> rows t) (leaves t)) ks).
Proof.
  intros [Hc Hf] HP Hch Hks. split.
  - apply tbl_commits_coherent; cbn; intros k.
    + rewrite lookup_fmap. rewrite (Hc k). by destruct (rows t !! k).
    + intros Hk. rewrite lookup_fmap, (Hc k). destruct (rows t !! k) as [v|] eqn:Hv; [|done].
      cbn. rewrite Hch; [done|]. destruct (changed v) eqn:Hcv; [|done]. exfalso. by eapply Hk, Hks.
  - rewrite tbl_commits_rows. cbn. apply map_Forall_fmap. intros k v Hv. by apply HP, Hf.
Qed.
End table_inv.

(** ** The invariant *)

(** A record under its own 32-byte key. *)
Definition keyed {V} (key : V -> bytes) (k : bytes) (v : V) : Prop :=
  key v = k /\ length k = 32%nat.
Definition keyed_N {V} (key : V -> N) (max : N) (k : N) (v : V) : Prop :=
  key v = k /\ k <= max.
Definition key32 (k : bytes) (_ : bytes) : Prop := length k = 32%nat.

Record store_ok `{Shake} (s : StateStore) : Prop := {
  ok_accounts : table_ok h_account (keyed acc_address) (st_accounts s);
  ok_attestations : table_ok h_attestation (keyed att_attestation_id) (st_attestations s);
  ok_proof_anchors : table_ok h_proof_anchor (keyed pa_anchor_id) (st_proof_anchors s);
  ok_rotations : table_ok h_rotation (keyed rot_operator) (st_rotations s);
  ok_receipts : table_ok h_receipt (keyed rcp_proposal_id) (st_receipts s);
  ok_validators : table_ok h_validator (keyed val_operator) (st_validators s);
  ok_peer_ids : table_ok h_peer_id key32 (st_peer_ids s);
  ok_algs : table_ok h_alg (keyed_N (fun e => AlgId.as_u16 (alg_id e)) u16_max) (st_algs s);
  ok_proposals : table_ok h_proposal (keyed prop_proposal_id) (st_proposals s);
  ok_upgrades : table_ok h_upgrade (keyed upg_proposal_id) (st_upgrades s);
  ok_slashing : table_ok h_slashing (keyed_N sv_evidence_type u8_max) (st_slashing_registry s);
  ok_hashes : table_ok h_hash (keyed_N hash_id u8_max) (st_hash_registry s);
  ok_archival_records :
    table_ok h_archival_record (keyed_N ar_epoch_number u64_max) (st_archival_records s);
  ok_archival_keys : table_ok h_archival_key (keyed vak_operator) (st_archival_keys s);
  ok_fee_market_leaf : st_fee_market_leaf s = compute_fee_market_leaf_hash (st_fee_market s);
  ok_storage_fund_leaf :
    st_storage_fund_leaf s = compute_storage_fund_leaf_hash (st_storage_fund s);
  ok_recent_slashes_leaf :
    st_recent_slashes_leaf s = compute_recent_slashes_leaf_hash (st_recent_slashes s);
  ok_fee_market : fee_market_wf (st_fee_market s);
  ok_block_height : st_block_height s <= u64_max
}.

#[export] Hint Resolve tbl_insert_ok tbl_remove_ok tbl_empty_ok : viper.

Section store_inv.
Context `{Shake}.
Implicit Types (s : StateStore).

(** The writes, as insertions of a row with its leaf. *)
Definition set_account (k : Address) (a : Account) (s : StateStore) : StateStore :=
  s <| st_accounts ::= tbl_insert h_account k a |>.
Definition set_validator (k : Address) (v : ValidatorRecord) (s : StateStore) : StateStore :=
  s <| st_validators ::= tbl_insert h_validator k v |>.
Definition set_proposal (k : TxHash) (p : PendingProposal) (s : StateStore) : StateStore :=
  s <| st_proposals ::= tbl_insert h_proposal k p |>.

(** Rewrites every write-then-recompute pair into an insertion. *)
Lemma commit_put_account addr a s :
  commit_account_mutation addr (put_account addr a s) = set_account addr a s.
Proof.
  unfold set_account, commit_account_mutation, put_account. unfold set; cbn -[tbl_put tbl_commit tbl_insert]. by rewrite tbl_commit_put.
Qed.

Lemma commit_put_validator op v s :
  commit_validator_mutation op (put_validator op v s) = set_validator op v s.
Proof.
  unfold set_validator, commit_validator_mutation, put_validator. unfold set; cbn -[tbl_put tbl_commit tbl_insert]. by rewrite tbl_commit_put.
Qed.

Lemma commit_put_proposal id p s :
  commit_proposal_mutation id (put_pending_proposal id p s) = set_proposal id p s.
Proof.
  unfold set_proposal, commit_proposal_mutation, put_pending_proposal. unfold set; cbn -[tbl_put tbl_commit tbl_insert].
  by rewrite tbl_commit_put.
Qed.

Lemma commit_put_alg_entry a e s :
  commit_alg_entry_mutation a (put_alg_entry a e s) =
  s <| st_algs ::= tbl_insert h_alg (AlgId.as_u16 a) e |>.
Proof.
  unfold commit_alg_entry_mutation, put_alg_entry. unfold set; cbn -[tbl_put tbl_commit tbl_insert]. by rewrite tbl_commit_put.
Qed.

Lemma get_account_set_account_ne k k' a s :
  k <> k' -> get_account (set_account k a s) k' = get_account s k'.
Proof. intros. unfold get_account, set_account, set; cbn. by apply lookup_insert_ne. Qed.

Lemma get_account_set_account k a s : get_account (set_account k a s) k = Some a.
Proof. unfold get_account, set_account, set; cbn. by apply lookup_insert_eq. Qed.

Lemma get_validator_set_validator_ne k k' v s :
  k <> k' -> get_validator (set_validator k v s) k' = get_validator s k'.
Proof. intros. unfold get_validator, set_validator, set; cbn. by apply lookup_insert_ne. Qed.

Lemma get_validator_set_validator k v s : get_validator (set_validator k v s) k = Some v.
Proof. unfold get_validator, set_validator, set; cbn. by apply lookup_insert_eq. Qed.

(** An operation that touches one table only has to maintain that table. *)
Ltac solve_store_ok :=
  intros; match goal with Hok : store_ok _ |- _ => destruct Hok end;
  constructor; cbn; eauto with viper.

Lemma upd_accounts_ok k a s :
  keyed acc_address k a -> store_ok s ->
  store_ok (set_account k a s).
Proof. solve_store_ok. Qed.

Lemma upd_validators_ok k v s :
  keyed val_operator k v -> store_ok s ->
  store_ok (set_validator k v s).
Proof. solve_store_ok. Qed.

Lemma upd_proposals_ok k p s :
  keyed prop_proposal_id k p -> store_ok s ->
  store_ok (set_proposal k p s).
Proof. solve_store_ok. Qed.

Lemma upd_algs_ok k e s :
  keyed_N (fun e => AlgId.as_u16 (alg_id e)) u16_max k e -> store_ok s ->
  store_ok (s <| st_algs ::= tbl_insert h_alg k e |>).
Proof. solve_store_ok. Qed.

Lemma upd_archival_records_ok k r s :
  keyed_N ar_epoch_number u64_max k r -> store_ok s ->
  store_ok (s <| st_archival_records ::= tbl_insert h_archival_record k r |>).
Proof. solve_store_ok. Qed.

Lemma insert_account_ok a s :
  length (acc_address a) = 32%nat -> store_ok s -> store_ok (insert_account a s).
Proof. intros. by apply upd_accounts_ok. Qed.

Lemma insert_attestation_ok a s :
  length (att_attestation_id a) = 32%nat -> store_ok s -> store_ok (insert_attestation a s).
Proof. unfold insert_attestation, keyed. solve_store_ok. apply tbl_insert_ok; [done|auto]. Qed.

Lemma insert_proof_anchor_ok a s :
  length (pa_anchor_id a) = 32%nat -> store_ok s -> store_ok (insert_proof_anchor a s).
Proof. unfold insert_proof_anchor, keyed. solve_store_ok. apply tbl_insert_ok; [done|auto]. Qed.

Lemma insert_rotation_ok r s :
  length (rot_operator r) = 32%nat -> store_ok s -> store_ok (insert_consensus_key_rotation r s).
Proof. unfold insert_consensus_key_rotation, keyed. solve_store_ok. apply tbl_insert_ok; [done|auto]. Qed.

Lemma remove_rotation_ok k s :
  store_ok s -> store_ok (s <| st_rotations ::= tbl_remove k |>).
Proof. solve_store_ok. Qed.

Lemma insert_receipt_ok r s :
  length (rcp_proposal_id r) = 32%nat -> store_ok s -> store_ok (insert_governance_receipt r s).
Proof. unfold insert_governance_receipt, keyed. solve_store_ok. apply tbl_insert_ok; [done|auto]. Qed.

Lemma insert_upgrade_ok u s :
  length (upg_proposal_id u) = 32%nat -> store_ok s -> store_ok (insert_pending_upgrade u s).
Proof. unfold insert_pending_upgrade, keyed. solve_store_ok. apply tbl_insert_ok; [done|auto]. Qed.

Lemma remove_upgrade_ok id s : store_ok s -> store_ok (remove_pending_upgrade id s).
Proof. unfold remove_pending_upgrade. solve_store_ok. Qed.

Lemma insert_slashing_ok e s :
  sv_evidence_type e <= u8_max -> store_ok s -> store_ok (insert_slashing_verifier_entry e s).
Proof. unfold insert_slashing_verifier_entry, keyed_N. solve_store_ok. apply tbl_insert_ok; [done|auto]. Qed.

Lemma insert_hash_ok e s :
  hash_id e <= u8_max -> store_ok s -> store_ok (insert_hash_entry e s).
Proof. unfold insert_hash_entry, keyed_N. solve_store_ok. apply tbl_insert_ok; [done|auto]. Qed.

Lemma insert_archival_key_ok k s :
  length (vak_operator k) = 32%nat -> store_ok s -> store_ok (insert_archival_key k s).
Proof. unfold insert_archival_key, keyed. solve_store_ok. apply tbl_insert_ok; [done|auto]. Qed.

Lemma set_validator_peer_id_ok op p s :
  length op = 32%nat -> store_ok s -> store_ok (set_validator_peer_id op p s).
Proof. unfold set_validator_peer_id. intros. case_bool_decide; solve_store_ok. Qed.

Lemma set_recent_slashes_ok l s : store_ok s -> store_ok (set_recent_slashes l s).
Proof. unfold set_recent_slashes. solve_store_ok. Qed.

Lemma prune_recent_slashes_ok c s : store_ok s -> store_ok (prune_recent_slashes_before c s).
Proof.
  intros. unfold prune_recent_slashes_before. destruct (prune_front _ _) as [l []];
    [by apply set_recent_slashes_ok|done].
Qed.

Lemma set_fee_market_ok fm s :
  fee_market_wf fm -> store_ok s -> store_ok (recompute_fee_market_leaf_hash (put_fee_market fm s)).
Proof. unfold recompute_fee_market_leaf_hash, put_fee_market. solve_store_ok. Qed.

Lemma storage_fund_ok f s :
  store_ok s -> store_ok (recompute_storage_fund_leaf_hash (s <| st_storage_fund := f |>)).
Proof. unfold recompute_storage_fund_leaf_hash. solve_store_ok. Qed.

Lemma apply_fee_market_step_ok {E} c t w k s :
  store_ok s -> exists s', apply_fee_market_step (E := E) c t w k s = Ok s' /\ store_ok s' /\
    st_accounts s' = st_accounts s /\ st_validators s' = st_validators s.
Proof.
  intros Hok. unfold apply_fee_market_step.
  destruct (fee_market_step_Ok (E := E) (st_fee_market s) c t w k (ok_fee_market _ Hok))
    as (fm & -> & Hwf & _).
  eexists. split; [done|]. split; [by apply set_fee_market_ok|done].
Qed.

(** *** Keys, epochs, unbonding *)

Lemma foldl_commit_accounts ks s :
  foldl (fun s addr => commit_account_mutation addr s) s ks =
  s <| st_accounts ::= fun t => foldl (fun t k => tbl_commit h_account k t) t ks |>.
Proof.
  revert s. induction ks as [|k ks IH]; intros s; cbn; [by destruct s|]. by rewrite IH.
Qed.

Lemma foldl_commit_validators ks s :
  foldl (fun s op => commit_validator_mutation op s) s ks =
  s <| st_validators ::= fun t => foldl (fun t k => tbl_commit h_validator k t) t ks |>.
Proof.
  revert s. induction ks as [|k ks IH]; intros s; cbn; [by destruct s|]. by rewrite IH.
Qed.

Lemma elem_of_rows_values {K V} `{Countable K} (m : gmap K V) k v :
  m !! k = Some v -> v ∈ (map_to_list m).*2.
Proof.
  intros Hv. apply list_elem_of_fmap. exists (k, v). split; [done|]. by apply elem_of_map_to_list.
Qed.

Lemma activate_keys_id h a : has_activating_key h a = false -> activate_keys h a = a.
Proof.
  unfold has_activating_key, activate_keys. destruct a as [ad b n ks pv ph tm au]; cbn.
  intros Hks. unfold set; cbn. f_equal. induction ks as [|k ks IH]; [done|]. cbn in *.
  apply orb_false_elim in Hks as [Hk Hks]. rewrite IH by done. f_equal.
  unfold activate_key. by rewrite Hk.
Qed.

Lemma advance_height_ok {E} s s' :
  store_ok s -> advance_height (E := E) s = Ok s' -> store_ok s' /\
    st_block_height s' = st_block_height s + 1.
Proof.
  intros Hok Hadv. unfold advance_height in Hadv. run_inv. rewrite foldl_commit_accounts.
  split; [|done]. pose proof Hok as []. constructor; cbn; auto.
  apply (tbl_update_commits_ok _ _ _ (fun a => has_activating_key (st_block_height s + 1) a)).
  - done.
  - intros k a [<- ?]. by split.
  - apply activate_keys_id.
  - intros k a Ha Hact. apply list_elem_of_fmap. exists a.
    split; [symmetry; by apply ok_accounts0 in Ha as [? _]|].
    apply list_elem_of_filter. split; [by rewrite Hact|]. by eapply elem_of_rows_values.
Qed.

Lemma get_account_keyed s addr a :
  store_ok s -> get_account s addr = Some a -> keyed acc_address addr a.
Proof. intros Hok Ha. by apply (ok_accounts _ Hok). Qed.

Lemma get_validator_keyed s op v :
  store_ok s -> get_validator s op = Some v -> keyed val_operator op v.
Proof. intros Hok Hv. by apply (ok_validators _ Hok). Qed.

Lemma get_proposal_keyed s id p :
  store_ok s -> get_pending_proposal s id = Some p -> keyed prop_proposal_id id p.
Proof. intros Hok Hp. by apply (ok_proposals _ Hok). Qed.

Lemma activate_validator_ok op s : store_ok s -> store_ok (activate_validator op s).
Proof.
  intros Hok. unfold activate_validator. destruct (get_validator s op) as [v|] eqn:Hv; [|done].
  case_bool_decide; [|done]. rewrite commit_put_validator. apply upd_validators_ok; [|done].
  by apply (get_validator_keyed s op v).
Qed.

Lemma foldl_store_ok {A} (f : StateStore -> A -> StateStore) l s :
  (forall s a, store_ok s -> store_ok (f s a)) -> store_ok s -> store_ok (foldl f s l).
Proof. intros Hf. revert s. induction l; cbn; auto. Qed.

Lemma process_epoch_transitions_ok c s : store_ok s -> store_ok (process_epoch_transitions c s).
Proof. apply foldl_store_ok. intros. by apply activate_validator_ok. Qed.

Lemma activate_rotation_ok addr s : store_ok s -> store_ok (activate_rotation addr s).1.
Proof.
  intros Hok. unfold activate_rotation. destruct (rows (st_rotations s) !! addr) as [r|]; [|done].
  destruct (get_validator _ addr) as [v|] eqn:Hv; cbn; [|by apply remove_rotation_ok].
  rewrite commit_put_validator. apply upd_validators_ok; [|by apply remove_rotation_ok].
  by apply (get_validator_keyed s addr v).
Qed.

Lemma activate_rotations_ok h s :
  store_ok s -> store_ok (activate_pending_consensus_key_rotations h s).1.
Proof.
  unfold activate_pending_consensus_key_rotations. generalize (due_rotations s h).
  assert (forall l (st : StateStore * list (Address * AlgId.t)), store_ok st.1 ->
    store_ok (foldl (fun '(s, acts) addr =>
      let '(s, act) := activate_rotation addr s in
      (s, acts ++ from_option (fun a => [a]) [] act)) st l).1) as Hgo; [|intros; by apply Hgo].
  induction l as [|addr l IH]; intros [s0 acts] Hs; cbn; [done|]. apply IH.
  pose proof (activate_rotation_ok addr s0 Hs). by destruct (activate_rotation addr s0).
Qed.

Lemma validators_in_order_elem s v :
  v ∈ validators_in_order s <-> exists k, get_validator s k = Some v.
Proof.
  unfold validators_in_order. rewrite list_elem_of_fmap. split.
  - intros ([k v'] & -> & Hkv). exists k. by apply sorted_entries_elem in Hkv.
  - intros [k Hk]. exists (k, v). split; [done|]. by apply sorted_entries_elem.
Qed.

Lemma process_unbonding_ok h s :
  store_ok s -> store_ok (process_validator_unbonding_expirations h s).1.
Proof.
  intros Hok. unfold process_validator_unbonding_expirations. cbn.
  rewrite foldl_commit_validators. pose proof Hok as []. constructor; cbn; auto.
  apply (tbl_update_commits_ok _ _ _ (unbonding_expired h)).
  - done.
  - intros k v [<- ?]. by destruct (unbonding_expired h v).
  - by intros v ->.
  - intros k v Hv Hexp. apply list_elem_of_fmap. exists (val_operator v, val_self_bond v).
    split; [cbn; symmetry; by apply ok_validators0 in Hv as [? _]|].
    apply list_elem_of_fmap. exists v. split; [done|]. apply list_elem_of_filter.
    split; [by rewrite Hexp|]. apply validators_in_order_elem. by exists k.
Qed.

(** *** Construction *)

Lemma foldl_tbl_insert_ok {K V A} `{Countable K} (h : K -> V -> bytes) P (key : V -> K)
    (g : A -> V) (l : list A) t :
  (forall a, a ∈ l -> P (key (g a)) (g a)) -> table_ok h P t ->
  table_ok h P (foldl (fun t a => tbl_insert h (key (g a)) (g a) t) t l).
Proof.
  revert t. induction l as [|a l IH]; intros t Hl Ht; cbn; [done|]. apply IH.
  - intros. apply Hl. by right.
  - apply tbl_insert_ok; [|done]. apply Hl. by left.
Qed.

Lemma StateStore_new_ok : store_ok StateStore_new.
Proof.
  constructor; cbn -[foldl]; auto with viper; try done.
  - apply (foldl_tbl_insert_ok _ _ (fun e => AlgId.as_u16 (alg_id e)) id); [|apply tbl_empty_ok].
    intros e _. split; [done|apply alg_as_u16_le].
  - apply tbl_insert_ok; [|apply tbl_empty_ok]. by split.
  - apply (foldl_tbl_insert_ok _ _ hash_id id); [|apply tbl_empty_ok].
    intros e He. split; [done|]. unfold phase1_hash_registry in He.
    apply list_elem_of_singleton in He as ->. by vm_compute.
Qed.

Lemma foldl_store_ok_elem {A} (f : StateStore -> A -> StateStore) l s :
  (forall s a, a ∈ l -> store_ok s -> store_ok (f s a)) -> store_ok s -> store_ok (foldl f s l).
Proof.
  revert s. induction l as [|a l IH]; intros s Hf Hs; cbn; [done|]. apply IH.
  - intros. apply Hf; [by right|done].
  - apply Hf; [by left|done].
Qed.

Lemma clear_algs_ok s : store_ok s -> store_ok (s <| st_algs := tbl_empty |>).
Proof. solve_store_ok. Qed.

Lemma set_height_chain_id_ok height chain_id s :
  height <= u64_max -> store_ok s ->
  store_ok (s <| st_block_height := height |> <| st_chain_id := chain_id |>).
Proof. solve_store_ok. Qed.

Lemma from_snapshot_ok accounts attestations anchors receipts algs height chain_id :
  (forall a, a ∈ accounts -> length (acc_address a) = 32%nat) ->
  (forall a, a ∈ attestations -> length (att_attestation_id a) = 32%nat) ->
  (forall a, a ∈ anchors -> length (pa_anchor_id a) = 32%nat) ->
  (forall r, r ∈ receipts -> length (rcp_proposal_id r) = 32%nat) ->
  height <= u64_max ->
  store_ok (from_snapshot_full_with_proofs accounts attestations anchors receipts algs height
    chain_id).
Proof.
  intros Ha Hat Han Hr Hh.
  unfold from_snapshot_full_with_proofs. cbv zeta.
  apply set_height_chain_id_ok; [done|]. apply foldl_store_ok_elem.
  { intros. apply upd_algs_ok; [|done]. split; [done|apply alg_as_u16_le]. }
  apply clear_algs_ok.
  repeat (apply foldl_store_ok_elem;
    [intros; eauto using insert_account_ok, insert_attestation_ok, insert_proof_anchor_ok,
       insert_receipt_ok|]). apply StateStore_new_ok.
Qed.
End store_inv.
