(* ===== verification/StateRoot.v ===== *)
(** * The state root: full rebuild and binding.

    [state_root] folds the cached leaves of 18 categories into one Merkle root.
    Here: the root of a coherent store is the root computed from scratch, and two
    stores with the same root hold the same accounts or exhibit a collision among
    the inputs that were hashed. *)

From S2P Require Import Prelude Crypto Types FeeMarket Leaves Tx Store StoreInv.

(** ** Payloads of one category *)

Section table_payload_facts.
Context {K V : Type} `{Countable K} (category : N) (key_bytes : K -> bytes) (w : nat).
Context (le : relation K) `{!RelDecision le}.
Implicit Types (t : Table K V).

(** Keys of a table encode to [w] bytes, injectively. *)
Definition keys_ok t : Prop :=
  forall k1 k2 l1 l2, leaves t !! k1 = Some l1 -> leaves t !! k2 = Some l2 ->
    length (key_bytes k1) = w /\ (key_bytes k1 = key_bytes k2 -> k1 = k2).

Lemma state_payload_inj k1 k2 l1 l2 :
  length (key_bytes k1) = w -> length (key_bytes k2) = w ->
  state_payload category (key_bytes k1) l1 = state_payload category (key_bytes k2) l2 ->
  key_bytes k1 = key_bytes k2 /\ l1 = l2.
Proof.
  unfold state_payload. intros Hw1 Hw2 [= Heq]. apply app_inj_width in Heq; [done|congruence].
Qed.

Lemma table_payloads_head t p :
  p ∈ table_payloads category key_bytes le t -> exists r, p = byte_of_N category :: r.
Proof.
  unfold table_payloads. intros ([k l] & -> & _)%list_elem_of_fmap. by eexists.
Qed.

Lemma table_payloads_NoDup t : keys_ok t -> NoDup (table_payloads category key_bytes le t).
Proof.
  intros Hk. unfold table_payloads. apply NoDup_fmap_2_strong.
  - intros [k1 l1] [k2 l2] H1%sorted_entries_elem H2%sorted_entries_elem Heq.
    destruct (Hk k1 k2 l1 l2 H1 H2) as [Hw1 Hinj], (Hk k2 k1 l2 l1 H2 H1) as [Hw2 _].
    apply state_payload_inj in Heq as [? ->]; [|done..]. by rewrite Hinj.
  - eapply NoDup_fmap_1. apply sorted_entries_NoDup_fst.
Qed.
End table_payload_facts.

(** ** The whole payload list is duplicate-free *)

(** Duplicate-free, with every category byte at least [c]. *)
Definition segments (c : N) (l : list bytes) : Prop :=
  NoDup l /\ forall p, p ∈ l -> exists b r, p = b :: r /\ c <= Byte.to_N b.

Lemma to_N_category c : c < 256 -> Byte.to_N (byte_of_N c) = c.
Proof. intros. rewrite to_N_byte_of_N. by apply N.mod_small. Qed.

Lemma segments_app c c' l1 l2 :
  c < c' -> c < 256 -> NoDup l1 -> (forall p, p ∈ l1 -> exists r, p = byte_of_N c :: r) ->
  segments c' l2 -> segments c (l1 ++ l2).
Proof.
  intros Hc Hc256 Hn1 Hh1 [Hn2 Hh2]. split.
  - apply NoDup_app. split_and!; [done| |done]. intros p Hp1 Hp2.
    destruct (Hh1 p Hp1) as [r ->]. destruct (Hh2 _ Hp2) as (b & r' & [= <- _] & Hb).
    rewrite to_N_category in Hb by done. lia.
  - intros p [Hp|Hp]%elem_of_app.
    + destruct (Hh1 p Hp) as [r ->]. exists (byte_of_N c), r. split; [done|].
      rewrite to_N_category by done. lia.
    + destruct (Hh2 p Hp) as (b & r & -> & ?). exists b, r. split; [done|lia].
Qed.

Lemma segments_one c c' k leaf l :
  c < c' -> c < 256 -> segments c' l -> segments c ([state_payload c k leaf] ++ l).
Proof.
  intros. apply (segments_app c c'); [done|done|apply NoDup_singleton| |done].
  intros p ->%list_elem_of_singleton. by eexists.
Qed.

Lemma segments_table {K V} `{Countable K} (c c' : N) (kb : K -> bytes) (w : nat) (le : relation K) `{!RelDecision le}
    (t : Table K V) l :
  c < c' -> c < 256 -> keys_ok kb w t -> segments c' l ->
  segments c (table_payloads c kb le t ++ l).
Proof.
  intros. apply (segments_app c c'); [done|done| |intros; by eapply table_payloads_head|done].
  by eapply table_payloads_NoDup.
Qed.

Section widths.
Context {V : Type}.

Lemma keys_ok_bytes (h : bytes -> V -> bytes) (P : bytes -> V -> Prop) (t : Table bytes V) :
  (forall k v, P k v -> length k = 32%nat) -> table_ok h P t -> keys_ok id 32 t.
Proof.
  intros HP [Hc Hf] k1 k2 l1 l2 H1 _. split; [|done].
  rewrite (Hc k1) in H1. destruct (rows t !! k1) as [v|] eqn:Hv; [|done]. by eapply HP, Hf.
Qed.

Lemma keys_ok_keyed (h : bytes -> V -> bytes) (key : V -> bytes) (t : Table bytes V) :
  table_ok h (keyed key) t -> keys_ok id 32 t.
Proof. apply keys_ok_bytes. by intros k v []. Qed.

Lemma keys_ok_N (h : N -> V -> bytes) (P : N -> V -> Prop) (kb : N -> bytes) (w : nat) (t : Table N V) :
  (forall k1 k2 v1 v2, P k1 v1 -> P k2 v2 ->
     length (kb k1) = w /\ (kb k1 = kb k2 -> k1 = k2)) ->
  table_ok h P t -> keys_ok kb w t.
Proof.
  intros HP [Hc Hf] k1 k2 l1 l2 H1 H2. rewrite (Hc k1) in H1. rewrite (Hc k2) in H2.
  destruct (rows t !! k1) as [v1|] eqn:Hv1; [|done].
  destruct (rows t !! k2) as [v2|] eqn:Hv2; [|done]. eapply HP; by apply Hf.
Qed.
End widths.

Lemma keyed_N_be {V} (key : V -> N) w max k1 k2 v1 v2 :
  max < 256 ^ N.of_nat w -> keyed_N key max k1 v1 -> keyed_N key max k2 v2 ->
  length (be_bytes w k1) = w /\ (be_bytes w k1 = be_bytes w k2 -> k1 = k2).
Proof.
  intros Hmax [_ H1] [_ H2]. split; [apply length_be_bytes|]. apply be_bytes_inj; lia.
Qed.

Lemma keyed_N_u8 {V} (key : V -> N) k1 k2 v1 v2 :
  keyed_N key u8_max k1 v1 -> keyed_N key u8_max k2 v2 ->
  length (u8 k1) = 1%nat /\ (u8 k1 = u8 k2 -> k1 = k2).
Proof.
  intros [_ H1] [_ H2]. split; [done|]. intros [= Heq%(f_equal Byte.to_N)].
  rewrite !to_N_byte_of_N, !N.mod_small in Heq; lia.
Qed.

(** A payload is not in a part of another category. *)
Ltac other_category :=
  match goal with
  | Hp : state_payload _ _ _ ∈ table_payloads _ _ _ _ |- _ =>
      apply table_payloads_head in Hp as [? Heq]; by vm_compute in Heq
  | Hp : state_payload _ _ _ ∈ [_] |- _ =>
      apply list_elem_of_singleton, (f_equal head) in Hp; cbn [state_payload head] in Hp;
      by vm_compute in Hp
  end.

Section root_facts.
Context `{Shake}.

Lemma state_payloads_segments s : store_ok s -> segments 0 (state_payloads s).
Proof.
  intros Hok. pose proof Hok as []. unfold state_payloads.
  apply (segments_one 0 1); [done|done|].
  apply (segments_table 1 2 id 32); [done|done|by eapply keys_ok_keyed|].
  apply (segments_table 2 3 id 32); [done|done|by eapply keys_ok_keyed|].
  apply (segments_table 3 4 id 32); [done|done|by eapply keys_ok_keyed|].
  apply (segments_table 4 5 id 32); [done|done|by eapply keys_ok_keyed|].
  apply (segments_table 5 6 (be_bytes 2) 2); [done|done| |].
  { eapply keys_ok_N; [|exact ok_algs]. intros ???? H1 H2.
    by apply (keyed_N_be _ 2 u16_max _ _ _ _ eq_refl H1 H2). }
  apply (segments_table 6 7 id 32); [done|done|by eapply keys_ok_keyed|].
  apply (segments_table 7 8 id 32); [done|done|by eapply keys_ok_keyed|].
  apply (segments_table 8 9 id 32); [done|done|by eapply keys_ok_keyed|].
  apply (segments_table 9 10 id 32); [done|done|by eapply keys_ok_keyed|].
  apply (segments_one 10 11); [done|done|].
  apply (segments_one 11 12); [done|done|].
  apply (segments_one 12 13); [done|done|].
  apply (segments_table 13 14 id 32); [done|done|by eapply keys_ok_bytes; [|exact ok_peer_ids]|].
  apply (segments_table 14 15 u8 1); [done|done| |].
  { eapply keys_ok_N; [|exact ok_slashing]. intros ???? H1 H2. by apply (keyed_N_u8 _ _ _ _ _ H1 H2). }
  apply (segments_table 15 16 u8 1); [done|done| |].
  { eapply keys_ok_N; [|exact ok_hashes]. intros ???? H1 H2. by apply (keyed_N_u8 _ _ _ _ _ H1 H2). }
  apply (segments_table 16 17 (be_bytes 8) 8); [done|done| |].
  { eapply keys_ok_N; [|exact ok_archival_records]. intros ???? H1 H2.
    by apply (keyed_N_be _ 8 u64_max _ _ _ _ eq_refl H1 H2). }
  rewrite <-(app_nil_r (table_payloads 17 _ _ _)).
  apply (segments_table 17 18 id 32); [done|done|by eapply keys_ok_keyed|].
  split; [constructor|]. by intros p ?%not_elem_of_nil.
Qed.

(** A payload of category 1 (7) comes from the account (validator) table. *)
Lemma account_payload s k l :
  state_payload 1 k l ∈ state_payloads s ->
  state_payload 1 k l ∈ table_payloads 1 id bytes_le (st_accounts s).
Proof.
  unfold state_payloads. rewrite !elem_of_app. intros Hp.
  destruct_or! Hp; try done; exfalso; other_category.
Qed.

Lemma validator_payload s k l :
  state_payload 7 k l ∈ state_payloads s ->
  state_payload 7 k l ∈ table_payloads 7 id bytes_le (st_validators s).
Proof.
  unfold state_payloads. rewrite !elem_of_app. intros Hp.
  destruct_or! Hp; try done; exfalso; other_category.
Qed.
End root_facts.

(** ** What a leaf binds *)

(** Byte strings shorter than 2^64 and integers within their Rust types. *)
Definition key_wf (k : KeyEntry) : Prop :=
  key_version k <= u32_max /\ key_valid_from_height k <= u64_max /\
  key_allowed_tx_types k <= u32_max /\ chunk_ok (key_pk_bytes k).

Definition account_wf (a : Account) : Prop :=
  chunk_ok (acc_address a) /\ acc_balance a <= u128_max /\ acc_nonce a <= u64_max /\
  (forall k, k ∈ acc_keys a -> key_wf k) /\ len (acc_keys a) <= u64_max /\
  acc_policy_version a <= u32_max /\ (forall b, acc_policy_hash a = Some b -> chunk_ok b) /\
  acc_verifier_template_id a <= u16_max /\ chunk_ok (acc_auth_data a).

(** Accounts up to the order of their keys. *)
Definition canonical_account (a : Account) : Account :=
  a <| acc_keys := keys_by_version (acc_keys a) |>.

Lemma keys_by_version_elem keys k : k ∈ keys_by_version keys <-> k ∈ keys.
Proof. unfold keys_by_version. by rewrite merge_sort_Permutation. Qed.

Lemma keys_by_version_len keys : len (keys_by_version keys) = len keys.
Proof. unfold len, keys_by_version. by rewrite merge_sort_Permutation. Qed.

Lemma u8_inj a b : a < 256 -> b < 256 -> u8 a = u8 b -> a = b.
Proof.
  intros Ha Hb [= Heq%(f_equal Byte.to_N)]. by rewrite !to_N_byte_of_N, !N.mod_small in Heq.
Qed.

Lemma chunk_ok_be n x : N.of_nat n <= 16 -> chunk_ok (be_bytes n x).
Proof. unfold chunk_ok, len. rewrite length_be_bytes. lia. Qed.

Lemma chunk_ok_u8 n : chunk_ok (u8 n).
Proof. unfold chunk_ok, len. cbn. lia. Qed.

#[local] Hint Resolve chunk_ok_u8 : viper.
#[local] Hint Extern 1 (chunk_ok (be_bytes _ _)) => (apply chunk_ok_be; vm_compute; discriminate) : viper.

(** [injection] would unfold the byte codecs. *)
Lemma cons_inj {A} (x y : A) l k : x :: l = y :: k -> x = y /\ l = k.
Proof. by intros [= -> ->]. Qed.

Lemma key_chunks_inj k1 k2 : key_wf k1 -> key_wf k2 -> key_chunks k1 = key_chunks k2 -> k1 = k2.
Proof.
  intros (Hv1 & Hf1 & Ha1 & _) (Hv2 & Hf2 & Ha2 & _). destruct k1, k2; cbn in *.
  unfold key_chunks; cbn [Types.key_alg_id Types.key_version Types.key_valid_from_height
    Types.key_status Types.key_allowed_tx_types Types.key_pk_bytes].
  intros (Halg & (Hv & (Hf & (Hs & (Ha & (-> & _)%cons_inj)%cons_inj)%cons_inj)%cons_inj)%cons_inj)%cons_inj.
  apply be_bytes_inj in Halg; [|apply AlgId.alg_as_u16_lt|apply AlgId.alg_as_u16_lt].
  apply AlgId.alg_as_u16_inj in Halg as ->.
  apply be_bytes_inj in Hv as ->; [|cbn; lia|cbn; lia].
  apply be_bytes_inj in Hf as ->; [|cbn; lia|cbn; lia].
  apply be_bytes_inj in Ha as ->; [|cbn; lia|cbn; lia].
  f_equal. destruct key_status, key_status0; done.
Qed.

Lemma concat_key_chunks_inj ks1 ks2 r1 r2 :
  (forall k, k ∈ ks1 -> key_wf k) -> (forall k, k ∈ ks2 -> key_wf k) ->
  length ks1 = length ks2 ->
  concat (key_chunks <$> ks1) ++ r1 = concat (key_chunks <$> ks2) ++ r2 -> ks1 = ks2 /\ r1 = r2.
Proof.
  revert ks2. induction ks1 as [|k1 ks1 IH]; intros [|k2 ks2] H1 H2 Hlen Heq; try done.
  rewrite !fmap_cons in Heq. cbn [concat] in Heq. rewrite <-!app_assoc in Heq.
  apply app_inj_width in Heq as [Hk Heq]; [|done].
  apply key_chunks_inj in Hk as ->; [|apply H1; by left|apply H2; by left].
  destruct (IH ks2) as [-> ->]; [intros; apply H1; by right|intros; apply H2; by right| |done|done].
  cbn in Hlen. lia.
Qed.

Lemma opt_chunks_tail_inj o1 o2 (a1 b1 a2 b2 : bytes) :
  opt_chunks o1 ++ [a1; b1] = opt_chunks o2 ++ [a2; b2] -> o1 = o2 /\ a1 = a2 /\ b1 = b2.
Proof. destruct o1, o2; cbn; naive_solver. Qed.

Lemma account_chunks_inj a1 a2 :
  account_wf a1 -> account_wf a2 -> account_chunks a1 = account_chunks a2 ->
  canonical_account a1 = canonical_account a2.
Proof.
  intros (_ & Hb1 & Hn1 & Hk1 & Hl1 & Hp1 & _ & Ht1 & _) (_ & Hb2 & Hn2 & Hk2 & Hl2 & Hp2 & _ & Ht2 & _).
  unfold account_chunks. cbn [app]. intros Heq.
  apply cons_inj in Heq as (Had & (Hb & (Hn & (Hl & Heq)%cons_inj)%cons_inj)%cons_inj).
  apply be_bytes_inj in Hb; [|cbn; lia|cbn; lia].
  apply be_bytes_inj in Hn; [|cbn; lia|cbn; lia].
  apply be_bytes_inj in Hl; [|rewrite keys_by_version_len; cbn; lia..].
  apply concat_key_chunks_inj in Heq as [Hks Heq];
    [|intros k Hk; apply Hk1; by apply keys_by_version_elem
     |intros k Hk; apply Hk2; by apply keys_by_version_elem|unfold len in Hl; lia].
  apply cons_inj in Heq as [Hp Heq]. apply be_bytes_inj in Hp; [|cbn; lia|cbn; lia].
  apply opt_chunks_tail_inj in Heq as (Hph & Ht & Hau).
  apply be_bytes_inj in Ht; [|cbn; lia|cbn; lia].
  unfold canonical_account. destruct a1, a2; cbn in *. unfold set; cbn. congruence.
Qed.

Lemma opt_chunks_ok o : (forall b, o = Some b -> chunk_ok b) -> Forall chunk_ok (opt_chunks o).
Proof. intros Ho. destruct o; cbn; repeat constructor; auto with viper. Qed.

Lemma account_chunks_ok a : account_wf a -> Forall chunk_ok (account_chunks a).
Proof.
  intros (Had & _ & _ & Hk & _ & _ & Hph & _ & Hau). unfold account_chunks. cbv zeta.
  repeat apply Forall_app_2; [| | |by apply opt_chunks_ok|]; try by repeat constructor; auto with viper.
  apply Forall_concat, Forall_fmap, Forall_forall. intros k Hin%keys_by_version_elem%Hk.
  destruct Hin as (_ & _ & _ & Hpk). unfold key_chunks. cbn. repeat constructor; auto with viper.
Qed.

Definition validator_wf (v : ValidatorRecord) : Prop :=
  chunk_ok (val_operator v) /\ chunk_ok (val_node_id v) /\ chunk_ok (val_consensus_pk v) /\
  val_self_bond v <= u128_max /\ val_registered_height v <= u64_max /\
  (forall h, val_status v = ValidatorStatus.Unbonding h -> h <= u64_max).

Lemma validator_chunks_ok v : validator_wf v -> Forall chunk_ok (validator_chunks v).
Proof.
  intros (? & ? & ? & _). unfold validator_chunks.
  repeat apply Forall_app_2; [repeat constructor; auto with viper| |].
  - destruct (val_status v); cbn; repeat constructor; auto with viper.
  - unfold flag. destruct (val_tombstoned v); repeat constructor; auto with viper.
Qed.

Lemma flag_inj b1 b2 : flag b1 = flag b2 -> b1 = b2.
Proof. by destruct b1, b2. Qed.

Lemma validator_chunks_inj v1 v2 :
  validator_wf v1 -> validator_wf v2 -> validator_chunks v1 = validator_chunks v2 -> v1 = v2.
Proof.
  intros (_ & _ & _ & Hb1 & Hh1 & Hs1) (_ & _ & _ & Hb2 & Hh2 & Hs2).
  unfold validator_chunks. cbn [app].
  intros (Hop & (Hnode & (Halg & (_ & (Hpk & (Hb & (Hh & Heq)%cons_inj)%cons_inj)%cons_inj)%cons_inj)%cons_inj)%cons_inj)%cons_inj.
  apply be_bytes_inj in Halg; [|apply AlgId.alg_as_u16_lt|apply AlgId.alg_as_u16_lt].
  apply AlgId.alg_as_u16_inj in Halg.
  apply be_bytes_inj in Hb; [|cbn; lia|cbn; lia].
  apply be_bytes_inj in Hh; [|cbn; lia|cbn; lia].
  assert (val_status v1 = val_status v2 /\ val_tombstoned v1 = val_tombstoned v2) as [Hst Hto].
  { destruct (val_status v1) eqn:E1, (val_status v2) eqn:E2; cbn [validator_status_chunks app] in Heq;
      try (apply (f_equal length) in Heq; done);
      apply cons_inj in Heq as [Ht Heq]; try (by vm_compute in Ht).
    all: try (apply cons_inj in Heq as [Hf _]; split; [done|by apply flag_inj]).
    apply cons_inj in Heq as [Hst Heq]. apply cons_inj in Heq as [Hf _].
    apply be_bytes_inj in Hst as ->; [|specialize (Hs1 _ eq_refl); cbn; lia
      |specialize (Hs2 _ eq_refl); cbn; lia]. split; [done|by apply flag_inj]. }
  destruct v1, v2; cbn in *. congruence.
Qed.

Section binding.
Context `{Shake}.

(** The inputs SHAKE-256 is evaluated on for the root and for the leaves of the
    accounts and validators. *)
Definition leaf_queries {V} (tag : string) (chunks : V -> list bytes) (t : Table bytes V)
    : list bytes :=
  (fun kv => chunks_preimage (bstr tag) (chunks kv.2)) <$> map_to_list (rows t).

Definition root_queries (s : StateStore) : list bytes :=
  merkle_queries STATE_LEAF_DOMAIN STATE_BRANCH_DOMAIN (state_payloads s)
  ++ leaf_queries "PQC-ACCOUNT-LEAF-V1" account_chunks (st_accounts s)
  ++ leaf_queries "PQC-VALIDATOR-LEAF-V1" validator_chunks (st_validators s).

Lemma leaf_queries_elem {V} (tag : string) (chunks : V -> list bytes) (t : Table bytes V) k v :
  rows t !! k = Some v -> chunks_preimage (bstr tag) (chunks v) ∈ leaf_queries tag chunks t.
Proof.
  intros Hv. apply list_elem_of_fmap. exists (k, v). split; [done|]. by apply elem_of_map_to_list.
Qed.

Lemma table_payload_elem {V} (c : N) (t : Table bytes V) k l :
  keys_ok id 32 t -> length k = 32%nat ->
  state_payload c k l ∈ table_payloads c id bytes_le t <-> leaves t !! k = Some l.
Proof.
  intros Hk Hl. unfold table_payloads. rewrite list_elem_of_fmap. split.
  - intros ([k' l'] & Heq & Hin%sorted_entries_elem).
    destruct (Hk k' k' l' l' Hin Hin) as [Hw _].
    apply (state_payload_inj c id 32) in Heq as [Hkk ->]; [|done|done]. cbn in Hkk. by rewrite Hkk.
  - intros Hin. exists (k, l). split; [done|]. by apply sorted_entries_elem.
Qed.

Lemma forall_or_list {A} (P : A -> Prop) (C : Prop) (l : list A) :
  (forall x, x ∈ l -> P x \/ C) -> (forall x, x ∈ l -> P x) \/ C.
Proof.
  induction l as [|x l IH]; intros Hall; [left; by intros y ?%not_elem_of_nil|].
  destruct (Hall x) as [Hx|]; [left| |by right].
  destruct IH as [Hl|]; [intros; apply Hall; by right| |by right].
  left. intros y [->|?]%elem_of_cons; auto.
Qed.

(** Equal leaves: the rows agree up to [R], if leaf hashes bind up to [R]. *)
Lemma leaves_bind {V} (h : bytes -> V -> bytes) (P : bytes -> V -> Prop) (R : V -> V -> Prop)
    (Q : list bytes) (t1 t2 : Table bytes V) :
  table_ok h P t1 -> table_ok h P t2 -> leaves t1 = leaves t2 ->
  (forall k v1 v2, rows t1 !! k = Some v1 -> rows t2 !! k = Some v2 -> h k v1 = h k v2 ->
     R v1 v2 \/ collision_in Q) ->
  (forall k, option_Forall2 R (rows t1 !! k) (rows t2 !! k)) \/ collision_in Q.
Proof.
  intros [Hc1 _] [Hc2 _] Heq HR.
  assert (forall k, h k <$> rows t1 !! k = h k <$> rows t2 !! k) as Hh.
  { intros k. by rewrite <-(Hc1 k), <-(Hc2 k), Heq. }
  destruct (forall_or_list (fun kv => option_Forall2 R (rows t1 !! kv.1) (rows t2 !! kv.1))
    (collision_in Q) (map_to_list (rows t1))) as [Hall|?]; [|left|by right].
  - intros [k v1] H1%elem_of_map_to_list. cbn. specialize (Hh k). rewrite H1 in *.
    destruct (rows t2 !! k) as [v2|] eqn:H2; [|done]. injection Hh as Hh.
    destruct (HR k v1 v2 H1 H2 Hh); [left; by constructor|by right].
  - intros k. destruct (rows t1 !! k) as [v1|] eqn:H1.
    + rewrite <-H1. apply (Hall (k, v1)). by apply elem_of_map_to_list.
    + specialize (Hh k). rewrite H1 in Hh. destruct (rows t2 !! k); [done|constructor].
Qed.

Lemma hash_chunks_bind (tag : bytes) (Q : list bytes) (cs1 cs2 : list bytes) :
  Forall chunk_ok cs1 -> Forall chunk_ok cs2 ->
  chunks_preimage tag cs1 ∈ Q -> chunks_preimage tag cs2 ∈ Q ->
  hash_chunks tag cs1 = hash_chunks tag cs2 -> cs1 = cs2 \/ collision_in Q.
Proof.
  intros H1 H2 Hq1 Hq2 Heq. apply (shake_inj_or Q) in Heq as [Heq|?]; [|by right|done|done].
  left. by eapply chunks_preimage_inj.
Qed.

(** Every row's fields fit their Rust types. *)
Definition rows_wf (s : StateStore) : Prop :=
  map_Forall (fun _ a => account_wf a) (rows (st_accounts s)) /\
  map_Forall (fun _ v => validator_wf v) (rows (st_validators s)).

Lemma root_payloads s1 s2 :
  store_ok s1 -> store_ok s2 -> state_root s1 = state_root s2 ->
  state_payloads s1 = state_payloads s2 \/ collision_in (root_queries s1 ++ root_queries s2).
Proof.
  intros Hok1 Hok2 Heq.
  destruct (tagged_root_inj_or STATE_LEAF_DOMAIN STATE_BRANCH_DOMAIN
    (state_payloads s1) (state_payloads s2)) as [?|Hcol]; try done.
  - by apply state_payloads_segments in Hok1 as [? _].
  - by apply state_payloads_segments in Hok2 as [? _].
  - by left.
  - right. eapply collision_in_mono; [|exact Hcol]. intros q. unfold root_queries.
    rewrite !elem_of_app. tauto.
Qed.

Lemma leaves_of_payloads {V} (c : N) (t1 t2 : Table bytes V) :
  keys_ok id 32 t1 -> keys_ok id 32 t2 ->
  (forall k l, state_payload c k l ∈ table_payloads c id bytes_le t1 <->
               state_payload c k l ∈ table_payloads c id bytes_le t2) ->
  leaves t1 = leaves t2.
Proof.
  intros Hk1 Hk2 Hiff. apply map_eq. intros k. apply option_eq. intros l.
  destruct (decide (length k = 32%nat)) as [Hk|Hk].
  - by rewrite <-(table_payload_elem c t1), <-(table_payload_elem c t2), Hiff.
  - split; intros Hl; exfalso; apply Hk.
    + by destruct (Hk1 k k l l Hl Hl).
    + by destruct (Hk2 k k l l Hl Hl).
Qed.

Lemma account_leaves_of_payloads s1 s2 :
  store_ok s1 -> store_ok s2 -> state_payloads s1 = state_payloads s2 ->
  leaves (st_accounts s1) = leaves (st_accounts s2).
Proof.
  intros Hok1 Hok2 Heq.
  assert (forall s k l, state_payload 1 k l ∈ state_payloads s <->
    state_payload 1 k l ∈ table_payloads 1 id bytes_le (st_accounts s)) as Hin.
  { intros s k l. split; [apply account_payload|]. unfold state_payloads.
    rewrite !elem_of_app. tauto. }
  eapply (leaves_of_payloads 1); [apply (keys_ok_keyed h_account acc_address); by apply ok_accounts..|].
  intros k l. by rewrite <-!Hin, Heq.
Qed.

Lemma validator_leaves_of_payloads s1 s2 :
  store_ok s1 -> store_ok s2 -> state_payloads s1 = state_payloads s2 ->
  leaves (st_validators s1) = leaves (st_validators s2).
Proof.
  intros Hok1 Hok2 Heq.
  assert (forall s k l, state_payload 7 k l ∈ state_payloads s <->
    state_payload 7 k l ∈ table_payloads 7 id bytes_le (st_validators s)) as Hin.
  { intros s k l. split; [apply validator_payload|]. unfold state_payloads.
    rewrite !elem_of_app. tauto. }
  eapply (leaves_of_payloads 7);
    [apply (keys_ok_keyed h_validator val_operator); by apply ok_validators..|].
  intros k l. by rewrite <-!Hin, Heq.
Qed.

Lemma accounts_bound s1 s2 :
  store_ok s1 -> store_ok s2 -> map_Forall (fun _ a => account_wf a) (rows (st_accounts s1)) ->
  map_Forall (fun _ a => account_wf a) (rows (st_accounts s2)) -> state_root s1 = state_root s2 ->
  (forall addr, option_Forall2 (fun a1 a2 => canonical_account a1 = canonical_account a2)
     (get_account s1 addr) (get_account s2 addr)) \/
  collision_in (root_queries s1 ++ root_queries s2).
Proof.
  intros Hok1 Hok2 Ha1 Ha2 Heq.
  destruct (root_payloads s1 s2) as [Hp|?]; [done..| |by right].
  apply (leaves_bind h_account (keyed acc_address)); [by apply ok_accounts|by apply ok_accounts
    |by apply account_leaves_of_payloads|].
  intros k a1 a2 H1 H2 Hh. pose proof (Ha1 _ _ H1). pose proof (Ha2 _ _ H2).
  eapply hash_chunks_bind in Hh as [Hch|?]; [left; by apply account_chunks_inj|by right
    |by apply account_chunks_ok|by apply account_chunks_ok| |];
    unfold root_queries; rewrite !elem_of_app;
    [left; right; left|right; right; left]; by eapply leaf_queries_elem.
Qed.

Lemma validators_bound s1 s2 :
  store_ok s1 -> store_ok s2 -> map_Forall (fun _ v => validator_wf v) (rows (st_validators s1)) ->
  map_Forall (fun _ v => validator_wf v) (rows (st_validators s2)) ->
  state_root s1 = state_root s2 ->
  (forall op, get_validator s1 op = get_validator s2 op) \/
  collision_in (root_queries s1 ++ root_queries s2).
Proof.
  intros Hok1 Hok2 Hv1 Hv2 Heq.
  destruct (root_payloads s1 s2) as [Hp|?]; [done..| |by right].
  destruct (leaves_bind h_validator (keyed val_operator) eq (root_queries s1 ++ root_queries s2)
    (st_validators s1) (st_validators s2)) as [Hval|?]; [by apply ok_validators|by apply ok_validators
    |by apply validator_leaves_of_payloads| | |by right].
  { intros k v1 v2 H1 H2 Hh. pose proof (Hv1 _ _ H1). pose proof (Hv2 _ _ H2).
    eapply hash_chunks_bind in Hh as [Hch|?]; [left; by apply validator_chunks_inj|by right
      |by apply validator_chunks_ok|by apply validator_chunks_ok| |];
      unfold root_queries; rewrite !elem_of_app;
      [left; right; right|right; right; right]; by eapply leaf_queries_elem. }
  left. intros op. specialize (Hval op). unfold get_validator. by destruct Hval; subst.
Qed.

(** C5 The state root binds the accounts and the validators: two stores with the
    same root have, under every address, accounts with the same balance, nonce,
    policy, template and keys (the order of the keys aside) and the same validator
    record, or two different inputs hashed for these roots collide. *)
Theorem state_root_binds s1 s2 :
  store_ok s1 -> store_ok s2 -> rows_wf s1 -> rows_wf s2 ->
  state_root s1 = state_root s2 ->
  ((forall addr, option_Forall2 (fun a1 a2 => canonical_account a1 = canonical_account a2)
       (get_account s1 addr) (get_account s2 addr)) /\
   (forall op, get_validator s1 op = get_validator s2 op)) \/
  collision_in (root_queries s1 ++ root_queries s2).
Proof.
  intros Hok1 Hok2 [Ha1 Hv1] [Ha2 Hv2] Heq.
  destruct (accounts_bound s1 s2) as [?|?]; [done..| |by right].
  destruct (validators_bound s1 s2) as [?|?]; [done..|by left|by right].
Qed.
End binding.

(** ** Recomputing every leaf

    The store from its rows alone: each table's cache and the three single leaves
    computed afresh. *)

Section rebuild.
Context `{Shake}.

Definition tbl_rebuild {K V} `{Countable K} (h : K -> V -> bytes) (t : Table K V) : Table K V :=
  mkTable (rows t) (map_imap (fun k v => Some (h k v)) (rows t)).

Definition rebuild (s : StateStore) : StateStore :=
  mkStateStore (tbl_rebuild h_account (st_accounts s))
    (tbl_rebuild h_attestation (st_attestations s))
    (tbl_rebuild h_proof_anchor (st_proof_anchors s)) (tbl_rebuild h_rotation (st_rotations s))
    (tbl_rebuild h_receipt (st_receipts s)) (tbl_rebuild h_validator (st_validators s))
    (tbl_rebuild h_peer_id (st_peer_ids s)) (st_block_height s) (tbl_rebuild h_alg (st_algs s))
    (st_chain_id s) (st_fee_market s) (compute_fee_market_leaf_hash (st_fee_market s))
    (st_storage_fund s) (compute_storage_fund_leaf_hash (st_storage_fund s))
    (tbl_rebuild h_proposal (st_proposals s))
    (tbl_rebuild h_archival_record (st_archival_records s))
    (tbl_rebuild h_archival_key (st_archival_keys s)) (st_archival_signer_set s)
    (st_archival_threshold s) (st_archival_renewers s) (tbl_rebuild h_upgrade (st_upgrades s))
    (st_recent_slashes s) (compute_recent_slashes_leaf_hash (st_recent_slashes s))
    (tbl_rebuild h_slashing (st_slashing_registry s)) (tbl_rebuild h_hash (st_hash_registry s)).

Lemma tbl_rebuild_ok {K V} `{Countable K} (h : K -> V -> bytes) P (t : Table K V) :
  table_ok h P t -> tbl_rebuild h t = t.
Proof.
  intros [Hc _]. destruct t as [r l]. unfold tbl_rebuild; cbn. f_equal.
  apply map_eq. intros k. specialize (Hc k). cbn in Hc.
  rewrite map_lookup_imap, Hc. by destruct (r !! k).
Qed.

Lemma rebuild_ok s : store_ok s -> rebuild s = s.
Proof.
  intros []. unfold rebuild. erewrite !tbl_rebuild_ok by eassumption.
  destruct s; cbn in *. congruence.
Qed.
End rebuild.

(** Two stores that differ in the order of an account's keys. *)
Definition example_two_keys (ks : KeySet) : Account :=
  mkAccount (replicate 32 x07) 100 3 ks 0 None VERIFIER_TEMPLATE_ID_EOA [].
Definition example_key (version : N) : KeyEntry :=
  mkKeyEntry AlgId.MlDsa65 [byte_of_N version] version 0 KeyStatus.Active allowed_tx.ALL.

Lemma example_two_keys_wf ks :
  (forall k, k ∈ ks -> exists v, k = example_key v /\ v <= 100) -> len ks <= 100 ->
  account_wf (example_two_keys ks).
Proof.
  intros Hks Hlen. unfold account_wf, key_wf; cbn. split_and!; try done; [|lia].
  intros k (v & -> & Hv)%Hks. cbn. split_and!; try done; lia.
Qed.

Lemma state_root_binds_witness :
  let shake := example_shake in
  let s1 := insert_account (example_two_keys [example_key 1; example_key 2]) StateStore_new in
  let s2 := insert_account (example_two_keys [example_key 2; example_key 1]) StateStore_new in
  ((forall addr, option_Forall2 (fun a1 a2 => canonical_account a1 = canonical_account a2)
       (get_account s1 addr) (get_account s2 addr)) /\
   (forall op, get_validator s1 op = get_validator s2 op)) \/
  collision_in (root_queries s1 ++ root_queries s2).
Proof.
  intros shake s1 s2. apply (state_root_binds s1 s2).
  - apply insert_account_ok; [done|apply StateStore_new_ok].
  - apply insert_account_ok; [done|apply StateStore_new_ok].
  - split; [|intros k v Hv; by vm_compute in Hv].
    apply map_Forall_insert_2; [|apply map_Forall_empty]. apply example_two_keys_wf; [|done].
    intros k. rewrite !elem_of_cons, elem_of_nil. intros [->|[->|[]]]; by eexists.
  - split; [|intros k v Hv; by vm_compute in Hv].
    apply map_Forall_insert_2; [|apply map_Forall_empty]. apply example_two_keys_wf; [|done].
    intros k. rewrite !elem_of_cons, elem_of_nil. intros [->|[->|[]]]; by eexists.
  - by vm_compute.
Defined.
