(* ===== verification/ApplyAccounts.v ===== *)
(** * Operations on accounts, attestations and proof anchors.

    The state transitions of [pqc-state/src/apply/{vault,transfer,key_mgmt,
    attestation,proof_anchor}.rs].  [apply_tx] runs them on a copy of the store
    that it drops on an error, so an operation returns the new store or an error. *)

From S2P Require Import Prelude Crypto Types Cbor Payloads Tx FeeMarket Leaves Store StoreInv.

Definition status_at (block_height valid_from_height : N) : KeyStatus.t :=
  if valid_from_height <=? block_height then KeyStatus.Active else KeyStatus.Pending.

(** [ensure_account_invariants] *)
Definition invariant_error (e : InvariantViolation) : ApplyError.t :=
  match e with
  | I1_NoActiveKey => ApplyError.InsufficientActiveKeys
  | I2_DuplicateVersions => ApplyError.KeyVersionConflict
  | I3_EoaAuthData => ApplyError.PayloadDecode
  end.

Definition ensure_account_invariants (a : Account) : result unit :=
  map_err invariant_error (check_invariants a).

Section apply.
Context `{Ciborium, Shake}.

(** ** [vault.rs] *)

Definition apply_vault_create (s : StateStore) (tx : Transaction) : result StateStore :=
  payload ← decode_vault_create_payload (tx_payload tx);
  alg ← ok_or (AlgId.from_u16 (vc_alg_id payload)) ApplyError.UnsupportedAlgorithm;
  entry ← ok_or (alg_entry s alg) ApplyError.UnsupportedAlgorithm;
  ensure (bool_decide (alg_lifecycle entry = Lifecycle.Active)) ApplyError.UnsupportedAlgorithm ;;
  ensure (len (vc_pk_bytes payload) =? alg_pk_size entry) ApplyError.InvalidKeySize ;;
  ensure (negb (bool_decide (alg = AlgId.SlhDsaSha2128s)
                && negb (vc_allowed_tx_types payload =? allowed_tx.SLH_DSA_ONLY)))
    ApplyError.InvalidKeyPermissions ;;
  let new_address := derive_address (st_chain_id s) alg (vc_pk_bytes payload) in
  ensure (negb (bool_decide (is_Some (get_account s new_address)))) ApplyError.AccountExists ;;
  let account :=
    mkAccount new_address 0 0
      [mkKeyEntry alg (vc_pk_bytes payload) 1 (vc_valid_from_height payload)
         (status_at (st_block_height s) (vc_valid_from_height payload))
         (vc_allowed_tx_types payload)]
      0 None VERIFIER_TEMPLATE_ID_EOA [] in
  map_err (fun _ => ApplyError.PayloadDecode) (check_invariants account) ;;
  Ok (insert_account account s).

Definition apply_vault_policy_update (s : StateStore) (tx : Transaction) : result StateStore :=
  payload ← decode_vault_policy_update_payload (tx_payload tx);
  account ← ok_or (get_account s (tx_sender tx)) ApplyError.InsufficientFunds;
  ensure (acc_policy_version account <? vpu_policy_version payload)
    ApplyError.PolicyVersionConflict ;;
  let account := account <| acc_policy_version := vpu_policy_version payload |>
                         <| acc_policy_hash := Some (vpu_policy_hash payload) |> in
  Ok (commit_account_mutation (tx_sender tx) (put_account (tx_sender tx) account s)).

(** ** [transfer.rs] *)

Definition credit_or_create (recipient : Address) (amount : N) (s : StateStore)
    : result StateStore :=
  match get_account s recipient with
  | Some a =>
      balance ← add_checked u128_max (acc_balance a) amount;
      Ok (commit_account_mutation recipient
            (put_account recipient (a <| acc_balance := balance |>) s))
  | None => Ok (insert_account (implicit_account recipient amount) s)
  end.

Definition apply_token_transfer (s : StateStore) (tx : Transaction) : result StateStore :=
  payload ← decode_token_transfer_payload (tx_payload tx);
  ensure (negb (tt_amount payload =? 0)) ApplyError.TransferAmountZero ;;
  ensure (negb (bool_decide (tx_sender tx = tt_recipient payload))) ApplyError.SelfTransfer ;;
  sender ← ok_or (get_account s (tx_sender tx)) ApplyError.InsufficientFunds;
  ensure (tt_amount payload <=? acc_balance sender) ApplyError.InsufficientFunds ;;
  balance ← sub_checked (acc_balance sender) (tt_amount payload);
  let s := commit_account_mutation (tx_sender tx)
             (put_account (tx_sender tx) (sender <| acc_balance := balance |>) s) in
  credit_or_create (tt_recipient payload) (tt_amount payload) s.

(** ** [key_mgmt.rs] *)

Definition build_new_key_entry (s : StateStore) (p : KeyAddPayload) : result KeyEntry :=
  alg ← ok_or (AlgId.from_u16 (ka_alg_id p)) ApplyError.UnsupportedAlgorithm;
  entry ← ok_or (alg_entry s alg) ApplyError.UnsupportedAlgorithm;
  ensure (bool_decide (alg_lifecycle entry = Lifecycle.Active)) ApplyError.UnsupportedAlgorithm ;;
  ensure (len (ka_pk_bytes p) =? alg_pk_size entry) ApplyError.InvalidKeySize ;;
  ensure (st_block_height s <=? ka_valid_from_height p) ApplyError.InvalidActivationHeight ;;
  ensure (negb (bool_decide (alg = AlgId.SlhDsaSha2128s)
                && negb (ka_allowed_tx_types p =? allowed_tx.SLH_DSA_ONLY)))
    ApplyError.InvalidKeyPermissions ;;
  Ok (mkKeyEntry alg (ka_pk_bytes p) (ka_key_version p) (ka_valid_from_height p)
        (status_at (st_block_height s) (ka_valid_from_height p)) (ka_allowed_tx_types p)).

(** [.map(|key| key.key_version).max().unwrap_or(0)] *)
Definition max_key_version (keys : KeySet) : N :=
  foldr (fun k m => N.max (key_version k) m) 0 keys.

Definition fresh_version (k : KeyEntry) (keys : KeySet) : bool :=
  negb ((key_version k =? 0) || (key_version k <=? max_key_version keys)).

(** [keys[i].status = Revoked] *)
Definition revoke_at (i : nat) (keys : KeySet) : KeySet :=
  alter (fun k => k <| key_status := KeyStatus.Revoked |>) i keys.

Definition apply_key_add (s : StateStore) (tx : Transaction) : result StateStore :=
  payload ← decode_key_add_payload (tx_payload tx);
  new_key ← build_new_key_entry s payload;
  sender ← ok_or (get_account s (tx_sender tx)) ApplyError.KeyNotFound;
  ensure (fresh_version new_key (acc_keys sender)) ApplyError.KeyVersionConflict ;;
  let sender := sender <| acc_keys := acc_keys sender ++ [new_key] |> in
  ensure_account_invariants sender ;;
  Ok (commit_account_mutation (tx_sender tx) (put_account (tx_sender tx) sender s)).

Definition apply_key_rotate (s : StateStore) (tx : Transaction) : result StateStore :=
  payload ← decode_key_rotate_payload (tx_payload tx);
  new_key ← build_new_key_entry s (kr_new payload);
  sender ← ok_or (get_account s (tx_sender tx)) ApplyError.KeyNotFound;
  ensure (fresh_version new_key (acc_keys sender)) ApplyError.KeyVersionConflict ;;
  ensure (negb (kr_revoke_key_version payload =? key_version new_key))
    ApplyError.InvalidKeyRotation ;;
  target ← ok_or (list_find (fun k => key_version k = kr_revoke_key_version payload)
                    (acc_keys sender)) ApplyError.KeyNotFound;
  match key_status (snd target) with
  | KeyStatus.Revoked => Err ApplyError.KeyAlreadyRevoked
  | KeyStatus.Pending => Err ApplyError.InvalidKeyRotation
  | KeyStatus.Active =>
      let sender := sender <| acc_keys := revoke_at (fst target) (acc_keys sender) ++ [new_key] |> in
      ensure_account_invariants sender ;;
      Ok (commit_account_mutation (tx_sender tx) (put_account (tx_sender tx) sender s))
  end.

Definition apply_key_revoke (s : StateStore) (tx : Transaction) : result StateStore :=
  target_key_version ← decode_key_revoke_payload (tx_payload tx);
  ensure (negb (target_key_version =? tx_sig_key_version tx)) ApplyError.SignerIsTarget ;;
  sender ← ok_or (get_account s (tx_sender tx)) ApplyError.KeyNotFound;
  target ← ok_or (list_find (fun k => key_version k = target_key_version) (acc_keys sender))
             ApplyError.KeyNotFound;
  ensure (negb (bool_decide (key_status (snd target) = KeyStatus.Revoked)))
    ApplyError.KeyAlreadyRevoked ;;
  let sender := sender <| acc_keys := revoke_at (fst target) (acc_keys sender) |> in
  ensure_account_invariants sender ;;
  Ok (commit_account_mutation (tx_sender tx) (put_account (tx_sender tx) sender s)).

(** ** [attestation.rs], [proof_anchor.rs] *)

(** The id of a record is the hash of the canonical encoding of its transaction. *)
Definition record_id (tx : Transaction) : result bytes :=
  raw ← map_err (fun _ => ApplyError.PayloadDecode) (encode_tx tx);
  Ok (compute_tx_hash raw).

Definition apply_attestation_create (s : StateStore) (tx : Transaction) : result StateStore :=
  payload ← decode_attestation_create_payload (tx_payload tx);
  let anchor_height := sat_add u64_max (st_block_height s) 1 in
  ensure (is_supported_attestation_type (ac_attestation_type payload))
    ApplyError.InvalidAttestationType ;;
  ensure (match ac_expires_at_height payload with
          | Some expires_at_height => anchor_height <? expires_at_height
          | None => true
          end) ApplyError.InvalidExpiry ;;
  attestation_id ← record_id tx;
  ensure (negb (bool_decide (is_Some (get_attestation s attestation_id))))
    ApplyError.AttestationExists ;;
  Ok (insert_attestation
        (mkAttestation attestation_id (tx_sender tx) (ac_subject payload)
           (ac_attestation_type payload) (ac_content_hash payload) (ac_schema_id payload)
           (ac_metadata_hash payload) anchor_height (ac_expires_at_height payload)
           AttestationStatus.Active None) s).

Definition apply_attestation_revoke (s : StateStore) (tx : Transaction) : result StateStore :=
  payload ← decode_attestation_revoke_payload (tx_payload tx);
  attestation ← ok_or (get_attestation s (arp_attestation_id payload))
                  ApplyError.AttestationNotFound;
  ensure (negb (bool_decide (att_status attestation = AttestationStatus.Revoked)))
    ApplyError.AttestationAlreadyRevoked ;;
  ensure (bool_decide (att_attester attestation = tx_sender tx)) ApplyError.UnauthorizedRevoker ;;
  let revoked_at_height := sat_add u64_max (st_block_height s) 1 in
  Ok (insert_attestation
        (attestation <| att_status := AttestationStatus.Revoked |>
                     <| att_revocation := Some (mkAttestationRevocation revoked_at_height
                          (tx_sender tx) (arp_revocation_reason_hash payload)) |>) s).

Definition apply_proof_anchor (s : StateStore) (tx : Transaction) : result StateStore :=
  payload ← decode_proof_anchor_payload (tx_payload tx);
  ensure (is_supported_claim_type (pap_claim_type payload)) ApplyError.InvalidClaimType ;;
  anchor_id ← record_id tx;
  let anchor_height := sat_add u64_max (st_block_height s) 1 in
  Ok (insert_proof_anchor
        (mkProofAnchor anchor_id (tx_sender tx) (pap_claim_type payload)
           (pap_asset_id_hash payload) (pap_proof_hash payload) (pap_schema_id payload)
           anchor_height) s).
End apply.
