(* ===== verification/ApplyValidators.v ===== *)
(** * Operations on validators: registration, exit, unjail, peer ids,
      consensus-key rotation and equivocation slashing.

    The state transitions of [pqc-state/src/apply/{validator,consensus_rotate,
    slashing}.rs].  The signature scheme is the parameter [Verifier]. *)

From S2P Require Import Prelude Crypto Types Cbor Payloads Tx FeeMarket Leaves Store StoreInv.
From S2P Require Import ApplyAccounts.

(** Active while the set has room, a candidate otherwise. *)
Definition entry_status (s : StateStore) : ValidatorStatus.t :=
  if active_validator_count s <? VALIDATOR_MAX_ACTIVE_SET_SIZE
  then ValidatorStatus.Active else ValidatorStatus.Candidate.

Definition is_not_exited (o : option ValidatorRecord) : bool :=
  match o with
  | Some v => negb (bool_decide (val_status v = ValidatorStatus.Exited))
  | None => false
  end.

Section validators.
Context `{Ciborium, Shake}.

(** ** [validator.rs] *)

Definition apply_validator_register (s : StateStore) (tx : Transaction) : result StateStore :=
  payload ← decode_register_payload (tx_payload tx);
  alg ← ok_or (AlgId.from_u16 (reg_consensus_alg_id payload))
          ApplyError.AlgorithmNotAllowedForConsensusKey;
  ensure (AlgId.allowed_for_consensus alg) ApplyError.AlgorithmNotAllowedForConsensusKey ;;
  entry ← ok_or (alg_entry s alg) ApplyError.UnsupportedAlgorithm;
  ensure (len (reg_consensus_pk payload) =? alg_pk_size entry) ApplyError.InvalidKeySize ;;
  ensure (negb (reg_self_bond payload =? 0)) ApplyError.ValidatorBondZero ;;
  ensure (negb (is_not_exited (get_validator s (tx_sender tx))))
    ApplyError.ValidatorAlreadyRegistered ;;
  ensure (negb (consensus_key_in_use s (reg_consensus_pk payload)))
    ApplyError.ValidatorConsensusKeyConflict ;;
  ensure (len (reg_peer_id payload) <=? VALIDATOR_PEER_ID_MAX_LEN)
    ApplyError.ValidatorPeerIdTooLarge ;;
  ensure (negb (negb (bool_decide (reg_peer_id payload = []))
                && peer_id_in_use s (reg_peer_id payload)))
    ApplyError.ValidatorPeerIdConflict ;;
  operator ← ok_or (get_account s (tx_sender tx)) ApplyError.ValidatorNotFound;
  ensure (reg_self_bond payload <=? acc_balance operator) ApplyError.InsufficientFunds ;;
  balance ← sub_checked (acc_balance operator) (reg_self_bond payload);
  let s := commit_account_mutation (tx_sender tx)
             (put_account (tx_sender tx) (operator <| acc_balance := balance |>) s) in
  let s := insert_validator
             (mkValidatorRecord (tx_sender tx) (reg_node_id payload) alg
                (reg_consensus_pk payload) (reg_self_bond payload) (entry_status s)
                (st_block_height s) false) s in
  Ok (if bool_decide (reg_peer_id payload = []) then s
      else set_validator_peer_id (tx_sender tx) (reg_peer_id payload) s).

Definition apply_validator_exit (s : StateStore) (tx : Transaction) : result StateStore :=
  record ← ok_or (get_validator s (tx_sender tx)) ApplyError.ValidatorNotFound;
  ensure (val_is_active record) ApplyError.ValidatorNotActive ;;
  ensure (negb (active_validator_count s <=? 1)) ApplyError.ValidatorExitWouldEmptySet ;;
  let record := record <| val_status := ValidatorStatus.Unbonding (st_block_height s) |> in
  Ok (commit_validator_mutation (tx_sender tx) (put_validator (tx_sender tx) record s)).

Definition apply_validator_unjail (s : StateStore) (tx : Transaction) : result StateStore :=
  record ← ok_or (get_validator s (tx_sender tx)) ApplyError.ValidatorNotFound;
  ensure (negb (val_tombstoned record)) ApplyError.AlreadyTombstoned ;;
  ensure (bool_decide (val_status record = ValidatorStatus.Jailed))
    ApplyError.ValidatorNotJailed ;;
  let record := record <| val_status := entry_status s |> in
  Ok (commit_validator_mutation (tx_sender tx) (put_validator (tx_sender tx) record s)).

Definition peer_id_rotatable (st : ValidatorStatus.t) : bool :=
  match st with
  | ValidatorStatus.Active | ValidatorStatus.Candidate | ValidatorStatus.Jailed => true
  | ValidatorStatus.Unbonding _ | ValidatorStatus.Exited => false
  end.

Definition apply_validator_rotate_peer_id (s : StateStore) (tx : Transaction)
    : result StateStore :=
  new_peer_id ← decode_rotate_peer_id_payload (tx_payload tx);
  ensure (negb (bool_decide (new_peer_id = []))) ApplyError.ValidatorPeerIdEmpty ;;
  ensure (len new_peer_id <=? VALIDATOR_PEER_ID_MAX_LEN) ApplyError.ValidatorPeerIdTooLarge ;;
  record ← ok_or (get_validator s (tx_sender tx)) ApplyError.ValidatorNotFound;
  ensure (peer_id_rotatable (val_status record)) ApplyError.ValidatorPeerIdNotRotatable ;;
  let is_own_current_binding :=
    bool_decide (get_validator_peer_id s (tx_sender tx) = Some new_peer_id) in
  ensure (negb (negb is_own_current_binding && peer_id_in_use s new_peer_id))
    ApplyError.ValidatorPeerIdConflict ;;
  Ok (set_validator_peer_id (tx_sender tx) new_peer_id s).

(** ** [consensus_rotate.rs] *)

Definition ROTATION_WINDOW : N := 100.

Definition apply_consensus_key_rotate (s : StateStore) (tx : Transaction) : result StateStore :=
  payload ← decode_consensus_key_rotate_payload (tx_payload tx);
  alg ← ok_or (AlgId.from_u16 (ckr_new_consensus_alg_id payload)) ApplyError.UnsupportedAlgorithm;
  ensure (AlgId.allowed_for_consensus alg) ApplyError.AlgorithmNotAllowedForConsensus ;;
  entry ← ok_or (alg_entry s alg) ApplyError.UnsupportedAlgorithm;
  ensure (len (ckr_new_consensus_pk_bytes payload) =? alg_pk_size entry)
    ApplyError.InvalidKeySize ;;
  let min_start := sat_add u64_max (st_block_height s) ROTATION_WINDOW in
  ensure (min_start <=? ckr_rotation_start_height payload) ApplyError.InvalidRotationHeight ;;
  Ok (insert_consensus_key_rotation
        (mkConsensusKeyRotation (tx_sender tx) alg (ckr_new_consensus_pk_bytes payload)
           (ckr_rotation_start_height payload) (st_block_height s)) s).
End validators.

(** ** [slashing.rs] *)

Definition EVIDENCE_VALIDITY_WINDOW_BLOCKS : N := 2419200.
Definition SLASH_FRACTION_BPS : N := 500.
Definition BASIS_POINTS_TOTAL : N := 10000.
Definition TREASURY_ADDRESS : Address := replicate 32 x01.
Definition CORRELATION_WINDOW_BLOCKS : N := 6220800.
Definition MAX_MULT_BOOST : N := 19.
Definition CORRELATION_BASE_MULT : N := 3.

Definition correlation_adjusted_slash_fraction_bps
    (base_fraction_bps window_slashed_stake active_stake : N) : N :=
  if active_stake =? 0 then base_fraction_bps
  else
    let ratio_bps_unclamped :=
      sat_mul u128_max window_slashed_stake BASIS_POINTS_TOTAL / active_stake in
    let ratio_bps := N.min ratio_bps_unclamped BASIS_POINTS_TOTAL in
    let multiplier_bps :=
      N.min (sat_mul u128_max ratio_bps CORRELATION_BASE_MULT) BASIS_POINTS_TOTAL in
    let boost_bps :=
      sat_add u128_max BASIS_POINTS_TOTAL (sat_mul u128_max multiplier_bps MAX_MULT_BOOST) in
    let product := sat_mul u128_max base_fraction_bps boost_bps in
    N.min (product / BASIS_POINTS_TOTAL) BASIS_POINTS_TOTAL.

Definition compute_slash_amount (self_bond fraction_bps : N) : N :=
  sat_mul u128_max self_bond fraction_bps / BASIS_POINTS_TOTAL.

Section slashing.
Context `{Ciborium, Shake, Verifier}.

Definition vote_body (fork_digest : bytes) (v : EquivocationVote) : bytes :=
  fork_digest ++ be_bytes 8 (ev_height v) ++ be_bytes 4 (ev_round v) ++ [byte_of_N (ev_step v)]
  ++ ev_block_hash v.

Definition compute_vote_preimage (fork_digest : bytes) (v : EquivocationVote) : bytes :=
  tagged_hash (bstr "VIPER-VOTE-V1") (vote_body fork_digest v).

Definition verify_vote_signature (a : AlgId.t) (pk : bytes) (v : EquivocationVote) : bool :=
  verify a pk (compute_vote_preimage viper_research_1 v) (ev_signature v).

(** [credit_treasury] here and [credit_account] of apply.rs do the same. *)
Definition credit_account (addr : Address) (amount : N) (s : StateStore) : StateStore :=
  if amount =? 0 then s
  else match get_account s addr with
  | Some a =>
      commit_account_mutation addr
        (put_account addr (a <| acc_balance := sat_add u128_max (acc_balance a) amount |>) s)
  | None => insert_account (implicit_account addr amount) s
  end.

Definition credit_treasury (amount : N) (s : StateStore) : StateStore :=
  credit_account TREASURY_ADDRESS amount s.

(** Rules 4 to 8: what the evidence itself has to satisfy. *)
Definition check_evidence (evidence : EquivocationEvidence) (current_block_height : N)
    : result unit :=
  let a := evid_vote_a evidence in
  let b := evid_vote_b evidence in
  ensure ((ev_height a =? evid_height evidence) && (ev_height b =? evid_height evidence))
    ApplyError.EvidenceHeightMismatch ;;
  ensure (ev_round a =? ev_round b) ApplyError.EvidenceRoundMismatch ;;
  ensure (ev_step a =? ev_step b) ApplyError.EvidenceStepMismatch ;;
  ensure (negb (bool_decide (ev_block_hash a = ev_block_hash b)))
    ApplyError.EquivocationNotProven ;;
  ensure (evid_height evidence <=? current_block_height) ApplyError.EvidenceExpired ;;
  ensure (current_block_height - evid_height evidence <=? EVIDENCE_VALIDITY_WINDOW_BLOCKS)
    ApplyError.EvidenceExpired.

(** The mutations of a proven equivocation: prune the ledger, slash the bond, jail
    and tombstone, credit the treasury, record the slash. *)
Definition execute_slash (addr : Address) (current_block_height : N) (s : StateStore)
    : result StateStore :=
  let s := prune_recent_slashes_before (current_block_height - CORRELATION_WINDOW_BLOCKS) s in
  record ← ok_or (get_validator s addr) ApplyError.NotAValidator;
  let active_stake := total_active_self_bond s in
  let window_sum :=
    recent_slashed_stake_in_window s current_block_height CORRELATION_WINDOW_BLOCKS in
  let fraction :=
    correlation_adjusted_slash_fraction_bps SLASH_FRACTION_BPS window_sum active_stake in
  let slash_amount := compute_slash_amount (val_self_bond record) fraction in
  let record :=
    record <| val_self_bond := if slash_amount <=? val_self_bond record
                               then val_self_bond record - slash_amount else 0 |>
           <| val_status := ValidatorStatus.Jailed |>
           <| val_tombstoned := true |> in
  let s := commit_validator_mutation addr (put_validator addr record s) in
  let s := credit_treasury slash_amount s in
  Ok (record_recent_slash (mkRecentSlashEntry current_block_height slash_amount) s).

Definition apply_submit_equivocation_evidence (s : StateStore) (payload : bytes)
    (current_block_height : N) : result StateStore :=
  evidence ← map_err (fun _ => ApplyError.PayloadDecode) (decode_equivocation_evidence payload);
  check_evidence evidence current_block_height ;;
  record ← ok_or (get_validator s (evid_validator_address evidence)) ApplyError.NotAValidator;
  ensure (negb (val_tombstoned record)) ApplyError.AlreadyTombstoned ;;
  ensure (verify_vote_signature (val_consensus_alg_id record) (val_consensus_pk record)
            (evid_vote_a evidence)) ApplyError.InvalidSignature ;;
  ensure (verify_vote_signature (val_consensus_alg_id record) (val_consensus_pk record)
            (evid_vote_b evidence)) ApplyError.InvalidSignature ;;
  execute_slash (evid_validator_address evidence) current_block_height s.
End slashing.
