(* ===== verification/Governance.v ===== *)
(** * Governance: [pqc-state/src/apply/governance.rs].

    Proposals are decoded and opened, active validators vote, and each block
    tallies the proposals whose deadline has passed and executes what passed. *)

From S2P Require Import Prelude Crypto Types Cbor Payloads Tx FeeMarket Leaves Store StoreInv.
From S2P Require Import ApplyAccounts.

Definition GOVERNANCE_VOTING_PERIOD : N := 5.
Definition GOVERNANCE_TIMELOCK : N := 0.
Definition ADD_ALG_MAX_KEY_SIZE : N := 256 * 1024.
Definition VERIFIER_TEMPLATE_CORE_RESERVED_MAX : N := 0x000F.
Definition VERIFIER_TEMPLATE_GOV_MIN : N := 0x0010.

(** [(2 * n).div_ceil(3)] *)
Definition quorum_required (active_count : N) : N :=
  if active_count =? 0 then 1 else (2 * active_count + 2) / 3.

(** ** [decode_proposal_payload] *)

Record ProposalFields := mkProposalFields {
  pf_proposal_type : option N;
  pf_alg_id : option N;
  pf_target_lifecycle : option Lifecycle.t;
  pf_new_min_fee : option N;
  pf_rationale_hash : option bytes;
  pf_new_burn_rate_bps : option N;
  pf_new_block_gas_limit : option N;
  pf_activate_at_timestamp_ns : option N;
  pf_expected_version : option N;
  pf_alg_spec_ref : option bytes;
  pf_alg_pk_size : option N;
  pf_alg_sig_size : option N;
  pf_alg_sig_class : option N;
  pf_alg_initial_lifecycle : option Lifecycle.t;
  pf_alg_benchmark : option N;
  pf_slash_evidence_type : option N;
  pf_slash_spec_ref : option bytes;
  pf_slash_fraction_bps : option N;
  pf_slash_jail_duration_blocks : option N;
  pf_slash_tombstone : option bool;
  pf_slash_lifecycle : option Lifecycle.t;
  pf_hash_id : option N;
  pf_hash_spec_ref : option bytes;
  pf_hash_output_size_bytes : option N;
  pf_hash_initial_lifecycle : option Lifecycle.t
}.

Global Instance eta_ProposalFields : Settable ProposalFields := fun x =>
  mkProposalFields (pf_proposal_type x) (pf_alg_id x) (pf_target_lifecycle x) (pf_new_min_fee x)
    (pf_rationale_hash x) (pf_new_burn_rate_bps x) (pf_new_block_gas_limit x)
    (pf_activate_at_timestamp_ns x) (pf_expected_version x) (pf_alg_spec_ref x)
    (pf_alg_pk_size x) (pf_alg_sig_size x) (pf_alg_sig_class x) (pf_alg_initial_lifecycle x)
    (pf_alg_benchmark x) (pf_slash_evidence_type x) (pf_slash_spec_ref x)
    (pf_slash_fraction_bps x) (pf_slash_jail_duration_blocks x) (pf_slash_tombstone x)
    (pf_slash_lifecycle x) (pf_hash_id x) (pf_hash_spec_ref x) (pf_hash_output_size_bytes x)
    (pf_hash_initial_lifecycle x).

Definition no_fields : ProposalFields :=
  mkProposalFields None None None None None None None None None None None None None None None
    None None None None None None None None None None.

Definition decode_u8 : Value.t -> result N := expect_uint payload_err u8_max.

(** The target of a transition; [Active] cannot be one. *)
Definition decode_target_lifecycle (v : Value.t) : result Lifecycle.t :=
  raw ← decode_u8 v;
  match raw with
  | 1 => Ok Lifecycle.Discouraged
  | 2 => Ok Lifecycle.Deprecated
  | 3 => Ok Lifecycle.Banned
  | _ => Err ApplyError.InvalidLifecycleTransition
  end.

Definition decode_initial_lifecycle (v : Value.t) : result Lifecycle.t :=
  raw ← decode_u8 v;
  match raw with
  | 0 => Ok Lifecycle.Active
  | 1 => Ok Lifecycle.Discouraged
  | _ => Err ApplyError.InvalidInitialLifecycle
  end.

Definition decode_bps (e : ApplyError.t) (v : Value.t) : result N :=
  raw ← decode_u16 v; ensure (raw <=? 10000) e ;; Ok raw.

Definition proposal_field (f : ProposalFields) (key : Z) (v : Value.t) : result ProposalFields :=
  match key with
  | 1%Z => x ← decode_u8 v; Ok (f <| pf_proposal_type := Some x |>)
  | 2%Z => x ← decode_u16 v; Ok (f <| pf_alg_id := Some x |>)
  | 3%Z => x ← decode_target_lifecycle v; Ok (f <| pf_target_lifecycle := Some x |>)
  | 4%Z => x ← decode_u64 v; Ok (f <| pf_new_min_fee := Some x |>)
  | 5%Z | 100%Z | 101%Z | 102%Z => Ok f
  | 6%Z => x ← expect_hash32 v; Ok (f <| pf_rationale_hash := Some x |>)
  | 7%Z => x ← decode_bps ApplyError.BurnRateOutOfRange v;
           Ok (f <| pf_new_burn_rate_bps := Some x |>)
  | 8%Z => x ← decode_u64 v;
           ensure (negb (x =? 0)) ApplyError.BlockGasLimitZero ;;
           Ok (f <| pf_new_block_gas_limit := Some x |>)
  | 9%Z => x ← decode_u64 v; Ok (f <| pf_activate_at_timestamp_ns := Some x |>)
  | 10%Z => x ← decode_u16 v; Ok (f <| pf_expected_version := Some x |>)
  | 11%Z => x ← expect_text payload_err v; Ok (f <| pf_alg_spec_ref := Some x |>)
  | 12%Z => x ← decode_u32 v; Ok (f <| pf_alg_pk_size := Some x |>)
  | 13%Z => x ← decode_u32 v; Ok (f <| pf_alg_sig_size := Some x |>)
  | 14%Z => x ← decode_u8 v; Ok (f <| pf_alg_sig_class := Some x |>)
  | 15%Z => x ← decode_initial_lifecycle v; Ok (f <| pf_alg_initial_lifecycle := Some x |>)
  | 16%Z => x ← decode_u32 v; Ok (f <| pf_alg_benchmark := Some x |>)
  | 30%Z => x ← decode_u8 v; Ok (f <| pf_slash_evidence_type := Some x |>)
  | 31%Z => x ← expect_text payload_err v; Ok (f <| pf_slash_spec_ref := Some x |>)
  | 32%Z => x ← decode_bps ApplyError.InvalidSlashingFraction v;
            Ok (f <| pf_slash_fraction_bps := Some x |>)
  | 33%Z => x ← decode_u64 v; Ok (f <| pf_slash_jail_duration_blocks := Some x |>)
  | 34%Z => x ← decode_u8 v; Ok (f <| pf_slash_tombstone := Some (negb (x =? 0)) |>)
  | 35%Z => x ← decode_initial_lifecycle v; Ok (f <| pf_slash_lifecycle := Some x |>)
  | 40%Z => x ← decode_u8 v; Ok (f <| pf_hash_id := Some x |>)
  | 41%Z => x ← expect_text payload_err v; Ok (f <| pf_hash_spec_ref := Some x |>)
  | 42%Z => x ← decode_u32 v; Ok (f <| pf_hash_output_size_bytes := Some x |>)
  | 43%Z => x ← decode_initial_lifecycle v; Ok (f <| pf_hash_initial_lifecycle := Some x |>)
  | _ => Err payload_err
  end.

Definition size_in_bounds (x : N) : bool := negb (x =? 0) && (x <? ADD_ALG_MAX_KEY_SIZE).

Definition add_algorithm_effect (f : ProposalFields) : result ProposalEffect :=
  id ← missing (pf_alg_id f);
  ensure (negb (id <=? 0x000F)) (ApplyError.ReservedAlgIdRange id) ;;
  spec_ref ← missing (pf_alg_spec_ref f);
  pk_size ← missing (pf_alg_pk_size f);
  sig_size ← missing (pf_alg_sig_size f);
  initial_lifecycle ← missing (pf_alg_initial_lifecycle f);
  ensure (size_in_bounds pk_size && size_in_bounds sig_size) ApplyError.InvalidSize ;;
  Ok (EffAddAlgorithm (mkAddAlgorithmProposal id spec_ref pk_size sig_size (pf_alg_sig_class f)
        (default 0 (pf_new_min_fee f)) (default 0 (pf_alg_benchmark f)) initial_lifecycle)).

Definition add_slashing_verifier_effect (f : ProposalFields) : result ProposalEffect :=
  evidence_type ← missing (pf_slash_evidence_type f);
  ensure (negb ((evidence_type =? 0) || (evidence_type <=? SLASHING_CORE_RESERVED_MAX)))
    (ApplyError.ReservedSlashingEvidenceType evidence_type) ;;
  spec_ref ← missing (pf_slash_spec_ref f);
  fraction ← missing (pf_slash_fraction_bps f);
  lifecycle ← missing (pf_slash_lifecycle f);
  Ok (EffAddSlashingVerifier (mkSlashingVerifierEntry evidence_type spec_ref fraction
        (default 0 (pf_slash_jail_duration_blocks f)) (default false (pf_slash_tombstone f))
        lifecycle)).

Definition add_hash_effect (f : ProposalFields) : result ProposalEffect :=
  hash_byte ← missing (pf_hash_id f);
  ensure (negb ((hash_byte =? HASH_ID_SENTINEL) || (hash_byte <=? HASH_CORE_RESERVED_MAX)))
    (ApplyError.ReservedHashIdRange hash_byte) ;;
  id ← ok_or (HashId_from_u8 hash_byte) (ApplyError.ReservedHashIdRange hash_byte);
  spec_ref ← missing (pf_hash_spec_ref f);
  output_size ← missing (pf_hash_output_size_bytes f);
  initial_lifecycle ← missing (pf_hash_initial_lifecycle f);
  ensure (size_in_bounds output_size) ApplyError.InvalidSize ;;
  Ok (EffAddHash (mkAddHashProposal id spec_ref output_size initial_lifecycle)).

Definition proposal_effect (ty : GovernanceProposalType.t) (f : ProposalFields)
    : result ProposalEffect :=
  match ty with
  | GovernanceProposalType.RegistryUpdate =>
      id ← missing (pf_alg_id f);
      alg ← ok_or (AlgId.from_u16 id) ApplyError.UnsupportedAlgorithm;
      ensure (negb (bool_decide (pf_target_lifecycle f = None)
                    && bool_decide (pf_new_min_fee f = None))) ApplyError.GovernanceNoEffect ;;
      Ok (EffRegistryUpdate alg (pf_target_lifecycle f) (pf_new_min_fee f))
  | GovernanceProposalType.BurnRateUpdate =>
      bps ← missing (pf_new_burn_rate_bps f); Ok (EffBurnRateUpdate bps)
  | GovernanceProposalType.FeeParamUpdate =>
      limit ← missing (pf_new_block_gas_limit f); Ok (EffFeeParamUpdate limit)
  | GovernanceProposalType.SoftwareUpgrade =>
      ts ← missing (pf_activate_at_timestamp_ns f);
      version ← missing (pf_expected_version f);
      Ok (EffSoftwareUpgrade ts version)
  | GovernanceProposalType.AddAlgorithm => add_algorithm_effect f
  | GovernanceProposalType.AddSlashingVerifier => add_slashing_verifier_effect f
  | GovernanceProposalType.AddHash => add_hash_effect f
  | GovernanceProposalType.AddAuthTemplate => Err ApplyError.ProposalOutOfScope
  end.

Record ProposalPayload := mkProposalPayload {
  pp_proposal_type : GovernanceProposalType.t;
  pp_effect : ProposalEffect;
  pp_rationale_hash : bytes
}.

Section decoders.
Context `{Ciborium}.

Definition decode_proposal_payload (payload : bytes) : result ProposalPayload :=
  map ← read_nonempty_map payload;
  f ← decode_fields payload_err proposal_field no_fields map;
  rationale_hash ← missing (pf_rationale_hash f);
  raw ← missing (pf_proposal_type f);
  ty ← ok_or (GovernanceProposalType.from_u8 raw) ApplyError.ProposalOutOfScope;
  effect ← proposal_effect ty f;
  Ok (mkProposalPayload ty effect rationale_hash).

Definition decode_vote_payload (payload : bytes) : result (bytes * bool) :=
  map ← read_nonempty_map payload;
  fields ← decode_fields payload_err (fun '(p, w) key v =>
    match key with
    | 1%Z => x ← expect_hash32 v; Ok (Some x, w)
    | 2%Z => x ← decode_u8 v; Ok (p, Some (x =? 1))
    | _ => Err payload_err
    end) (None, None) map;
  let '(p, w) := fields in
  proposal_id ← missing p; vote ← missing w;
  Ok (proposal_id, vote).
End decoders.

Section governance.
Context `{Ciborium, Shake}.

(** ** Opening a proposal and voting *)

Definition apply_governance_proposal (s : StateStore) (tx : Transaction) : result StateStore :=
  proposal_id ← record_id tx;
  ensure (negb (bool_decide (is_Some (get_pending_proposal s proposal_id))))
    ApplyError.DuplicateProposal ;;
  payload ← decode_proposal_payload (tx_payload tx);
  let voting_deadline := sat_add u64_max (st_block_height s) GOVERNANCE_VOTING_PERIOD in
  let execute_after := sat_add u64_max voting_deadline GOVERNANCE_TIMELOCK in
  Ok (insert_pending_proposal
        (mkPendingProposal proposal_id (pp_proposal_type payload) (tx_sender tx) voting_deadline
           execute_after (pp_effect payload) ∅ ProposalStatus.Voting
           (pp_rationale_hash payload)) s).

Definition apply_governance_vote (s : StateStore) (tx : Transaction) : result StateStore :=
  vote ← decode_vote_payload (tx_payload tx);
  let '(proposal_id, vote_yes) := vote in
  proposal ← ok_or (get_pending_proposal s proposal_id) ApplyError.ProposalNotFound;
  ensure (bool_decide (prop_status proposal = ProposalStatus.Voting))
    ApplyError.ProposalNotVoting ;;
  ensure (st_block_height s <=? prop_voting_deadline proposal) ApplyError.VotingPeriodClosed ;;
  ensure (is_active_validator s (tx_sender tx)) ApplyError.NotAnActiveValidatorForVote ;;
  ensure (negb (bool_decide (is_Some (prop_votes proposal !! tx_sender tx))))
    ApplyError.AlreadyVoted ;;
  let proposal := proposal <| prop_votes := <[tx_sender tx := vote_yes]> (prop_votes proposal) |> in
  Ok (commit_proposal_mutation proposal_id (put_pending_proposal proposal_id proposal s)).

(** ** Executing an effect: [false] when it is skipped *)

Definition valid_transition (before target : Lifecycle.t) : bool :=
  match before, target with
  | Lifecycle.Active, Lifecycle.Discouraged => true
  | Lifecycle.Discouraged, Lifecycle.Deprecated => true
  | Lifecycle.Deprecated, Lifecycle.Banned => true
  | _, _ => false
  end.

Definition execute_registry_update (p : PendingProposal) (alg : AlgId.t)
    (target_lifecycle : option Lifecycle.t) (new_min_fee : option N) (executed_at_height : N)
    (s : StateStore) : StateStore * bool :=
  match alg_entry s alg with
  | None => (s, false)
  | Some entry =>
      if match target_lifecycle with
         | Some target => negb (valid_transition (alg_lifecycle entry) target)
         | None => false
         end then (s, false)
      else
        let entry' := entry <| alg_lifecycle := default (alg_lifecycle entry) target_lifecycle |>
                            <| alg_min_fee := default (alg_min_fee entry) new_min_fee |> in
        let s := commit_alg_entry_mutation alg (put_alg_entry alg entry' s) in
        let receipt :=
          mkGovernanceReceipt (prop_proposal_id p) (prop_proposal_type p) (prop_proposer p) alg
            (alg_lifecycle entry) (alg_lifecycle entry') (alg_min_fee entry) (alg_min_fee entry')
            (prop_rationale_hash p) executed_at_height in
        (insert_governance_receipt receipt s, true)
  end.

Definition initial_lifecycle_ok (l : Lifecycle.t) : bool :=
  match l with Lifecycle.Active | Lifecycle.Discouraged => true | _ => false end.

Definition execute_add_algorithm (p : AddAlgorithmProposal) (s : StateStore) : StateStore * bool :=
  if (aap_alg_id p <=? 0x000F) || alg_entry_registered s (aap_alg_id p)
     || negb (size_in_bounds (aap_pk_size p) && size_in_bounds (aap_sig_size p))
     || negb (initial_lifecycle_ok (aap_initial_lifecycle p))
  then (s, false)
  else match AlgId.from_u16 (aap_alg_id p) with
  | None => (s, false)
  | Some alg =>
      match from_option decode_sig_class (Some None) (aap_sig_class p) with
      | None => (s, false)
      | Some sig_class =>
          (insert_alg_entry
             (mkAlgEntry alg (aap_spec_ref p) (aap_pk_size p) (aap_sig_size p) sig_class
                (aap_min_fee p) (aap_initial_lifecycle p) (aap_benchmark_verify_per_sec p)) s,
           true)
      end
  end.

Definition execute_add_slashing_verifier (p : SlashingVerifierEntry) (s : StateStore)
    : StateStore * bool :=
  if (sv_evidence_type p =? 0) || (sv_evidence_type p <=? SLASHING_CORE_RESERVED_MAX)
     || slashing_verifier_registered s (sv_evidence_type p)
     || negb (sv_slash_fraction_bps p <=? 10000)
     || negb (initial_lifecycle_ok (sv_lifecycle p))
  then (s, false)
  else (insert_slashing_verifier_entry p s, true).

Definition execute_add_hash (p : AddHashProposal) (s : StateStore) : StateStore * bool :=
  if (ahp_hash_id p =? HASH_ID_SENTINEL) || (ahp_hash_id p <=? HASH_CORE_RESERVED_MAX)
     || hash_registered s (ahp_hash_id p) || negb (size_in_bounds (ahp_output_size_bytes p))
     || negb (initial_lifecycle_ok (ahp_initial_lifecycle p))
  then (s, false)
  else (insert_hash_entry
          (mkHashEntry (ahp_hash_id p) (ahp_spec_ref p) (ahp_output_size_bytes p)
             (ahp_initial_lifecycle p)) s, true).

Definition execute_add_auth_template (p : AddAuthTemplateProposal) (s : StateStore)
    : StateStore * bool :=
  if (aat_template_id p =? 0) || (aat_template_id p <=? VERIFIER_TEMPLATE_CORE_RESERVED_MAX)
     || (aat_template_id p <? VERIFIER_TEMPLATE_GOV_MIN)
     || negb (initial_lifecycle_ok (aat_lifecycle p))
  then (s, false) else (s, true).

Definition execute_effect (p : PendingProposal) (current_height : N) (s : StateStore)
    : StateStore * bool :=
  match prop_effect p with
  | EffRegistryUpdate alg target_lifecycle new_min_fee =>
      execute_registry_update p alg target_lifecycle new_min_fee current_height s
  | EffBurnRateUpdate bps =>
      (recompute_fee_market_leaf_hash
         (put_fee_market ((st_fee_market s) <| fm_burn_rate_bps := bps |>) s), true)
  | EffFeeParamUpdate limit =>
      (recompute_fee_market_leaf_hash
         (put_fee_market ((st_fee_market s) <| fm_compute ::= set fm_limit (fun _ => limit) |>) s),
       true)
  | EffSoftwareUpgrade ts version =>
      (insert_pending_upgrade (mkPendingUpgrade (prop_proposal_id p) ts version) s, true)
  | EffAddAlgorithm q => execute_add_algorithm q s
  | EffAddSlashingVerifier q => execute_add_slashing_verifier q s
  | EffAddHash q => execute_add_hash q s
  | EffAddAuthTemplate q => execute_add_auth_template q s
  end.

(** ** Tallies *)

Definition count_votes (choice : bool) (p : PendingProposal) : N :=
  len (filter (fun v => v = choice) (map_to_list (prop_votes p)).*2).

Definition proposal_passes (s : StateStore) (p : PendingProposal) : bool :=
  (quorum_required (active_validator_count s) <=? count_votes true p + count_votes false p)
  && (count_votes false p <? count_votes true p).

Definition set_proposal_status (id : TxHash) (st : ProposalStatus.t) (s : StateStore)
    : StateStore :=
  match get_pending_proposal s id with
  | Some p => put_pending_proposal id (p <| prop_status := st |>) s
  | None => s
  end.

Definition tally_one (id : TxHash) (current_height : N) (s : StateStore) : StateStore :=
  match get_pending_proposal s id with
  | None => s
  | Some p =>
      let required := quorum_required (active_validator_count s) in
      let total_cast := count_votes true p + count_votes false p in
      let s :=
        if proposal_passes s p then
          let '(s, effect_applied) := execute_effect p current_height s in
          set_proposal_status id
            (if effect_applied then ProposalStatus.Executed else ProposalStatus.ExecutionFailed) s
        else
          set_proposal_status id
            (if required <=? total_cast then ProposalStatus.Rejected else ProposalStatus.Expired) s in
      commit_proposal_mutation id s
  end.

Definition due_proposals (s : StateStore) (current_height : N) : list TxHash :=
  prop_proposal_id <$>
    filter (fun p => prop_status p = ProposalStatus.Voting /\ prop_voting_deadline p < current_height)
      (pending_proposals_in_order s).

Definition process_governance_tallies (current_height : N) (s : StateStore) : StateStore :=
  foldl (fun s id => tally_one id current_height s) s (due_proposals s current_height).

(** ** Scheduled upgrades *)

(** Satisfied upgrades are removed one by one; the removals before a mismatch
    stay. *)
Fixpoint check_upgrades (compiled_version : N) (due : list PendingUpgrade) (s : StateStore)
    : StateStore * result unit :=
  match due with
  | [] => (s, Ok tt)
  | u :: rest =>
      if compiled_version =? upg_expected_version u
      then check_upgrades compiled_version rest (remove_pending_upgrade (upg_proposal_id u) s)
      else (s, Err (ApplyError.SoftwareUpgradeVersionMismatch (upg_activate_at_timestamp_ns u)
                      (upg_expected_version u) compiled_version))
  end.

Definition check_pending_upgrades (current_timestamp_ns compiled_version : N) (s : StateStore)
    : StateStore * result unit :=
  check_upgrades compiled_version
    (filter (fun u => upg_activate_at_timestamp_ns u <= current_timestamp_ns)
       (pending_upgrades_in_order s)) s.
End governance.
