(* ===== verification/Archival.v ===== *)
(** * The archival overlay.

    [pqc-types/src/archival.rs]: the strict CBOR codecs of archival records,
    anchors and keys.  [pqc-state/src/apply/archival.rs]: registering an archival
    key, submitting an epoch's record under a threshold of SLH-DSA signatures,
    adding anchors and renewing. *)

From S2P Require Import Prelude Crypto Types Cbor Payloads Tx FeeMarket Leaves Store StoreInv.

Definition SLH_DSA_SHAKE_256S_PK_LEN : N := 64.
Definition ARCHIVAL_PK_SIZE : N := SLH_DSA_SHAKE_256S_PK_LEN.
Definition TIMESTAMP_ANCHOR_EXTERNAL_HASH_MAX_LEN : N := 16384.
Definition ARCHIVAL_ANCHOR_MAX_LEN : N := TIMESTAMP_ANCHOR_EXTERNAL_HASH_MAX_LEN.
Definition ARCHIVAL_ALG_ID_SLH_DSA_SHAKE_256S : N := 0x0023.
Definition ARCHIVAL_SIG_DOMAIN : bytes := bstr "VIPER-ARCHIVAL-SIG-V1".

(** ** The strict codecs *)

Module ArchivalDecodeError.
Inductive t : Set :=
  | CborMalformed
  | ExpectedMap
  | ExpectedBytes
  | ExpectedText
  | ExpectedArray
  | ExpectedInteger
  | IntegerOutOfRange
  | InvalidByteLength (field : Z) (expected actual : N)
  | MissingField (k : Z)
  | UnknownKey (k : Z)
  | DuplicateKey (k : Z)
  | UnknownAnchorKind (v : N)
  | SignersUnsorted
  | SignerSignatureCountMismatch (signers sigs : N)
  | AnchorTsaRefInconsistent
  | ExternalHashTooLarge (n : N).
End ArchivalDecodeError.

Abbreviation aresult := (outcome ArchivalDecodeError.t).

Definition cbor_key_i128 (v : Value.t) : aresult Z :=
  int_key ArchivalDecodeError.ExpectedInteger v.

Definition cbor_uint (max : N) (v : Value.t) : aresult N :=
  match v with
  | Value.Integer z => ok_or (try_from_Z max z) ArchivalDecodeError.IntegerOutOfRange
  | _ => Err ArchivalDecodeError.ExpectedInteger
  end.

Definition cbor_bytes (v : Value.t) : aresult bytes :=
  expect_bytes ArchivalDecodeError.ExpectedBytes v.

Definition cbor_bytes_fixed (v : Value.t) (expected : N) (field_key : Z) : aresult bytes :=
  b ← cbor_bytes v;
  ensure (len b =? expected)
    (ArchivalDecodeError.InvalidByteLength field_key expected (len b)) ;;
  Ok b.

Definition cbor_text (v : Value.t) : aresult bytes :=
  expect_text ArchivalDecodeError.ExpectedText v.
Definition cbor_array (v : Value.t) : aresult (list Value.t) :=
  expect_array ArchivalDecodeError.ExpectedArray v.

(** The loop over a map with a set of seen keys. *)
Definition strict_field {A} (field : A -> Z -> Value.t -> aresult A) (st : A * list Z)
    (kv : Value.t * Value.t) : aresult (A * list Z) :=
  let '(acc, seen) := st in
  key ← cbor_key_i128 kv.1;
  ensure (negb (bool_decide (key ∈ seen))) (ArchivalDecodeError.DuplicateKey key) ;;
  acc ← field acc key kv.2;
  Ok (acc, key :: seen).

Definition strict_fields {A} (field : A -> Z -> Value.t -> aresult A) (init : A)
    (value : Value.t) : aresult A :=
  map ← expect_map ArchivalDecodeError.ExpectedMap value;
  r ← foldM (strict_field field) (init, []) map;
  Ok r.1.

Abbreviation required o k := (ok_or o (ArchivalDecodeError.MissingField k)).

(** [for item in arr { out.push(f(item)?) }] *)
Definition decode_items {A} (f : Value.t -> aresult A) (l : list Value.t) : aresult (list A) :=
  foldM (fun out item => x ← f item; Ok (out ++ [x])) [] l.

Definition tsa_ref_to_cbor_value (t : TsaRef) : Value.t :=
  Value.Map ([ (Value_uint 1, Value.Text (tsa_url t));
               (Value_uint 2, Value.Bytes (tsa_cert_fingerprint_sha256 t)) ]
    ++ match tsa_policy_oid t with
       | Some oid => [ (Value_uint 3, Value.Text oid) ]
       | None => []
       end).

Definition tsa_ref_from_cbor_value (value : Value.t) : aresult TsaRef :=
  fields ← strict_fields (fun '(u, c, p) key v =>
    match key with
    | 1%Z => x ← cbor_text v; Ok (Some x, c, p)
    | 2%Z => x ← cbor_bytes_fixed v 32 2; Ok (u, Some x, p)
    | 3%Z => x ← cbor_text v; Ok (u, c, Some x)
    | _ => Err (ArchivalDecodeError.UnknownKey key)
    end) (None, None, None) value;
  let '(u, c, p) := fields in
  url ← required u 1; cert_fp ← required c 2;
  Ok (mkTsaRef url cert_fp p).

Definition timestamp_anchor_to_cbor_value (a : TimestampAnchor) : Value.t :=
  Value.Map ([ (Value_uint 1, Value_uint (AnchorKind.as_u8 (anc_kind a))) ]
    ++ match anc_tsa_ref a with
       | Some tsa => [ (Value_uint 2, tsa_ref_to_cbor_value tsa) ]
       | None => []
       end
    ++ [ (Value_uint 3, Value.Bytes (anc_external_hash a));
         (Value_uint 4, Value_uint (anc_posted_at_height a)) ]).

(** [tsa_ref] is present exactly for an RFC 3161 anchor. *)
Definition tsa_ref_consistent (k : AnchorKind.t) (t : option TsaRef) : bool :=
  match k, t with
  | AnchorKind.Rfc3161Tsa, Some _ => true
  | AnchorKind.Rfc3161Tsa, None => false
  | _, Some _ => false
  | _, None => true
  end.

Definition timestamp_anchor_from_cbor_value (value : Value.t) : aresult TimestampAnchor :=
  fields ← strict_fields (fun '(k, t, e, p) key v =>
    match key with
    | 1%Z =>
        raw ← cbor_uint u8_max v;
        x ← ok_or (AnchorKind.from_u8 raw) (ArchivalDecodeError.UnknownAnchorKind raw);
        Ok (Some x, t, e, p)
    | 2%Z => x ← tsa_ref_from_cbor_value v; Ok (k, Some x, e, p)
    | 3%Z =>
        x ← cbor_bytes v;
        ensure (len x <=? TIMESTAMP_ANCHOR_EXTERNAL_HASH_MAX_LEN)
          (ArchivalDecodeError.ExternalHashTooLarge (len x)) ;;
        Ok (k, t, Some x, p)
    | 4%Z => x ← cbor_uint u64_max v; Ok (k, t, e, Some x)
    | _ => Err (ArchivalDecodeError.UnknownKey key)
    end) (None, None, None, None) value;
  let '(k, t, e, p) := fields in
  kind ← required k 1; external_hash ← required e 3; posted_at_height ← required p 4;
  ensure (tsa_ref_consistent kind t) ArchivalDecodeError.AnchorTsaRefInconsistent ;;
  Ok (mkTimestampAnchor kind t external_hash posted_at_height).

Definition validator_archival_key_to_cbor_value (k : ValidatorArchivalKey) : Value.t :=
  Value.Map [ (Value_uint 1, Value.Bytes (vak_operator k));
              (Value_uint 2, Value_uint (vak_archival_alg_id k));
              (Value_uint 3, Value.Bytes (vak_archival_pk k));
              (Value_uint 4, Value_uint (vak_registered_at_height k)) ].

Definition validator_archival_key_from_cbor_value (value : Value.t)
    : aresult ValidatorArchivalKey :=
  fields ← strict_fields (fun '(o, a, p, r) key v =>
    match key with
    | 1%Z => x ← cbor_bytes_fixed v 32 1; Ok (Some x, a, p, r)
    | 2%Z => x ← cbor_uint u16_max v; Ok (o, Some x, p, r)
    | 3%Z => x ← cbor_bytes v; Ok (o, a, Some x, r)
    | 4%Z => x ← cbor_uint u64_max v; Ok (o, a, p, Some x)
    | _ => Err (ArchivalDecodeError.UnknownKey key)
    end) (None, None, None, None) value;
  let '(o, a, p, r) := fields in
  operator ← required o 1; alg ← required a 2; pk ← required p 3; registered_at ← required r 4;
  Ok (mkValidatorArchivalKey operator alg pk registered_at).

Definition archival_record_value (r : ArchivalRecord) : Value.t :=
  Value.Map [ (Value_uint 1, Value_uint (ar_epoch_number r));
              (Value_uint 2, Value.Bytes (ar_epoch_root r));
              (Value_uint 3, Value.Array (Value.Bytes <$> ar_signer_addresses r));
              (Value_uint 4, Value.Array (Value.Bytes <$> ar_slh_signatures r));
              (Value_uint 5, Value.Array (timestamp_anchor_to_cbor_value
                                            <$> ar_timestamp_anchors r));
              (Value_uint 6, Value_uint (ar_evidence_record_version r)) ].

(** [signer_addresses.windows(2)] strictly ascending. *)
Fixpoint strictly_ascending (l : list bytes) : bool :=
  match l with
  | a :: (b :: _) as l' => bytes_leb a b && negb (bool_decide (a = b)) && strictly_ascending l'
  | _ => true
  end.

Section codecs.
Context `{Ciborium}.

Definition archival_record_from_value (value : Value.t) : aresult ArchivalRecord :=
  fields ← strict_fields (fun '(n, r, a, s, t, w) key v =>
    match key with
    | 1%Z => x ← cbor_uint u64_max v; Ok (Some x, r, a, s, t, w)
    | 2%Z => x ← cbor_bytes_fixed v 32 2; Ok (n, Some x, a, s, t, w)
    | 3%Z =>
        arr ← cbor_array v;
        x ← decode_items (fun item => cbor_bytes_fixed item 32 3) arr;
        Ok (n, r, Some x, s, t, w)
    | 4%Z => arr ← cbor_array v; x ← decode_items cbor_bytes arr; Ok (n, r, a, Some x, t, w)
    | 5%Z =>
        arr ← cbor_array v;
        x ← decode_items timestamp_anchor_from_cbor_value arr;
        Ok (n, r, a, s, Some x, w)
    | 6%Z => x ← cbor_uint u16_max v; Ok (n, r, a, s, t, Some x)
    | _ => Err (ArchivalDecodeError.UnknownKey key)
    end) (None, None, None, None, None, None) value;
  let '(n, r, a, s, t, w) := fields in
  epoch_number ← required n 1; epoch_root ← required r 2; signers ← required a 3;
  sigs ← required s 4; anchors ← required t 5; version ← required w 6;
  ensure (len signers =? len sigs)
    (ArchivalDecodeError.SignerSignatureCountMismatch (len signers) (len sigs)) ;;
  ensure (strictly_ascending signers) ArchivalDecodeError.SignersUnsorted ;;
  Ok (mkArchivalRecord epoch_number epoch_root signers sigs anchors version).

Definition from_bytes {A} (f : Value.t -> aresult A) (b : bytes) : aresult A :=
  value ← ok_or (from_reader b) ArchivalDecodeError.CborMalformed; f value.

Definition encode_tsa_ref (t : TsaRef) : bytes := into_writer (tsa_ref_to_cbor_value t).
Definition decode_tsa_ref : bytes -> aresult TsaRef := from_bytes tsa_ref_from_cbor_value.
Definition encode_timestamp_anchor (a : TimestampAnchor) : bytes :=
  into_writer (timestamp_anchor_to_cbor_value a).
Definition decode_timestamp_anchor : bytes -> aresult TimestampAnchor :=
  from_bytes timestamp_anchor_from_cbor_value.
Definition encode_validator_archival_key (k : ValidatorArchivalKey) : bytes :=
  into_writer (validator_archival_key_to_cbor_value k).
Definition decode_validator_archival_key : bytes -> aresult ValidatorArchivalKey :=
  from_bytes validator_archival_key_from_cbor_value.
Definition encode_archival_record (r : ArchivalRecord) : bytes :=
  into_writer (archival_record_value r).
Definition decode_archival_record : bytes -> aresult ArchivalRecord :=
  from_bytes archival_record_from_value.
End codecs.

(** ** The transaction payloads: unknown keys are skipped *)

Record ArchivalRecordSubmitPayload := mkArchivalRecordSubmitPayload {
  ars_epoch_number : N;
  ars_first_height : N;
  ars_last_height : N;
  ars_epoch_root : bytes;
  ars_slh_sig_set : list (Address * bytes)
}.

Record ArchivalRecordAddAnchorPayload := mkArchivalRecordAddAnchorPayload {
  ara_epoch_number : N;
  ara_anchor_kind : N;
  ara_tst_bytes : bytes;
  ara_external_hash : bytes;
  ara_created_at : N
}.

(** One [[addr, sig]] entry of [slh_sig_set]. *)
Definition decode_sig_entry (item : Value.t) : result (Address * bytes) :=
  pair ← expect_array payload_err item;
  match pair with
  | [a; s] =>
      addr ← expect_bytes_n payload_err payload_err 32 a;
      sig ← expect_bytes payload_err s;
      Ok (addr, sig)
  | _ => Err payload_err
  end.

Section payload_codecs.
Context `{Ciborium}.

Definition decode_register_archival_key_payload (payload : bytes) : result (N * bytes) :=
  map ← read_map payload;
  fields ← foldM (fun '(a, p) '(k, v) =>
    match k with
    | Value.Integer 1%Z => x ← decode_u16 v; Ok (Some x, p)
    | Value.Integer 2%Z => x ← expect_bytes payload_err v; Ok (a, Some x)
    | _ => Ok (a, p)
    end) (None, None) map;
  let '(a, p) := fields in
  alg_id ← missing a; pk ← missing p;
  Ok (alg_id, pk).

Definition decode_archival_record_submit_payload (payload : bytes)
    : result ArchivalRecordSubmitPayload :=
  map ← read_map payload;
  fields ← foldM (fun '(n, f, l, r, g) '(k, v) =>
    match k with
    | Value.Integer 1%Z => x ← decode_u64 v; Ok (Some x, f, l, r, g)
    | Value.Integer 2%Z => x ← decode_u64 v; Ok (n, Some x, l, r, g)
    | Value.Integer 3%Z => x ← decode_u64 v; Ok (n, f, Some x, r, g)
    | Value.Integer 4%Z =>
        x ← expect_bytes_n payload_err payload_err 32 v; Ok (n, f, l, Some x, g)
    | Value.Integer 5%Z =>
        arr ← expect_array payload_err v;
        x ← foldM (fun out item => e ← decode_sig_entry item; Ok (out ++ [e])) [] arr;
        Ok (n, f, l, r, Some x)
    | _ => Ok (n, f, l, r, g)
    end) (None, None, None, None, None) map;
  let '(n, f, l, r, g) := fields in
  epoch_number ← missing n; first_height ← missing f; last_height ← missing l;
  epoch_root ← missing r; slh_sig_set ← missing g;
  Ok (mkArchivalRecordSubmitPayload epoch_number first_height last_height epoch_root slh_sig_set).

Definition decode_archival_record_add_anchor_payload (payload : bytes)
    : result ArchivalRecordAddAnchorPayload :=
  map ← read_map payload;
  fields ← foldM (fun '(n, a, t, e, c) '(k, v) =>
    match k with
    | Value.Integer 1%Z => x ← decode_u64 v; Ok (Some x, a, t, e, c)
    | Value.Integer 2%Z => x ← expect_uint payload_err u8_max v; Ok (n, Some x, t, e, c)
    | Value.Integer 3%Z => x ← expect_bytes payload_err v; Ok (n, a, Some x, e, c)
    | Value.Integer 4%Z => x ← expect_bytes payload_err v; Ok (n, a, t, Some x, c)
    | Value.Integer 5%Z => x ← decode_u64 v; Ok (n, a, t, e, Some x)
    | _ => Ok (n, a, t, e, c)
    end) (None, None, None, None, None) map;
  let '(n, a, t, e, c) := fields in
  epoch_number ← missing n; anchor_kind ← missing a; tst_bytes ← missing t;
  external_hash ← missing e;
  Ok (mkArchivalRecordAddAnchorPayload epoch_number anchor_kind tst_bytes external_hash
        (default 0 c)).

Definition decode_archival_record_renew_payload (payload : bytes) : result (N * bytes) :=
  map ← read_map payload;
  fields ← foldM (fun '(n, h) '(k, v) =>
    match k with
    | Value.Integer 1%Z => x ← decode_u64 v; Ok (Some x, h)
    | Value.Integer 2%Z => x ← expect_bytes_n payload_err payload_err 32 v; Ok (n, Some x)
    | _ => Ok (n, h)
    end) (None, None) map;
  let '(n, h) := fields in
  epoch_number ← missing n; ers_bundle_hash ← missing h;
  Ok (epoch_number, ers_bundle_hash).

Definition encode_register_archival_key_payload (archival_alg_id : N) (archival_pk : bytes)
    : bytes :=
  into_writer (Value.Map [ (Value_uint 1, Value_uint archival_alg_id);
                           (Value_uint 2, Value.Bytes archival_pk) ]).

Definition submit_payload_value (p : ArchivalRecordSubmitPayload) : Value.t :=
  Value.Map
    [ (Value_uint 1, Value_uint (ars_epoch_number p));
      (Value_uint 2, Value_uint (ars_first_height p));
      (Value_uint 3, Value_uint (ars_last_height p));
      (Value_uint 4, Value.Bytes (ars_epoch_root p));
      (Value_uint 5, Value.Array ((fun '(addr, sig) =>
         Value.Array [Value.Bytes addr; Value.Bytes sig]) <$> ars_slh_sig_set p)) ].

Definition encode_archival_record_submit_payload (p : ArchivalRecordSubmitPayload) : bytes :=
  into_writer (submit_payload_value p).

Definition encode_archival_record_add_anchor_payload (p : ArchivalRecordAddAnchorPayload)
    : bytes :=
  into_writer (Value.Map
    [ (Value_uint 1, Value_uint (ara_epoch_number p));
      (Value_uint 2, Value_uint (ara_anchor_kind p));
      (Value_uint 3, Value.Bytes (ara_tst_bytes p));
      (Value_uint 4, Value.Bytes (ara_external_hash p));
      (Value_uint 5, Value_uint (ara_created_at p)) ]).

Definition encode_archival_record_renew_payload (epoch_number : N) (ers_bundle_hash : bytes)
    : bytes :=
  into_writer (Value.Map [ (Value_uint 1, Value_uint epoch_number);
                           (Value_uint 2, Value.Bytes ers_bundle_hash) ]).
End payload_codecs.

(** ** The operations *)

Definition current_epoch_number (current_block_height : N) : N :=
  current_block_height / VALIDATOR_EPOCH_DURATION_DEVNET.

(** [sort_by] on the address, then [dedup_by]: the first of equal addresses
    stays. *)
Fixpoint dedup_by_address (l : list (Address * bytes)) : list (Address * bytes) :=
  match l with
  | [] => []
  | x :: l' =>
      match dedup_by_address l' with
      | y :: rest => if bool_decide (x.1 = y.1) then x :: rest else x :: y :: rest
      | [] => [x]
      end
  end.

Definition sort_sig_set (l : list (Address * bytes)) : list (Address * bytes) :=
  dedup_by_address (merge_sort (le_key bytes_le) l).

Section archival_ops.
Context `{Ciborium, Shake, Verifier}.

Definition archival_sig_preimage (fork_digest : bytes) (epoch_number : N) (epoch_root : bytes)
    : bytes :=
  tagged_hash ARCHIVAL_SIG_DOMAIN (fork_digest ++ be_bytes 8 epoch_number ++ epoch_root).

Definition apply_validator_register_archival_key (s : StateStore) (tx : Transaction)
    : result StateStore :=
  payload ← decode_register_archival_key_payload (tx_payload tx);
  let '(alg_raw, pk) := payload in
  alg ← ok_or (AlgId.from_u16 alg_raw) ApplyError.ArchivalAlgorithmNotAllowed;
  ensure (bool_decide (alg = AlgId.SlhDsaShake256s)) ApplyError.ArchivalAlgorithmNotAllowed ;;
  ensure (len pk =? ARCHIVAL_PK_SIZE) ApplyError.ArchivalInvalidPkSize ;;
  v ← ok_or (get_validator s (tx_sender tx)) ApplyError.ArchivalValidatorNotEligible;
  ensure (bool_decide (val_status v = ValidatorStatus.Active)
          || bool_decide (val_status v = ValidatorStatus.Candidate))
    ApplyError.ArchivalValidatorNotEligible ;;
  Ok (insert_archival_key
        (mkValidatorArchivalKey (tx_sender tx) alg_raw pk (st_block_height s)) s).

(** One round of the verification loop. *)
Definition verify_archival_entry (s : StateStore) (preimage : bytes) (e : Address * bytes)
    : result unit :=
  key ← ok_or (get_archival_key s e.1) ApplyError.ArchivalMissingKey;
  alg ← ok_or (AlgId.from_u16 (vak_archival_alg_id key)) ApplyError.ArchivalAlgorithmNotAllowed;
  ensure (verify alg (vak_archival_pk key) preimage e.2) ApplyError.ArchivalSignatureInvalid.

Definition apply_archival_record_submit (s : StateStore) (tx : Transaction)
    (current_block_height : N) : result StateStore :=
  payload ← decode_archival_record_submit_payload (tx_payload tx);
  let sig_set := ars_slh_sig_set payload in
  ensure (ars_epoch_number payload <=? current_epoch_number current_block_height)
    ApplyError.ArchivalEpochInFuture ;;
  ensure (negb (bool_decide (is_Some (get_archival_record s (ars_epoch_number payload)))))
    ApplyError.DuplicateArchivalRecord ;;
  let m := (archival_threshold s).1 in
  ensure (m <=? N.of_nat (size (list_to_set sig_set.*1 : gset bytes)))
    ApplyError.ArchivalThresholdNotMet ;;
  foldM (fun _ e => ensure (is_archival_signer s e.1) ApplyError.ArchivalSignerNotAuthorized)
    tt sig_set ;;
  let preimage := archival_sig_preimage viper_research_1 (ars_epoch_number payload)
                    (ars_epoch_root payload) in
  verified ← foldM (fun n e => verify_archival_entry s preimage e ;; Ok (sat_add u32_max n 1))
               0 sig_set;
  ensure (m <=? verified) ApplyError.ArchivalThresholdNotMet ;;
  let sorted := sort_sig_set sig_set in
  Ok (insert_archival_record
        (mkArchivalRecord (ars_epoch_number payload) (ars_epoch_root payload) sorted.*1 sorted.*2
           [] 0) s).

Definition apply_archival_record_add_anchor (s : StateStore) (tx : Transaction)
    (current_block_height : N) : result StateStore :=
  payload ← decode_archival_record_add_anchor_payload (tx_payload tx);
  kind ← ok_or (AnchorKind.from_u8 (ara_anchor_kind payload))
           ApplyError.ArchivalUnknownAnchorKind;
  ensure (negb ((ARCHIVAL_ANCHOR_MAX_LEN <? len (ara_external_hash payload))
                || (ARCHIVAL_ANCHOR_MAX_LEN <? len (ara_tst_bytes payload))))
    ApplyError.ArchivalAnchorTooLarge ;;
  ensure (bool_decide (is_Some (get_archival_record s (ara_epoch_number payload))))
    ApplyError.ArchivalRecordNotFound ;;
  Ok (push_archival_anchor (ara_epoch_number payload)
        (mkTimestampAnchor kind None (ara_external_hash payload) current_block_height) s).

Definition apply_archival_record_renew (s : StateStore) (tx : Transaction)
    (current_block_height : N) : result StateStore :=
  payload ← decode_archival_record_renew_payload (tx_payload tx);
  let '(epoch_number, ers_bundle_hash) := payload in
  ensure (negb (negb (is_active_validator s (tx_sender tx))
                && negb (is_archival_renewer s (tx_sender tx)))) ApplyError.ArchivalNotRenewer ;;
  ensure (bool_decide (is_Some (get_archival_record s epoch_number)))
    ApplyError.ArchivalRecordNotFound ;;
  Ok (increment_archival_record_version epoch_number ers_bundle_hash current_block_height s).
End archival_ops.
