(* ===== verification/ApplyTx.v ===== *)
(** * Applying a transaction: [pqc-state/src/apply.rs] and [gas_schedule.rs].

    Dispatch on the message type, the out-of-gas path, settlement of the sender
    and the distribution of a block's fees.  The handlers read the block height
    from the store they are given. *)

From S2P Require Import Prelude Crypto Types Cbor Payloads Tx FeeMarket Leaves Store StoreInv.
From S2P Require Import ApplyAccounts ApplyValidators Governance Archival.

(** ** [gas_schedule.rs] *)

Definition GAS_TOKEN_TRANSFER : N := 5.
Definition GAS_VAULT_CREATE : N := 10.
Definition GAS_VAULT_POLICY_UPDATE : N := 6.
Definition GAS_ATTESTATION_CREATE : N := 8.
Definition GAS_PROOF_ANCHOR : N := 7.
Definition GAS_ATTESTATION_REVOKE : N := 6.
Definition GAS_KEY_ADD : N := 12.
Definition GAS_KEY_ROTATE : N := 15.
Definition GAS_KEY_REVOKE : N := 10.
Definition GAS_GOVERNANCE_PROPOSAL : N := 18.
Definition GAS_CONSENSUS_KEY_ROTATE : N := 15.
Definition GAS_VALIDATOR_REGISTER : N := 20.
Definition GAS_VALIDATOR_EXIT : N := 10.
Definition GAS_VALIDATOR_UNJAIL : N := 10.
Definition GAS_VALIDATOR_ROTATE_PEER_ID : N := 10.
Definition GAS_SUBMIT_EQUIVOCATION_EVIDENCE : N := 30.
Definition GAS_GOVERNANCE_VOTE : N := 5.
Definition GAS_VALIDATOR_REGISTER_ARCHIVAL_KEY : N := 15.
Definition GAS_ARCHIVAL_RECORD_SUBMIT : N := 50.
Definition GAS_ARCHIVAL_RECORD_ADD_ANCHOR : N := 8.
Definition GAS_ARCHIVAL_RECORD_RENEW : N := 12.

(** Every branch of the source returns [Ok]. *)
Definition scheduled_gas_for_msg_type (m : MsgType.t) : N :=
  match m with
  | MsgType.TokenTransfer => GAS_TOKEN_TRANSFER
  | MsgType.VaultCreate => GAS_VAULT_CREATE
  | MsgType.VaultPolicyUpdate => GAS_VAULT_POLICY_UPDATE
  | MsgType.AttestationCreate => GAS_ATTESTATION_CREATE
  | MsgType.AttestationRevoke => GAS_ATTESTATION_REVOKE
  | MsgType.ProofAnchor => GAS_PROOF_ANCHOR
  | MsgType.KeyAdd => GAS_KEY_ADD
  | MsgType.KeyRotate => GAS_KEY_ROTATE
  | MsgType.KeyRevoke => GAS_KEY_REVOKE
  | MsgType.GovernanceProposal => GAS_GOVERNANCE_PROPOSAL
  | MsgType.ConsensusKeyRotate => GAS_CONSENSUS_KEY_ROTATE
  | MsgType.ValidatorRegister => GAS_VALIDATOR_REGISTER
  | MsgType.ValidatorExit => GAS_VALIDATOR_EXIT
  | MsgType.ValidatorUnjail => GAS_VALIDATOR_UNJAIL
  | MsgType.ValidatorRotatePeerId => GAS_VALIDATOR_ROTATE_PEER_ID
  | MsgType.SubmitEquivocationEvidence => GAS_SUBMIT_EQUIVOCATION_EVIDENCE
  | MsgType.GovernanceVote => GAS_GOVERNANCE_VOTE
  | MsgType.ValidatorRegisterArchivalKey => GAS_VALIDATOR_REGISTER_ARCHIVAL_KEY
  | MsgType.ArchivalRecordSubmit => GAS_ARCHIVAL_RECORD_SUBMIT
  | MsgType.ArchivalRecordAddAnchor => GAS_ARCHIVAL_RECORD_ADD_ANCHOR
  | MsgType.ArchivalRecordRenew => GAS_ARCHIVAL_RECORD_RENEW
  end.

Definition scheduled_gas_for_tx (tx : Transaction) : N :=
  scheduled_gas_for_msg_type (tx_msg_type tx).

(** ** [apply.rs] *)

Record FeeDistributionParams := mkFeeDistributionParams { proposer_share_bps : N }.

Definition FeeDistributionParams_default : FeeDistributionParams := mkFeeDistributionParams 5000.

Module ExecutionStatus.
Inductive t : Set := Applied | RevertedOutOfGas.
End ExecutionStatus.

Record ExecutionContext := mkExecutionContext {
  ec_tx_bytes_len : N;
  ec_fee_params : FeeParams
}.

Record ExecutionResult := mkExecutionResult {
  er_status : ExecutionStatus.t;
  er_gas_used : N;
  er_fee_charged : N;
  er_fee_refund : N
}.

Section apply_tx.
Context `{Ciborium, Shake, Verifier}.

Definition apply_payload (s : StateStore) (tx : Transaction) : result StateStore :=
  match tx_msg_type tx with
  | MsgType.VaultCreate => apply_vault_create s tx
  | MsgType.VaultPolicyUpdate => apply_vault_policy_update s tx
  | MsgType.AttestationCreate => apply_attestation_create s tx
  | MsgType.AttestationRevoke => apply_attestation_revoke s tx
  | MsgType.ProofAnchor => apply_proof_anchor s tx
  | MsgType.TokenTransfer => apply_token_transfer s tx
  | MsgType.KeyAdd => apply_key_add s tx
  | MsgType.KeyRotate => apply_key_rotate s tx
  | MsgType.KeyRevoke => apply_key_revoke s tx
  | MsgType.GovernanceProposal => apply_governance_proposal s tx
  | MsgType.GovernanceVote => apply_governance_vote s tx
  | MsgType.ConsensusKeyRotate => apply_consensus_key_rotate s tx
  | MsgType.ValidatorRegister => apply_validator_register s tx
  | MsgType.ValidatorExit => apply_validator_exit s tx
  | MsgType.ValidatorUnjail => apply_validator_unjail s tx
  | MsgType.ValidatorRotatePeerId => apply_validator_rotate_peer_id s tx
  | MsgType.SubmitEquivocationEvidence =>
      apply_submit_equivocation_evidence s (tx_payload tx) (st_block_height s)
  | MsgType.ValidatorRegisterArchivalKey => apply_validator_register_archival_key s tx
  | MsgType.ArchivalRecordSubmit => apply_archival_record_submit s tx (st_block_height s)
  | MsgType.ArchivalRecordAddAnchor => apply_archival_record_add_anchor s tx (st_block_height s)
  | MsgType.ArchivalRecordRenew => apply_archival_record_renew s tx (st_block_height s)
  end.

Definition settle_sender (s : StateStore) (tx : Transaction) (fee_charged : N)
    : result StateStore :=
  let total_debit := sat_add u128_max fee_charged (tx_fee_tip tx) in
  sender ← ok_or (get_account s (tx_sender tx)) ApplyError.InsufficientFunds;
  ensure (total_debit <=? acc_balance sender) ApplyError.InsufficientFunds ;;
  balance ← sub_checked (acc_balance sender) total_debit;
  nonce ← add_checked u64_max (acc_nonce sender) 1;
  Ok (commit_account_mutation (tx_sender tx)
        (put_account (tx_sender tx)
           (sender <| acc_balance := balance |> <| acc_nonce := nonce |>) s)).

(** The fee of a transaction that ran, at the fee parameters of its context. *)
Definition execution_fee (s : StateStore) (tx : Transaction) (exec_ctx : ExecutionContext) : N :=
  fee_total (actual_fee_breakdown tx (ec_tx_bytes_len exec_ctx) (scheduled_gas_for_tx tx)
    (ec_fee_params exec_ctx) (default 0 (store_alg_min_fee s (tx_sig_alg_id tx)))).

Definition apply_tx (s : StateStore) (tx : Transaction) (exec_ctx : ExecutionContext)
    : result (StateStore * ExecutionResult) :=
  let scheduled_gas := scheduled_gas_for_tx tx in
  if tx_gas_limit tx <? scheduled_gas then
    s ← settle_sender s tx (tx_fee tx);
    Ok (s, mkExecutionResult ExecutionStatus.RevertedOutOfGas (tx_gas_limit tx) (tx_fee tx) 0)
  else
    let actual_fee := execution_fee s tx exec_ctx in
    working ← apply_payload s tx;
    working ← settle_sender working tx actual_fee;
    Ok (working, mkExecutionResult ExecutionStatus.Applied scheduled_gas actual_fee
                   (tx_fee tx - actual_fee)).

(** ** Block fees *)

Definition ZERO_ADDRESS : Address := replicate 32 x00.

Definition burn_share (s : StateStore) (fees_collected : N) : N :=
  let burn_rate_bps := fm_burn_rate_bps (st_fee_market s) in
  if 0 <? burn_rate_bps then sat_mul u128_max fees_collected burn_rate_bps / 10000 else 0.

(** The proposer's share of what the burn leaves, and each pool member's. *)
Definition split_fees (validator_fees pool_count : N) (dist : FeeDistributionParams) : N * N :=
  let proposer_bps := N.min (proposer_share_bps dist) 10000 in
  let proposer_priority := sat_mul u128_max validator_fees proposer_bps / 10000 in
  let pool_total := validator_fees - proposer_priority in
  let per_validator := pool_total / pool_count in
  let pool_distributed := sat_mul u128_max per_validator pool_count in
  let remainder := pool_total - pool_distributed in
  (sat_add u128_max proposer_priority remainder, per_validator).

Definition distribute_block_fees (proposer : Address) (fees_collected : N)
    (pool_validators : list Address) (dist : FeeDistributionParams) (s : StateStore)
    : StateStore :=
  if fees_collected =? 0 then s
  else
    let burn_amount := burn_share s fees_collected in
    let s := if 0 <? burn_amount then credit_account ZERO_ADDRESS burn_amount s else s in
    let validator_fees := fees_collected - burn_amount in
    if validator_fees =? 0 then s
    else if bool_decide (pool_validators = []) then credit_account proposer validator_fees s
    else
      let '(proposer_amount, per_validator) :=
        split_fees validator_fees (len pool_validators) dist in
      let s := credit_account proposer proposer_amount s in
      if 0 <? per_validator
      then foldl (fun s addr => credit_account addr per_validator s) s pool_validators
      else s.
End apply_tx.
