(* ===== verification/TxSpec.v ===== *)
(** * The abstract specification of a transaction.

    [tx_effect tx s s'] says what the payload of a transaction may do to the
    store, one rule per kind of change, with what the rest of the development
    relies on as side conditions.  [apply_payload_refines] shows that the handlers
    of [apply/*.rs] implement it; the invariants are proved against it. *)

From S2P Require Import Prelude Crypto Types Cbor Payloads Tx FeeMarket Leaves Store StoreInv.
From S2P Require Import ApplyAccounts ApplyValidators Governance Archival ApplyTx.

(** ** How an account, a validator and an attestation may change *)

Definition key_evolves (k k' : KeyEntry) : Prop :=
  exists st, k' = k <| key_status := st |> /\
    (key_status k = KeyStatus.Revoked -> st = KeyStatus.Revoked).

(** Keys are appended and change status; a revoked key stays revoked. *)
Definition keys_evolve (ks ks' : KeySet) : Prop :=
  exists ks1 fresh, ks' = ks1 ++ fresh /\ Forall2 key_evolves ks ks1.

Record account_evolves (a a' : Account) : Prop := {
  ae_address : acc_address a' = acc_address a;
  ae_nonce : acc_nonce a <= acc_nonce a';
  ae_keys : keys_evolve (acc_keys a) (acc_keys a');
  ae_policy : acc_policy_version a <= acc_policy_version a'
}.

(** An account without keys is implicit; the others satisfy I-1 to I-3. *)
Definition account_inv (a : Account) : Prop :=
  acc_keys a = [] \/ check_invariants a = Ok tt.

(** A tombstoned validator is jailed. *)
Definition validator_inv (v : ValidatorRecord) : Prop :=
  val_tombstoned v = true -> val_status v = ValidatorStatus.Jailed.

(** Revoked exactly when a revocation by the attester is recorded. *)
Definition attestation_inv (a : Attestation) : Prop :=
  match att_status a, att_revocation a with
  | AttestationStatus.Active, None => True
  | AttestationStatus.Revoked, Some r => rev_revoker r = att_attester a
  | _, _ => False
  end.

Definition effect_wf (e : ProposalEffect) : Prop :=
  match e with
  | EffBurnRateUpdate bps => bps <= 10000
  | EffFeeParamUpdate limit => 0 < limit
  | EffAddSlashingVerifier p => sv_evidence_type p <= u8_max
  | EffAddHash p => ahp_hash_id p <= u8_max
  | _ => True
  end.

(** What the signatures of an archival record establish. *)
Definition archival_signed `{Shake, Verifier} (s : StateStore) (r : ArchivalRecord) : Prop :=
  forall addr sig, (addr, sig) ∈ zip (ar_signer_addresses r) (ar_slh_signatures r) ->
    is_archival_signer s addr = true /\
    exists key alg, get_archival_key s addr = Some key /\
      AlgId.from_u16 (vak_archival_alg_id key) = Some alg /\
      verify alg (vak_archival_pk key)
        (archival_sig_preimage viper_research_1 (ar_epoch_number r) (ar_epoch_root r)) sig = true.

Section spec.
Context `{Ciborium, Shake, Verifier}.

(** The validator an equivocation report accuses. *)
Definition evidence_target (tx : Transaction) : option Address :=
  match tx_msg_type tx, decode_equivocation_evidence (tx_payload tx) with
  | MsgType.SubmitEquivocationEvidence, Ok evidence => Some (evid_validator_address evidence)
  | _, _ => None
  end.

(** ** What a payload may do *)

Inductive tx_effect (tx : Transaction) (s : StateStore) : StateStore -> Prop :=
  | te_create_account a :
      length (acc_address a) = 32%nat -> get_account s (acc_address a) = None ->
      acc_balance a = 0 -> acc_nonce a = 0 -> check_invariants a = Ok tt ->
      tx_effect tx s (insert_account a s)
  | te_update_account a a' :
      get_account s (tx_sender tx) = Some a -> account_evolves a a' ->
      acc_balance a' = acc_balance a -> acc_nonce a' = acc_nonce a ->
      (account_inv a -> account_inv a') ->
      tx_effect tx s (set_account (tx_sender tx) a' s)
  | te_transfer a recipient amount s1 :
      get_account s (tx_sender tx) = Some a -> 0 < amount -> amount <= acc_balance a ->
      recipient <> tx_sender tx -> length recipient = 32%nat ->
      s1 = set_account (tx_sender tx) (a <| acc_balance := acc_balance a - amount |>) s ->
      (forall b, get_account s recipient = Some b -> acc_balance b + amount <= u128_max) ->
      tx_effect tx s (credit_account recipient amount s1)
  | te_attest a :
      length (att_attestation_id a) = 32%nat -> get_attestation s (att_attestation_id a) = None ->
      att_attester a = tx_sender tx -> att_status a = AttestationStatus.Active ->
      att_revocation a = None ->
      tx_effect tx s (insert_attestation a s)
  | te_revoke_attestation a r :
      get_attestation s (att_attestation_id a) = Some a ->
      att_status a = AttestationStatus.Active -> att_attester a = tx_sender tx ->
      rev_revoker r = tx_sender tx ->
      tx_effect tx s (insert_attestation
        (a <| att_status := AttestationStatus.Revoked |> <| att_revocation := Some r |>) s)
  | te_anchor a :
      length (pa_anchor_id a) = 32%nat -> pa_claimer a = tx_sender tx ->
      tx_effect tx s (insert_proof_anchor a s)
  | te_propose p :
      length (prop_proposal_id p) = 32%nat -> get_pending_proposal s (prop_proposal_id p) = None ->
      prop_votes p = ∅ -> prop_status p = ProposalStatus.Voting -> effect_wf (prop_effect p) ->
      st_block_height s <= prop_voting_deadline p ->
      tx_effect tx s (insert_pending_proposal p s)
  | te_vote id p choice :
      get_pending_proposal s id = Some p -> prop_status p = ProposalStatus.Voting ->
      st_block_height s <= prop_voting_deadline p -> is_active_validator s (tx_sender tx) = true ->
      prop_votes p !! (tx_sender tx) = None ->
      tx_effect tx s
        (set_proposal id (p <| prop_votes := <[(tx_sender tx) := choice]> (prop_votes p) |>) s)
  | te_rotation r :
      rot_operator r = tx_sender tx -> AlgId.allowed_for_consensus (rot_new_alg_id r) = true ->
      tx_effect tx s (insert_consensus_key_rotation r s)
  | te_register a v peer_id s1 :
      get_account s (tx_sender tx) = Some a -> val_operator v = tx_sender tx -> val_tombstoned v = false ->
      is_not_exited (get_validator s (tx_sender tx)) = false ->
      0 < val_self_bond v -> val_self_bond v <= acc_balance a ->
      val_status v = ValidatorStatus.Active \/ val_status v = ValidatorStatus.Candidate ->
      s1 = insert_validator v
             (set_account (tx_sender tx) (a <| acc_balance := acc_balance a - val_self_bond v |>) s) ->
      tx_effect tx s (if bool_decide (peer_id = []) then s1
                          else set_validator_peer_id (tx_sender tx) peer_id s1)
  | te_status v st :
      get_validator s (tx_sender tx) = Some v -> val_tombstoned v = false ->
      (val_status v = ValidatorStatus.Active /\
       st = ValidatorStatus.Unbonding (st_block_height s)) \/
      (val_status v = ValidatorStatus.Jailed /\
       (st = ValidatorStatus.Active \/ st = ValidatorStatus.Candidate)) ->
      tx_effect tx s (set_validator (tx_sender tx) (v <| val_status := st |>) s)
  | te_peer_id v peer_id :
      get_validator s (tx_sender tx) = Some v ->
      tx_effect tx s (set_validator_peer_id (tx_sender tx) peer_id s)
  | te_slash addr v amount cutoff entry s1 s2 :
      evidence_target tx = Some addr ->
      get_validator s addr = Some v -> val_tombstoned v = false ->
      amount <= val_self_bond v -> rs_slashed_stake entry = amount ->
      s1 = prune_recent_slashes_before cutoff s ->
      s2 = set_validator addr
             (v <| val_self_bond := val_self_bond v - amount |>
                <| val_status := ValidatorStatus.Jailed |> <| val_tombstoned := true |>) s1 ->
      tx_effect tx s (record_recent_slash entry (credit_treasury amount s2))
  | te_archival_key k :
      vak_operator k = tx_sender tx ->
      tx_effect tx s (insert_archival_key k s)
  | te_archival_record r :
      get_archival_record s (ar_epoch_number r) = None ->
      ar_epoch_number r <= current_epoch_number (st_block_height s) ->
      ar_epoch_number r <= u64_max ->
      strictly_ascending (ar_signer_addresses r) = true ->
      length (ar_slh_signatures r) = length (ar_signer_addresses r) ->
      (archival_threshold s).1 <= len (ar_signer_addresses r) ->
      archival_signed s r -> ar_timestamp_anchors r = [] ->
      tx_effect tx s (insert_archival_record r s)
  | te_archival_anchor epoch a :
      tx_effect tx s (push_archival_anchor epoch a s)
  | te_archival_renew epoch h :
      tx_effect tx s (increment_archival_record_version epoch h (st_block_height s) s).
End spec.
