(* ===== verification/TxRefine.v ===== *)
(** * The handlers implement the specification.

    One lemma per group of handlers of [apply/*.rs], then [apply_payload_refines]. *)

From S2P Require Import Prelude Crypto Types Cbor Payloads Tx FeeMarket Leaves Store StoreInv.
From S2P Require Import ApplyAccounts ApplyValidators Governance Archival ApplyTx TxSpec.

(** ** Keys *)

Lemma key_evolves_refl k : key_evolves k k.
Proof. exists (key_status k). by destruct k. Qed.

Lemma keys_evolve_app ks fresh : keys_evolve ks (ks ++ fresh).
Proof. exists ks, fresh. split; [done|]. apply Forall2_same_length_lookup_2; [done|].
  intros i k1 k2 ??. simplify_eq. apply key_evolves_refl. Qed.

Lemma keys_evolve_refl ks : keys_evolve ks ks.
Proof. rewrite <-(app_nil_r ks) at 2. apply keys_evolve_app. Qed.

Lemma keys_evolve_revoke i ks fresh : keys_evolve ks (revoke_at i ks ++ fresh).
Proof.
  exists (revoke_at i ks), fresh. split; [done|]. unfold revoke_at.
  apply Forall2_same_length_lookup_2; [by rewrite length_alter|].
  intros j k1 k2 Hk1 Hk2. destruct (decide (i = j)) as [->|Hij].
  - rewrite list_lookup_alter_eq, Hk1 in Hk2. simplify_eq/=. by exists KeyStatus.Revoked.
  - rewrite list_lookup_alter_ne in Hk2 by done. simplify_eq. apply key_evolves_refl.
Qed.

Lemma account_evolves_refl a : account_evolves a a.
Proof. split; [done|done|apply keys_evolve_refl|done]. Qed.

#[export] Hint Resolve keys_evolve_refl account_evolves_refl keys_evolve_app keys_evolve_revoke
  : viper.

Lemma ensure_account_invariants_inv a u : ensure_account_invariants a = Ok u -> account_inv a.
Proof. unfold ensure_account_invariants. intros Hc. run_inv. by right. Qed.

(** ** The sorted, deduplicated signature set *)

Lemma dedup_by_address_elem l x : x ∈ dedup_by_address l -> x ∈ l.
Proof.
  induction l as [|y l IH]; [done|]. cbn [dedup_by_address].
  destruct (dedup_by_address l) as [|z rest]; [rewrite !elem_of_cons; set_solver|].
  case_bool_decide; set_solver.
Qed.

Lemma dedup_by_address_addrs l a : a ∈ l.*1 <-> a ∈ (dedup_by_address l).*1.
Proof.
  induction l as [|y l IH]; [done|]. cbn [dedup_by_address].
  destruct (dedup_by_address l) as [|z rest].
  - rewrite !fmap_cons, !elem_of_cons, IH. done.
  - case_bool_decide; rewrite !fmap_cons in *; rewrite !elem_of_cons in *; naive_solver congruence.
Qed.

Lemma dedup_by_address_ascending l :
  StronglySorted bytes_le l.*1 -> strictly_ascending (dedup_by_address l).*1 = true.
Proof.
  induction l as [|x l IH]; [done|]. rewrite fmap_cons. intros [Hl Hx]%StronglySorted_inv.
  specialize (IH Hl). cbn [dedup_by_address].
  assert (forall a, a ∈ (dedup_by_address l).*1 -> bytes_le x.1 a) as Hle.
  { intros a Ha%dedup_by_address_addrs. by eapply Forall_forall in Hx. }
  destruct (dedup_by_address l) as [|y rest]; [done|]. case_bool_decide as Hxy.
  - rewrite fmap_cons in *. by rewrite Hxy.
  - cbn in *. rewrite IH, andb_true_r. rewrite bool_decide_false by done. cbn.
    rewrite andb_true_r. apply (Hle y.1). left.
Qed.

Lemma strictly_ascending_bound x l :
  strictly_ascending (x :: l) = true -> Forall (fun y => bytes_le x y /\ x <> y) l.
Proof.
  revert x. induction l as [|y l IH]; intros x Hs; [constructor|].
  cbn in Hs. bool_hyps. constructor; [done|].
  assert (Forall (fun z => bytes_le y z /\ y <> z) l) as Hl by by apply IH.
  eapply Forall_impl; [done|]. intros z [Hyz Hne]. split; [by trans y|].
  intros ->. by apply Hne, (anti_symm bytes_le).
Qed.

Lemma strictly_ascending_NoDup l : strictly_ascending l = true -> NoDup l.
Proof.
  induction l as [|x l IH]; intros Hs; [constructor|].
  pose proof (strictly_ascending_bound _ _ Hs) as Hb. constructor.
  - intros Hx. eapply Forall_forall in Hb as [_ Hne]; [|done]. done.
  - apply IH. destruct l; [done|]. cbn in Hs. by bool_hyps.
Qed.

Lemma sort_sig_set_ascending l : strictly_ascending (sort_sig_set l).*1 = true.
Proof.
  apply dedup_by_address_ascending.
  assert (StronglySorted (le_key bytes_le) (merge_sort (le_key bytes_le) l)) as Hs.
  { apply StronglySorted_merge_sort.
    - intros x y z. unfold le_key. apply transitivity.
    - intros x y. apply (total bytes_le). }
  induction Hs as [|x k Hk IH Hx]; cbn; constructor; [done|]. by apply Forall_fmap.
Qed.

Lemma sort_sig_set_elem l x : x ∈ sort_sig_set l -> x ∈ l.
Proof. intros Hx%dedup_by_address_elem. by rewrite merge_sort_Permutation in Hx. Qed.

(** Every distinct address of the set is kept once. *)
Lemma sort_sig_set_size l :
  N.of_nat (size (list_to_set l.*1 : gset bytes)) = len (sort_sig_set l).*1.
Proof.
  assert ((list_to_set l.*1 : gset bytes) = list_to_set (sort_sig_set l).*1) as ->.
  { apply set_eq. intros a. rewrite !elem_of_list_to_set. unfold sort_sig_set.
    rewrite <-dedup_by_address_addrs. by rewrite merge_sort_Permutation. }
  rewrite size_list_to_set; [done|].
  apply strictly_ascending_NoDup, sort_sig_set_ascending.
Qed.

(** A checking loop passes when every item does. *)
Lemma foldM_check {E A B} (f : A -> B -> outcome E A) (P : B -> Prop) l acc r :
  (forall a b a', f a b = Ok a' -> P b) -> foldM f acc l = Ok r -> forall b, b ∈ l -> P b.
Proof.
  intros Hf. revert acc. induction l as [|x l IH]; intros acc Hr b Hb; [by apply elem_of_nil in Hb|].
  cbn in Hr. run_inv. apply elem_of_cons in Hb as [->|Hb]; eauto.
Qed.

(** ** Slashing amounts *)

Lemma correlation_fraction_le base w a :
  base <= BASIS_POINTS_TOTAL ->
  correlation_adjusted_slash_fraction_bps base w a <= BASIS_POINTS_TOTAL.
Proof.
  intros. unfold correlation_adjusted_slash_fraction_bps. destruct (a =? 0); [done|]. lia.
Qed.

Lemma compute_slash_amount_le bond f :
  f <= BASIS_POINTS_TOTAL -> compute_slash_amount bond f <= bond.
Proof. apply bps_le. Qed.

Section refine.
Context `{Ciborium, Shake, Verifier}.
Implicit Types (s : StateStore) (tx : Transaction).

Lemma record_id_length tx id : record_id tx = Ok id -> length id = 32%nat.
Proof. unfold record_id. intros Hr. run_inv. apply shake256_32_length. Qed.

(** ** Accounts *)

Lemma apply_vault_create_refines s tx s' :
  apply_vault_create s tx = Ok s' -> tx_effect tx s s'.
Proof.
  unfold apply_vault_create. intros Ha. run_inv.
  apply te_create_account; cbn; try done.
  - apply shake256_32_length.
  - by apply eq_None_not_Some.
Qed.

Lemma apply_vault_policy_update_refines s tx s' :
  apply_vault_policy_update s tx = Ok s' -> tx_effect tx s s'.
Proof.
  unfold apply_vault_policy_update. intros Ha. run_inv. rewrite commit_put_account.
  eapply te_update_account; try done.
  split; cbn; auto with viper; lia.
Qed.

(** A credit that cannot overflow is the saturating one. *)
Lemma credit_or_create_credit recipient amount s s' :
  0 < amount -> credit_or_create recipient amount s = Ok s' ->
  s' = credit_account recipient amount s /\
  (forall b, get_account s recipient = Some b -> acc_balance b + amount <= u128_max).
Proof.
  unfold credit_or_create, credit_account. intros Hpos Hc.
  rewrite (proj2 (N.eqb_neq amount 0)) by lia.
  destruct (get_account s recipient) as [b|]; run_inv; [|done].
  rewrite sat_add_small by done. split; [done|]. by intros ? [= <-].
Qed.

Lemma decode_transfer_recipient payload p :
  decode_token_transfer_payload payload = Ok p -> length (tt_recipient p) = 32%nat.
Proof.
  unfold decode_token_transfer_payload. intros Hd. run_inv. destruct x0 as [r a]. run_inv.
  cbn. unfold len in *. lia.
Qed.

Lemma apply_token_transfer_refines s tx s' :
  apply_token_transfer s tx = Ok s' -> tx_effect tx s s'.
Proof.
  unfold apply_token_transfer. intros Ha. run_inv. rewrite commit_put_account in Ha.
  apply credit_or_create_credit in Ha as [-> Hb]; [|lia].
  eapply te_transfer; [done|lia|done|done|by eapply decode_transfer_recipient|done|].
  intros b Hr. apply Hb.
  by rewrite (get_account_set_account_ne (tx_sender tx)).
Qed.

Lemma update_keys_evolves a ks :
  keys_evolve (acc_keys a) ks -> account_evolves a (a <| acc_keys := ks |>).
Proof. by split. Qed.

Lemma apply_key_add_refines s tx s' :
  apply_key_add s tx = Ok s' -> tx_effect tx s s'.
Proof.
  unfold apply_key_add. intros Ha. run_inv. rewrite commit_put_account.
  eapply te_update_account; eauto using update_keys_evolves, ensure_account_invariants_inv
    with viper.
Qed.

Lemma apply_key_rotate_refines s tx s' :
  apply_key_rotate s tx = Ok s' -> tx_effect tx s s'.
Proof.
  unfold apply_key_rotate. intros Ha. run_inv. destruct (key_status _); run_inv.
  rewrite commit_put_account.
  eapply te_update_account; eauto using update_keys_evolves, ensure_account_invariants_inv
    with viper.
Qed.

Lemma apply_key_revoke_refines s tx s' :
  apply_key_revoke s tx = Ok s' -> tx_effect tx s s'.
Proof.
  unfold apply_key_revoke. intros Ha. run_inv. rewrite commit_put_account.
  eapply te_update_account; eauto using ensure_account_invariants_inv.
  apply update_keys_evolves. rewrite <-(app_nil_r (revoke_at _ _)). apply keys_evolve_revoke.
Qed.

(** ** Attestations and anchors *)

Lemma apply_attestation_create_refines s tx s' :
  apply_attestation_create s tx = Ok s' -> tx_effect tx s s'.
Proof.
  unfold apply_attestation_create. intros Ha. run_inv.
  apply te_attest; cbn; eauto using record_id_length. by apply eq_None_not_Some.
Qed.

Lemma apply_attestation_revoke_refines s tx s' :
  store_ok s -> apply_attestation_revoke s tx = Ok s' -> tx_effect tx s s'.
Proof.
  unfold apply_attestation_revoke. intros Hok Ha. run_inv.
  apply te_revoke_attestation; [|by destruct (att_status _)|done|done].
  pose proof (ok_attestations _ Hok) as [_ Hk].
  by destruct (Hk _ _ H3) as [-> _].
Qed.

Lemma apply_proof_anchor_refines s tx s' :
  apply_proof_anchor s tx = Ok s' -> tx_effect tx s s'.
Proof.
  unfold apply_proof_anchor. intros Ha. run_inv.
  apply te_anchor; cbn; eauto using record_id_length.
Qed.

(** ** Governance *)

Definition fields_wf (f : ProposalFields) : Prop :=
  opt_wf (fun x => x <= 10000) (pf_new_burn_rate_bps f) /\
  opt_wf (fun x => 0 < x) (pf_new_block_gas_limit f) /\
  opt_wf (fun x => x <= u8_max) (pf_slash_evidence_type f) /\
  opt_wf (fun x => x <= u8_max) (pf_hash_id f).

Lemma proposal_field_wf f key v f' :
  fields_wf f -> proposal_field f key v = Ok f' -> fields_wf f'.
Proof.
  intros (? & ? & ? & ?) Hf. unfold proposal_field in Hf.
  repeat match goal with
  | H : context [match ?k with _ => _ end] |- _ => is_var k; destruct k; try done
  end; run_inv; unfold fields_wf, set; cbn; unfold decode_bps, decode_u8 in *; run_inv;
  repeat match goal with
  | H : expect_uint _ _ _ = Ok _ |- _ => apply expect_uint_Ok in H as [? _]
  end; split_and!; try done; apply opt_wf_Some; lia.
Qed.

Lemma proposal_effect_wf ty f e : fields_wf f -> proposal_effect ty f = Ok e -> effect_wf e.
Proof.
  intros (? & ? & ? & ?) He. unfold proposal_effect, add_algorithm_effect,
    add_slashing_verifier_effect, add_hash_effect in He.
  destruct ty; run_inv; cbn; auto.
  unfold HashId_from_u8 in *. destruct (_ =? _); simplify_eq; auto.
Qed.

Lemma decode_proposal_payload_wf payload p :
  decode_proposal_payload payload = Ok p -> effect_wf (pp_effect p).
Proof.
  unfold decode_proposal_payload. intros Hd. run_inv. cbn.
  eapply proposal_effect_wf; [|done].
  eapply decode_fields_invariant; [apply proposal_field_wf| |done].
  unfold fields_wf; cbn; auto with viper.
Qed.

Lemma apply_governance_proposal_refines s tx s' :
  st_block_height s <= u64_max ->
  apply_governance_proposal s tx = Ok s' -> tx_effect tx s s'.
Proof.
  unfold apply_governance_proposal. intros Hh Ha. run_inv.
  apply te_propose; cbn; eauto using record_id_length, decode_proposal_payload_wf.
  - by apply eq_None_not_Some.
  - unfold sat_add. lia.
Qed.

Lemma apply_governance_vote_refines s tx s' :
  apply_governance_vote s tx = Ok s' -> tx_effect tx s s'.
Proof.
  unfold apply_governance_vote. intros Ha. run_inv. destruct x as [id choice]. run_inv.
  rewrite commit_put_proposal. apply te_vote; try done. by apply eq_None_not_Some.
Qed.

(** ** Validators *)

Lemma entry_status_cases s :
  entry_status s = ValidatorStatus.Active \/ entry_status s = ValidatorStatus.Candidate.
Proof. unfold entry_status. destruct (_ <? _); auto. Qed.

Lemma apply_validator_register_refines s tx s' :
  apply_validator_register s tx = Ok s' -> tx_effect tx s s'.
Proof.
  unfold apply_validator_register. intros Ha. run_inv. rewrite commit_put_account.
  match goal with |- context [insert_validator ?v _] =>
    eapply (te_register _ _ _ v (reg_peer_id x)) end; cbn; try done; [lia|apply entry_status_cases].
Qed.

Lemma apply_validator_exit_refines s tx s' :
  (forall v, get_validator s (tx_sender tx) = Some v -> validator_inv v) ->
  apply_validator_exit s tx = Ok s' -> tx_effect tx s s'.
Proof.
  unfold apply_validator_exit, val_is_active. intros Hinv Ha. run_inv.
  rewrite commit_put_validator. apply te_status; [done| |auto].
  destruct (val_tombstoned x) eqn:Ht; [|done]. specialize (Hinv _ H2 Ht). congruence.
Qed.

Lemma apply_validator_unjail_refines s tx s' :
  apply_validator_unjail s tx = Ok s' -> tx_effect tx s s'.
Proof.
  unfold apply_validator_unjail. intros Ha. run_inv. rewrite commit_put_validator.
  apply te_status; [done|done|]. right. split; [done|]. apply entry_status_cases.
Qed.

Lemma apply_validator_rotate_peer_id_refines s tx s' :
  apply_validator_rotate_peer_id s tx = Ok s' -> tx_effect tx s s'.
Proof.
  unfold apply_validator_rotate_peer_id. intros Ha. run_inv. by eapply te_peer_id.
Qed.

Lemma apply_consensus_key_rotate_refines s tx s' :
  apply_consensus_key_rotate s tx = Ok s' -> tx_effect tx s s'.
Proof.
  unfold apply_consensus_key_rotate. intros Ha. run_inv. by apply te_rotation.
Qed.

Lemma prune_validators c s : st_validators (prune_recent_slashes_before c s) = st_validators s.
Proof.
  unfold prune_recent_slashes_before. by destruct (prune_front _ _) as [? []].
Qed.

Lemma execute_slash_Ok addr v h s s' :
  get_validator s addr = Some v -> execute_slash addr h s = Ok s' ->
  exists amount cutoff entry, amount <= val_self_bond v /\ rs_slashed_stake entry = amount /\
    s' = record_recent_slash entry (credit_treasury amount
      (set_validator addr
         (v <| val_self_bond := val_self_bond v - amount |>
            <| val_status := ValidatorStatus.Jailed |> <| val_tombstoned := true |>)
         (prune_recent_slashes_before cutoff s))).
Proof.
  unfold execute_slash. intros Hv He. run_inv.
  unfold get_validator in H2. rewrite prune_validators in H2.
  unfold get_validator in Hv. rewrite Hv in H2. injection H2 as <-.
  set (amount := compute_slash_amount _ _).
  assert (amount <= val_self_bond v) as Hle.
  { apply compute_slash_amount_le, correlation_fraction_le. done. }
  rewrite (proj2 (N.leb_le _ _)) by done. rewrite commit_put_validator.
  eexists amount, _, (mkRecentSlashEntry h amount). split; [done|]. by split.
Qed.

(** The accused validator and the two signed votes behind a successful report. *)
Lemma apply_evidence_Ok s payload h s' :
  apply_submit_equivocation_evidence s payload h = Ok s' ->
  exists ev v, decode_equivocation_evidence payload = Ok ev /\
    check_evidence ev h = Ok tt /\
    get_validator s (evid_validator_address ev) = Some v /\ val_tombstoned v = false /\
    verify_vote_signature (val_consensus_alg_id v) (val_consensus_pk v) (evid_vote_a ev) = true /\
    verify_vote_signature (val_consensus_alg_id v) (val_consensus_pk v) (evid_vote_b ev) = true /\
    execute_slash (evid_validator_address ev) h s = Ok s'.
Proof.
  unfold apply_submit_equivocation_evidence. intros Ha. run_inv. do 2 eexists. eauto 10.
Qed.

Lemma apply_submit_equivocation_evidence_refines s tx h s' :
  tx_msg_type tx = MsgType.SubmitEquivocationEvidence ->
  apply_submit_equivocation_evidence s (tx_payload tx) h = Ok s' -> tx_effect tx s s'.
Proof.
  intros Hm (ev & v & Hd & _ & Hv & Ht & _ & _ & He)%apply_evidence_Ok.
  apply (execute_slash_Ok _ v) in He as (amount & cutoff & entry & Hle & Hst & ->); [|done].
  eapply te_slash; try done. unfold evidence_target. by rewrite Hm, Hd.
Qed.

(** ** Archival *)

Lemma apply_register_archival_key_refines s tx s' :
  apply_validator_register_archival_key s tx = Ok s' -> tx_effect tx s s'.
Proof.
  unfold apply_validator_register_archival_key. intros Ha. run_inv. destruct x as [raw pk].
  run_inv. by apply te_archival_key.
Qed.

Lemma decode_sig_entry_Ok v e : decode_sig_entry v = Ok e -> len e.1 = 32.
Proof.
  unfold decode_sig_entry. intros Hd. run_inv.
  destruct x as [|a [|g [|? ?]]]; try done. run_inv.
  by match goal with Hb : expect_bytes_n _ _ _ _ = Ok _ |- _ =>
    apply expect_bytes_n_Ok in Hb as [? _] end.
Qed.

Lemma decode_submit_wf payload p :
  decode_archival_record_submit_payload payload = Ok p ->
  ars_epoch_number p <= u64_max /\ len (ars_epoch_root p) = 32 /\
  Forall (fun e => len e.1 = 32) (ars_slh_sig_set p).
Proof.
  unfold decode_archival_record_submit_payload. intros Hd. run_inv.
  destruct x0 as [[[[n f] l] r] g].
  eapply (foldM_invariant _ (fun '(n, f, l, r, g) => opt_wf (fun x => x <= u64_max) n /\
    opt_wf (fun x => len x = 32) r /\ opt_wf (Forall (fun e => len e.1 = 32)) g)) in H3;
    [destruct H3 as (? & ? & ?); run_inv; cbn; auto| |auto with viper].
  intros [[[[n1 f1] l1] r1] g1] [k w] [[[[n2 f2] l2] r2] g2] _ (? & ? & ?) Hs.
  destruct k as [z| | | | | | | |]; try (simplify_eq; done). unfold decode_u64 in Hs.
  fields_step; split_and!; auto with viper. apply opt_wf_Some.
  match goal with Hf : foldM _ [] _ = Ok _ |- _ =>
    eapply (foldM_invariant _ (Forall (fun e => len e.1 = 32))) in Hf; [done| |constructor] end.
  intros out item out' _ Hout Hi. run_inv. apply Forall_app. eauto using decode_sig_entry_Ok.
Qed.

(** The record a submission stores. *)
Lemma apply_archival_record_submit_Ok s tx h s' :
  apply_archival_record_submit s tx h = Ok s' -> exists r,
    s' = insert_archival_record r s /\ get_archival_record s (ar_epoch_number r) = None /\
    ar_epoch_number r <= current_epoch_number h /\ ar_epoch_number r <= u64_max /\
    len (ar_epoch_root r) = 32 /\ Forall (fun a => len a = 32) (ar_signer_addresses r) /\
    strictly_ascending (ar_signer_addresses r) = true /\
    length (ar_slh_signatures r) = length (ar_signer_addresses r) /\
    (archival_threshold s).1 <= len (ar_signer_addresses r) /\ archival_signed s r /\
    ar_timestamp_anchors r = [] /\ ar_evidence_record_version r = 0.
Proof.
  unfold apply_archival_record_submit. intros Ha. run_inv. eexists. split; [done|]. cbn.
  match goal with Hd : decode_archival_record_submit_payload _ = Ok _ |- _ =>
    destruct (decode_submit_wf _ _ Hd) as (? & ? & Hw) end.
  split_and!; try done.
  - by apply eq_None_not_Some.
  - apply Forall_fmap, Forall_forall. intros e He%sort_sig_set_elem.
    by eapply Forall_forall in Hw.
  - apply sort_sig_set_ascending.
  - by rewrite !length_fmap.
  - by rewrite <-sort_sig_set_size.
  - intros addr sig. cbn. rewrite zip_fst_snd. intros Hin%sort_sig_set_elem. split.
    + eapply (foldM_check _ (fun e => is_archival_signer s e.1 = true)) in H6; [|..|done]; [done|].
      intros ? ? ? Hb. by apply ensure_Ok in Hb.
    + eapply (foldM_check _ (fun e => verify_archival_entry s _ e = Ok tt)) in H7; [| |done];
        [unfold verify_archival_entry in H7; run_inv; eauto|].
      intros ? ? ? Hb. run_inv. done.
Qed.

Lemma apply_archival_record_submit_refines s tx s' :
  apply_archival_record_submit s tx (st_block_height s) = Ok s' -> tx_effect tx s s'.
Proof.
  intros (r & -> & ? & ? & ? & ? & ? & ? & ? & ? & ? & ? & ?)%apply_archival_record_submit_Ok.
  by apply te_archival_record.
Qed.

Lemma apply_archival_add_anchor_refines s tx h s' :
  apply_archival_record_add_anchor s tx h = Ok s' -> tx_effect tx s s'.
Proof.
  unfold apply_archival_record_add_anchor. intros Ha. run_inv. apply te_archival_anchor.
Qed.

Lemma apply_archival_renew_refines s tx s' :
  apply_archival_record_renew s tx (st_block_height s) = Ok s' -> tx_effect tx s s'.
Proof.
  unfold apply_archival_record_renew. intros Ha. run_inv. destruct x as [epoch hash]. run_inv.
  apply te_archival_renew.
Qed.

(** ** The dispatcher *)

Lemma apply_payload_refines s tx s' :
  store_ok s -> (forall v, get_validator s (tx_sender tx) = Some v -> validator_inv v) ->
  apply_payload s tx = Ok s' -> tx_effect tx s s'.
Proof.
  intros Hok Hinv. unfold apply_payload. pose proof (ok_block_height _ Hok).
  destruct (tx_msg_type tx) eqn:Hm;
    eauto using apply_vault_create_refines, apply_vault_policy_update_refines,
      apply_token_transfer_refines, apply_key_add_refines, apply_key_rotate_refines,
      apply_key_revoke_refines, apply_attestation_create_refines,
      apply_attestation_revoke_refines, apply_proof_anchor_refines,
      apply_governance_proposal_refines, apply_governance_vote_refines,
      apply_validator_register_refines, apply_validator_exit_refines,
      apply_validator_unjail_refines, apply_validator_rotate_peer_id_refines,
      apply_consensus_key_rotate_refines, apply_submit_equivocation_evidence_refines,
      apply_register_archival_key_refines, apply_archival_record_submit_refines,
      apply_archival_add_anchor_refines, apply_archival_renew_refines.
Qed.
End refine.
