(* ===== verification/Invariants.v ===== *)
(** * The invariant of the chain state and how the state evolves.

    [chain_inv] joins the store invariant (cached leaves, records under their own
    keys) with the invariants of the records.  [store_evolves] is the history
    property: accounts persist, nonces do not decrease, revocations, tombstones,
    decided proposals and archival records are final.  A [safe_step] keeps the
    first and respects the second; the lemmas below show it for each write. *)

From S2P Require Import Prelude Crypto Types Cbor Payloads Tx FeeMarket Leaves Store StoreInv.
From S2P Require Import ApplyAccounts ApplyValidators Governance Archival ApplyTx TxSpec TxRefine.

(** ** Tables: a property of every row, a relation between versions *)

Section tables.
Context {K V : Type} `{Countable K} (h : K -> V -> bytes).
Implicit Types (t : Table K V) (P : V -> Prop) (R : relation V).

Definition tbl_all P t : Prop := forall k v, rows t !! k = Some v -> P v.

Definition tbl_evolves R t t' : Prop :=
  forall k v, rows t !! k = Some v -> exists v', rows t' !! k = Some v' /\ R v v'.

Lemma tbl_all_insert P k v t : P v -> tbl_all P t -> tbl_all P (tbl_insert h k v t).
Proof. intros ? Ht k' v'. cbn. rewrite lookup_insert_Some. naive_solver. Qed.

Lemma tbl_all_empty P : tbl_all P (tbl_empty : Table K V).
Proof. intros k v. cbn. by rewrite lookup_empty. Qed.

Global Instance tbl_evolves_preorder R `{!PreOrder R} : PreOrder (tbl_evolves R).
Proof.
  split.
  - intros t k v ?. exists v. split; [done|reflexivity].
  - intros t1 t2 t3 H12 H23 k v (v2 & Hv2 & ?)%H12. apply H23 in Hv2 as (v3 & ? & ?).
    exists v3. split; [done|]. by etrans.
Qed.

Lemma tbl_evolves_insert R `{!PreOrder R} k v t :
  (forall v0, rows t !! k = Some v0 -> R v0 v) -> tbl_evolves R t (tbl_insert h k v t).
Proof.
  intros HR k' v' Hv'. cbn. destruct (decide (k' = k)) as [->|?].
  - exists v. by rewrite lookup_insert_eq; eauto.
  - exists v'. rewrite lookup_insert_ne by done. split; [done|reflexivity].
Qed.

(** Every row mapped, the leaves recomputed afterwards. *)
Lemma tbl_evolves_fmap R (f : V -> V) t l :
  (forall k v, rows t !! k = Some v -> R v (f v)) -> tbl_evolves R t (mkTable (f <$> rows t) l).
Proof. intros HR k v Hv. exists (f v). cbn. rewrite lookup_fmap, Hv. eauto. Qed.
End tables.

(** ** The records' relations *)

Global Instance key_evolves_preorder : PreOrder key_evolves.
Proof.
  split; [intros k; apply key_evolves_refl|].
  intros k1 k2 k3 (st2 & -> & H2) (st3 & -> & H3). exists st3. cbn in *. auto.
Qed.

Global Instance keys_evolve_preorder : PreOrder keys_evolve.
Proof.
  split; [intros ks; apply keys_evolve_refl|].
  intros ks1 ks2 ks3 (k1 & f1 & -> & H1) (k2 & f2 & -> & H2).
  apply Forall2_app_inv_l in H2 as (k2a & k2b & H2a & H2b & ->).
  exists k2a, (k2b ++ f2). split; [by rewrite app_assoc|].
  by etrans.
Qed.

Global Instance account_evolves_preorder : PreOrder account_evolves.
Proof.
  split; [intros a; apply account_evolves_refl|].
  intros a1 a2 a3 [] []. split; [congruence|lia|by etrans|lia].
Qed.

(** A tombstoned record keeps its bond and its status. *)
Definition validator_evolves (v v' : ValidatorRecord) : Prop :=
  val_tombstoned v = true ->
  val_tombstoned v' = true /\ val_self_bond v' = val_self_bond v /\ val_status v' = val_status v.

Global Instance validator_evolves_preorder : PreOrder validator_evolves.
Proof.
  split; [by intros v|]. unfold validator_evolves. intros v1 v2 v3 H1 H2 Ht.
  destruct (H1 Ht) as (Ht2 & <- & <-). auto.
Qed.

(** Only an active attestation changes, and only its status and revocation. *)
Definition attestation_evolves (a a' : Attestation) : Prop :=
  a' = a \/
  (att_status a = AttestationStatus.Active /\ exists r,
   a' = a <| att_status := AttestationStatus.Revoked |> <| att_revocation := Some r |>).

Global Instance attestation_evolves_preorder : PreOrder attestation_evolves.
Proof.
  split; [by left|]. intros a1 a2 a3 [->|(? & r & ->)] [->|(? & r' & ->)];
    unfold attestation_evolves; eauto; by cbn in *.
Qed.

(** A vote stays cast; a proposal that is no longer open does not change. *)
Definition proposal_evolves (p p' : PendingProposal) : Prop :=
  prop_effect p' = prop_effect p /\ prop_voting_deadline p' = prop_voting_deadline p /\
  prop_votes p ⊆ prop_votes p' /\ (prop_status p <> ProposalStatus.Voting -> p' = p).

Global Instance proposal_evolves_preorder : PreOrder proposal_evolves.
Proof.
  split; [by intros p|]. intros p1 p2 p3 (? & ? & ? & Hp1) (? & ? & ? & Hp2).
  split_and!; [congruence|congruence|by etrans|]. intros Hs. specialize (Hp1 Hs). subst. auto.
Qed.

Definition lifecycle_rank (l : Lifecycle.t) : N :=
  match l with
  | Lifecycle.Active => 0
  | Lifecycle.Discouraged => 1
  | Lifecycle.Deprecated => 2
  | Lifecycle.Banned => 3
  end.

Definition alg_evolves (e e' : AlgEntry) : Prop :=
  alg_id e' = alg_id e /\ alg_pk_size e' = alg_pk_size e /\
  lifecycle_rank (alg_lifecycle e) <= lifecycle_rank (alg_lifecycle e').

Global Instance alg_evolves_preorder : PreOrder alg_evolves.
Proof.
  split; [by intros e|]. unfold alg_evolves. intros e1 e2 e3 (?&?&?) (?&?&?).
  split_and!; [congruence|congruence|lia].
Qed.

(** The signed part of an archival record is fixed; anchors are appended. *)
Definition record_evolves (r r' : ArchivalRecord) : Prop :=
  ar_epoch_root r' = ar_epoch_root r /\ ar_signer_addresses r' = ar_signer_addresses r /\
  ar_slh_signatures r' = ar_slh_signatures r /\
  ar_timestamp_anchors r `prefix_of` ar_timestamp_anchors r'.

Global Instance record_evolves_preorder : PreOrder record_evolves.
Proof.
  split; [by intros r|]. unfold record_evolves. intros r1 r2 r3 (?&?&?&?) (?&?&?&?).
  split_and!; try congruence. by etrans.
Qed.

Definition record_inv (r : ArchivalRecord) : Prop :=
  strictly_ascending (ar_signer_addresses r) = true /\
  length (ar_slh_signatures r) = length (ar_signer_addresses r).

(** ** The state *)

Record store_evolves (s s' : StateStore) : Prop := {
  ev_accounts : tbl_evolves account_evolves (st_accounts s) (st_accounts s');
  ev_validators : tbl_evolves validator_evolves (st_validators s) (st_validators s');
  ev_attestations : tbl_evolves attestation_evolves (st_attestations s) (st_attestations s');
  ev_proposals : tbl_evolves proposal_evolves (st_proposals s) (st_proposals s');
  ev_algs : tbl_evolves alg_evolves (st_algs s) (st_algs s');
  ev_records : tbl_evolves record_evolves (st_archival_records s) (st_archival_records s');
  ev_height : st_block_height s <= st_block_height s';
  ev_chain_id : st_chain_id s' = st_chain_id s
}.

Global Instance store_evolves_preorder : PreOrder store_evolves.
Proof.
  split; [intros s; by split|].
  intros s1 s2 s3 [] []; split; solve [by etrans|congruence].
Qed.

Record chain_inv `{Shake} (s : StateStore) : Prop := {
  ci_store : store_ok s;
  ci_accounts : tbl_all account_inv (st_accounts s);
  ci_validators : tbl_all validator_inv (st_validators s);
  ci_operators : forall k v, get_validator s k = Some v -> is_Some (get_account s k);
  ci_attestations : tbl_all attestation_inv (st_attestations s);
  ci_proposals : tbl_all (fun p => effect_wf (prop_effect p)) (st_proposals s);
  ci_records : tbl_all record_inv (st_archival_records s);
  ci_burn : fm_burn_rate_bps (st_fee_market s) <= 10000
}.

Definition safe_step `{Shake} (s s' : StateStore) : Prop :=
  chain_inv s -> chain_inv s' /\ store_evolves s s'.

Global Instance safe_step_preorder `{Shake} : PreOrder safe_step.
Proof.
  split; [intros s ?; by split|]. intros s1 s2 s3 H12 H23 H1.
  destruct (H12 H1) as [H2 ?], (H23 H2) as [H3 ?]. split; [done|by etrans].
Qed.

Lemma safe_trans `{Shake} s1 s2 s3 :
  safe_step s1 s2 -> safe_step s2 s3 -> chain_inv s1 -> chain_inv s3 /\ store_evolves s1 s3.
Proof. intros H12 H23. exact (transitivity H12 H23). Qed.

Section steps.
Context `{Ciborium, Shake, Verifier}.
Implicit Types (s : StateStore).

(** A write that keeps the tables [chain_inv] and [store_evolves] speak about. *)
Record same_tables s s' : Prop := {
  sm_accounts : st_accounts s' = st_accounts s;
  sm_validators : st_validators s' = st_validators s;
  sm_attestations : st_attestations s' = st_attestations s;
  sm_proposals : st_proposals s' = st_proposals s;
  sm_algs : st_algs s' = st_algs s;
  sm_records : st_archival_records s' = st_archival_records s;
  sm_burn : fm_burn_rate_bps (st_fee_market s') = fm_burn_rate_bps (st_fee_market s);
  sm_height : st_block_height s' = st_block_height s;
  sm_chain_id : st_chain_id s' = st_chain_id s
}.

Lemma same_tables_step s s' : same_tables s s' -> (store_ok s -> store_ok s') -> safe_step s s'.
Proof.
  intros [Ha Hv Ht Hp Hg Hr Hb Hh Hid] Hok []. split.
  - split; unfold get_validator, get_account in *; rewrite ?Ha, ?Hv, ?Ht, ?Hp, ?Hr, ?Hb; auto.
  - split; rewrite ?Ha, ?Hv, ?Ht, ?Hp, ?Hg, ?Hr, ?Hh; done.
Qed.

(** A write to one table the invariant speaks about. *)
Lemma set_account_inv k a s :
  keyed acc_address k a -> account_inv a -> chain_inv s -> chain_inv (set_account k a s).
Proof.
  intros Hk Ha []. split; cbn; auto.
  - by apply upd_accounts_ok.
  - by apply tbl_all_insert.
  - intros k' v' Hv'. destruct (decide (k = k')) as [->|?].
    + by rewrite get_account_set_account.
    + rewrite get_account_set_account_ne by done. eauto.
Qed.

Lemma set_account_step k a s :
  keyed acc_address k a -> account_inv a ->
  (forall a0, get_account s k = Some a0 -> account_evolves a0 a) -> safe_step s (set_account k a s).
Proof.
  intros Hk Ha Hev Hinv. split; [by apply set_account_inv|].
  split; cbn; try done. apply tbl_evolves_insert; [apply _|done].
Qed.

Lemma set_validator_inv k v s :
  keyed val_operator k v -> validator_inv v -> is_Some (get_account s k) -> chain_inv s ->
  chain_inv (set_validator k v s).
Proof.
  intros Hk Hv Ha []. split; cbn; auto.
  - by apply upd_validators_ok.
  - by apply tbl_all_insert.
  - intros k' v'. destruct (decide (k = k')) as [->|?]; [done|].
    rewrite get_validator_set_validator_ne by done. eauto.
Qed.

Lemma set_validator_step k v s :
  keyed val_operator k v -> validator_inv v -> is_Some (get_account s k) ->
  (forall v0, get_validator s k = Some v0 -> validator_evolves v0 v) ->
  safe_step s (set_validator k v s).
Proof.
  intros Hk Hv Ha Hev Hinv. split; [by apply set_validator_inv|].
  split; cbn; try done. apply tbl_evolves_insert; [apply _|done].
Qed.

Lemma set_proposal_step id p s :
  keyed prop_proposal_id id p -> effect_wf (prop_effect p) ->
  (forall p0, get_pending_proposal s id = Some p0 -> proposal_evolves p0 p) ->
  safe_step s (set_proposal id p s).
Proof.
  intros Hk Hp Hev []. split; [split|split; cbn; try done]; cbn; auto.
  - by apply upd_proposals_ok.
  - by apply (tbl_all_insert _ (fun p => effect_wf (prop_effect p))).
  - apply tbl_evolves_insert; [apply _|done].
Qed.

Lemma insert_attestation_step a s :
  length (att_attestation_id a) = 32%nat -> attestation_inv a ->
  (forall a0, get_attestation s (att_attestation_id a) = Some a0 -> attestation_evolves a0 a) ->
  safe_step s (insert_attestation a s).
Proof.
  intros Hk Ha Hev []. split; [split|split; cbn; try done]; cbn; auto.
  - by apply insert_attestation_ok.
  - by apply tbl_all_insert.
  - apply tbl_evolves_insert; [apply _|done].
Qed.

Lemma set_record_step epoch r s :
  keyed_N ar_epoch_number u64_max epoch r -> record_inv r ->
  (forall r0, get_archival_record s epoch = Some r0 -> record_evolves r0 r) ->
  safe_step s (s <| st_archival_records ::= tbl_insert h_archival_record epoch r |>).
Proof.
  intros Hk Hr Hev []. split; [split|split; cbn; try done]; cbn; auto.
  - by apply upd_archival_records_ok.
  - by apply tbl_all_insert.
  - apply tbl_evolves_insert; [apply _|done].
Qed.

Lemma set_alg_step k e s :
  keyed_N (fun e => AlgId.as_u16 (alg_id e)) u16_max k e ->
  (forall e0, rows (st_algs s) !! k = Some e0 -> alg_evolves e0 e) ->
  safe_step s (s <| st_algs ::= tbl_insert h_alg k e |>).
Proof.
  intros Hk Hev []. split; [split|split; cbn; try done]; cbn; auto.
  - by apply upd_algs_ok.
  - apply tbl_evolves_insert; [apply _|done].
Qed.

(** ** The composite writes *)

(** An account whose balance and nonce change and whose nonce does not decrease. *)
Lemma set_balance_step k a bal s :
  get_account s k = Some a -> safe_step s (set_account k (a <| acc_balance := bal |>) s).
Proof.
  intros Ha Hinv. pose proof (get_account_keyed _ _ _ (ci_store _ Hinv) Ha).
  apply set_account_step; [done| | |done].
  - pose proof (ci_accounts _ Hinv _ _ Ha). by destruct a.
  - intros a0 Ha0. rewrite Ha in Ha0. injection Ha0 as <-.
    by split; cbn; auto with viper.
Qed.

Lemma credit_account_step addr amount s :
  length addr = 32%nat -> safe_step s (credit_account addr amount s).
Proof.
  intros Hl. unfold credit_account. destruct (_ =? _); [reflexivity|].
  destruct (get_account s addr) as [a|] eqn:Ha.
  - rewrite commit_put_account. by apply set_balance_step.
  - apply (set_account_step addr); [done|by left|]. by rewrite Ha.
Qed.

Lemma set_recent_slashes_step l s : safe_step s (set_recent_slashes l s).
Proof. apply same_tables_step; [by split|apply set_recent_slashes_ok]. Qed.

Lemma prune_step c s : safe_step s (prune_recent_slashes_before c s).
Proof.
  unfold prune_recent_slashes_before. destruct (prune_front _ _) as [l []]; [|reflexivity].
  apply set_recent_slashes_step.
Qed.

Lemma set_peer_id_step op p s : length op = 32%nat -> safe_step s (set_validator_peer_id op p s).
Proof.
  intros. apply same_tables_step; [|by intros; apply set_validator_peer_id_ok].
  unfold set_validator_peer_id. by case_bool_decide.
Qed.

Lemma set_fee_market_step fm s :
  fee_market_wf fm -> fm_burn_rate_bps fm <= 10000 ->
  safe_step s (recompute_fee_market_leaf_hash (put_fee_market fm s)).
Proof.
  intros ?? []. split; [split|split]; cbn; try done. by apply set_fee_market_ok.
Qed.

(** ** Transactions *)

Lemma is_not_exited_false o v :
  is_not_exited o = false -> o = Some v -> val_status v = ValidatorStatus.Exited.
Proof. intros Hn ->. cbn in Hn. by bool_hyps. Qed.

Lemma register_step sender a v s :
  get_account s sender = Some a -> val_operator v = sender -> val_tombstoned v = false ->
  is_not_exited (get_validator s sender) = false ->
  safe_step s (insert_validator v
    (set_account sender (a <| acc_balance := acc_balance a - val_self_bond v |>) s)).
Proof.
  intros Ha <- Ht Hne Hinv. pose proof (get_account_keyed _ _ _ (ci_store _ Hinv) Ha) as [_ Hl].
  eapply safe_trans; [by apply set_balance_step| |done].
  apply (set_validator_step (val_operator v)); [done| | |].
  - intros Ht'. congruence.
  - by rewrite get_account_set_account.
  - intros v0 Hv0 Ht0. pose proof (is_not_exited_false _ _ Hne Hv0).
    pose proof (ci_validators _ Hinv _ _ Hv0 Ht0). congruence.
Qed.

Lemma slash_step addr v amount cutoff entry s :
  get_validator s addr = Some v -> val_tombstoned v = false ->
  safe_step s (record_recent_slash entry (credit_treasury amount
    (set_validator addr
       (v <| val_self_bond := val_self_bond v - amount |>
          <| val_status := ValidatorStatus.Jailed |> <| val_tombstoned := true |>)
       (prune_recent_slashes_before cutoff s)))).
Proof.
  intros Hv Ht. etrans; [apply (prune_step cutoff)|].
  etrans; [|etrans; [by apply (credit_account_step TREASURY_ADDRESS amount)|]];
    [|apply set_recent_slashes_step].
  intros Hinv.
  assert (get_validator (prune_recent_slashes_before cutoff s) addr = Some v) as Hv'.
  { unfold get_validator. by rewrite prune_validators. }
  pose proof (get_validator_keyed _ _ _ (ci_store _ Hinv) Hv').
  apply set_validator_step; [done|done| | |done].
  - by eapply (ci_operators _ Hinv).
  - intros v0. rewrite Hv'. intros [= <-] Ht0. congruence.
Qed.

Lemma push_anchor_step epoch a s : safe_step s (push_archival_anchor epoch a s).
Proof.
  unfold push_archival_anchor. destruct (get_archival_record s epoch) as [r|] eqn:Hr;
    [|reflexivity].
  intros Hinv. pose proof (ok_archival_records _ (ci_store _ Hinv)) as [_ Hk].
  apply set_record_step; [by apply (Hk _ _ Hr)|by apply (ci_records _ Hinv _ _ Hr)| |done].
  intros r0 Hr0. rewrite Hr in Hr0. injection Hr0 as <-. split_and!; try done.
  by eexists.
Qed.

Lemma renew_step epoch hash height s :
  safe_step s (increment_archival_record_version epoch hash height s).
Proof.
  unfold increment_archival_record_version.
  destruct (get_archival_record s epoch) as [r|] eqn:Hr; [|reflexivity].
  intros Hinv. pose proof (ok_archival_records _ (ci_store _ Hinv)) as [_ Hk].
  apply set_record_step; [by apply (Hk _ _ Hr)|by apply (ci_records _ Hinv _ _ Hr)| |done].
  intros r0 Hr0. rewrite Hr in Hr0. injection Hr0 as <-. split_and!; try done.
  by eexists.
Qed.

(** The writes to the tables that [chain_inv] constrains only through [store_ok]. *)
Lemma insert_proof_anchor_step a s :
  length (pa_anchor_id a) = 32%nat -> safe_step s (insert_proof_anchor a s).
Proof. intros. apply same_tables_step; [by split|by apply insert_proof_anchor_ok]. Qed.

Lemma insert_rotation_step r s :
  length (rot_operator r) = 32%nat -> safe_step s (insert_consensus_key_rotation r s).
Proof. intros. apply same_tables_step; [by split|by apply insert_rotation_ok]. Qed.

Lemma insert_receipt_step r s :
  length (rcp_proposal_id r) = 32%nat -> safe_step s (insert_governance_receipt r s).
Proof. intros. apply same_tables_step; [by split|by apply insert_receipt_ok]. Qed.

Lemma insert_archival_key_step k s :
  length (vak_operator k) = 32%nat -> safe_step s (insert_archival_key k s).
Proof. intros. apply same_tables_step; [by split|by apply insert_archival_key_ok]. Qed.

Lemma tx_effect_step tx s s' :
  length (tx_sender tx) = 32%nat -> tx_effect tx s s' -> safe_step s s'.
Proof.
  intros Hl Heff.
  destruct Heff as [a Hla Hn Hb Hno Hc|a a' Ha Hev _ _ Hai|a r amount s1 Ha _ _ _ Hlr -> _
    |a Hla Hn Ha Hst Hrv|a r Ha Hst Has Hrr|a Hla _|p Hlp Hn Hv Hst He _|id p c Hp Hst _ _ Hnv
    |r Hr _|a v pid s1 Ha Hop Ht Hne _ _ _ ->|v st Hv Ht Hst|v pid Hv|addr v am c en s1 s2 _ Hv Ht _ _ -> ->
    |k Hk|r Hn _ Hle Hasc Hlen _ _ _|ep a|ep h]; intros Hinv.
  - apply (set_account_step (acc_address a)); [done|by right| |done]. by rewrite Hn.
  - apply set_account_step; [| | |done].
    + destruct (get_account_keyed _ _ _ (ci_store _ Hinv) Ha) as [Hka ?].
      split; [|done]. rewrite <-Hka. apply (ae_address _ _ Hev).
    + by apply Hai, (ci_accounts _ Hinv _ _ Ha).
    + intros a0. rewrite Ha. by intros [= <-].
  - eapply safe_trans; [by apply set_balance_step|by apply credit_account_step|done].
  - apply insert_attestation_step; [done| |by rewrite Hn|done].
    unfold attestation_inv. by rewrite Hst, Hrv.
  - apply insert_attestation_step; [| | |done].
    + by destruct (ok_attestations _ (ci_store _ Hinv)) as [_ Hk]; apply Hk in Ha as [_ ?].
    + unfold attestation_inv, set; cbn. congruence.
    + intros a0 Ha0. assert (Some a0 = Some a) as [= ->] by (by rewrite <-Ha, <-Ha0). right. eauto.
  - by apply insert_proof_anchor_step.
  - apply (set_proposal_step (prop_proposal_id p)); [done|done| |done]. by rewrite Hn.
  - pose proof (get_proposal_keyed _ _ _ (ci_store _ Hinv) Hp).
    apply set_proposal_step; [done|by apply (ci_proposals _ Hinv _ _ Hp)| |done].
    intros p0. rewrite Hp. intros [= <-]. split_and!; cbn; try done.
    by apply insert_subseteq.
  - apply insert_rotation_step; [by rewrite Hr|done].
  - case_bool_decide; [by apply register_step|].
    eapply safe_trans; [by apply register_step|by apply set_peer_id_step|done].
  - pose proof (get_validator_keyed _ _ _ (ci_store _ Hinv) Hv).
    apply set_validator_step; [done| | | |done].
    + intros Ht'. cbn in Ht'. congruence.
    + by eapply (ci_operators _ Hinv).
    + intros v0. rewrite Hv. intros [= <-] Ht0. congruence.
  - by apply set_peer_id_step.
  - by apply slash_step.
  - apply insert_archival_key_step; [by rewrite Hk|done].
  - apply (set_record_step (ar_epoch_number r)); [done|done| |done]. by rewrite Hn.
  - by apply push_anchor_step.
  - by apply renew_step.
Qed.

Lemma settle_sender_Ok s tx fee s' :
  settle_sender s tx fee = Ok s' -> exists a,
    get_account s (tx_sender tx) = Some a /\
    sat_add u128_max fee (tx_fee_tip tx) <= acc_balance a /\ acc_nonce a + 1 <= u64_max /\
    s' = set_account (tx_sender tx)
           (a <| acc_balance := acc_balance a - sat_add u128_max fee (tx_fee_tip tx) |>
              <| acc_nonce := acc_nonce a + 1 |>) s.
Proof.
  unfold settle_sender. intros Hs. run_inv. eexists. split; [done|].
  by rewrite commit_put_account.
Qed.

Lemma settle_sender_step s tx fee s' : settle_sender s tx fee = Ok s' -> safe_step s s'.
Proof.
  intros (a & Ha & _ & _ & ->)%settle_sender_Ok Hinv.
  pose proof (get_account_keyed _ _ _ (ci_store _ Hinv) Ha).
  apply set_account_step; [done| | |done].
  - pose proof (ci_accounts _ Hinv _ _ Ha). by destruct a.
  - intros a0 Ha0. rewrite Ha in Ha0. injection Ha0 as <-.
    split; cbn; auto with viper; lia.
Qed.

(** The payload and the settlement of a transaction that was applied. *)
Lemma apply_tx_Ok s tx ctx s' r :
  apply_tx s tx ctx = Ok (s', r) ->
  exists s1, settle_sender s1 tx (er_fee_charged r) = Ok s' /\
    ((s1 = s /\ er_status r = ExecutionStatus.RevertedOutOfGas /\ er_fee_charged r = tx_fee tx) \/
     (apply_payload s tx = Ok s1 /\ er_status r = ExecutionStatus.Applied /\
      er_fee_charged r = execution_fee s tx ctx)).
Proof.
  unfold apply_tx. intros Ha. destruct (_ <? _); run_inv; simplify_eq; cbn; eauto 6.
Qed.

Lemma apply_payload_step s tx s' :
  length (tx_sender tx) = 32%nat -> apply_payload s tx = Ok s' -> safe_step s s'.
Proof.
  intros Hl Ha Hinv. eapply tx_effect_step; [done| |done].
  apply apply_payload_refines; [apply (ci_store _ Hinv)| |done].
  intros v Hv. by apply (ci_validators _ Hinv _ _ Hv).
Qed.

Lemma apply_tx_step s tx ctx s' r :
  length (tx_sender tx) = 32%nat -> apply_tx s tx ctx = Ok (s', r) -> safe_step s s'.
Proof.
  intros Hl (s1 & Hs & [(-> & _)|(Hp & _)])%apply_tx_Ok; [by eapply settle_sender_step|].
  etrans; [by eapply apply_payload_step|by eapply settle_sender_step].
Qed.
End steps.
