(* ===== verification/Supply.v ===== *)
(** * The token supply.

    [supply] counts every balance and the bond of every validator that has not
    exited; an exited validator's bond has been returned to its account although
    the record still shows it, which [gross] counts as well.  Payloads keep the
    supply, except a report against an exited validator, which puts the returned
    bond back into circulation. *)

From S2P Require Import Prelude Crypto Types Cbor Payloads Tx FeeMarket Leaves Store StoreInv.
From S2P Require Import ApplyAccounts ApplyValidators Governance Archival ApplyTx TxSpec TxRefine.
From S2P Require Import Invariants.

Definition bonded (v : ValidatorRecord) : N :=
  if bool_decide (val_status v = ValidatorStatus.Exited) then 0 else val_self_bond v.

Definition balances (s : StateStore) : N := map_sum acc_balance (rows (st_accounts s)).
Definition bonds (s : StateStore) : N := map_sum bonded (rows (st_validators s)).
Definition supply (s : StateStore) : N := balances s + bonds s.
Definition gross (s : StateStore) : N :=
  balances s + map_sum val_self_bond (rows (st_validators s)).

Section supply.
Context `{Ciborium, Shake, Verifier}.
Implicit Types (s : StateStore).

(** ** Writes to an account *)

Lemma balances_set_account k a s :
  balances (set_account k a s) + from_option acc_balance 0 (get_account s k) =
  balances s + acc_balance a.
Proof.
  unfold balances, get_account, set_account, set; cbn.
  destruct (rows (st_accounts s) !! k) as [a0|] eqn:Ha; cbn.
  - by apply map_sum_insert_Some.
  - rewrite map_sum_insert_fresh by done. lia.
Qed.

Lemma balance_le_balances s k a : get_account s k = Some a -> acc_balance a <= balances s.
Proof. apply map_sum_lookup_le. Qed.

Lemma bonds_set_validator k v s :
  bonds (set_validator k v s) + from_option bonded 0 (get_validator s k) = bonds s + bonded v.
Proof.
  unfold bonds, get_validator, set_validator, set; cbn.
  destruct (rows (st_validators s) !! k) as [v0|] eqn:Hv; cbn.
  - by apply map_sum_insert_Some.
  - rewrite map_sum_insert_fresh by done. lia.
Qed.

Lemma gross_set_validator k v s :
  gross (set_validator k v s) + from_option val_self_bond 0 (get_validator s k) =
  gross s + val_self_bond v.
Proof.
  unfold gross, get_validator, set_validator, set; cbn.
  change (balances _) with (balances s) at 1.
  destruct (rows (st_validators s) !! k) as [v0|] eqn:Hv; cbn.
  - pose proof (map_sum_insert_Some val_self_bond _ _ _ v Hv). lia.
  - rewrite map_sum_insert_fresh by done. lia.
Qed.

Lemma bonds_le_gross s : supply s <= gross s.
Proof.
  unfold supply, gross, bonds. apply N.add_le_mono_l.
  induction (rows (st_validators s)) as [|k v m Hk IH] using map_ind; [done|].
  rewrite !map_sum_insert_fresh by done. unfold bonded at 1. case_bool_decide; lia.
Qed.

(** A credit that fits adds exactly its amount. *)
Lemma balances_credit addr amount s :
  balances s + amount <= u128_max -> balances (credit_account addr amount s) = balances s + amount.
Proof.
  intros Hle. unfold credit_account. destruct (N.eqb_spec amount 0) as [->|_]; [lia|].
  destruct (get_account s addr) as [a|] eqn:Ha.
  - rewrite commit_put_account. pose proof (balance_le_balances _ _ _ Ha).
    rewrite sat_add_small by lia.
    pose proof (balances_set_account addr (a <| acc_balance := acc_balance a + amount |>) s) as Hb.
    rewrite Ha in Hb. cbn in Hb. lia.
  - pose proof (balances_set_account addr (implicit_account addr amount) s) as Hb.
    rewrite Ha in Hb. cbn in Hb.
    change (balances (insert_account (implicit_account addr amount) s))
      with (balances (set_account addr (implicit_account addr amount) s)). lia.
Qed.

Lemma credit_validators addr amount s :
  st_validators (credit_account addr amount s) = st_validators s.
Proof.
  unfold credit_account. destruct (_ =? _); [done|].
  destruct (get_account s addr); [by rewrite commit_put_account|done].
Qed.

Lemma prune_accounts c s : st_accounts (prune_recent_slashes_before c s) = st_accounts s.
Proof. unfold prune_recent_slashes_before. by destruct (prune_front _ _) as [? []]. Qed.

(** The bond that a report against an exited validator puts back. *)
Definition revived_bond s (tx : Transaction) : N :=
  match evidence_target tx ≫= get_validator s with
  | Some v => if bool_decide (val_status v = ValidatorStatus.Exited) then val_self_bond v else 0
  | None => 0
  end.

Lemma supply_set_account k a a' s :
  get_account s k = Some a ->
  supply (set_account k a' s) + acc_balance a = supply s + acc_balance a' /\
  gross (set_account k a' s) + acc_balance a = gross s + acc_balance a'.
Proof.
  intros Ha. pose proof (balances_set_account k a' s) as Hb. rewrite Ha in Hb. cbn in Hb.
  unfold supply, gross, bonds in *. cbn in *. lia.
Qed.

(** Nothing but accounts and validators matters. *)
Lemma supply_ext s s' :
  st_accounts s' = st_accounts s -> st_validators s' = st_validators s ->
  supply s' = supply s /\ gross s' = gross s.
Proof. unfold supply, gross, balances, bonds. by intros -> ->. Qed.

Lemma supply_credit addr amount s :
  balances s + amount <= u128_max ->
  supply (credit_account addr amount s) = supply s + amount /\
  gross (credit_account addr amount s) = gross s + amount.
Proof.
  intros Hle. unfold supply, gross, bonds. rewrite credit_validators, balances_credit by done. lia.
Qed.

Lemma supply_set_validator k v v' s :
  get_validator s k = Some v ->
  supply (set_validator k v' s) + bonded v = supply s + bonded v' /\
  gross (set_validator k v' s) + val_self_bond v = gross s + val_self_bond v'.
Proof.
  intros Hv. pose proof (bonds_set_validator k v' s) as Hb.
  pose proof (gross_set_validator k v' s) as Hg. rewrite Hv in Hb, Hg. cbn in Hb, Hg.
  unfold supply in *. change (balances (set_validator k v' s)) with (balances s). lia.
Qed.

Lemma bonded_live v : val_status v <> ValidatorStatus.Exited -> bonded v = val_self_bond v.
Proof. intros. unfold bonded. by rewrite bool_decide_false. Qed.

Lemma bonded_exited v : val_status v = ValidatorStatus.Exited -> bonded v = 0.
Proof. intros. unfold bonded. by rewrite bool_decide_true. Qed.

Lemma bond_le_gross s k v :
  get_validator s k = Some v -> balances s + val_self_bond v <= gross s.
Proof.
  intros Hv. unfold gross. apply N.add_le_mono_l.
  by apply (map_sum_lookup_le val_self_bond (rows (st_validators s)) k).
Qed.

(** ** Slashing *)

Lemma slash_supply addr v amount cutoff entry s :
  get_validator s addr = Some v -> amount <= val_self_bond v -> gross s <= u128_max ->
  let s' := record_recent_slash entry (credit_treasury amount
    (set_validator addr
       (v <| val_self_bond := val_self_bond v - amount |>
          <| val_status := ValidatorStatus.Jailed |> <| val_tombstoned := true |>)
       (prune_recent_slashes_before cutoff s))) in
  supply s' + bonded v = supply s + val_self_bond v /\ gross s' = gross s.
Proof.
  intros Hv Hle Hmax s'. unfold s', record_recent_slash, credit_treasury.
  set (v' := v <| val_self_bond := _ |> <| val_status := _ |> <| val_tombstoned := true |>).
  set (s1 := prune_recent_slashes_before cutoff s).
  assert (get_validator s1 addr = Some v) as Hv1.
  { unfold get_validator, s1. by rewrite prune_validators. }
  destruct (supply_ext s s1) as [Hs1 Hg1]; [apply prune_accounts|apply prune_validators|].
  destruct (supply_set_validator addr v v' s1 Hv1) as [Hs2 Hg2].
  assert (bonded v' = val_self_bond v - amount /\ val_self_bond v' = val_self_bond v - amount)
    as [Hb1 Hb2] by done.
  pose proof (bond_le_gross _ _ _ Hv1).
  destruct (supply_credit TREASURY_ADDRESS amount (set_validator addr v' s1)) as [Hs3 Hg3].
  { change (balances (set_validator addr v' s1)) with (balances s1). lia. }
  set (s3 := credit_account TREASURY_ADDRESS amount (set_validator addr v' s1)) in *.
  destruct (supply_ext s3 (set_recent_slashes (st_recent_slashes s3 ++ [entry]) s3))
    as [-> ->]; [done|done|].
  split; lia.
Qed.

(** ** Payloads *)

Lemma transfer_supply sender recipient a amount s :
  get_account s sender = Some a -> amount <= acc_balance a -> gross s <= u128_max ->
  let s' := credit_account recipient amount
              (set_account sender (a <| acc_balance := acc_balance a - amount |>) s) in
  supply s' = supply s /\ gross s' = gross s.
Proof.
  intros Ha Hle Hmax s'. unfold s'. set (a' := a <| acc_balance := _ |>).
  destruct (supply_set_account sender a a' s Ha) as [Hs Hg].
  assert (acc_balance a' = acc_balance a - amount) as Hb by done.
  pose proof (bonds_le_gross (set_account sender a' s)).
  destruct (supply_credit recipient amount (set_account sender a' s)) as [-> ->]; [|lia].
  unfold supply in *. lia.
Qed.

Lemma register_supply a v s s1 :
  get_account s (val_operator v) = Some a -> val_self_bond v <= acc_balance a ->
  is_not_exited (get_validator s (val_operator v)) = false ->
  val_status v = ValidatorStatus.Active \/ val_status v = ValidatorStatus.Candidate ->
  s1 = insert_validator v (set_account (val_operator v)
         (a <| acc_balance := acc_balance a - val_self_bond v |>) s) ->
  supply s1 = supply s /\ gross s1 <= gross s.
Proof.
  intros Ha Hle Hne Hst ->. set (a' := a <| acc_balance := _ |>).
  destruct (supply_set_account _ a a' s Ha) as [Hs Hg].
  assert (acc_balance a' = acc_balance a - val_self_bond v) as Hb by done.
  set (s0 := set_account (val_operator v) a' s) in *.
  assert (bonded v = val_self_bond v) as Hv by (apply bonded_live; destruct Hst; congruence).
  pose proof (bonds_set_validator (val_operator v) v s0) as Hbs.
  pose proof (gross_set_validator (val_operator v) v s0) as Hgs.
  change (insert_validator v s0) with (set_validator (val_operator v) v s0).
  assert (from_option bonded 0 (get_validator s0 (val_operator v)) = 0) as Hz.
  { change (get_validator s0 (val_operator v)) with (get_validator s (val_operator v)).
    destruct (get_validator s (val_operator v)) as [v0|] eqn:Hv0; [|done]. cbn.
    by eapply bonded_exited, is_not_exited_false. }
  unfold supply in *. change (balances (set_validator (val_operator v) v s0)) with (balances s0).
  split; lia.
Qed.

Lemma tx_effect_supply tx s s' :
  chain_inv s -> tx_effect tx s s' -> gross s <= u128_max ->
  gross s' <= gross s /\ (supply s' = supply s \/ supply s' = supply s + revived_bond s tx).
Proof.
  intros Hinv Heff Hmax.
  destruct Heff as [a _ Hn Hb _ _|a a' Ha _ Hb _ _|a r amount s1 Ha _ Hle _ _ -> _
    |a _ _ _ _ _|a r _ _ _ _|a _ _|p _ _ _ _ _ _|id p c _ _ _ _ _|r _ _
    |a v pid s1 Ha Hop _ Hne _ Hle Hst Hs1|v st Hv _ Hst|v pid _|addr v am c en s1 s2 Htg Hv _ Hle _ -> ->
    |k _|r _ _ _ _ _ _ _ _|ep a|ep h].
  - pose proof (balances_set_account (acc_address a) a s) as Hs. rewrite Hn in Hs. cbn in Hs.
    change (insert_account a s) with (set_account (acc_address a) a s).
    unfold supply, gross, bonds in *. cbn in *. lia.
  - destruct (supply_set_account _ a a' s Ha) as [Hs Hg]. lia.
  - destruct (transfer_supply (tx_sender tx) r a amount s Ha Hle Hmax) as [-> ->]. lia.
  - destruct (supply_ext s (insert_attestation a s)) as [-> ->]; [done|done|lia].
  - match goal with |- context [supply ?s1] => destruct (supply_ext s s1) as [-> ->] end;
      [done|done|lia].
  - destruct (supply_ext s (insert_proof_anchor a s)) as [-> ->]; [done|done|lia].
  - destruct (supply_ext s (insert_pending_proposal p s)) as [-> ->]; [done|done|lia].
  - match goal with |- context [supply ?s1] => destruct (supply_ext s s1) as [-> ->] end;
      [done|done|lia].
  - destruct (supply_ext s (insert_consensus_key_rotation r s)) as [-> ->]; [done|done|lia].
  - subst s1. rewrite <-Hop in *.
    destruct (register_supply a v s _ Ha Hle Hne Hst eq_refl) as [Hs Hg].
    destruct (bool_decide (pid = [])); [lia|].
    match goal with |- context [set_validator_peer_id ?k ?p ?s1] =>
      destruct (supply_ext s1 (set_validator_peer_id k p s1)) as [-> ->];
      [unfold set_validator_peer_id; by destruct (bool_decide _)..|] end. lia.
  - destruct (supply_set_validator _ v (v <| val_status := st |>) s Hv) as [Hs Hg].
    assert (val_status v <> ValidatorStatus.Exited /\ st <> ValidatorStatus.Exited) as [??]
      by (split; naive_solver congruence).
    cbn in Hg. rewrite !bonded_live in Hs by done. cbn in Hs. lia.
  - match goal with |- context [supply ?s1] => destruct (supply_ext s s1) as [-> ->];
      [unfold set_validator_peer_id; by destruct (bool_decide _)..|] end. lia.
  - destruct (slash_supply addr v am c en s Hv Hle Hmax) as [Hs ->]. split; [done|].
    unfold revived_bond. rewrite Htg; cbn [mbind option_bind]; rewrite Hv.
    unfold bonded in Hs. case_bool_decide; lia.
  - destruct (supply_ext s (insert_archival_key k s)) as [-> ->]; [done|done|lia].
  - destruct (supply_ext s (insert_archival_record r s)) as [-> ->]; [done|done|lia].
  - match goal with |- context [supply ?s1] => destruct (supply_ext s s1) as [-> ->];
      [unfold push_archival_anchor; by destruct (get_archival_record s ep)..|] end. lia.
  - match goal with |- context [supply ?s1] => destruct (supply_ext s s1) as [-> ->];
      [unfold increment_archival_record_version; by destruct (get_archival_record s ep)..|] end.
    lia.
Qed.

Lemma revived_bond_other s tx :
  tx_msg_type tx <> MsgType.SubmitEquivocationEvidence -> revived_bond s tx = 0.
Proof. intros Hm. unfold revived_bond, evidence_target. by destruct (tx_msg_type tx). Qed.

Lemma apply_payload_supply s tx s' :
  chain_inv s -> gross s <= u128_max -> apply_payload s tx = Ok s' ->
  supply s' = supply s + revived_bond s tx /\ gross s' <= gross s.
Proof.
  intros Hinv Hmax Ha.
  destruct (decide (tx_msg_type tx = MsgType.SubmitEquivocationEvidence)) as [Hm|Hm].
  - unfold apply_payload in Ha. rewrite Hm in Ha.
    apply apply_evidence_Ok in Ha as (ev & v & Hd & _ & Hv & _ & _ & _ & He).
    apply (execute_slash_Ok _ v) in He as (amount & cutoff & entry & Hle & _ & ->); [|done].
    destruct (slash_supply _ v amount cutoff entry s Hv Hle Hmax) as [Hs ->].
    split; [|done]. unfold revived_bond, evidence_target. rewrite Hm, Hd.
    cbn [mbind option_bind]. rewrite Hv. unfold bonded in Hs. case_bool_decide; lia.
  - assert (tx_effect tx s s') as Heff.
    { apply apply_payload_refines; [apply (ci_store _ Hinv)| |done].
      intros v Hv. by apply (ci_validators _ Hinv _ _ Hv). }
    destruct (tx_effect_supply _ _ _ Hinv Heff Hmax) as [Hg Hs].
    rewrite (revived_bond_other s tx Hm) in *. lia.
Qed.

Lemma settle_sender_supply s tx fee s' :
  fee <= u64_max -> tx_fee_tip tx <= u64_max -> settle_sender s tx fee = Ok s' ->
  supply s' + fee + tx_fee_tip tx = supply s /\ gross s' + fee + tx_fee_tip tx = gross s.
Proof.
  intros Hf Ht (a & Ha & Hle & _ & ->)%settle_sender_Ok.
  rewrite sat_add_small in * by lia.
  match goal with |- context [set_account ?k ?a' s] =>
    destruct (supply_set_account k a a' s Ha) as [Hs Hg] end.
  cbn in Hs, Hg. lia.
Qed.

Lemma fee_total_le b : fee_total b <= u64_max.
Proof. unfold fee_total, sat_add. lia. Qed.

(** The bond a transaction put back into circulation. *)
Definition revived s tx (r : ExecutionResult) : N :=
  match er_status r with
  | ExecutionStatus.Applied => revived_bond s tx
  | ExecutionStatus.RevertedOutOfGas => 0
  end.

Lemma apply_tx_supply_gross s tx ctx s' r :
  chain_inv s -> tx_fee tx <= u64_max -> tx_fee_tip tx <= u64_max -> gross s <= u128_max ->
  apply_tx s tx ctx = Ok (s', r) ->
  supply s' + er_fee_charged r + tx_fee_tip tx = supply s + revived s tx r /\
  gross s' + er_fee_charged r + tx_fee_tip tx <= gross s.
Proof.
  intros Hinv Hf Ht Hmax (s1 & Hs & [(-> & Hst & Hfee)|(Hp & Hst & Hfee)])%apply_tx_Ok;
    unfold revived; rewrite Hst; rewrite Hfee in *.
  - apply settle_sender_supply in Hs; [|done|done]. lia.
  - apply apply_payload_supply in Hp as [Hsup Hg]; [|done|done].
    apply settle_sender_supply in Hs; [|apply fee_total_le|done]. lia.
Qed.
End supply.
