(* ===== verification/Mempool.v ===== *)
(** * The pending pool and admission: [pqc-mempool].

    [pool.rs] keeps entries by hash with an index from (sender, nonce) slots;
    [admission.rs] validates against a state view and applies the replacement
    policy. *)

From S2P Require Import Prelude Crypto Types Cbor Payloads Tx.

(** ** [pool.rs] *)

Record PendingEntry := mkPendingEntry {
  pe_tx : Transaction;
  pe_raw_bytes : bytes;
  pe_tx_hash : TxHash;
  pe_fee : N;
  pe_fee_tip : N
}.

Record Mempool := mkMempool {
  by_hash : gmap bytes PendingEntry;
  by_sender_nonce : gmap (bytes * N) bytes;
  vc_admitted_count : N;
  vc_per_block_cap : N
}.

Global Instance eta_Mempool : Settable Mempool := fun x =>
  mkMempool (by_hash x) (by_sender_nonce x) (vc_admitted_count x) (vc_per_block_cap x).

Definition Mempool_new : Mempool := mkMempool ∅ ∅ 0 10.

Definition slot (e : PendingEntry) : bytes * N := (tx_sender (pe_tx e), tx_nonce (pe_tx e)).

Definition pool_get (pool : Mempool) (h : TxHash) : option PendingEntry := by_hash pool !! h.
Definition pending_for_slot (pool : Mempool) (sender : Address) (nonce : N) : option TxHash :=
  by_sender_nonce pool !! (sender, nonce).

Definition pool_insert (e : PendingEntry) (pool : Mempool) : Mempool :=
  pool <| by_sender_nonce ::= <[slot e := pe_tx_hash e]> |>
       <| by_hash ::= <[pe_tx_hash e := e]> |>.

Definition evict (h : TxHash) (pool : Mempool) : Mempool :=
  match by_hash pool !! h with
  | Some e => pool <| by_hash ::= delete h |> <| by_sender_nonce ::= delete (slot e) |>
  | None => pool
  end.

Definition stale (sender : Address) (committed_nonce : N) (e : PendingEntry) : Prop :=
  tx_sender (pe_tx e) = sender /\ tx_nonce (pe_tx e) < committed_nonce.

Global Instance stale_dec sender n e : Decision (stale sender n e).
Proof. unfold stale. apply _. Defined.

Definition all_pending (pool : Mempool) : list PendingEntry := (map_to_list (by_hash pool)).*2.

Definition evict_stale (sender : Address) (committed_nonce : N) (pool : Mempool) : Mempool :=
  foldl (fun pool h => evict h pool) pool
    (pe_tx_hash <$> filter (stale sender committed_nonce) (all_pending pool)).

Definition increment_vc_count {E} (pool : Mempool) : outcome E Mempool :=
  n ← add_checked u64_max (vc_admitted_count pool) 1; Ok (pool <| vc_admitted_count := n |>).
Definition reset_vc_count (pool : Mempool) : Mempool := pool <| vc_admitted_count := 0 |>.

Definition nonce_le (a b : PendingEntry) : Prop := tx_nonce (pe_tx a) <= tx_nonce (pe_tx b).

Global Instance nonce_le_dec a b : Decision (nonce_le a b).
Proof. unfold nonce_le. apply _. Defined.

Definition pending_for_sender (pool : Mempool) (sender : Address) : list PendingEntry :=
  merge_sort nonce_le (filter (fun e => tx_sender (pe_tx e) = sender) (all_pending pool)).

(** ** [error.rs], [admission.rs] *)

Module MempoolError.
Inductive t : Type :=
  | ValidationFailed (e : TxError.t)
  | Duplicate
  | ReplacementUnderpriced (existing_fee existing_tip min_required_fee : N)
  | AlreadyIncluded
  | RateLimited
  | VcCapReached.
End MempoolError.

Definition REPLACEMENT_FEE_BUMP_NUM : N := 110.
Definition REPLACEMENT_FEE_BUMP_DEN : N := 100.

Record AdmissionResult := mkAdmissionResult {
  adm_tx_hash : TxHash;
  adm_replaced : option TxHash
}.

Section admission.
Context `{Ciborium, Shake, Verifier, StateView St}.

Definition is_vc (state : St) (tx : Transaction) : bool :=
  bool_decide (view_alg_sig_class state (tx_sig_alg_id tx) = Some SigClass.Premium).

(** [fork_digest] is the trait's default. *)
Definition admission_context (state : St) (tx : Transaction) (fee_params : FeeParams)
    : ValidationContext :=
  let dynamic := view_base_fee_dynamic state in
  let params := if 0 <? dynamic then fee_params <| fp_base_fee_dynamic := dynamic |>
                else fee_params in
  mkValidationContext (view_chain_id state) viper_research_1 (view_current_height state)
    (view_get_account state (tx_sender tx)) params (view_alg_lifecycle state)
    (view_alg_min_fee state).

Definition insert_admitted (state : St) (entry : PendingEntry) (pool : Mempool)
    : outcome MempoolError.t Mempool :=
  let pool := pool_insert entry pool in
  if is_vc state (pe_tx entry) then increment_vc_count pool else Ok pool.

Definition min_replacement_fee (existing : PendingEntry) : N :=
  sat_mul u64_max (pe_fee existing) REPLACEMENT_FEE_BUMP_NUM / REPLACEMENT_FEE_BUMP_DEN.

Definition try_admit (pool : Mempool) (raw_bytes : bytes) (state : St) (fee_params : FeeParams)
    : outcome MempoolError.t (Mempool * AdmissionResult) :=
  tx ← map_err MempoolError.ValidationFailed (decode_tx raw_bytes);
  let tx_hash := compute_tx_hash raw_bytes in
  ensure (negb (bool_decide (is_Some (pool_get pool tx_hash)))) MempoolError.Duplicate ;;
  lifecycle ← ok_or (view_alg_lifecycle state (tx_sig_alg_id tx))
    (MempoolError.ValidationFailed (TxError.AlgorithmNotFound (AlgId.as_u16 (tx_sig_alg_id tx))));
  ensure (Lifecycle.admits_transactions lifecycle)
    (MempoolError.ValidationFailed (TxError.AlgorithmBanned (AlgId.as_u16 (tx_sig_alg_id tx)))) ;;
  ensure (negb (is_vc state tx && (vc_per_block_cap pool <=? vc_admitted_count pool)))
    MempoolError.VcCapReached ;;
  map_err MempoolError.ValidationFailed
    (validate_tx tx raw_bytes (admission_context state tx fee_params)) ;;
  let entry := mkPendingEntry tx raw_bytes tx_hash (tx_fee tx) (tx_fee_tip tx) in
  match pending_for_slot pool (tx_sender tx) (tx_nonce tx) with
  | Some existing_hash =>
      match pool_get pool existing_hash with
      | None =>
          pool ← insert_admitted state entry (evict existing_hash pool);
          Ok (pool, mkAdmissionResult tx_hash None)
      | Some existing =>
          ensure (negb ((tx_fee tx <? min_replacement_fee existing)
                        || (tx_fee_tip tx <? pe_fee_tip existing)))
            (MempoolError.ReplacementUnderpriced (pe_fee existing) (pe_fee_tip existing)
               (min_replacement_fee existing)) ;;
          pool ← insert_admitted state entry (evict existing_hash pool);
          Ok (pool, mkAdmissionResult tx_hash (Some existing_hash))
      end
  | None =>
      pool ← insert_admitted state entry pool;
      Ok (pool, mkAdmissionResult tx_hash None)
  end.
End admission.
