(* ===== verification/Block.v ===== *)
(** * Blocks and block assembly: [pqc-types/src/block.rs],
      [pqc-consensus/src/{epoch,engine}.rs].

    [assemble_block] applies the admitted transactions in a fixed order and runs
    the end-of-block transitions.  [finish_block] names the part of it that the
    replay of [recovery.rs] repeats. *)

From S2P Require Import Prelude Crypto Types Cbor Payloads Tx FeeMarket Leaves Store StoreInv.
From S2P Require Import ApplyAccounts ApplyValidators Governance Archival ApplyTx Mempool.

(** ** [block.rs] *)

Definition HEADER_VERSION_V1 : N := 1.

Record BlockHeader := mkBlockHeader {
  bh_header_version : N;
  bh_height : N;
  bh_prev_hash : bytes;
  bh_state_root : bytes;
  bh_tx_root : bytes;
  bh_timestamp : N;
  bh_proposer : bytes;
  bh_extension_root : bytes
}.

Record CommitSig := mkCommitSig {
  cs_validator_address : bytes;
  cs_sig_alg_id : AlgId.t;
  cs_round : N;
  cs_signature : bytes
}.

Record Block := mkBlock {
  blk_header : BlockHeader;
  blk_tx_hashes : list TxHash;
  blk_commit_signatures : list CommitSig
}.

(** ** [epoch.rs] *)

Definition EPOCH_DURATION_MAINNET : N := 7200.
Definition EPOCH_DURATION_DEVNET : N := 60.

Record EpochConfig := mkEpochConfig {
  epc_epoch_duration : N;
  epc_unbonding_period : N;
  epc_churn : ChurnConfig
}.

Definition EpochConfig_mainnet : EpochConfig :=
  mkEpochConfig EPOCH_DURATION_MAINNET 3628800 viper_pq_1.
Definition EpochConfig_devnet : EpochConfig := mkEpochConfig EPOCH_DURATION_DEVNET 120 viper_pq_1.

(** [is_multiple_of(0)] holds of zero only, as does [_ mod 0 = 0]. *)
Definition is_epoch_boundary (height epoch_duration : N) : bool :=
  (0 <? height) && (height mod epoch_duration =? 0).

Definition select_epoch_proposer `{Shake} (validators : list bytes) (height : N)
    (randao_accumulator : bytes) : option N :=
  match validators with
  | [] => None
  | _ =>
      let hash := shake256_32 (randao_accumulator ++ be_bytes 8 height) in
      Some (of_be_bytes (take 8 hash) mod len validators)
  end.

Definition advance_randao `{Shake} (prev block_hash : bytes) : bytes :=
  tagged_hash (bstr "VIPER-RANDAO-V1") (prev ++ block_hash).

(** ** [engine.rs] *)

Record AssemblyContext := mkAssemblyContext {
  asm_height : N;
  asm_prev_hash : bytes;
  asm_timestamp : N;
  asm_proposer : bytes
}.

Record AssemblyConfig := mkAssemblyConfig {
  cfg_max_block_bytes : N;
  cfg_fee_params : FeeParams;
  cfg_validator_pool : list Address;
  cfg_fee_dist : FeeDistributionParams;
  cfg_epoch_config : EpochConfig
}.

Module SkipReason.
Inductive t : Type := BlockSizeLimit | ApplyFailed (e : ApplyError.t).
End SkipReason.

Record BlockExecutionResult := mkBlockExecutionResult {
  exe_block : Block;
  exe_included : list TxHash;
  exe_included_transactions : list Transaction;
  exe_deferred : list TxHash;
  exe_new_height : N;
  exe_state_root : bytes;
  exe_tx_root : bytes;
  exe_bytes_used : N;
  exe_vc_budget_consumed : N;
  exe_skipped : list (TxHash * SkipReason.t)
}.

Module AssembleError.
Inductive t : Type := InvalidHeight (expected got : N) | InvalidProposer (got : N).
End AssembleError.

(** [compare_pending_entries(left, right) != Greater]. *)
Definition pending_le (l r : PendingEntry) : Prop :=
  pe_fee r < pe_fee l \/ (pe_fee l = pe_fee r /\
  (pe_fee_tip r < pe_fee_tip l \/ (pe_fee_tip l = pe_fee_tip r /\
  (bytes_lt (tx_sender (pe_tx l)) (tx_sender (pe_tx r)) \/
   (tx_sender (pe_tx l) = tx_sender (pe_tx r) /\
  (tx_nonce (pe_tx l) < tx_nonce (pe_tx r) \/ (tx_nonce (pe_tx l) = tx_nonce (pe_tx r) /\
   bytes_le (pe_tx_hash l) (pe_tx_hash r)))))))).

Global Instance pending_le_dec l r : Decision (pending_le l r).
Proof. unfold pending_le, bytes_lt. apply _. Defined.

(** The variables of the assembly loop. *)
Record Assembly := mkAssembly {
  as_store : StateStore;
  as_pool : Mempool;
  as_included : list TxHash;
  as_transactions : list Transaction;
  as_deferred : list TxHash;
  as_bytes_used : N;
  as_skipped : list (TxHash * SkipReason.t);
  as_fees_collected : N;
  as_block_gas_used : N
}.

Section engine.
Context `{Ciborium, Shake, Verifier}.

Definition empty_extension_root : bytes := tagged_hash (bstr "VIPER-EXT-EMPTY-V1") [].

Definition compute_tx_root (tx_hashes : list TxHash) : bytes :=
  hash_chunks (bstr "PQC-TX-ROOT-V1") (be_bytes 8 (len tx_hashes) :: tx_hashes).

Definition block_chunks (b : Block) : list bytes :=
  let h := blk_header b in
  [ be_bytes 8 (bh_header_version h); be_bytes 8 (bh_height h); bh_prev_hash h; bh_state_root h;
    bh_tx_root h; be_bytes 8 (bh_timestamp h); bh_proposer h; bh_extension_root h;
    be_bytes 8 (len (blk_tx_hashes b)) ] ++ blk_tx_hashes b.

Definition compute_block_hash (b : Block) : bytes :=
  hash_chunks (bstr "VIPER-BLOCK-HASH-V1") (block_chunks b).

(** The fee parameters a transaction runs with: the store's dynamic base fee. *)
Definition exec_fee_params (s : StateStore) (params : FeeParams) : FeeParams :=
  params <| fp_base_fee_dynamic := fm_base_fee (fm_compute (st_fee_market s)) |>.

Definition add_fees (fees_collected fee_charged fee_tip : N) : N :=
  sat_add u128_max (sat_add u128_max fees_collected fee_charged) fee_tip.

(** One round of the loop over the sorted pending entries. *)
Definition assemble_entry {E} (config : AssemblyConfig) (a : Assembly) (entry : PendingEntry)
    : outcome E Assembly :=
  let '(mkAssembly s pool included txs deferred bytes_used skipped fees gas) := a in
  let next_size := sat_add u64_max bytes_used (len (pe_raw_bytes entry)) in
  if cfg_max_block_bytes config <? next_size then
    Ok (mkAssembly s pool included txs (deferred ++ [pe_tx_hash entry]) bytes_used skipped fees gas)
  else
    let ctx := mkExecutionContext (len (pe_raw_bytes entry))
                 (exec_fee_params s (cfg_fee_params config)) in
    match apply_tx s (pe_tx entry) ctx with
    | Ok (s, execution) =>
        Ok (mkAssembly s
              (evict_stale (tx_sender (pe_tx entry))
                 (sat_add u64_max (tx_nonce (pe_tx entry)) 1) (evict (pe_tx_hash entry) pool))
              (included ++ [pe_tx_hash entry]) (txs ++ [pe_tx entry]) deferred next_size skipped
              (add_fees fees (er_fee_charged execution) (tx_fee_tip (pe_tx entry)))
              (sat_add u64_max gas (er_gas_used execution)))
    | Err e =>
        Ok (mkAssembly s (evict (pe_tx_hash entry) pool) included txs deferred bytes_used
              (skipped ++ [(pe_tx_hash entry, SkipReason.ApplyFailed e)]) fees gas)
    | Panic => Panic
    end.

(** The bond of each validator whose unbonding ended goes back to its account. *)
Definition return_bond (s : StateStore) (exit : Address * N) : StateStore :=
  let '(operator, bond) := exit in
  commit_account_mutation operator
    (match get_account s operator with
     | Some account =>
         put_account operator
           (account <| acc_balance := sat_add u128_max (acc_balance account) bond |>) s
     | None => s
     end).

Definition fee_pool (s : StateStore) (fallback : list Address) : list Address :=
  let state_pool := val_operator <$> active_validators s in
  if bool_decide (state_pool = []) then fallback else state_pool.

(** Tallies, unbonding, rotations and the height: what follows the fees. *)
Definition end_of_block {E} (height block_gas_used : N) (s : StateStore) : outcome E StateStore :=
  s ← apply_aimd_update block_gas_used s;
  let s := process_governance_tallies height s in
  let '(s, exited) := process_validator_unbonding_expirations height s in
  let s := foldl return_bond s exited in
  let '(s, _) := activate_pending_consensus_key_rotations height s in
  advance_height s.

(** From the fee distribution to the new height. *)
Definition finish_block {E} (proposer : Address) (validator_pool : list Address)
    (fee_dist : FeeDistributionParams) (height fees_collected block_gas_used : N) (s : StateStore)
    : outcome E StateStore :=
  end_of_block height block_gas_used
    (distribute_block_fees proposer fees_collected (fee_pool s validator_pool) fee_dist s).

Definition epoch_step (config : EpochConfig) (height : N) (s : StateStore) : StateStore :=
  if is_epoch_boundary height (epc_epoch_duration config)
  then process_epoch_transitions (epc_churn config) s else s.

Definition pending_in_order (pool : Mempool) : list PendingEntry :=
  merge_sort pending_le (all_pending pool).

Definition assemble_block (s : StateStore) (pool : Mempool) (ctx : AssemblyContext)
    (config : AssemblyConfig)
    : outcome AssembleError.t (StateStore * Mempool * BlockExecutionResult) :=
  let expected_height := sat_add u64_max (st_block_height s) 1 in
  ensure (asm_height ctx =? expected_height)
    (AssembleError.InvalidHeight expected_height (asm_height ctx)) ;;
  ensure (len (asm_proposer ctx) =? 32) (AssembleError.InvalidProposer (len (asm_proposer ctx))) ;;
  let vc_budget_consumed := vc_admitted_count pool in
  a ← foldM (assemble_entry config) (mkAssembly s pool [] [] [] 0 [] 0 0) (pending_in_order pool);
  s ← finish_block (asm_proposer ctx) (cfg_validator_pool config) (cfg_fee_dist config)
        (asm_height ctx) (as_fees_collected a) (as_block_gas_used a) (as_store a);
  let s := epoch_step (cfg_epoch_config config) (asm_height ctx) s in
  let root := state_root s in
  let tx_root := compute_tx_root (as_included a) in
  let block :=
    mkBlock (mkBlockHeader HEADER_VERSION_V1 (asm_height ctx) (asm_prev_hash ctx) root tx_root
               (asm_timestamp ctx) (asm_proposer ctx) empty_extension_root) (as_included a) [] in
  Ok (s, reset_vc_count (as_pool a),
      mkBlockExecutionResult block (as_included a) (as_transactions a) (as_deferred a)
        (st_block_height s) root tx_root (as_bytes_used a) vc_budget_consumed (as_skipped a)).
End engine.
