(* ===== verification/BlockInv.v ===== *)
(** * The end of a block keeps the invariant, the history and the supply. *)

From S2P Require Import Prelude Crypto Types Cbor Payloads Tx FeeMarket Leaves Store StoreInv.
From S2P Require Import ApplyAccounts ApplyValidators Governance Archival ApplyTx TxSpec TxRefine.
From S2P Require Import Invariants Supply Mempool Block.

(** A step that moves no token and keeps the height. *)
Definition same_tokens (s s' : StateStore) : Prop :=
  st_accounts s' = st_accounts s /\ st_validators s' = st_validators s /\
  st_block_height s' = st_block_height s.

Global Instance same_tokens_preorder : PreOrder same_tokens.
Proof. split; [done|]. unfold same_tokens. intros ??? (?&?&?) (?&?&?). split_and!; congruence. Qed.

Lemma same_tokens_supply s s' : same_tokens s s' -> supply s' = supply s /\ gross s' = gross s.
Proof. intros (?&?&?). by apply supply_ext. Qed.

Section block_inv.
Context `{Ciborium, Shake, Verifier}.
Implicit Types (s : StateStore).

(** ** Governance *)

Lemma valid_transition_rank a b : valid_transition a b = true -> lifecycle_rank a <= lifecycle_rank b.
Proof. by destruct a, b. Qed.

Lemma execute_registry_update_step p alg target fee h s :
  length (prop_proposal_id p) = 32%nat -> safe_step s (execute_registry_update p alg target fee h s).1.
Proof.
  intros Hl. unfold execute_registry_update.
  destruct (alg_entry s alg) as [e|] eqn:He; [|reflexivity].
  destruct (match target with Some _ => _ | None => _ end) eqn:Ht; [reflexivity|].
  cbn [fst]. rewrite commit_put_alg_entry.
  etrans; [|by apply insert_receipt_step].
  intros Hinv. apply set_alg_step; [| |done].
  - by apply (ok_algs _ (ci_store _ Hinv)) in He.
  - intros e0 He0. unfold alg_entry in He. rewrite He in He0. injection He0 as <-.
    split_and!; [done|done|]. destruct target as [l|]; [|reflexivity].
    apply negb_false_iff in Ht. by apply valid_transition_rank.
Qed.

Lemma execute_add_algorithm_step q s : safe_step s (execute_add_algorithm q s).1.
Proof.
  unfold execute_add_algorithm. destruct (_ || _) eqn:Hg; [reflexivity|].
  destruct (AlgId.from_u16 (aap_alg_id q)) as [alg|] eqn:Ha; [|reflexivity].
  destruct (from_option _ _ _); [|reflexivity].
  apply (set_alg_step (AlgId.as_u16 alg)).
  - split; [done|]. apply alg_as_u16_le.
  - intros e0 He0. apply AlgId.alg_from_u16_as_u16 in Ha. unfold alg_entry_registered in Hg.
    bool_hyps. rewrite <-Ha in *. exfalso. naive_solver.
Qed.

Lemma execute_effect_step p h s :
  length (prop_proposal_id p) = 32%nat -> effect_wf (prop_effect p) ->
  safe_step s (execute_effect p h s).1.
Proof.
  intros Hl Hwf. unfold execute_effect. destruct (prop_effect p); cbn [fst].
  - by apply execute_registry_update_step.
  - intros Hinv. apply set_fee_market_step; [apply (ok_fee_market _ (ci_store _ Hinv))|done|done].
  - intros Hinv. apply set_fee_market_step; [|apply (ci_burn _ Hinv)|done].
    apply (ok_fee_market _ (ci_store _ Hinv)).
  - apply same_tables_step; [by split|]. by apply insert_upgrade_ok.
  - apply execute_add_algorithm_step.
  - unfold execute_add_slashing_verifier. destruct (_ || _); [reflexivity|].
    apply same_tables_step; [by split|]. by apply insert_slashing_ok.
  - unfold execute_add_hash. destruct (_ || _); [reflexivity|].
    apply same_tables_step; [by split|]. by apply insert_hash_ok.
  - unfold execute_add_auth_template. by destruct (_ || _).
Qed.

Lemma execute_effect_frame p h s :
  st_proposals (execute_effect p h s).1 = st_proposals s /\
  same_tokens s (execute_effect p h s).1.
Proof.
  unfold execute_effect, execute_registry_update, execute_add_algorithm,
    execute_add_slashing_verifier, execute_add_hash, execute_add_auth_template.
  destruct (prop_effect p); try done; repeat case_match; done.
Qed.

(** What the tally of one open proposal does. *)
Lemma tally_one_spec id h s p :
  get_pending_proposal s id = Some p ->
  exists st s1, tally_one id h s = set_proposal id (p <| prop_status := st |>) s1 /\
    st <> ProposalStatus.Voting /\ get_pending_proposal s1 id = Some p /\
    (s1 = s /\ proposal_passes s p = false \/
     proposal_passes s p = true /\ s1 = (execute_effect p h s).1).
Proof.
  intros Hp. unfold tally_one. rewrite Hp. destruct (proposal_passes s p) eqn:Hpass.
  - destruct (execute_effect p h s) as [s1 b] eqn:He.
    destruct (execute_effect_frame p h s) as [Hf _]. rewrite He in Hf. cbn in Hf.
    assert (get_pending_proposal s1 id = Some p) as Hp1.
    { unfold get_pending_proposal in *. by rewrite Hf. }
    unfold set_proposal_status. rewrite Hp1. eexists _, s1. rewrite commit_put_proposal.
    split; [done|]. by destruct b; auto.
  - unfold set_proposal_status. rewrite Hp. eexists _, s. rewrite commit_put_proposal.
    split; [done|]. by destruct (_ <=? _); auto.
Qed.

Lemma tally_one_step id h s p :
  get_pending_proposal s id = Some p -> prop_status p = ProposalStatus.Voting ->
  safe_step s (tally_one id h s) /\ same_tokens s (tally_one id h s) /\
  (forall id', id' <> id -> get_pending_proposal (tally_one id h s) id' = get_pending_proposal s id').
Proof.
  intros Hp Hv. destruct (tally_one_spec id h s p Hp) as (st & s1 & -> & Hst & Hp1 & Hs1).
  destruct (execute_effect_frame p h s) as [Hf Ht].
  split_and!.
  - intros Hinv. destruct (get_proposal_keyed _ _ _ (ci_store _ Hinv) Hp) as [Hk Hl].
    pose proof (ci_proposals _ Hinv _ _ Hp) as Hwf.
    eapply safe_trans; [|apply set_proposal_step|done].
    + destruct Hs1 as [[-> _]|[_ ->]]; [reflexivity|].
      apply execute_effect_step; [by rewrite Hk|done].
    + done.
    + done.
    + rewrite Hp1. intros p0 [= <-]. by split_and!; cbn.
  - destruct Hs1 as [[-> _]|[_ ->]]; done.
  - intros id' Hne. unfold get_pending_proposal, set_proposal, set; cbn.
    rewrite lookup_insert_ne by done. destruct Hs1 as [[-> _]|[_ ->]]; [done|]. by rewrite Hf.
Qed.

Lemma tallies_step l h s :
  NoDup l ->
  (forall id, id ∈ l -> exists p, get_pending_proposal s id = Some p /\
                                  prop_status p = ProposalStatus.Voting) ->
  let s' := foldl (fun s id => tally_one id h s) s l in safe_step s s' /\ same_tokens s s'.
Proof.
  revert s. induction l as [|id l IH]; intros s Hnd Hl; cbn; [done|].
  apply NoDup_cons in Hnd as [Hid Hnd]. destruct (Hl id) as (p & Hp & Hv); [left|].
  destruct (tally_one_step id h s p Hp Hv) as (Hs & Ht & Ho).
  destruct (IH (tally_one id h s) Hnd) as [Hs' Ht'].
  { intros id' Hid'. destruct (Hl id') as (p' & ? & ?); [by right|]. exists p'.
    rewrite Ho; [done|]. by intros ->. }
  split; by etrans.
Qed.

Lemma pending_in_order_elem s p :
  p ∈ pending_proposals_in_order s <-> exists k, get_pending_proposal s k = Some p.
Proof.
  unfold pending_proposals_in_order. rewrite list_elem_of_fmap. split.
  - intros ([k v'] & -> & Hkv). exists k. by apply sorted_entries_elem in Hkv.
  - intros [k Hk]. exists (k, p). split; [done|]. by apply sorted_entries_elem.
Qed.

(** The keys of a listing of records filed under their own key. *)
Lemma NoDup_keyed {V} (key : V -> bytes) (m : gmap bytes V) (P : V -> Prop)
    `{!forall v, Decision (P v)} :
  map_Forall (fun k v => key v = k) m ->
  NoDup (key <$> filter P (sorted_entries bytes_le m).*2).
Proof.
  intros Hk. pose proof (sorted_entries_NoDup_fst bytes_le m) as Hnd.
  assert (forall x, x ∈ sorted_entries bytes_le m -> key x.2 = x.1) as Hkey.
  { intros [k v] Hx%sorted_entries_elem. by apply Hk. }
  induction (sorted_entries bytes_le m) as [|[k v] l IH]; [constructor|].
  apply NoDup_cons in Hnd as [Hx Hnd]. rewrite fmap_cons, filter_cons.
  assert (forall x, x ∈ l -> key x.2 = x.1) as Hkl by (intros; apply Hkey; by right).
  case_decide; [|by apply IH]. rewrite fmap_cons. constructor; [|by apply IH].
  rewrite list_elem_of_fmap. intros (v' & Hv & Hin). apply list_elem_of_filter in Hin as [_ Hin].
  apply list_elem_of_fmap in Hin as (x & -> & Hin). apply Hx. apply list_elem_of_fmap.
  exists x. split; [|done]. rewrite <-(Hkl x Hin), <-Hv. symmetry. apply (Hkey (k, v)). left.
Qed.

Lemma process_governance_tallies_step h s :
  chain_inv s -> let s' := process_governance_tallies h s in
  chain_inv s' /\ store_evolves s s' /\ same_tokens s s'.
Proof.
  intros Hinv. unfold process_governance_tallies.
  destruct (tallies_step (due_proposals s h) h s) as [Hs Ht].
  - unfold due_proposals, pending_proposals_in_order. apply NoDup_keyed.
    intros k p Hp. by apply (ok_proposals _ (ci_store _ Hinv)) in Hp as [? _].
  - intros id. unfold due_proposals. rewrite list_elem_of_fmap. intros (p & -> & Hp).
    apply list_elem_of_filter in Hp as [[Hv _] Hp].
    apply pending_in_order_elem in Hp as [k Hk].
    destruct (get_proposal_keyed _ _ _ (ci_store _ Hinv) Hk) as [-> _]. eauto.
  - destruct (Hs Hinv). done.
Qed.

(** ** Unbonding *)

Definition mark_exited (h : N) (v : ValidatorRecord) : ValidatorRecord :=
  if unbonding_expired h v then v <| val_status := ValidatorStatus.Exited |> else v.

Lemma unbonding_expired_status h v :
  unbonding_expired h v = true -> exists n, val_status v = ValidatorStatus.Unbonding n.
Proof. unfold unbonding_expired. destruct (val_status v); try done. eauto. Qed.

Definition unbonding_exits (h : N) s : list (Address * N) :=
  (fun v => (val_operator v, val_self_bond v)) <$>
    filter (fun v => unbonding_expired h v) (validators_in_order s).

(** The rows and the list the unbonding step returns. *)
Lemma process_unbonding_spec h s :
  let r := process_validator_unbonding_expirations h s in
  r.2 = unbonding_exits h s /\
  rows (st_validators r.1) = mark_exited h <$> rows (st_validators s) /\
  st_accounts r.1 = st_accounts s /\ st_attestations r.1 = st_attestations s /\
  st_proposals r.1 = st_proposals s /\ st_algs r.1 = st_algs s /\
  st_archival_records r.1 = st_archival_records s /\ st_fee_market r.1 = st_fee_market s /\
  st_block_height r.1 = st_block_height s /\ st_chain_id r.1 = st_chain_id s.
Proof.
  unfold process_validator_unbonding_expirations. cbn. rewrite foldl_commit_validators.
  unfold set; cbn. rewrite tbl_commits_rows. done.
Qed.

Lemma process_unbonding_step h s :
  safe_step s (process_validator_unbonding_expirations h s).1.
Proof.
  intros Hinv. pose proof (process_unbonding_ok h s (ci_store _ Hinv)) as Hok.
  destruct (process_unbonding_spec h s) as (_ & Hv & Ha & Ht & Hp & Hg & Hr & Hf & Hh & Hid).
  destruct Hinv. split; split; unfold tbl_all, tbl_evolves, get_account, get_validator in *;
    rewrite ?Ha, ?Ht, ?Hp, ?Hg, ?Hr, ?Hf, ?Hh, ?Hv; try done; try (intros ???; by eexists).
  - intros k v'. rewrite lookup_fmap_Some. intros (v & <- & Hkv) Htomb.
    unfold mark_exited in *. destruct (unbonding_expired h v) eqn:He; [|by eapply ci_validators].
    cbn in Htomb. apply unbonding_expired_status in He as [n He].
    pose proof (ci_validators _ _ Hkv Htomb). congruence.
  - intros k v'. rewrite lookup_fmap_Some. intros (v & _ & Hkv). by eapply ci_operators.
  - intros k v Hkv. exists (mark_exited h v). rewrite lookup_fmap, Hkv. split; [done|].
    intros Htomb. unfold mark_exited. destruct (unbonding_expired h v) eqn:He; [|done].
    apply unbonding_expired_status in He as [n He].
    pose proof (ci_validators _ _ Hkv Htomb). congruence.
Qed.

Lemma return_bond_Some s op bond a :
  get_account s op = Some a ->
  return_bond s (op, bond) =
  set_account op (a <| acc_balance := sat_add u128_max (acc_balance a) bond |>) s.
Proof. intros Ha. unfold return_bond. by rewrite Ha, commit_put_account. Qed.

Lemma return_bonds_step l s :
  (forall op bond, (op, bond) ∈ l -> is_Some (get_account s op)) ->
  safe_step s (foldl return_bond s l) /\ st_validators (foldl return_bond s l) = st_validators s /\
  st_block_height (foldl return_bond s l) = st_block_height s /\
  (balances s + list_sumN snd l <= u128_max ->
   balances (foldl return_bond s l) = balances s + list_sumN snd l).
Proof.
  revert s. induction l as [|[op bond] l IH]; intros s Hl; cbn [foldl list_sumN snd].
  { split_and!; [reflexivity|done|done|lia]. }
  destruct (Hl op bond) as [a Ha]; [left|]. rewrite (return_bond_Some _ _ _ _ Ha).
  set (a' := a <| acc_balance := _ |>).
  destruct (IH (set_account op a' s)) as (Hs & Hv & Hh & Hb).
  { intros op' bond' Hin. destruct (decide (op = op')) as [->|Hne].
    - by rewrite get_account_set_account.
    - rewrite get_account_set_account_ne by done. apply (Hl op' bond'). by right. }
  split_and!; [|by rewrite Hv|by rewrite Hh|].
  - etrans; [|exact Hs]. by apply set_balance_step.
  - intros Hle. pose proof (balance_le_balances _ _ _ Ha).
    pose proof (balances_set_account op a' s) as Hba. rewrite Ha in Hba. cbn in Hba.
    rewrite sat_add_small in Hba by lia. rewrite Hb; lia.
Qed.

(** The bonds of the validators that exit leave [bonds]. *)
Lemma list_sumN_filter_map {A} (P : A -> bool) (f : A -> N) (l : list A) :
  list_sumN f (filter (fun x => P x) l) = list_sumN (fun x => if P x then f x else 0) l.
Proof.
  induction l as [|x l IH]; [done|]. rewrite filter_cons.
  cbn [list_sumN]. case_decide as Hd; destruct (P x); try done; cbn [list_sumN]; by rewrite IH.
Qed.

Lemma map_sum_list {V} (f : V -> N) (m : gmap bytes V) :
  map_sum f m = list_sumN f (sorted_entries bytes_le m).*2.
Proof.
  transitivity (list_sumN f (map_to_list m).*2).
  - induction m as [|k v m Hk IH] using map_ind; [by rewrite map_to_list_empty|].
    rewrite map_sum_insert_fresh, IH by done.
    rewrite (list_sumN_Permutation f (map_to_list (<[k:=v]> m)).*2 ((k, v) :: map_to_list m).*2);
      [done|]. by rewrite map_to_list_insert.
  - apply list_sumN_Permutation. by rewrite sorted_entries_Permutation.
Qed.

Lemma list_sumN_fmap {A B} (f : B -> N) (g : A -> B) l :
  list_sumN f (g <$> l) = list_sumN (fun x => f (g x)) l.
Proof. induction l; cbn; [done|]. by rewrite IHl. Qed.

Lemma list_sumN_add {A} (f g h : A -> N) l :
  (forall x, f x + g x = h x) -> list_sumN f l + list_sumN g l = list_sumN h l.
Proof. intros Hf. induction l as [|x l IH]; cbn; [done|]. rewrite <-Hf, <-IH. lia. Qed.

Lemma unbonding_bonds h s :
  map_sum bonded (mark_exited h <$> rows (st_validators s))
  + list_sumN snd (unbonding_exits h s) = bonds s.
Proof.
  unfold bonds, unbonding_exits, validators_in_order. rewrite map_sum_fmap, list_sumN_fmap.
  rewrite !map_sum_list. rewrite (list_sumN_filter_map (unbonding_expired h)).
  apply list_sumN_add. intros v. unfold mark_exited.
  destruct (unbonding_expired h v) eqn:He; [|lia].
  destruct (unbonding_expired_status _ _ He) as [n Hn].
  unfold bonded; cbn. rewrite Hn. done.
Qed.

Lemma unbonding_step h s :
  chain_inv s ->
  let s' := foldl return_bond (process_validator_unbonding_expirations h s).1
              (process_validator_unbonding_expirations h s).2 in
  chain_inv s' /\ store_evolves s s' /\ st_block_height s' = st_block_height s /\
  (supply s <= u128_max -> supply s' = supply s).
Proof.
  intros Hinv. destruct (process_unbonding_step h s Hinv) as [Hinv1 Hev1].
  destruct (process_unbonding_spec h s) as (Hx & Hv & Ha & _ & _ & _ & _ & _ & Hh & _).
  set (s1 := (process_validator_unbonding_expirations h s).1) in *.
  rewrite Hx. destruct (return_bonds_step (unbonding_exits h s) s1) as (Hs & Hv2 & Hh2 & Hb).
  { intros op bond Hin. unfold unbonding_exits in Hin.
    apply list_elem_of_fmap in Hin as (v & [= -> ->] & Hin).
    apply list_elem_of_filter in Hin as [_ [k Hk]%validators_in_order_elem].
    destruct (get_validator_keyed _ _ _ (ci_store _ Hinv) Hk) as [-> _].
    unfold get_account. rewrite Ha. by eapply (ci_operators _ Hinv). }
  destruct (Hs Hinv1) as [Hinv2 Hev2]. split_and!; [done|by etrans|congruence|].
  intros Hle. unfold supply in *. pose proof (unbonding_bonds h s) as Hu.
  assert (balances s1 = balances s) as Hb1 by (unfold balances; by rewrite Ha).
  assert (bonds (foldl return_bond s1 (unbonding_exits h s)) =
    map_sum bonded (mark_exited h <$> rows (st_validators s))) as Hb2.
  { unfold bonds. by rewrite Hv2, Hv. }
  rewrite Hb2, Hb; lia.
Qed.

(** ** Rotations, heights, epochs *)

Definition conserving s s' : Prop :=
  safe_step s s' /\ supply s' = supply s /\ st_block_height s' = st_block_height s.

Global Instance conserving_preorder : PreOrder conserving.
Proof.
  split; [intros s; split_and!; reflexivity|].
  intros ??? (?&?&?) (?&?&?). split_and!; [by etrans|congruence|congruence].
Qed.

Lemma foldl_conserving {A} (f : StateStore -> A -> StateStore) l s :
  (forall s a, conserving s (f s a)) -> conserving s (foldl f s l).
Proof.
  intros Hf. revert s. induction l as [|a l IH]; intros s; cbn; [reflexivity|]. etrans; [apply Hf|apply IH].
Qed.

(** A validator update that keeps bond, status and tombstone. *)
Lemma set_validator_conserving k v v' s :
  get_validator s k = Some v -> val_operator v' = val_operator v -> validator_evolves v v' ->
  (validator_inv v -> validator_inv v') -> bonded v' = bonded v ->
  conserving s (set_validator k v' s).
Proof.
  intros Hv Hop Hev Hvi Hb. split_and!; [| |done].
  - intros Hinv. destruct (get_validator_keyed _ _ _ (ci_store _ Hinv) Hv) as [Hk Hl].
    apply set_validator_step; [by split; congruence| | | |done].
    + by apply Hvi, (ci_validators _ Hinv _ _ Hv).
    + by eapply (ci_operators _ Hinv).
    + rewrite Hv. by intros ? [= <-].
  - destruct (supply_set_validator k v v' s Hv). lia.
Qed.

Lemma activate_rotation_conserving addr s : conserving s (activate_rotation addr s).1.
Proof.
  unfold activate_rotation. destruct (rows (st_rotations s) !! addr) as [r|]; [|reflexivity].
  assert (conserving s (s <| st_rotations ::= tbl_remove addr |>)) as Hr.
  { split; [|done]. apply same_tables_step; [by split|apply remove_rotation_ok]. }
  destruct (get_validator _ addr) as [v|] eqn:Hv; cbn [fst]; [|done].
  rewrite commit_put_validator. etrans; [exact Hr|].
  by eapply set_validator_conserving.
Qed.

Lemma rotations_conserving h s :
  conserving s (activate_pending_consensus_key_rotations h s).1.
Proof.
  unfold activate_pending_consensus_key_rotations. generalize (due_rotations s h).
  assert (forall l (st : StateStore * list (Address * AlgId.t)),
    conserving st.1 (foldl (fun '(s, acts) addr =>
      let '(s, act) := activate_rotation addr s in
      (s, acts ++ from_option (fun a => [a]) [] act)) st l).1) as Hgo; [|intros l; exact (Hgo l (s, []))].
  induction l as [|addr l IH]; intros [s0 acts]; cbn; [reflexivity|].
  etrans; [|apply IH]. pose proof (activate_rotation_conserving addr s0).
  by destruct (activate_rotation addr s0).
Qed.

Lemma activate_key_evolves h k : key_evolves k (activate_key h k).
Proof.
  unfold activate_key. destruct (bool_decide _) eqn:Hp; [|apply key_evolves_refl]. bool_hyps.
  cbn. destruct (_ <=? _); [|apply key_evolves_refl]. eexists. split; [done|]. congruence.
Qed.

Lemma activate_keys_evolve h a : account_evolves a (activate_keys h a).
Proof.
  split; [done|done| |done]. exists (activate_key h <$> acc_keys a), [].
  split; [by rewrite app_nil_r|]. apply Forall2_fmap_r, Forall_Forall2_diag.
  apply Forall_forall. intros k _. apply activate_key_evolves.
Qed.

Lemma activate_key_version h k : key_version (activate_key h k) = key_version k.
Proof. unfold activate_key. by destruct (_ && _). Qed.

Lemma activate_keys_inv h a : account_inv a -> account_inv (activate_keys h a).
Proof.
  intros [Hnil|Hc]; [left; unfold activate_keys, set; cbn; by rewrite Hnil|]. right.
  unfold check_invariants in *. run_inv.
  assert (KeySetOps.has_active_key (acc_keys (activate_keys h a)) = true) as ->.
  { apply has_active_key_spec. apply has_active_key_spec in H2 as (k & Hk & Hs).
    exists (activate_key h k). split; [cbn; by apply list_elem_of_fmap_2|].
    unfold activate_key. rewrite bool_decide_false by congruence. done. }
  assert (KeySetOps.has_duplicate_versions (acc_keys (activate_keys h a)) = false) as ->.
  { apply has_duplicate_versions_spec. apply has_duplicate_versions_spec in H3.
    cbn. rewrite <-list_fmap_compose. erewrite list_fmap_ext; [exact H3|].
    intros i k _. apply activate_key_version. }
  cbn. by rewrite Hc.
Qed.

Lemma advance_height_step {E} s s' :
  advance_height (E := E) s = Ok s' ->
  safe_step s s' /\ supply s' = supply s /\ st_block_height s' = st_block_height s + 1.
Proof.
  intros Ha. assert (store_ok s -> store_ok s') as Hok by (intros; by eapply advance_height_ok).
  unfold advance_height in Ha. run_inv. rewrite foldl_commit_accounts.
  match goal with |- safe_step s ?s' /\ _ => assert (rows (st_accounts s') =
    activate_keys (st_block_height s + 1) <$> rows (st_accounts s)) as Hacc end.
  { unfold set; cbn. by rewrite tbl_commits_rows. }
  split_and!; [| |done].
  - intros Hinv. rewrite foldl_commit_accounts in Hok. specialize (Hok (ci_store _ Hinv)).
    destruct Hinv. split; [split|split]; try done; try (cbn; lia).
    + intros k a'. rewrite Hacc, lookup_fmap_Some. intros (a & <- & Hk).
      by apply activate_keys_inv, (ci_accounts k).
    + intros k v Hv. unfold get_account. rewrite Hacc, lookup_fmap.
      destruct (ci_operators k v Hv) as [a Hk]. unfold get_account in Hk. by rewrite Hk.
    + intros k a Hk. exists (activate_keys (st_block_height s + 1) a).
      rewrite Hacc, lookup_fmap, Hk. split; [done|apply activate_keys_evolve].
  - unfold supply, balances. rewrite Hacc, map_sum_fmap. done.
Qed.

Lemma activate_validator_conserving op s : conserving s (activate_validator op s).
Proof.
  unfold activate_validator. destruct (get_validator s op) as [v|] eqn:Hv; [|reflexivity].
  case_bool_decide as Hc; [|reflexivity]. rewrite commit_put_validator.
  split_and!; [| |done].
  - intros Hinv. pose proof (ci_validators _ Hinv _ _ Hv) as Hvi.
    assert (val_tombstoned v = false) as Ht.
    { destruct (val_tombstoned v) eqn:Ht; [|done]. specialize (Hvi Ht). congruence. }
    destruct (get_validator_keyed _ _ _ (ci_store _ Hinv) Hv).
    apply set_validator_step; [done| | | |done].
    + intros Ht'. cbn in Ht'. congruence.
    + by eapply (ci_operators _ Hinv).
    + rewrite Hv. intros ? [= <-] Ht'. congruence.
  - destruct (supply_set_validator op v (v <| val_status := ValidatorStatus.Active |>) s Hv) as [Hs _].
    rewrite !bonded_live in Hs by (cbn; congruence). cbn in Hs. lia.
Qed.

Lemma epoch_step_conserving config h s : conserving s (epoch_step config h s).
Proof.
  unfold epoch_step. destruct (is_epoch_boundary _ _); [|reflexivity].
  apply foldl_conserving. intros. apply activate_validator_conserving.
Qed.

(** ** Active validators *)

Definition has_active s : Prop := exists k v, get_validator s k = Some v /\ val_status v = ValidatorStatus.Active.

Lemma has_active_spec s : active_validators s <> [] <-> has_active s.
Proof.
  unfold active_validators. split.
  - destruct (filter _ _) as [|v l] eqn:Hf; [done|]. intros _.
    assert (v ∈ v :: l) as Hv by left. rewrite <-Hf in Hv.
    apply list_elem_of_filter in Hv as [Ha [k Hk]%validators_in_order_elem]. by exists k, v.
  - intros (k & v & Hk & Ha) Hf. apply (not_elem_of_nil v). rewrite <-Hf.
    apply list_elem_of_filter. split; [done|]. apply validators_in_order_elem. by exists k.
Qed.

Lemma has_active_same s s' : rows (st_validators s') = rows (st_validators s) -> has_active s' -> has_active s.
Proof. intros Heq (k & v & Hk & Ha). exists k, v. unfold get_validator in *. by rewrite <-Heq. Qed.

Lemma return_bonds_validators l s : st_validators (foldl return_bond s l) = st_validators s.
Proof.
  revert s. induction l as [|[op bond] l IH]; intros s; cbn; [done|]. rewrite IH.
  destruct (get_account s op); [by rewrite commit_put_account|done].
Qed.

Lemma activate_rotation_active addr s : has_active (activate_rotation addr s).1 -> has_active s.
Proof.
  unfold activate_rotation. destruct (rows (st_rotations s) !! addr) as [r|]; [|done].
  destruct (get_validator _ addr) as [v|] eqn:Hv; cbn [fst]; [|by apply has_active_same].
  rewrite commit_put_validator. intros (k & w & Hk & Ha).
  unfold get_validator in *. cbn in Hk, Hv. destruct (decide (k = addr)) as [->|Hne].
  - rewrite lookup_insert_eq in Hk. injection Hk as <-. by exists addr, v.
  - rewrite lookup_insert_ne in Hk by done. by exists k, w.
Qed.

(** ** Fees *)

Lemma split_fees_exact vf n dist :
  0 < n -> vf <= u128_max ->
  (split_fees vf n dist).1 + (split_fees vf n dist).2 * n = vf.
Proof.
  intros Hn Hmax. unfold split_fees. cbn [fst snd].
  set (prio := sat_mul _ vf _ / 10000).
  assert (prio <= vf) by (apply bps_le; lia).
  set (per := (vf - prio) / n).
  assert (per * n <= vf - prio) by (rewrite N.mul_comm; by apply N.Div0.mul_div_le).
  rewrite sat_mul_small by lia. rewrite sat_add_small by lia. lia.
Qed.

Lemma burn_share_le s fees :
  fm_burn_rate_bps (st_fee_market s) <= 10000 -> burn_share s fees <= fees.
Proof. intros. unfold burn_share. destruct (_ <? _); [by apply bps_le|lia]. Qed.

Lemma credit_height addr amount s :
  st_block_height (credit_account addr amount s) = st_block_height s.
Proof.
  unfold credit_account. destruct (_ =? _); [done|].
  destruct (get_account s addr); [by rewrite commit_put_account|done].
Qed.

(** A share of the fees: what it does, and what it adds when it fits. *)
Definition pays (amount : N) s s' : Prop :=
  safe_step s s' /\ st_block_height s' = st_block_height s /\
  (supply s + amount <= u128_max -> supply s' = supply s + amount).

Lemma pays_refl s : pays 0 s s.
Proof. split_and!; [reflexivity|done|lia]. Qed.

Lemma pays_trans a b s1 s2 s3 : pays a s1 s2 -> pays b s2 s3 -> pays (a + b) s1 s3.
Proof.
  intros (Hs1 & Hh1 & Hp1) (Hs2 & Hh2 & Hp2). split_and!; [by etrans|congruence|].
  intros. rewrite Hp2; rewrite Hp1; lia.
Qed.

Lemma credit_pays addr amount s : length addr = 32%nat -> pays amount s (credit_account addr amount s).
Proof.
  intros. split_and!; [by apply credit_account_step|apply credit_height|].
  intros. apply supply_credit. unfold supply in *. lia.
Qed.

Lemma credit_all_pays l per s :
  (forall a, a ∈ l -> length a = 32%nat) ->
  pays (per * len l) s (foldl (fun s addr => credit_account addr per s) s l).
Proof.
  revert s. induction l as [|a l IH]; intros s Hl; cbn [foldl].
  { unfold len. rewrite N.mul_0_r. apply pays_refl. }
  replace (per * len (a :: l)) with (per + per * len l) by (unfold len; cbn [length]; lia).
  eapply pays_trans; [apply credit_pays, Hl; left|apply IH; intros; apply Hl; by right].
Qed.

Lemma distribute_block_fees_pays proposer fees pool dist s :
  length proposer = 32%nat -> (forall a, a ∈ pool -> length a = 32%nat) ->
  fm_burn_rate_bps (st_fee_market s) <= 10000 -> fees <= u128_max ->
  pays fees s (distribute_block_fees proposer fees pool dist s).
Proof.
  intros Hp Hpool Hr Hmax. unfold distribute_block_fees.
  destruct (N.eqb_spec fees 0) as [->|_]; [apply pays_refl|].
  pose proof (burn_share_le s fees Hr) as Hb. set (burn := burn_share s fees) in *.
  assert (pays burn s (if 0 <? burn then credit_account ZERO_ADDRESS burn s else s)) as Hburn.
  { destruct (N.ltb_spec 0 burn); [by apply credit_pays|].
    replace burn with 0 by lia. apply pays_refl. }
  set (s1 := if 0 <? burn then _ else s) in *.
  destruct (N.eqb_spec (fees - burn) 0) as [Hz|_]; [by replace fees with burn by lia|].
  replace fees with (burn + (fees - burn)) at 1 by lia. eapply pays_trans; [exact Hburn|].
  case_bool_decide as Hnil; [by apply credit_pays|].
  pose proof (split_fees_exact (fees - burn) (len pool) dist) as Hsp.
  destruct (split_fees (fees - burn) (len pool) dist) as [amount per]. cbn [fst snd] in Hsp.
  rewrite <-Hsp by (unfold len; destruct pool; [done|cbn; lia] || lia).
  pose proof (credit_pays proposer amount s1 Hp) as Hprop. destruct (N.ltb_spec 0 per).
  - eapply pays_trans; [exact Hprop|by apply credit_all_pays].
  - replace per with 0 by lia. by rewrite N.add_0_r.
Qed.

Lemma fee_pool_lengths s fallback :
  store_ok s -> (forall a, a ∈ fallback -> length a = 32%nat) ->
  forall a, a ∈ fee_pool s fallback -> length a = 32%nat.
Proof.
  intros Hok Hf a. unfold fee_pool. case_bool_decide; [apply Hf|].
  rewrite list_elem_of_fmap. intros (v & -> & Hv). unfold active_validators in Hv.
  apply list_elem_of_filter in Hv as [_ [k Hk]%validators_in_order_elem].
  by destruct (get_validator_keyed _ _ _ Hok Hk) as [-> ?].
Qed.

(** ** The whole end of a block *)

Lemma aimd_step {E} gas s :
  chain_inv s -> exists s', apply_aimd_update (E := E) gas s = Ok s' /\ chain_inv s' /\
    store_evolves s s' /\ same_tokens s s'.
Proof.
  intros Hinv. unfold apply_aimd_update, apply_fee_market_step.
  destruct (fee_market_step_Ok (E := E) (st_fee_market s) gas 0 0 0) as (fm & -> & Hwf & Hb);
    [apply (ok_fee_market _ (ci_store _ Hinv))|].
  eexists. split; [done|].
  destruct (set_fee_market_step fm s Hwf) with (1 := eq_ind_r (fun b => b <= 10000) (ci_burn _ Hinv) Hb)
    (2 := Hinv) as [??].
  done.
Qed.

Lemma end_of_block_step {E} h gas s :
  chain_inv s -> exists s1, end_of_block (E := E) h gas s = advance_height s1 /\ chain_inv s1 /\
    store_evolves s s1 /\ st_block_height s1 = st_block_height s /\
    (supply s <= u128_max -> supply s1 = supply s).
Proof.
  intros Hinv. unfold end_of_block.
  destruct (aimd_step (E := E) gas s Hinv) as (s1 & -> & Hinv1 & Hev1 & Ht1). cbn [mbind outcome_bind].
  destruct (process_governance_tallies_step h s1 Hinv1) as (Hinv2 & Hev2 & Ht2).
  set (s2 := process_governance_tallies h s1) in *.
  destruct (unbonding_step h s2 Hinv2) as (Hinv3 & Hev3 & Hh3 & Hsup3).
  destruct (process_validator_unbonding_expirations h s2) as [s2' exits]. cbn [fst snd] in *.
  set (s3 := foldl return_bond s2' exits) in *.
  destruct (rotations_conserving h s3) as (Hs4 & Hsup4 & Hh4).
  destruct (activate_pending_consensus_key_rotations h s3) as [s4 acts]. cbn [fst snd] in *.
  destruct (Hs4 Hinv3) as [Hinv4 Hev4].
  pose proof Ht1 as (_ & _ & Hh1). pose proof Ht2 as (_ & _ & Hh2).
  exists s4. split_and!; [done|done|by do 3 (etrans; [done|])|congruence|].
  destruct (same_tokens_supply _ _ Ht1) as [Hsup1 _].
  destruct (same_tokens_supply _ _ Ht2) as [Hsup2 _]. intros. rewrite Hsup4, Hsup3; lia.
Qed.

(** The fees and everything after them. *)
Lemma finish_block_step {E} proposer pool dist h fees gas s :
  chain_inv s -> length proposer = 32%nat -> (forall a, a ∈ pool -> length a = 32%nat) ->
  fees <= u128_max ->
  exists s1, finish_block (E := E) proposer pool dist h fees gas s = advance_height s1 /\
    chain_inv s1 /\ store_evolves s s1 /\ st_block_height s1 = st_block_height s /\
    (supply s + fees <= u128_max -> supply s1 = supply s + fees).
Proof.
  intros Hinv Hp Hpool Hmax. unfold finish_block.
  destruct (distribute_block_fees_pays proposer fees (fee_pool s pool) dist s)
    as (Hs1 & Hh1 & Hsup1); [done| |apply (ci_burn _ Hinv)|done|].
  { apply fee_pool_lengths; [apply (ci_store _ Hinv)|done]. }
  set (s1 := distribute_block_fees _ _ _ _ _) in *. destruct (Hs1 Hinv) as [Hinv1 Hev1].
  destruct (end_of_block_step (E := E) h gas s1 Hinv1) as (s2 & -> & Hinv2 & Hev2 & Hh2 & Hsup2).
  exists s2. split_and!; [done|done|by etrans|congruence|]. intros. rewrite Hsup2; lia.
Qed.

(** No step after the fees makes a validator active. *)

Lemma rotations_active h s : has_active (activate_pending_consensus_key_rotations h s).1 -> has_active s.
Proof.
  unfold activate_pending_consensus_key_rotations. generalize (due_rotations s h).
  assert (forall l (st : StateStore * list (Address * AlgId.t)),
    has_active (foldl (fun '(s, acts) addr =>
      let '(s, act) := activate_rotation addr s in
      (s, acts ++ from_option (fun a => [a]) [] act)) st l).1 -> has_active st.1) as Hgo;
    [|intros l; exact (Hgo l (s, []))].
  induction l as [|addr l IH]; intros [s0 acts]; cbn; [done|]. intros Ha%IH.
  pose proof (activate_rotation_active addr s0). destruct (activate_rotation addr s0). auto.
Qed.

Lemma unbonding_active h s : has_active (process_validator_unbonding_expirations h s).1 -> has_active s.
Proof.
  intros (k & v' & Hk & Ha). destruct (process_unbonding_spec h s) as (_ & Hv & _).
  unfold get_validator in Hk. rewrite Hv, lookup_fmap_Some in Hk. destruct Hk as (v & <- & Hk).
  exists k, v. split; [done|]. revert Ha. unfold mark_exited. by destruct (unbonding_expired h v).
Qed.

Lemma advance_height_validators {E} s s' :
  advance_height (E := E) s = Ok s' -> st_validators s' = st_validators s.
Proof. unfold advance_height. intros Ha. run_inv. by rewrite foldl_commit_accounts. Qed.

Lemma distribute_validators proposer fees pool dist s :
  st_validators (distribute_block_fees proposer fees pool dist s) = st_validators s.
Proof.
  assert (forall amount l s, st_validators (foldl (fun s addr => credit_account addr amount s) s l)
    = st_validators s) as Hl.
  { intros amount l. induction l as [|a l IH]; intros s0; cbn; [done|]. by rewrite IH, credit_validators. }
  unfold distribute_block_fees. repeat case_match; by rewrite ?Hl, ?credit_validators.
Qed.

Lemma end_of_block_active {E} h gas s s' :
  chain_inv s -> end_of_block (E := E) h gas s = Ok s' -> has_active s' -> has_active s.
Proof.
  intros Hinv. unfold end_of_block.
  destruct (aimd_step (E := E) gas s Hinv) as (s1 & -> & Hinv1 & _ & _ & Hv1 & _). cbn [mbind outcome_bind].
  destruct (process_governance_tallies_step h s1 Hinv1) as (_ & _ & _ & Hv2 & _).
  set (s2 := process_governance_tallies h s1) in *. pose proof (unbonding_active h s2) as H3.
  destruct (process_validator_unbonding_expirations h s2) as [s3 exits]. cbn [fst] in H3.
  pose proof (rotations_active h (foldl return_bond s3 exits)) as H4.
  destruct (activate_pending_consensus_key_rotations _ _) as [s4 acts]. cbn [fst] in H4.
  intros Ha%advance_height_validators Hact. apply (has_active_same s s1); [by rewrite Hv1|].
  apply (has_active_same s1 s2); [by rewrite Hv2|]. apply H3.
  apply (has_active_same s3 (foldl return_bond s3 exits)); [by rewrite return_bonds_validators|].
  apply H4, (has_active_same s4 s'); [by rewrite Ha|done].
Qed.

(** The static pool matters only for a block that leaves no active validator. *)
Lemma finish_block_fallback {E} proposer pool pool' dist h fees gas s s' :
  chain_inv s -> length proposer = 32%nat -> (forall a, a ∈ pool -> length a = 32%nat) ->
  fees <= u128_max -> has_active s' ->
  finish_block (E := E) proposer pool dist h fees gas s = Ok s' ->
  finish_block (E := E) proposer pool' dist h fees gas s = Ok s'.
Proof.
  intros Hinv Hp Hpool Hmax Hact Hf.
  assert (fee_pool s pool' = fee_pool s pool) as Heq; [|unfold finish_block; rewrite Heq; exact Hf].
  assert (has_active s) as Ha%has_active_spec.
  { destruct (distribute_block_fees_pays proposer fees (fee_pool s pool) dist s)
      as (Hs1 & _); [done| |apply (ci_burn _ Hinv)|done|].
    { apply fee_pool_lengths; [apply (ci_store _ Hinv)|done]. }
    destruct (Hs1 Hinv) as [Hinv1 _]. eapply has_active_same; [|exact (end_of_block_active _ _ _ _ Hinv1 Hf Hact)].
    by rewrite distribute_validators. }
  unfold fee_pool. by destruct (active_validators s).
Qed.

Lemma tx_effect_height tx s s' : tx_effect tx s s' -> st_block_height s' = st_block_height s.
Proof.
  destruct 1; subst; unfold push_archival_anchor, increment_archival_record_version,
    set_validator_peer_id, credit_treasury, record_recent_slash, prune_recent_slashes_before;
    try done; try (by rewrite credit_height); repeat case_match; try done.
  all: cbn; by rewrite credit_height.
Qed.

Lemma apply_tx_height s tx ctx s' r :
  chain_inv s -> apply_tx s tx ctx = Ok (s', r) -> st_block_height s' = st_block_height s.
Proof.
  intros Hinv (s1 & (a & _ & _ & _ & ->)%settle_sender_Ok & [(-> & _)|(Hp & _)])%apply_tx_Ok; [done|].
  change (st_block_height s1 = st_block_height s).
  apply (tx_effect_height tx), apply_payload_refines; [apply (ci_store _ Hinv)| |done].
  intros v Hv. by apply (ci_validators _ Hinv _ _ Hv).
Qed.

(** ** The assembly loop *)

Lemma add_fees_small fees charged tip :
  fees + charged + tip <= u128_max -> add_fees fees charged tip = fees + charged + tip.
Proof. unfold add_fees, sat_add. lia. Qed.

(** What the loop maintains, from the state [s0] at the start of the block. *)
Record assembling s0 (a : Assembly) : Prop := {
  asg_inv : chain_inv (as_store a);
  asg_evolves : store_evolves s0 (as_store a);
  asg_height : st_block_height (as_store a) = st_block_height s0;
  asg_fees : as_fees_collected a <= u128_max;
  asg_supply : gross s0 <= u128_max ->
    supply s0 <= supply (as_store a) + as_fees_collected a /\
    gross (as_store a) + as_fees_collected a <= gross s0;
  asg_len : length (as_included a) = length (as_transactions a)
}.

Lemma assemble_entry_step {E} config s0 a entry a' :
  tx_wf (pe_tx entry) -> assembling s0 a ->
  assemble_entry (E := E) config a entry = Ok a' -> assembling s0 a'.
Proof.
  intros Hwf [Hinv Hev Hh Hfees Hsup Hl] He.
  destruct a as [s pool included txs deferred bytes skipped fees gas]; cbn in *.
  destruct (cfg_max_block_bytes config <? _); [run_inv; by split|].
  destruct (apply_tx s (pe_tx entry) _) as [[s' r]|e|] eqn:Ha; run_inv; [|by split].
  destruct Hwf as (_ & Hls & _ & Hf & Ht & _).
  assert (length (tx_sender (pe_tx entry)) = 32%nat) as Hls32 by (unfold len in Hls; lia).
  destruct (apply_tx_step _ _ _ _ _ Hls32 Ha Hinv) as [Hinv' Hev'].
  split; cbn; [done|by etrans|by rewrite (apply_tx_height _ _ _ _ _ Hinv Ha)| | |].
  - unfold add_fees, sat_add. lia.
  - intros Hmax. destruct (Hsup Hmax) as [Hs Hg].
    destruct (apply_tx_supply_gross _ _ _ _ _ Hinv Hf Ht ltac:(lia) Ha) as [Hs' Hg'].
    rewrite add_fees_small; lia.
  - rewrite !length_app. cbn. lia.
Qed.

Lemma assembly_steps {E} config s pool l a :
  chain_inv s -> (forall e, e ∈ l -> tx_wf (pe_tx e)) ->
  foldM (assemble_entry (E := E) config) (mkAssembly s pool [] [] [] 0 [] 0 0) l = Ok a ->
  assembling s a.
Proof.
  intros Hinv Hwf. apply (foldM_invariant _ (assembling s)).
  - intros a0 e a' He. apply assemble_entry_step. by apply Hwf.
  - split; cbn; [done|reflexivity|done|lia|lia|done].
Qed.

Definition pool_txs_wf (pool : Mempool) : Prop := forall e, e ∈ all_pending pool -> tx_wf (pe_tx e).
Definition config_wf (config : AssemblyConfig) : Prop :=
  forall a, a ∈ cfg_validator_pool config -> length a = 32%nat.

Lemma pending_in_order_wf pool :
  pool_txs_wf pool -> forall e, e ∈ pending_in_order pool -> tx_wf (pe_tx e).
Proof. intros Hwf e. unfold pending_in_order. rewrite merge_sort_Permutation. apply Hwf. Qed.

(** The loop of a block that was assembled, and what followed it. *)
Lemma assemble_block_parts s pool ctx config s' pool' r :
  chain_inv s -> pool_txs_wf pool -> config_wf config ->
  assemble_block s pool ctx config = Ok (s', pool', r) ->
  exists a,
    foldM (assemble_entry (E := AssembleError.t) config)
      (mkAssembly s pool [] [] [] 0 [] 0 0) (pending_in_order pool) = Ok a /\
    assembling s a /\ chain_inv s' /\ store_evolves (as_store a) s' /\
    st_block_height s' = st_block_height s + 1 /\ asm_height ctx = st_block_height s' /\
    (supply (as_store a) + as_fees_collected a <= u128_max ->
     supply s' = supply (as_store a) + as_fees_collected a) /\
    exe_included_transactions r = as_transactions a /\ exe_included r = as_included a /\
    exe_new_height r = st_block_height s' /\
    bh_state_root (blk_header (exe_block r)) = state_root s'.
Proof.
  intros Hinv Hwf Hpool Ha. unfold assemble_block in Ha. run_inv. exists x1.
  pose proof H4 as Hg. apply assembly_steps in Hg; [|done|by apply pending_in_order_wf].
  pose proof Hg as [Hinv1 _ Hh1 Hfees _ _].
  destruct (finish_block_step (E := AssembleError.t) (asm_proposer ctx) (cfg_validator_pool config)
    (cfg_fee_dist config) (asm_height ctx) (as_fees_collected x1) (as_block_gas_used x1)
    (as_store x1) Hinv1) as (s2 & Hf & Hinv2 & Hev2 & Hh2 & Hsup2);
    [unfold len in *; lia|done|done|].
  rewrite Hf in H5. apply advance_height_step in H5 as (Hs3 & Hsup3 & Hh3).
  destruct (Hs3 Hinv2) as [Hinv3 Hev3].
  destruct (epoch_step_conserving (cfg_epoch_config config) (asm_height ctx) x2)
    as (Hs4 & Hsup4 & Hh4). destruct (Hs4 Hinv3) as [Hinv4 Hev4].
  simplify_eq. cbn. split_and!; try done.
  - by do 2 (etrans; [done|]).
  - congruence.
  - unfold sat_add in *. pose proof (ok_block_height _ (ci_store _ Hinv4)). lia.
  - intros. rewrite Hsup4, Hsup3, Hsup2; lia.
Qed.

(** The state after a block, from any outcome of [assemble_block]. *)
Lemma assemble_block_step s pool ctx config s' pool' r :
  chain_inv s -> pool_txs_wf pool -> config_wf config ->
  assemble_block s pool ctx config = Ok (s', pool', r) ->
  chain_inv s' /\ store_evolves s s' /\ st_block_height s' = st_block_height s + 1 /\
  (gross s <= u128_max -> supply s <= supply s' <= gross s).
Proof.
  intros Hinv Hwf Hpool Ha.
  destruct (assemble_block_parts _ _ _ _ _ _ _ Hinv Hwf Hpool Ha)
    as (a & _ & [Hinv1 Hev1 Hh1 _ Hsup1 _] & Hinv' & Hev & Hh & _ & Hsup & _).
  split_and!; [done|by etrans|done|]. intros Hmax. destruct (Hsup1 Hmax).
  pose proof (bonds_le_gross (as_store a)). rewrite Hsup; lia.
Qed.
Definition without_fallback (config : AssemblyConfig) : AssemblyConfig :=
  mkAssemblyConfig (cfg_max_block_bytes config) (cfg_fee_params config) [] (cfg_fee_dist config)
    (cfg_epoch_config config).

Lemma assemble_without_fallback s pool ctx config r :
  chain_inv s -> pool_txs_wf pool -> config_wf config ->
  is_epoch_boundary (asm_height ctx) (epc_epoch_duration (cfg_epoch_config config)) = false ->
  assemble_block s pool ctx config = Ok r -> active_validators r.1.1 <> [] ->
  assemble_block s pool ctx (without_fallback config) = Ok r.
Proof.
  intros Hinv Hwf Hpool Hne Ha Hact%has_active_spec. unfold assemble_block in *.
  apply bind_Ok in Ha as ([] & Hh & Ha). rewrite Hh. cbn [mbind outcome_bind].
  apply bind_Ok in Ha as ([] & Hp & Ha). rewrite Hp. cbn [mbind outcome_bind].
  change (assemble_entry (E := AssembleError.t) (without_fallback config))
    with (assemble_entry (E := AssembleError.t) config).
  apply bind_Ok in Ha as (a & Hloop & Ha). rewrite Hloop. cbn [mbind outcome_bind].
  pose proof (assembly_steps _ _ _ _ _ Hinv (pending_in_order_wf _ Hwf) Hloop) as [Hinv1 _ _ Hfees _ _].
  apply bind_Ok in Ha as (s1 & Hf & Ha).
  cbn [without_fallback cfg_validator_pool cfg_fee_dist cfg_epoch_config].
  rewrite (finish_block_fallback _ _ [] _ _ _ _ _ s1 Hinv1) with (5 := Hf); [exact Ha| |exact Hpool|exact Hfees|].
  - unfold ensure in Hp. destruct (_ =? 32) eqn:Hl; [|done]. apply N.eqb_eq in Hl. unfold len in Hl. lia.
  - injection Ha as <-. cbn in Hact. unfold epoch_step in Hact. by rewrite Hne in Hact.
Qed.
End block_inv.
