(* ===== verification/Chain.v ===== *)
(** * The block store: [pqc-consensus/src/chain.rs].

    Blocks indexed by hash and by height, a tip, and the anchor and base height a
    chain that starts from a checkpoint has.
    [ChainInv] relates the store to one linked chain from the anchor to the tip. *)

From S2P Require Import Prelude Crypto Types Cbor Payloads Tx FeeMarket Leaves Store StoreInv.
From S2P Require Import ApplyAccounts ApplyValidators Governance Archival ApplyTx Mempool Block.

#[local] Open Scope string_scope.
#[local] Open Scope N_scope.

Record BlockMetadata := mkBlockMetadata {
  md_block_hash : bytes;
  md_height : N;
  md_prev_hash : bytes;
  md_state_root : bytes;
  md_tx_root : bytes;
  md_timestamp : N;
  md_bytes_used : N;
  md_included_count : N;
  md_deferred_count : N;
  md_skipped_count : N;
  md_vc_budget_consumed : N
}.

Record StoredBlock := mkStoredBlock {
  sb_block : Block;
  sb_metadata : BlockMetadata;
  sb_included_transactions : list Transaction
}.

Module ChainError.
Inductive t : Type :=
  | DuplicateBlockHash
  | DuplicateBlockHeight (height : N)
  | InvalidBlockHeight (expected got : N)
  | ParentHashMismatch (expected got : bytes)
  | ExecutionHeightMismatch (block_height execution_height : N)
  | ExecutionRootMismatch
  | StoredBlockHashMismatch
  | StoredBlockMetadataMismatch (detail : string)
  | StoredBlockBodyCountMismatch
  | ReplaceNotAtTip (requested tip : N)
  | ReplaceEmptyChain
  | SiblingStateDivergence (height : N) (field : string)
  | SiblingHashCollision.
End ChainError.

Record ChainStore := mkChainStore {
  ch_anchor_prev_hash : bytes;
  ch_by_hash : gmap bytes StoredBlock;
  ch_by_height : gmap N bytes;
  ch_tip_hash : option bytes;
  ch_base_height : N
}.

Definition ChainStore_new_with_base (anchor_prev_hash : bytes) (base_height : N) : ChainStore :=
  mkChainStore anchor_prev_hash ∅ ∅ None base_height.
Definition ChainStore_new (anchor_prev_hash : bytes) : ChainStore :=
  ChainStore_new_with_base anchor_prev_hash 0.

Definition chain_tip (c : ChainStore) : option StoredBlock :=
  ch_tip_hash c ≫= fun hash => ch_by_hash c !! hash.

Definition chain_height (c : ChainStore) : N :=
  from_option (fun stored => md_height (sb_metadata stored)) (ch_base_height c) (chain_tip c).

Definition get_stored_block_by_height (c : ChainStore) (height : N) : option StoredBlock :=
  ch_by_height c !! height ≫= fun hash => ch_by_hash c !! hash.

Definition get_metadata_by_height (c : ChainStore) (height : N) : option BlockMetadata :=
  sb_metadata <$> get_stored_block_by_height c height.

(** The tip's hash, or the anchor of a chain without blocks. *)
Definition expected_prev_hash (c : ChainStore) : bytes :=
  default (ch_anchor_prev_hash c) (ch_tip_hash c).

(** The hashes in the order of the [BTreeMap], and their blocks. *)
Definition hashes_in_order (c : ChainStore) : list bytes :=
  (sorted_entries N.le (ch_by_height c)).*2.
Definition blocks_in_order (c : ChainStore) : list StoredBlock :=
  omap (fun hash => ch_by_hash c !! hash) (hashes_in_order c).

Section chain_ops.
Context `{Ciborium, Shake, Verifier}.

(** The checks [validate_execution] and [validate_stored_block] share. *)
Definition validate_position (c : ChainStore) (b : Block) : outcome ChainError.t unit :=
  let height := bh_height (blk_header b) in
  let expected_height := sat_add u64_max (chain_height c) 1 in
  ensure (negb (bool_decide (is_Some (ch_by_hash c !! compute_block_hash b))))
    ChainError.DuplicateBlockHash ;;
  ensure (negb (bool_decide (is_Some (ch_by_height c !! height))))
    (ChainError.DuplicateBlockHeight height) ;;
  ensure (height =? expected_height) (ChainError.InvalidBlockHeight expected_height height) ;;
  ensure (bool_decide (bh_prev_hash (blk_header b) = expected_prev_hash c))
    (ChainError.ParentHashMismatch (expected_prev_hash c) (bh_prev_hash (blk_header b))).

Definition validate_execution (c : ChainStore) (execution : BlockExecutionResult)
    : outcome ChainError.t unit :=
  let header := blk_header (exe_block execution) in
  ensure (bh_height header =? exe_new_height execution)
    (ChainError.ExecutionHeightMismatch (bh_height header) (exe_new_height execution)) ;;
  ensure (bool_decide (bh_state_root header = exe_state_root execution)
          && bool_decide (bh_tx_root header = exe_tx_root execution))
    ChainError.ExecutionRootMismatch ;;
  validate_position c (exe_block execution).

Definition validate_stored_block (c : ChainStore) (stored : StoredBlock)
    : outcome ChainError.t unit :=
  let '(mkStoredBlock b m txs) := stored in
  let header := blk_header b in
  let agree (x y : bytes) (detail : string) :=
    ensure (bool_decide (x = y)) (ChainError.StoredBlockMetadataMismatch detail) in
  ensure (md_height m =? bh_height header)
    (ChainError.StoredBlockMetadataMismatch "metadata height does not match block header") ;;
  agree (md_prev_hash m) (bh_prev_hash header)
    "metadata prev_hash does not match block header" ;;
  agree (md_state_root m) (bh_state_root header)
    "metadata state_root does not match block header" ;;
  agree (md_tx_root m) (bh_tx_root header) "metadata tx_root does not match block header" ;;
  ensure (md_included_count m =? len (blk_tx_hashes b))
    (ChainError.StoredBlockMetadataMismatch
       "metadata included_count does not match tx_hash count") ;;
  ensure (len (blk_tx_hashes b) =? len txs) ChainError.StoredBlockBodyCountMismatch ;;
  ensure (bool_decide (md_block_hash m = compute_block_hash b)) ChainError.StoredBlockHashMismatch ;;
  validate_position c b.

(** The two insertions and the new tip. *)
Definition push_stored_block (stored : StoredBlock) (c : ChainStore) : ChainStore :=
  let hash := md_block_hash (sb_metadata stored) in
  mkChainStore (ch_anchor_prev_hash c) (<[hash := stored]> (ch_by_hash c))
    (<[md_height (sb_metadata stored) := hash]> (ch_by_height c)) (Some hash) (ch_base_height c).

Definition append_stored_block (c : ChainStore) (stored : StoredBlock)
    : outcome ChainError.t (ChainStore * BlockMetadata) :=
  validate_stored_block c stored ;;
  Ok (push_stored_block stored c, sb_metadata stored).

Definition metadata_of (execution : BlockExecutionResult) : BlockMetadata :=
  let b := exe_block execution in
  mkBlockMetadata (compute_block_hash b) (bh_height (blk_header b)) (bh_prev_hash (blk_header b))
    (exe_state_root execution) (exe_tx_root execution) (bh_timestamp (blk_header b))
    (exe_bytes_used execution) (len (exe_included execution)) (len (exe_deferred execution))
    (len (exe_skipped execution)) (exe_vc_budget_consumed execution).

Definition stored_of (execution : BlockExecutionResult) : StoredBlock :=
  mkStoredBlock (exe_block execution) (metadata_of execution)
    (exe_included_transactions execution).

Definition append_block (c : ChainStore) (execution : BlockExecutionResult)
    : outcome ChainError.t (ChainStore * BlockMetadata) :=
  validate_execution c execution ;;
  append_stored_block c (stored_of execution).

(** The block of every height up to the checkpoint is evicted; the tip hash stays. *)
Definition compact_to_checkpoint (checkpoint_height : N) (checkpoint_tip_hash : bytes)
    (c : ChainStore) : ChainStore :=
  let evicted := filter (fun kv => kv.1 <= checkpoint_height) (ch_by_height c) in
  let gone := (map_to_list evicted).*2 in
  mkChainStore checkpoint_tip_hash
    (filter (fun kv => kv.1 ∉ gone) (ch_by_hash c))
    (filter (fun kv => ~ kv.1 <= checkpoint_height) (ch_by_height c))
    (ch_tip_hash c) checkpoint_height.

Definition replace_tip_block (c : ChainStore) (canonical : StoredBlock)
    : outcome ChainError.t (ChainStore * StoredBlock) :=
  tip_hash ← ok_or (ch_tip_hash c) ChainError.ReplaceEmptyChain;
  tip ← match ch_by_hash c !! tip_hash with Some t => Ok t | None => Panic end;
  let m := sb_metadata canonical in
  let header := blk_header (sb_block canonical) in
  let t := sb_metadata tip in
  ensure (md_height t =? md_height m) (ChainError.ReplaceNotAtTip (md_height m) (md_height t)) ;;
  ensure (negb (bool_decide (md_block_hash t = md_block_hash m))) ChainError.SiblingHashCollision ;;
  ensure (bool_decide (md_prev_hash t = md_prev_hash m))
    (ChainError.SiblingStateDivergence (md_height t) "prev_hash") ;;
  ensure (bool_decide (md_state_root t = md_state_root m))
    (ChainError.SiblingStateDivergence (md_height t) "state_root") ;;
  ensure (bool_decide (md_tx_root t = md_tx_root m))
    (ChainError.SiblingStateDivergence (md_height t) "tx_root") ;;
  ensure (bool_decide (md_block_hash m = compute_block_hash (sb_block canonical)))
    ChainError.StoredBlockHashMismatch ;;
  ensure ((md_height m =? bh_height header)
          && bool_decide (md_prev_hash m = bh_prev_hash header)
          && bool_decide (md_state_root m = bh_state_root header)
          && bool_decide (md_tx_root m = bh_tx_root header))
    (ChainError.StoredBlockMetadataMismatch
       "candidate metadata does not match its block header") ;;
  ensure (len (blk_tx_hashes (sb_block canonical)) =? len (sb_included_transactions canonical))
    ChainError.StoredBlockBodyCountMismatch ;;
  Ok (mkChainStore (ch_anchor_prev_hash c)
        (<[md_block_hash m := canonical]> (delete tip_hash (ch_by_hash c)))
        (<[md_height m := md_block_hash m]> (ch_by_height c)) (Some (md_block_hash m))
        (ch_base_height c),
      tip).
End chain_ops.
