(* ===== verification/ChainInv.v ===== *)
(** * The block store implements a linked list of blocks.

    The abstract state is the list of stored blocks above an anchor; [chain_rep]
    relates it to the two indexes, the tip and the base height of [ChainStore]. *)

From S2P Require Import Prelude Crypto Types Cbor Payloads Tx FeeMarket Leaves Store StoreInv.
From S2P Require Import ApplyAccounts ApplyValidators Governance Archival ApplyTx Mempool Block Chain.

Definition sb_hash (sb : StoredBlock) : bytes := md_block_hash (sb_metadata sb).
Definition sb_header (sb : StoredBlock) : BlockHeader := blk_header (sb_block sb).

Section representation.
Context `{Ciborium, Shake, Verifier}.
Implicit Types (c : ChainStore) (l : list StoredBlock) (sb : StoredBlock).

(** The metadata of a stored block is that of its block. *)
Record stored_ok sb : Prop := {
  so_height : md_height (sb_metadata sb) = bh_height (sb_header sb);
  so_prev : md_prev_hash (sb_metadata sb) = bh_prev_hash (sb_header sb);
  so_state_root : md_state_root (sb_metadata sb) = bh_state_root (sb_header sb);
  so_tx_root : md_tx_root (sb_metadata sb) = bh_tx_root (sb_header sb);
  so_hash : sb_hash sb = compute_block_hash (sb_block sb);
  so_bodies : length (blk_tx_hashes (sb_block sb)) = length (sb_included_transactions sb)
}.

(** Each block names the one before it, from the block [prev] at height [n] on. *)
Fixpoint linked (prev : bytes) (n : N) l : Prop :=
  match l with
  | [] => True
  | sb :: l' =>
      stored_ok sb /\ bh_height (sb_header sb) = n + 1 /\ bh_prev_hash (sb_header sb) = prev /\
      linked (sb_hash sb) (n + 1) l'
  end.

Definition last_hash (anchor : bytes) l : bytes := from_option sb_hash anchor (last l).

Record chain_rep c l : Prop := {
  cr_base : ch_base_height c < u64_max;
  cr_max : ch_base_height c + len l <= u64_max;
  cr_linked : linked (ch_anchor_prev_hash c) (ch_base_height c) l;
  cr_hashes : NoDup (sb_hash <$> l);
  cr_by_height : forall n, ch_by_height c !! n =
    if decide (ch_base_height c < n) then sb_hash <$> l !! N.to_nat (n - ch_base_height c - 1)
    else None;
  cr_by_hash : forall h sb, ch_by_hash c !! h = Some sb <-> sb ∈ l /\ sb_hash sb = h;
  cr_tip : ch_tip_hash c = sb_hash <$> last l
}.

(** ** Linked lists *)

Lemma linked_app prev n l1 l2 :
  linked prev n (l1 ++ l2) <->
  linked prev n l1 /\ linked (last_hash prev l1) (n + len l1) l2.
Proof.
  revert prev n. induction l1 as [|sb l1 IH]; intros prev n; cbn [app linked].
  - unfold last_hash, len. cbn. rewrite N.add_0_r. tauto.
  - rewrite IH. assert (n + 1 + len l1 = n + len (sb :: l1)) as -> by (unfold len; cbn; lia).
    assert (last_hash (sb_hash sb) l1 = last_hash prev (sb :: l1)) as ->.
    { unfold last_hash. rewrite last_cons. by destruct (last l1). }
    tauto.
Qed.

Lemma last_hash_snoc anchor l sb : last_hash anchor (l ++ [sb]) = sb_hash sb.
Proof. unfold last_hash. by rewrite last_snoc. Qed.

Lemma linked_lookup prev n l i sb :
  linked prev n l -> l !! i = Some sb ->
  stored_ok sb /\ bh_height (sb_header sb) = n + N.of_nat i + 1 /\
  bh_prev_hash (sb_header sb) = last_hash prev (take i l).
Proof.
  intros Hl Hi. rewrite <-(take_drop_middle l i sb Hi) in Hl.
  apply linked_app in Hl as (_ & Hok & Hh & Hp & _). split_and!; [done| |done].
  rewrite Hh. unfold len. rewrite length_take. apply lookup_lt_Some in Hi. lia.
Qed.

Lemma linked_last prev n l sb :
  linked prev n l -> last l = Some sb -> stored_ok sb /\ bh_height (sb_header sb) = n + len l.
Proof.
  intros Hl Hs. rewrite last_lookup in Hs.
  destruct (linked_lookup _ _ _ _ _ Hl Hs) as (Hok & Hh & _). split; [done|].
  apply lookup_lt_Some in Hs. unfold len. lia.
Qed.

(** ** What the representation gives *)

Lemma rep_tip c l : chain_rep c l -> chain_tip c = last l.
Proof.
  intros Hc. unfold chain_tip. rewrite (cr_tip _ _ Hc).
  destruct (last l) as [sb|] eqn:Hl; [|done]. cbn. apply (cr_by_hash _ _ Hc).
  split; [by apply last_Some_elem_of|done].
Qed.

Lemma rep_height c l : chain_rep c l -> chain_height c = ch_base_height c + len l.
Proof.
  intros Hc. unfold chain_height. rewrite (rep_tip _ _ Hc).
  destruct (last l) as [sb|] eqn:Hl; cbn.
  - destruct (linked_last _ _ _ _ (cr_linked _ _ Hc) Hl) as [Hok Hh]. by rewrite (so_height _ Hok).
  - apply last_None in Hl as ->. unfold len. cbn. lia.
Qed.

Lemma rep_prev_hash c l : chain_rep c l ->
  expected_prev_hash c = last_hash (ch_anchor_prev_hash c) l.
Proof.
  intros Hc. unfold expected_prev_hash, last_hash. rewrite (cr_tip _ _ Hc). by destruct (last l).
Qed.

Lemma rep_by_hash_None c l h : chain_rep c l -> ch_by_hash c !! h = None <-> h ∉ sb_hash <$> l.
Proof.
  intros Hc. rewrite eq_None_not_Some, list_elem_of_fmap. split.
  - intros Hn (sb & -> & Hin). apply Hn. exists sb. by apply (cr_by_hash _ _ Hc).
  - intros Hn [sb Hs]. apply (cr_by_hash _ _ Hc) in Hs as [Hin <-]. apply Hn. eauto.
Qed.

Lemma rep_empty anchor base :
  base < u64_max -> chain_rep (ChainStore_new_with_base anchor base) [].
Proof.
  intros Hb. split; [done|cbn; unfold len; cbn; lia|done|constructor|..]; cbn.
  - intros n. rewrite lookup_empty. by destruct (decide _).
  - intros h sb. rewrite lookup_empty. split; [done|]. by intros [?%elem_of_nil _].
  - done.
Qed.

(** ** The operations *)

Lemma validate_position_Ok c b :
  validate_position c b = Ok tt ->
  ch_by_hash c !! compute_block_hash b = None /\
  bh_height (blk_header b) = sat_add u64_max (chain_height c) 1 /\
  ch_by_height c !! bh_height (blk_header b) = None /\
  bh_prev_hash (blk_header b) = expected_prev_hash c.
Proof. unfold validate_position. intros Hv. run_inv. rewrite !eq_None_not_Some. done. Qed.

Lemma validate_stored_block_Ok c sb :
  validate_stored_block c sb = Ok tt ->
  stored_ok sb /\ md_included_count (sb_metadata sb) = len (blk_tx_hashes (sb_block sb)) /\
  validate_position c (sb_block sb) = Ok tt.
Proof.
  destruct sb as [b m txs]. unfold validate_stored_block. intros Hv. run_inv.
  split_and!; [|done|done]. unfold len in *. split; try done. cbn. lia.
Qed.

Lemma length_len {A} (l : list A) : N.to_nat (len l) = length l.
Proof. unfold len. lia. Qed.

Lemma push_rep c l sb :
  chain_rep c l -> ch_base_height c + len l + 1 <= u64_max -> stored_ok sb ->
  bh_height (sb_header sb) = ch_base_height c + len l + 1 ->
  bh_prev_hash (sb_header sb) = last_hash (ch_anchor_prev_hash c) l ->
  ch_by_hash c !! sb_hash sb = None ->
  chain_rep (push_stored_block sb c) (l ++ [sb]).
Proof.
  intros Hc Hmax Hok Hh Hp Hn. pose proof Hn as Hf. rewrite rep_by_hash_None in Hf by done.
  split; cbn [ch_anchor_prev_hash ch_by_hash ch_by_height ch_tip_hash ch_base_height push_stored_block].
  - apply (cr_base _ _ Hc).
  - unfold len in *. rewrite length_app. cbn. lia.
  - apply linked_app. split; [apply (cr_linked _ _ Hc)|]. cbn. by split_and!.
  - rewrite fmap_app. apply NoDup_app. split_and!; [apply (cr_hashes _ _ Hc)| |apply NoDup_singleton].
    intros h Hin ->%list_elem_of_singleton. done.
  - intros n. rewrite (so_height _ Hok), Hh. destruct (decide (n = ch_base_height c + len l + 1)) as [->|Hne].
    + rewrite lookup_insert_eq. rewrite decide_True by lia.
      replace (N.to_nat _) with (length l) by (unfold len; lia).
      by rewrite lookup_app_r, Nat.sub_diag by lia.
    + rewrite lookup_insert_ne by done. rewrite (cr_by_height _ _ Hc). destruct (decide _); [|done].
      destruct (decide (N.to_nat (n - ch_base_height c - 1) < length l)%nat).
      * by rewrite lookup_app_l.
      * rewrite !lookup_ge_None_2; [done|rewrite length_app; cbn; unfold len in *; lia|lia].
  - intros h sb'. rewrite lookup_insert_Some, (cr_by_hash _ _ Hc), elem_of_app, list_elem_of_singleton.
    fold (sb_hash sb). split; [naive_solver|]. intros [[Hin| ->] <-]; [|by left]. right.
    split; [|done]. intros Heq. apply Hf. rewrite Heq. by apply list_elem_of_fmap_2.
  - by rewrite last_snoc.
Qed.

Lemma append_rep c l sb c' m :
  chain_rep c l -> append_stored_block c sb = Ok (c', m) ->
  c' = push_stored_block sb c /\ m = sb_metadata sb /\ chain_rep c' (l ++ [sb]).
Proof.
  unfold append_stored_block. intros Hc Ha. run_inv. inversion Ha; subst; clear Ha.
  split_and!; [done|done|].
  destruct (validate_stored_block_Ok _ _ H2) as (Hok & _ & (Hn & Hh & Hfree & Hp)%validate_position_Ok).
  rewrite <-(so_hash _ Hok) in Hn. rewrite (rep_height _ _ Hc) in Hh. unfold sat_add in Hh.
  assert (ch_base_height c + len l + 1 <= u64_max) as Hmax.
  { destruct (decide (ch_base_height c + len l + 1 <= u64_max)) as [|Hbig]; [lia|exfalso].
    revert Hfree. rewrite (cr_by_height _ _ Hc). pose proof (cr_base _ _ Hc).
    rewrite decide_True by lia. intros Hnone%fmap_None%lookup_ge_None_1. unfold len in *. lia. }
  apply push_rep; try done.
  - unfold sb_header. lia.
  - by rewrite <-(rep_prev_hash _ _ Hc).
Qed.

(** The store without its tip. *)
Lemma pop_rep c l tip :
  chain_rep c (l ++ [tip]) ->
  chain_rep (mkChainStore (ch_anchor_prev_hash c) (delete (sb_hash tip) (ch_by_hash c))
               (delete (md_height (sb_metadata tip)) (ch_by_height c)) (sb_hash <$> last l)
               (ch_base_height c)) l.
Proof.
  intros Hc. pose proof (cr_hashes _ _ Hc) as Hnd. rewrite fmap_app in Hnd.
  apply NoDup_app in Hnd as (Hnd & Hf & _).
  destruct (linked_last _ _ _ tip (cr_linked _ _ Hc)) as [Hok Hh]; [by rewrite last_snoc|].
  pose proof (cr_max _ _ Hc) as Hmax. unfold len in Hmax. rewrite length_app in Hmax.
  split; cbn; [apply (cr_base _ _ Hc)|unfold len; lia| |done| | |done].
  - by pose proof (cr_linked _ _ Hc) as [? _]%linked_app.
  - intros n. rewrite (so_height _ Hok), Hh. unfold len. rewrite length_app. cbn [length].
    destruct (decide (n = ch_base_height c + N.of_nat (length l + 1))) as [->|Hne].
    + rewrite lookup_delete_eq, decide_True by lia. by rewrite lookup_ge_None_2 by lia.
    + rewrite lookup_delete_ne, (cr_by_height _ _ Hc) by done. destruct (decide _); [|done].
      destruct (decide (N.to_nat (n - ch_base_height c - 1) < length l)%nat).
      * by rewrite lookup_app_l.
      * rewrite !lookup_ge_None_2; [done|lia|rewrite length_app; cbn; lia].
  - intros h sb. rewrite lookup_delete_Some, (cr_by_hash _ _ Hc), elem_of_app, list_elem_of_singleton.
    split; [naive_solver|]. intros [Hin <-]. split; [|by auto]. intros Heq.
    apply (Hf (sb_hash sb)); [by apply list_elem_of_fmap_2|]. rewrite <-Heq. by left.
Qed.

(** The tip is replaced in place. *)
Lemma replace_rep c l tip sb c' old :
  chain_rep c (l ++ [tip]) -> ch_by_hash c !! sb_hash sb = None ->
  replace_tip_block c sb = Ok (c', old) -> old = tip /\ chain_rep c' (l ++ [sb]).
Proof.
  intros Hc Hn Hr. unfold replace_tip_block in Hr. rewrite (cr_tip _ _ Hc), last_snoc in Hr.
  assert (ch_by_hash c !! sb_hash tip = Some tip) as Ht.
  { apply (cr_by_hash _ _ Hc). split; [apply elem_of_app; right; by left|done]. }
  cbn in Hr. rewrite Ht in Hr. cbn in Hr. run_inv. inversion Hr; subst; clear Hr. split; [done|].
  pose proof (cr_linked _ _ Hc) as (_ & Hok & Hh & Hp & _)%linked_app.
  assert (stored_ok sb) as Hsb by (split; try done; unfold len in *; lia).
  pose proof (pop_rep _ _ _ Hc) as Hpop. rewrite H2 in Hpop.
  rewrite <-(insert_delete_eq (ch_by_height c)).
  pose proof (cr_max _ _ Hc) as Hmax. unfold len in Hmax. rewrite length_app in Hmax.
  apply (push_rep _ _ sb Hpop); cbn; [unfold len; cbn in *; lia|done| | |].
  - rewrite <-(so_height _ Hsb), <-H2, (so_height _ Hok). exact Hh.
  - rewrite <-(so_prev _ Hsb), <-H4, (so_prev _ Hok). exact Hp.
  - rewrite lookup_delete_None. by right.
Qed.

(** Replacing a tip never misses the block the tip hash names. *)
Lemma replace_no_panic c l sb : chain_rep c l -> replace_tip_block c sb <> Panic.
Proof.
  intros Hc. unfold replace_tip_block. rewrite (cr_tip _ _ Hc).
  destruct (last l) as [tip|] eqn:Hl; cbn; [|done].
  assert (ch_by_hash c !! sb_hash tip = Some tip) as ->.
  { apply (cr_by_hash _ _ Hc). split; [by apply last_Some_elem_of|done]. }
  cbn. no_panic.
Qed.

(** ** The blocks in order *)

Fixpoint numbered (n : N) l : list (N * bytes) :=
  match l with
  | [] => []
  | sb :: l' => (n + 1, sb_hash sb) :: numbered (n + 1) l'
  end.

Lemma numbered_elem n l k h :
  (k, h) ∈ numbered n l <-> n < k /\ sb_hash <$> l !! N.to_nat (k - n - 1) = Some h.
Proof.
  revert n. induction l as [|sb l IH]; intros n; cbn [numbered].
  - rewrite elem_of_nil. naive_solver.
  - rewrite elem_of_cons, IH. destruct (decide (k = n + 1)) as [->|Hne].
    + replace (N.to_nat (n + 1 - n - 1)) with O by lia. cbn. split.
      * intros [[= ->]|[? _]]; [split; [lia|done]|lia].
      * intros [_ [= <-]]. by left.
    + split.
      * intros [[=]|[Hk Hl]]; [done|]. split; [lia|].
        replace (N.to_nat (k - n - 1)) with (S (N.to_nat (k - (n + 1) - 1))) by lia. done.
      * intros [Hk Hl]. right. split; [lia|].
        replace (N.to_nat (k - n - 1)) with (S (N.to_nat (k - (n + 1) - 1))) in Hl by lia. done.
Qed.

Lemma numbered_sorted n l : StronglySorted N.le (numbered n l).*1 /\ NoDup (numbered n l).
Proof.
  revert n. induction l as [|sb l IH]; intros n; cbn [numbered]; [by split; constructor|].
  destruct (IH (n + 1)) as [Hs Hnd]. split; constructor; try done.
  - apply Forall_forall. intros k ([k' h] & -> & Hin)%list_elem_of_fmap. cbn.
    apply numbered_elem in Hin as [? _]. lia.
  - intros [? _]%numbered_elem. lia.
Qed.

Lemma rep_entries c l : chain_rep c l ->
  sorted_entries N.le (ch_by_height c) = numbered (ch_base_height c) l.
Proof.
  intros Hc. destruct (numbered_sorted (ch_base_height c) l) as [Hs Hnd].
  assert (Total N.le) by (intros x y; lia). assert (AntiSymm eq N.le) by (intros x y; lia).
  assert (Transitive N.le) by (intros x y z; lia).
  apply sorted_entries_unique; try done.
  intros k h. rewrite numbered_elem, (cr_by_height _ _ Hc).
  destruct (decide _); [tauto|]. split; [intros [? _]; lia|done].
Qed.

Lemma numbered_hashes n l : (numbered n l).*2 = sb_hash <$> l.
Proof. revert n. induction l as [|sb l IH]; intros n; cbn; [done|]. f_equal. apply IH. Qed.

Lemma rep_blocks_in_order c l : chain_rep c l -> blocks_in_order c = l.
Proof.
  intros Hc. unfold blocks_in_order, hashes_in_order. rewrite (rep_entries _ _ Hc), numbered_hashes.
  assert (forall l', l' ⊆ l -> omap (fun hash => ch_by_hash c !! hash) (sb_hash <$> l') = l') as Hl.
  { induction l' as [|sb l' IH]; intros Hsub; [done|]. cbn.
    assert (ch_by_hash c !! sb_hash sb = Some sb) as ->.
    { apply (cr_by_hash _ _ Hc). split; [apply Hsub; by left|done]. }
    f_equal. apply IH. intros x Hx. apply Hsub. by right. }
  by apply Hl.
Qed.

(** ** Compaction *)

(** The hashes evicted with the first blocks are theirs. *)
Lemma compacted_hashes c l1 l2 h :
  chain_rep c (l1 ++ l2) ->
  h ∈ (map_to_list (filter (fun kv => kv.1 <= ch_base_height c + len l1) (ch_by_height c))).*2 <->
  h ∈ sb_hash <$> l1.
Proof.
  intros Hc. rewrite list_elem_of_fmap. split.
  - intros ([n h'] & -> & [Hn Hle]%elem_of_map_to_list%map_lookup_filter_Some). cbn in *.
    rewrite (cr_by_height _ _ Hc) in Hn. destruct (decide _); [|done].
    apply fmap_Some in Hn as (sb & Hsb & ->). unfold len in Hle.
    rewrite lookup_app_l in Hsb by lia. by eapply list_elem_of_fmap_2, list_elem_of_lookup_2.
  - intros (sb & -> & [i Hi]%list_elem_of_lookup_1)%list_elem_of_fmap.
    pose proof (lookup_lt_Some _ _ _ Hi). exists (ch_base_height c + N.of_nat i + 1, sb_hash sb).
    split; [done|]. apply elem_of_map_to_list, map_lookup_filter_Some. unfold len. cbn.
    split; [|lia]. rewrite (cr_by_height _ _ Hc), decide_True by lia.
    replace (N.to_nat _) with i by lia. by rewrite lookup_app_l, Hi by lia.
Qed.

Lemma compact_rep c l1 l2 :
  chain_rep c (l1 ++ l2) -> l2 <> [] ->
  chain_rep (compact_to_checkpoint (ch_base_height c + len l1)
               (last_hash (ch_anchor_prev_hash c) l1) c) l2.
Proof.
  intros Hc Hne. pose proof (cr_hashes _ _ Hc) as Hnd. rewrite fmap_app in Hnd.
  apply NoDup_app in Hnd as (_ & Hdis & Hnd).
  pose proof (cr_linked _ _ Hc) as [_ Hl2]%linked_app.
  pose proof (cr_max _ _ Hc) as Hmax. unfold len in Hmax. rewrite length_app in Hmax.
  split; cbn; [|unfold len; lia|done|done|..].
  - destruct l2; [done|]. unfold len. cbn in Hmax. lia.
  - intros n. rewrite map_lookup_filter, (cr_by_height _ _ Hc). unfold len.
    destruct (decide (ch_base_height c + N.of_nat (length l1) < n)).
    + rewrite decide_True by lia. rewrite lookup_app_r by lia.
      replace (_ - length l1)%nat
        with (N.to_nat (n - (ch_base_height c + N.of_nat (length l1)) - 1)) by lia.
      destruct (l2 !! _) as [sb|]; [|done]. cbn. by rewrite option_guard_True by lia.
    + destruct (decide (ch_base_height c < n)); [|done].
      destruct ((l1 ++ l2) !! _); [|done]. cbn. by rewrite option_guard_False by (cbn; lia).
  - intros h sb. rewrite map_lookup_filter_Some, (cr_by_hash _ _ Hc), compacted_hashes by done.
    cbn. rewrite elem_of_app. split.
    + intros [[[Hin|Hin] <-] Hn]; [|done]. destruct Hn. by apply list_elem_of_fmap_2.
    + intros [Hin <-]. split; [by auto|]. intros Hin1.
      apply (Hdis _ Hin1). by apply list_elem_of_fmap_2.
  - rewrite (cr_tip _ _ Hc), last_app. by destruct (last l2) eqn:Hl; [|apply last_None in Hl].
Qed.
End representation.
