(* ===== verification/Recovery.v ===== *)
(** * Replay and recovery: [pqc-consensus/src/recovery.rs].

    A node that restarts, or that follows another one, re-executes stored blocks on
    a trusted state and compares every root it computes with the one in the header. *)

From S2P Require Import Prelude Crypto Types Cbor Payloads Tx FeeMarket Leaves Store StoreInv.
From S2P Require Import ApplyAccounts ApplyValidators Governance Archival ApplyTx Mempool Block Chain.

#[local] Open Scope string_scope.
#[local] Open Scope N_scope.

Record ReplayResult := mkReplayResult {
  rr_state : StateStore;
  rr_tip_hash : bytes;
  rr_height : N;
  rr_state_root : bytes
}.

Module ReplayError.
Inductive t : Type :=
  | HeightGap (expected got : N)
  | ParentHashMismatch (height : N) (expected got : bytes)
  | TipHashMismatch (expected got : bytes)
  | BlockHashMismatch (height : N) (expected got : bytes)
  | BodyCountMismatch (height body_count hash_count : N)
  | TxHashMismatch (height tx_index : N) (expected got : TxHash)
  | TxEncodingFailed (height tx_index : N) (source : TxError.t)
  | ApplyFailed (height tx_index : N) (source : ApplyError.t)
  | TxRootMismatch (height : N) (expected got : bytes)
  | StateRootMismatch (height : N) (expected got : bytes)
  | MetadataMismatch (height : N) (detail : string).
End ReplayError.

Section recovery.
Context `{Ciborium, Shake, Verifier}.

(** One iteration of [verify_stored_blocks_structure]. *)
Definition check_structure (expected_height : N) (expected_prev_hash : bytes)
    (stored : StoredBlock) : outcome ReplayError.t unit :=
  let '(mkStoredBlock b m txs) := stored in
  let header := blk_header b in
  let height := bh_height header in
  let agree (x y : bytes) (detail : string) :=
    ensure (bool_decide (x = y)) (ReplayError.MetadataMismatch height detail) in
  ensure (height =? expected_height) (ReplayError.HeightGap expected_height height) ;;
  ensure (bool_decide (bh_prev_hash header = expected_prev_hash))
    (ReplayError.ParentHashMismatch height expected_prev_hash (bh_prev_hash header)) ;;
  ensure (len (blk_tx_hashes b) =? len txs)
    (ReplayError.BodyCountMismatch height (len txs) (len (blk_tx_hashes b))) ;;
  ensure (md_height m =? height)
    (ReplayError.MetadataMismatch height "metadata height does not match block header") ;;
  agree (md_prev_hash m) (bh_prev_hash header)
    "metadata prev_hash does not match block header" ;;
  agree (md_state_root m) (bh_state_root header)
    "metadata state_root does not match block header" ;;
  agree (md_tx_root m) (bh_tx_root header) "metadata tx_root does not match block header" ;;
  ensure (md_included_count m =? len (blk_tx_hashes b))
    (ReplayError.MetadataMismatch height
       "metadata included_count does not match block tx hashes") ;;
  ensure (bool_decide (md_block_hash m = compute_block_hash b))
    (ReplayError.BlockHashMismatch height (md_block_hash m) (compute_block_hash b)).

(** The height comes from an unbounded range, whose [next] adds one before the
    block is looked at. *)
Fixpoint verify_stored_blocks_structure (expected_height : N) (expected_prev_hash : bytes)
    (blocks : list StoredBlock) : outcome ReplayError.t unit :=
  next_height ← add_checked u64_max expected_height 1;
  match blocks with
  | [] => Ok tt
  | stored :: rest =>
      check_structure expected_height expected_prev_hash stored ;;
      verify_stored_blocks_structure next_height (md_block_hash (sb_metadata stored)) rest
  end.

Definition verify_chain_consistency (c : ChainStore) : outcome ReplayError.t unit :=
  let blocks := blocks_in_order c in
  verify_stored_blocks_structure 1 (ch_anchor_prev_hash c) blocks ;;
  let expected_tip := from_option (fun stored => md_block_hash (sb_metadata stored))
                        (ch_anchor_prev_hash c) (last blocks) in
  let actual_tip := default (ch_anchor_prev_hash c) (ch_tip_hash c) in
  ensure (bool_decide (actual_tip = expected_tip))
    (ReplayError.TipHashMismatch expected_tip actual_tip).

(** The loop over the transactions of a block: the state, the fees, the gas and
    the index of the next transaction. *)
Definition replay_tx (height : N) (fee_params : FeeParams) (acc : StateStore * N * N * N)
    (body : Transaction * TxHash) : outcome ReplayError.t (StateStore * N * N * N) :=
  let '(s, fees_collected, block_gas_used, tx_index) := acc in
  let '(tx, expected_hash) := body in
  raw ← map_err (ReplayError.TxEncodingFailed height tx_index) (encode_tx tx);
  let actual_hash := compute_tx_hash raw in
  ensure (bool_decide (actual_hash = expected_hash))
    (ReplayError.TxHashMismatch height tx_index expected_hash actual_hash) ;;
  applied ← map_err (ReplayError.ApplyFailed height tx_index)
    (apply_tx s tx (mkExecutionContext (len raw) fee_params));
  let '(s, execution) := applied in
  Ok (s, add_fees fees_collected (er_fee_charged execution) (tx_fee_tip tx),
      sat_add u64_max block_gas_used (er_gas_used execution), tx_index + 1).

Definition replay_block (fee_params : FeeParams) (fee_dist : FeeDistributionParams)
    (validator_pool : list Address) (s : StateStore) (stored : StoredBlock)
    : outcome ReplayError.t StateStore :=
  let '(mkStoredBlock b m txs) := stored in
  let header := blk_header b in
  done ← foldM (replay_tx (md_height m) (exec_fee_params s fee_params)) (s, 0, 0, 0)
    (zip txs (blk_tx_hashes b));
  let '(s, fees_collected, block_gas_used, _) := done in
  let s := if len (bh_proposer header) =? 32
           then distribute_block_fees (bh_proposer header) fees_collected
                  (fee_pool s validator_pool) fee_dist s
           else s in
  s ← end_of_block (bh_height header) block_gas_used s;
  ensure (bool_decide (compute_tx_root (blk_tx_hashes b) = bh_tx_root header))
    (ReplayError.TxRootMismatch (md_height m) (bh_tx_root header)
       (compute_tx_root (blk_tx_hashes b))) ;;
  ensure (bool_decide (state_root s = bh_state_root header))
    (ReplayError.StateRootMismatch (md_height m) (bh_state_root header) (state_root s)) ;;
  ensure (bool_decide (compute_block_hash b = md_block_hash m))
    (ReplayError.BlockHashMismatch (md_height m) (md_block_hash m) (compute_block_hash b)) ;;
  Ok s.

(** The loop over the blocks: the state, the tip hash and the state root. *)
Definition replay_stored (fee_params : FeeParams) (fee_dist : FeeDistributionParams)
    (validator_pool : list Address) (acc : StateStore * bytes * bytes) (stored : StoredBlock)
    : outcome ReplayError.t (StateStore * bytes * bytes) :=
  let '(s, _, _) := acc in
  s ← replay_block fee_params fee_dist validator_pool s stored;
  Ok (s, md_block_hash (sb_metadata stored), state_root s).

Definition replay_blocks_from_state (base_state : StateStore) (anchor_prev_hash : bytes)
    (blocks : list StoredBlock) (fee_params : FeeParams) (fee_dist : FeeDistributionParams)
    (validator_pool : list Address) : outcome ReplayError.t ReplayResult :=
  verify_stored_blocks_structure (sat_add u64_max (st_block_height base_state) 1)
    anchor_prev_hash blocks ;;
  acc ← foldM (replay_stored fee_params fee_dist validator_pool)
    (base_state, anchor_prev_hash, state_root base_state) blocks;
  let '(s, tip_hash, root) := acc in
  Ok (mkReplayResult s tip_hash (st_block_height s) root).

Definition recover_tip (c : ChainStore) (genesis_state : StateStore) (fee_params : FeeParams)
    (fee_dist : FeeDistributionParams) (validator_pool : list Address)
    : outcome ReplayError.t ReplayResult :=
  verify_chain_consistency c ;;
  replay_blocks_from_state genesis_state (ch_anchor_prev_hash c) (blocks_in_order c)
    fee_params fee_dist validator_pool.
End recovery.
