(* ===== verification/Examples.v ===== *)
(** * A small chain on which the theorems are evaluated.

    Four accounts, four validators (two active, one candidate, one exited) and a
    signed transfer, with the example hash, verifier and CBOR reader. *)

From S2P Require Import Prelude Crypto Types Cbor Payloads Tx FeeMarket Leaves Store StoreInv.
From S2P Require Import ApplyAccounts ApplyValidators Governance Archival ApplyTx TxSpec TxRefine.
From S2P Require Import Invariants Supply Mempool Block BlockInv.

#[local] Existing Instance example_shake.
#[local] Existing Instance example_verifier.

Module Ex.
Definition alice : Address := replicate 32 x0a.
Definition bob : Address := replicate 32 x0b.
Definition carol : Address := replicate 32 x0c.
Definition dave : Address := replicate 32 x0d.

Definition key (pk : byte) : KeyEntry :=
  mkKeyEntry AlgId.MlDsa65 [pk] 1 0 KeyStatus.Active allowed_tx.ALL.
Definition account (addr : Address) (balance nonce : N) (pk : byte) : Account :=
  mkAccount addr balance nonce [key pk] 0 None VERIFIER_TEMPLATE_ID_EOA [].
Definition validator (addr : Address) (bond : N) (st : ValidatorStatus.t) (pk : byte)
    : ValidatorRecord :=
  mkValidatorRecord addr (bstr "node") AlgId.MlDsa65 [pk] bond st 0 false.

Definition accounts : list Account :=
  [account alice 1000000 4 x1a; account bob 1000000 0 x1b; account carol 500 0 x1c;
   account dave 500 0 x1d].
Definition validators : list ValidatorRecord :=
  [validator alice 500 ValidatorStatus.Active x2a; validator bob 300 ValidatorStatus.Active x2b;
   validator carol 200 ValidatorStatus.Candidate x2c;
   validator dave 77 ValidatorStatus.Exited x2d].

Definition genesis : StateStore :=
  foldl (fun s v => insert_validator v s) (foldl (fun s a => insert_account a s) StateStore_new
    accounts) validators.

Definition fee_params : FeeParams := mkFeeParams 1 1 1 1 1 1 0.

(** Bob receives 250. *)
Definition transfer_payload : Value.t :=
  Value.Map [ (Value_uint 1, Value.Bytes bob); (Value_uint 2, Value.Bytes (be_bytes 16 250)) ].

Definition unsigned_transfer : Transaction :=
  mkTransaction 1 [] MsgType.TokenTransfer alice 4 1000 5 5 [x01] AlgId.MlDsa65 1 [].
Definition transfer : Transaction :=
  let cbor := example_codec [] in
  unsigned_transfer <| tx_signature := build_preimage viper_research_1 unsigned_transfer |>.
Definition transfer_envelope : bytes :=
  match encode_envelope AlgId.MlDsa65 (tx_signature transfer) with Ok e => e | _ => [] end.
(** What the example writer produces for any document. *)
Definition transfer_raw : bytes := [x00].

Definition docs : list (bytes * Value.t) :=
  [ ([x01], transfer_payload); (transfer_raw, Value.Map (tx_pairs transfer transfer_envelope)) ].
Definition cbor : Ciborium := example_codec docs.
#[local] Existing Instance cbor.

Definition pool : Mempool :=
  pool_insert (mkPendingEntry transfer transfer_raw (compute_tx_hash transfer_raw) 1000 5)
    Mempool_new.
Definition ctx : AssemblyContext := mkAssemblyContext 1 (replicate 32 x00) 0 alice.
Definition config : AssemblyConfig :=
  mkAssemblyConfig u64_max fee_params [] FeeDistributionParams_default EpochConfig_devnet.

(** ** The invariant holds at the start *)

Lemma StateStore_new_inv : chain_inv StateStore_new.
Proof.
  split; [apply StateStore_new_ok|..]; try apply tbl_all_empty; [|done].
  intros k v Hv. by vm_compute in Hv.
Qed.

Lemma genesis_inv : chain_inv genesis.
Proof.
  unfold genesis, validators, accounts. cbn [foldl].
  repeat match goal with |- chain_inv (insert_validator ?v ?s) =>
    apply (set_validator_inv (val_operator v)); [done|done|by vm_compute; eexists|] end.
  repeat match goal with |- chain_inv (insert_account ?a ?s) =>
    apply (set_account_inv (acc_address a)); [done|by right; vm_compute|] end.
  apply StateStore_new_inv.
Qed.

(** ** The block *)

Definition block_run := assemble_block genesis pool ctx config.

(** The transfer is included: Alice pays the amount, the fee and the tip. *)
Lemma block_run_Ok : exists s' pool' r,
  block_run = Ok (s', pool', r) /\ exe_included_transactions r = [transfer] /\
  exe_skipped r = [] /\ supply s' = supply genesis.
Proof.
  assert (match block_run with
          | Ok (s', _, r) => exe_included_transactions r = [transfer] /\ exe_skipped r = [] /\
                             supply s' = supply genesis
          | _ => False
          end) as Hrun by (vm_compute; done).
  destruct block_run as [[[s' pool'] r]| |]; [eauto 10|done|done].
Qed.

Lemma pool_wf : pool_txs_wf pool.
Proof.
  intros e He. unfold all_pending in He.
  assert ((map_to_list (by_hash pool)).*2 =
    [mkPendingEntry transfer transfer_raw (compute_tx_hash transfer_raw) 1000 5]) as Hp
    by (by vm_compute).
  rewrite Hp in He. apply list_elem_of_singleton in He as ->. unfold tx_wf.
  split_and!; by vm_compute.
Qed.

Lemma config_ok : config_wf config.
Proof. intros a Ha. cbn in Ha. by apply elem_of_nil in Ha. Qed.

Lemma transfer_valid :
  validate_tx transfer transfer_raw (admission_context genesis transfer fee_params) = Ok tt.
Proof. by vm_compute. Qed.

Lemma transfer_decodes : decode_tx transfer_raw = Ok transfer.
Proof. by vm_compute. Qed.

(** ** Variants of the first state, and a block without transactions on each *)

(** Dave tombstoned. *)
Definition tombstoned : StateStore :=
  insert_validator
    ((validator dave 77 ValidatorStatus.Jailed x2d) <| val_tombstoned := true |>) genesis.

(** Alice's first key revoked, a second one active. *)
Definition revoked : StateStore :=
  insert_account
    ((account alice 1000000 4 x1a)
       <| acc_keys := [(key x1a) <| key_status := KeyStatus.Revoked |>;
                       (key x3a) <| key_version := 2 |>] |>) genesis.

(** ML-DSA-65 banned. *)
Definition banned_entry : AlgEntry :=
  mkAlgEntry AlgId.MlDsa65 (bstr "FIPS 204") 1952 3309 (Some SigClass.Standard) 0
    Lifecycle.Banned 55000.
Definition banned : StateStore := insert_alg_entry banned_entry genesis.

Lemma tombstoned_inv : chain_inv tombstoned.
Proof.
  apply (set_validator_inv dave); [done|done|by vm_compute; eexists|apply genesis_inv].
Qed.

Lemma revoked_inv : chain_inv revoked.
Proof. apply (set_account_inv alice); [done|by right; vm_compute|apply genesis_inv]. Qed.

Lemma banned_inv : chain_inv banned.
Proof.
  apply (set_alg_step (AlgId.as_u16 AlgId.MlDsa65)); [done| |apply genesis_inv].
  intros e He. assert (rows (st_algs genesis) !! AlgId.as_u16 AlgId.MlDsa65 =
    Some (banned_entry <| alg_lifecycle := Lifecycle.Active |>)) as Hg by by vm_compute.
  rewrite Hg in He. injection He as <-. by split_and!.
Qed.

Lemma empty_pool_wf : pool_txs_wf Mempool_new.
Proof. intros e He. vm_compute in He. by apply elem_of_nil in He. Qed.

Definition run_of (s : StateStore) := assemble_block s Mempool_new ctx config.

Definition ran (o : outcome AssembleError.t (StateStore * Mempool * BlockExecutionResult)) : bool :=
  match o with Ok _ => true | _ => false end.

Lemma ran_Ok o : ran o = true -> exists s' pool' r, o = Ok (s', pool', r).
Proof. destruct o as [[[s' pool'] r]| |]; [eauto|done|done]. Qed.

Lemma tombstoned_runs : ran (run_of tombstoned) = true.
Proof. by vm_compute. Qed.
Lemma revoked_runs : ran (run_of revoked) = true.
Proof. by vm_compute. Qed.
Lemma banned_runs : ran (run_of banned) = true.
Proof. by vm_compute. Qed.
End Ex.
