(* ===== verification/ChainProps.v ===== *)
(** * What holds along every chain of blocks.

    [reaches s s'] is a sequence of assembled blocks from [s] to [s'].  The
    theorems read the invariant and the history property of [Invariants] off the
    operations the node exposes: admission, validation and block assembly. *)

From S2P Require Import Prelude Crypto Types Cbor Payloads Tx FeeMarket Leaves Store StoreInv.
From S2P Require Import ApplyAccounts ApplyValidators Governance Archival ApplyTx TxSpec TxRefine.
From S2P Require Import Invariants Supply Mempool Block BlockInv StateRoot Examples.

Section chain.
Context `{Ciborium, Shake, Verifier}.
Implicit Types (s : StateStore) (tx : Transaction) (pool : Mempool).

Inductive reaches : StateStore -> StateStore -> Prop :=
  | reaches_refl s : reaches s s
  | reaches_block s pool ctx config s' pool' r s'' :
      pool_txs_wf pool -> config_wf config ->
      assemble_block s pool ctx config = Ok (s', pool', r) -> reaches s' s'' -> reaches s s''.

Lemma reaches_inv s s' : chain_inv s -> reaches s s' -> chain_inv s' /\ store_evolves s s'.
Proof.
  intros Hinv Hr. induction Hr as [s|s pool ctx config s' pool' r s'' Hwf Hc Ha _ IH]; [done|].
  destruct (assemble_block_step _ _ _ _ _ _ _ Hinv Hwf Hc Ha) as (Hinv' & Hev & _).
  destruct (IH Hinv'). split; [done|by etrans].
Qed.

(** ** Replay protection *)

Lemma validate_tx_Ok raw tx (state : StateStore) params :
  validate_tx tx raw (admission_context state tx params) = Ok tt ->
  exists a k l, get_account state (tx_sender tx) = Some a /\ acc_nonce a = tx_nonce tx /\
    KeySetOps.lookup (acc_keys a) (tx_sig_alg_id tx) (tx_sig_key_version tx)
      (MsgType.required_permission_bit (tx_msg_type tx)) (st_block_height state) = Ok k /\
    alg_lifecycle <$> alg_entry state (tx_sig_alg_id tx) = Some l /\
    Lifecycle.admits_transactions l = true.
Proof. unfold validate_tx. intros Hv. run_inv. eauto 10. Qed.

Lemma try_admit_Ok pool raw (state : StateStore) params pool' adm :
  try_admit pool raw state params = Ok (pool', adm) ->
  exists tx, decode_tx raw = Ok tx /\
    validate_tx tx raw (admission_context state tx params) = Ok tt.
Proof. unfold try_admit. intros Ha. run_inv. eauto. Qed.

(** A transaction that was applied raised its sender's nonce. *)
Lemma apply_tx_nonce s tx ctx s' r a :
  length (tx_sender tx) = 32%nat -> chain_inv s -> apply_tx s tx ctx = Ok (s', r) ->
  get_account s (tx_sender tx) = Some a ->
  exists a', get_account s' (tx_sender tx) = Some a' /\ acc_nonce a + 1 <= acc_nonce a'.
Proof.
  intros Hl Hinv (s1 & (a1 & Ha1 & _ & _ & ->)%settle_sender_Ok & Hc)%apply_tx_Ok Ha.
  eexists. split; [apply get_account_set_account|]. cbn. apply N.add_le_mono_r.
  destruct Hc as [(-> & _)|(Hp & _)]; [rewrite Ha in Ha1; by injection Ha1 as ->|].
  destruct (apply_payload_step _ _ _ Hl Hp Hinv) as [_ Hev].
  destruct (ev_accounts _ _ Hev _ _ Ha) as (a1' & Ha1' & Hae).
  unfold get_account in Ha1. rewrite Ha1' in Ha1. injection Ha1 as <-. apply (ae_nonce _ _ Hae).
Qed.

Definition nonce_raised s0 s tx : Prop :=
  forall a0, get_account s0 (tx_sender tx) = Some a0 ->
    exists a, get_account s (tx_sender tx) = Some a /\ acc_nonce a0 + 1 <= acc_nonce a.

Lemma nonce_raised_evolves s0 s1 s2 tx :
  nonce_raised s0 s1 tx -> store_evolves s1 s2 -> nonce_raised s0 s2 tx.
Proof.
  intros Hn Hev a0 (a1 & Ha1 & Hle)%Hn. destruct (ev_accounts _ _ Hev _ _ Ha1) as (a2 & Ha2 & Hae).
  exists a2. split; [done|]. pose proof (ae_nonce _ _ Hae). lia.
Qed.

Lemma assemble_entry_nonces {E} config s0 a entry a' :
  tx_wf (pe_tx entry) -> assembling s0 a ->
  assemble_entry (E := E) config a entry = Ok a' ->
  (forall tx, tx ∈ as_transactions a -> nonce_raised s0 (as_store a) tx) ->
  forall tx, tx ∈ as_transactions a' -> nonce_raised s0 (as_store a') tx.
Proof.
  intros Hwf [Hinv Hev _ _ _ _] He IH.
  destruct a as [s pool included txs deferred bytes skipped fees gas]; cbn in *.
  destruct (cfg_max_block_bytes config <? _); [by run_inv|].
  destruct (apply_tx s (pe_tx entry) _) as [[s' r]|e|] eqn:Ha; run_inv; [|done].
  destruct Hwf as (_ & Hls & _).
  assert (length (tx_sender (pe_tx entry)) = 32%nat) as Hl by (unfold len in Hls; lia).
  intros tx [Htx| ->%list_elem_of_singleton]%elem_of_app; cbn.
  - eapply nonce_raised_evolves; [by apply IH|]. by apply (apply_tx_step _ _ _ _ _ Hl Ha Hinv).
  - intros a0 Ha0. destruct (ev_accounts _ _ Hev _ _ Ha0) as (a1 & Ha1 & Hae).
    destruct (apply_tx_nonce _ _ _ _ _ _ Hl Hinv Ha Ha1) as (a2 & Ha2 & Hle).
    exists a2. split; [done|]. pose proof (ae_nonce _ _ Hae). lia.
Qed.

Lemma assemble_block_nonces s pool ctx config s' pool' r tx :
  chain_inv s -> pool_txs_wf pool -> config_wf config ->
  assemble_block s pool ctx config = Ok (s', pool', r) ->
  tx ∈ exe_included_transactions r -> nonce_raised s s' tx.
Proof.
  intros Hinv Hwf Hc Ha Htx.
  destruct (assemble_block_parts _ _ _ _ _ _ _ Hinv Hwf Hc Ha)
    as (a & Hf & _ & _ & Hev & _ & _ & _ & Hr & _).
  rewrite Hr in Htx. eapply nonce_raised_evolves; [|exact Hev].
  eapply (foldM_invariant _ (fun a => assembling s a /\
    forall tx, tx ∈ as_transactions a -> nonce_raised s (as_store a) tx)) in Hf;
    [by apply Hf| |].
  - intros a0 e a1 He [Has IH] Hs. pose proof (pending_in_order_wf pool Hwf e He).
    split; [by eapply assemble_entry_step|by eapply assemble_entry_nonces].
  - split; [|by intros ? ?%elem_of_nil].
    split; cbn; [done|reflexivity|done|lia|lia|done].
Qed.

(** C1 Replay protection.  A transaction that was admitted against the state a
    block starts from and included in that block is never admitted again: no
    transaction with its sender and nonce, in any encoding, passes admission
    against any later state of the chain. *)
Theorem no_replay s pool ctx config s' pool' r tx raw params s'' pool1 raw1 tx1 params1 out :
  chain_inv s -> pool_txs_wf pool -> config_wf config ->
  assemble_block s pool ctx config = Ok (s', pool', r) ->
  tx ∈ exe_included_transactions r ->
  validate_tx tx raw (admission_context s tx params) = Ok tt ->
  reaches s' s'' ->
  decode_tx raw1 = Ok tx1 -> tx_sender tx1 = tx_sender tx -> tx_nonce tx1 = tx_nonce tx ->
  try_admit pool1 raw1 s'' params1 <> Ok out.
Proof.
  intros Hinv Hwf Hc Ha Htx Hv Hr Hd Hs Hn Hadm. destruct out as [pool2 adm].
  apply validate_tx_Ok in Hv as (a & _ & _ & Hacc & Hnonce & _).
  destruct (assemble_block_step _ _ _ _ _ _ _ Hinv Hwf Hc Ha) as (Hinv' & _).
  destruct (reaches_inv _ _ Hinv' Hr) as [_ Hev].
  pose proof (assemble_block_nonces _ _ _ _ _ _ _ _ Hinv Hwf Hc Ha Htx) as Hra.
  destruct (nonce_raised_evolves _ _ _ _ Hra Hev a Hacc) as (a2 & Ha2 & Hle).
  apply try_admit_Ok in Hadm as (tx2 & Hd2 & (a3 & _ & _ & Ha3 & Hn3 & _)%validate_tx_Ok).
  rewrite Hd in Hd2. injection Hd2 as <-. rewrite Hs, Ha2 in Ha3. injection Ha3 as <-. lia.
Qed.

(** ** State roots *)

(** C4 Every state the chain reaches has a coherent cache of leaf hashes: the root
    computed from the cached leaves is the root of the store rebuilt from its rows
    alone, and the header of the block that produced it carries this root. *)
Theorem block_root_is_rebuilt_root genesis s pool ctx config s' pool' r :
  chain_inv genesis -> reaches genesis s -> pool_txs_wf pool -> config_wf config ->
  assemble_block s pool ctx config = Ok (s', pool', r) ->
  bh_state_root (blk_header (exe_block r)) = state_root (rebuild s') /\
  bh_height (blk_header (exe_block r)) = st_block_height (rebuild s') /\
  state_root s = state_root (rebuild s).
Proof.
  intros Hg Hr Hwf Hc Ha. destruct (reaches_inv _ _ Hg Hr) as [Hinv _].
  destruct (assemble_block_parts _ _ _ _ _ _ _ Hinv Hwf Hc Ha)
    as (a & _ & _ & Hinv' & _ & _ & Hh & _ & _ & _ & _ & Hroot).
  rewrite !rebuild_ok by (by apply ci_store). split_and!; [done| |done].
  unfold assemble_block in Ha. run_inv. by simplify_eq.
Qed.

(** ** Tokens *)

(** C3 A block neither destroys tokens nor creates them beyond the bonds of exited
    validators: all fees and tips are paid out again, returned bonds leave the
    validator set, and when no exited validator has a bond on record the supply is
    exactly what it was. *)
Theorem block_conserves_supply s pool ctx config s' pool' r :
  chain_inv s -> gross s <= u128_max -> pool_txs_wf pool -> config_wf config ->
  assemble_block s pool ctx config = Ok (s', pool', r) ->
  supply s <= supply s' <= gross s /\ (gross s = supply s -> supply s' = supply s).
Proof.
  intros Hinv Hmax Hwf Hc Ha.
  destruct (assemble_block_step _ _ _ _ _ _ _ Hinv Hwf Hc Ha) as (_ & _ & _ & Hs).
  specialize (Hs Hmax). lia.
Qed.

(** C2 A transaction moves tokens without changing their sum: what the state loses
    is the fee charged and the tip.  The only exception is a report against a
    validator that has exited, which puts the bond it was paid back into the
    validator set a second time. *)
Theorem apply_tx_conserves_supply s tx ctx s' r :
  chain_inv s -> tx_wf tx -> gross s <= u128_max -> apply_tx s tx ctx = Ok (s', r) ->
  supply s' + er_fee_charged r + tx_fee_tip tx = supply s + revived s tx r.
Proof.
  intros Hinv (_ & _ & _ & Hf & Ht & _) Hmax Ha.
  by apply (apply_tx_supply_gross _ _ _ _ _ Hinv Hf Ht Hmax Ha).
Qed.

(** ** Validators *)

(** C18 A tombstone is permanent: once a validator has been slashed for
    equivocation it stays jailed with the bond that was left, and is in no later
    active set. *)
Theorem tombstone_is_permanent s s' op v :
  chain_inv s -> reaches s s' -> get_validator s op = Some v -> val_tombstoned v = true ->
  is_active_validator s' op = false /\
  exists v', get_validator s' op = Some v' /\ val_tombstoned v' = true /\
    val_status v' = ValidatorStatus.Jailed /\ val_self_bond v' = val_self_bond v.
Proof.
  intros Hinv Hr Hv Ht. destruct (reaches_inv _ _ Hinv Hr) as [Hinv' Hev].
  destruct (ev_validators _ _ Hev _ _ Hv) as (v' & Hv' & Hve).
  destruct (Hve Ht) as (Ht' & Hb & Hst).
  rewrite (ci_validators _ Hinv _ _ Hv Ht) in Hst. split; [|by exists v'].
  unfold is_active_validator, get_validator, val_is_active. rewrite Hv', Hst. done.
Qed.

(** ** Keys and algorithms *)

Lemma keys_evolve_lookup ks ks' v i k :
  keys_evolve ks ks' -> list_find (fun k => key_version k = v) ks = Some (i, k) ->
  exists k', list_find (fun k => key_version k = v) ks' = Some (i, k') /\ key_evolves k k'.
Proof.
  intros (ks1 & fresh & -> & Hf) (Hi & Hk & Hlt)%list_find_Some.
  destruct (Forall2_lookup_l _ _ _ _ _ Hf Hi) as (k' & Hk' & Hev). exists k'. split; [|done].
  apply list_find_app_l. apply list_find_Some. split_and!; [done| |].
  - destruct Hev as (st & -> & _). done.
  - intros j y Hj Hji. destruct (Forall2_lookup_r _ _ _ _ _ Hf Hj) as (x & Hx & (st & -> & _)).
    by apply (Hlt j x).
Qed.

(** A revoked key never authorises again: if the key an account has under a
    version is revoked, no transaction of that account signed under that version
    is admitted in any later state. *)
Lemma revoked_key_never_admitted s s' addr a i k pool raw tx params out :
  chain_inv s -> reaches s s' -> get_account s addr = Some a ->
  list_find (fun k => key_version k = tx_sig_key_version tx) (acc_keys a) = Some (i, k) ->
  key_status k = KeyStatus.Revoked ->
  decode_tx raw = Ok tx -> tx_sender tx = addr ->
  try_admit pool raw s' params <> Ok out.
Proof.
  intros Hinv Hr Ha Hf Hk Hd <- Hadm. destruct out as [pool' adm].
  destruct (reaches_inv _ _ Hinv Hr) as [_ Hev].
  destruct (ev_accounts _ _ Hev _ _ Ha) as (a' & Ha' & Hae).
  destruct (keys_evolve_lookup _ _ _ _ _ (ae_keys _ _ Hae) Hf) as (k' & Hf' & st & -> & Hst).
  apply try_admit_Ok in Hadm as (tx2 & Hd2 & (a2 & k2 & _ & Ha2 & _ & Hl & _)%validate_tx_Ok).
  rewrite Hd in Hd2. injection Hd2 as <-. unfold get_account in Ha2. rewrite Ha' in Ha2.
  injection Ha2 as <-. unfold KeySetOps.lookup in Hl. rewrite Hf' in Hl. run_inv.
  injection H2 as <-. by apply H4, Hst.
Qed.

Lemma admits_rank l1 l2 :
  lifecycle_rank l1 <= lifecycle_rank l2 ->
  Lifecycle.admits_transactions l2 = true -> Lifecycle.admits_transactions l1 = true.
Proof. by destruct l1, l2. Qed.

(** The registry only tightens: the lifecycle of an algorithm never moves back,
    so an algorithm that no longer admits transactions never admits one again. *)
Lemma retired_algorithm_never_admitted s s' alg e pool raw tx params out :
  chain_inv s -> reaches s s' -> alg_entry s alg = Some e ->
  Lifecycle.admits_transactions (alg_lifecycle e) = false ->
  decode_tx raw = Ok tx -> tx_sig_alg_id tx = alg ->
  try_admit pool raw s' params <> Ok out.
Proof.
  intros Hinv Hr He Hl Hd <- Hadm. destruct out as [pool' adm].
  destruct (reaches_inv _ _ Hinv Hr) as [_ Hev].
  destruct (ev_algs _ _ Hev _ _ He) as (e' & He' & _ & _ & Hrank).
  apply try_admit_Ok in Hadm as (tx2 & Hd2 & (_ & _ & l & _ & _ & _ & Hal & Hok)%validate_tx_Ok).
  rewrite Hd in Hd2. injection Hd2 as <-. unfold alg_entry in Hal. rewrite He' in Hal.
  injection Hal as <-. rewrite (admits_rank _ _ Hrank Hok) in Hl. done.
Qed.

(** C19 Credentials that were withdrawn never authorise again: no transaction is
    admitted in any later state if its key version is revoked on the sender's account,
    or if its algorithm no longer admits transactions. *)
Theorem unusable_credentials_never_admitted s s' pool raw tx params out :
  chain_inv s -> reaches s s' -> decode_tx raw = Ok tx ->
  (exists a i k, get_account s (tx_sender tx) = Some a /\
     list_find (fun k => key_version k = tx_sig_key_version tx) (acc_keys a) = Some (i, k) /\
     key_status k = KeyStatus.Revoked) \/
  (exists e, alg_entry s (tx_sig_alg_id tx) = Some e /\
     Lifecycle.admits_transactions (alg_lifecycle e) = false) ->
  try_admit pool raw s' params <> Ok out.
Proof.
  intros Hinv Hr Hd [(a & i & k & Ha & Hf & Hk)|(e & He & Hl)].
  - by eapply (revoked_key_never_admitted s s' (tx_sender tx) a i k).
  - by eapply (retired_algorithm_never_admitted s s' (tx_sig_alg_id tx) e).
Qed.

(** C17 Every account of a reachable state that has keys satisfies the account
    invariants: an active key, no two keys with one version, no template data on a
    plain account.  Accounts are never removed and their nonces never decrease. *)
Theorem account_invariants s s' :
  chain_inv s -> reaches s s' ->
  (forall addr a, get_account s' addr = Some a -> acc_keys a = [] \/ check_invariants a = Ok tt) /\
  (forall addr a, get_account s addr = Some a -> exists a', get_account s' addr = Some a' /\
     acc_nonce a <= acc_nonce a' /\ acc_policy_version a <= acc_policy_version a').
Proof.
  intros Hinv Hr. destruct (reaches_inv _ _ Hinv Hr) as [Hinv' Hev]. split.
  - intros addr a Ha. by apply (ci_accounts _ Hinv' addr).
  - intros addr a Ha. destruct (ev_accounts _ _ Hev _ _ Ha) as (a' & ? & []). eauto.
Qed.

(** What was decided or attested stays: an attestation keeps its content, a
    revoked one does not change again, a proposal keeps its effect and every vote
    cast, a proposal that left the voting state never changes, and an archival
    record keeps its root and its signatures. *)
Lemma records_are_final s s' :
  chain_inv s -> reaches s s' ->
  (forall id a, get_attestation s id = Some a -> exists a', get_attestation s' id = Some a' /\
     att_content_hash a' = att_content_hash a /\ att_attester a' = att_attester a /\
     (att_status a = AttestationStatus.Revoked -> a' = a)) /\
  (forall id p, get_pending_proposal s id = Some p -> exists p',
     get_pending_proposal s' id = Some p' /\ prop_effect p' = prop_effect p /\
     prop_votes p ⊆ prop_votes p' /\ (prop_status p <> ProposalStatus.Voting -> p' = p)) /\
  (forall n r, get_archival_record s n = Some r -> exists r', get_archival_record s' n = Some r' /\
     ar_epoch_root r' = ar_epoch_root r /\ ar_signer_addresses r' = ar_signer_addresses r /\
     ar_slh_signatures r' = ar_slh_signatures r).
Proof.
  intros Hinv Hr. destruct (reaches_inv _ _ Hinv Hr) as [_ Hev]. split_and!.
  - intros id a Ha. destruct (ev_attestations _ _ Hev _ _ Ha) as (a' & Ha' & [->|(Hs & r & ->)]).
    + by exists a.
    + eexists. split; [exact Ha'|]. split_and!; [done|done|congruence].
  - intros id p Hp. destruct (ev_proposals _ _ Hev _ _ Hp) as (p' & ? & ? & ? & ? & ?). eauto 6.
  - intros n r Hn. destruct (ev_records _ _ Hev _ _ Hn) as (r' & ? & ? & ? & ? & ?). eauto 6.
Qed.
End chain.

(** ** Witnesses *)

#[local] Existing Instance example_shake.
#[local] Existing Instance example_verifier.
#[local] Existing Instance Ex.cbor.

Lemma no_replay_witness : exists s' pool' r,
  Ex.block_run = Ok (s', pool', r) /\
  try_admit Ex.pool Ex.transfer_raw s' Ex.fee_params <> Ok (Ex.pool, mkAdmissionResult [] None).
Proof.
  destruct Ex.block_run_Ok as (s' & pool' & r & Hrun & Hinc & _). exists s', pool', r.
  split; [exact Hrun|].
  apply (no_replay Ex.genesis Ex.pool Ex.ctx Ex.config s' pool' r Ex.transfer Ex.transfer_raw
    Ex.fee_params s' Ex.pool Ex.transfer_raw Ex.transfer).
  - exact Ex.genesis_inv.
  - exact Ex.pool_wf.
  - exact Ex.config_ok.
  - exact Hrun.
  - rewrite Hinc. left.
  - exact Ex.transfer_valid.
  - apply reaches_refl.
  - exact Ex.transfer_decodes.
  - reflexivity.
  - reflexivity.
Defined.

Lemma block_root_is_rebuilt_root_witness : exists s' pool' r,
  Ex.block_run = Ok (s', pool', r) /\
  bh_state_root (blk_header (exe_block r)) = state_root (rebuild s') /\
  bh_height (blk_header (exe_block r)) = st_block_height (rebuild s') /\
  state_root Ex.genesis = state_root (rebuild Ex.genesis).
Proof.
  destruct Ex.block_run_Ok as (s' & pool' & r & Hrun & _). exists s', pool', r.
  split; [exact Hrun|].
  apply (block_root_is_rebuilt_root Ex.genesis Ex.genesis Ex.pool Ex.ctx Ex.config s' pool' r).
  - exact Ex.genesis_inv.
  - apply reaches_refl.
  - exact Ex.pool_wf.
  - exact Ex.config_ok.
  - exact Hrun.
Defined.

Lemma block_conserves_supply_witness : exists s' pool' r,
  Ex.block_run = Ok (s', pool', r) /\
  supply Ex.genesis <= supply s' <= gross Ex.genesis /\
  (gross Ex.genesis = supply Ex.genesis -> supply s' = supply Ex.genesis).
Proof.
  destruct Ex.block_run_Ok as (s' & pool' & r & Hrun & _). exists s', pool', r.
  split; [exact Hrun|].
  apply (block_conserves_supply Ex.genesis Ex.pool Ex.ctx Ex.config s' pool' r).
  - exact Ex.genesis_inv.
  - by vm_compute.
  - exact Ex.pool_wf.
  - exact Ex.config_ok.
  - exact Hrun.
Defined.

(** The transfer, applied on its own. *)
Definition example_applied := apply_tx Ex.genesis Ex.transfer (mkExecutionContext 1 Ex.fee_params).

Lemma apply_tx_conserves_supply_witness : exists s' r,
  example_applied = Ok (s', r) /\
  supply s' + er_fee_charged r + tx_fee_tip Ex.transfer =
    supply Ex.genesis + revived Ex.genesis Ex.transfer r.
Proof.
  assert (match example_applied with Ok _ => true | _ => false end = true) as Hok by by vm_compute.
  destruct example_applied as [[s' r]| |] eqn:Ha; [|discriminate Hok|discriminate Hok].
  exists s', r. split; [reflexivity|].
  apply (apply_tx_conserves_supply Ex.genesis Ex.transfer (mkExecutionContext 1 Ex.fee_params)).
  - exact Ex.genesis_inv.
  - unfold tx_wf. split_and!; by vm_compute.
  - by vm_compute.
  - exact Ha.
Defined.

Lemma tombstone_is_permanent_witness : exists s' pool' r,
  Ex.run_of Ex.tombstoned = Ok (s', pool', r) /\ is_active_validator s' Ex.dave = false /\
  exists v', get_validator s' Ex.dave = Some v' /\ val_tombstoned v' = true /\
    val_status v' = ValidatorStatus.Jailed /\ val_self_bond v' = 77.
Proof.
  destruct (Ex.ran_Ok _ Ex.tombstoned_runs) as (s' & pool' & r & Hrun). exists s', pool', r.
  split; [exact Hrun|].
  refine (tombstone_is_permanent Ex.tombstoned s' Ex.dave
    ((Ex.validator Ex.dave 77 ValidatorStatus.Jailed x2d) <| val_tombstoned := true |>) _ _ _ _).
  - exact Ex.tombstoned_inv.
  - eapply reaches_block; [exact Ex.empty_pool_wf|exact Ex.config_ok|exact Hrun|apply reaches_refl].
  - by vm_compute.
  - reflexivity.
Defined.

Lemma unusable_credentials_never_admitted_witness : exists s' pool' r t pool'' r',
  Ex.run_of Ex.revoked = Ok (s', pool', r) /\
  try_admit Ex.pool Ex.transfer_raw s' Ex.fee_params <> Ok (Ex.pool, mkAdmissionResult [] None) /\
  Ex.run_of Ex.banned = Ok (t, pool'', r') /\
  try_admit Ex.pool Ex.transfer_raw t Ex.fee_params <> Ok (Ex.pool, mkAdmissionResult [] None).
Proof.
  destruct (Ex.ran_Ok _ Ex.revoked_runs) as (s' & pool' & r & Hrun).
  destruct (Ex.ran_Ok _ Ex.banned_runs) as (t & pool'' & r' & Hrun'). exists s', pool', r, t, pool'', r'.
  split; [exact Hrun|]. split; [|split; [exact Hrun'|]].
  - apply (unusable_credentials_never_admitted Ex.revoked s' Ex.pool Ex.transfer_raw Ex.transfer).
    + exact Ex.revoked_inv.
    + eapply reaches_block; [exact Ex.empty_pool_wf|exact Ex.config_ok|exact Hrun|apply reaches_refl].
    + exact Ex.transfer_decodes.
    + left. eexists _, 0%nat, _. split; [vm_compute; reflexivity|]. split; [vm_compute; reflexivity|reflexivity].
  - apply (unusable_credentials_never_admitted Ex.banned t Ex.pool Ex.transfer_raw Ex.transfer).
    + exact Ex.banned_inv.
    + eapply reaches_block; [exact Ex.empty_pool_wf|exact Ex.config_ok|exact Hrun'|apply reaches_refl].
    + exact Ex.transfer_decodes.
    + right. exists Ex.banned_entry. split; [by vm_compute|reflexivity].
Defined.

Lemma account_invariants_witness : exists s' pool' r,
  Ex.block_run = Ok (s', pool', r) /\
  (forall addr a, get_account s' addr = Some a -> acc_keys a = [] \/ check_invariants a = Ok tt) /\
  (forall addr a, get_account Ex.genesis addr = Some a -> exists a', get_account s' addr = Some a' /\
     acc_nonce a <= acc_nonce a' /\ acc_policy_version a <= acc_policy_version a').
Proof.
  destruct Ex.block_run_Ok as (s' & pool' & r & Hrun & _). exists s', pool', r.
  split; [exact Hrun|]. apply (account_invariants Ex.genesis s').
  - exact Ex.genesis_inv.
  - eapply reaches_block; [exact Ex.pool_wf|exact Ex.config_ok|exact Hrun|apply reaches_refl].
Defined.

Lemma records_are_final_witness : exists s' pool' r,
  Ex.block_run = Ok (s', pool', r) /\
  (forall id a, get_attestation Ex.genesis id = Some a -> exists a',
     get_attestation s' id = Some a' /\
     att_content_hash a' = att_content_hash a /\ att_attester a' = att_attester a /\
     (att_status a = AttestationStatus.Revoked -> a' = a)) /\
  (forall id p, get_pending_proposal Ex.genesis id = Some p -> exists p',
     get_pending_proposal s' id = Some p' /\ prop_effect p' = prop_effect p /\
     prop_votes p ⊆ prop_votes p' /\ (prop_status p <> ProposalStatus.Voting -> p' = p)) /\
  (forall n r, get_archival_record Ex.genesis n = Some r -> exists r',
     get_archival_record s' n = Some r' /\
     ar_epoch_root r' = ar_epoch_root r /\ ar_signer_addresses r' = ar_signer_addresses r /\
     ar_slh_signatures r' = ar_slh_signatures r).
Proof.
  destruct Ex.block_run_Ok as (s' & pool' & r & Hrun & _). exists s', pool', r.
  split; [exact Hrun|]. apply (records_are_final Ex.genesis s').
  - exact Ex.genesis_inv.
  - eapply reaches_block; [exact Ex.pool_wf|exact Ex.config_ok|exact Hrun|apply reaches_refl].
Defined.
