(* ===== verification/MempoolProps.v ===== *)
(** * What the pending pool guarantees.

    The two indexes stay inverse to each other, at most one transaction is pending
    per (sender, nonce) slot, the replacement rule, and the order in which a block
    takes the entries, which does not depend on the hash map's iteration order. *)

From S2P Require Import Prelude Crypto Types Cbor Payloads Tx FeeMarket Leaves Store StoreInv.
From S2P Require Import ApplyAccounts ApplyValidators Governance Archival ApplyTx Mempool Block.
From S2P Require Import TxSpec TxRefine Invariants Supply BlockInv Examples.

(** ** Lexicographic orders *)

Section lex.
Context {A K : Type} (key : A -> K) (lt : relation K) (rest : relation A).
Context `{!StrictOrder lt} (trichotomy : forall a b, lt a b \/ a = b \/ lt b a).

Definition lex : relation A :=
  fun x y => lt (key x) (key y) \/ (key x = key y /\ rest x y).

Lemma lex_trans : Transitive rest -> Transitive lex.
Proof.
  intros Hr x y z [Hxy|[Hxy Rxy]] [Hyz|[Hyz Ryz]].
  - left. by etrans.
  - left. by rewrite <-Hyz.
  - left. by rewrite Hxy.
  - right. split; [by etrans|by etrans].
Qed.

Lemma lex_total : Total rest -> Total lex.
Proof.
  intros Hr x y. destruct (trichotomy (key x) (key y)) as [?|[?|?]]; [by left; left| |by right; left].
  destruct (total rest x y); [left|right]; by right.
Qed.

(** Both directions hold only where [rest] decides. *)
Lemma lex_both x y : lex x y -> lex y x -> rest x y /\ rest y x.
Proof.
  intros [Hxy|[Hxy Rxy]] [Hyx|[Hyx Ryx]]; [..|done]; exfalso; apply (irreflexivity lt (key x)).
  - by etrans.
  - by rewrite Hyx in Hxy.
  - by rewrite Hxy in Hyx |- *.
Qed.
End lex.

Lemma N_trichotomy (a b : N) : a < b \/ a = b \/ b < a.
Proof. lia. Qed.

Lemma bytes_trichotomy (a b : bytes) : bytes_lt a b \/ a = b \/ bytes_lt b a.
Proof.
  destruct (decide (a = b)) as [|Hne]; [by right; left|].
  destruct (total bytes_le a b); [left|right; right]; by split.
Qed.

Global Instance N_gt_strict : StrictOrder (fun a b : N => b < a).
Proof. split; [intros x Hx; cbn in Hx; unfold complement; lia|intros x y z ??; lia]. Qed.

Global Instance N_lt_strict : StrictOrder N.lt.
Proof. split; [intros x Hx; lia|intros x y z ??; lia]. Qed.

Global Instance bytes_lt_strict : StrictOrder bytes_lt.
Proof.
  split; [by intros x [_ []]|]. intros x y z [Hxy Hne] [Hyz Hne']. split; [by etrans|].
  intros ->. apply Hne. by apply (anti_symm bytes_le).
Qed.

Definition hash_le (l r : PendingEntry) : Prop := bytes_le (pe_tx_hash l) (pe_tx_hash r).

Lemma pending_le_lex :
  pending_le = lex pe_fee (fun a b => b < a) (lex pe_fee_tip (fun a b => b < a)
    (lex (fun e => tx_sender (pe_tx e)) bytes_lt (lex (fun e => tx_nonce (pe_tx e)) N.lt hash_le))).
Proof. reflexivity. Qed.

Global Instance pending_le_trans : Transitive pending_le.
Proof.
  rewrite pending_le_lex. do 4 (apply lex_trans; [apply _|]). intros x y z. unfold hash_le. by etrans.
Qed.

Global Instance pending_le_total : Total pending_le.
Proof.
  rewrite pending_le_lex. apply lex_total; [intros; lia|]. apply lex_total; [intros; lia|].
  apply lex_total; [apply bytes_trichotomy|]. apply lex_total; [apply N_trichotomy|].
  intros x y. apply (total bytes_le).
Qed.

Lemma pending_le_both x y : pending_le x y -> pending_le y x -> pe_tx_hash x = pe_tx_hash y.
Proof.
  rewrite pending_le_lex. intros Hxy Hyx.
  do 4 (apply lex_both in Hxy as [Hxy Hyx']; [|apply _|done]; clear Hyx; rename Hyx' into Hyx).
  by apply (anti_symm bytes_le).
Qed.

(** ** The indexes *)

Section pool.
Context `{Ciborium, Shake, Verifier}.
Implicit Types (pool : Mempool) (e : PendingEntry).

(** What an entry says of the bytes it was admitted with. *)
Definition entry_ok e : Prop :=
  decode_tx (pe_raw_bytes e) = Ok (pe_tx e) /\ pe_tx_hash e = compute_tx_hash (pe_raw_bytes e) /\
  pe_fee e = tx_fee (pe_tx e) /\ pe_fee_tip e = tx_fee_tip (pe_tx e).

Record pool_ok pool : Prop := {
  po_entry : forall h e, by_hash pool !! h = Some e -> pe_tx_hash e = h /\ entry_ok e;
  po_slot : forall h e, by_hash pool !! h = Some e -> by_sender_nonce pool !! slot e = Some h;
  po_hash : forall sl h, by_sender_nonce pool !! sl = Some h ->
    exists e, by_hash pool !! h = Some e /\ slot e = sl;
  po_vc : vc_admitted_count pool <= vc_per_block_cap pool;
  po_cap : vc_per_block_cap pool < u64_max
}.

Lemma Mempool_new_ok : pool_ok Mempool_new.
Proof.
  split; cbn; try lia; intros ??; rewrite lookup_empty; done.
Qed.

Lemma pool_ok_vc pool n :
  pool_ok pool -> n <= vc_per_block_cap pool -> pool_ok (pool <| vc_admitted_count := n |>).
Proof. intros [] ?. by split. Qed.

Lemma reset_vc_count_ok pool : pool_ok pool -> pool_ok (reset_vc_count pool).
Proof. intros Hp. apply pool_ok_vc; [done|lia]. Qed.

Lemma evict_ok h pool : pool_ok pool -> pool_ok (evict h pool).
Proof.
  intros Hp. unfold evict. destruct (by_hash pool !! h) as [e|] eqn:He; [|done].
  split; unfold set; cbn; [|..|apply (po_vc _ Hp)|apply (po_cap _ Hp)].
  - intros h' e' [_ He']%lookup_delete_Some. by apply (po_entry _ Hp).
  - intros h' e' [Hne He']%lookup_delete_Some. pose proof (po_slot _ Hp _ _ He') as Hs.
    rewrite lookup_delete_ne; [done|]. intros Heq. apply Hne.
    pose proof (po_slot _ Hp _ _ He) as Hs'. rewrite Heq in Hs'. congruence.
  - intros sl h' [Hne Hs]%lookup_delete_Some. destruct (po_hash _ Hp _ _ Hs) as (e' & He' & <-).
    exists e'. split; [|done]. rewrite lookup_delete_ne; [done|]. intros ->. congruence.
Qed.

Lemma evict_all_ok l pool :
  pool_ok pool -> pool_ok (foldl (fun pool h => evict h pool) pool l).
Proof. revert pool. induction l; intros pool Hp; cbn; auto using evict_ok. Qed.

Lemma evict_lookup h pool : by_hash (evict h pool) = delete h (by_hash pool).
Proof.
  unfold evict. destruct (by_hash pool !! h) eqn:He; [done|]. by rewrite delete_id.
Qed.

Lemma evict_slot pool h e :
  pool_ok pool -> by_hash pool !! h = Some e -> by_sender_nonce (evict h pool) !! slot e = None.
Proof. intros Hp He. unfold evict. rewrite He. cbn. apply lookup_delete_eq. Qed.

Lemma pool_insert_ok e pool :
  pool_ok pool -> entry_ok e -> by_sender_nonce pool !! slot e = None ->
  by_hash pool !! pe_tx_hash e = None -> pool_ok (pool_insert e pool).
Proof.
  intros Hp He Hs Hh. split; unfold pool_insert, set; cbn; [|..|apply (po_vc _ Hp)|apply (po_cap _ Hp)].
  - intros h e' [[<- <-]|[_ He']]%lookup_insert_Some; [done|]. by apply (po_entry _ Hp).
  - intros h e' [[<- <-]|[Hne He']]%lookup_insert_Some; [apply lookup_insert_eq|].
    pose proof (po_slot _ Hp _ _ He') as Hs'. rewrite lookup_insert_ne; [done|congruence].
  - intros sl h [[<- <-]|[Hne Hs']]%lookup_insert_Some.
    + exists e. split; [apply lookup_insert_eq|done].
    + destruct (po_hash _ Hp _ _ Hs') as (e' & He' & <-). exists e'. split; [|done].
      rewrite lookup_insert_ne; [done|congruence].
Qed.

Lemma insert_admitted_ok {St} `{StateView St} (state : St) e pool pool' :
  pool_ok pool -> entry_ok e -> by_sender_nonce pool !! slot e = None ->
  by_hash pool !! pe_tx_hash e = None ->
  (is_vc state (pe_tx e) = true -> vc_admitted_count pool < vc_per_block_cap pool) ->
  insert_admitted state e pool = Ok pool' ->
  pool_ok pool' /\ by_hash pool' = <[pe_tx_hash e := e]> (by_hash pool).
Proof.
  intros Hp He Hs Hh Hvc Hi. pose proof (pool_insert_ok _ _ Hp He Hs Hh) as Hp'.
  unfold insert_admitted in Hi. destruct (is_vc state (pe_tx e)); [|run_inv; by split].
  unfold increment_vc_count in Hi. run_inv. split; [|done]. apply pool_ok_vc; [done|].
  specialize (Hvc eq_refl). cbn. lia.
Qed.

(** C31 Admission keeps the pool consistent: the two indexes stay inverse to each
    other, every entry is what its bytes decode to, and the count of premium
    signatures stays within the cap.  A successful admission adds exactly its entry;
    it displaces a transaction only from the same (sender, nonce) slot, and only for
    a fee of at least the replacement floor and no smaller a tip. *)
Theorem mempool_admission {St} `{StateView St} pool raw (state : St) params pool' adm :
  pool_ok pool -> try_admit pool raw state params = Ok (pool', adm) ->
  pool_ok pool' /\ exists tx,
    let e := mkPendingEntry tx raw (compute_tx_hash raw) (tx_fee tx) (tx_fee_tip tx) in
    decode_tx raw = Ok tx /\ adm_tx_hash adm = compute_tx_hash raw /\
    match adm_replaced adm with
    | None => pending_for_slot pool (tx_sender tx) (tx_nonce tx) = None /\
        by_hash pool' = <[compute_tx_hash raw := e]> (by_hash pool)
    | Some h => exists old, by_hash pool !! h = Some old /\ slot old = slot e /\
        min_replacement_fee old <= tx_fee tx /\ pe_fee_tip old <= tx_fee_tip tx /\
        by_hash pool' = <[compute_tx_hash raw := e]> (delete h (by_hash pool))
    end.
Proof.
  intros Hp Ha. unfold try_admit in Ha. run_inv. rename x into tx.
  set (e := mkPendingEntry tx raw (compute_tx_hash raw) (tx_fee tx) (tx_fee_tip tx)) in *.
  assert (entry_ok e) as He by done.
  assert (is_vc state tx = true -> vc_admitted_count pool < vc_per_block_cap pool) as Hvc.
  { intros Hv. rewrite Hv in *. cbn in *. by bool_hyps. }
  assert (by_hash pool !! compute_tx_hash raw = None) as Hfresh by (by apply eq_None_not_Some).
  destruct (pending_for_slot pool (tx_sender tx) (tx_nonce tx)) as [h|] eqn:Hs.
  - destruct (po_hash _ Hp _ _ Hs) as (old & Hold & Hslot).
    unfold pool_get in Ha. rewrite Hold in Ha. run_inv. inversion Ha; subst; clear Ha.
    revert select (insert_admitted _ _ _ = Ok _). intros Hi.
    apply insert_admitted_ok in Hi as [Hp' Hby]; [|by apply evict_ok|done| | |].
    + split; [done|]. exists tx. split_and!; [done|done|]. cbn. exists old.
      rewrite Hby, evict_lookup. by split_and!.
    + change (slot e) with (tx_sender tx, tx_nonce tx). rewrite <-Hslot. by eapply evict_slot.
    + rewrite evict_lookup. apply lookup_delete_None. by right.
    + unfold evict. rewrite Hold. done.
  - run_inv. inversion Ha; subst; clear Ha.
    revert select (insert_admitted _ _ _ = Ok _). intros Hi.
    apply insert_admitted_ok in Hi as [Hp' Hby]; [|done|done|done|done|done].
    split; [done|]. exists tx. by split_and!.
Qed.

(** Every other operation keeps the pool consistent, and the slot index never
    refers to a missing entry, so the recovery branch of admission is not taken. *)
Lemma mempool_operations pool :
  pool_ok pool ->
  (forall h, pool_ok (evict h pool) /\ by_hash (evict h pool) !! h = None) /\
  (forall sender n, pool_ok (evict_stale sender n pool)) /\ pool_ok (reset_vc_count pool) /\
  (forall sender n h, pending_for_slot pool sender n = Some h -> exists e,
     pool_get pool h = Some e /\ tx_sender (pe_tx e) = sender /\ tx_nonce (pe_tx e) = n /\
     forall h' e', pool_get pool h' = Some e' -> tx_sender (pe_tx e') = sender ->
       tx_nonce (pe_tx e') = n -> h' = h).
Proof.
  intros Hp. split_and!.
  - intros h. split; [by apply evict_ok|]. rewrite evict_lookup. apply lookup_delete_eq.
  - intros sender n. by apply evict_all_ok.
  - by apply reset_vc_count_ok.
  - intros sender n h Hs. destruct (po_hash _ Hp _ _ Hs) as (e & He & [= <- <-]). exists e.
    split_and!; [done..|]. intros h' e' He' Hs1 Hn1. pose proof (po_slot _ Hp _ _ He') as Hs2.
    unfold slot in Hs2. rewrite Hs1, Hn1 in Hs2. unfold pending_for_slot in Hs. congruence.
Qed.

(** The order of a block's transactions is a function of the set of pending
    entries: any iteration order of the hash map sorts to the same list. *)
Lemma block_order_is_canonical pool l :
  pool_ok pool -> l ≡ₚ all_pending pool ->
  merge_sort pending_le l = pending_in_order pool /\ StronglySorted pending_le (pending_in_order pool).
Proof.
  intros Hp Hl.
  assert (StronglySorted pending_le (pending_in_order pool)) as Hs.
  { apply (StronglySorted_merge_sort pending_le). }
  split; [|done]. unfold pending_in_order in *.
  apply (StronglySorted_unique_strong pending_le); [|apply (StronglySorted_merge_sort pending_le)|done|].
  - intros x y. rewrite !merge_sort_Permutation, Hl. unfold all_pending. intros Hx Hy Hxy Hyx.
    apply list_elem_of_fmap in Hx as ([h1 e1] & -> & He1%elem_of_map_to_list).
    apply list_elem_of_fmap in Hy as ([h2 e2] & -> & He2%elem_of_map_to_list). cbn in *.
    pose proof (pending_le_both _ _ Hxy Hyx) as Heq.
    destruct (po_entry _ Hp _ _ He1) as [Hh1 _]. destruct (po_entry _ Hp _ _ He2) as [Hh2 _].
    congruence.
  - by rewrite !merge_sort_Permutation.
Qed.
End pool.

(** The replacement floor is a tenth above the old fee, rounded down, as long as
    the product fits in 64 bits; it exceeds the old fee from ten units on.  Above a
    fee of 2^64 / 100 the saturated product makes the floor fall below the old fee,
    so a cheaper transaction replaces it. *)
Lemma replacement_floor e :
  (pe_fee e * 110 <= u64_max ->
     min_replacement_fee e = pe_fee e * 110 / 100 /\ pe_fee e <= min_replacement_fee e /\
     (10 <= pe_fee e -> pe_fee e < min_replacement_fee e)) /\
  (u64_max / 100 < pe_fee e -> min_replacement_fee e < pe_fee e).
Proof.
  unfold min_replacement_fee, REPLACEMENT_FEE_BUMP_NUM, REPLACEMENT_FEE_BUMP_DEN. split.
  - intros Hfit. rewrite sat_mul_small by done. split_and!; [done| |].
    + apply N.div_le_lower_bound; lia.
    + intros. apply N.le_succ_l, N.div_le_lower_bound; lia.
  - intros Hbig. eapply N.le_lt_trans; [|done]. apply N.Div0.div_le_mono. unfold sat_mul. lia.
Qed.

(** ** Witnesses *)

#[local] Existing Instance example_shake.
#[local] Existing Instance example_verifier.
#[local] Existing Instance Ex.cbor.

Lemma transfer_admitted : exists pool' adm,
  try_admit Mempool_new Ex.transfer_raw Ex.genesis Ex.fee_params = Ok (pool', adm).
Proof.
  assert (match try_admit Mempool_new Ex.transfer_raw Ex.genesis Ex.fee_params with
          | Ok _ => true | _ => false end = true) as Hok by by vm_compute.
  destruct (try_admit _ _ _ _) as [[pool' adm]| |]; [|done|done]. eauto.
Qed.

Lemma mempool_admission_witness : exists pool' adm,
  try_admit Mempool_new Ex.transfer_raw Ex.genesis Ex.fee_params = Ok (pool', adm) /\ pool_ok pool'.
Proof.
  destruct transfer_admitted as (pool' & adm & Ha). exists pool', adm. split; [exact Ha|].
  exact (proj1 (mempool_admission Mempool_new Ex.transfer_raw Ex.genesis Ex.fee_params pool' adm
    Mempool_new_ok Ha)).
Defined.


Lemma Ex_pool_ok : pool_ok Ex.pool.
Proof.
  apply pool_insert_ok; [apply Mempool_new_ok| |by vm_compute|by vm_compute].
  split_and!; by vm_compute.
Qed.

Lemma mempool_operations_witness : pool_ok (evict_stale Ex.alice 5 Ex.pool).
Proof. exact (proj1 (proj2 (mempool_operations Ex.pool Ex_pool_ok)) Ex.alice 5). Defined.

Lemma block_order_is_canonical_witness :
  merge_sort pending_le (reverse (all_pending Ex.pool)) = pending_in_order Ex.pool /\
  StronglySorted pending_le (pending_in_order Ex.pool).
Proof.
  apply (block_order_is_canonical Ex.pool); [apply Ex_pool_ok|apply reverse_Permutation].
Defined.
