(* ===== verification/RecoveryProps.v ===== *)
(** * What replay reproduces.

    Re-executing the blocks a node produced yields the state it had, as long as no
    block closed an epoch and every transaction was submitted in its canonical
    encoding.  Each of the two exceptions makes a produced block impossible to
    replay. *)

From S2P Require Import Prelude Crypto Types Cbor Payloads Tx FeeMarket Leaves Store StoreInv.
From S2P Require Import ApplyAccounts ApplyValidators Governance Archival ApplyTx TxSpec TxRefine.
From S2P Require Import Invariants Supply Mempool Block BlockInv Chain ChainInv Recovery.
From S2P Require Import StateRoot Examples.

#[local] Arguments state_root : simpl never.
#[local] Arguments compute_block_hash : simpl never.

Section recovery_props.
Context `{Ciborium, Shake, Verifier}.
Implicit Types (s : StateStore) (tx : Transaction) (pool : Mempool) (c : ChainStore).

(** ** Transactions leave the fee market alone *)

Lemma credit_fee_market addr amount s :
  st_fee_market (credit_account addr amount s) = st_fee_market s.
Proof.
  unfold credit_account. destruct (_ =? _); [done|].
  destruct (get_account s addr); [by rewrite commit_put_account|done].
Qed.

Lemma tx_effect_fee_market tx s s' : tx_effect tx s s' -> st_fee_market s' = st_fee_market s.
Proof.
  destruct 1; subst; unfold push_archival_anchor, increment_archival_record_version,
    set_validator_peer_id, credit_treasury, record_recent_slash, prune_recent_slashes_before;
    try done; try (by rewrite credit_fee_market); repeat case_match; try done.
  all: cbn; by rewrite credit_fee_market.
Qed.

Lemma apply_tx_fee_market s tx ctx s' r :
  chain_inv s -> apply_tx s tx ctx = Ok (s', r) -> st_fee_market s' = st_fee_market s.
Proof.
  intros Hinv (s1 & (a & _ & _ & _ & ->)%settle_sender_Ok & [(-> & _)|(Hp & _)])%apply_tx_Ok; [done|].
  change (st_fee_market s1 = st_fee_market s).
  apply (tx_effect_fee_market tx), apply_payload_refines; [apply (ci_store _ Hinv)| |done].
  intros v Hv. by apply (ci_validators _ Hinv _ _ Hv).
Qed.

(** ** The transactions of a block *)

(** Submitted as the encoding of what it decodes to. *)
Definition canonical_entry (e : PendingEntry) : Prop :=
  encode_tx (pe_tx e) = Ok (pe_raw_bytes e) /\ pe_tx_hash e = compute_tx_hash (pe_raw_bytes e).
Definition pool_canonical pool : Prop := forall e, e ∈ all_pending pool -> canonical_entry e.

(** The transactions included so far replay to the state of the loop. *)
Definition replayed config height s (a : Assembly) : Prop :=
  foldM (replay_tx height (exec_fee_params s (cfg_fee_params config))) (s, 0, 0, 0)
    (zip (as_transactions a) (as_included a)) =
  Ok (as_store a, as_fees_collected a, as_block_gas_used a, len (as_included a)).

Lemma replayed_step {E} config height s0 a entry a' :
  canonical_entry entry -> chain_inv (as_store a) ->
  st_fee_market (as_store a) = st_fee_market s0 -> length (as_included a) = length (as_transactions a) ->
  replayed config height s0 a -> assemble_entry (E := E) config a entry = Ok a' ->
  replayed config height s0 a' /\ st_fee_market (as_store a') = st_fee_market s0.
Proof.
  intros [Henc Hhash] Hinv Hfm Hl Hrep He.
  destruct a as [s pool included txs deferred bytes skipped fees gas]; cbn in *.
  destruct (cfg_max_block_bytes config <? _); [run_inv; by split|].
  destruct (apply_tx s (pe_tx entry) _) as [[s' r]|e|] eqn:Ha; run_inv; [|by split].
  split; [|cbn; by rewrite (apply_tx_fee_market _ _ _ _ _ Hinv Ha)].
  unfold replayed in *. cbn in *. rewrite zip_with_app, foldM_app, Hrep by done. cbn.
  rewrite Henc. cbn. rewrite Hhash, bool_decide_true by done. cbn.
  unfold exec_fee_params in Ha |- *. rewrite Hfm in Ha. rewrite Ha. cbn.
  unfold len. rewrite length_app. cbn. do 3 f_equal. lia.
Qed.

Lemma assembly_replayed {E} config height s pool l a :
  chain_inv s -> (forall e, e ∈ l -> tx_wf (pe_tx e)) -> (forall e, e ∈ l -> canonical_entry e) ->
  foldM (assemble_entry (E := E) config) (mkAssembly s pool [] [] [] 0 [] 0 0) l = Ok a ->
  replayed config height s a.
Proof.
  intros Hinv Hwf Hcan Ha.
  cut (assembling s a /\ replayed config height s a /\ st_fee_market (as_store a) = st_fee_market s).
  { tauto. }
  revert Ha. apply (foldM_invariant _ (fun a => assembling s a /\ replayed config height s a /\
    st_fee_market (as_store a) = st_fee_market s)).
  - intros a0 e a' He (Hg & Hr & Hf) Ha. pose proof Hg as [Hinv0 _ _ _ _ Hl].
    split; [by eapply assemble_entry_step; [apply Hwf| |]|].
    by eapply replayed_step; [apply Hcan| | | | |].
  - split_and!; [|done|done]. split; cbn; [done|reflexivity|done|lia|lia|done].
Qed.

(** The parts of an assembled block. *)
Lemma assemble_block_Ok s pool ctx config s' pool' exe :
  assemble_block s pool ctx config = Ok (s', pool', exe) ->
  exists a s1,
    foldM (assemble_entry (E := AssembleError.t) config)
      (mkAssembly s pool [] [] [] 0 [] 0 0) (pending_in_order pool) = Ok a /\
    finish_block (E := AssembleError.t) (asm_proposer ctx) (cfg_validator_pool config)
      (cfg_fee_dist config) (asm_height ctx) (as_fees_collected a) (as_block_gas_used a)
      (as_store a) = Ok s1 /\
    s' = epoch_step (cfg_epoch_config config) (asm_height ctx) s1 /\
    len (asm_proposer ctx) = 32 /\ asm_height ctx = sat_add u64_max (st_block_height s) 1 /\
    stored_of exe =
      let root := state_root s' in
      let tx_root := compute_tx_root (as_included a) in
      let block := mkBlock (mkBlockHeader HEADER_VERSION_V1 (asm_height ctx) (asm_prev_hash ctx)
        root tx_root (asm_timestamp ctx) (asm_proposer ctx) empty_extension_root)
        (as_included a) [] in
      mkStoredBlock block
        (mkBlockMetadata (compute_block_hash block) (asm_height ctx) (asm_prev_hash ctx) root
           tx_root (asm_timestamp ctx) (as_bytes_used a) (len (as_included a))
           (len (as_deferred a)) (len (as_skipped a)) (vc_admitted_count pool))
        (as_transactions a).
Proof.
  unfold assemble_block. intros Ha. run_inv. inversion Ha; subst; clear Ha.
  do 2 eexists. split_and!; done.
Qed.

(** The end of a block does not fail, so its error type does not matter. *)
Lemma advance_height_map_err {E F} (f : E -> F) s :
  map_err f (advance_height s) = advance_height s.
Proof. unfold advance_height, add_checked. by case_match. Qed.

Lemma apply_aimd_update_map_err {E F} (f : E -> F) gas s :
  map_err f (apply_aimd_update gas s) = apply_aimd_update gas s.
Proof.
  unfold apply_aimd_update, apply_fee_market_step, fee_market_step, fee_market_dim_step, clamp.
  by repeat (case_match; cbn; try done).
Qed.

Lemma end_of_block_map_err {E F} (f : E -> F) h gas s :
  map_err f (end_of_block h gas s) = end_of_block h gas s.
Proof.
  unfold end_of_block. rewrite <-(apply_aimd_update_map_err f).
  destruct (apply_aimd_update gas s) as [s1| |]; cbn; [|done|done].
  repeat case_match. apply advance_height_map_err.
Qed.

Lemma finish_block_inv {E} proposer addrs dist h fees gas s s1 :
  chain_inv s -> length proposer = 32%nat -> (forall a, a ∈ addrs -> length a = 32%nat) ->
  fees <= u128_max -> finish_block (E := E) proposer addrs dist h fees gas s = Ok s1 -> chain_inv s1.
Proof.
  intros Hinv Hp Hpool Hf Hs.
  destruct (finish_block_step (E := E) proposer addrs dist h fees gas s Hinv Hp Hpool Hf)
    as (s0 & Heq & Hinv0 & _).
  rewrite Heq in Hs. apply advance_height_step in Hs as (Hs & _). by apply Hs.
Qed.

(** What replaying an assembled block gives: the state before the epoch step, if
    its root is the one in the header. *)
Lemma replay_assembled s pool ctx config s' pool' exe :
  chain_inv s -> pool_txs_wf pool -> config_wf config -> pool_canonical pool ->
  assemble_block s pool ctx config = Ok (s', pool', exe) ->
  exists s1, s' = epoch_step (cfg_epoch_config config) (asm_height ctx) s1 /\ chain_inv s1 /\
    replay_block (cfg_fee_params config) (cfg_fee_dist config) (cfg_validator_pool config) s
      (stored_of exe) =
    if bool_decide (state_root s1 = state_root s') then Ok s1
    else Err (ReplayError.StateRootMismatch (asm_height ctx) (state_root s') (state_root s1)).
Proof.
  intros Hinv Hwf Hcfg Hcan (a & s1 & Ha & Hf & Hs' & Hp & _ & ->)%assemble_block_Ok.
  exists s1. split; [done|]. split.
  { destruct (assembly_steps _ _ _ _ _ Hinv (pending_in_order_wf _ Hwf) Ha) as [Hinv1 _ _ Hfees _ _].
    by eapply finish_block_inv; [| | | |exact Hf]; [|unfold len in Hp; lia| |]. }
  unfold replay_block. cbn.
  apply (assembly_replayed config (asm_height ctx)) in Ha;
    [|done|by apply pending_in_order_wf
     |intros e; unfold pending_in_order; rewrite merge_sort_Permutation; apply Hcan].
  unfold replayed in Ha. rewrite Ha. cbn. rewrite Hp. cbn.
  unfold finish_block in Hf. apply (f_equal (map_err (fun _ => ReplayError.HeightGap 0 0))) in Hf.
  rewrite end_of_block_map_err in Hf. rewrite Hf. cbn.
  rewrite (bool_decide_true (compute_tx_root _ = _)) by done. cbn.
  destruct (bool_decide (state_root s1 = _)); cbn; [|done]. by rewrite bool_decide_true.
Qed.

(** ** Chains of produced blocks *)

Definition counted (sb : StoredBlock) : Prop :=
  md_included_count (sb_metadata sb) = len (blk_tx_hashes (sb_block sb)).

Lemma structure_Ok prev n l :
  linked prev n l -> Forall counted l -> n + len l + 2 <= u64_max ->
  verify_stored_blocks_structure (n + 1) prev l = Ok tt.
Proof.
  revert prev n. induction l as [|[b m txs] l IH]; intros prev n Hl Hc Hmax;
    cbn [verify_stored_blocks_structure]; unfold add_checked.
  - unfold len in Hmax. cbn in Hmax. by rewrite (proj2 (N.leb_le _ _)) by lia.
  - unfold len in Hmax. cbn [length] in Hmax. rewrite (proj2 (N.leb_le _ _)) by lia. cbn.
    destruct Hl as ([Hh Hp Hs Ht Hb Hn] & Hh' & Hp' & Hl). apply Forall_cons in Hc as [Hc Hcs].
    unfold counted, sb_header in *. cbn in *. rewrite Hh', Hp', Hh, Hp, Hs, Ht, Hc. unfold len. rewrite Hn.
    unfold sb_hash in Hb. cbn in Hb. rewrite Hb, Hh', Hp', !N.eqb_refl, !bool_decide_true by done.
    cbn. rewrite <-Hb. apply IH; [done|done|unfold len; lia].
Qed.

(** A list that links to the state and whose blocks replay. *)
Lemma replay_linked config s0 prev l s :
  linked prev (st_block_height s0) l -> Forall counted l ->
  st_block_height s0 + len l + 2 <= u64_max ->
  foldM (replay_stored (cfg_fee_params config) (cfg_fee_dist config) (cfg_validator_pool config))
    (s0, prev, state_root s0) l = Ok (s, last_hash prev l, state_root s) ->
  replay_blocks_from_state s0 prev l (cfg_fee_params config) (cfg_fee_dist config)
    (cfg_validator_pool config) =
  Ok (mkReplayResult s (last_hash prev l) (st_block_height s) (state_root s)).
Proof.
  intros Hl Hc Hmax Hf. unfold replay_blocks_from_state, sat_add. rewrite N.min_l by lia.
  rewrite (structure_Ok _ _ _ Hl Hc Hmax). cbn. by rewrite Hf.
Qed.

Lemma chain_consistent c l :
  chain_rep c l -> ch_base_height c = 0 -> Forall counted l -> len l + 2 <= u64_max ->
  verify_chain_consistency c = Ok tt.
Proof.
  intros Hc Hb Hcnt Hmax. unfold verify_chain_consistency. rewrite (rep_blocks_in_order _ _ Hc).
  pose proof (cr_linked _ _ Hc) as Hl. rewrite Hb in Hl.
  pose proof (structure_Ok _ 0 _ Hl Hcnt) as Hst. change (0 + 1) with 1 in Hst. rewrite Hst by lia.
  cbn. rewrite (cr_tip _ _ Hc).
  by rewrite bool_decide_true by (by destruct (last l)).
Qed.

Inductive produced (genesis : StateStore) (anchor : bytes) (config : AssemblyConfig)
    : StateStore -> ChainStore -> Prop :=
  | produced_start : produced genesis anchor config genesis (ChainStore_new anchor)
  | produced_block s c pool ctx s' pool' exe c' m :
      produced genesis anchor config s c -> pool_txs_wf pool -> pool_canonical pool ->
      is_epoch_boundary (asm_height ctx) (epc_epoch_duration (cfg_epoch_config config)) = false ->
      assemble_block s pool ctx config = Ok (s', pool', exe) ->
      append_block c exe = Ok (c', m) -> produced genesis anchor config s' c'.

(** The blocks of a produced chain replay to its state. *)
Definition replays genesis anchor config s c : Prop := exists l,
  chain_rep c l /\ ch_base_height c = 0 /\ ch_anchor_prev_hash c = anchor /\ Forall counted l /\
  chain_inv s /\ st_block_height s = len l /\
  foldM (replay_stored (cfg_fee_params config) (cfg_fee_dist config) (cfg_validator_pool config))
    (genesis, anchor, state_root genesis) l = Ok (s, last_hash anchor l, state_root s).

Lemma stored_of_counted exe c c' m :
  append_block c exe = Ok (c', m) ->
  append_stored_block c (stored_of exe) = Ok (c', m) /\ counted (stored_of exe).
Proof.
  unfold append_block. intros Ha. run_inv. split; [done|]. unfold append_stored_block in Ha. run_inv.
  by destruct (validate_stored_block_Ok _ _ H3) as (_ & ? & _).
Qed.

Lemma produced_replays genesis anchor config s c :
  chain_inv genesis -> st_block_height genesis = 0 -> config_wf config ->
  produced genesis anchor config s c -> replays genesis anchor config s c.
Proof.
  intros Hinv Hh Hcfg Hp. induction Hp as [|s c pool ctx s' pool' exe c' m Hp IH Hwf Hcan Hne Ha Happ].
  { exists []. split_and!; try done; by apply rep_empty. }
  destruct IH as (l & Hc & Hb & Han & Hcnt & Hinv' & Hlen & Hfold).
  destruct (assemble_block_step _ _ _ _ _ _ _ Hinv' Hwf Hcfg Ha) as (Hinv2 & _ & Hh2 & _).
  destruct (replay_assembled _ _ _ _ _ _ _ Hinv' Hwf Hcfg Hcan Ha) as (s1 & Hs' & _ & Hrep).
  unfold epoch_step in Hs'. rewrite Hne in Hs'. subst s1. rewrite bool_decide_true in Hrep by done.
  destruct (stored_of_counted _ _ _ _ Happ) as [Happ' Hcnt'].
  destruct (append_rep _ _ _ _ _ Hc Happ') as (-> & _ & Hc').
  exists (l ++ [stored_of exe]). split_and!; try done.
  - apply Forall_app. by rewrite Forall_singleton.
  - rewrite Hh2, Hlen. unfold len. rewrite length_app. cbn. lia.
  - rewrite foldM_app, Hfold. cbn [mbind outcome_bind foldM]. unfold replay_stored at 1.
    rewrite Hrep. cbn [mbind outcome_bind]. by rewrite last_hash_snoc.
Qed.

(** C6 Recovery is faithful: from the genesis state and the stored blocks alone, a
    node recovers the exact state it had after producing them, with its height, its
    state root and its tip, when no block closed an epoch and every transaction was
    submitted in its canonical encoding. *)
Theorem recovery_reproduces_state genesis anchor config s c :
  chain_inv genesis -> st_block_height genesis = 0 -> config_wf config ->
  produced genesis anchor config s c -> st_block_height s + 2 <= u64_max ->
  recover_tip c genesis (cfg_fee_params config) (cfg_fee_dist config) (cfg_validator_pool config) =
    Ok (mkReplayResult s (expected_prev_hash c) (st_block_height s) (state_root s)) /\
  chain_height c = st_block_height s.
Proof.
  intros Hinv Hh Hcfg Hp Hmax.
  destruct (produced_replays _ _ _ _ _ Hinv Hh Hcfg Hp) as (l & Hc & Hb & Han & Hcnt & _ & Hlen & Hfold).
  split; [|rewrite (rep_height _ _ Hc); lia]. unfold recover_tip.
  rewrite (chain_consistent _ _ Hc Hb Hcnt), (rep_blocks_in_order _ _ Hc) by lia. cbn [mbind outcome_bind].
  pose proof (cr_linked _ _ Hc) as Hl. rewrite Hb in Hl. rewrite (rep_prev_hash _ _ Hc), Han in *.
  apply replay_linked; [by rewrite Hh|done|lia|done].
Qed.

(** ** Blocks that close an epoch *)

Lemma activate_validator_status op s :
  activate_validator op s = s \/
  exists v, get_validator s op = Some v /\ val_status v = ValidatorStatus.Candidate /\
    activate_validator op s = set_validator op (v <| val_status := ValidatorStatus.Active |>) s.
Proof.
  unfold activate_validator. destruct (get_validator s op) as [v|] eqn:Hv; [|by left].
  case_bool_decide; [|by left]. right. exists v. by rewrite commit_put_validator.
Qed.

Lemma activations_keep_active l s op v :
  get_validator s op = Some v -> val_status v = ValidatorStatus.Active ->
  get_validator (foldl (fun s op => activate_validator op s) s l) op = Some v.
Proof.
  revert s. induction l as [|op' l IH]; intros s Hv Ha; [done|]. apply IH; [|done].
  destruct (activate_validator_status op' s) as [->|(v' & Hv' & Hc & ->)]; [done|].
  rewrite get_validator_set_validator_ne; [done|]. intros ->. congruence.
Qed.

Lemma activations_wf l s :
  map_Forall (fun _ v => validator_wf v) (rows (st_validators s)) ->
  map_Forall (fun _ v => validator_wf v)
    (rows (st_validators (foldl (fun s op => activate_validator op s) s l))).
Proof.
  revert s. induction l as [|op l IH]; intros s Hs; [done|]. apply IH.
  destruct (activate_validator_status op s) as [->|(v & Hv & Hc & ->)]; [done|].
  cbn. apply map_Forall_insert_2; [|done].
  destruct (Hs _ _ Hv) as (? & ? & ? & ? & ? & _). by split_and!.
Qed.

Lemma admit_candidates_prefix s limit l total admitted :
  exists rest, admit_candidates s limit l total admitted = admitted ++ rest.
Proof.
  revert total admitted. induction l as [|op l IH]; intros total admitted; cbn.
  - exists []. by rewrite app_nil_r.
  - destruct (get_validator s op); [|apply IH]. case_match; [exists []; by rewrite app_nil_r|].
    edestruct IH as [rest ->]. exists (op :: rest). by rewrite <-app_assoc.
Qed.

(** The first candidate in order is admitted, whatever its bond. *)
Lemma first_candidate_admitted s churn :
  store_ok s -> validator_candidates_ordered s <> [] ->
  exists op rest v, epoch_admissions s churn = op :: rest /\ get_validator s op = Some v /\
    val_status v = ValidatorStatus.Candidate.
Proof.
  intros Hok Hne. unfold epoch_admissions.
  destruct (validator_candidates_ordered s) as [|op l] eqn:Hl; [done|].
  assert (exists v, get_validator s op = Some v /\ val_status v = ValidatorStatus.Candidate)
    as (v & Hv & Hc).
  { assert (op ∈ validator_candidates_ordered s) as Hin by (rewrite Hl; by left).
    unfold validator_candidates_ordered in Hin. rewrite merge_sort_Permutation in Hin.
    apply list_elem_of_fmap in Hin as (v & -> & [Hc [k Hk]%validators_in_order_elem]%list_elem_of_filter).
    exists v. destruct (get_validator_keyed _ _ _ Hok Hk) as [-> _]. done. }
  cbn [admit_candidates]. rewrite Hv, bool_decide_true, andb_false_r by done. cbn [app].
  set (limit := stake_weighted_activation_limit _ _). set (total := sat_add _ _ _).
  destruct (admit_candidates_prefix s limit l total [op]) as [rest ->]. eauto 10.
Qed.

Lemma epoch_changes_validator s churn :
  store_ok s -> validator_candidates_ordered s <> [] ->
  exists op, get_validator (process_epoch_transitions churn s) op <> get_validator s op.
Proof.
  intros Hok Hne. destruct (first_candidate_admitted s churn Hok Hne) as (op & rest & v & Hl & Hv & Hc).
  exists op. unfold process_epoch_transitions. rewrite Hl. cbn [foldl].
  rewrite (activations_keep_active _ _ op (v <| val_status := ValidatorStatus.Active |>)), Hv;
    [intros [= Heq]; by rewrite <-Heq in Hc| |done].
  unfold activate_validator. rewrite Hv, bool_decide_true, commit_put_validator by done.
  apply get_validator_set_validator.
Qed.

(** C35 A block that closes an epoch while a validator waits for admission cannot be
    replayed: assembly admits the validator, replay does not, and the state roots
    differ unless SHAKE-256 collides on the inputs hashed for them. *)
Theorem epoch_block_not_replayable s pool ctx config s' pool' exe :
  chain_inv s -> pool_txs_wf pool -> pool_canonical pool -> config_wf config ->
  is_epoch_boundary (asm_height ctx) (epc_epoch_duration (cfg_epoch_config config)) = true ->
  assemble_block s pool ctx config = Ok (s', pool', exe) ->
  exists s1, s' = process_epoch_transitions (epc_churn (cfg_epoch_config config)) s1 /\
    (validator_candidates_ordered s1 <> [] ->
     map_Forall (fun _ v => validator_wf v) (rows (st_validators s1)) ->
     replay_block (cfg_fee_params config) (cfg_fee_dist config) (cfg_validator_pool config) s
       (stored_of exe) =
       Err (ReplayError.StateRootMismatch (asm_height ctx) (state_root s') (state_root s1)) \/
     collision_in (root_queries s1 ++ root_queries s')).
Proof.
  intros Hinv Hwf Hcan Hcfg Hb Ha.
  destruct (replay_assembled _ _ _ _ _ _ _ Hinv Hwf Hcfg Hcan Ha) as (s1 & Hs' & Hinv1 & Hrep).
  unfold epoch_step in Hs'. rewrite Hb in Hs'. exists s1. split; [done|]. intros Hne Hv.
  destruct (assemble_block_step _ _ _ _ _ _ _ Hinv Hwf Hcfg Ha) as (Hinv' & _).
  case_bool_decide as Hroot; [right|by left].
  destruct (epoch_changes_validator s1 (epc_churn (cfg_epoch_config config))) as [op Hop];
    [apply (ci_store _ Hinv1)|done|]. rewrite <-Hs' in Hop.
  destruct (validators_bound s1 s') as [Heq|?]; try done.
  - apply (ci_store _ Hinv1).
  - apply (ci_store _ Hinv').
  - rewrite Hs'. by apply activations_wf.
  - by destruct (Hop (eq_sym (Heq op))).
Qed.

(** ** Transactions in another encoding *)

Lemma try_admit_alone raw s params pool adm tx :
  decode_tx raw = Ok tx -> try_admit Mempool_new raw s params = Ok (pool, adm) ->
  all_pending pool =
    [mkPendingEntry tx raw (compute_tx_hash raw) (tx_fee tx) (tx_fee_tip tx)].
Proof.
  intros Hd Ha. unfold try_admit in Ha. rewrite Hd in Ha. run_inv. cbn in Ha.
  unfold pending_for_slot in Ha. cbn in Ha. rewrite lookup_empty in Ha. unfold insert_admitted in Ha.
  run_inv. inversion Ha; subst; clear Ha. revert H2. unfold all_pending. case_match; intros Hi;
    unfold increment_vc_count in *; run_inv; cbn; by rewrite insert_empty, map_to_list_singleton.
Qed.

(** A transaction keeps the hash and the length of the bytes it was submitted
    as, while replay hashes the encoding it computes itself: a block that includes a
    transaction submitted in any other accepted encoding cannot be replayed. *)
Lemma noncanonical_tx_not_replayable raw s params pool adm ctx config s' pool' exe tx raw' :
  decode_tx raw = Ok tx -> encode_tx tx = Ok raw' -> compute_tx_hash raw' <> compute_tx_hash raw ->
  try_admit Mempool_new raw s params = Ok (pool, adm) ->
  assemble_block s pool ctx config = Ok (s', pool', exe) -> exe_included exe <> [] ->
  replay_block (cfg_fee_params config) (cfg_fee_dist config) (cfg_validator_pool config) s
    (stored_of exe) =
  Err (ReplayError.TxHashMismatch (asm_height ctx) 0 (compute_tx_hash raw) (compute_tx_hash raw')).
Proof.
  intros Hd Henc Hne Hadm Ha Hin.
  assert (exe_included exe = blk_tx_hashes (sb_block (stored_of exe))) as Hexe.
  { unfold assemble_block in Ha. run_inv. by inversion Ha. }
  destruct (assemble_block_Ok _ _ _ _ _ _ _ Ha) as (a & s1 & Hloop & _ & _ & _ & _ & Hst).
  rewrite Hst in Hexe |- *. cbn in Hexe. rewrite Hexe in Hin. clear Hst Hexe.
  unfold pending_in_order in Hloop. rewrite (try_admit_alone _ _ _ _ _ _ Hd Hadm) in Hloop.
  assert (as_transactions a = [tx] /\ as_included a = [compute_tx_hash raw]) as [Htx Hh].
  { cbn in Hloop. destruct (cfg_max_block_bytes config <? _); [run_inv; by destruct Hin|].
    destruct (apply_tx s tx _) as [[s2 r]|e|]; run_inv; [done|by destruct Hin]. }
  unfold replay_block. cbn [blk_tx_hashes md_height]. rewrite Htx, Hh. cbn [zip zip_with foldM].
  unfold replay_tx at 1. rewrite Henc. cbn [map_err mbind outcome_bind].
  by rewrite (bool_decide_false (compute_tx_hash raw' = compute_tx_hash raw)) by done.
Qed.

(** ** The block store *)

Lemma append_fits c l sb :
  chain_rep c l -> stored_ok sb -> counted sb ->
  bh_height (sb_header sb) = chain_height c + 1 -> chain_height c + 1 <= u64_max ->
  bh_prev_hash (sb_header sb) = expected_prev_hash c -> ch_by_hash c !! sb_hash sb = None ->
  append_stored_block c sb = Ok (push_stored_block sb c, sb_metadata sb).
Proof.
  intros Hc [Hh Hp Hs Ht Hb Hn] Hcnt Hnext Hmax Hprev Hfresh.
  unfold append_stored_block. destruct sb as [b m txs]. unfold counted, sb_header, sb_hash in *.
  cbn [sb_block sb_metadata sb_included_transactions] in *.
  unfold validate_stored_block, validate_position.
  rewrite Hh, Hp, Hs, Ht, Hcnt, <-Hb, Hfresh, Hnext, Hprev. unfold len. rewrite Hn.
  rewrite !N.eqb_refl, !(bool_decide_true (_ = _)) by done.
  assert (ch_by_height c !! (chain_height c + 1) = None) as ->.
  { rewrite (cr_by_height _ _ Hc), (rep_height _ _ Hc). unfold len. case_decide; [|done].
    by rewrite lookup_ge_None_2 by lia. }
  rewrite !bool_decide_false by (by intros []). unfold sat_add. rewrite N.min_l by done.
  by rewrite N.eqb_refl.
Qed.

(** The block store implements a list of blocks, each linked to the one before:
    listing yields the list, appending extends it exactly when the block fits,
    replacing the tip swaps the last block and does not panic, and a compaction
    below the tip drops a prefix. *)
Lemma chain_store_refines_list c l :
  chain_rep c l ->
  blocks_in_order c = l /\ chain_height c = ch_base_height c + len l /\
  (forall sb, stored_ok sb -> counted sb ->
     bh_height (sb_header sb) = chain_height c + 1 -> chain_height c + 1 <= u64_max ->
     bh_prev_hash (sb_header sb) = expected_prev_hash c -> ch_by_hash c !! sb_hash sb = None ->
     exists c', append_stored_block c sb = Ok (c', sb_metadata sb)) /\
  (forall sb c' m, append_stored_block c sb = Ok (c', m) -> chain_rep c' (l ++ [sb])) /\
  (forall sb, replace_tip_block c sb <> Panic) /\
  (forall l0 tip sb c' old, l = l0 ++ [tip] -> ch_by_hash c !! sb_hash sb = None ->
     replace_tip_block c sb = Ok (c', old) -> old = tip /\ chain_rep c' (l0 ++ [sb])) /\
  (forall l1 l2, l = l1 ++ l2 -> l2 <> [] ->
     chain_rep (compact_to_checkpoint (ch_base_height c + len l1)
                  (last_hash (ch_anchor_prev_hash c) l1) c) l2).
Proof.
  intros Hc. split_and!.
  - by apply rep_blocks_in_order.
  - by apply rep_height.
  - intros. eexists. by eapply append_fits.
  - intros sb c' m Ha. by destruct (append_rep _ _ _ _ _ Hc Ha) as (_ & _ & ?).
  - intros sb. by eapply replace_no_panic.
  - intros l0 tip sb c' old ->. by apply replace_rep.
  - intros l1 l2 ->. by apply compact_rep.
Qed.

Lemma compacted_all c l h :
  chain_rep c l -> ch_base_height c + len l <= h ->
  forall hash, ch_by_hash (compact_to_checkpoint h hash c) = ∅.
Proof.
  intros Hc Hh hash. apply map_empty. intros k. apply eq_None_not_Some. intros [sb Hsb].
  apply map_lookup_filter_Some in Hsb as [Hin Hgone]. cbn in *. apply Hgone. clear Hgone.
  apply (cr_by_hash _ _ Hc) in Hin as [[i Hi]%list_elem_of_lookup_1 <-].
  apply list_elem_of_fmap. exists (ch_base_height c + N.of_nat i + 1, sb_hash sb). split; [done|].
  pose proof (lookup_lt_Some _ _ _ Hi). unfold len in Hh.
  apply elem_of_map_to_list, map_lookup_filter_Some. cbn. split; [|lia].
  rewrite (cr_by_height _ _ Hc), decide_True by lia. replace (N.to_nat _) with i by lia. by rewrite Hi.
Qed.

Lemma compacted_at_tip c l tip :
  chain_rep c (l ++ [tip]) ->
  compact_to_checkpoint (chain_height c) (sb_hash tip) c =
  mkChainStore (sb_hash tip) ∅ ∅ (Some (sb_hash tip)) (chain_height c).
Proof.
  intros Hc. pose proof (rep_height _ _ Hc) as Hh.
  pose proof (compacted_all c _ (chain_height c) Hc ltac:(lia) (sb_hash tip)) as He.
  unfold compact_to_checkpoint in *. cbn in He. rewrite He, (cr_tip _ _ Hc), last_snoc. cbn. f_equal.
  apply map_empty. intros n. apply map_lookup_filter_None. right. intros hash Hn Hgt. cbn in Hgt.
  rewrite (cr_by_height _ _ Hc) in Hn. case_decide; [|done].
  apply fmap_Some in Hn as (sb & Hsb%lookup_lt_Some & _). unfold len in Hh. lia.
Qed.

(** A compaction at the tip, which is where checkpoints are taken, evicts the tip
    and keeps its hash: any later attempt to replace the tip panics, and once the
    next block is appended the consistency check rejects the chain, because it
    expects the first stored block at height 1. *)
Lemma compaction_at_tip c l tip :
  chain_rep c (l ++ [tip]) -> chain_height c < u64_max ->
  let c' := compact_to_checkpoint (chain_height c) (sb_hash tip) c in
  chain_tip c' = None /\ chain_height c' = chain_height c /\
  (forall sb, replace_tip_block c' sb = Panic) /\
  (forall sb c'' m, append_stored_block c' sb = Ok (c'', m) ->
     verify_chain_consistency c'' = Err (ReplayError.HeightGap 1 (chain_height c + 1))).
Proof.
  intros Hc Hmax. cbv zeta. rewrite (compacted_at_tip _ _ _ Hc). split_and!; [done|done|done|].
  intros sb c'' m Ha.
  change (append_stored_block (ChainStore_new_with_base (sb_hash tip) (chain_height c)) sb
          = Ok (c'', m)) in Ha.
  destruct (append_rep _ _ _ _ _ (rep_empty (sb_hash tip) _ Hmax) Ha) as (-> & _ & Hr).
  unfold verify_chain_consistency. rewrite (rep_blocks_in_order _ _ Hr).
  destruct (cr_linked _ _ Hr) as (_ & Hh & _). destruct sb as [b md txs]. unfold sb_header in Hh.
  cbn [sb_block ch_base_height push_stored_block ChainStore_new_with_base] in Hh.
  cbn [app verify_stored_blocks_structure mbind outcome_bind add_checked]. unfold check_structure.
  pose proof (rep_height _ _ Hc) as Hch. unfold len in Hch. rewrite length_app in Hch.
  rewrite Hh. replace (chain_height c + 1 =? 1) with false; [done|].
  symmetry. apply N.eqb_neq. cbn in Hch. lia.
Qed.
End recovery_props.

(** ** Witnesses *)

#[local] Existing Instance example_shake.
#[local] Existing Instance example_verifier.

Module RecoveryEx.
Definition anchor : bytes := replicate 32 x00.

Section produced_block.
#[local] Existing Instance Ex.cbor.

Lemma pool_canonical_ok : pool_canonical Ex.pool.
Proof.
  intros e He. unfold all_pending in He.
  assert ((map_to_list (by_hash Ex.pool)).*2 =
    [mkPendingEntry Ex.transfer Ex.transfer_raw (compute_tx_hash Ex.transfer_raw) 1000 5]) as Hp
    by (by vm_compute).
  rewrite Hp in He. apply list_elem_of_singleton in He as ->. split; by vm_compute.
Qed.

Lemma first_block : exists s' pool' exe c' m,
  Ex.block_run = Ok (s', pool', exe) /\ append_block (ChainStore_new anchor) exe = Ok (c', m) /\
  st_block_height s' = 1.
Proof.
  assert (match Ex.block_run with
          | Ok (s', _, exe) => match append_block (ChainStore_new anchor) exe with
                               | Ok _ => st_block_height s' = 1 | _ => False end
          | _ => False
          end) as Hrun by (vm_compute; done).
  destruct Ex.block_run as [[[s' pool'] exe]| |]; [|done|done].
  destruct (append_block _ exe) as [[c' m]| |] eqn:Happ; [|done|done].
  exists s', pool', exe, c', m. by split_and!.
Qed.

Lemma first_chain : exists c sb, chain_rep c [sb] /\ chain_height c = 1.
Proof.
  destruct first_block as (s' & pool' & exe & c' & m & _ & Happ & _).
  apply stored_of_counted in Happ as [Happ _].
  destruct (append_rep _ [] _ _ _ (rep_empty anchor 0 eq_refl) Happ) as (_ & _ & Hr).
  exists c', (stored_of exe). split; [exact Hr|]. rewrite (rep_height _ _ Hr).
  unfold append_stored_block in Happ. run_inv. by inversion Happ.
Qed.

(** The devnet configuration with an epoch after every block. *)
Definition epoch_config : AssemblyConfig :=
  mkAssemblyConfig u64_max Ex.fee_params [] FeeDistributionParams_default
    (mkEpochConfig 1 120 viper_pq_1).

Lemma epoch_config_ok : config_wf epoch_config.
Proof. intros a Ha. cbn in Ha. by apply elem_of_nil in Ha. Qed.

(** Carol is admitted in the block, and its replay is rejected. *)
Lemma epoch_block : exists s' pool' exe,
  assemble_block Ex.genesis Ex.pool Ex.ctx epoch_config = Ok (s', pool', exe) /\
  match replay_block Ex.fee_params FeeDistributionParams_default [] Ex.genesis (stored_of exe) with
  | Err (ReplayError.StateRootMismatch 1 _ _) => True
  | _ => False
  end.
Proof.
  assert (match assemble_block Ex.genesis Ex.pool Ex.ctx epoch_config with
          | Ok (s', _, exe) =>
              match replay_block Ex.fee_params FeeDistributionParams_default [] Ex.genesis
                      (stored_of exe) with
              | Err (ReplayError.StateRootMismatch 1 _ _) => True | _ => False end
          | _ => False
          end) as Hrun by (vm_compute; done).
  destruct (assemble_block _ _ _ _) as [[[s' pool'] exe]| |]; [|done|done].
  exists s', pool', exe. by split.
Qed.
End produced_block.

(** A codec under which the transfer of [Ex] was submitted with its keys in the
    opposite order. *)
Definition reordered : Value.t := Value.Map (rev (tx_pairs Ex.transfer Ex.transfer_envelope)).
Definition reordered_cbor : Ciborium := {|
  from_reader := fun b =>
    if bool_decide (b = [x01]) then Some Ex.transfer_payload
    else if bool_decide (b = [x02]) then Some reordered else None;
  into_writer := fun v =>
    match v with
    | Value.Map ((Value.Integer 12, _) :: _) => [x02]
    | _ => [x00]
    end
|}.

Lemma reordered_block :
  let cbor := reordered_cbor in
  decode_tx [x02] = Ok Ex.transfer /\ encode_tx Ex.transfer = Ok [x00] /\
  exists pool adm s' pool' exe,
    try_admit Mempool_new [x02] Ex.genesis Ex.fee_params = Ok (pool, adm) /\
    assemble_block Ex.genesis pool Ex.ctx Ex.config = Ok (s', pool', exe) /\ exe_included exe <> [].
Proof.
  intros cbor. split_and!; [by vm_compute..|].
  assert (match try_admit Mempool_new [x02] Ex.genesis Ex.fee_params with
          | Ok (pool, _) => match assemble_block Ex.genesis pool Ex.ctx Ex.config with
                            | Ok (_, _, exe) => bool_decide (exe_included exe <> []) = true
                            | _ => False end
          | _ => False
          end) as Hrun by (vm_compute; done).
  destruct (try_admit _ _ _ _) as [[pool adm]| |]; [|done|done].
  destruct (assemble_block _ _ _ _) as [[[s' pool'] exe]| |] eqn:Ha; [|done|done].
  apply bool_decide_eq_true in Hrun. exists pool, adm, s', pool', exe. by split_and!.
Qed.
End RecoveryEx.

Section recovery_witnesses.
#[local] Existing Instance Ex.cbor.

Lemma chain_store_refines_list_witness : exists c sb,
  blocks_in_order c = [sb] /\ (forall sb', replace_tip_block c sb' <> Panic).
Proof.
  destruct RecoveryEx.first_chain as (c & sb & Hr & _). exists c, sb.
  pose proof (chain_store_refines_list c [sb] Hr) as (Hb & _ & _ & _ & Hnp & _).
  split; [exact Hb|exact Hnp].
Defined.

Lemma compaction_at_tip_witness : exists c sb,
  let c' := compact_to_checkpoint (chain_height c) (sb_hash sb) c in
  chain_tip c' = None /\ chain_height c' = chain_height c /\
  (forall sb', replace_tip_block c' sb' = Panic) /\
  (forall sb' c'' m, append_stored_block c' sb' = Ok (c'', m) ->
     verify_chain_consistency c'' = Err (ReplayError.HeightGap 1 (chain_height c + 1))).
Proof.
  destruct RecoveryEx.first_chain as (c & sb & Hr & Hh). exists c, sb.
  refine (compaction_at_tip c [] sb Hr _). rewrite Hh. reflexivity.
Defined.

Lemma recovery_reproduces_state_witness : exists s c,
  produced Ex.genesis RecoveryEx.anchor Ex.config s c /\ st_block_height s = 1 /\
  recover_tip c Ex.genesis (cfg_fee_params Ex.config) (cfg_fee_dist Ex.config)
    (cfg_validator_pool Ex.config) =
    Ok (mkReplayResult s (expected_prev_hash c) (st_block_height s) (state_root s)) /\
  chain_height c = st_block_height s.
Proof.
  destruct RecoveryEx.first_block as (s' & pool' & exe & c' & m & Hrun & Happ & Hh).
  assert (produced Ex.genesis RecoveryEx.anchor Ex.config s' c') as Hp.
  { unfold Ex.block_run in Hrun.
    refine (produced_block _ _ _ Ex.genesis (ChainStore_new RecoveryEx.anchor) Ex.pool Ex.ctx s' pool'
      exe c' m (produced_start _ _ _) Ex.pool_wf RecoveryEx.pool_canonical_ok _ Hrun Happ).
    vm_compute. reflexivity. }
  exists s', c'. split; [exact Hp|]. split; [exact Hh|].
  apply (recovery_reproduces_state Ex.genesis RecoveryEx.anchor Ex.config s' c').
  - apply Ex.genesis_inv.
  - reflexivity.
  - apply Ex.config_ok.
  - exact Hp.
  - rewrite Hh. lia.
Defined.

Lemma epoch_block_not_replayable_witness : exists s' pool' exe,
  assemble_block Ex.genesis Ex.pool Ex.ctx RecoveryEx.epoch_config = Ok (s', pool', exe) /\
  match replay_block Ex.fee_params FeeDistributionParams_default [] Ex.genesis (stored_of exe) with
  | Err (ReplayError.StateRootMismatch 1 _ _) => True
  | _ => False
  end /\
  exists s1, s' = process_epoch_transitions viper_pq_1 s1 /\
    (validator_candidates_ordered s1 <> [] ->
     map_Forall (fun _ v => validator_wf v) (rows (st_validators s1)) ->
     replay_block Ex.fee_params FeeDistributionParams_default [] Ex.genesis (stored_of exe) =
       Err (ReplayError.StateRootMismatch 1 (state_root s') (state_root s1)) \/
     collision_in (root_queries s1 ++ root_queries s')).
Proof.
  destruct RecoveryEx.epoch_block as (s' & pool' & exe & Hrun & Hrej).
  exists s', pool', exe. split; [exact Hrun|]. split; [exact Hrej|].
  refine (epoch_block_not_replayable Ex.genesis Ex.pool Ex.ctx RecoveryEx.epoch_config s' pool' exe
    Ex.genesis_inv Ex.pool_wf RecoveryEx.pool_canonical_ok RecoveryEx.epoch_config_ok _ Hrun).
  reflexivity.
Defined.
End recovery_witnesses.

Lemma noncanonical_tx_not_replayable_witness :
  let cbor := RecoveryEx.reordered_cbor in
  exists exe,
  replay_block Ex.fee_params FeeDistributionParams_default [] Ex.genesis (stored_of exe) =
  Err (ReplayError.TxHashMismatch 1 0 (compute_tx_hash [x02]) (compute_tx_hash [x00])).
Proof.
  intros cbor.
  destruct RecoveryEx.reordered_block as (Hd & He & pool & adm & s' & pool' & exe & Hadm & Ha & Hin).
  exists exe.
  refine (noncanonical_tx_not_replayable [x02] Ex.genesis Ex.fee_params pool adm Ex.ctx Ex.config
    s' pool' exe Ex.transfer [x00] Hd He _ Hadm Ha Hin).
  vm_compute. discriminate.
Defined.
