(* ===== verification/ArchivalProps.v ===== *)
(** * What the archival overlay guarantees.

    The strict codec of archival records, the threshold of verified signatures
    behind a stored record, and two shapes of record the operations can store that
    the overlay was not meant to have. *)

From S2P Require Import Prelude Crypto Types Cbor Payloads Tx FeeMarket Leaves Store StoreInv.
From S2P Require Import ApplyAccounts ApplyValidators Governance Archival ApplyTx TxSpec TxRefine.
From S2P Require Import Invariants.

(** ** The codec *)

Lemma decode_items_fmap {A} (f : Value.t -> aresult A) (g : A -> Value.t) l :
  (forall x, x ∈ l -> f (g x) = Ok x) -> decode_items f (g <$> l) = Ok l.
Proof.
  intros Hf. unfold decode_items.
  assert (forall acc, foldM (fun out item => x ← f item; Ok (out ++ [x])) acc (g <$> l) =
    Ok (acc ++ l)) as Hgo; [|apply (Hgo [])].
  induction l as [|x l IH]; intros acc; cbn; [by rewrite app_nil_r|].
  rewrite Hf by left. cbn. rewrite IH by (intros; apply Hf; by right). by rewrite <-app_assoc.
Qed.

Lemma decode_items_Forall {A} (f : Value.t -> aresult A) (P : A -> Prop) l r :
  (forall v x, f v = Ok x -> P x) -> decode_items f l = Ok r -> Forall P r.
Proof.
  intros Hf. apply (foldM_invariant _ (Forall P)); [|constructor].
  intros out v out' _ Hout Hs. run_inv. apply Forall_app. eauto.
Qed.

Lemma strict_fields_invariant {A} field (I : A -> Prop) init v r :
  (forall acc key v acc', I acc -> field acc key v = Ok acc' -> I acc') ->
  I init -> strict_fields field init v = Ok r -> I r.
Proof.
  intros Hf Hi Hs. unfold strict_fields in Hs. run_inv.
  eapply (foldM_invariant _ (fun st => I st.1)) in H0; [done| |done].
  intros [acc seen] kv [acc' seen'] _ Hacc Hstep. cbn in *. run_inv. simplify_eq. cbn in *. eauto.
Qed.

Definition tsa_wf (t : TsaRef) : Prop := len (tsa_cert_fingerprint_sha256 t) = 32.

Definition anchor_wf (a : TimestampAnchor) : Prop :=
  opt_wf tsa_wf (anc_tsa_ref a) /\ len (anc_external_hash a) <= TIMESTAMP_ANCHOR_EXTERNAL_HASH_MAX_LEN /\
  anc_posted_at_height a <= u64_max /\ tsa_ref_consistent (anc_kind a) (anc_tsa_ref a) = true.

Definition record_wf (r : ArchivalRecord) : Prop :=
  ar_epoch_number r <= u64_max /\ len (ar_epoch_root r) = 32 /\
  Forall (fun a => len a = 32) (ar_signer_addresses r) /\
  Forall anchor_wf (ar_timestamp_anchors r) /\ ar_evidence_record_version r <= u16_max /\
  len (ar_signer_addresses r) = len (ar_slh_signatures r) /\
  strictly_ascending (ar_signer_addresses r) = true.

Lemma cbor_uint_Ok max v n : cbor_uint max v = Ok n -> n <= max.
Proof. destruct v; cbn; try done. intros Hz. run_inv. apply try_from_Z_Some in Hz. lia. Qed.

Lemma cbor_uint_of_N max n : n <= max -> cbor_uint max (Value_uint n) = Ok n.
Proof. intros. cbn. by rewrite try_from_Z_of_N. Qed.

Lemma cbor_bytes_fixed_Ok v n k b : cbor_bytes_fixed v n k = Ok b -> len b = n.
Proof. unfold cbor_bytes_fixed. intros Hb. run_inv. done. Qed.

Lemma cbor_bytes_fixed_Bytes b n k : len b = n -> cbor_bytes_fixed (Value.Bytes b) n k = Ok b.
Proof. intros <-. cbn. by rewrite N.eqb_refl. Qed.

(** Case analysis on the key of a field. *)
Ltac field_cases :=
  repeat match goal with
  | H : context [match ?k with _ => _ end] |- _ => is_var k; destruct k; try done
  end; run_inv; simplify_eq;
  repeat match goal with
  | H : cbor_uint _ _ = Ok _ |- _ => apply cbor_uint_Ok in H
  | H : cbor_bytes_fixed _ _ _ = Ok _ |- _ => apply cbor_bytes_fixed_Ok in H
  end.

Lemma tsa_ref_decode_wf v t : tsa_ref_from_cbor_value v = Ok t -> tsa_wf t.
Proof.
  unfold tsa_ref_from_cbor_value. intros Hd. run_inv. destruct x as [[u c] p].
  eapply (strict_fields_invariant _ (fun '(u, c, p) => opt_wf (fun x => len x = 32) c)) in H;
    [run_inv; unfold tsa_wf; cbn; auto| |auto with viper].
  intros [[u1 c1] p1] key w [[u2 c2] p2] Hc Hs. field_cases; auto with viper.
Qed.

Lemma anchor_decode_wf v a : timestamp_anchor_from_cbor_value v = Ok a -> anchor_wf a.
Proof.
  unfold timestamp_anchor_from_cbor_value. intros Hd. run_inv. destruct x as [[[k t] e] p].
  eapply (strict_fields_invariant _ (fun '(k, t, e, p) => opt_wf tsa_wf t /\
    opt_wf (fun x => len x <= TIMESTAMP_ANCHOR_EXTERNAL_HASH_MAX_LEN) e /\
    opt_wf (fun x => x <= u64_max) p)) in H;
    [destruct H as (? & ? & ?); run_inv; unfold anchor_wf; cbn; auto| |auto with viper].
  intros [[[k1 t1] e1] p1] key w [[[k2 t2] e2] p2] (? & ? & ?) Hs.
  field_cases; split_and!; auto with viper; eauto using tsa_ref_decode_wf with viper.
Qed.

Lemma record_decode_wf v r : archival_record_from_value v = Ok r -> record_wf r.
Proof.
  unfold archival_record_from_value. intros Hd. run_inv. destruct x as [[[[[n rt] a] s] t] w].
  eapply (strict_fields_invariant _ (fun '(n, rt, a, s, t, w) =>
    opt_wf (fun x => x <= u64_max) n /\ opt_wf (fun x => len x = 32) rt /\
    opt_wf (Forall (fun x => len x = 32)) a /\ opt_wf (Forall anchor_wf) t /\
    opt_wf (fun x => x <= u16_max) w)) in H;
    [destruct H as (? & ? & ? & ? & ?); run_inv; unfold record_wf; cbn; split_and!; auto| |].
  - intros [[[[[n1 r1] a1] s1] t1] w1] key v1 [[[[[n2 r2] a2] s2] t2] w2] (?&?&?&?&?) Hs.
    field_cases; split_and!; auto with viper; apply opt_wf_Some.
    + eapply decode_items_Forall; [|done]. apply anchor_decode_wf.
    + eapply decode_items_Forall; [|done]. intros ??. apply cbor_bytes_fixed_Ok.
  - split_and!; auto with viper.
Qed.

(** One entry of a strict map whose key was not seen. *)
Lemma strict_fields_cons {A} field (acc : A) seen k v rest :
  bool_decide (Z.of_N k ∈ seen) = false ->
  foldM (strict_field field) (acc, seen) ((Value_uint k, v) :: rest) =
  (acc ← field acc (Z.of_N k) v; foldM (strict_field field) (acc, Z.of_N k :: seen) rest).
Proof.
  intros Hk. cbn -[bool_decide]. rewrite Hk. cbn. by destruct (field acc (Z.of_N k) v).
Qed.

Lemma strict_fields_nil {A} field (st : A * list Z) : foldM (strict_field field) st [] = Ok st.
Proof. done. Qed.

Ltac strict_cbn :=
  cbn -[foldM strict_field cbor_uint cbor_bytes_fixed Value_uint tsa_ref_from_cbor_value
        tsa_ref_to_cbor_value tsa_ref_consistent TIMESTAMP_ANCHOR_EXTERNAL_HASH_MAX_LEN N.leb
        decode_items timestamp_anchor_from_cbor_value timestamp_anchor_to_cbor_value len
        strictly_ascending N.eqb].
Ltac strict_entry :=
  strict_cbn; rewrite strict_fields_cons by done; strict_cbn;
  rewrite ?cbor_uint_of_N, ?cbor_bytes_fixed_Bytes by (done || lia); strict_cbn.

Lemma tsa_ref_roundtrip t : tsa_wf t -> tsa_ref_from_cbor_value (tsa_ref_to_cbor_value t) = Ok t.
Proof.
  intros Hw. destruct t as [u c p]. unfold tsa_wf in Hw. cbn in Hw.
  unfold tsa_ref_from_cbor_value, tsa_ref_to_cbor_value, strict_fields.
  destruct p as [oid|]; [do 3 strict_entry|do 2 strict_entry]; done.
Qed.

Lemma anchor_kind_roundtrip k : AnchorKind.from_u8 (AnchorKind.as_u8 k) = Some k.
Proof. by destruct k. Qed.

Lemma anchor_kind_le k : AnchorKind.as_u8 k <= u8_max.
Proof. by destruct k. Qed.

Lemma anchor_roundtrip a :
  anchor_wf a -> timestamp_anchor_from_cbor_value (timestamp_anchor_to_cbor_value a) = Ok a.
Proof.
  intros (Ht & He & Hp & Hc). destruct a as [k t e p]. cbn in Ht, He, Hp, Hc.
  pose proof (anchor_kind_le k).
  unfold timestamp_anchor_from_cbor_value, timestamp_anchor_to_cbor_value, strict_fields.
  destruct t as [t|]; strict_entry; rewrite anchor_kind_roundtrip; [strict_entry|];
    rewrite ?tsa_ref_roundtrip by auto; strict_entry; rewrite (proj2 (N.leb_le _ _)) by done;
    strict_entry; rewrite strict_fields_nil; strict_cbn; by rewrite Hc.
Qed.

Lemma record_roundtrip r :
  record_wf r -> archival_record_from_value (archival_record_value r) = Ok r.
Proof.
  intros (Hn & Hr & Ha & Ht & Hw & Hl & Hs). destruct r as [n rt a s t w].
  cbn in Hn, Hr, Ha, Ht, Hw, Hl, Hs.
  unfold archival_record_from_value, archival_record_value, strict_fields.
  do 2 strict_entry. strict_entry.
  rewrite (decode_items_fmap _ Value.Bytes a); strict_cbn.
  2: { intros x Hx. apply cbor_bytes_fixed_Bytes. by eapply Forall_forall in Ha. }
  strict_entry. rewrite (decode_items_fmap _ Value.Bytes s) by done. strict_entry.
  rewrite decode_items_fmap by (intros x Hx; eapply Forall_forall in Ht; [by apply anchor_roundtrip|done]).
  strict_entry. rewrite strict_fields_nil. strict_cbn. rewrite Hl, N.eqb_refl. strict_cbn. by rewrite Hs.
Qed.

Section properties.
Context `{Ciborium}.

(** The strict codec of archival records is exact: an encoded record decodes to
    itself if and only if it is well formed (32-byte signers in strictly ascending
    order, one signature each, every anchor within its bounds and carrying a
    timestamp authority exactly when it is an RFC 3161 anchor). *)
Lemma archival_record_codec r :
  cbor_roundtrips (archival_record_value r) ->
  decode_archival_record (encode_archival_record r) = Ok r <-> record_wf r.
Proof.
  unfold cbor_roundtrips, decode_archival_record, encode_archival_record, from_bytes.
  intros ->. cbn [ok_or mbind outcome_bind]. split; [apply record_decode_wf|apply record_roundtrip].
Qed.

Context `{Shake, Verifier}.

(** A stored archival record is backed by a threshold of signatures: its signers
    are distinct, at least as many as the threshold, each authorised and each with
    a signature of the epoch root that verifies under the archival key on record.
    The record is the first of its epoch, which is not in the future, and decodes
    from its own encoding. *)
Lemma archival_submission_sound s tx h s' :
  apply_archival_record_submit s tx h = Ok s' -> exists r,
    s' = insert_archival_record r s /\ get_archival_record s (ar_epoch_number r) = None /\
    ar_epoch_number r <= current_epoch_number h /\
    NoDup (ar_signer_addresses r) /\ (archival_threshold s).1 <= len (ar_signer_addresses r) /\
    archival_signed s r /\
    (cbor_roundtrips (archival_record_value r) ->
     decode_archival_record (encode_archival_record r) = Ok r).
Proof.
  intros (r & -> & Hn & He & Hu & Hr & Ha & Hs & Hl & Ht & Hsig & Hanc & Hv)%apply_archival_record_submit_Ok.
  exists r. split_and!; try done; [by apply strictly_ascending_NoDup|].
  unfold cbor_roundtrips, decode_archival_record, encode_archival_record, from_bytes.
  intros ->. apply record_roundtrip. unfold record_wf. rewrite Hanc, Hv. unfold len in *.
  split_and!; [done..|constructor|done|by rewrite Hl|done].
Qed.

(** Before any validator has an archival key the threshold is zero: a submission
    without a single signature is accepted as the record of its epoch, and as the
    first record of an epoch it is never replaced. *)
Lemma archival_submission_without_signers s tx h p :
  archival_threshold s = (0, 0) ->
  decode_archival_record_submit_payload (tx_payload tx) = Ok p -> ars_slh_sig_set p = [] ->
  ars_epoch_number p <= current_epoch_number h ->
  get_archival_record s (ars_epoch_number p) = None ->
  apply_archival_record_submit s tx h =
    Ok (insert_archival_record
          (mkArchivalRecord (ars_epoch_number p) (ars_epoch_root p) [] [] [] 0) s) /\
  forall tx2 h2 s2 p2,
    decode_archival_record_submit_payload (tx_payload tx2) = Ok p2 ->
    ars_epoch_number p2 = ars_epoch_number p -> ars_epoch_number p2 <= current_epoch_number h2 ->
    is_Some (get_archival_record s2 (ars_epoch_number p)) ->
    apply_archival_record_submit s2 tx2 h2 = Err ApplyError.DuplicateArchivalRecord.
Proof.
  intros Ht Hd Hsig He Hn. split.
  - unfold apply_archival_record_submit. rewrite Hd. cbn. rewrite (proj2 (N.leb_le _ _) He). cbn.
    rewrite Hn. cbn. by rewrite Ht, Hsig.
  - intros tx2 h2 s2 p2 Hd2 Hep He2 Hsome. unfold apply_archival_record_submit. rewrite Hd2. cbn.
    rewrite (proj2 (N.leb_le _ _) He2). cbn. rewrite Hep, bool_decide_true by done. done.
Qed.

(** A renewal leaves a record that its own codec rejects: it appends an RFC 3161
    anchor without a timestamp authority, which the strict decoder refuses. *)
Lemma renewed_record_does_not_decode s tx h s' epoch hash :
  decode_archival_record_renew_payload (tx_payload tx) = Ok (epoch, hash) ->
  apply_archival_record_renew s tx h = Ok s' -> exists r',
    get_archival_record s' epoch = Some r' /\
    (cbor_roundtrips (archival_record_value r') ->
     decode_archival_record (encode_archival_record r') <> Ok r').
Proof.
  intros Hd Ha. unfold apply_archival_record_renew in Ha. rewrite Hd in Ha. clear Hd.
  do 2 run_inv.
  destruct select (is_Some (get_archival_record s epoch)) as [r Hr].
  unfold increment_archival_record_version. rewrite Hr. eexists. split.
  { unfold get_archival_record, set; cbn. apply lookup_insert_eq. }
  unfold cbor_roundtrips, decode_archival_record, encode_archival_record, from_bytes.
  intros ->. cbn [ok_or mbind outcome_bind]. intros (_ & _ & _ & Hw & _)%record_decode_wf.
  cbn in Hw. apply Forall_app in Hw as [_ Hw]. apply Forall_inv in Hw as (_ & _ & _ & Hc). done.
Qed.
End properties.

(** ** Witnesses *)

#[local] Existing Instance example_shake.
#[local] Existing Instance example_verifier.

(** The overlay before any archival key is registered, and one with a record. *)
Definition submit_value (sigs : list (Address * bytes)) : Value.t :=
  submit_payload_value (mkArchivalRecordSubmitPayload 0 0 59 (replicate 32 x05) sigs).
Definition renew_value : Value.t :=
  Value.Map [ (Value_uint 1, Value_uint 0); (Value_uint 2, Value.Bytes (replicate 32 x09)) ].
Definition archival_tx (payload : bytes) (m : MsgType.t) : Transaction :=
  mkTransaction 1 [] m (replicate 32 x0a) 0 0 0 0 payload AlgId.MlDsa65 1 [].

Definition signer : Address := replicate 32 x0a.
Definition signer_preimage : bytes :=
  archival_sig_preimage viper_research_1 0 (replicate 32 x05).

(** One active validator with an archival key. *)
Definition one_signer : StateStore :=
  insert_archival_key (mkValidatorArchivalKey signer 0x0022 (replicate 64 x01) 0)
    (insert_validator
       (mkValidatorRecord signer [] AlgId.MlDsa65 [] 10 ValidatorStatus.Active 0 false)
       StateStore_new).
Definition one_record : StateStore :=
  insert_archival_record (mkArchivalRecord 0 (replicate 32 x05) [signer] [signer_preimage] [] 0)
    one_signer.

Lemma archival_record_codec_witness :
  let r := mkArchivalRecord 0 (replicate 32 x05) [signer] [[x01]] [] 0 in
  let cbor := example_cbor (archival_record_value r) in
  decode_archival_record (encode_archival_record r) = Ok r <-> record_wf r.
Proof. intros r cbor. apply (archival_record_codec r). reflexivity. Defined.

Lemma archival_submission_sound_witness :
  let cbor := example_cbor (submit_value [(signer, signer_preimage)]) in
  let tx := archival_tx [x00] MsgType.ArchivalRecordSubmit in
  exists s', apply_archival_record_submit one_signer tx 0 = Ok s' /\ exists r,
    s' = insert_archival_record r one_signer /\
    get_archival_record one_signer (ar_epoch_number r) = None /\
    ar_epoch_number r <= current_epoch_number 0 /\
    NoDup (ar_signer_addresses r) /\
    (archival_threshold one_signer).1 <= len (ar_signer_addresses r) /\
    archival_signed one_signer r /\
    (cbor_roundtrips (archival_record_value r) ->
     decode_archival_record (encode_archival_record r) = Ok r).
Proof.
  intros cbor tx.
  assert (match apply_archival_record_submit one_signer tx 0 with Ok _ => true | _ => false end
          = true) as Hok by by vm_compute.
  destruct (apply_archival_record_submit one_signer tx 0) as [s'| |] eqn:Ha;
    [|discriminate Hok|discriminate Hok].
  exists s'. split; [reflexivity|]. apply (archival_submission_sound one_signer tx 0). exact Ha.
Defined.

Lemma archival_submission_without_signers_witness :
  let cbor := example_cbor (submit_value []) in
  let tx := archival_tx [x00] MsgType.ArchivalRecordSubmit in
  let r := mkArchivalRecord 0 (replicate 32 x05) [] [] [] 0 in
  apply_archival_record_submit StateStore_new tx 0 = Ok (insert_archival_record r StateStore_new) /\
  forall tx2 h2 s2 p2,
    decode_archival_record_submit_payload (tx_payload tx2) = Ok p2 ->
    ars_epoch_number p2 = 0 -> ars_epoch_number p2 <= current_epoch_number h2 ->
    is_Some (get_archival_record s2 0) ->
    apply_archival_record_submit s2 tx2 h2 = Err ApplyError.DuplicateArchivalRecord.
Proof.
  intros cbor tx r.
  apply (archival_submission_without_signers StateStore_new tx 0
    (mkArchivalRecordSubmitPayload 0 0 59 (replicate 32 x05) [])).
  - by vm_compute.
  - by vm_compute.
  - reflexivity.
  - by vm_compute.
  - by vm_compute.
Defined.

Lemma renewed_record_does_not_decode_witness :
  let cbor := example_cbor renew_value in
  let tx := archival_tx [x00] MsgType.ArchivalRecordRenew in
  exists s', apply_archival_record_renew one_record tx 7 = Ok s' /\ exists r',
    get_archival_record s' 0 = Some r' /\
    (cbor_roundtrips (archival_record_value r') ->
     decode_archival_record (encode_archival_record r') <> Ok r').
Proof.
  intros cbor tx.
  assert (match apply_archival_record_renew one_record tx 7 with Ok _ => true | _ => false end
          = true) as Hok by by vm_compute.
  destruct (apply_archival_record_renew one_record tx 7) as [s'| |] eqn:Ha;
    [|discriminate Hok|discriminate Hok].
  exists s'. split; [reflexivity|].
  apply (renewed_record_does_not_decode one_record tx 7 s' 0 (replicate 32 x09)).
  - by vm_compute.
  - exact Ha.
Defined.
