(* ===== verification/Round.v ===== *)
(** * Votes and the consensus round: [pqc-consensus/src/{quorum,round}.rs] and the
      vote messages of [pqc-types/src/consensus_msg.rs].

    One [ConsensusRound] is the state machine of one validator at one height.  An
    event handler takes [&mut self] and returns actions; the model returns the new
    state with them. *)

From S2P Require Import Prelude Crypto Types Cbor Payloads Tx FeeMarket Leaves Store StoreInv.
From S2P Require Import ApplyAccounts ApplyValidators Governance Archival ApplyTx Mempool Block.

(** ** [quorum.rs] *)

Definition quorum_size (n : N) : N := 2 * n / 3 + 1.

(** ** [round.rs]: preimages *)

Module VoteStep.
Inductive t : Set := Prevote | Precommit.

Definition as_u8 (s : t) : N := match s with Prevote => 1 | Precommit => 2 end.

Global Instance eq_dec : EqDecision t.
Proof. solve_decision. Defined.
Global Program Instance countable : Countable t :=
  inj_countable as_u8 (fun n => if n =? 1 then Some Prevote else Some Precommit) _.
Next Obligation. by intros []. Qed.
End VoteStep.

Definition NIL_HASH : bytes := replicate 32 x00.
Arguments NIL_HASH : simpl never.
Definition VOTE_DOMAIN_TAG : bytes := bstr "VIPER-VOTE-V1".
Definition PROPOSAL_DOMAIN_TAG : bytes := bstr "VIPER-PROPOSAL-V1".

(** [i32::to_be_bytes]: two's complement. *)
Definition i32_be_bytes (z : Z) : bytes := be_bytes 4 (Z.to_N (z mod 2 ^ 32)).

Section preimages.
Context `{Shake}.

Definition vote_preimage (fork_digest : bytes) (height round : N) (step : VoteStep.t)
    (block_hash : bytes) : bytes :=
  tagged_hash VOTE_DOMAIN_TAG
    (fork_digest ++ be_bytes 8 height ++ be_bytes 4 round ++ [byte_of_N (VoteStep.as_u8 step)]
     ++ block_hash).

Definition proposal_preimage (fork_digest : bytes) (height round : N) (pol_round : Z)
    (block_hash : bytes) : bytes :=
  tagged_hash PROPOSAL_DOMAIN_TAG
    (fork_digest ++ be_bytes 8 height ++ be_bytes 4 round ++ i32_be_bytes pol_round
     ++ block_hash).

(** ** Proposer selection *)

Definition select_proposer (validators : list bytes) (height round : N)
    (randao_accumulator : option bytes) : option bytes :=
  match validators with
  | [] => None
  | _ =>
      match randao_accumulator with
      | Some randao =>
          idx ← select_epoch_proposer validators height randao;
          validators !! N.to_nat idx
      | None =>
          merge_sort bytes_le validators !! N.to_nat ((height + round) mod len validators)
      end
  end.
End preimages.

(** ** The vote store *)

Record ConsensusVote := mkConsensusVote {
  cv_height : N;
  cv_round : N;
  cv_step : VoteStep.t;
  cv_block_hash : bytes;
  cv_validator_address : bytes;
  cv_signature : bytes
}.

Global Instance ConsensusVote_eq_dec : EqDecision ConsensusVote.
Proof. solve_decision. Defined.

(** [VoteKey]: validator, height, round, step. *)
Abbreviation VoteKey := (bytes * N * N * VoteStep.t)%type.

Definition vote_key (v : ConsensusVote) : VoteKey :=
  (cv_validator_address v, cv_height v, cv_round v, cv_step v).

Record RoundEvidence := mkRoundEvidence {
  re_validator_address : bytes;
  re_height : N;
  re_round : N;
  re_step : VoteStep.t;
  re_vote_a : ConsensusVote;
  re_vote_b : ConsensusVote
}.

Record VoteStore := mkVoteStore {
  vs_votes : gmap VoteKey ConsensusVote;
  vs_equivocations : list RoundEvidence
}.

Definition VoteStore_new : VoteStore := mkVoteStore ∅ [].

Definition vote_record (vote : ConsensusVote) (s : VoteStore) : VoteStore * option RoundEvidence :=
  match vs_votes s !! vote_key vote with
  | Some existing =>
      if bool_decide (cv_block_hash existing <> cv_block_hash vote)
         && (bool_decide (cv_block_hash existing <> NIL_HASH)
             || bool_decide (cv_block_hash vote <> NIL_HASH))
      then
        let evidence := mkRoundEvidence (cv_validator_address vote) (cv_height vote)
          (cv_round vote) (cv_step vote) existing vote in
        (mkVoteStore (vs_votes s) (vs_equivocations s ++ [evidence]), Some evidence)
      else (s, None)
  | None => (mkVoteStore (<[vote_key vote := vote]> (vs_votes s)) (vs_equivocations s), None)
  end.

(** [prevotes] and [precommits] for one step. *)
Definition votes_at (s : VoteStore) (height round : N) (step : VoteStep.t) : list ConsensusVote :=
  filter (fun v => cv_height v = height /\ cv_round v = round /\ cv_step v = step)
    (map_to_list (vs_votes s)).*2.

Definition vote_count_for (s : VoteStore) (height round : N) (step : VoteStep.t)
    (block_hash : bytes) : N :=
  len (filter (fun v => cv_block_hash v = block_hash) (votes_at s height round step)).

(** [has_polka] for prevotes, [has_commit_quorum] for precommits. *)
Definition has_quorum_for (s : VoteStore) (height round : N) (step : VoteStep.t)
    (block_hash : bytes) (quorum : N) : bool :=
  negb (bool_decide (block_hash = NIL_HASH))
  && (quorum <=? vote_count_for s height round step block_hash).

Definition has_polka (s : VoteStore) (height round : N) : bytes -> N -> bool :=
  has_quorum_for s height round VoteStep.Prevote.
Definition has_commit_quorum (s : VoteStore) (height round : N) : bytes -> N -> bool :=
  has_quorum_for s height round VoteStep.Precommit.

(** ** The state machine *)

Module RoundPhase.
Inductive t : Set := Propose | Prevote | Precommit | Decided.

Global Instance eq_dec : EqDecision t.
Proof. solve_decision. Defined.
End RoundPhase.

Module RoundAction.
Inductive t : Set :=
  | BroadcastPrevote (block_hash : bytes)
  | BroadcastPrecommit (block_hash : bytes)
  | Commit (block_hash : bytes) (round : N)
  | NextRound.
End RoundAction.

Record ConsensusRound := mkConsensusRound {
  cr_height : N;
  cr_round : N;
  cr_phase : RoundPhase.t;
  cr_validator_count : N;
  cr_locked_block : option bytes;
  cr_locked_round : option N;
  cr_vote_store : VoteStore
}.

Global Instance eta_ConsensusRound : Settable ConsensusRound := fun x =>
  mkConsensusRound (cr_height x) (cr_round x) (cr_phase x) (cr_validator_count x)
    (cr_locked_block x) (cr_locked_round x) (cr_vote_store x).

Definition ConsensusRound_new (height validator_count : N) : ConsensusRound :=
  mkConsensusRound height 0 RoundPhase.Propose validator_count None None VoteStore_new.

Definition cr_quorum (c : ConsensusRound) : N := quorum_size (cr_validator_count c).

Definition on_proposal_received (block_hash : bytes) (c : ConsensusRound)
    : ConsensusRound * list RoundAction.t :=
  if bool_decide (cr_phase c <> RoundPhase.Propose) then (c, [])
  else
    let vote_hash :=
      match cr_locked_block c with
      | Some locked => if bool_decide (locked <> block_hash) then NIL_HASH else block_hash
      | None => block_hash
      end in
    (c <| cr_phase := RoundPhase.Prevote |>, [RoundAction.BroadcastPrevote vote_hash]).

Definition on_propose_timeout (c : ConsensusRound) : ConsensusRound * list RoundAction.t :=
  if bool_decide (cr_phase c <> RoundPhase.Propose) then (c, [])
  else (c <| cr_phase := RoundPhase.Prevote |>, [RoundAction.BroadcastPrevote NIL_HASH]).

(** The guards [on_prevote] and [on_precommit] share. *)
Definition vote_ignored (vote : ConsensusVote) (c : ConsensusRound) : bool :=
  bool_decide (cr_phase c = RoundPhase.Decided)
  || negb (cv_height vote =? cr_height c) || negb (cv_round vote =? cr_round c)
  || bool_decide (cv_block_hash vote = NIL_HASH).

Definition on_prevote (vote : ConsensusVote) (c : ConsensusRound)
    : ConsensusRound * list RoundAction.t :=
  let c := c <| cr_vote_store := (vote_record vote (cr_vote_store c)).1 |> in
  if vote_ignored vote c then (c, [])
  else if bool_decide (cr_phase c = RoundPhase.Prevote)
          && has_polka (cr_vote_store c) (cr_height c) (cr_round c) (cv_block_hash vote)
               (cr_quorum c)
  then (c <| cr_phase := RoundPhase.Precommit |>
          <| cr_locked_block := Some (cv_block_hash vote) |>
          <| cr_locked_round := Some (cr_round c) |>,
        [RoundAction.BroadcastPrecommit (cv_block_hash vote)])
  else (c, []).

Definition on_prevote_timeout (c : ConsensusRound) : ConsensusRound * list RoundAction.t :=
  if bool_decide (cr_phase c <> RoundPhase.Prevote) then (c, [])
  else (c <| cr_phase := RoundPhase.Precommit |>, [RoundAction.BroadcastPrecommit NIL_HASH]).

Definition on_precommit (vote : ConsensusVote) (c : ConsensusRound)
    : ConsensusRound * list RoundAction.t :=
  let c := c <| cr_vote_store := (vote_record vote (cr_vote_store c)).1 |> in
  if vote_ignored vote c then (c, [])
  else if has_commit_quorum (cr_vote_store c) (cr_height c) (cr_round c) (cv_block_hash vote)
            (cr_quorum c)
  then (c <| cr_phase := RoundPhase.Decided |>,
        [RoundAction.Commit (cv_block_hash vote) (cr_round c)])
  else (c, []).

(** [self.round += 1] overflows after round [u32::MAX]. *)
Definition on_precommit_timeout {E} (c : ConsensusRound)
    : outcome E (ConsensusRound * list RoundAction.t) :=
  if bool_decide (cr_phase c = RoundPhase.Decided) then Ok (c, [])
  else
    round ← add_checked u32_max (cr_round c) 1;
    Ok (c <| cr_round := round |> <| cr_phase := RoundPhase.Propose |>, [RoundAction.NextRound]).

Definition is_decided (c : ConsensusRound) : bool :=
  bool_decide (cr_phase c = RoundPhase.Decided).

(** The first round, up to the current one, with a block that has a commit quorum. *)
Definition committed_in_round (c : ConsensusRound) (round : N) : option bytes :=
  head (filter (fun h => has_commit_quorum (cr_vote_store c) (cr_height c) round h (cr_quorum c))
    (cv_block_hash <$> votes_at (cr_vote_store c) (cr_height c) round VoteStep.Precommit)).

Definition committed_block_hash (c : ConsensusRound) : option bytes :=
  if is_decided c
  then head (omap (committed_in_round c) (N.of_nat <$> seq 0 (S (N.to_nat (cr_round c)))))
  else None.
