(* ===== verification/RoundProps.v ===== *)
(** * Agreement of the consensus round.

    The validators of one height, each running [ConsensusRound], exchange the
    votes their actions broadcast.  Fewer than a third of them are faulty and send
    any vote at any time; the network delivers, drops, repeats and reorders.  The
    admission layer is assumed to let through only votes of validators, and of a
    correct validator only votes it cast (signatures are not forged). *)

From S2P Require Import Prelude Crypto Types Cbor Payloads Tx FeeMarket Leaves Store StoreInv.
From S2P Require Import ApplyAccounts ApplyValidators Governance Archival ApplyTx Mempool Block.
From S2P Require Import Round.

(** ** Quorums intersect in a correct validator *)

Lemma quorum_size_bounds n : 2 * n < 3 * quorum_size n /\ 3 * quorum_size n <= 2 * n + 3.
Proof.
  unfold quorum_size. pose proof (N.Div0.div_mod (2 * n) 3) as Hd.
  pose proof (N.mod_lt (2 * n) 3 ltac:(done)) as Hm.
  remember (2 * n / 3) as q. remember ((2 * n) mod 3) as m. lia.
Qed.

Definition set_len (s : gset bytes) : N := N.of_nat (size s).

Lemma set_len_mono s1 s2 : s1 ⊆ s2 -> set_len s1 <= set_len s2.
Proof. intros Hs. unfold set_len. apply subseteq_size in Hs. lia. Qed.

Lemma set_len_union_inter s1 s2 : set_len (s1 ∪ s2) + set_len (s1 ∩ s2) = set_len s1 + set_len s2.
Proof.
  unfold set_len. rewrite size_union_alt.
  assert (size s2 = size (s2 ∖ s1) + size (s1 ∩ s2))%nat as ->; [|lia].
  rewrite <-size_union by set_solver. f_equal. apply set_eq. intros x.
  destruct (decide (x ∈ s1)); set_solver.
Qed.

(** Two quorums have more than a third of the validators in common. *)
Lemma quorum_intersection V q1 q2 :
  q1 ⊆ V -> q2 ⊆ V -> quorum_size (set_len V) <= set_len q1 ->
  quorum_size (set_len V) <= set_len q2 -> set_len V < 3 * set_len (q1 ∩ q2).
Proof.
  intros H1 H2 Hq1 Hq2. pose proof (quorum_size_bounds (set_len V)).
  pose proof (set_len_union_inter q1 q2). pose proof (set_len_mono (q1 ∪ q2) V ltac:(set_solver)). lia.
Qed.

Lemma quorum_correct_member V byz q1 q2 :
  q1 ⊆ V -> q2 ⊆ V -> 3 * set_len byz < set_len V ->
  quorum_size (set_len V) <= set_len q1 -> quorum_size (set_len V) <= set_len q2 ->
  exists a, a ∈ q1 /\ a ∈ q2 /\ a ∉ byz.
Proof.
  intros H1 H2 Hb Hq1 Hq2. pose proof (quorum_intersection V q1 q2 H1 H2 Hq1 Hq2).
  destruct (decide (q1 ∩ q2 ⊆ byz)) as [Hs|Hs].
  - apply set_len_mono in Hs. lia.
  - destruct (set_choose_or_empty ((q1 ∩ q2) ∖ byz)) as [[a Ha]|He]; [set_solver|].
    exfalso. apply Hs. intros x Hx. destruct (decide (x ∈ byz)); set_solver.
Qed.

(** ** The network *)

Module Event.
Inductive t : Type :=
  | Proposal (block_hash : bytes)
  | ProposeTimeout
  | Prevote (vote : ConsensusVote)
  | PrevoteTimeout
  | Precommit (vote : ConsensusVote)
  | PrecommitTimeout.
End Event.

Definition handle (e : Event.t) (c : ConsensusRound)
    : outcome unit (ConsensusRound * list RoundAction.t) :=
  match e with
  | Event.Proposal b => Ok (on_proposal_received b c)
  | Event.ProposeTimeout => Ok (on_propose_timeout c)
  | Event.Prevote v => Ok (on_prevote v c)
  | Event.PrevoteTimeout => Ok (on_prevote_timeout c)
  | Event.Precommit v => Ok (on_precommit v c)
  | Event.PrecommitTimeout => on_precommit_timeout c
  end.

(** A vote that was cast: validator, round, step, block. *)
Abbreviation Cast := (bytes * N * VoteStep.t * bytes)%type.

Record Network := mkNetwork {
  net_nodes : gmap bytes ConsensusRound;
  net_cast : list Cast;
  net_commits : list (bytes * bytes)
}.

Definition cast_by (i : bytes) (round : N) (a : RoundAction.t) : list Cast :=
  match a with
  | RoundAction.BroadcastPrevote b => [(i, round, VoteStep.Prevote, b)]
  | RoundAction.BroadcastPrecommit b => [(i, round, VoteStep.Precommit, b)]
  | _ => []
  end.

Definition commit_by (i : bytes) (a : RoundAction.t) : list (bytes * bytes) :=
  match a with RoundAction.Commit b _ => [(i, b)] | _ => [] end.

Section network.
Context (V byz : gset bytes) (height : N).

(** What the admission layer lets through. *)
Definition admitted (cast : list Cast) (v : ConsensusVote) : Prop :=
  cv_validator_address v ∈ V /\
  (cv_validator_address v ∈ byz \/
   (cv_height v = height /\
    (cv_validator_address v, cv_round v, cv_step v, cv_block_hash v) ∈ cast)).

Definition deliverable (cast : list Cast) (e : Event.t) : Prop :=
  match e with
  | Event.Prevote v | Event.Precommit v => admitted cast v
  | _ => True
  end.

Definition net_init : Network :=
  mkNetwork (gset_to_gmap (ConsensusRound_new height (set_len V)) (V ∖ byz)) [] [].

Inductive net_step : Network -> Network -> Prop :=
  | NetStep i c e c' acts nodes cast commits :
      nodes !! i = Some c -> deliverable cast e -> handle e c = Ok (c', acts) ->
      net_step (mkNetwork nodes cast commits)
        (mkNetwork (<[i := c']> nodes)
           (cast ++ (acts ≫= cast_by i (cr_round c')))
           (commits ++ (acts ≫= commit_by i))).

Definition net_reachable : Network -> Prop := rtc net_step net_init.

(** ** The vote store holds admitted votes, one per validator and step *)

Record votes_ok (cast : list Cast) (s : VoteStore) : Prop := {
  so_votes k v : vs_votes s !! k = Some v -> vote_key v = k /\ admitted cast v;
  so_evidence e : e ∈ vs_equivocations s ->
    admitted cast (re_vote_a e) /\ admitted cast (re_vote_b e) /\
    vote_key (re_vote_a e) = vote_key (re_vote_b e) /\
    cv_validator_address (re_vote_a e) = re_validator_address e /\
    cv_block_hash (re_vote_a e) <> cv_block_hash (re_vote_b e)
}.

Lemma admitted_mono cast cast' v : cast ⊆ cast' -> admitted cast v -> admitted cast' v.
Proof. intros Hs [? [?|[? ?]]]; split; auto. Qed.

Lemma votes_ok_mono cast cast' s : cast ⊆ cast' -> votes_ok cast s -> votes_ok cast' s.
Proof.
  intros Hs [Hv He]. split.
  - intros k v Hk. destruct (Hv k v Hk). split; [done|by eapply admitted_mono].
  - intros e Hin. destruct (He e Hin) as (Ha & Hb & ?). split_and!; try by eapply admitted_mono.
    all: naive_solver.
Qed.

Lemma votes_ok_new cast : votes_ok cast VoteStore_new.
Proof. split; [done|]. intros e He. by apply elem_of_nil in He. Qed.

Lemma vote_record_ok cast v s :
  admitted cast v -> votes_ok cast s -> votes_ok cast (vote_record v s).1.
Proof.
  intros Ha [Hv He]. unfold vote_record. destruct (vs_votes s !! vote_key v) as [old|] eqn:Hk.
  - destruct (_ && _) eqn:Hc; [|by split]. bool_hyps. cbn. split; [done|].
    intros e [?|He'%list_elem_of_singleton]%elem_of_app; [auto|]. subst e. cbn.
    destruct (Hv _ _ Hk) as [Hkey Hold]. split_and!; try done. by injection Hkey.
  - cbn. split; [|done]. intros k w. cbn. intros [[<- <-]|[? ?]]%lookup_insert_Some; auto.
Qed.

(** A quorum of validators each of which is faulty or cast the vote. *)
Definition backed (cast : list Cast) (round : N) (step : VoteStep.t) (b : bytes) : Prop :=
  exists q : gset bytes, q ⊆ V /\ quorum_size (set_len V) <= set_len q /\
    forall a, a ∈ q -> a ∈ byz \/ (a, round, step, b) ∈ cast.

Lemma backed_mono cast cast' round step b :
  cast ⊆ cast' -> backed cast round step b -> backed cast' round step b.
Proof.
  intros Hs (q & ? & ? & Hq). exists q. split_and!; [done|done|]. intros a [?|?]%Hq; auto.
Qed.

Lemma votes_at_NoDup cast s round step :
  votes_ok cast s -> NoDup (cv_validator_address <$> votes_at s height round step).
Proof.
  intros [Hv _]. unfold votes_at.
  assert (forall v, v ∈ (map_to_list (vs_votes s)).*2 -> vs_votes s !! vote_key v = Some v) as Hl.
  { intros v ([k w] & -> & Hkw%elem_of_map_to_list)%list_elem_of_fmap. cbn.
    by destruct (Hv _ _ Hkw) as [-> _]. }
  apply NoDup_fmap_2_strong.
  - intros v w [(Hh & Hr & Hs) Hin]%list_elem_of_filter [(Hh' & Hr' & Hs') Hin']%list_elem_of_filter Heq.
    apply Hl in Hin, Hin'.
    assert (vote_key v = vote_key w) as Hk by (unfold vote_key; congruence). congruence.
  - apply NoDup_filter, NoDup_fmap_2_strong; [|apply NoDup_map_to_list].
    intros [k v] [k' v'] Hk%elem_of_map_to_list Hk'%elem_of_map_to_list. cbn. intros <-.
    destruct (Hv _ _ Hk) as [<- _], (Hv _ _ Hk') as [<- _]. done.
Qed.

Lemma has_quorum_backed cast s round step b :
  votes_ok cast s -> has_quorum_for s height round step b (quorum_size (set_len V)) = true ->
  b <> NIL_HASH /\ backed cast round step b.
Proof.
  intros Hs Hq. unfold has_quorum_for in Hq. bool_hyps. split; [done|].
  set (l := filter (fun v => cv_block_hash v = b) (votes_at s height round step)) in *.
  exists (list_to_set (cv_validator_address <$> l)). split_and!.
  - intros a Ha. apply elem_of_list_to_set, list_elem_of_fmap in Ha as (v & -> & Hv).
    apply list_elem_of_filter in Hv as [_ Hv]. apply list_elem_of_filter in Hv as [_ Hv].
    apply list_elem_of_fmap in Hv as ([k w] & -> & Hw%elem_of_map_to_list).
    apply (so_votes _ _ Hs) in Hw as [_ [? _]]. done.
  - unfold vote_count_for in H0. fold l in H0. unfold set_len.
    rewrite size_list_to_set, length_fmap; [done|].
    eapply sublist_NoDup; [by apply (votes_at_NoDup cast s round step)|].
    apply fmap_sublist, sublist_filter.
  - intros a Ha. apply elem_of_list_to_set, list_elem_of_fmap in Ha as (v & -> & Hv).
    apply list_elem_of_filter in Hv as [<- Hv].
    apply list_elem_of_filter in Hv as [(? & <- & <-) Hv].
    apply list_elem_of_fmap in Hv as ([k w] & -> & Hw%elem_of_map_to_list).
    apply (so_votes _ _ Hs) in Hw as [_ [? [?|[? ?]]]]; auto.
Qed.

(** ** What one event does *)

Inductive abs_step (c : ConsensusRound) : ConsensusRound -> list RoundAction.t -> Prop :=
  | AbsStay : abs_step c c []
  | AbsPrevote b :
      cr_phase c = RoundPhase.Propose ->
      b = NIL_HASH \/ cr_locked_block c = None \/ cr_locked_block c = Some b ->
      abs_step c (c <| cr_phase := RoundPhase.Prevote |>) [RoundAction.BroadcastPrevote b]
  | AbsPolka b :
      cr_phase c = RoundPhase.Prevote ->
      has_polka (cr_vote_store c) (cr_height c) (cr_round c) b (cr_quorum c) = true ->
      abs_step c (c <| cr_phase := RoundPhase.Precommit |> <| cr_locked_block := Some b |>
                    <| cr_locked_round := Some (cr_round c) |>)
        [RoundAction.BroadcastPrecommit b]
  | AbsNil :
      cr_phase c = RoundPhase.Prevote ->
      abs_step c (c <| cr_phase := RoundPhase.Precommit |>)
        [RoundAction.BroadcastPrecommit NIL_HASH]
  | AbsDecide b :
      cr_phase c <> RoundPhase.Decided ->
      has_commit_quorum (cr_vote_store c) (cr_height c) (cr_round c) b (cr_quorum c) = true ->
      abs_step c (c <| cr_phase := RoundPhase.Decided |>) [RoundAction.Commit b (cr_round c)]
  | AbsNext :
      abs_step c (c <| cr_round := cr_round c + 1 |> <| cr_phase := RoundPhase.Propose |>)
        [RoundAction.NextRound].

Lemma handle_abs cast e c c' acts :
  deliverable cast e -> votes_ok cast (cr_vote_store c) -> handle e c = Ok (c', acts) ->
  exists s', votes_ok cast s' /\ abs_step (c <| cr_vote_store := s' |>) c' acts.
Proof.
  intros Hd Hs Hh.
  assert (c = c <| cr_vote_store := cr_vote_store c |>) as Hc by by destruct c.
  destruct e as [b| |v| |v|]; cbn in Hh.
  - exists (cr_vote_store c). split; [done|]. rewrite <-Hc. unfold on_proposal_received in Hh.
    case_bool_decide as Hp; injection Hh as <- <-; [constructor|].
    apply AbsPrevote; [done|]. destruct (cr_locked_block c) as [l|]; [|auto].
    case_bool_decide as Hl; naive_solver.
  - exists (cr_vote_store c). split; [done|]. rewrite <-Hc. unfold on_propose_timeout in Hh.
    case_bool_decide as Hp; injection Hh as <- <-; constructor; auto.
  - exists (vote_record v (cr_vote_store c)).1. split; [by apply vote_record_ok|].
    unfold on_prevote in Hh. destruct (vote_ignored _ _); [injection Hh as <- <-; constructor|].
    destruct (_ && _) eqn:Hp; apply Ok_inj, pair_equal_spec in Hh as [<- <-]; [|constructor].
    bool_hyps.
    exact (AbsPolka (c <| cr_vote_store := (vote_record v (cr_vote_store c)).1 |>) _ H H0).
  - exists (cr_vote_store c). split; [done|]. rewrite <-Hc. unfold on_prevote_timeout in Hh.
    case_bool_decide as Hp; injection Hh as <- <-; by constructor.
  - exists (vote_record v (cr_vote_store c)).1. split; [by apply vote_record_ok|].
    unfold on_precommit in Hh.
    destruct (vote_ignored _ _) eqn:Hi; [injection Hh as <- <-; constructor|].
    unfold vote_ignored in Hi. bool_hyps.
    destruct (has_commit_quorum _ _ _ _ _) eqn:Hp; apply Ok_inj, pair_equal_spec in Hh as [<- <-];
      [|constructor].
    exact (AbsDecide (c <| cr_vote_store := (vote_record v (cr_vote_store c)).1 |>) _ H Hp).
  - exists (cr_vote_store c). split; [done|]. rewrite <-Hc. unfold on_precommit_timeout in Hh.
    case_bool_decide; [injection Hh as <- <-; constructor|]. run_inv.
    injection Hh as <- <-. constructor.
Qed.

(** ** The invariant of a correct validator *)

Record node_inv (cast : list Cast) (i : bytes) (c : ConsensusRound) : Prop := {
  ni_height : cr_height c = height;
  ni_count : cr_validator_count c = set_len V;
  ni_store : votes_ok cast (cr_vote_store c);
  ni_prevotes r b : (i, r, VoteStep.Prevote, b) ∈ cast ->
    r <= cr_round c /\ (r = cr_round c -> cr_phase c <> RoundPhase.Propose);
  ni_precommits r b : (i, r, VoteStep.Precommit, b) ∈ cast ->
    r <= cr_round c /\
    (r = cr_round c -> cr_phase c = RoundPhase.Precommit \/ cr_phase c = RoundPhase.Decided);
  ni_unique r st b b' : (i, r, st, b) ∈ cast -> (i, r, st, b') ∈ cast -> b = b';
  ni_polka r b : (i, r, VoteStep.Precommit, b) ∈ cast -> b <> NIL_HASH ->
    backed cast r VoteStep.Prevote b;
  (** The lock is the last block the validator precommitted. *)
  ni_lock :
    match cr_locked_block c with
    | None => forall r b, (i, r, VoteStep.Precommit, b) ∈ cast -> b = NIL_HASH
    | Some l => exists rl, (i, rl, VoteStep.Precommit, l) ∈ cast /\ l <> NIL_HASH /\
        forall r b, (i, r, VoteStep.Precommit, b) ∈ cast -> b <> NIL_HASH -> r <= rl
    end;
  (** To prevote another block, it must have precommitted another one in between. *)
  ni_switch r r' b b' : (i, r, VoteStep.Precommit, b) ∈ cast -> b <> NIL_HASH ->
    (i, r', VoteStep.Prevote, b') ∈ cast -> b' <> NIL_HASH -> r < r' -> b' <> b ->
    exists r'' b'', r < r'' /\ r'' < r' /\ b'' <> b /\ b'' <> NIL_HASH /\
      (i, r'', VoteStep.Precommit, b'') ∈ cast
}.

Lemma node_inv_new i : node_inv [] i (ConsensusRound_new height (set_len V)).
Proof. split; cbn; try done; try apply votes_ok_new; intros; set_solver. Qed.

(** Votes of others do not disturb it. *)
Lemma node_inv_mono cast cast' i c :
  cast ⊆ cast' -> (forall r st b, (i, r, st, b) ∈ cast' -> (i, r, st, b) ∈ cast) ->
  node_inv cast i c -> node_inv cast' i c.
Proof.
  intros Hs Hi []. split; eauto using votes_ok_mono, backed_mono.
  - destruct (cr_locked_block c); [|eauto]. destruct ni_lock0 as (rl & ? & ? & ?). eauto 10.
  - intros r r' b b' Hb ? Hb' ???. destruct (ni_switch0 r r' b b') as (r'' & b'' & ? & ? & ? & ? & ?); auto.
    exists r'', b''. auto 10.
Qed.

Lemma node_inv_store cast i c s :
  votes_ok cast s -> node_inv cast i c -> node_inv cast i (c <| cr_vote_store := s |>).
Proof. intros Hs []. by split. Qed.

Lemma node_inv_prevote cast i c b :
  cr_phase c = RoundPhase.Propose ->
  b = NIL_HASH \/ cr_locked_block c = None \/ cr_locked_block c = Some b ->
  node_inv cast i c ->
  node_inv (cast ++ [(i, cr_round c, VoteStep.Prevote, b)]) i
    (c <| cr_phase := RoundPhase.Prevote |>).
Proof.
  intros Hp Hb []. assert (cast ⊆ cast ++ [(i, cr_round c, VoteStep.Prevote, b)]) as Hsub by set_solver.
  assert (forall r b', (i, r, VoteStep.Precommit, b') ∈ cast ++ [(i, cr_round c, VoteStep.Prevote, b)] ->
    (i, r, VoteStep.Precommit, b') ∈ cast) as Hpc by set_solver.
  split; cbn; eauto using votes_ok_mono, backed_mono.
  - intros r b' [Hr|Hr%list_elem_of_singleton]%elem_of_app; [|simplify_eq; done].
    apply ni_prevotes0 in Hr as [? Hr]. split; [done|]. done.
  - intros r b' Hr%Hpc. apply ni_precommits0 in Hr as [? Hr]. split; [done|].
    intros ?. destruct Hr; congruence.
  - intros r st b1 b2 [H1|H1%list_elem_of_singleton]%elem_of_app [H2|H2%list_elem_of_singleton]%elem_of_app;
      simplify_eq; try done; eauto.
    + by destruct (ni_prevotes0 _ _ H1) as [_ []].
    + by destruct (ni_prevotes0 _ _ H2) as [_ []].
  - destruct (cr_locked_block c); [|eauto]. destruct ni_lock0 as (rl & ? & ? & ?).
    exists rl. split_and!; eauto.
  - intros r r' b1 b2 H1%Hpc Hn1 H2 Hn2 Hlt Hne.
    apply elem_of_app in H2 as [H2|H2%list_elem_of_singleton].
    + destruct (ni_switch0 r r' b1 b2) as (r'' & b'' & ? & ? & ? & ? & ?); auto.
      exists r'', b''. auto 10.
    + simplify_eq. destruct Hb as [?|[Hb|Hb]]; [done| |]; rewrite Hb in ni_lock0.
      { by destruct Hn1; eapply ni_lock0. }
      destruct ni_lock0 as (rl & Hrl & ? & Hmax). exists rl, b.
      pose proof (Hmax _ _ H1 Hn1). pose proof (ni_precommits0 _ _ Hrl) as [? Hph].
      assert (rl <> r) by (intros ->; by apply Hne, (ni_unique0 r VoteStep.Precommit)).
      assert (rl <> cr_round c) by (intros ?; destruct Hph; congruence).
      split_and!; [lia|lia|done|done|set_solver].
Qed.

(** A precommit in the prevote phase: for nil, or for a block with a polka, which
    becomes the lock. *)
Lemma node_inv_precommit cast i c b lb lr :
  cr_phase c = RoundPhase.Prevote ->
  (b = NIL_HASH /\ lb = cr_locked_block c) \/
    (b <> NIL_HASH /\ backed cast (cr_round c) VoteStep.Prevote b /\ lb = Some b) ->
  node_inv cast i c ->
  node_inv (cast ++ [(i, cr_round c, VoteStep.Precommit, b)]) i
    (c <| cr_phase := RoundPhase.Precommit |> <| cr_locked_block := lb |>
       <| cr_locked_round := lr |>).
Proof.
  intros Hp Hb []. set (w := (i, cr_round c, VoteStep.Precommit, b)).
  assert (cast ⊆ cast ++ [w]) as Hsub by set_solver.
  assert (forall r b', (i, r, VoteStep.Prevote, b') ∈ cast ++ [w] ->
    (i, r, VoteStep.Prevote, b') ∈ cast) as Hpv by set_solver.
  assert (forall r b', (i, r, VoteStep.Precommit, b') ∈ cast -> r < cr_round c) as Hold.
  { intros r b' Hr. destruct (ni_precommits0 _ _ Hr) as [? Hph].
    assert (r <> cr_round c); [|lia]. intros ->. destruct Hph; congruence. }
  assert (forall r b', (i, r, VoteStep.Precommit, b') ∈ cast ++ [w] ->
    (i, r, VoteStep.Precommit, b') ∈ cast \/ r = cr_round c /\ b' = b) as Hpc.
  { intros r b' [?|Hr%list_elem_of_singleton]%elem_of_app; [by left|]. injection Hr. auto. }
  split; cbn; eauto using votes_ok_mono.
  - intros r b' Hr%Hpv. by destruct (ni_prevotes0 _ _ Hr).
  - intros r b' [Hr|[-> ->]]%Hpc; [|auto]. apply Hold in Hr. split; [lia|auto].
  - intros r st b1 b2 [H1|H1%list_elem_of_singleton]%elem_of_app [H2|H2%list_elem_of_singleton]%elem_of_app;
      subst w; simplify_eq; try done; eauto; exfalso; [apply Hold in H1|apply Hold in H2]; lia.
  - intros r b' [Hr|[-> ->]]%Hpc Hn; [by eauto using backed_mono|].
    destruct Hb as [[? ?]|(? & ? & ?)]; [done|by eapply backed_mono].
  - destruct Hb as [[-> ->]|(? & ? & ->)].
    + destruct (cr_locked_block c).
      * destruct ni_lock0 as (rl & ? & ? & ?). exists rl. split_and!; [set_solver|done|].
        intros r b' [?|[_ ->]]%Hpc ?; [by eauto|done].
      * intros r b' [?|[_ ->]]%Hpc; eauto.
    + exists (cr_round c). split_and!; [set_solver|done|].
      intros r b' [Hr%Hold|[-> _]]%Hpc ?; lia.
  - intros r r' b1 b2 [H1|[-> ->]]%Hpc Hn1 H2%Hpv Hn2 Hlt Hne.
    + destruct (ni_switch0 r r' b1 b2) as (r'' & b'' & ? & ? & ? & ? & ?); auto.
      exists r'', b''. auto 10.
    + destruct (ni_prevotes0 _ _ H2). lia.
Qed.

Lemma node_inv_next cast i c :
  node_inv cast i c ->
  node_inv cast i (c <| cr_round := cr_round c + 1 |> <| cr_phase := RoundPhase.Propose |>).
Proof.
  intros []. split; cbn; eauto.
  - intros r b Hr. destruct (ni_prevotes0 _ _ Hr). lia.
  - intros r b Hr. destruct (ni_precommits0 _ _ Hr). lia.
Qed.

Lemma node_inv_decide cast i c :
  node_inv cast i c -> node_inv cast i (c <| cr_phase := RoundPhase.Decided |>).
Proof.
  intros []. split; cbn; eauto.
  - intros r b Hr. by destruct (ni_prevotes0 _ _ Hr).
  - intros r b Hr. destruct (ni_precommits0 _ _ Hr). auto.
Qed.

Lemma node_inv_abs_step cast i c c' acts :
  node_inv cast i c -> abs_step c c' acts ->
  node_inv (cast ++ (acts ≫= cast_by i (cr_round c'))) i c' /\
  forall b, (i, b) ∈ (acts ≫= commit_by i) ->
    exists r, b <> NIL_HASH /\ backed cast r VoteStep.Precommit b.
Proof.
  intros Hn Hs. pose proof (ni_height _ _ _ Hn) as Hh. pose proof (ni_count _ _ _ Hn) as Hc.
  pose proof (ni_store _ _ _ Hn) as Hst.
  destruct Hs as [|b|b Hp Hq| |b Hp Hq|]; cbn [mbind list_bind cast_by commit_by app].
  - split; [by rewrite app_nil_r|set_solver].
  - split; [by apply (node_inv_prevote cast i c)|set_solver].
  - unfold has_polka, cr_quorum in Hq. rewrite Hh, Hc in Hq.
    apply (has_quorum_backed cast) in Hq as [? ?]; [|done].
    split; [apply (node_inv_precommit cast i c); auto|set_solver].
  - split; [|set_solver].
    assert (c <| cr_phase := RoundPhase.Precommit |> =
      c <| cr_phase := RoundPhase.Precommit |> <| cr_locked_block := cr_locked_block c |>
        <| cr_locked_round := cr_locked_round c |>) as -> by by destruct c.
    apply (node_inv_precommit cast i c); auto.
  - unfold has_commit_quorum, cr_quorum in Hq. rewrite Hh, Hc in Hq.
    apply (has_quorum_backed cast) in Hq as [? ?]; [|done].
    rewrite app_nil_r. split; [by apply node_inv_decide|].
    intros b' [= <-]%list_elem_of_singleton. eauto.
  - rewrite app_nil_r. split; [by apply node_inv_next|set_solver].
Qed.

(** ** The invariant of the network *)

Record net_inv (net : Network) : Prop := {
  nt_nodes i c : net_nodes net !! i = Some c -> i ∉ byz /\ node_inv (net_cast net) i c;
  nt_cast i r st b : (i, r, st, b) ∈ net_cast net -> is_Some (net_nodes net !! i);
  nt_commits i b : (i, b) ∈ net_commits net ->
    exists r, b <> NIL_HASH /\ backed (net_cast net) r VoteStep.Precommit b
}.

Lemma net_init_inv : net_inv net_init.
Proof.
  split; cbn; [|set_solver|set_solver]. intros i c [Hi <-]%lookup_gset_to_gmap_Some.
  split; [set_solver|apply node_inv_new].
Qed.

Lemma cast_by_own i r acts j r' st b :
  (j, r', st, b) ∈ acts ≫= cast_by i r -> j = i.
Proof.
  intros (a & Ha & _)%list_elem_of_bind. destruct a; cbn in Ha; set_solver.
Qed.

Lemma net_step_inv net net' : net_inv net -> net_step net net' -> net_inv net'.
Proof.
  intros [Hn Hc Hm] Hstep. destruct Hstep as [i c e c' acts nodes cast commits Hi Hd Hh].
  cbn in *. destruct (Hn _ _ Hi) as [Hby Hinv].
  destruct (handle_abs _ _ _ _ _ Hd (ni_store _ _ _ Hinv) Hh) as (s' & Hs' & Habs).
  apply (node_inv_abs_step cast i) in Habs as [Hinv' Hcom]; [|by apply node_inv_store].
  split; cbn.
  - intros j d [[<- <-]|[Hne Hj]]%lookup_insert_Some; [done|].
    destruct (Hn _ _ Hj) as [? Hj']. split; [done|]. apply (node_inv_mono cast); [set_solver| |done].
    intros r st b [?|Hb%cast_by_own]%elem_of_app; congruence.
  - intros j r st b [Hb|Hb%cast_by_own]%elem_of_app.
    + destruct (decide (i = j)) as [->|]; [by simplify_map_eq|].
      rewrite lookup_insert_ne by done. eauto.
    + subst. by simplify_map_eq.
  - intros j b [Hb|Hb]%elem_of_app.
    + destruct (Hm _ _ Hb) as (r & ? & ?). exists r. split; [done|].
      eapply backed_mono; [|done]. set_solver.
    + assert (j = i) as ->.
      { apply list_elem_of_bind in Hb as (a & Ha & _). destruct a; cbn in Ha; set_solver. }
      destruct (Hcom _ Hb) as (r & ? & ?). exists r. split; [done|].
      eapply backed_mono; [|done]. set_solver.
Qed.

Lemma net_reachable_inv net : net_reachable net -> net_inv net.
Proof.
  apply (rtc_ind_r (R := net_step) net_inv net_init); [apply net_init_inv|].
  intros. by eapply net_step_inv.
Qed.

(** ** Agreement *)

Context (Hbyz : 3 * set_len byz < set_len V).

Lemma backed_common net r1 st1 b1 r2 st2 b2 :
  net_inv net -> backed (net_cast net) r1 st1 b1 -> backed (net_cast net) r2 st2 b2 ->
  exists a c, net_nodes net !! a = Some c /\ node_inv (net_cast net) a c /\
    (a, r1, st1, b1) ∈ net_cast net /\ (a, r2, st2, b2) ∈ net_cast net.
Proof.
  intros Hn (q1 & ? & ? & H1) (q2 & ? & ? & H2).
  destruct (quorum_correct_member V byz q1 q2) as (a & Ha1 & Ha2 & Hab); [done..|].
  destruct (H1 _ Ha1) as [?|H1']; [done|]. destruct (H2 _ Ha2) as [?|H2']; [done|].
  destruct (nt_cast _ Hn _ _ _ _ H1') as [c Hc]. exists a, c.
  split_and!; [done|by apply (nt_nodes _ Hn)|done|done].
Qed.

(** After a commit quorum no other block gets a polka. *)
Lemma commit_fixes_polkas net r b :
  net_inv net -> backed (net_cast net) r VoteStep.Precommit b -> b <> NIL_HASH ->
  forall r' b', r <= r' -> b' <> NIL_HASH ->
    backed (net_cast net) r' VoteStep.Prevote b' -> b' = b.
Proof.
  intros Hn Hq Hb r'. induction (N.lt_wf_0 r') as [r' _ IH]. intros b' Hle Hb' Hp.
  destruct (decide (b' = b)) as [|Hne]; [done|exfalso].
  destruct (decide (r' = r)) as [->|Hr].
  - destruct (backed_common net r VoteStep.Precommit b r VoteStep.Precommit b)
      as (a & c & _ & Hi & Ha & _); [done..|].
    destruct (backed_common net r VoteStep.Prevote b r VoteStep.Prevote b')
      as (a' & c' & _ & Hi' & H1 & H2); [done|by apply (ni_polka _ _ _ Hi)|done|].
    by apply Hne, (ni_unique _ _ _ Hi' r VoteStep.Prevote).
  - destruct (backed_common net r VoteStep.Precommit b r' VoteStep.Prevote b')
      as (a & c & _ & Hi & Ha & Ha'); [done..|].
    destruct (ni_switch _ _ _ Hi r r' b b') as (r'' & b'' & ? & ? & Hne'' & ? & Hc);
      [done..|lia|done|].
    apply Hne'', (IH r''); [done|lia|done|]. by apply (ni_polka _ _ _ Hi).
Qed.

(** C9 Agreement: while fewer than a third of the validators are faulty, no two
    correct validators commit different blocks at a height, in the same or in
    different rounds, whatever the faulty ones send and the network delivers. *)
Theorem round_agreement net i j b1 b2 :
  net_reachable net -> (i, b1) ∈ net_commits net -> (j, b2) ∈ net_commits net -> b1 = b2.
Proof.
  intros Hn%net_reachable_inv H1 H2.
  destruct (nt_commits _ Hn _ _ H1) as (r1 & Hb1 & Hq1).
  destruct (nt_commits _ Hn _ _ H2) as (r2 & Hb2 & Hq2).
  assert (forall r b, b <> NIL_HASH -> backed (net_cast net) r VoteStep.Precommit b ->
    backed (net_cast net) r VoteStep.Prevote b) as Hp.
  { intros r b Hb Hq. destruct (backed_common net r VoteStep.Precommit b r VoteStep.Precommit b)
      as (a & c & _ & Hi & Ha & _); [done..|]. by apply (ni_polka _ _ _ Hi). }
  destruct (N.le_ge_cases r1 r2).
  - symmetry. apply (commit_fixes_polkas net r1 b1 Hn Hq1 Hb1 r2); auto.
  - apply (commit_fixes_polkas net r2 b2 Hn Hq2 Hb2 r1); auto.
Qed.

(** C26 Accountability: the equivocation evidence a correct validator collects names
    only faulty validators, and its two votes conflict: same validator, height,
    round and step, different blocks. *)
Theorem round_evidence_is_just net i c e :
  net_reachable net -> net_nodes net !! i = Some c -> e ∈ vs_equivocations (cr_vote_store c) ->
  re_validator_address e ∈ byz /\ vote_key (re_vote_a e) = vote_key (re_vote_b e) /\
  cv_block_hash (re_vote_a e) <> cv_block_hash (re_vote_b e).
Proof.
  intros Hn%net_reachable_inv Hc He. destruct (nt_nodes _ Hn _ _ Hc) as [_ Hi].
  destruct (so_evidence _ _ (ni_store _ _ _ Hi) _ He) as ([_ Ha] & [_ Hb] & Hk & <- & Hne).
  split; [|done]. destruct Ha as [?|[? Ha]]; [done|]. destruct Hb as [?|[? Hb]].
  { injection Hk as ->. done. }
  exfalso. destruct (nt_cast _ Hn _ _ _ _ Ha) as [c' Hc']. destruct (nt_nodes _ Hn _ _ Hc') as [_ Hi'].
  apply Hne. injection Hk as Hv _ Hr Hs. rewrite <-Hv, <-Hr, <-Hs in Hb.
  by apply (ni_unique _ _ _ Hi' _ _ _ _ Ha Hb).
Qed.
End network.

(** ** Progress *)

(** The events of one validator in order, with all actions. *)
Fixpoint run_events (es : list Event.t) (c : ConsensusRound)
    : outcome unit (ConsensusRound * list RoundAction.t) :=
  match es with
  | [] => Ok (c, [])
  | e :: es =>
      '(c, acts) ← handle e c;
      '(c, acts') ← run_events es c;
      Ok (c, acts ++ acts')
  end.

Section progress.
Context (height n : N) (b : bytes) (Hb : b <> NIL_HASH).

(** The votes of [vals] for [b] in the first round. *)
Definition votes_of (step : VoteStep.t) (vals : list bytes) : list ConsensusVote :=
  (fun a => mkConsensusVote height 0 step b a []) <$> vals.

(** A store with the votes [ws], newest first. *)
Definition store_of (ws : list ConsensusVote) : VoteStore :=
  mkVoteStore (list_to_map ((fun v => (vote_key v, v)) <$> ws)) [].

Lemma store_of_record v ws :
  NoDup (vote_key <$> v :: ws) -> (vote_record v (store_of ws)).1 = store_of (v :: ws).
Proof.
  intros Hnd. inversion Hnd as [|?? Hv _]. subst. unfold vote_record, store_of. cbn.
  rewrite not_elem_of_list_to_map_1; [done|]. by rewrite <-list_fmap_compose.
Qed.

Lemma store_of_count step ws :
  NoDup (vote_key <$> ws) ->
  vote_count_for (store_of ws) height 0 step b =
    len (filter (fun v => (cv_height v = height /\ cv_round v = 0 /\ cv_step v = step) /\
                          cv_block_hash v = b) ws).
Proof.
  intros Hnd. unfold vote_count_for, votes_at, len. cbn [store_of vs_votes].
  rewrite list_filter_filter. f_equal. apply Permutation_length.
  assert ((map_to_list (list_to_map ((fun v => (vote_key v, v)) <$> ws) :
    gmap VoteKey ConsensusVote)).*2 ≡ₚ ws) as ->.
  { rewrite map_to_list_to_map; [|by rewrite <-list_fmap_compose].
    by rewrite <-list_fmap_compose, list_fmap_id. }
  rewrite (list_filter_iff _ (fun v =>
    (cv_height v = height /\ cv_round v = 0 /\ cv_step v = step) /\ cv_block_hash v = b));
    [done|naive_solver].
Qed.

Abbreviation vote_for step a := (mkConsensusVote height 0 step b a []).
Abbreviation q := (quorum_size n).

Definition node_at ph lb lr ws : ConsensusRound :=
  mkConsensusRound height 0 ph n lb lr (store_of ws).

Definition cnt (step : VoteStep.t) (ws : list ConsensusVote) : N :=
  vote_count_for (store_of ws) height 0 step b.

Lemma cnt_cons step a ws :
  NoDup (vote_key <$> vote_for step a :: ws) -> cnt step (vote_for step a :: ws) = cnt step ws + 1.
Proof.
  intros Hnd. unfold cnt. rewrite !store_of_count by (by inversion Hnd || done).
  rewrite filter_cons_True by done. unfold len. cbn [length]. lia.
Qed.

Lemma cnt_nil step : cnt step [] = 0.
Proof. unfold cnt. by rewrite store_of_count by constructor. Qed.

Lemma ignored_false step a c :
  cr_height c = height -> cr_round c = 0 -> cr_phase c <> RoundPhase.Decided ->
  vote_ignored (vote_for step a) c = false.
Proof.
  intros Hh Hr Hp. unfold vote_ignored. cbn. rewrite Hh, Hr, N.eqb_refl.
  by rewrite !bool_decide_false.
Qed.

(** One vote. *)
Lemma on_prevote_at a ph lb lr ws :
  NoDup (vote_key <$> vote_for VoteStep.Prevote a :: ws) -> ph <> RoundPhase.Decided ->
  on_prevote (vote_for VoteStep.Prevote a) (node_at ph lb lr ws) =
    (if bool_decide (ph = RoundPhase.Prevote) && (q <=? cnt VoteStep.Prevote ws + 1)
     then (node_at RoundPhase.Precommit (Some b) (Some 0) (vote_for VoteStep.Prevote a :: ws),
           [RoundAction.BroadcastPrecommit b])
     else (node_at ph lb lr (vote_for VoteStep.Prevote a :: ws), [])).
Proof.
  intros Hnd Hp. rewrite <-(cnt_cons VoteStep.Prevote a) by done. unfold on_prevote.
  rewrite ignored_false by done. unfold set, node_at. cbn [cr_vote_store cr_phase cr_height cr_round
    cr_validator_count cr_locked_block cr_locked_round cv_block_hash].
  rewrite store_of_record by done. unfold has_polka, has_quorum_for, cnt, cr_quorum.
  cbn [cr_validator_count]. rewrite (bool_decide_false (b = NIL_HASH)) by done. done.
Qed.

Lemma on_precommit_at a ph lb lr ws :
  NoDup (vote_key <$> vote_for VoteStep.Precommit a :: ws) ->
  on_precommit (vote_for VoteStep.Precommit a) (node_at ph lb lr ws) =
    (if negb (bool_decide (ph = RoundPhase.Decided)) && (q <=? cnt VoteStep.Precommit ws + 1)
     then (node_at RoundPhase.Decided lb lr (vote_for VoteStep.Precommit a :: ws),
           [RoundAction.Commit b 0])
     else (node_at ph lb lr (vote_for VoteStep.Precommit a :: ws), [])).
Proof.
  intros Hnd. rewrite <-(cnt_cons VoteStep.Precommit a) by done. unfold on_precommit.
  unfold set, node_at. cbn [cr_vote_store cr_phase cr_height cr_round
    cr_validator_count cr_locked_block cr_locked_round cv_block_hash].
  rewrite store_of_record by done. case_bool_decide as Hp; cbn [negb andb].
  { unfold vote_ignored. cbn [cr_phase]. by rewrite bool_decide_true. }
  rewrite ignored_false by done. unfold has_commit_quorum, has_quorum_for, cnt, cr_quorum.
  cbn [cr_validator_count]. rewrite (bool_decide_false (b = NIL_HASH)) by done. done.
Qed.

(** Votes that arrive after the quorum change nothing but the store; the vote that
    completes it triggers the action. *)
Section run_votes.
Context (step : VoteStep.t) (ev : ConsensusVote -> Event.t).
Context (before after : list ConsensusVote -> ConsensusRound) (act : RoundAction.t).
Hypothesis Hafter : forall a ws, NoDup (vote_key <$> vote_for step a :: ws) ->
  handle (ev (vote_for step a)) (after ws) = Ok (after (vote_for step a :: ws), []).
Hypothesis Hbefore : forall a ws, NoDup (vote_key <$> vote_for step a :: ws) ->
  handle (ev (vote_for step a)) (before ws) =
    Ok (if q <=? cnt step ws + 1 then (after (vote_for step a :: ws), [act])
        else (before (vote_for step a :: ws), [])).

Lemma NoDup_step a vals ws :
  NoDup (vote_key <$> votes_of step (a :: vals) ++ ws) ->
  NoDup (vote_key <$> vote_for step a :: ws) /\
  NoDup (vote_key <$> votes_of step vals ++ vote_for step a :: ws).
Proof.
  intros Hnd. assert (NoDup (vote_key <$> votes_of step vals ++ vote_for step a :: ws)) as Hnd'.
  { eapply NoDup_Permutation_proper; [|exact Hnd]. cbn. by rewrite <-Permutation_middle. }
  split; [|done]. rewrite fmap_app in Hnd'. by apply NoDup_app in Hnd' as (_ & _ & ?).
Qed.

Lemma run_after vals ws :
  NoDup (vote_key <$> votes_of step vals ++ ws) ->
  exists ws', ws' ≡ₚ votes_of step vals ++ ws /\
    run_events (ev <$> votes_of step vals) (after ws) = Ok (after ws', []).
Proof.
  revert ws. induction vals as [|a vals IH]; intros ws Hnd; [by exists ws|].
  apply NoDup_step in Hnd as [H1 H2]. destruct (IH _ H2) as (ws' & Hp & Hr).
  exists ws'. split; [by rewrite Hp; cbn; rewrite <-Permutation_middle|].
  cbn [votes_of fmap list_fmap run_events]. rewrite Hafter by done. cbn [mbind outcome_bind].
  fold (votes_of step vals). by rewrite Hr.
Qed.

Lemma run_quorum vals ws :
  NoDup (vote_key <$> votes_of step vals ++ ws) ->
  cnt step ws < q -> q <= cnt step ws + len vals -> exists ws', ws' ≡ₚ votes_of step vals ++ ws /\
    run_events (ev <$> votes_of step vals) (before ws) = Ok (after ws', [act]).
Proof.
  revert ws. induction vals as [|a vals IH]; intros ws Hnd Hlt Hge.
  { exfalso. unfold len in Hge. cbn [length] in Hge. lia. }
  apply NoDup_step in Hnd as [H1 H2].
  assert (len (a :: vals) = len vals + 1) as Hl by (unfold len; cbn [length]; lia).
  cbn [votes_of fmap list_fmap run_events]. rewrite Hbefore by done. cbn [mbind outcome_bind].
  fold (votes_of step vals). destruct (N.leb_spec q (cnt step ws + 1)) as [Hq|Hq].
  - destruct (run_after vals _ H2) as (ws' & Hp & Hr). exists ws'. rewrite Hr.
    split; [by rewrite Hp; cbn; rewrite <-Permutation_middle|done].
  - destruct (IH _ H2) as (ws' & Hp & Hr); [rewrite cnt_cons by done; lia..|]. exists ws'.
    rewrite Hr. split; [by rewrite Hp; cbn; rewrite <-Permutation_middle|done].
Qed.
End run_votes.

Lemma run_events_app es1 es2 c :
  run_events (es1 ++ es2) c =
    ('(c, a) ← run_events es1 c; '(c, a') ← run_events es2 c; Ok (c, a ++ a')).
Proof.
  revert c. induction es1 as [|e es1 IH]; intros c; cbn.
  { by destruct (run_events es2 c) as [[]| |]. }
  destruct (handle e c) as [[c1 a1]| |]; cbn; [|done|done]. rewrite IH.
  destruct (run_events es1 c1) as [[c2 a2]| |]; cbn; [|done|done].
  destruct (run_events es2 c2) as [[c3 a3]| |]; cbn; [|done|done]. by rewrite app_assoc.
Qed.

Lemma votes_of_keys_NoDup step vals : NoDup vals -> NoDup (vote_key <$> votes_of step vals).
Proof.
  intros. unfold votes_of. rewrite <-list_fmap_compose. apply NoDup_fmap_2_strong; [|done].
  intros x y _ _. cbn. by intros [=].
Qed.

Lemma both_keys_NoDup vals :
  NoDup vals ->
  NoDup (vote_key <$> votes_of VoteStep.Precommit vals ++ votes_of VoteStep.Prevote vals).
Proof.
  intros. rewrite fmap_app. apply NoDup_app. split_and!; try by apply votes_of_keys_NoDup.
  unfold votes_of. rewrite <-!list_fmap_compose.
  intros k (x & -> & _)%list_elem_of_fmap (y & Hk & _)%list_elem_of_fmap. by cbn in Hk.
Qed.

Lemma store_of_perm ws ws' : NoDup (vote_key <$> ws) -> ws ≡ₚ ws' -> store_of ws = store_of ws'.
Proof.
  intros Hnd Hp. unfold store_of. f_equal. apply list_to_map_proper; [|by rewrite Hp].
  by rewrite <-list_fmap_compose.
Qed.

Lemma filter_votes_of step step' vals :
  filter (fun v => (cv_height v = height /\ cv_round v = 0 /\ cv_step v = step) /\
                   cv_block_hash v = b) (votes_of step' vals) =
    if decide (step = step') then votes_of step' vals else [].
Proof.
  unfold votes_of. induction vals as [|a vals IH]; [by case_decide|].
  rewrite fmap_cons. case_decide as Hd.
  - rewrite filter_cons_True by (by subst). by rewrite IH.
  - rewrite filter_cons_False; [by rewrite IH|]. cbn. naive_solver.
Qed.

Lemma cnt_votes vals :
  NoDup vals ->
  cnt VoteStep.Precommit (votes_of VoteStep.Precommit vals ++ votes_of VoteStep.Prevote vals) =
    len vals /\ cnt VoteStep.Precommit (votes_of VoteStep.Prevote vals) = 0.
Proof.
  intros Hnd.
  unfold cnt. rewrite !store_of_count by (by apply both_keys_NoDup || by apply votes_of_keys_NoDup).
  rewrite filter_app, !filter_votes_of. rewrite (decide_True (P := VoteStep.Precommit = _)) by done.
  rewrite (decide_False (P := VoteStep.Precommit = _)) by done. rewrite app_nil_r.
  unfold votes_of, len. by rewrite length_fmap.
Qed.

(** Only [b] has precommits, so a quorum for it is what the search finds. *)
Lemma committed_found vals :
  NoDup vals -> q <= len vals ->
  committed_block_hash (node_at RoundPhase.Decided (Some b) (Some 0)
    (votes_of VoteStep.Precommit vals ++ votes_of VoteStep.Prevote vals)) = Some b.
Proof.
  intros Hnd Hq. unfold committed_block_hash.
  set (c := node_at _ _ _ _). change (head (omap (committed_in_round c) [0]) = Some b).
  assert (committed_in_round c 0 = Some b) as Hh; [|cbn [omap list_omap]; by rewrite Hh].
  unfold committed_in_round. set (hs := filter _ _).
  destruct (cnt_votes vals Hnd) as [Hc _].
  assert (forall h, h ∈ hs -> h = b) as Hall.
  { intros h [_ (v & -> & Hv)%list_elem_of_fmap]%list_elem_of_filter.
    apply list_elem_of_filter in Hv as [_ Hv].
    apply list_elem_of_fmap in Hv as ([k w] & -> & Hw%elem_of_map_to_list).
    apply elem_of_list_to_map_2, list_elem_of_fmap in Hw as (w' & [= -> ->] & Hw).
    apply elem_of_app in Hw as [Hw|Hw]; apply list_elem_of_fmap in Hw as (? & -> & _); done. }
  assert (b ∈ hs) as Hin.
  { apply list_elem_of_filter. unfold cnt, vote_count_for in Hc.
    assert (has_commit_quorum (cr_vote_store c) (cr_height c) 0 b (cr_quorum c)) as Hhc.
    { apply Is_true_true. unfold has_commit_quorum, has_quorum_for.
      rewrite (bool_decide_false (b = NIL_HASH)) by done. cbn [negb andb]. apply N.leb_le.
      unfold vote_count_for. cbn [c node_at cr_vote_store cr_height]. by rewrite Hc. }
    split; [done|].
    destruct (filter (fun v => cv_block_hash v = b) (votes_at (cr_vote_store c) height 0 VoteStep.Precommit))
      as [|v l] eqn:Hf.
    - exfalso. cbn [c node_at cr_vote_store] in Hf. rewrite Hf in Hc. unfold len in *. cbn in Hc.
      pose proof (quorum_size_bounds n). lia.
    - assert (v ∈ v :: l) as Hv by left. rewrite <-Hf in Hv.
      apply list_elem_of_filter in Hv as [<- Hv]. by apply list_elem_of_fmap_2. }
  destruct hs as [|h hs]; [by apply elem_of_nil in Hin|]. cbn. f_equal. apply Hall. left.
Qed.

(** C25 Progress: a validator that receives the proposal, and the prevotes and the
    precommits of a quorum for it in the first round, prevotes, precommits and
    commits that block, and reports it as committed. *)
Theorem quorum_decides vals :
  NoDup vals -> quorum_size n <= len vals ->
  exists c,
    run_events ([Event.Proposal b] ++ (Event.Prevote <$> votes_of VoteStep.Prevote vals)
                ++ (Event.Precommit <$> votes_of VoteStep.Precommit vals))
      (ConsensusRound_new height n) =
      Ok (c, [RoundAction.BroadcastPrevote b; RoundAction.BroadcastPrecommit b;
              RoundAction.Commit b 0]) /\
    is_decided c = true /\ committed_block_hash c = Some b.
Proof.
  intros Hnd Hq. pose proof (quorum_size_bounds n).
  destruct (run_quorum VoteStep.Prevote Event.Prevote (node_at RoundPhase.Prevote None None)
    (node_at RoundPhase.Precommit (Some b) (Some 0)) (RoundAction.BroadcastPrecommit b))
    with (vals := vals) (ws := @nil ConsensusVote) as (ws1 & Hp1 & Hr1).
  { intros a ws Hn. cbn [handle]. by rewrite on_prevote_at by done. }
  { intros a ws Hn. cbn [handle]. by rewrite on_prevote_at by done. }
  { rewrite app_nil_r. by apply votes_of_keys_NoDup. }
  { rewrite cnt_nil. lia. }
  { rewrite cnt_nil. lia. }
  rewrite app_nil_r in Hp1. destruct (cnt_votes vals Hnd) as [_ Hc0].
  pose proof (votes_of_keys_NoDup VoteStep.Prevote vals Hnd) as Hk1.
  assert (store_of ws1 = store_of (votes_of VoteStep.Prevote vals)) as Hs1
    by (apply store_of_perm; [by rewrite Hp1|done]).
  destruct (run_quorum VoteStep.Precommit Event.Precommit (node_at RoundPhase.Precommit (Some b) (Some 0))
    (node_at RoundPhase.Decided (Some b) (Some 0)) (RoundAction.Commit b 0))
    with (vals := vals) (ws := votes_of VoteStep.Prevote vals) as (ws2 & Hp2 & Hr2).
  { intros a ws Hn. cbn [handle]. by rewrite on_precommit_at by done. }
  { intros a ws Hn. cbn [handle]. by rewrite on_precommit_at by done. }
  { by apply both_keys_NoDup. }
  { lia. }
  { lia. }
  assert (store_of ws2 = store_of (votes_of VoteStep.Precommit vals ++ votes_of VoteStep.Prevote vals)) as Hs2
    by (apply store_of_perm; [rewrite Hp2; by apply both_keys_NoDup|done]).
  exists (node_at RoundPhase.Decided (Some b) (Some 0) ws2). split; [|split; [done|]].
  - rewrite run_events_app. change (run_events [Event.Proposal b] (ConsensusRound_new height n))
      with (Ok (E := unit) (node_at RoundPhase.Prevote None None [], [RoundAction.BroadcastPrevote b])).
    cbn [mbind outcome_bind]. rewrite run_events_app, Hr1. cbn [mbind outcome_bind].
    unfold node_at at 1. rewrite Hs1. fold (node_at RoundPhase.Precommit (Some b) (Some 0)
      (votes_of VoteStep.Prevote vals)). rewrite Hr2. done.
  - unfold node_at. rewrite Hs2. by apply committed_found.
Qed.
End progress.

(** ** A run of four validators, one of them faulty *)

Section exec.
Context (V byz : gset bytes) (height : N).

#[global] Instance admitted_dec cast v : Decision (admitted V byz height cast v).
Proof. unfold admitted. apply _. Defined.
#[global] Instance deliverable_dec cast e : Decision (deliverable V byz height cast e).
Proof. destruct e; apply _. Defined.

Definition net_exec1 (net : Network) (ie : bytes * Event.t) : option Network :=
  let '(i, e) := ie in
  let '(mkNetwork nodes cast commits) := net in
  c ← nodes !! i;
  if bool_decide (deliverable V byz height cast e) then
    match handle e c with
    | Ok (c', acts) =>
        Some (mkNetwork (<[i := c']> nodes) (cast ++ (acts ≫= cast_by i (cr_round c')))
                (commits ++ (acts ≫= commit_by i)))
    | _ => None
    end
  else None.

Fixpoint net_exec (net : Network) (l : list (bytes * Event.t)) : option Network :=
  match l with
  | [] => Some net
  | ie :: l => net' ← net_exec1 net ie; net_exec net' l
  end.

Lemma net_exec_reachable l net :
  net_exec (net_init V byz height) l = Some net -> net_reachable V byz height net.
Proof.
  unfold net_reachable. generalize (net_init V byz height). induction l as [|[i e] l IH];
    intros n0 Hn; cbn in Hn; [injection Hn as ->; done|].
  destruct n0 as [nodes cast commits]. destruct (nodes !! i) as [c|] eqn:Hi; cbn in Hn; [|done].
  case_bool_decide; [|done]. destruct (handle e c) as [[c' acts]| |] eqn:Hh; cbn in Hn; [|done|done].
  eapply rtc_l; [by econstructor|]. by apply IH.
Qed.
End exec.

Module RoundEx.
Definition va : bytes := [x01].
Definition vb : bytes := [x02].
Definition vc : bytes := [x03].
Definition vd : bytes := [x04].
Definition validators : gset bytes := list_to_set [va; vb; vc; vd].
Definition faulty : gset bytes := {[ vd ]}.
Definition block : bytes := replicate 32 x0a.
Definition other : bytes := replicate 32 x0b.
Definition vote (step : VoteStep.t) (b a : bytes) : ConsensusVote :=
  mkConsensusVote 7 0 step b a [].

(** The faulty validator prevotes two blocks; two correct ones commit [block]. *)
Definition events : list (bytes * Event.t) :=
  ((fun i => (i, Event.Proposal block)) <$> [va; vb; vc])
  ++ [(va, Event.Prevote (vote VoteStep.Prevote other vd));
      (va, Event.Prevote (vote VoteStep.Prevote block vd))]
  ++ (i ← [va; vb; vc]; (fun a => (i, Event.Prevote (vote VoteStep.Prevote block a))) <$> [va; vb; vc])
  ++ (i ← [va; vb]; (fun a => (i, Event.Precommit (vote VoteStep.Precommit block a))) <$> [va; vb; vc]).

Definition net : Network :=
  default (net_init validators faulty 7) (net_exec validators faulty 7
    (net_init validators faulty 7) events).

Lemma net_reached : net_reachable validators faulty 7 net.
Proof.
  apply (net_exec_reachable validators faulty 7 events).
  assert (match net_exec validators faulty 7 (net_init validators faulty 7) events with
          | Some _ => True | None => False end) as Hs by (vm_compute; done).
  unfold net. by destruct (net_exec _ _ _ _ _).
Qed.
End RoundEx.

Lemma round_agreement_witness :
  net_commits RoundEx.net = [(RoundEx.va, RoundEx.block); (RoundEx.vb, RoundEx.block)] /\
  RoundEx.block = RoundEx.block.
Proof.
  assert (net_commits RoundEx.net =
    [(RoundEx.va, RoundEx.block); (RoundEx.vb, RoundEx.block)]) as Hc by by vm_compute.
  split; [done|].
  refine (round_agreement RoundEx.validators RoundEx.faulty 7 _ RoundEx.net RoundEx.va RoundEx.vb
    RoundEx.block RoundEx.block RoundEx.net_reached _ _).
  - by vm_compute.
  - rewrite Hc. left.
  - rewrite Hc. right. left.
Defined.

Lemma round_evidence_is_just_witness :
  exists c e, net_nodes RoundEx.net !! RoundEx.va = Some c /\
    e ∈ vs_equivocations (cr_vote_store c) /\ re_validator_address e ∈ RoundEx.faulty.
Proof.
  assert (match net_nodes RoundEx.net !! RoundEx.va with
          | Some c => match vs_equivocations (cr_vote_store c) with
                      | e :: _ => True | [] => False end
          | None => False end) as Hc by (vm_compute; done).
  pose proof RoundEx.net_reached as Hr. revert Hc Hr. generalize RoundEx.net. intros net Hc Hr.
  destruct (net_nodes net !! RoundEx.va) as [c|] eqn:Hn; [|done].
  destruct (vs_equivocations (cr_vote_store c)) as [|e l] eqn:He; [done|].
  assert (e ∈ vs_equivocations (cr_vote_store c)) as Hin by (rewrite He; left).
  exists c, e. split_and!; [done|done|].
  apply (round_evidence_is_just RoundEx.validators RoundEx.faulty 7 net RoundEx.va c e Hr Hn Hin).
Defined.

Lemma quorum_decides_witness :
  exists c, is_decided c = true /\ committed_block_hash c = Some RoundEx.block.
Proof.
  destruct (quorum_decides 7 4 RoundEx.block ltac:(by vm_compute)
    [RoundEx.va; RoundEx.vb; RoundEx.vc]) as (c & _ & Hd & Hc).
  - apply (bool_decide_unpack _). by vm_compute.
  - by vm_compute.
  - by exists c.
Defined.
