(* ===== verification/Commit.v ===== *)
(** * Commit proofs and vote messages: [pqc-consensus/src/commit.rs],
      [pqc-types/src/consensus_msg.rs].

    A block carries the commit signatures of validators; a policy (a validator set
    and a threshold, normally read off the state) decides whether they suffice. *)

From S2P Require Import Prelude Crypto Types Cbor Payloads Tx FeeMarket Leaves Store StoreInv.
From S2P Require Import ApplyAccounts ApplyValidators Governance Archival ApplyTx Mempool Block.
From S2P Require Import Round.

(** ** [commit.rs] *)

Record CommitValidator := mkCommitValidator {
  cva_node_id : bytes;
  cva_address : bytes;
  cva_sig_alg_id : AlgId.t;
  cva_public_key : bytes
}.

Module CommitPreimageMode.
Inductive t : Set := Legacy | Distributed (round : N).
End CommitPreimageMode.

Record CommitQuorumPolicy := mkCommitQuorumPolicy {
  cqp_validators : list CommitValidator;
  cqp_quorum_threshold : N;
  cqp_preimage_mode : CommitPreimageMode.t;
  cqp_fork_digest : bytes
}.

Global Instance eta_CommitQuorumPolicy : Settable CommitQuorumPolicy := fun x =>
  mkCommitQuorumPolicy (cqp_validators x) (cqp_quorum_threshold x) (cqp_preimage_mode x)
    (cqp_fork_digest x).

Module CommitValidationError.
Inductive t : Type :=
  | EmptyValidatorSet
  | InvalidQuorumThreshold (quorum_threshold validator_count : N)
  | DuplicateValidatorConfig (validator_address : bytes)
  | MissingCommitSignatures
  | UnauthorizedSigner (validator_address : bytes)
  | DuplicateSigner (validator_address : bytes)
  | InvalidSignature (validator_address : bytes)
  | InsufficientQuorum (required got : N).
End CommitValidationError.

(** The loop with the set of addresses seen: [if !seen.insert(x) return Err]. *)
Definition insert_new {E} (e : bytes -> E) (seen : gset bytes) (x : bytes)
    : outcome E (gset bytes) :=
  if bool_decide (x ∈ seen) then Err (e x) else Ok ({[ x ]} ∪ seen).

Section commit.
Context `{Shake}.

Definition CommitQuorumPolicy_new (validators : list CommitValidator)
    (quorum_threshold : option N) : outcome CommitValidationError.t CommitQuorumPolicy :=
  ensure (negb (bool_decide (validators = []))) CommitValidationError.EmptyValidatorSet ;;
  foldM (insert_new CommitValidationError.DuplicateValidatorConfig) ∅ (cva_address <$> validators) ;;
  let validator_count := len validators in
  let quorum_threshold := default (quorum_size validator_count) quorum_threshold in
  ensure (negb ((quorum_threshold =? 0) || (validator_count <? quorum_threshold)))
    (CommitValidationError.InvalidQuorumThreshold quorum_threshold validator_count) ;;
  Ok (mkCommitQuorumPolicy validators quorum_threshold CommitPreimageMode.Legacy viper_research_1).

Definition with_fork_digest (fork_digest : bytes) (p : CommitQuorumPolicy) : CommitQuorumPolicy :=
  p <| cqp_fork_digest := fork_digest |>.
Definition with_distributed_preimage (round : N) (p : CommitQuorumPolicy) : CommitQuorumPolicy :=
  p <| cqp_preimage_mode := CommitPreimageMode.Distributed round |>.

Definition validator_by_address (p : CommitQuorumPolicy) (address : bytes)
    : option CommitValidator :=
  snd <$> list_find (fun v => cva_address v = address) (cqp_validators p).

Definition commit_validator_of (record : ValidatorRecord) : CommitValidator :=
  mkCommitValidator (val_node_id record) (val_operator record) (val_consensus_alg_id record)
    (val_consensus_pk record).

Definition from_state_store (store : StateStore) (quorum_threshold : option N)
    : outcome CommitValidationError.t (option CommitQuorumPolicy) :=
  match active_validators store with
  | [] => Ok None
  | active =>
      policy ← CommitQuorumPolicy_new (commit_validator_of <$> active) quorum_threshold;
      Ok (Some policy)
  end.

Definition LEGACY_COMMIT_DOMAIN_TAG : bytes := bstr "PQC-COMMIT-V1".

Definition commit_preimage (fork_digest : bytes) (height : N) (block_hash : bytes) : bytes :=
  tagged_hash LEGACY_COMMIT_DOMAIN_TAG (fork_digest ++ be_bytes 8 height ++ block_hash).

Definition commit_preimage_for_mode (fork_digest : bytes) (mode : CommitPreimageMode.t)
    (height : N) (block_hash : bytes) : bytes :=
  match mode with
  | CommitPreimageMode.Legacy => commit_preimage fork_digest height block_hash
  | CommitPreimageMode.Distributed round =>
      vote_preimage fork_digest height round VoteStep.Precommit block_hash
  end.

Context `{Verifier}.

(** [MlDsaVerifier::verify]: the ML-DSA part of the node's verifier. *)
Definition is_ml_dsa (a : AlgId.t) : bool :=
  match a with AlgId.MlDsa44 | AlgId.MlDsa65 | AlgId.MlDsa87 => true | _ => false end.

Definition ml_dsa_verify (pk_alg : AlgId.t) (pk : bytes) (preimage : bytes) (sig_alg : AlgId.t)
    (sig : bytes) : bool :=
  bool_decide (pk_alg = sig_alg) && is_ml_dsa sig_alg && verify sig_alg pk preimage sig.

(** The preimage one commit signature is checked against. *)
Definition commit_sig_preimage (p : CommitQuorumPolicy) (height : N) (block_hash : bytes)
    (commit : CommitSig) : bytes :=
  match cqp_preimage_mode p with
  | CommitPreimageMode.Legacy => commit_preimage (cqp_fork_digest p) height block_hash
  | CommitPreimageMode.Distributed _ =>
      vote_preimage (cqp_fork_digest p) height (cs_round commit) VoteStep.Precommit block_hash
  end.

(** The loop body: the signers seen and the number of valid commits. *)
Definition check_commit_sig (p : CommitQuorumPolicy) (height : N) (block_hash : bytes)
    (acc : gset bytes * N) (commit : CommitSig) : outcome CommitValidationError.t (gset bytes * N) :=
  let '(unique_signers, valid_commits) := acc in
  let signer := cs_validator_address commit in
  unique_signers ← insert_new CommitValidationError.DuplicateSigner unique_signers signer;
  validator ← ok_or (validator_by_address p signer)
    (CommitValidationError.UnauthorizedSigner signer);
  ensure (ml_dsa_verify (cva_sig_alg_id validator) (cva_public_key validator)
            (commit_sig_preimage p height block_hash commit)
            (cs_sig_alg_id commit) (cs_signature commit))
    (CommitValidationError.InvalidSignature signer) ;;
  Ok (unique_signers, valid_commits + 1).

Definition validate_block_commit_quorum (b : Block) (p : CommitQuorumPolicy)
    : outcome CommitValidationError.t unit :=
  ensure (negb (bool_decide (blk_commit_signatures b = [])))
    CommitValidationError.MissingCommitSignatures ;;
  '(_, valid_commits) ←
    foldM (check_commit_sig p (bh_height (blk_header b)) (compute_block_hash b)) (∅, 0)
      (blk_commit_signatures b);
  ensure (cqp_quorum_threshold p <=? valid_commits)
    (CommitValidationError.InsufficientQuorum (cqp_quorum_threshold p) valid_commits).
End commit.

(** ** [consensus_msg.rs] *)

Definition MSG_TYPE_PREVOTE : N := 0xC2.
Definition MSG_TYPE_PRECOMMIT : N := 0xC3.

Record SignedVote := mkSignedVote {
  sv_msg_type : N;
  sv_height : N;
  sv_round : N;
  sv_block_hash : bytes;
  sv_validator_address : bytes;
  sv_signature : bytes
}.

Module SignedVoteDecodeError.
Inductive t : Type :=
  | InvalidFormat
  | MissingField (k : N)
  | InvalidField (k : N)
  | InvalidMsgType (v : N).
End SignedVoteDecodeError.

Definition encode_signed_vote (vote : SignedVote) : Value.t :=
  Value.Map
    [ (Value_uint 1, Value_uint (sv_msg_type vote));
      (Value_uint 2, Value_uint (sv_height vote));
      (Value_uint 3, Value_uint (sv_round vote));
      (Value_uint 4, Value.Bytes (sv_block_hash vote));
      (Value_uint 5, Value.Bytes (sv_validator_address vote));
      (Value_uint 6, Value.Bytes (sv_signature vote)) ].

Record SignedVoteFields := mkSignedVoteFields {
  svf_msg_type : option N;
  svf_height : option N;
  svf_round : option N;
  svf_block_hash : option bytes;
  svf_validator_address : option bytes;
  svf_signature : option bytes
}.

Global Instance eta_SignedVoteFields : Settable SignedVoteFields := fun x =>
  mkSignedVoteFields (svf_msg_type x) (svf_height x) (svf_round x) (svf_block_hash x)
    (svf_validator_address x) (svf_signature x).

(** One arm of the [match key_i]; a key outside the range of [i64] is malformed, as
    is an unknown one. *)
Definition signed_vote_field (f : SignedVoteFields) (key : Z) (v : Value.t)
    : outcome SignedVoteDecodeError.t SignedVoteFields :=
  let bad k := SignedVoteDecodeError.InvalidField k in
  match key with
  | 1%Z =>
      byte ← expect_uint (bad 1) u8_max v;
      ensure ((byte =? MSG_TYPE_PREVOTE) || (byte =? MSG_TYPE_PRECOMMIT))
        (SignedVoteDecodeError.InvalidMsgType byte) ;;
      Ok (f <| svf_msg_type := Some byte |>)
  | 2%Z => n ← expect_uint (bad 2) u64_max v; Ok (f <| svf_height := Some n |>)
  | 3%Z => n ← expect_uint (bad 3) u32_max v; Ok (f <| svf_round := Some n |>)
  | 4%Z => b ← expect_bytes_n (bad 4) (bad 4) 32 v; Ok (f <| svf_block_hash := Some b |>)
  | 5%Z => b ← expect_bytes_n (bad 5) (bad 5) 32 v; Ok (f <| svf_validator_address := Some b |>)
  | 6%Z => b ← expect_bytes (bad 6) v; Ok (f <| svf_signature := Some b |>)
  | _ => Err SignedVoteDecodeError.InvalidFormat
  end.

Section consensus_msg.
Context `{Ciborium}.

Definition encode_signed_vote_bytes (vote : SignedVote) : bytes :=
  into_writer (encode_signed_vote vote).

Definition decode_signed_vote (payload : bytes) : outcome SignedVoteDecodeError.t SignedVote :=
  value ← ok_or (from_reader payload) SignedVoteDecodeError.InvalidFormat;
  map ← expect_map SignedVoteDecodeError.InvalidFormat value;
  f ← decode_fields SignedVoteDecodeError.InvalidFormat signed_vote_field
        (mkSignedVoteFields None None None None None None) map;
  let missing k := SignedVoteDecodeError.MissingField k in
  msg_type ← ok_or (svf_msg_type f) (missing 1);
  height ← ok_or (svf_height f) (missing 2);
  round ← ok_or (svf_round f) (missing 3);
  block_hash ← ok_or (svf_block_hash f) (missing 4);
  validator_address ← ok_or (svf_validator_address f) (missing 5);
  signature ← ok_or (svf_signature f) (missing 6);
  Ok (mkSignedVote msg_type height round block_hash validator_address signature).
End consensus_msg.
