(* ===== verification/CommitProps.v ===== *)
(** * What a commit proof shows.

    A block that passes [validate_block_commit_quorum] carries verified signatures
    of a quorum of distinct validators; the policy read off the state always
    exists; vote messages round-trip and their preimage binds what is voted on. *)

From S2P Require Import Prelude Crypto Types Cbor Payloads Tx FeeMarket Leaves Store StoreInv.
From S2P Require Import ApplyAccounts ApplyValidators Governance Archival ApplyTx Mempool Block.
From S2P Require Import StateRoot Invariants Examples Round RoundProps Commit.

(** ** Distinct addresses *)

Lemma insert_new_Ok {E} (e : bytes -> E) seen x seen' :
  insert_new e seen x = Ok seen' -> x ∉ seen /\ seen' = {[ x ]} ∪ seen.
Proof. unfold insert_new. case_bool_decide; [done|]. by intros [= <-]. Qed.

Lemma insert_new_loop {E} (e : bytes -> E) l seen :
  NoDup l -> (forall x, x ∈ l -> x ∉ seen) ->
  foldM (insert_new e) seen l = Ok (list_to_set l ∪ seen).
Proof.
  revert seen. induction l as [|x l IH]; intros seen Hnd Hs; cbn [foldM].
  { f_equal. set_solver. }
  apply NoDup_cons in Hnd as [Hx Hnd].
  assert (insert_new e seen x = Ok ({[ x ]} ∪ seen)) as ->.
  { unfold insert_new. rewrite bool_decide_false by (apply Hs; left). done. }
  cbn [mbind outcome_bind].
  rewrite IH; [f_equal; set_solver|done|]. intros y Hy [Heq%elem_of_singleton|?]%elem_of_union; [by subst|].
  apply (Hs y); [by right|done].
Qed.

(** ** The policy of a state *)

Section policy.
Context `{Shake}.

Lemma active_validators_elem s v :
  store_ok s -> v ∈ active_validators s ->
  get_validator s (val_operator v) = Some v /\ val_status v = ValidatorStatus.Active /\
  len (val_operator v) = 32.
Proof.
  intros Hs [Hst Hv]%list_elem_of_filter.
  apply list_elem_of_fmap in Hv as ([k w] & -> & Hw). unfold sorted_entries in Hw.
  rewrite merge_sort_Permutation in Hw. apply elem_of_map_to_list in Hw. cbn in *.
  destruct (ok_validators _ Hs) as [_ Hk]. destruct (Hk _ _ Hw) as [Hk1 Hk2].
  cbn in Hk1. subst k. unfold get_validator, len. split_and!; [done|done|]. by rewrite Hk2.
Qed.

Lemma active_operators_NoDup s : store_ok s -> NoDup (val_operator <$> active_validators s).
Proof.
  intros Hs. apply NoDup_fmap_2_strong.
  - intros v w [Hv _]%active_validators_elem [Hw _]%active_validators_elem Heq; try done.
    congruence.
  - apply NoDup_filter, NoDup_fmap_2_strong.
    + intros [k v] [k' v'] Hv Hv'. unfold sorted_entries in Hv, Hv'.
      rewrite merge_sort_Permutation in Hv, Hv'. apply elem_of_map_to_list in Hv, Hv'. cbn.
      intros <-. destruct (ok_validators _ Hs) as [_ Hk].
      destruct (Hk _ _ Hv) as [<- _], (Hk _ _ Hv') as [<- _]. done.
    + unfold sorted_entries. rewrite merge_sort_Permutation. apply NoDup_map_to_list.
Qed.

(** The policy of a state: its active validators and the default quorum. *)
Definition state_policy (s : StateStore) : CommitQuorumPolicy :=
  mkCommitQuorumPolicy (commit_validator_of <$> active_validators s)
    (quorum_size (active_validator_count s)) CommitPreimageMode.Legacy viper_research_1.

Lemma from_state_store_eq s :
  store_ok s -> from_state_store s None =
    Ok (if bool_decide (active_validators s = []) then None else Some (state_policy s)).
Proof.
  intros Hs. pose proof (active_operators_NoDup s Hs) as Hnd.
  unfold from_state_store, state_policy, active_validator_count.
  destruct (active_validators s) as [|v l] eqn:Hl; [done|].
  unfold CommitQuorumPolicy_new. rewrite <-list_fmap_compose.
  rewrite (bool_decide_false (_ = [])) by done. cbn [negb ensure mbind outcome_bind].
  rewrite insert_new_loop by (done || set_solver). cbn [mbind outcome_bind default].
  assert (len (commit_validator_of <$> v :: l) = len (v :: l)) as ->
    by (unfold len; by rewrite length_fmap).
  pose proof (quorum_size_bounds (len (v :: l))).
  assert (1 <= len (v :: l)) by (unfold len; cbn [length]; lia).
  destruct (N.eqb_spec (quorum_size (len (v :: l))) 0); [lia|].
  destruct (N.ltb_spec (len (v :: l)) (quorum_size (len (v :: l)))); [lia|].
  cbn [orb negb ensure mbind outcome_bind]. by rewrite bool_decide_false.
Qed.

Lemma state_policy_validator s a cv :
  store_ok s -> validator_by_address (state_policy s) a = Some cv ->
  exists v, get_validator s a = Some v /\ val_status v = ValidatorStatus.Active /\
    cv = commit_validator_of v /\ len a = 32.
Proof.
  intros Hs. unfold validator_by_address, state_policy. cbn [cqp_validators].
  destruct (list_find _ _) as [[i w]|] eqn:Hf; [|done]. cbn. intros [= <-].
  apply list_find_Some in Hf as (Hi & <- & _).
  apply list_elem_of_lookup_2, list_elem_of_fmap in Hi as (v & -> & Hv).
  destruct (active_validators_elem s v Hs Hv) as (? & ? & ?). exists v. done.
Qed.
End policy.

(** ** A valid commit proof *)

Section commit_proof.
Context `{Shake, Verifier}.

Definition sig_addresses (b : Block) : list bytes := cs_validator_address <$> blk_commit_signatures b.

(** What [validate_block_commit_quorum] has checked of one signature. *)
Definition sig_checked (p : CommitQuorumPolicy) (b : Block) (c : CommitSig) : Prop :=
  exists v, validator_by_address p (cs_validator_address c) = Some v /\
    ml_dsa_verify (cva_sig_alg_id v) (cva_public_key v)
      (commit_sig_preimage p (bh_height (blk_header b)) (compute_block_hash b) c)
      (cs_sig_alg_id c) (cs_signature c) = true.

Lemma check_commit_sig_loop p h hash l seen n seen' n' :
  foldM (check_commit_sig p h hash) (seen, n) l = Ok (seen', n') ->
  NoDup (cs_validator_address <$> l) /\ (forall c, c ∈ l -> cs_validator_address c ∉ seen) /\
  n' = n + len l /\
  forall c, c ∈ l -> exists v, validator_by_address p (cs_validator_address c) = Some v /\
    ml_dsa_verify (cva_sig_alg_id v) (cva_public_key v) (commit_sig_preimage p h hash c)
      (cs_sig_alg_id c) (cs_signature c) = true.
Proof.
  revert seen n. induction l as [|c l IH]; intros seen n; cbn [foldM].
  { intros [= <- <-]. split_and!; [constructor|set_solver|unfold len; cbn; lia|set_solver]. }
  intros (acc & Hc & Hr)%bind_Ok. unfold check_commit_sig in Hc. run_inv.
  revert select (insert_new _ _ _ = _). intros [Hc ->]%insert_new_Ok. apply IH in Hr as (Hnd & Hs & -> & Hv).
  rewrite fmap_cons. split_and!.
  - constructor; [|done]. intros (d & Hd & Hin)%list_elem_of_fmap. apply (Hs d Hin). set_solver.
  - intros d [->|Hd]%elem_of_cons; [done|]. specialize (Hs d Hd). set_solver.
  - unfold len. cbn [length]. lia.
  - intros d [->|Hd]%elem_of_cons; eauto.
Qed.

Lemma validate_commit_Ok b p :
  validate_block_commit_quorum b p = Ok tt ->
  NoDup (sig_addresses b) /\ cqp_quorum_threshold p <= len (blk_commit_signatures b) /\
  forall c, c ∈ blk_commit_signatures b -> sig_checked p b c.
Proof.
  unfold validate_block_commit_quorum. intros Hr. run_inv. destruct x0 as [seen n]. run_inv.
  apply check_commit_sig_loop in H2 as (Hnd & _ & -> & Hv). split_and!; [done|lia|done].
Qed.

Lemma check_commit_sig_intro p h hash l seen n :
  NoDup (cs_validator_address <$> l) -> (forall c, c ∈ l -> cs_validator_address c ∉ seen) ->
  (forall c, c ∈ l -> exists v, validator_by_address p (cs_validator_address c) = Some v /\
    ml_dsa_verify (cva_sig_alg_id v) (cva_public_key v) (commit_sig_preimage p h hash c)
      (cs_sig_alg_id c) (cs_signature c) = true) ->
  exists seen', foldM (check_commit_sig p h hash) (seen, n) l = Ok (seen', n + len l).
Proof.
  revert seen n. induction l as [|c l IH]; intros seen n Hnd Hs Hv; cbn [foldM].
  { exists seen. unfold len. cbn. by rewrite N.add_0_r. }
  rewrite fmap_cons in Hnd. apply NoDup_cons in Hnd as [Hc Hnd].
  destruct (Hv c ltac:(left)) as (v & Hg & Hm).
  assert (check_commit_sig p h hash (seen, n) c =
    Ok ({[ cs_validator_address c ]} ∪ seen, n + 1)) as ->.
  { unfold check_commit_sig, insert_new. case_bool_decide as Hin; [by apply Hs in Hin; [|left]|].
    cbn [mbind outcome_bind]. rewrite Hg. cbn [ok_or mbind outcome_bind]. by rewrite Hm. }
  cbn [mbind outcome_bind].
  destruct (IH ({[ cs_validator_address c ]} ∪ seen) (n + 1)) as [seen' Hf]; [done| | |].
  - intros d Hd [Heq%elem_of_singleton|Hin]%elem_of_union.
    + apply Hc. rewrite <-Heq. by apply list_elem_of_fmap_2.
    + apply (Hs d); [by right|done].
  - intros d Hd. apply Hv. by right.
  - exists seen'. rewrite Hf. f_equal. f_equal. unfold len. cbn [length]. lia.
Qed.

(** The check accepts exactly the quorums of verified signatures of distinct validators. *)
Lemma validate_commit_iff b p :
  0 < cqp_quorum_threshold p ->
  validate_block_commit_quorum b p = Ok tt <->
  NoDup (sig_addresses b) /\ cqp_quorum_threshold p <= len (blk_commit_signatures b) /\
  forall c, c ∈ blk_commit_signatures b -> sig_checked p b c.
Proof.
  intros Hp. split; [apply validate_commit_Ok|]. intros (Hnd & Hq & Hv).
  unfold validate_block_commit_quorum. rewrite bool_decide_false.
  2: { intros Hnil. rewrite Hnil in Hq. unfold len in Hq. cbn in Hq. lia. }
  destruct (check_commit_sig_intro p (bh_height (blk_header b)) (compute_block_hash b)
    (blk_commit_signatures b) ∅ 0) as [seen ->]; [done|set_solver|done|].
  cbn [negb ensure mbind outcome_bind]. by rewrite (proj2 (N.leb_le _ _)) by lia.
Qed.

(** The active validators whose commit signatures the check can accept. *)
Definition ml_dsa_active (s : StateStore) : list ValidatorRecord :=
  filter (fun v => is_ml_dsa (val_consensus_alg_id v) = true) (active_validators s).

(** Registration accepts an SLH-DSA consensus key, but the commit check only verifies
    ML-DSA: when the active validators with ML-DSA keys are fewer than a quorum of all
    active ones, no block passes the check, whatever signatures it carries and in
    either preimage mode. *)
Lemma slh_dsa_validators_stall_commits s b mode :
  store_ok s -> len (ml_dsa_active s) < quorum_size (active_validator_count s) ->
  AlgId.allowed_for_consensus AlgId.SlhDsaShake192s = true /\
  validate_block_commit_quorum b ((state_policy s) <| cqp_preimage_mode := mode |>) <> Ok tt.
Proof.
  intros Hs Hlt. split; [done|]. intros (Hnd & Hq & Hv)%validate_commit_Ok.
  assert (sig_addresses b ⊆ (val_operator <$> ml_dsa_active s)) as Hsub.
  { intros a (c & -> & Hc)%list_elem_of_fmap. destruct (Hv c Hc) as (cv & Hg & Hm).
    unfold validator_by_address in Hg. cbn [cqp_validators state_policy] in Hg.
    destruct (list_find _ _) as [[i w]|] eqn:Hf; [|done]. cbn in Hg. injection Hg as ->.
    apply list_find_Some in Hf as (Hi & <- & _).
    apply list_elem_of_lookup_2, list_elem_of_fmap in Hi as (v & -> & Hin).
    apply list_elem_of_fmap. exists v. split; [done|]. apply list_elem_of_filter. split; [|done].
    unfold ml_dsa_verify in Hm. bool_hyps. cbn in *. congruence. }
  apply NoDup_submseteq in Hsub; [|done]. apply submseteq_length in Hsub.
  unfold sig_addresses in Hsub. rewrite !length_fmap in Hsub.
  unfold len in *. cbn [cqp_quorum_threshold state_policy] in Hq. cbn in Hq. lia.
Qed.
End commit_proof.

(** ** Vote messages *)

Definition vote_type_wf (t : N) : Prop := t = MSG_TYPE_PREVOTE \/ t = MSG_TYPE_PRECOMMIT.

Definition signed_vote_wf (v : SignedVote) : Prop :=
  vote_type_wf (sv_msg_type v) /\ sv_height v <= u64_max /\ sv_round v <= u32_max /\
  len (sv_block_hash v) = 32 /\ len (sv_validator_address v) = 32.

Definition vote_fields_wf (f : SignedVoteFields) : Prop :=
  opt_wf vote_type_wf (svf_msg_type f) /\ opt_wf (fun x => x <= u64_max) (svf_height f) /\
  opt_wf (fun x => x <= u32_max) (svf_round f) /\ opt_wf (fun x => len x = 32) (svf_block_hash f) /\
  opt_wf (fun x => len x = 32) (svf_validator_address f).

Lemma signed_vote_field_wf f key v f' :
  vote_fields_wf f -> signed_vote_field f key v = Ok f' -> vote_fields_wf f'.
Proof.
  intros (? & ? & ? & ? & ?) Hf. unfold signed_vote_field in Hf. destruct key as [|p|p]; [done| |done].
  unfold vote_fields_wf. fields_step; cbn; split_and!; eauto with viper.
  apply opt_wf_Some. revert select (_ || _ = true). intros [?|?]%orb_true_iff; bool_hyps; [by left|by right].
Qed.

Lemma decode_fields_cons {E A} (e : E) field (init : A) k v rest :
  decode_fields e field init ((Value_uint k, v) :: rest) =
  (key ← int_key e (Value_uint k); acc ← field init key v; decode_fields e field acc rest).
Proof. unfold decode_fields. cbn [foldM fst snd]. by destruct (int_key _ _). Qed.

Ltac vote_cbn := cbn -[expect_uint expect_bytes_n decode_fields Value_uint].
Ltac vote_entry :=
  rewrite decode_fields_cons;
  match goal with |- context [int_key ?e (Value_uint ?k)] =>
    change (int_key e (Value_uint k)) with (Ok (E := SignedVoteDecodeError.t) (Z.of_N k)) end;
  vote_cbn; rewrite ?expect_uint_of_N, ?expect_bytes_n_Bytes by (done || lia); vote_cbn.

Section vote_codec.
Context `{Ciborium}.

Lemma decode_signed_vote_wf payload v : decode_signed_vote payload = Ok v -> signed_vote_wf v.
Proof.
  unfold decode_signed_vote. intros Hd. run_inv.
  revert select (decode_fields _ _ _ _ = Ok _). intros Hf.
  eapply (foldM_invariant _ vote_fields_wf) in Hf.
  - destruct Hf as (? & ? & ? & ? & ?). unfold signed_vote_wf. cbn. auto 10.
  - intros f [k w] f' _ Hwf Hs. run_inv. by eapply signed_vote_field_wf.
  - unfold vote_fields_wf. cbn. eauto 10 with viper.
Qed.

(** The wire format of votes: an encoded vote decodes to itself exactly when its
    type is one of the two vote types, its height and round fit their widths and its
    hash and address have 32 bytes, and no other vote is ever the result of decoding,
    from any bytes. *)
Lemma signed_vote_codec v :
  cbor_roundtrips (encode_signed_vote v) ->
  (decode_signed_vote (encode_signed_vote_bytes v) = Ok v <-> signed_vote_wf v) /\
  forall payload w, decode_signed_vote payload = Ok w -> signed_vote_wf w.
Proof.
  intros Hc. split; [split; [apply decode_signed_vote_wf|]|apply decode_signed_vote_wf].
  intros (Ht & Hh & Hr & Hb & Ha). unfold decode_signed_vote, encode_signed_vote_bytes.
  unfold cbor_roundtrips in Hc. rewrite Hc. destruct v as [t h r b a g]; cbn in Ht, Hh, Hr, Hb, Ha.
  vote_cbn. destruct Ht as [-> | ->]; do 6 vote_entry; done.
Qed.
End vote_codec.

(** ** Example: one of two active validators with an SLH-DSA key *)

#[local] Existing Instance example_shake.
#[local] Existing Instance example_verifier.

Module SlhEx.
Definition bob : ValidatorRecord :=
  mkValidatorRecord Ex.bob (bstr "node") AlgId.SlhDsaShake192s [x2b] 300 ValidatorStatus.Active 0 false.
Definition state : StateStore := insert_validator bob Ex.genesis.
Definition block : Block :=
  mkBlock (mkBlockHeader 1 1 (replicate 32 x00) (replicate 32 x00) (replicate 32 x00) 0 Ex.alice
    (replicate 32 x00)) [] [mkCommitSig Ex.bob AlgId.SlhDsaShake192s 0 []].

Lemma state_ok : store_ok state.
Proof.
  apply ci_store, (set_validator_inv Ex.bob bob); [done|done|by vm_compute; eexists|].
  apply Ex.genesis_inv.
Qed.
End SlhEx.

Lemma slh_dsa_validators_stall_commits_witness :
  AlgId.allowed_for_consensus AlgId.SlhDsaShake192s = true /\
  validate_block_commit_quorum SlhEx.block
    ((state_policy SlhEx.state) <| cqp_preimage_mode := CommitPreimageMode.Legacy |>) <> Ok tt.
Proof.
  refine (slh_dsa_validators_stall_commits SlhEx.state SlhEx.block CommitPreimageMode.Legacy
    SlhEx.state_ok _). by vm_compute.
Defined.

Lemma signed_vote_codec_witness :
  let v := mkSignedVote MSG_TYPE_PRECOMMIT 7 0 (replicate 32 x0a) Ex.alice [x01] in
  let cbor := example_cbor (encode_signed_vote v) in
  (decode_signed_vote (encode_signed_vote_bytes v) = Ok v <-> signed_vote_wf v) /\
  forall payload w, decode_signed_vote payload = Ok w -> signed_vote_wf w.
Proof. intros v cbor. apply (signed_vote_codec v). reflexivity. Defined.
