(* ===== verification/Records.v ===== *)
(** * The persisted records: [pqc-consensus/src/storage.rs].

    What both block stores write: a stored block and a state snapshot as flat
    records, and the conversions from and to the types of the node.  The [serde]
    derivations and [ciborium] turn a record into bytes; they are the parameter
    [Serde], without a law.  [usize] has 64 bits, so the casts between it and [u64]
    change nothing. *)

From S2P Require Import Prelude Crypto Types Cbor Payloads Tx FeeMarket Leaves Store StoreInv.
From S2P Require Import ApplyAccounts ApplyValidators Governance Archival ApplyTx Mempool Block Chain.
From S2P Require Import Recovery Commit.

#[local] Open Scope string_scope.
#[local] Open Scope N_scope.

(** [ciborium::into_writer] and [ciborium::from_reader] at one record type. *)
Class Serde (R : Type) := {
  to_cbor : R -> option bytes;
  of_cbor : bytes -> option R
}.

(** What was written is read back. *)
Class SerdeLaws (R : Type) `{!Serde R} : Prop :=
  of_to_cbor : forall (r : R) b, to_cbor r = Some b -> of_cbor b = Some r.

Definition STATE_FORMAT_VERSION : N := 3.

Module StorageError.
Inductive t : Type :=
  | Io
  | Encode
  | Decode
  | Chain (e : ChainError.t)
  | Commit (e : CommitValidationError.t)
  | Replay (e : ReplayError.t)
  | IncompleteWriteDetected
  | TipMissingWithExistingData
  | MissingBlockFile (height : N)
  | UnexpectedBlockFile (name : bytes)
  | MissingHashIndex (hash : bytes)
  | UnexpectedHashIndex (name : bytes)
  | HashIndexMismatch (hash : bytes) (expected_height got_height : N)
  | TipHeightMismatch (expected got : N)
  | TipHashMismatch (expected got : bytes)
  | InvalidPersistedValue (detail : string)
  | ChainIdMismatch (expected got : bytes)
  | InvalidPersistedAlgId (raw : N)
  | RocksDb
  | TxEncodeFailed (height tx_index : N) (source : TxError.t)
  | TxDecodeFailed (height tx_index : N) (source : TxError.t)
  | TxBodyHashMismatch (height tx_index : N) (expected got : TxHash)
  | CheckpointHeightMismatch (expected got : N)
  | CheckpointTipHashMismatch (expected got : bytes)
  | CheckpointStateRootMismatch (expected got : bytes)
  | CheckpointRegistryMismatch (detail : string)
  | InvalidSnapshot (detail : string)
  | InvalidPruneCutoff (detail : string)
  | StateFormatUpgradeRequired (disk_version binary_version : N)
  | BinaryTooOld (disk_version binary_version : N)
  | MigrationFailed.
End StorageError.

(** ** Stored blocks *)

Record CommitSigRecord := mkCommitSigRecord {
  csr_validator_address : bytes;
  csr_sig_alg_id : N;
  csr_signature : bytes;
  csr_round : N
}.

Record BlockHeaderRecord := mkBlockHeaderRecord {
  bhr_header_version : N;
  bhr_height : N;
  bhr_prev_hash : bytes;
  bhr_state_root : bytes;
  bhr_tx_root : bytes;
  bhr_timestamp : N;
  bhr_proposer : bytes;
  bhr_commit_signatures : list CommitSigRecord;
  bhr_extension_root : bytes
}.

(** [BlockMetadataRecord] has the fields of [BlockMetadata], as [u64]. *)
Abbreviation BlockMetadataRecord := BlockMetadata.

Record StoredBlockRecord := mkStoredBlockRecord {
  sbr_header : BlockHeaderRecord;
  sbr_tx_hashes : list bytes;
  sbr_tx_bodies : list bytes;
  sbr_metadata : BlockMetadataRecord
}.

Section block_records.
Context `{Ciborium, Shake}.

Definition commit_sig_into_record (sig : CommitSig) : CommitSigRecord :=
  mkCommitSigRecord (cs_validator_address sig) (AlgId.as_u16 (cs_sig_alg_id sig))
    (cs_signature sig) (cs_round sig).

Definition stored_block_into_record (stored : StoredBlock)
    : outcome StorageError.t StoredBlockRecord :=
  let '(mkStoredBlock b m txs) := stored in
  let header := blk_header b in
  tx_bodies ← collect_at (fun tx_index tx =>
      map_err (StorageError.TxEncodeFailed (md_height m) tx_index) (encode_tx tx)) 0 txs;
  Ok (mkStoredBlockRecord
        (mkBlockHeaderRecord (bh_header_version header) (bh_height header) (bh_prev_hash header)
           (bh_state_root header) (bh_tx_root header) (bh_timestamp header) (bh_proposer header)
           (commit_sig_into_record <$> blk_commit_signatures b) (bh_extension_root header))
        (blk_tx_hashes b) tx_bodies m).

(** The body of one transaction, checked against its hash. *)
Definition check_tx_body (expected_height tx_index : N) (body : bytes * TxHash)
    : outcome StorageError.t Transaction :=
  let '(raw, expected_hash) := body in
  let actual_hash := compute_tx_hash raw in
  ensure (bool_decide (actual_hash = expected_hash))
    (StorageError.TxBodyHashMismatch expected_height tx_index expected_hash actual_hash) ;;
  map_err (StorageError.TxDecodeFailed expected_height tx_index) (decode_tx raw).

Definition record_into_commit_sig (sig : CommitSigRecord) : outcome StorageError.t CommitSig :=
  sig_alg_id ← ok_or (AlgId.from_u16 (csr_sig_alg_id sig))
    (StorageError.InvalidPersistedAlgId (csr_sig_alg_id sig));
  Ok (mkCommitSig (csr_validator_address sig) sig_alg_id (csr_round sig) (csr_signature sig)).

Definition record_into_stored_block (record : StoredBlockRecord) (expected_height : N)
    : outcome StorageError.t StoredBlock :=
  let '(mkStoredBlockRecord header tx_hashes tx_bodies metadata) := record in
  ensure (len tx_hashes =? len tx_bodies)
    (StorageError.InvalidPersistedValue "tx_hashes and tx_bodies length mismatch") ;;
  included_transactions ← collect_at (check_tx_body expected_height) 0 (zip tx_bodies tx_hashes);
  commit_signatures ← collect record_into_commit_sig (bhr_commit_signatures header);
  Ok (mkStoredBlock
        (mkBlock
           (mkBlockHeader (bhr_header_version header) (bhr_height header) (bhr_prev_hash header)
              (bhr_state_root header) (bhr_tx_root header) (bhr_timestamp header)
              (bhr_proposer header) (bhr_extension_root header))
           tx_hashes commit_signatures)
        metadata included_transactions).

Context `{!Serde StoredBlockRecord}.

Definition encode_stored_block_bytes (stored : StoredBlock) : outcome StorageError.t bytes :=
  record ← stored_block_into_record stored;
  ok_or (to_cbor record) StorageError.Encode.

Definition decode_cbor_slice {R} `{Serde R} (b : bytes) : outcome StorageError.t R :=
  ok_or (of_cbor b) StorageError.Decode.

(** The height of the metadata only labels the errors. *)
Definition decode_block_bytes (b : bytes) : outcome StorageError.t StoredBlock :=
  record ← decode_cbor_slice b;
  record_into_stored_block record (md_height (sbr_metadata record)).
End block_records.

(** ** State snapshots *)

Record KeyRecord := mkKeyRecord {
  kr_alg_id : N;
  kr_pk_bytes : bytes;
  kr_key_version : N;
  kr_valid_from_height : N;
  kr_status : N;
  kr_allowed_tx_types : N
}.

Record AccountRecord := mkAccountRecord {
  acr_address : bytes;
  acr_balance : N;
  acr_nonce : N;
  acr_keys : list KeyRecord
}.

Record AlgRegistryRecord := mkAlgRegistryRecord {
  arr_alg_id : N;
  arr_spec_ref : bytes;
  arr_pk_size : N;
  arr_sig_size : N;
  arr_sig_class : option N;
  arr_min_fee : N;
  arr_lifecycle : N;
  arr_benchmark_verify_per_sec : N
}.

Record GovernanceReceiptRecord := mkGovernanceReceiptRecord {
  grr_proposal_id : bytes;
  grr_proposal_type : N;
  grr_proposer : bytes;
  grr_target_alg_id : N;
  grr_lifecycle_before : N;
  grr_lifecycle_after : N;
  grr_min_fee_before : N;
  grr_min_fee_after : N;
  grr_rationale_hash : bytes;
  grr_executed_at_height : N
}.

(** [AttestationRevocationRecord] has the fields of [AttestationRevocation]. *)
Record AttestationRecord := mkAttestationRecord {
  atr_attestation_id : bytes;
  atr_attester : bytes;
  atr_subject : bytes;
  atr_attestation_type : N;
  atr_content_hash : bytes;
  atr_schema_id : bytes;
  atr_metadata_hash : option bytes;
  atr_anchor_height : N;
  atr_expires_at_height : option N;
  atr_status : N;
  atr_revocation : option AttestationRevocation
}.

Record ValidatorSnapshotRecord := mkValidatorSnapshotRecord {
  vsr_operator : bytes;
  vsr_node_id : bytes;
  vsr_consensus_alg_id : N;
  vsr_consensus_pk : bytes;
  vsr_self_bond : N;
  vsr_status : N;
  vsr_unbonding_start_height : N;
  vsr_registered_height : N;
  vsr_tombstoned : bool
}.

(** The ten fields a proposal effect is flattened to. *)
Record EffectRecord := mkEffectRecord {
  er_effect_type : N;
  er_effect_alg_id : N;
  er_effect_has_lifecycle : bool;
  er_effect_lifecycle : N;
  er_effect_has_min_fee : bool;
  er_effect_min_fee : N;
  er_effect_burn_rate_bps : N;
  er_effect_block_gas_limit : N;
  er_effect_activate_at_timestamp_ns : N;
  er_effect_expected_version : N
}.

Record PendingProposalRecord := mkPendingProposalRecord {
  ppr_proposal_id : bytes;
  ppr_proposal_type : N;
  ppr_proposer : bytes;
  ppr_voting_deadline : N;
  ppr_execute_after : N;
  ppr_rationale_hash : bytes;
  ppr_status : N;
  ppr_effect : EffectRecord;
  ppr_votes : list (bytes * bool)
}.

(** [PendingUpgradeRecord] has the fields of [PendingUpgrade]. *)
Record StateSnapshotRecord := mkStateSnapshotRecord {
  ssr_block_height : N;
  ssr_accounts : list AccountRecord;
  ssr_attestations : list AttestationRecord;
  ssr_governance_receipts : list GovernanceReceiptRecord;
  ssr_alg_registry : list AlgRegistryRecord;
  ssr_validators : list ValidatorSnapshotRecord;
  ssr_fee_market_base_fee : N;
  ssr_fee_market_block_gas_limit : N;
  ssr_fee_market_burn_rate_bps : N;
  ssr_pending_proposals : list PendingProposalRecord;
  ssr_pending_upgrades : list PendingUpgrade
}.

(** *** Enumerations *)

Definition encode_attestation_status (status : AttestationStatus.t) : N :=
  match status with AttestationStatus.Active => 0 | AttestationStatus.Revoked => 1 end.
Definition decode_attestation_status (status : N) : option AttestationStatus.t :=
  match status with
  | 0 => Some AttestationStatus.Active
  | 1 => Some AttestationStatus.Revoked
  | _ => None
  end.

Definition encode_key_status (status : KeyStatus.t) : N :=
  match status with KeyStatus.Pending => 0 | KeyStatus.Active => 1 | KeyStatus.Revoked => 2 end.
Definition decode_key_status (encoded : N) : option KeyStatus.t :=
  match encoded with
  | 0 => Some KeyStatus.Pending
  | 1 => Some KeyStatus.Active
  | 2 => Some KeyStatus.Revoked
  | _ => None
  end.

Definition encode_lifecycle (lifecycle : Lifecycle.t) : N :=
  match lifecycle with
  | Lifecycle.Active => 0
  | Lifecycle.Discouraged => 1
  | Lifecycle.Deprecated => 2
  | Lifecycle.Banned => 3
  end.
Definition decode_lifecycle (encoded : N) : option Lifecycle.t :=
  match encoded with
  | 0 => Some Lifecycle.Active
  | 1 => Some Lifecycle.Discouraged
  | 2 => Some Lifecycle.Deprecated
  | 3 => Some Lifecycle.Banned
  | _ => None
  end.

Definition encode_sig_class (sig_class : SigClass.t) : N :=
  match sig_class with
  | SigClass.Reduced => 0
  | SigClass.Standard => 1
  | SigClass.Premium => 2
  end.

Definition encode_validator_status (status : ValidatorStatus.t) : N * N :=
  match status with
  | ValidatorStatus.Candidate => (0, 0)
  | ValidatorStatus.Active => (1, 0)
  | ValidatorStatus.Jailed => (2, 0)
  | ValidatorStatus.Unbonding start_height => (3, start_height)
  | ValidatorStatus.Exited => (4, 0)
  end.
Definition decode_validator_status (encoded unbonding_start_height : N)
    : option ValidatorStatus.t :=
  match encoded with
  | 0 => Some ValidatorStatus.Candidate
  | 1 => Some ValidatorStatus.Active
  | 2 => Some ValidatorStatus.Jailed
  | 3 => Some (ValidatorStatus.Unbonding unbonding_start_height)
  | 4 => Some ValidatorStatus.Exited
  | _ => None
  end.

Definition encode_proposal_status (status : ProposalStatus.t) : N :=
  match status with
  | ProposalStatus.Voting => 0
  | ProposalStatus.Executed => 1
  | ProposalStatus.Expired => 2
  | ProposalStatus.Rejected => 3
  | ProposalStatus.ExecutionFailed => 4
  end.
Definition decode_proposal_status (encoded : N) : option ProposalStatus.t :=
  match encoded with
  | 0 => Some ProposalStatus.Voting
  | 1 => Some ProposalStatus.Executed
  | 2 => Some ProposalStatus.Expired
  | 3 => Some ProposalStatus.Rejected
  | 4 => Some ProposalStatus.ExecutionFailed
  | _ => None
  end.

(** *** [state_into_record] *)

Definition accounts_in_order (s : StateStore) : list Account :=
  (sorted_entries bytes_le (rows (st_accounts s))).*2.
Definition attestations_in_order (s : StateStore) : list Attestation :=
  (sorted_entries bytes_le (rows (st_attestations s))).*2.
Definition governance_receipts_in_order (s : StateStore) : list GovernanceReceipt :=
  (sorted_entries bytes_le (rows (st_receipts s))).*2.
Definition alg_entries_in_order (s : StateStore) : list AlgEntry :=
  (sorted_entries N.le (rows (st_algs s))).*2.

Definition key_into_record (key : KeyEntry) : KeyRecord :=
  mkKeyRecord (AlgId.as_u16 (key_alg_id key)) (key_pk_bytes key) (key_version key)
    (key_valid_from_height key) (encode_key_status (key_status key)) (key_allowed_tx_types key).

Definition account_into_record (account : Account) : AccountRecord :=
  mkAccountRecord (acc_address account) (acc_balance account) (acc_nonce account)
    (key_into_record <$> acc_keys account).

Definition attestation_into_record (a : Attestation) : AttestationRecord :=
  mkAttestationRecord (att_attestation_id a) (att_attester a) (att_subject a)
    (att_attestation_type a) (att_content_hash a) (att_schema_id a) (att_metadata_hash a)
    (att_anchor_height a) (att_expires_at_height a) (encode_attestation_status (att_status a))
    (att_revocation a).

Definition receipt_into_record (r : GovernanceReceipt) : GovernanceReceiptRecord :=
  mkGovernanceReceiptRecord (rcp_proposal_id r)
    (GovernanceProposalType.as_u8 (rcp_proposal_type r)) (rcp_proposer r)
    (AlgId.as_u16 (rcp_target_alg_id r)) (encode_lifecycle (rcp_lifecycle_before r))
    (encode_lifecycle (rcp_lifecycle_after r)) (rcp_min_fee_before r) (rcp_min_fee_after r)
    (rcp_rationale_hash r) (rcp_executed_at_height r).

Definition alg_into_record (e : AlgEntry) : AlgRegistryRecord :=
  mkAlgRegistryRecord (AlgId.as_u16 (alg_id e)) (alg_spec_ref e) (alg_pk_size e)
    (alg_sig_size e) (encode_sig_class <$> alg_sig_class e) (alg_min_fee e)
    (encode_lifecycle (alg_lifecycle e)) (alg_benchmark_verify_per_sec e).

Definition validator_into_record (v : ValidatorRecord) : ValidatorSnapshotRecord :=
  let '(status, unbonding_start_height) := encode_validator_status (val_status v) in
  mkValidatorSnapshotRecord (val_operator v) (val_node_id v)
    (AlgId.as_u16 (val_consensus_alg_id v)) (val_consensus_pk v) (val_self_bond v) status
    unbonding_start_height (val_registered_height v) (val_tombstoned v).

(** Of the effects added later only the discriminant is kept. *)
Definition effect_into_record (effect : ProposalEffect) : EffectRecord :=
  match effect with
  | EffRegistryUpdate alg target_lifecycle new_min_fee =>
      mkEffectRecord 1 (AlgId.as_u16 alg) (bool_decide (is_Some target_lifecycle))
        (from_option encode_lifecycle 0 target_lifecycle) (bool_decide (is_Some new_min_fee))
        (default 0 new_min_fee) 0 0 0 0
  | EffBurnRateUpdate new_burn_rate_bps =>
      mkEffectRecord 2 0 false 0 false 0 new_burn_rate_bps 0 0 0
  | EffFeeParamUpdate new_block_gas_limit =>
      mkEffectRecord 3 0 false 0 false 0 0 new_block_gas_limit 0 0
  | EffSoftwareUpgrade activate_at_timestamp_ns expected_version =>
      mkEffectRecord 4 0 false 0 false 0 0 0 activate_at_timestamp_ns expected_version
  | EffAddAlgorithm _ => mkEffectRecord 5 0 false 0 false 0 0 0 0 0
  | EffAddSlashingVerifier _ => mkEffectRecord 6 0 false 0 false 0 0 0 0 0
  | EffAddHash _ => mkEffectRecord 7 0 false 0 false 0 0 0 0 0
  | EffAddAuthTemplate _ => mkEffectRecord 8 0 false 0 false 0 0 0 0 0
  end.

Definition proposal_into_record (p : PendingProposal) : PendingProposalRecord :=
  mkPendingProposalRecord (prop_proposal_id p)
    (GovernanceProposalType.as_u8 (prop_proposal_type p)) (prop_proposer p)
    (prop_voting_deadline p) (prop_execute_after p) (prop_rationale_hash p)
    (encode_proposal_status (prop_status p)) (effect_into_record (prop_effect p))
    (sorted_entries bytes_le (prop_votes p)).

Definition state_into_record (s : StateStore) : StateSnapshotRecord :=
  mkStateSnapshotRecord (st_block_height s)
    (account_into_record <$> accounts_in_order s)
    (attestation_into_record <$> attestations_in_order s)
    (receipt_into_record <$> governance_receipts_in_order s)
    (alg_into_record <$> alg_entries_in_order s)
    (validator_into_record <$> validators_in_order s)
    (fm_base_fee (fm_compute (st_fee_market s))) (fm_limit (fm_compute (st_fee_market s)))
    (fm_burn_rate_bps (st_fee_market s))
    (proposal_into_record <$> pending_proposals_in_order s)
    (pending_upgrades_in_order s).

(** *** [record_into_state] *)

Definition expected_by_id : gmap N AlgEntry :=
  list_to_map (reverse ((fun e => (AlgId.as_u16 (alg_id e), e)) <$> phase1_registry)).

Definition record_into_alg (r : AlgRegistryRecord) : outcome StorageError.t AlgEntry :=
  entry ← ok_or (expected_by_id !! arr_alg_id r) (StorageError.CheckpointRegistryMismatch
    "checkpoint contains unknown alg_id not in local phase-1 baseline");
  ensure (bool_decide (arr_spec_ref r = alg_spec_ref entry) && (arr_pk_size r =? alg_pk_size entry)
          && (arr_sig_size r =? alg_sig_size entry)
          && bool_decide (arr_sig_class r = encode_sig_class <$> alg_sig_class entry)
          && (arr_benchmark_verify_per_sec r =? alg_benchmark_verify_per_sec entry))
    (StorageError.CheckpointRegistryMismatch
       "registry contents do not match the local phase-1 baseline") ;;
  lifecycle ← ok_or (decode_lifecycle (arr_lifecycle r))
    (StorageError.CheckpointRegistryMismatch "registry lifecycle is invalid");
  Ok (entry <| alg_lifecycle := lifecycle |> <| alg_min_fee := arr_min_fee r |>).

Definition validate_registry_snapshot (records : list AlgRegistryRecord)
    : outcome StorageError.t (list AlgEntry) :=
  ensure (len records =? len phase1_registry) (StorageError.CheckpointRegistryMismatch
    "registry length does not match the local phase-1 baseline") ;;
  collect record_into_alg records.

(** [AlgId::from_u16(raw).ok_or(InvalidPersistedAlgId(raw))]. *)
Definition persisted_alg (raw : N) : outcome StorageError.t AlgId.t :=
  ok_or (AlgId.from_u16 raw) (StorageError.InvalidPersistedAlgId raw).

Definition record_into_key (key : KeyRecord) : outcome StorageError.t KeyEntry :=
  alg ← persisted_alg (kr_alg_id key);
  status ← ok_or (decode_key_status (kr_status key))
    (StorageError.InvalidPersistedValue "unknown checkpoint key status");
  Ok (mkKeyEntry alg (kr_pk_bytes key) (kr_key_version key) (kr_valid_from_height key) status
        (kr_allowed_tx_types key)).

(** The policy, the template and its data are not in the record. *)
Definition record_into_account (account : AccountRecord) : outcome StorageError.t Account :=
  keys ← collect record_into_key (acr_keys account);
  Ok (mkAccount (acr_address account) (acr_balance account) (acr_nonce account) keys 0 None
        VERIFIER_TEMPLATE_ID_EOA []).

Definition record_into_attestation (a : AttestationRecord) : outcome StorageError.t Attestation :=
  status ← ok_or (decode_attestation_status (atr_status a))
    (StorageError.InvalidPersistedValue "unknown checkpoint attestation status");
  Ok (mkAttestation (atr_attestation_id a) (atr_attester a) (atr_subject a)
        (atr_attestation_type a) (atr_content_hash a) (atr_schema_id a) (atr_metadata_hash a)
        (atr_anchor_height a) (atr_expires_at_height a) status (atr_revocation a)).

Definition record_into_receipt (r : GovernanceReceiptRecord)
    : outcome StorageError.t GovernanceReceipt :=
  proposal_type ← ok_or (GovernanceProposalType.from_u8 (grr_proposal_type r))
    (StorageError.InvalidPersistedValue "unknown checkpoint governance proposal type");
  target_alg_id ← persisted_alg (grr_target_alg_id r);
  lifecycle_before ← ok_or (decode_lifecycle (grr_lifecycle_before r))
    (StorageError.InvalidPersistedValue "unknown checkpoint governance lifecycle_before");
  lifecycle_after ← ok_or (decode_lifecycle (grr_lifecycle_after r))
    (StorageError.InvalidPersistedValue "unknown checkpoint governance lifecycle_after");
  Ok (mkGovernanceReceipt (grr_proposal_id r) proposal_type (grr_proposer r) target_alg_id
        lifecycle_before lifecycle_after (grr_min_fee_before r) (grr_min_fee_after r)
        (grr_rationale_hash r) (grr_executed_at_height r)).

Definition record_into_validator (v : ValidatorSnapshotRecord)
    : outcome StorageError.t ValidatorRecord :=
  alg ← persisted_alg (vsr_consensus_alg_id v);
  status ← ok_or (decode_validator_status (vsr_status v) (vsr_unbonding_start_height v))
    (StorageError.InvalidPersistedValue "unknown checkpoint validator status");
  Ok (mkValidatorRecord (vsr_operator v) (vsr_node_id v) alg (vsr_consensus_pk v)
        (vsr_self_bond v) status (vsr_registered_height v) (vsr_tombstoned v)).

Definition record_into_effect (r : EffectRecord) : outcome StorageError.t ProposalEffect :=
  match er_effect_type r with
  | 1 =>
      alg ← persisted_alg (er_effect_alg_id r);
      target_lifecycle ←
        (if er_effect_has_lifecycle r then
           lifecycle ← ok_or (decode_lifecycle (er_effect_lifecycle r))
             (StorageError.InvalidPersistedValue "unknown pending_proposal lifecycle");
           Ok (Some lifecycle)
         else Ok None);
      Ok (EffRegistryUpdate alg target_lifecycle
            (if er_effect_has_min_fee r then Some (er_effect_min_fee r) else None))
  | 2 => Ok (EffBurnRateUpdate (er_effect_burn_rate_bps r))
  | 3 => Ok (EffFeeParamUpdate (er_effect_block_gas_limit r))
  | 4 => Ok (EffSoftwareUpgrade (er_effect_activate_at_timestamp_ns r)
               (er_effect_expected_version r))
  | _ => Err (StorageError.InvalidPersistedValue "unknown pending_proposal effect_type")
  end.

(** A repeated voter keeps the last vote. *)
Definition record_into_proposal (r : PendingProposalRecord)
    : outcome StorageError.t PendingProposal :=
  proposal_type ← ok_or (GovernanceProposalType.from_u8 (ppr_proposal_type r))
    (StorageError.InvalidPersistedValue "unknown pending_proposal proposal_type");
  status ← ok_or (decode_proposal_status (ppr_status r))
    (StorageError.InvalidPersistedValue "unknown pending_proposal status");
  effect ← record_into_effect (ppr_effect r);
  Ok (mkPendingProposal (ppr_proposal_id r) proposal_type (ppr_proposer r)
        (ppr_voting_deadline r) (ppr_execute_after r) effect
        (list_to_map (reverse (ppr_votes r))) status (ppr_rationale_hash r)).

Section state_records.
Context `{Shake}.

Definition from_snapshot_full (accounts : list Account) (attestations : list Attestation)
    (governance_receipts : list GovernanceReceipt) (alg_registry_entries : list AlgEntry)
    (block_height : N) (chain_id : bytes) : StateStore :=
  from_snapshot_full_with_proofs accounts attestations [] governance_receipts
    alg_registry_entries block_height chain_id.

(** The compute dimension's fee and limit and the burn rate; the rest is the default. *)
Definition restored_fee_market (r : StateSnapshotRecord) : FeeMarketState :=
  FeeMarketState_default
    <| fm_compute ::= fun d => d <| fm_base_fee := ssr_fee_market_base_fee r |>
                                 <| fm_limit := ssr_fee_market_block_gas_limit r |> |>
    <| fm_burn_rate_bps := ssr_fee_market_burn_rate_bps r |>.

Definition record_into_state (r : StateSnapshotRecord) (chain_id : bytes)
    : outcome StorageError.t StateStore :=
  alg_registry ← validate_registry_snapshot (ssr_alg_registry r);
  accounts ← collect record_into_account (ssr_accounts r);
  attestations ← collect record_into_attestation (ssr_attestations r);
  governance_receipts ← collect record_into_receipt (ssr_governance_receipts r);
  validators ← collect record_into_validator (ssr_validators r);
  let s := from_snapshot_full accounts attestations governance_receipts alg_registry
             (ssr_block_height r) chain_id in
  let s := foldl (fun s v => insert_validator v s) s validators in
  let s := if 0 <? ssr_fee_market_block_gas_limit r
           then restore_fee_market (restored_fee_market r) s else s in
  s ← foldM (fun s rec => p ← record_into_proposal rec; Ok (insert_pending_proposal p s)) s
        (ssr_pending_proposals r);
  Ok (foldl (fun s u => insert_pending_upgrade u s) s (ssr_pending_upgrades r)).
End state_records.

(** ** Checkpoints *)

Record TrustedCheckpointMetadata := mkTrustedCheckpointMetadata {
  tcm_height : N;
  tcm_tip_hash : bytes;
  tcm_state_root : bytes
}.

(** [TrustedCheckpointMetadataRecord] has the fields of [TrustedCheckpointMetadata]. *)
Record TrustedCheckpointRecord := mkTrustedCheckpointRecord {
  tcr_version : N;
  tcr_metadata : TrustedCheckpointMetadata;
  tcr_state : StateSnapshotRecord
}.

Definition check_state_format_version (disk_version : N) : outcome StorageError.t unit :=
  ensure (negb (disk_version <? STATE_FORMAT_VERSION))
    (StorageError.StateFormatUpgradeRequired disk_version STATE_FORMAT_VERSION) ;;
  ensure (negb (STATE_FORMAT_VERSION <? disk_version))
    (StorageError.BinaryTooOld disk_version STATE_FORMAT_VERSION).

Module RecoverySource.
Inductive t : Set := FullReplay | TrustedCheckpoint.
End RecoverySource.

Record CheckpointRecoveryResult := mkCheckpointRecoveryResult {
  crr_replay : ReplayResult;
  crr_source : RecoverySource.t;
  crr_checkpoint : option TrustedCheckpointMetadata
}.
