(* ===== verification/RecordsProps.v ===== *)
(** * What a checkpoint preserves.

    Stored blocks survive being written and read.  A state snapshot is restored to
    the same state exactly when the state uses nothing the snapshot format lacks
    ([snapshot_ok]). *)

From S2P Require Import Prelude Crypto Types Cbor Payloads Tx FeeMarket Leaves Store StoreInv StateRoot.
From S2P Require Import ApplyAccounts ApplyValidators Governance Archival ApplyTx Mempool Block Chain.
From S2P Require Import Invariants Examples Recovery Commit Records.

#[local] Open Scope string_scope.
#[local] Open Scope N_scope.

(** ** Tables built from a list *)

Definition tbl_of {K V} `{Countable K} (h : K -> V -> bytes) (key : V -> K) (l : list V)
    : Table K V :=
  foldl (fun t v => tbl_insert h (key v) v t) tbl_empty l.

Section tables.
Context {K V : Type} `{Countable K} (h : K -> V -> bytes) (key : V -> K).
Implicit Types (t : Table K V) (l : list V).

Lemma coherent_eq t1 t2 : coherent h t1 -> coherent h t2 -> rows t1 = rows t2 -> t1 = t2.
Proof.
  destruct t1 as [r1 l1], t2 as [r2 l2]; cbn. intros H1 H2 ->. f_equal. apply map_eq. intros k.
  specialize (H1 k). specialize (H2 k). cbn in *. congruence.
Qed.

Lemma foldl_insert_rows l t :
  rows (foldl (fun t v => tbl_insert h (key v) v t) t l) =
  foldl (fun m v => <[key v := v]> m) (rows t) l.
Proof. revert t. induction l as [|v l IH]; intros t; cbn; [done|]. by rewrite IH. Qed.

Lemma foldl_insert_lookup l (m : gmap K V) k v :
  foldl (fun m v => <[key v := v]> m) m l !! k = Some v -> (v ∈ l /\ key v = k) \/ m !! k = Some v.
Proof.
  revert m. induction l as [|w l IH]; intros m; cbn; [by right|]. intros [[Hin ?]|Hk]%IH.
  - left. split; [by right|done].
  - apply lookup_insert_Some in Hk as [[? <-]|[_ Hk]]; [left; split; [by left|done]|by right].
Qed.

Lemma tbl_of_elem l k v : rows (tbl_of h key l) !! k = Some v -> v ∈ l.
Proof.
  unfold tbl_of. rewrite foldl_insert_rows. intros [[Hin _]|Hk]%foldl_insert_lookup; [done|].
  cbn in Hk. by rewrite lookup_empty in Hk.
Qed.

Lemma tbl_of_coherent l : coherent h (tbl_of h key l).
Proof.
  apply (foldl_tbl_insert_ok h (fun _ _ => True) key id); [done|]. apply tbl_empty_ok.
Qed.

(** Distinct keys: every element is found under its key. *)
Lemma foldl_insert_elem l (m : gmap K V) v :
  NoDup (key <$> l) -> v ∈ l -> foldl (fun m v => <[key v := v]> m) m l !! key v = Some v.
Proof.
  revert m. induction l as [|w l IH]; intros m; cbn; [by intros _ ?%elem_of_nil|].
  intros [Hw Hnd]%NoDup_cons [->|Hin]%elem_of_cons; [|by apply IH].
  clear IH. assert (forall m' : gmap K V, m' !! key w = Some w ->
    foldl (fun m v => <[key v := v]> m) m' l !! key w = Some w) as Hkeep.
  { clear Hnd m. induction l as [|x l IH]; intros m' Hm'; cbn; [done|].
    apply not_elem_of_cons in Hw as [Hne Hw]. apply IH; [done|]. by rewrite lookup_insert_ne. }
  apply Hkeep. by rewrite lookup_insert_eq.
Qed.

(** A table is rebuilt from any listing of its rows. *)
Lemma tbl_of_listing P t l :
  table_ok h P t -> (forall k v, P k v -> key v = k) -> l ≡ₚ (map_to_list (rows t)).*2 ->
  tbl_of h key l = t.
Proof.
  intros [Hc Hf] HP Hl. apply coherent_eq; [apply tbl_of_coherent|done|].
  assert (key <$> (map_to_list (rows t)).*2 = (map_to_list (rows t)).*1) as Hkeys.
  { rewrite <-list_fmap_compose. apply list_fmap_ext. intros i [k v] Hkv%list_elem_of_lookup_2.
    cbn. apply HP, Hf. by apply elem_of_map_to_list. }
  assert (NoDup (key <$> l)) as Hnd.
  { rewrite Hl, Hkeys. apply NoDup_fst_map_to_list. }
  assert (forall v, v ∈ l <-> rows t !! key v = Some v) as Hin.
  { intros v. rewrite Hl, list_elem_of_fmap. split.
    - intros ([k w] & -> & Hkv%elem_of_map_to_list). cbn. by rewrite (HP _ _ (Hf _ _ Hkv)).
    - intros Hv. exists (key v, v). by rewrite elem_of_map_to_list. }
  unfold tbl_of. rewrite foldl_insert_rows. cbn [rows tbl_empty]. apply map_eq. intros k.
  apply option_eq. intros v. split.
  - intros [[Hv <-]|Hk]%foldl_insert_lookup; [by apply Hin|by rewrite lookup_empty in Hk].
  - intros Hk. pose proof (HP _ _ (Hf _ _ Hk)) as <-. apply foldl_insert_elem; [done|]. by apply Hin.
Qed.
End tables.

(** ** Round trips of the parts *)

Lemma alg_persisted a : persisted_alg (AlgId.as_u16 a) = Ok a.
Proof. unfold persisted_alg. by rewrite AlgId.alg_from_as_u16. Qed.

Lemma lifecycle_roundtrip l : decode_lifecycle (encode_lifecycle l) = Some l.
Proof. by destruct l. Qed.

Lemma key_record_roundtrip k : record_into_key (key_into_record k) = Ok k.
Proof.
  unfold record_into_key, key_into_record. cbn. rewrite alg_persisted. cbn.
  by destruct k as [? ? ? ? [] ?].
Qed.

(** An account without a policy and with the default template. *)
Definition plain_account (a : Account) : Prop :=
  acc_policy_version a = 0 /\ acc_policy_hash a = None /\
  acc_verifier_template_id a = VERIFIER_TEMPLATE_ID_EOA /\ acc_auth_data a = [].

Definition forget_policy (a : Account) : Account :=
  mkAccount (acc_address a) (acc_balance a) (acc_nonce a) (acc_keys a) 0 None
    VERIFIER_TEMPLATE_ID_EOA [].

Lemma account_record_roundtrip a : record_into_account (account_into_record a) = Ok (forget_policy a).
Proof.
  unfold record_into_account, account_into_record. cbn.
  by rewrite collect_at_fmap by (intros; apply key_record_roundtrip).
Qed.

Lemma forget_plain a : forget_policy a = a <-> plain_account a.
Proof.
  destruct a as [? ? ? ? pv ph tmpl auth]. unfold forget_policy, plain_account. cbn. split.
  - by intros [= <- <- <- <-].
  - by intros (-> & -> & -> & ->).
Qed.

Lemma attestation_record_roundtrip a : record_into_attestation (attestation_into_record a) = Ok a.
Proof. by destruct a as [? ? ? ? ? ? ? ? ? [] ?]. Qed.

Lemma proposal_type_roundtrip p :
  GovernanceProposalType.from_u8 (GovernanceProposalType.as_u8 p) = Some p.
Proof. by destruct p. Qed.

Lemma receipt_record_roundtrip r : record_into_receipt (receipt_into_record r) = Ok r.
Proof.
  unfold record_into_receipt, receipt_into_record. cbn.
  rewrite proposal_type_roundtrip, alg_persisted, !lifecycle_roundtrip. by destruct r.
Qed.

Lemma validator_record_roundtrip v : record_into_validator (validator_into_record v) = Ok v.
Proof.
  destruct v as [? ? alg ? ? st ? ?]. unfold record_into_validator, validator_into_record.
  destruct st; cbn; by rewrite alg_persisted.
Qed.

Definition effect_representable (e : ProposalEffect) : Prop :=
  match e with
  | EffRegistryUpdate _ _ _ | EffBurnRateUpdate _ | EffFeeParamUpdate _
  | EffSoftwareUpgrade _ _ => True
  | _ => False
  end.

Lemma effect_record_roundtrip e :
  record_into_effect (effect_into_record e) =
  match e with
  | EffRegistryUpdate _ _ _ | EffBurnRateUpdate _ | EffFeeParamUpdate _
  | EffSoftwareUpgrade _ _ => Ok e
  | _ => Err (StorageError.InvalidPersistedValue "unknown pending_proposal effect_type")
  end.
Proof.
  destruct e as [alg [l|] [fee|]|?|?|? ?|?|?|?|?]; unfold record_into_effect; cbn;
    rewrite ?alg_persisted; cbn; rewrite ?lifecycle_roundtrip; done.
Qed.

Lemma votes_roundtrip (votes : gmap bytes bool) :
  list_to_map (reverse (sorted_entries bytes_le votes)) = votes.
Proof.
  rewrite (list_to_map_proper _ (map_to_list votes)); [apply list_to_map_to_list| |].
  - rewrite reverse_Permutation. apply sorted_entries_NoDup_fst.
  - rewrite reverse_Permutation. apply sorted_entries_Permutation.
Qed.

Lemma proposal_record_roundtrip p :
  record_into_proposal (proposal_into_record p) =
  (_ ← record_into_effect (effect_into_record (prop_effect p)); Ok p).
Proof.
  unfold record_into_proposal, proposal_into_record. cbn [ppr_proposal_type ppr_status ppr_effect
    ppr_votes ppr_proposal_id ppr_proposer ppr_voting_deadline ppr_execute_after ppr_rationale_hash].
  rewrite proposal_type_roundtrip, votes_roundtrip, effect_record_roundtrip.
  destruct p as [? ? ? ? ? [] ? [] ?]; cbn; done.
Qed.

(** A registry entry that differs from the local one in its lifecycle and fee only. *)
Definition baseline_entry (e : AlgEntry) : Prop :=
  exists base, expected_by_id !! AlgId.as_u16 (alg_id e) = Some base /\
    e = base <| alg_lifecycle := alg_lifecycle e |> <| alg_min_fee := alg_min_fee e |>.

#[local] Instance encode_sig_class_inj : Inj (=) (=) encode_sig_class.
Proof. by intros [] []. Qed.

Lemma expected_alg_id n base : expected_by_id !! n = Some base -> AlgId.as_u16 (alg_id base) = n.
Proof.
  unfold expected_by_id. intros Hn%elem_of_list_to_map_2.
  apply elem_of_reverse, list_elem_of_fmap in Hn as (e & [= -> ->] & _). done.
Qed.

#[local] Opaque expected_by_id.

Lemma alg_record_roundtrip e e' : record_into_alg (alg_into_record e) = Ok e' <->
  e' = e /\ baseline_entry e.
Proof.
  unfold record_into_alg, alg_into_record, baseline_entry. cbn. rewrite lifecycle_roundtrip. split.
  - intros He. run_inv. destruct x as [aid ref pk sig cls fee lc bench]. cbn in *.
    pose proof (expected_alg_id _ _ H) as Hid%AlgId.alg_as_u16_inj. cbn in Hid. subst aid.
    apply (inj (fmap encode_sig_class)) in H3. injection H1 as <-. destruct e; cbn in *. subst. split; [done|].
    eexists. split; [exact H|]. done.
  - intros (-> & base & Hb & He). rewrite Hb. destruct e, base. unfold set in He. cbn in *.
    injection He as -> -> -> -> -> ->. by rewrite !bool_decide_true, !N.eqb_refl by done.
Qed.

Lemma proposal_record_Ok p p' : record_into_proposal (proposal_into_record p) = Ok p' <->
  p' = p /\ effect_representable (prop_effect p).
Proof.
  rewrite proposal_record_roundtrip, effect_record_roundtrip.
  destruct (prop_effect p); cbn; split; (by intros [= ->]) || (by intros [-> ?]) || done.
Qed.

Lemma collect_at_forget {A B} (f : N -> A -> outcome StorageError.t B) (g : B -> A)
    (forget : B -> B) i l :
  (forall j x, f j (g x) = Ok (forget x)) -> collect_at f i (g <$> l) = Ok (forget <$> l).
Proof.
  intros Hf. revert i. induction l as [|x l IH]; intros i; cbn; [done|]. rewrite Hf. cbn.
  by rewrite IH.
Qed.

(** A conversion that is undone exactly on [P], over a list. *)
Lemma collect_at_iff {A B} (f : N -> A -> outcome StorageError.t B) (g : B -> A) (P : B -> Prop)
    i l l' :
  (forall j x y, f j (g x) = Ok y <-> y = x /\ P x) ->
  collect_at f i (g <$> l) = Ok l' <-> l' = l /\ Forall P l.
Proof.
  intros Hf. revert i l'. induction l as [|x l IH]; intros i l'; cbn.
  - split; [by intros [= <-]|by intros [-> _]].
  - rewrite bind_Ok. setoid_rewrite bind_Ok. setoid_rewrite Hf. setoid_rewrite IH.
    rewrite Forall_cons. split.
    + by intros (? & [-> ?] & ? & [-> ?] & [= <-]).
    + intros (-> & ? & ?). eauto 10.
Qed.

(** ** Stored blocks *)

Section blocks.
Context `{Ciborium, Shake}.

(** The stored transaction re-encodes to bytes with the listed hash, and back. *)
Definition body_readable (tx : Transaction) (hash : TxHash) : Prop :=
  exists raw, encode_tx tx = Ok raw /\ compute_tx_hash raw = hash /\ decode_tx raw = Ok tx.

Definition readable (sb : StoredBlock) : Prop :=
  Forall2 body_readable (sb_included_transactions sb) (blk_tx_hashes (sb_block sb)).

Lemma check_tx_body_Ok height i raw hash tx :
  check_tx_body height i (raw, hash) = Ok tx <-> compute_tx_hash raw = hash /\ decode_tx raw = Ok tx.
Proof.
  unfold check_tx_body. split.
  - intros Hc. by run_inv.
  - intros [-> ->]. by rewrite bool_decide_true.
Qed.

Lemma bodies_readable height i txs raws hashes :
  collect_at (fun tx_index tx =>
    map_err (StorageError.TxEncodeFailed height tx_index) (encode_tx tx)) i txs = Ok raws ->
  length hashes = length txs ->
  collect_at (check_tx_body height) i (zip raws hashes) = Ok txs <->
  Forall2 body_readable txs hashes.
Proof.
  revert i raws hashes. induction txs as [|tx txs IH]; intros i raws [|h hashes] Hc Hlen; try done.
  - cbn in Hc. injection Hc as <-. cbn. split; [constructor|done].
  - cbn in Hc. run_inv. cbn [zip zip_with collect_at].
    injection Hlen as Hlen. specialize (IH _ _ _ H2 Hlen). rewrite Forall2_cons, <-IH.
    unfold body_readable. rewrite H1. split.
    + intros (t & [? ?]%check_tx_body_Ok & (ts & ? & [= -> ->])%bind_Ok)%bind_Ok. eauto.
    + intros ((raw & [= <-] & Hh & Hd) & Hrest).
      rewrite (proj2 (check_tx_body_Ok height i x h tx) (conj Hh Hd)). cbn. by rewrite Hrest.
Qed.

Lemma commit_sigs_roundtrip sigs :
  collect record_into_commit_sig (commit_sig_into_record <$> sigs) = Ok sigs.
Proof.
  apply (collect_at_fmap (fun _ => record_into_commit_sig)). intros _ [v a r g] _.
  unfold record_into_commit_sig, commit_sig_into_record. cbn. by rewrite AlgId.alg_from_as_u16.
Qed.

(** A stored block is read back unchanged exactly when its bodies are readable. *)
Lemma stored_record_roundtrip sb record :
  length (blk_tx_hashes (sb_block sb)) = length (sb_included_transactions sb) ->
  stored_block_into_record sb = Ok record ->
  record_into_stored_block record (md_height (sb_metadata sb)) = Ok sb <-> readable sb.
Proof.
  destruct sb as [[[] hashes sigs] m txs]. unfold stored_block_into_record, readable.
  cbn [sb_block sb_metadata sb_included_transactions blk_header blk_tx_hashes
    blk_commit_signatures]. intros Hlen Hr. run_inv.
  rewrite <-(bodies_readable _ _ _ _ _ H1 Hlen). unfold record_into_stored_block.
  cbn [bhr_commit_signatures]. rewrite commit_sigs_roundtrip.
  assert (len hashes = len x) as ->.
  { unfold len. rewrite Hlen. apply (collect_at_Forall2 _ (fun _ _ => True)) in H1; [|done].
    by apply Forall2_length in H1 as ->. }
  rewrite N.eqb_refl. cbn. destruct (collect_at _ 0 (zip x hashes)) as [txs'| |]; cbn; [|done|done].
  split; [by intros [= ->]|by intros [= ->]].
Qed.

Lemma readable_encodes sb : readable sb -> exists record, stored_block_into_record sb = Ok record.
Proof.
  destruct sb as [b m txs]. unfold readable. cbn. intros Hr.
  assert (forall i, exists raws, collect_at (fun tx_index tx =>
    map_err (StorageError.TxEncodeFailed (md_height m) tx_index) (encode_tx tx)) i txs = Ok raws)
    as Hc.
  { induction Hr as [|tx h txs hs (raw & Henc & _) Hrest IH]; intros i; cbn; [by eexists|].
    rewrite Henc. cbn. destruct (IH (i + 1)) as [raws ->]. by eexists. }
  destruct (Hc 0) as [raws ->]. by eexists.
Qed.
End blocks.

(** ** The snapshot *)

Section snapshot.
Context `{Shake}.
Implicit Types (s : StateStore).

(** A fee market in which only the compute fee and limit and the burn rate were ever changed. *)
Definition plain_market (m : FeeMarketState) : Prop :=
  fm_target (fm_compute m) = DEFAULT_COMPUTE_TARGET /\ fm_excess (fm_compute m) = 0 /\
  fm_reserve_floor (fm_compute m) = COMPUTE_RESERVE_FLOOR /\
  fm_update_fraction (fm_compute m) = COMPUTE_FEE_UPDATE_FRACTION /\
  fm_storage m = reserved_default COMPUTE_RESERVE_FLOOR /\
  fm_witness m = reserved_default COMPUTE_RESERVE_FLOOR /\
  fm_contention m = reserved_default COMPUTE_RESERVE_FLOOR.

Lemma plain_market_iff s :
  plain_market (st_fee_market s) <-> st_fee_market s = restored_fee_market (state_into_record s).
Proof.
  unfold plain_market, restored_fee_market, state_into_record.
  cbn [ssr_fee_market_base_fee ssr_fee_market_block_gas_limit ssr_fee_market_burn_rate_bps].
  destruct (st_fee_market s) as [[f l t e r u] st w c b]. cbn. split.
  - by intros (-> & -> & -> & -> & -> & -> & ->).
  - intros Heq. injection Heq as -> -> -> -> -> -> ->. done.
Qed.

(** What a snapshot can carry: no policies, no effects added later, the local
    registry, the default fee market up to the compute fee, limit and burn rate, and
    everything else as in a new store. *)
Record snapshot_ok s : Prop := {
  sn_accounts : map_Forall (fun _ a => plain_account a) (rows (st_accounts s));
  sn_proposals : map_Forall (fun _ p => effect_representable (prop_effect p))
    (rows (st_proposals s));
  sn_registry : size (rows (st_algs s)) = length phase1_registry;
  sn_entries : map_Forall (fun _ e => baseline_entry e) (rows (st_algs s));
  sn_fee_market : plain_market (st_fee_market s);
  sn_gas_limit : 0 < fm_limit (fm_compute (st_fee_market s));
  sn_proof_anchors : rows (st_proof_anchors s) = ∅;
  sn_rotations : rows (st_rotations s) = ∅;
  sn_peer_ids : rows (st_peer_ids s) = ∅;
  sn_storage_fund : st_storage_fund s = StorageFundState_default;
  sn_archival_records : rows (st_archival_records s) = ∅;
  sn_archival_keys : rows (st_archival_keys s) = ∅;
  sn_archival_signer_set : st_archival_signer_set s = ∅;
  sn_archival_threshold : st_archival_threshold s = None;
  sn_archival_renewers : st_archival_renewers s = ∅;
  sn_recent_slashes : st_recent_slashes s = [];
  sn_slashing_registry :
    rows (st_slashing_registry s) = rows (st_slashing_registry StateStore_new);
  sn_hash_registry : rows (st_hash_registry s) = rows (st_hash_registry StateStore_new)
}.

(** The store [record_into_state] builds from its converted lists. *)
Definition assembled (accounts : list Account) (attestations : list Attestation)
    (receipts : list GovernanceReceipt) (algs : list AlgEntry) (validators : list ValidatorRecord)
    (fm : FeeMarketState) (proposals : list PendingProposal) (upgrades : list PendingUpgrade)
    (height : N) (chain_id : bytes) : StateStore :=
  mkStateStore (tbl_of h_account acc_address accounts)
    (tbl_of h_attestation att_attestation_id attestations) tbl_empty tbl_empty
    (tbl_of h_receipt rcp_proposal_id receipts) (tbl_of h_validator val_operator validators)
    tbl_empty height (tbl_of h_alg (fun e => AlgId.as_u16 (alg_id e)) algs) chain_id fm
    (compute_fee_market_leaf_hash fm) StorageFundState_default
    (compute_storage_fund_leaf_hash StorageFundState_default)
    (tbl_of h_proposal prop_proposal_id proposals) tbl_empty tbl_empty ∅ None ∅
    (tbl_of h_upgrade upg_proposal_id upgrades) [] (compute_recent_slashes_leaf_hash [])
    (st_slashing_registry StateStore_new) (st_hash_registry StateStore_new).

(** A loop that updates one field is one update of that field. *)
Lemma foldl_field {T A} (upd : (T -> T) -> StateStore -> StateStore) (g : A -> T -> T) l s :
  (forall s, upd id s = s) -> (forall f1 f2 s, upd f1 (upd f2 s) = upd (fun t => f1 (f2 t)) s) ->
  foldl (fun s a => upd (g a) s) s l = upd (fun t => foldl (fun t a => g a t) t l) s.
Proof.
  intros Hid Hcomp. revert s. induction l as [|a l IH]; intros s; cbn.
  - symmetry. apply Hid.
  - by rewrite IH, Hcomp.
Qed.

Lemma from_snapshot_assembled accounts attestations receipts algs height chain_id :
  from_snapshot_full accounts attestations receipts algs height chain_id =
  assembled accounts attestations receipts algs [] FeeMarketState_default [] [] height chain_id.
Proof.
  unfold from_snapshot_full, from_snapshot_full_with_proofs. cbv zeta. cbn [foldl].
  unfold insert_account, insert_attestation, insert_governance_receipt, insert_alg_entry.
  rewrite (foldl_field (set st_accounts) (fun a => tbl_insert h_account (acc_address a) a)),
    (foldl_field (set st_attestations) (fun a => tbl_insert h_attestation (att_attestation_id a) a)),
    (foldl_field (set st_receipts) (fun r => tbl_insert h_receipt (rcp_proposal_id r) r)),
    (foldl_field (set st_algs) (fun e => tbl_insert h_alg (AlgId.as_u16 (alg_id e)) e));
    by first [intros []|intros ? ? []|idtac].
Qed.

Lemma inserts_assembled accounts attestations receipts algs validators (c : bool) fm proposals
    upgrades height chain_id :
  let s := foldl (fun s v => insert_validator v s)
    (from_snapshot_full accounts attestations receipts algs height chain_id) validators in
  foldl (fun s u => insert_pending_upgrade u s) (foldl (fun s p => insert_pending_proposal p s)
    (if c then restore_fee_market fm s else s) proposals) upgrades =
  assembled accounts attestations receipts algs validators
    (if c then fm else FeeMarketState_default) proposals upgrades height chain_id.
Proof.
  cbv zeta. rewrite from_snapshot_assembled.
  unfold insert_validator, insert_pending_proposal, insert_pending_upgrade.
  rewrite (foldl_field (set st_validators) (fun v => tbl_insert h_validator (val_operator v) v)),
    (foldl_field (set st_proposals) (fun p => tbl_insert h_proposal (prop_proposal_id p) p)),
    (foldl_field (set st_upgrades) (fun u => tbl_insert h_upgrade (upg_proposal_id u) u));
    try (by first [intros []|intros ? ? []]). by destruct c.
Qed.

Lemma insert_proposals l s s' :
  foldM (fun s rec => p ← record_into_proposal rec; Ok (insert_pending_proposal p s)) s
    (proposal_into_record <$> l) = Ok s' <->
  Forall (fun p => effect_representable (prop_effect p)) l /\
  s' = foldl (fun s p => insert_pending_proposal p s) s l.
Proof.
  revert s. induction l as [|p l IH]; intros s; cbn.
  - split; [by intros [= <-]|by intros [_ ->]].
  - rewrite bind_Ok. setoid_rewrite bind_Ok. setoid_rewrite proposal_record_Ok. setoid_rewrite IH.
    rewrite Forall_cons. split.
    + intros (? & (? & [-> ?] & [= <-]) & ? & ->). done.
    + intros ([? ?] & ->). eauto 10.
Qed.

Definition restored_market s : FeeMarketState :=
  if 0 <? fm_limit (fm_compute (st_fee_market s)) then restored_fee_market (state_into_record s)
  else FeeMarketState_default.

(** What the snapshot of a state is restored to, if it is accepted. *)
Definition restored s (chain_id : bytes) : StateStore :=
  assembled (forget_policy <$> accounts_in_order s) (attestations_in_order s)
    (governance_receipts_in_order s) (alg_entries_in_order s) (validators_in_order s)
    (restored_market s) (pending_proposals_in_order s) (pending_upgrades_in_order s)
    (st_block_height s) chain_id.

Lemma record_into_state_Ok s chain_id s' :
  record_into_state (state_into_record s) chain_id = Ok s' <->
  length (alg_entries_in_order s) = length phase1_registry /\
  Forall baseline_entry (alg_entries_in_order s) /\
  Forall (fun p => effect_representable (prop_effect p)) (pending_proposals_in_order s) /\
  s' = restored s chain_id.
Proof.
  unfold record_into_state, state_into_record. cbn [ssr_alg_registry ssr_accounts ssr_attestations
    ssr_governance_receipts ssr_validators ssr_pending_proposals ssr_pending_upgrades
    ssr_block_height ssr_fee_market_block_gas_limit].
  rewrite (collect_at_forget (fun _ => record_into_account) _ forget_policy) by
    (intros; apply account_record_roundtrip).
  rewrite (collect_at_fmap (fun _ => record_into_attestation)) by
    (intros; apply attestation_record_roundtrip).
  rewrite (collect_at_fmap (fun _ => record_into_receipt)) by
    (intros; apply receipt_record_roundtrip).
  rewrite (collect_at_fmap (fun _ => record_into_validator)) by
    (intros; apply validator_record_roundtrip).
  unfold validate_registry_snapshot. cbn [mbind outcome_bind].
  rewrite bind_Ok. setoid_rewrite bind_Ok. setoid_rewrite ensure_Ok.
  setoid_rewrite (collect_at_iff (fun _ => record_into_alg) alg_into_record baseline_entry);
    [|intros; apply alg_record_roundtrip].
  setoid_rewrite insert_proposals. unfold len. rewrite !length_fmap.
  pose proof (inserts_assembled (forget_policy <$> accounts_in_order s) (attestations_in_order s)
    (governance_receipts_in_order s) (alg_entries_in_order s) (validators_in_order s)
    (0 <? fm_limit (fm_compute (st_fee_market s))) (restored_fee_market (state_into_record s))
    (pending_proposals_in_order s) (pending_upgrades_in_order s) (st_block_height s) chain_id)
    as Heq. cbv zeta in Heq. split.
  - intros (? & ([] & Hlen & -> & ?) & ? & (? & ->) & [= <-]). bool_hyps.
    split_and!; [lia|done|done|exact Heq].
  - intros (Hlen & ? & ? & ->). eexists. split.
    + exists tt. split; [by apply N.eqb_eq; f_equal|by split].
    + eexists. split; [split; [done|reflexivity]|]. f_equal. exact Heq.
Qed.
(** *** Listings *)

Lemma values_listing {K V} `{Countable K} (le : relation K) `{!RelDecision le} (m : gmap K V) :
  (sorted_entries le m).*2 ≡ₚ (map_to_list m).*2.
Proof. by rewrite sorted_entries_Permutation. Qed.

Lemma Forall_listing {K V} `{Countable K} (P : V -> Prop) (m : gmap K V) l :
  l ≡ₚ (map_to_list m).*2 -> Forall P l <-> map_Forall (fun _ v => P v) m.
Proof.
  intros ->. rewrite map_Forall_to_list, Forall_fmap. apply Forall_iff. by intros [].
Qed.

Lemma tbl_empty_rows {K V} `{Countable K} (h : K -> V -> bytes) P (t : Table K V) :
  table_ok h P t -> rows t = ∅ -> tbl_empty = t.
Proof.
  intros [Hc _] Hr. apply (coherent_eq h); [|done|done]. intros k. cbn. by rewrite !lookup_empty.
Qed.

Lemma forget_listing s :
  map_Forall (fun _ a => plain_account a) (rows (st_accounts s)) ->
  forget_policy <$> accounts_in_order s = accounts_in_order s.
Proof.
  intros Hf. apply (Forall_listing _ _ (accounts_in_order s)) in Hf; [|apply values_listing].
  induction Hf as [|a l Ha Hl IH]; cbn; [done|]. by rewrite (proj2 (forget_plain a) Ha), IH.
Qed.

Lemma tbl_of_keyed {V} (h : bytes -> V -> bytes) (key : V -> bytes) (t : Table bytes V) l :
  table_ok h (keyed key) t -> l ≡ₚ (map_to_list (rows t)).*2 -> tbl_of h key l = t.
Proof. intros Ht. eapply tbl_of_listing; [done|]. by intros ? ? []. Qed.

Lemma tbl_of_keyed_N {V} (h : N -> V -> bytes) (key : V -> N) max (t : Table N V) l :
  table_ok h (keyed_N key max) t -> l ≡ₚ (map_to_list (rows t)).*2 -> tbl_of h key l = t.
Proof. intros Ht. eapply tbl_of_listing; [done|]. by intros ? ? []. Qed.

Lemma upgrades_listing s :
  pending_upgrades_in_order s ≡ₚ (map_to_list (rows (st_upgrades s))).*2.
Proof. apply merge_sort_Permutation. Qed.

Lemma same_rows {K V} `{Countable K} (h : K -> V -> bytes) P (t1 t2 : Table K V) :
  table_ok h P t1 -> table_ok h P t2 -> rows t1 = rows t2 -> t2 = t1.
Proof. intros [] [] ?. by apply (coherent_eq h). Qed.

Lemma restored_id s : store_ok s -> snapshot_ok s -> restored s (st_chain_id s) = s.
Proof.
  intros Hok Hsn. pose proof StateStore_new_ok as Hnew.
  unfold restored. rewrite (forget_listing s (sn_accounts s Hsn)).
  unfold restored_market. rewrite (proj2 (N.ltb_lt _ _) (sn_gas_limit s Hsn)).
  rewrite <-(proj1 (plain_market_iff s) (sn_fee_market s Hsn)). unfold assembled, accounts_in_order, attestations_in_order,
    governance_receipts_in_order, alg_entries_in_order, validators_in_order,
    pending_proposals_in_order.
  rewrite (tbl_of_keyed _ _ _ _ (ok_accounts s Hok) (values_listing _ _)),
    (tbl_of_keyed _ _ _ _ (ok_attestations s Hok) (values_listing _ _)),
    (tbl_of_keyed _ _ _ _ (ok_receipts s Hok) (values_listing _ _)),
    (tbl_of_keyed_N _ _ _ _ _ (ok_algs s Hok) (values_listing _ _)),
    (tbl_of_keyed _ _ _ _ (ok_validators s Hok) (values_listing _ _)),
    (tbl_of_keyed _ _ _ _ (ok_proposals s Hok) (values_listing _ _)),
    (tbl_of_keyed _ _ _ _ (ok_upgrades s Hok) (upgrades_listing s)).
  rewrite <-(ok_fee_market_leaf s Hok), <-(sn_storage_fund s Hsn), <-(ok_storage_fund_leaf s Hok),
    <-(sn_recent_slashes s Hsn), <-(ok_recent_slashes_leaf s Hok).
  rewrite (same_rows _ _ _ _ (ok_slashing s Hok) (ok_slashing _ Hnew) (sn_slashing_registry s Hsn)),
    (same_rows _ _ _ _ (ok_hashes s Hok) (ok_hashes _ Hnew) (sn_hash_registry s Hsn)).
  rewrite (tbl_empty_rows _ _ _ (ok_proof_anchors s Hok) (sn_proof_anchors s Hsn)),
    (tbl_empty_rows _ _ _ (ok_rotations s Hok) (sn_rotations s Hsn)),
    (tbl_empty_rows _ _ _ (ok_peer_ids s Hok) (sn_peer_ids s Hsn)),
    (tbl_empty_rows _ _ _ (ok_archival_records s Hok) (sn_archival_records s Hsn)),
    (tbl_empty_rows _ _ _ (ok_archival_keys s Hok) (sn_archival_keys s Hsn)).
  rewrite <-(sn_archival_threshold s Hsn).
  rewrite <-(sn_archival_signer_set s Hsn) at 1. rewrite <-(sn_archival_renewers s Hsn).
  by destruct s.
Qed.

(** Restoring refuses a record; it does not panic. *)
Lemma record_into_state_no_panic r chain_id : record_into_state r chain_id <> Panic.
Proof.
  assert (forall k, record_into_key k <> Panic) by (intros k; unfold record_into_key, persisted_alg; no_panic).
  assert (forall e, record_into_effect e <> Panic).
  { intros e. unfold record_into_effect, persisted_alg. no_panic. }
  unfold record_into_state, validate_registry_snapshot, record_into_alg, record_into_account,
    record_into_attestation, record_into_receipt, record_into_validator, persisted_alg.
  no_panic; try (apply collect_at_no_panic; intros; no_panic; by apply collect_at_no_panic).
  apply (foldM_no_panic _ (fun _ => True)); [done| |done]. intros s p _ _. unfold record_into_proposal. no_panic.
Qed.

Lemma snapshot_restores s :
  store_ok s -> snapshot_ok s -> record_into_state (state_into_record s) (st_chain_id s) = Ok s.
Proof.
  intros Hok Hsn. apply record_into_state_Ok. split_and!.
  - rewrite <-(sn_registry s Hsn). unfold alg_entries_in_order.
    rewrite length_fmap, sorted_entries_Permutation. by rewrite length_map_to_list.
  - apply (Forall_listing _ _ _ (values_listing N.le _)), (sn_entries s Hsn).
  - apply (Forall_listing _ _ _ (values_listing bytes_le _)), (sn_proposals s Hsn).
  - symmetry. by apply restored_id.
Qed.

Lemma restored_snapshot s :
  record_into_state (state_into_record s) (st_chain_id s) = Ok s -> snapshot_ok s.
Proof.
  rewrite record_into_state_Ok. intros (Hlen & Hbase & Hprops & Heq).
  assert (forall {T} (f : StateStore -> T), f s = f (restored s (st_chain_id s))) as Hf
    by (intros; by rewrite <-Heq).
  assert (st_fee_market s = restored_fee_market (state_into_record s) /\
          0 < fm_limit (fm_compute (st_fee_market s))) as [Hfm Hlim].
  { pose proof (Hf _ st_fee_market) as Hm. cbn [st_fee_market restored assembled] in Hm.
    unfold restored_market in Hm. destruct (N.ltb_spec 0 (fm_limit (fm_compute (st_fee_market s)))).
    - done.
    - rewrite Hm in H0. by vm_compute in H0. }
  constructor; try done; try (by rewrite Hf); try by apply plain_market_iff.
  - intros k a Ha. rewrite Hf in Ha. apply tbl_of_elem, list_elem_of_fmap in Ha as (b & -> & _).
    by apply forget_plain.
  - apply (Forall_listing _ _ _ (values_listing bytes_le _)). exact Hprops.
  - rewrite <-Hlen. unfold alg_entries_in_order. rewrite length_fmap, sorted_entries_Permutation.
    by rewrite length_map_to_list.
  - apply (Forall_listing _ _ _ (values_listing N.le _)). exact Hbase.
Qed.

(** C32 A state survives a checkpoint unchanged exactly when it uses nothing the snapshot format
    lacks.  In full: accounts without a policy, of the plain kind; pending proposals of the four
    kinds the format has; the entries of the compiled-in algorithm registry, changed in lifecycle
    and minimum fee only; a fee market whose compute dimension has a positive gas limit, no
    excess and the default target, floor and update fraction, and whose other dimensions are the
    default; the hash registry and the registry of slashing verifiers as in a new store; no proof
    anchors, key rotations, peer-id bindings, archival records, keys, signer set, threshold or
    renewers, recent slashes, and the default storage fund.  This is for states with coherent
    leaf caches. *)
Theorem snapshot_roundtrip s :
  store_ok s ->
  record_into_state (state_into_record s) (st_chain_id s) = Ok s <-> snapshot_ok s.
Proof. intros Hok. split; [apply restored_snapshot|by apply snapshot_restores]. Qed.

(** *** The root of a restored state *)

Lemma restored_ok s chain_id : store_ok s -> store_ok (restored s chain_id).
Proof.
  intros Hok. pose proof StateStore_new_ok as Hnew. unfold restored, assembled.
  unfold attestations_in_order, governance_receipts_in_order, alg_entries_in_order,
    validators_in_order, pending_proposals_in_order.
  rewrite (tbl_of_keyed _ _ _ _ (ok_attestations s Hok) (values_listing _ _)),
    (tbl_of_keyed _ _ _ _ (ok_receipts s Hok) (values_listing _ _)),
    (tbl_of_keyed_N _ _ _ _ _ (ok_algs s Hok) (values_listing _ _)),
    (tbl_of_keyed _ _ _ _ (ok_validators s Hok) (values_listing _ _)),
    (tbl_of_keyed _ _ _ _ (ok_proposals s Hok) (values_listing _ _)),
    (tbl_of_keyed _ _ _ _ (ok_upgrades s Hok) (upgrades_listing s)).
  destruct Hok, Hnew. constructor; cbn [st_accounts st_attestations st_proof_anchors st_rotations
    st_receipts st_validators st_peer_ids st_block_height st_algs st_fee_market st_fee_market_leaf
    st_storage_fund st_storage_fund_leaf st_proposals st_archival_records st_archival_keys
    st_upgrades st_recent_slashes st_recent_slashes_leaf st_slashing_registry st_hash_registry];
    try done; try apply tbl_empty_ok.
  - apply (foldl_tbl_insert_ok _ _ acc_address id); [|apply tbl_empty_ok].
    intros a (b & -> & Hb)%list_elem_of_fmap. cbn. split; [done|].
    apply list_elem_of_fmap in Hb as ([k b'] & -> & Hkv%sorted_entries_elem). cbn.
    destruct ok_accounts as [_ Hf]. by destruct (Hf _ _ Hkv) as [-> ?].
  - unfold restored_market. destruct (0 <? _); [|done]. unfold fee_market_wf, dim_wf.
    by vm_compute.
Qed.

(** A table whose category has no payload in an equal list is empty. *)
Lemma lost_table {K V} `{Countable K} (c : N) (kb : K -> bytes) (le : relation K) `{!RelDecision le}
    (h : K -> V -> bytes) P (t : Table K V) (payloads : list bytes) :
  table_ok h P t -> (forall p, p ∈ table_payloads c kb le t -> p ∈ payloads) ->
  (forall k l, state_payload c k l ∉ payloads) -> rows t = ∅.
Proof.
  intros [Hc _] Hin Hno. apply map_empty. intros k. apply eq_None_not_Some. intros [v Hv].
  apply (Hno (kb k) (h k v)), Hin, list_elem_of_fmap. exists (k, h k v). split; [done|].
  apply sorted_entries_elem. by rewrite (Hc k), Hv.
Qed.

Ltac kept Hsub := intros ? ?; apply Hsub; unfold state_payloads; rewrite !elem_of_app; tauto.

Ltac no_payload := intros ? ? Hp; unfold state_payloads in Hp; rewrite !elem_of_app in Hp;
  destruct_or! Hp; first [other_category|exact (not_elem_of_nil _ Hp)].

(** What a checkpoint drops although it is in the root. *)
Definition lost_in_checkpoint s : Prop :=
  rows (st_proof_anchors s) <> ∅ \/ rows (st_rotations s) <> ∅ \/ rows (st_peer_ids s) <> ∅ \/
  rows (st_archival_records s) <> ∅ \/ rows (st_archival_keys s) <> ∅.

(** The state such a checkpoint is restored to has a different root than the one
    recorded with it, unless two of the hashed inputs collide. *)
Lemma checkpoint_of_lost_tables s chain_id s' :
  store_ok s -> record_into_state (state_into_record s) chain_id = Ok s' ->
  state_root s' = state_root s -> lost_in_checkpoint s ->
  collision_in (root_queries (restored s chain_id) ++ root_queries s).
Proof.
  intros Hok (_ & _ & _ & ->)%record_into_state_Ok Hroot Hlost.
  destruct (root_payloads _ _ (restored_ok s chain_id Hok) Hok Hroot) as [Hpay|]; [exfalso|done].
  assert (forall p, p ∈ state_payloads s -> p ∈ state_payloads (restored s chain_id)) as Hsub
    by (intros p; by rewrite Hpay).
  destruct Hlost as [Hl|[Hl|[Hl|[Hl|Hl]]]]; apply Hl; clear Hl.
  - eapply (lost_table 3 id bytes_le); [by apply ok_proof_anchors|kept Hsub|no_payload].
  - eapply (lost_table 4 id bytes_le); [by apply ok_rotations|kept Hsub|no_payload].
  - eapply (lost_table 13 id bytes_le); [by apply ok_peer_ids|kept Hsub|no_payload].
  - eapply (lost_table 16 (be_bytes 8) N.le); [by apply ok_archival_records|kept Hsub|no_payload].
  - eapply (lost_table 17 id bytes_le); [by apply ok_archival_keys|kept Hsub|no_payload].
Qed.
End snapshot.

(** ** A concrete encoding *)

#[global] Instance BlockMetadata_eq_dec : EqDecision BlockMetadata.
Proof. solve_decision. Defined.
#[global] Instance CommitSigRecord_eq_dec : EqDecision CommitSigRecord.
Proof. solve_decision. Defined.
#[global] Instance BlockHeaderRecord_eq_dec : EqDecision BlockHeaderRecord.
Proof. solve_decision. Defined.
#[global] Instance StoredBlockRecord_eq_dec : EqDecision StoredBlockRecord.
Proof. solve_decision. Defined.
#[global] Instance KeyRecord_eq_dec : EqDecision KeyRecord.
Proof. solve_decision. Defined.
#[global] Instance AccountRecord_eq_dec : EqDecision AccountRecord.
Proof. solve_decision. Defined.
#[global] Instance AlgRegistryRecord_eq_dec : EqDecision AlgRegistryRecord.
Proof. solve_decision. Defined.
#[global] Instance GovernanceReceiptRecord_eq_dec : EqDecision GovernanceReceiptRecord.
Proof. solve_decision. Defined.
#[global] Instance AttestationRevocation_eq_dec : EqDecision AttestationRevocation.
Proof. solve_decision. Defined.
#[global] Instance AttestationRecord_eq_dec : EqDecision AttestationRecord.
Proof. solve_decision. Defined.
#[global] Instance ValidatorSnapshotRecord_eq_dec : EqDecision ValidatorSnapshotRecord.
Proof. solve_decision. Defined.
#[global] Instance EffectRecord_eq_dec : EqDecision EffectRecord.
Proof. solve_decision. Defined.
#[global] Instance PendingProposalRecord_eq_dec : EqDecision PendingProposalRecord.
Proof. solve_decision. Defined.
#[global] Instance PendingUpgrade_eq_dec : EqDecision PendingUpgrade.
Proof. solve_decision. Defined.
#[global] Instance StateSnapshotRecord_eq_dec : EqDecision StateSnapshotRecord.
Proof. solve_decision. Defined.
#[global] Instance TrustedCheckpointMetadata_eq_dec : EqDecision TrustedCheckpointMetadata.
Proof. solve_decision. Defined.
#[global] Instance TrustedCheckpointRecord_eq_dec : EqDecision TrustedCheckpointRecord.
Proof. solve_decision. Defined.

(** An encoding of the records of a table, by their position. *)
Definition table_serde {R} `{EqDecision R} (table : list R) : Serde R := {|
  to_cbor := fun r => (fun ix => be_bytes 8 (N.of_nat ix.1)) <$> list_find (eq r) table;
  of_cbor := fun b => table !! N.to_nat (of_be_bytes b)
|}.

Lemma table_serde_laws {R} `{EqDecision R} (table : list R) :
  len table <= u64_max -> @SerdeLaws R (table_serde table).
Proof.
  intros Hlen r b. cbn. intros ([i x] & Hf & ->)%fmap_Some. apply list_find_Some in Hf as (Hi & <- & _).
  cbn [fst]. pose proof (lookup_lt_Some _ _ _ Hi). unfold len in Hlen.
  rewrite of_be_bytes_small by (change (256 ^ N.of_nat 8) with 18446744073709551616; lia).
  by rewrite Nat2N.id.
Qed.

(** ** Witnesses *)

#[local] Existing Instance example_shake.

Lemma genesis_restored :
  record_into_state (state_into_record Ex.genesis) (st_chain_id Ex.genesis) = Ok Ex.genesis.
Proof. vm_cast_no_check (@eq_refl (outcome StorageError.t _) (Ok Ex.genesis)). Qed.

Lemma snapshot_roundtrip_witness : snapshot_ok Ex.genesis.
Proof.
  apply (snapshot_roundtrip Ex.genesis); [exact (ci_store _ Ex.genesis_inv)|].
  exact genesis_restored.
Defined.
