(* ===== verification/Upgrade.v ===== *)
(** * Software upgrade handlers: [pqc-state/src/upgrade.rs].

    The registry of state migrations and the loop that runs the chain of handlers
    from one format version to another.  The loop has no bound of its own, so the
    model runs it with fuel and returns [None] while it is still running; a registry
    whose handlers raise the version needs at most one round per version. *)

From S2P Require Import Prelude Crypto Types Cbor Payloads Tx FeeMarket Leaves Store StoreInv.
From S2P Require Import Records.

(** The trait [UpgradeHandler]; [name] is only logged. *)
Record UpgradeHandler := mkUpgradeHandler {
  uh_source_version : N;
  uh_to_version : N;
  uh_migrate : StateStore -> outcome ApplyError.t StateStore
}.

Abbreviation UpgradeRegistry := (list UpgradeHandler).

(** [push] followed by the stable [sort_by_key] of a list that is sorted already. *)
Fixpoint insert_handler (h : UpgradeHandler) (handlers : UpgradeRegistry) : UpgradeRegistry :=
  match handlers with
  | [] => [h]
  | g :: rest =>
      if uh_source_version h <? uh_source_version g then h :: handlers
      else g :: insert_handler h rest
  end.

Definition register (registry : UpgradeRegistry) (h : UpgradeHandler) : UpgradeRegistry :=
  insert_handler h registry.

Definition find_handler (registry : UpgradeRegistry) (current : N) : option UpgradeHandler :=
  snd <$> list_find (fun h => uh_source_version h = current) registry.

(** [while current < to_version { .. }] *)
Fixpoint migrate_loop (fuel : nat) (registry : UpgradeRegistry) (current to_version : N)
    (store : StateStore) : option (outcome ApplyError.t StateStore) :=
  match fuel with
  | O => None
  | S fuel' =>
      if current <? to_version then
        match find_handler registry current with
        | None => Some (Err (ApplyError.MigrationNoHandler current to_version))
        | Some h =>
            match uh_migrate h store with
            | Ok store' => migrate_loop fuel' registry (uh_to_version h) to_version store'
            | r => Some r
            end
        end
      else Some (Ok store)
  end.

Definition run_migrations (fuel : nat) (registry : UpgradeRegistry) (from_version to_version : N)
    (store : StateStore) : option (outcome ApplyError.t StateStore) :=
  if from_version =? to_version then Some (Ok store)
  else migrate_loop fuel registry from_version to_version store.

Definition V1ToV2Handler : UpgradeHandler := mkUpgradeHandler 1 2 (fun store => Ok store).
Definition V2ToV3Handler : UpgradeHandler := mkUpgradeHandler 2 3 (fun store => Ok store).

Definition global_registry : UpgradeRegistry :=
  register (register [] V1ToV2Handler) V2ToV3Handler.

(** ** Termination *)

(** Every handler raises the version. *)
Definition progressive (registry : UpgradeRegistry) : Prop :=
  forall h, h ∈ registry -> uh_source_version h < uh_to_version h.

(** An unbroken chain of handlers that reaches [v'] from [v]. *)
Inductive migrates (registry : UpgradeRegistry) (v' : N) : N -> StateStore -> StateStore -> Prop :=
  | migrates_done v store : v' <= v -> migrates registry v' v store store
  | migrates_step v h store store1 store' :
      v < v' -> find_handler registry v = Some h -> uh_migrate h store = Ok store1 ->
      migrates registry v' (uh_to_version h) store1 store' -> migrates registry v' v store store'.

Section termination.
Implicit Types (registry : UpgradeRegistry) (store : StateStore).

Lemma insert_handler_elem h g registry : g ∈ insert_handler h registry <-> g = h \/ g ∈ registry.
Proof.
  induction registry as [|x registry IH]; cbn.
  - rewrite list_elem_of_singleton, elem_of_nil. naive_solver.
  - destruct (_ <? _); rewrite ?elem_of_cons, ?IH; naive_solver.
Qed.

Lemma find_handler_Some registry v h :
  find_handler registry v = Some h -> h ∈ registry /\ uh_source_version h = v.
Proof.
  unfold find_handler. intros ([i h'] & (Hi & ? & _)%list_find_Some & ->)%fmap_Some.
  by apply list_elem_of_lookup_2 in Hi.
Qed.

(** A result does not depend on the fuel. *)
Lemma migrate_loop_more fuel fuel' registry v v' store r :
  migrate_loop fuel registry v v' store = Some r -> (fuel <= fuel')%nat ->
  migrate_loop fuel' registry v v' store = Some r.
Proof.
  revert fuel' v store. induction fuel as [|fuel IH]; intros [|fuel'] v store; cbn; try done; [lia|].
  intros Hr Hle. destruct (v <? v'); [|done]. destruct (find_handler registry v) as [h|]; [|done].
  destruct (uh_migrate h store); [|done|done]. apply IH; [done|lia].
Qed.

Lemma migrate_loop_total registry v v' store :
  progressive registry ->
  exists r, migrate_loop (S (N.to_nat (v' - v))) registry v v' store = Some r.
Proof.
  intros Hp. remember (N.to_nat (v' - v)) as n eqn:Hn.
  assert (N.to_nat (v' - v) <= n)%nat as Hle by lia. clear Hn.
  revert v store Hle. induction n as [|n IH]; intros v store Hle; cbn.
  - destruct (N.ltb_spec v v'); [lia|by eexists].
  - destruct (N.ltb_spec v v'); [|by eexists].
    destruct (find_handler registry v) as [h|] eqn:Hh; [|by eexists].
    destruct (uh_migrate h store) as [store'| |]; [|by eexists|by eexists].
    apply find_handler_Some in Hh as [Hin Hsrc]. apply Hp in Hin. apply IH. lia.
Qed.

Lemma migrate_loop_migrates fuel registry v v' store store' :
  migrate_loop fuel registry v v' store = Some (Ok store') -> migrates registry v' v store store'.
Proof.
  revert v store. induction fuel as [|fuel IH]; intros v store; cbn; [done|].
  destruct (N.ltb_spec v v').
  - destruct (find_handler registry v) as [h|] eqn:Hh; [|done].
    destruct (uh_migrate h store) as [store1| |] eqn:Hm; [|done|done].
    intros Hr%IH. by eapply migrates_step.
  - intros [= <-]. by constructor.
Qed.

Lemma run_migrations_total registry from to store :
  progressive registry ->
  exists r, (forall fuel, (N.to_nat (to - from) < fuel)%nat ->
      run_migrations fuel registry from to store = Some r) /\
    (forall store', r = Ok store' -> from <= to -> migrates registry to from store store').
Proof.
  intros Hp. unfold run_migrations. destruct (N.eqb_spec from to) as [->|Hne].
  - exists (Ok store). split; [done|]. intros store' [= <-] _. constructor. lia.
  - destruct (migrate_loop_total registry from to store Hp) as [r Hr]. exists r. split.
    + intros fuel Hf. eapply migrate_loop_more; [exact Hr|lia].
    + intros store' -> _. by eapply migrate_loop_migrates.
Qed.

Lemma stuck_handler registry v h to store fuel :
  find_handler registry v = Some h -> uh_to_version h = v -> (forall s, uh_migrate h s = Ok s) ->
  v < to -> run_migrations fuel registry v to store = None.
Proof.
  intros Hh Hto Hm Hlt. unfold run_migrations. rewrite (proj2 (N.eqb_neq _ _)) by lia.
  induction fuel as [|fuel IH]; cbn; [done|].
  by rewrite (proj2 (N.ltb_lt _ _)), Hh, Hm, Hto by done.
Qed.

Lemma global_registry_progressive : progressive global_registry.
Proof.
  intros h. unfold global_registry, register. rewrite !insert_handler_elem.
  intros [->|[->|?%elem_of_nil]]; done.
Qed.

(** C33 The migration loop ends when every handler raises the version: one round per
    version is enough fuel, more fuel changes nothing, and a successful run is an
    unbroken chain of handlers up to the target.  The compiled-in registry is of this
    kind: it brings a state of version 1, 2 or 3 to the current version unchanged and
    reports the missing handler of version 0.  A handler that keeps its version would
    make the loop run for ever. *)
Theorem run_migrations_terminates registry from to store :
  (progressive registry ->
   exists r, (forall fuel, (N.to_nat (to - from) < fuel)%nat ->
       run_migrations fuel registry from to store = Some r) /\
     (forall store', r = Ok store' -> from <= to -> migrates registry to from store store')) /\
  progressive global_registry /\
  (forall fuel, (3 < fuel)%nat -> forall v, 1 <= v <= 3 ->
     run_migrations fuel global_registry v STATE_FORMAT_VERSION store = Some (Ok store)) /\
  (forall fuel, (0 < fuel)%nat -> run_migrations fuel global_registry 0 STATE_FORMAT_VERSION store =
     Some (Err (ApplyError.MigrationNoHandler 0 STATE_FORMAT_VERSION))) /\
  (forall h fuel, find_handler registry from = Some h -> uh_to_version h = from ->
     (forall s, uh_migrate h s = Ok s) -> from < to ->
     run_migrations fuel registry from to store = None).
Proof.
  split_and!.
  - apply run_migrations_total.
  - apply global_registry_progressive.
  - intros fuel Hf v Hv. do 4 (destruct fuel as [|fuel]; [lia|]).
    assert (v = 1 \/ v = 2 \/ v = 3) as [->|[->| ->]] by lia; done.
  - intros fuel Hf. by destruct fuel; [lia|].
  - intros h fuel. apply stuck_handler.
Qed.
End termination.
