(* ===== verification/Storage.v ===== *)
(** * The block store on RocksDB: [pqc-consensus/src/storage_rocksdb.rs].

    Six column families of byte strings under byte-string keys, and the tail of the
    chain in memory.  RocksDB is the parameter [RocksDb] with its documented
    behaviour as [RocksDbLaws]: a batch is applied as a whole or not at all, an
    iterator lists a column family in key order.  A write can fail; a read or an
    iterator step does not.  Compaction, write options and log output change no
    contents and are left out. *)

From S2P Require Import Prelude Crypto Types Cbor Payloads Tx FeeMarket Leaves Store StoreInv.
From S2P Require Import ApplyAccounts ApplyValidators Governance Archival ApplyTx Mempool Block Chain.
From S2P Require Import Recovery Commit Records Upgrade.

(** ** RocksDB *)

Module Cf.
Inductive t : Set := Blocks | HashIndex | TxIndex | Checkpoints | Meta | Siblings.

Global Instance eq_dec : EqDecision t.
Proof. solve_decision. Defined.
End Cf.

(** The entries of a [WriteBatch]; the range of a deletion excludes its end. *)
Inductive BatchOp : Type :=
  | Put (cf : Cf.t) (key value : bytes)
  | Delete (cf : Cf.t) (key : bytes)
  | DeleteRange (cf : Cf.t) (from to : bytes).

Class RocksDb := {
  DB : Type;
  db_get : DB -> Cf.t -> bytes -> option bytes;
  db_iter : DB -> Cf.t -> list (bytes * bytes);
  db_write : DB -> list BatchOp -> option DB
}.

(** What an entry of a batch does to the value under one key. *)
Definition op_effect (op : BatchOp) (cf : Cf.t) (key : bytes) (old : option bytes)
    : option bytes :=
  match op with
  | Put cf' key' value => if decide (cf' = cf /\ key' = key) then Some value else old
  | Delete cf' key' => if decide (cf' = cf /\ key' = key) then None else old
  | DeleteRange cf' from to =>
      if decide (cf' = cf /\ bytes_le from key /\ bytes_lt key to) then None else old
  end.

Definition batch_effect (batch : list BatchOp) (cf : Cf.t) (key : bytes) (old : option bytes)
    : option bytes :=
  foldl (fun v op => op_effect op cf key v) old batch.

Class RocksDbLaws `{RocksDb} : Prop := {
  db_write_get db batch db' cf key :
    db_write db batch = Some db' ->
    db_get db' cf key = batch_effect batch cf key (db_get db cf key);
  db_iter_get db cf key value : (key, value) ∈ db_iter db cf <-> db_get db cf key = Some value;
  db_iter_sorted db cf : StronglySorted bytes_lt (db_iter db cf).*1
}.

Definition META_TIP_HEIGHT : bytes := bstr "tip_height".
Definition META_GENESIS_ANCHOR : bytes := bstr "genesis_anchor".
Definition META_SNAPSHOT_BASE_HEIGHT : bytes := bstr "snapshot_base_height".
Definition META_SNAPSHOT_BASE_HASH : bytes := bstr "snapshot_base_hash".
Definition META_CHAIN_ID : bytes := bstr "chain_id".

Record PruneStats := mkPruneStats {
  ps_blocks_deleted : N;
  ps_hash_index_deleted : N;
  ps_tx_index_deleted : N;
  ps_siblings_deleted : N;
  ps_checkpoints_deleted : N;
  ps_checkpoints_kept : N
}.

Definition height_to_key (height : N) : bytes := be_bytes 8 height.

Definition key_to_height (b : bytes) : outcome StorageError.t N :=
  ensure (len b =? 8) (StorageError.InvalidPersistedValue "height key must be 8 bytes") ;;
  Ok (of_be_bytes b).

(** [from..=to] *)
Definition heights (from to : N) : list N :=
  (fun i => from + N.of_nat i) <$> seq 0 (N.to_nat (to + 1 - from)).

Record RocksDbChainStore `{RocksDb} := mkRocksDbChainStore {
  rk_db : DB;
  rk_chain : ChainStore;
  rk_genesis_anchor : bytes
}.
Arguments mkRocksDbChainStore {_} rk_db rk_chain rk_genesis_anchor.
Arguments rk_db {_} _.
Arguments rk_chain {_} _.
Arguments rk_genesis_anchor {_} _.

Section storage.
Context `{Ciborium, Shake, Verifier, RocksDb}.
Context `{!Serde StoredBlockRecord, !Serde TrustedCheckpointRecord}.

(** ** Free functions *)

Definition write_batch (db : DB) (batch : list BatchOp) : outcome StorageError.t DB :=
  ok_or (db_write db batch) StorageError.RocksDb.

Definition read_meta_u64_by_name (db : DB) (key : bytes) : outcome StorageError.t (option N) :=
  match db_get db Cf.Meta key with
  | None => Ok None
  | Some b => h ← key_to_height b; Ok (Some h)
  end.

Definition read_meta_hash_by_name (db : DB) (key : bytes)
    : outcome StorageError.t (option bytes) :=
  match db_get db Cf.Meta key with
  | None => Ok None
  | Some b =>
      ensure (len b =? 32) (StorageError.InvalidPersistedValue "meta hash must be 32 bytes") ;;
      Ok (Some b)
  end.

Definition write_meta_raw (db : DB) (key value : bytes) : outcome StorageError.t DB :=
  write_batch db [Put Cf.Meta key value].

Definition read_stored_block_from_db (db : DB) (height : N)
    : outcome StorageError.t (option StoredBlock) :=
  match db_get db Cf.Blocks (height_to_key height) with
  | None => Ok None
  | Some b =>
      record ← decode_cbor_slice b;
      stored ← record_into_stored_block record height;
      Ok (Some stored)
  end.

Definition append_block_to_batch (stored : StoredBlock) : outcome StorageError.t (list BatchOp) :=
  let height_key := height_to_key (md_height (sb_metadata stored)) in
  block_cbor ← encode_stored_block_bytes stored;
  Ok (Put Cf.Blocks height_key block_cbor
      :: Put Cf.HashIndex (md_block_hash (sb_metadata stored)) height_key
      :: ((fun tx_hash => Put Cf.TxIndex tx_hash height_key) <$> blk_tx_hashes (sb_block stored))).

(** Newest to oldest: the first entry that decodes and is above height 0. *)
Fixpoint latest_pair (entries : list (bytes * bytes))
    : outcome StorageError.t (option (N * bytes)) :=
  match entries with
  | [] => Ok None
  | (_, value) :: rest =>
      match of_cbor value with
      | None => latest_pair rest
      | Some record =>
          ensure (negb (STATE_FORMAT_VERSION <? tcr_version record))
            (StorageError.BinaryTooOld (tcr_version record) STATE_FORMAT_VERSION) ;;
          if tcm_height (tcr_metadata record) =? 0 then latest_pair rest
          else Ok (Some (tcm_height (tcr_metadata record), tcm_tip_hash (tcr_metadata record)))
      end
  end.

Definition find_latest_checkpoint_pair (db : DB) : outcome StorageError.t (option (N * bytes)) :=
  latest_pair (reverse (db_iter db Cf.Checkpoints)).

(** Newest to oldest: the first entry whose state restores with its height and root. *)
Fixpoint latest_with_state (chain_id : bytes) (entries : list (bytes * bytes))
    : outcome StorageError.t (option (TrustedCheckpointMetadata * StateStore)) :=
  match entries with
  | [] => Ok None
  | (_, value) :: rest =>
      match of_cbor value with
      | None => latest_with_state chain_id rest
      | Some record =>
          check_state_format_version (tcr_version record) ;;
          let metadata := tcr_metadata record in
          if tcm_height metadata =? 0 then Ok None
          else match record_into_state (tcr_state record) chain_id with
               | Err _ => latest_with_state chain_id rest
               | Panic => Panic
               | Ok state =>
                   if negb (st_block_height state =? tcm_height metadata)
                      || negb (bool_decide (state_root state = tcm_state_root metadata))
                   then latest_with_state chain_id rest
                   else Ok (Some (metadata, state))
               end
      end
  end.

Definition find_latest_checkpoint_with_state (db : DB) (chain_id : bytes)
    : outcome StorageError.t (option (TrustedCheckpointMetadata * StateStore)) :=
  latest_with_state chain_id (reverse (db_iter db Cf.Checkpoints)).

(** ** Opening *)

Definition enforce_chain_id (st : RocksDbChainStore) (chain_id : bytes)
    : outcome StorageError.t RocksDbChainStore :=
  match db_get (rk_db st) Cf.Meta META_CHAIN_ID with
  | None =>
      db ← write_meta_raw (rk_db st) META_CHAIN_ID chain_id;
      Ok (mkRocksDbChainStore db (rk_chain st) (rk_genesis_anchor st))
  | Some stored =>
      ensure (bool_decide (stored = chain_id)) (StorageError.ChainIdMismatch chain_id stored) ;;
      Ok st
  end.

(** The loop that loads the tail into memory. *)
Definition load_block (db : DB) (chain : ChainStore) (height : N)
    : outcome StorageError.t ChainStore :=
  found ← read_stored_block_from_db db height;
  stored ← ok_or found (StorageError.MissingBlockFile height);
  '(chain, _) ← map_err StorageError.Chain (append_stored_block chain stored);
  Ok chain.

(** [h + 1] for the height of a checkpoint or snapshot. *)
Definition next_height {E} (o : option (N * bytes)) (default : N) : outcome E N :=
  match o with Some (h, _) => add_checked u64_max h 1 | None => Ok default end.

Definition snapshot_base (db : DB) : outcome StorageError.t (option (N * bytes)) :=
  height ← read_meta_u64_by_name db META_SNAPSHOT_BASE_HEIGHT;
  hash ← read_meta_hash_by_name db META_SNAPSHOT_BASE_HASH;
  Ok (match height, hash with
      | Some h, Some hash => if 0 <? h then Some (h, hash) else None
      | _, _ => None
      end).

(** From an open database on. *)
Definition rocks_open_internal (db : DB) (anchor_prev_hash : bytes)
    : outcome StorageError.t RocksDbChainStore :=
  persisted ← read_meta_hash_by_name db META_GENESIS_ANCHOR;
  '(db, genesis_anchor) ←
    match persisted with
    | Some hash => Ok (db, hash)
    | None => db ← write_meta_raw db META_GENESIS_ANCHOR anchor_prev_hash; Ok (db, anchor_prev_hash)
    end;
  tip ← read_meta_u64_by_name db META_TIP_HEIGHT;
  let tip_height := default 0 tip in
  base ← snapshot_base db;
  start_height ← next_height base 1;
  let '(base_height, base_anchor) := default (0, genesis_anchor) base in
  if tip_height =? 0 then
    Ok (mkRocksDbChainStore db (ChainStore_new_with_base base_anchor base_height) genesis_anchor)
  else
    checkpoint_window ← find_latest_checkpoint_pair db;
    let '(base_height, chain_anchor) := default (base_height, base_anchor) checkpoint_window in
    memory_load_from ← next_height checkpoint_window start_height;
    chain ← foldM (load_block db) (ChainStore_new_with_base chain_anchor base_height)
      (heights memory_load_from tip_height);
    ensure (chain_height chain =? tip_height)
      (StorageError.TipHeightMismatch tip_height (chain_height chain)) ;;
    Ok (mkRocksDbChainStore db chain genesis_anchor).

Definition rocks_open_with_chain_id (db : DB) (anchor_prev_hash chain_id : bytes)
    : outcome StorageError.t RocksDbChainStore :=
  st ← rocks_open_internal db anchor_prev_hash;
  enforce_chain_id st chain_id.

(** ** Appending and replacing *)

Definition check_commit (b : Block) (policy : option CommitQuorumPolicy)
    : outcome StorageError.t unit :=
  match policy with
  | Some p => map_err StorageError.Commit (validate_block_commit_quorum b p)
  | None => Ok tt
  end.

Definition persist_to_db (st : RocksDbChainStore) (stored : StoredBlock)
    : outcome StorageError.t DB :=
  batch ← append_block_to_batch stored;
  write_batch (rk_db st)
    (batch ++ [Put Cf.Meta META_TIP_HEIGHT (height_to_key (md_height (sb_metadata stored)))]).

Definition append_block_inner (st : RocksDbChainStore) (execution : BlockExecutionResult)
    : outcome StorageError.t (RocksDbChainStore * BlockMetadata) :=
  '(trial, metadata) ← map_err StorageError.Chain (append_block (rk_chain st) execution);
  stored ← match chain_tip trial with Some tip => Ok tip | None => Panic end;
  db ← persist_to_db st stored;
  Ok (mkRocksDbChainStore db trial (rk_genesis_anchor st), metadata).

Definition rocks_append_block (st : RocksDbChainStore) (execution : BlockExecutionResult)
    (policy : option CommitQuorumPolicy)
    : outcome StorageError.t (RocksDbChainStore * BlockMetadata) :=
  check_commit (exe_block execution) policy ;;
  append_block_inner st execution.

Definition rocks_append_block_trusted (st : RocksDbChainStore) (execution : BlockExecutionResult)
    : outcome StorageError.t (RocksDbChainStore * BlockMetadata) :=
  append_block_inner st execution.

Definition rocks_append_stored_block (st : RocksDbChainStore) (stored : StoredBlock)
    (policy : option CommitQuorumPolicy)
    : outcome StorageError.t (RocksDbChainStore * BlockMetadata) :=
  check_commit (sb_block stored) policy ;;
  '(trial, metadata) ← map_err StorageError.Chain (append_stored_block (rk_chain st) stored);
  db ← persist_to_db st stored;
  Ok (mkRocksDbChainStore db trial (rk_genesis_anchor st), metadata).

Definition sibling_key (hash : bytes) (height : N) : bytes := hash ++ height_to_key height.

Definition persist_replace_canonical (st : RocksDbChainStore) (displaced canonical : StoredBlock)
    : outcome StorageError.t DB :=
  let height := md_height (sb_metadata canonical) in
  let height_key := height_to_key height in
  displaced_cbor ← encode_stored_block_bytes displaced;
  canonical_cbor ← encode_stored_block_bytes canonical;
  write_batch (rk_db st)
    [ Put Cf.Siblings (sibling_key (md_block_hash (sb_metadata displaced)) height) displaced_cbor;
      Delete Cf.HashIndex (md_block_hash (sb_metadata displaced));
      Put Cf.Blocks height_key canonical_cbor;
      Put Cf.HashIndex (md_block_hash (sb_metadata canonical)) height_key;
      Put Cf.Meta META_TIP_HEIGHT height_key ].

Definition rocks_replace_canonical_at_height (st : RocksDbChainStore) (canonical : StoredBlock)
    (policy : option CommitQuorumPolicy)
    : outcome StorageError.t (RocksDbChainStore * StoredBlock) :=
  check_commit (sb_block canonical) policy ;;
  '(trial, displaced) ← map_err StorageError.Chain (replace_tip_block (rk_chain st) canonical);
  db ← persist_replace_canonical st displaced canonical;
  Ok (mkRocksDbChainStore db trial (rk_genesis_anchor st), displaced).

(** ** Reading *)

Definition verify_quick_finality_invariants (st : RocksDbChainStore)
    : outcome StorageError.t unit :=
  foldM (fun _ stored =>
    ensure (negb (bool_decide (blk_commit_signatures (sb_block stored) = [])))
      (StorageError.InvalidPersistedValue
         "ADR-054: post-checkpoint tail contains a block with no commit signatures"))
    tt (blocks_in_order (rk_chain st)).

(** [prefix_iterator_cf(cf, prefix).next()]: the first key from the prefix on. *)
Definition first_from (db : DB) (cf : Cf.t) (prefix : bytes) : option (bytes * bytes) :=
  snd <$> list_find (fun kv => bytes_le prefix kv.1) (db_iter db cf).

Definition read_sibling_by_hash (st : RocksDbChainStore) (hash : bytes)
    : outcome StorageError.t (option StoredBlock) :=
  match first_from (rk_db st) Cf.Siblings hash with
  | None => Ok None
  | Some (key, value) =>
      if negb (len key =? 40) || negb (bool_decide (take 32 key = hash)) then Ok None
      else
        record ← decode_cbor_slice value;
        stored ← record_into_stored_block record (of_be_bytes (drop 32 key));
        Ok (Some stored)
  end.

Definition rocks_read_stored_block_at_height (st : RocksDbChainStore) (height : N)
    : outcome StorageError.t (option StoredBlock) :=
  match get_stored_block_by_height (rk_chain st) height with
  | Some stored => Ok (Some stored)
  | None => read_stored_block_from_db (rk_db st) height
  end.

Definition rocks_export_block_bytes (st : RocksDbChainStore) (height : N)
    : outcome StorageError.t (option bytes) :=
  match get_stored_block_by_height (rk_chain st) height with
  | Some stored => b ← encode_stored_block_bytes stored; Ok (Some b)
  | None => Ok (db_get (rk_db st) Cf.Blocks (height_to_key height))
  end.

Definition get_tx_block_height (st : RocksDbChainStore) (tx_hash : TxHash)
    : outcome StorageError.t (option N) :=
  match db_get (rk_db st) Cf.TxIndex tx_hash with
  | None => Ok None
  | Some b => h ← key_to_height b; Ok (Some h)
  end.

(** The loop stops at the first height without a block. *)
Fixpoint read_range (st : RocksDbChainStore) (hs : list N)
    : outcome StorageError.t (list StoredBlock) :=
  match hs with
  | [] => Ok []
  | height :: rest =>
      found ← rocks_read_stored_block_at_height st height;
      match found with
      | Some b => bs ← read_range st rest; Ok (b :: bs)
      | None => Ok []
      end
  end.

Definition blocks_in_height_range (st : RocksDbChainStore) (from to : N)
    : outcome StorageError.t (list StoredBlock) :=
  if to <? from then Ok []
  else
    _ ← add_checked u64_max (to - from) 1;
    read_range st (heights from to).

(** ** Checkpoints *)

(** The checks of [write_trusted_checkpoint]. *)
Definition checkpoint_metadata (c : ChainStore) (state : StateStore)
    : outcome StorageError.t TrustedCheckpointMetadata :=
  let expected_height := chain_height c in
  let got_height := st_block_height state in
  ensure (got_height =? expected_height)
    (StorageError.CheckpointHeightMismatch expected_height got_height) ;;
  let expected_tip_hash := expected_prev_hash c in
  let at_height := if got_height =? 0 then None else get_metadata_by_height c got_height in
  let got_tip_hash := from_option md_block_hash (ch_anchor_prev_hash c) at_height in
  ensure (bool_decide (got_tip_hash = expected_tip_hash))
    (StorageError.CheckpointTipHashMismatch expected_tip_hash got_tip_hash) ;;
  let actual_state_root := state_root state in
  let expected_state_root := from_option md_state_root actual_state_root at_height in
  ensure (bool_decide (actual_state_root = expected_state_root))
    (StorageError.CheckpointStateRootMismatch expected_state_root actual_state_root) ;;
  Ok (mkTrustedCheckpointMetadata got_height expected_tip_hash expected_state_root).

Definition put_checkpoint (db : DB) (height : N) (b : bytes) : outcome StorageError.t DB :=
  write_batch db [Put Cf.Checkpoints (height_to_key height) b].

Definition rocks_write_trusted_checkpoint (st : RocksDbChainStore) (state : StateStore)
    : outcome StorageError.t (RocksDbChainStore * TrustedCheckpointMetadata) :=
  metadata ← checkpoint_metadata (rk_chain st) state;
  cbor ← ok_or (to_cbor (mkTrustedCheckpointRecord STATE_FORMAT_VERSION metadata
                           (state_into_record state))) StorageError.Encode;
  db ← put_checkpoint (rk_db st) (st_block_height state) cbor;
  Ok (mkRocksDbChainStore db (rk_chain st) (rk_genesis_anchor st), metadata).

Definition compact_chain_to_checkpoint (st : RocksDbChainStore) (checkpoint_height : N)
    (checkpoint_tip_hash : bytes) : RocksDbChainStore :=
  mkRocksDbChainStore (rk_db st)
    (compact_to_checkpoint checkpoint_height checkpoint_tip_hash (rk_chain st))
    (rk_genesis_anchor st).

(** ** Pruning *)

(** The entries of a column family whose height, read by [height_of], is below the
    cutoff. *)
Definition below_cutoff (cutoff : N) (height_of : bytes * bytes -> outcome StorageError.t (option N))
    (entries : list (bytes * bytes)) : outcome StorageError.t (list bytes) :=
  foldM (fun keys kv =>
    h ← height_of kv;
    Ok (match h with
        | Some h => if h <? cutoff then keys ++ [kv.1] else keys
        | None => keys
        end)) [] entries.

(** The value of an index is the height. *)
Definition index_height (kv : bytes * bytes) : outcome StorageError.t (option N) :=
  h ← key_to_height kv.2; Ok (Some h).

(** The last eight bytes of a sibling's key; a malformed key is skipped. *)
Definition sibling_height (kv : bytes * bytes) : outcome StorageError.t (option N) :=
  Ok (if len kv.1 =? 40 then Some (of_be_bytes (drop 32 kv.1)) else None).

(** The blocks counted before the first height from the cutoff on. *)
Fixpoint count_below (cutoff : N) (keys : list bytes) : outcome StorageError.t N :=
  match keys with
  | [] => Ok 0
  | k :: rest =>
      h ← key_to_height k;
      if cutoff <=? h then Ok 0 else n ← count_below cutoff rest; Ok (n + 1)
  end.

Definition checkpoint_heights (db : DB) : outcome StorageError.t (list N) :=
  collect key_to_height (db_iter db Cf.Checkpoints).*1.

Definition prune_blocks_below (st : RocksDbChainStore) (cutoff_height : N)
    : outcome StorageError.t (RocksDbChainStore * PruneStats) :=
  let db := rk_db st in
  ensure (negb (cutoff_height =? 0))
    (StorageError.InvalidPruneCutoff "cutoff of 0 would delete the genesis block") ;;
  ensure (cutoff_height <=? chain_height (rk_chain st))
    (StorageError.InvalidPruneCutoff "cutoff exceeds current tip height") ;;
  let late k := match key_to_height k with Ok h => cutoff_height <=? h | _ => cutoff_height <=? 0 end in
  ensure (existsb late (reverse (db_iter db Cf.Checkpoints).*1))
    (StorageError.InvalidPruneCutoff "no trusted checkpoint at or above the cutoff height") ;;
  blocks_deleted ← count_below cutoff_height (db_iter db Cf.Blocks).*1;
  hashes ← below_cutoff cutoff_height index_height (db_iter db Cf.HashIndex);
  txs ← below_cutoff cutoff_height index_height (db_iter db Cf.TxIndex);
  siblings ← below_cutoff cutoff_height sibling_height (db_iter db Cf.Siblings);
  all_checkpoints ← checkpoint_heights db;
  let latest := foldl N.max 0 all_checkpoints in
  let old := filter (fun h => h <> latest) all_checkpoints in
  db ← write_batch db
    (DeleteRange Cf.Blocks (height_to_key 0) (height_to_key cutoff_height)
     :: ((fun k => Delete Cf.HashIndex k) <$> hashes)
     ++ ((fun k => Delete Cf.TxIndex k) <$> txs)
     ++ ((fun k => Delete Cf.Siblings k) <$> siblings)
     ++ ((fun h => Delete Cf.Checkpoints (height_to_key h)) <$> old));
  Ok (mkRocksDbChainStore db (rk_chain st) (rk_genesis_anchor st),
      mkPruneStats blocks_deleted (len hashes) (len txs) (len siblings) (len old)
        (if bool_decide (all_checkpoints = []) then 0 else 1)).

(** ** Snapshots *)

Definition decode_snapshot_metadata (b : bytes) : outcome StorageError.t (N * bytes) :=
  record ← decode_cbor_slice b;
  check_state_format_version (tcr_version record) ;;
  Ok (tcm_height (tcr_metadata record), tcm_tip_hash (tcr_metadata record)).

Definition export_checkpoint_bytes (st : RocksDbChainStore) : option bytes :=
  snd <$> last (db_iter (rk_db st) Cf.Checkpoints).

Definition has_checkpoint (st : RocksDbChainStore) : bool :=
  negb (bool_decide (db_iter (rk_db st) Cf.Checkpoints = [])).

(** Step 1 of both imports: decode, and check the version, the height and the root. *)
Definition validate_snapshot (b chain_id : bytes)
    : outcome StorageError.t (TrustedCheckpointMetadata * StateStore) :=
  record ← decode_cbor_slice b;
  check_state_format_version (tcr_version record) ;;
  let metadata := tcr_metadata record in
  state ← record_into_state (tcr_state record) chain_id;
  ensure (st_block_height state =? tcm_height metadata)
    (StorageError.InvalidSnapshot "snapshot state height does not match metadata") ;;
  ensure (bool_decide (state_root state = tcm_state_root metadata))
    (StorageError.InvalidSnapshot "snapshot state_root does not match metadata") ;;
  Ok (metadata, state).

Definition import_external_snapshot (st : RocksDbChainStore) (b chain_id : bytes)
    : outcome StorageError.t (RocksDbChainStore * TrustedCheckpointMetadata) :=
  '(metadata, _) ← validate_snapshot b chain_id;
  db ← put_checkpoint (rk_db st) (tcm_height metadata) b;
  Ok (mkRocksDbChainStore db (rk_chain st) (rk_genesis_anchor st), metadata).

(** Step 2: one tail block. *)
Definition check_tail_block (policy : option CommitQuorumPolicy)
    (acc : ChainStore * list StoredBlock) (b : bytes)
    : outcome StorageError.t (ChainStore * list StoredBlock) :=
  let '(tail_chain, tail_stored) := acc in
  stored ← decode_block_bytes b;
  check_commit (sb_block stored) policy ;;
  '(trial, _) ← map_err StorageError.Chain (append_stored_block tail_chain stored);
  Ok (trial, tail_stored ++ [stored]).

Definition bootstrap_from_external_snapshot (st : RocksDbChainStore) (snapshot_bytes : bytes)
    (tail_block_bytes : list bytes) (chain_id : bytes)
    : outcome StorageError.t (RocksDbChainStore * TrustedCheckpointMetadata) :=
  ensure (chain_height (rk_chain st) =? 0)
    (StorageError.InvalidSnapshot "cold bootstrap requires an empty store (height must be 0)") ;;
  '(metadata, state) ← validate_snapshot snapshot_bytes chain_id;
  snapshot_policy ← match from_state_store state None with Ok p => Ok p | _ => Panic end;
  let base := ChainStore_new_with_base (tcm_tip_hash metadata) (tcm_height metadata) in
  '(tail_chain, tail_stored) ← foldM (check_tail_block snapshot_policy) (base, []) tail_block_bytes;
  let final_height := if bool_decide (tail_stored = []) then tcm_height metadata
                      else chain_height tail_chain in
  batches ← collect append_block_to_batch tail_stored;
  db ← write_batch (rk_db st)
    ([ Put Cf.Checkpoints (height_to_key (tcm_height metadata)) snapshot_bytes;
       Put Cf.Meta META_SNAPSHOT_BASE_HEIGHT (height_to_key (tcm_height metadata));
       Put Cf.Meta META_SNAPSHOT_BASE_HASH (tcm_tip_hash metadata) ]
     ++ concat batches ++ [Put Cf.Meta META_TIP_HEIGHT (height_to_key final_height)]);
  Ok (mkRocksDbChainStore db tail_chain (rk_genesis_anchor st), metadata).

Definition import_checkpoint_for_migration (st : RocksDbChainStore) (b : bytes)
    : outcome StorageError.t RocksDbChainStore :=
  record ← decode_cbor_slice b;
  check_state_format_version (tcr_version record) ;;
  db ← put_checkpoint (rk_db st) (tcm_height (tcr_metadata record)) b;
  Ok (mkRocksDbChainStore db (rk_chain st) (rk_genesis_anchor st)).

(** ** Recovery *)

Definition read_all (db : DB) (hs : list N) : outcome StorageError.t (list StoredBlock) :=
  collect (fun h =>
    found ← read_stored_block_from_db db h;
    ok_or found (StorageError.MissingBlockFile h)) hs.

Definition rocks_recover_tip (st : RocksDbChainStore) (genesis_state : StateStore)
    (fee_params : FeeParams) (fee_dist : FeeDistributionParams) (validator_pool : list Address)
    : outcome StorageError.t ReplayResult :=
  let tip_height := chain_height (rk_chain st) in
  let from_memory := map_err StorageError.Replay
    (recover_tip (rk_chain st) genesis_state fee_params fee_dist validator_pool) in
  if tip_height =? 0 then from_memory
  else
    base ← read_meta_u64_by_name (rk_db st) META_SNAPSHOT_BASE_HEIGHT;
    let snapshot_base_height := default 0 base in
    start_h ← (if 0 <? snapshot_base_height then add_checked u64_max snapshot_base_height 1
               else Ok 1);
    let chain_start := from_option (fun b => md_height (sb_metadata b)) start_h
                         (head (blocks_in_order (rk_chain st))) in
    if start_h <? chain_start then
      capacity ← sub_checked tip_height start_h;
      _ ← add_checked u64_max capacity 1;
      blocks ← read_all (rk_db st) (heights start_h tip_height);
      map_err StorageError.Replay
        (replay_blocks_from_state genesis_state (rk_genesis_anchor st) blocks fee_params fee_dist
           validator_pool)
    else from_memory.

Definition rocks_recover_tip_with_checkpoint (st : RocksDbChainStore) (genesis_state : StateStore)
    (fee_params : FeeParams) (fee_dist : FeeDistributionParams) (validator_pool : list Address)
    : outcome StorageError.t CheckpointRecoveryResult :=
  found ← find_latest_checkpoint_with_state (rk_db st) (st_chain_id genesis_state);
  match found with
  | Some (metadata, checkpoint_state) =>
      let tail := filter (fun s => tcm_height metadata < md_height (sb_metadata s))
                    (blocks_in_order (rk_chain st)) in
      replay ← map_err StorageError.Replay
        (replay_blocks_from_state checkpoint_state (tcm_tip_hash metadata) tail fee_params fee_dist
           validator_pool);
      Ok (mkCheckpointRecoveryResult replay RecoverySource.TrustedCheckpoint (Some metadata))
  | None =>
      replay ← rocks_recover_tip st genesis_state fee_params fee_dist validator_pool;
      Ok (mkCheckpointRecoveryResult replay RecoverySource.FullReplay None)
  end.

(** ** State migration *)

(** Newest to oldest: the first entry that decodes and is above height 0. *)
Fixpoint latest_entry (entries : list (bytes * bytes)) : option (bytes * TrustedCheckpointRecord) :=
  match entries with
  | [] => None
  | (key, value) :: rest =>
      match of_cbor value with
      | Some record =>
          if tcm_height (tcr_metadata record) =? 0 then latest_entry rest else Some (key, record)
      | None => latest_entry rest
      end
  end.

(** [None] while a migration is still running.  The state is read without its chain
    id, which the record does not hold. *)
Definition apply_upgrade_chain (fuel : nat) (st : RocksDbChainStore) (registry : UpgradeRegistry)
    : option (outcome StorageError.t RocksDbChainStore) :=
  match latest_entry (reverse (db_iter (rk_db st) Cf.Checkpoints)) with
  | None => Some (Ok st)
  | Some (raw_key, record) =>
      let disk_version := tcr_version record in
      if disk_version =? STATE_FORMAT_VERSION then Some (Ok st)
      else if STATE_FORMAT_VERSION <? disk_version then
        Some (Err (StorageError.BinaryTooOld disk_version STATE_FORMAT_VERSION))
      else
        match record_into_state (tcr_state record) [] with
        | Err e => Some (Err e)
        | Panic => Some Panic
        | Ok state =>
            ran ← run_migrations fuel registry disk_version STATE_FORMAT_VERSION state;
            Some (
              state ← map_err (fun _ => StorageError.MigrationFailed) ran;
              let metadata := mkTrustedCheckpointMetadata (tcm_height (tcr_metadata record))
                                (tcm_tip_hash (tcr_metadata record)) (state_root state) in
              migrated_bytes ← ok_or (to_cbor (mkTrustedCheckpointRecord STATE_FORMAT_VERSION
                metadata (state_into_record state))) StorageError.MigrationFailed;
              db ← write_batch (rk_db st) [Put Cf.Checkpoints raw_key migrated_bytes];
              Ok (mkRocksDbChainStore db (rk_chain st) (rk_genesis_anchor st)))
        end
  end.
End storage.
