(* ===== verification/StorageRep.v ===== *)
(** * The store on disk and the chain in memory agree.

    [rocks_rep] relates the column families and the in-memory tail to one linked list
    of blocks.  Every operation of the store preserves it, and opening the database
    of a store that satisfies it gives that store back. *)

From S2P Require Import Prelude Crypto Types Cbor Payloads Tx FeeMarket Leaves Store StoreInv.
From S2P Require Import ApplyAccounts ApplyValidators Governance Archival ApplyTx Mempool Block Chain.
From S2P Require Import ChainInv Recovery RecoveryProps Commit Records RecordsProps Upgrade Storage.

(** ** Column families as maps *)

Section column_families.
Context `{RocksDb, !RocksDbLaws}.
Implicit Types (db : DB) (cf : Cf.t) (k v : bytes).

Definition cf_map db cf : gmap bytes bytes := list_to_map (db_iter db cf).

Lemma sorted_lt_NoDup (l : list bytes) : StronglySorted bytes_lt l -> NoDup l.
Proof.
  induction 1 as [|x l Hl IH Hx]; constructor; [|done]. intros Hin.
  rewrite Forall_forall in Hx. by destruct (Hx x Hin) as [_ ?].
Qed.

Lemma cf_map_lookup db cf k : cf_map db cf !! k = db_get db cf k.
Proof.
  apply option_eq. intros v. unfold cf_map.
  rewrite <-elem_of_list_to_map by (apply sorted_lt_NoDup, db_iter_sorted). apply db_iter_get.
Qed.

Lemma db_iter_entries db cf : db_iter db cf = sorted_entries bytes_le (cf_map db cf).
Proof.
  symmetry. apply (sorted_entries_unique bytes_le (cf_map db cf)).
  - intros k v. rewrite cf_map_lookup. apply db_iter_get.
  - eapply NoDup_fmap_1, sorted_lt_NoDup, db_iter_sorted.
  - pose proof (db_iter_sorted db cf) as Hs. induction Hs as [|x l Hl IH Hx]; constructor; [done|].
    eapply Forall_impl; [exact Hx|]. by intros ? [].
Qed.

Lemma no_keys db cf : (forall k, db_get db cf k = None) -> db_iter db cf = [].
Proof.
  intros Hn. destruct (db_iter db cf) as [|[k v] l] eqn:Hi; [done|].
  assert ((k, v) ∈ db_iter db cf) as Hin by (rewrite Hi; by left).
  apply db_iter_get in Hin. by rewrite Hn in Hin.
Qed.
End column_families.

(** ** The effect of a batch *)

Definition op_cf (op : BatchOp) : Cf.t :=
  match op with Put cf _ _ | Delete cf _ | DeleteRange cf _ _ => cf end.

Lemma batch_effect_app b1 b2 cf k old :
  batch_effect (b1 ++ b2) cf k old = batch_effect b2 cf k (batch_effect b1 cf k old).
Proof. apply foldl_app. Qed.

Lemma batch_effect_other batch cf k old :
  Forall (fun op => op_cf op <> cf) batch -> batch_effect batch cf k old = old.
Proof.
  intros Hb. revert old. induction Hb as [|op batch Hop _ IH]; intros old; [done|].
  unfold batch_effect in *. cbn. rewrite IH. by destruct op; cbn in *; rewrite decide_False by tauto.
Qed.

Lemma puts_effect cf keys value k old :
  batch_effect ((fun key => Put cf key value) <$> keys) cf k old =
  if decide (k ∈ keys) then Some value else old.
Proof.
  revert old. induction keys as [|key keys IH]; intros old; [done|].
  cbn [fmap list_fmap]. change (Put cf key value :: ?l) with ([Put cf key value] ++ l).
  rewrite batch_effect_app, IH. cbn. repeat case_decide; set_solver.
Qed.

Lemma deletes_effect cf keys k old :
  batch_effect ((fun key => Delete cf key) <$> keys) cf k old =
  if decide (k ∈ keys) then None else old.
Proof.
  revert old. induction keys as [|key keys IH]; intros old; [done|].
  cbn [fmap list_fmap]. change (Delete cf key :: ?l) with ([Delete cf key] ++ l).
  rewrite batch_effect_app, IH. cbn. repeat case_decide; set_solver.
Qed.

(** The largest key comes last. *)
Lemma sorted_entries_insert_max (m : gmap bytes bytes) k v :
  (forall k' v', m !! k' = Some v' -> bytes_le k' k) ->
  sorted_entries bytes_le (<[k := v]> m) = sorted_entries bytes_le (delete k m) ++ [(k, v)].
Proof.
  intros Hmax. apply (sorted_entries_unique bytes_le (<[k := v]> m)).
  - intros k' v'. rewrite elem_of_app, sorted_entries_elem, list_elem_of_singleton,
      lookup_delete_Some, lookup_insert_Some. naive_solver.
  - apply NoDup_app. split_and!.
    + eapply NoDup_fmap_1, sorted_entries_NoDup_fst.
    + intros [k' v'] Hin%sorted_entries_elem [= -> ->]%list_elem_of_singleton.
      by rewrite lookup_delete_eq in Hin.
    + apply NoDup_singleton.
  - rewrite fmap_app. apply StronglySorted_app. split_and!.
    + intros x1 x2 (kv & -> & Hin)%list_elem_of_fmap ->%list_elem_of_singleton.
      destruct kv as [k1 v1]. apply sorted_entries_elem, lookup_delete_Some in Hin as [_ Hin].
      by eapply Hmax.
    + exact (sorted_entries_sorted bytes_le _).
    + repeat constructor.
Qed.

(** ** A database in memory *)

Definition mem_db : Type := Cf.t -> gmap bytes bytes.

Definition mem_op (db : mem_db) (op : BatchOp) : mem_db :=
  match op with
  | Put cf k v => fun cf' => if decide (cf = cf') then <[k := v]> (db cf') else db cf'
  | Delete cf k => fun cf' => if decide (cf = cf') then delete k (db cf') else db cf'
  | DeleteRange cf from to => fun cf' =>
      if decide (cf = cf')
      then filter (fun kv => ~ (bytes_le from kv.1 /\ bytes_lt kv.1 to)) (db cf') else db cf'
  end.

Definition example_rocksdb : RocksDb := {|
  DB := mem_db;
  db_get := fun db cf k => db cf !! k;
  db_iter := fun db cf => sorted_entries bytes_le (db cf);
  db_write := fun db batch => Some (foldl mem_op db batch)
|}.

Lemma mem_op_get db op cf k : mem_op db op cf !! k = op_effect op cf k (db cf !! k).
Proof.
  destruct op as [cf' k' v|cf' k'|cf' from to]; cbn.
  - destruct (decide (cf' = cf)) as [->|]; [|by rewrite decide_False by tauto].
    destruct (decide (k' = k)) as [->|].
    + by rewrite lookup_insert_eq, decide_True.
    + by rewrite lookup_insert_ne, decide_False by naive_solver.
  - destruct (decide (cf' = cf)) as [->|]; [|by rewrite decide_False by tauto].
    destruct (decide (k' = k)) as [->|].
    + by rewrite lookup_delete_eq, decide_True.
    + by rewrite lookup_delete_ne, decide_False by naive_solver.
  - destruct (decide (cf' = cf)) as [->|]; [|by rewrite decide_False by tauto].
    destruct (decide (bytes_le from k /\ bytes_lt k to)) as [Hr|Hr].
    + rewrite decide_True by done. apply map_lookup_filter_None. right. naive_solver.
    + rewrite decide_False by tauto. rewrite map_lookup_filter. destruct (db cf !! k); [|done].
      cbn. by rewrite option_guard_True.
Qed.

Lemma example_rocksdb_laws : @RocksDbLaws example_rocksdb.
Proof.
  split.
  - intros db batch db' cf k [= <-]. cbn. unfold batch_effect.
    revert db. induction batch as [|op batch IH]; intros db; cbn; [done|].
    rewrite IH. f_equal. apply mem_op_get.
  - intros db cf k v. apply sorted_entries_elem.
  - intros db cf. cbn. pose proof (sorted_entries_NoDup_fst bytes_le (db cf)) as Hnd.
    pose proof (sorted_entries_sorted bytes_le (db cf)) as Hs. revert Hnd Hs.
    generalize (sorted_entries bytes_le (db cf)).*1. intros l Hnd Hs.
    induction Hs as [|x l Hl IH Hx]; constructor.
    + by apply NoDup_cons_1_2, IH in Hnd.
    + apply NoDup_cons in Hnd as [Hn _]. rewrite Forall_forall in *. intros y Hy.
      split; [by apply Hx|]. by intros ->.
Qed.

(** ** The tail in memory *)

Section memory.
Context `{Ciborium, Shake, Verifier}.
Implicit Types (c : ChainStore) (l : list StoredBlock) (sb : StoredBlock).

(** The list, the anchor and the base height determine the store. *)
Lemma rep_unique c1 c2 l :
  chain_rep c1 l -> chain_rep c2 l -> ch_anchor_prev_hash c1 = ch_anchor_prev_hash c2 ->
  ch_base_height c1 = ch_base_height c2 -> c1 = c2.
Proof.
  intros Hc1 Hc2 Ha Hb. destruct c1 as [a1 bh1 bn1 t1 b1], c2 as [a2 bh2 bn2 t2 b2].
  cbn in Ha, Hb. subst a2 b2. f_equal.
  - apply map_eq. intros h. apply option_eq. intros sb.
    pose proof (cr_by_hash _ _ Hc1 h sb). pose proof (cr_by_hash _ _ Hc2 h sb). cbn in *. tauto.
  - apply map_eq. intros n. pose proof (cr_by_height _ _ Hc1 n). pose proof (cr_by_height _ _ Hc2 n).
    cbn in *. congruence.
  - pose proof (cr_tip _ _ Hc1). pose proof (cr_tip _ _ Hc2). cbn in *. congruence.
Qed.

(** A compaction at the tip leaves a tip hash without its block; the store that is
    loaded from disk has none. *)
Definition settle c : ChainStore :=
  match chain_tip c with
  | Some _ => c
  | None => mkChainStore (ch_anchor_prev_hash c) (ch_by_hash c) (ch_by_height c) None
              (ch_base_height c)
  end.

(** The blocks [l] above height [base], whose hash is [anchor]. *)
Record mem_rep c (anchor : bytes) (base : N) l : Prop := {
  mr_rep : chain_rep (settle c) l;
  mr_anchor : ch_anchor_prev_hash c = anchor;
  mr_base : ch_base_height c = base;
  mr_prev : expected_prev_hash c = last_hash anchor l
}.

Lemma settle_anchor c : ch_anchor_prev_hash (settle c) = ch_anchor_prev_hash c.
Proof. unfold settle. by destruct (chain_tip c). Qed.
Lemma settle_base c : ch_base_height (settle c) = ch_base_height c.
Proof. unfold settle. by destruct (chain_tip c). Qed.
Lemma settle_by_hash c : ch_by_hash (settle c) = ch_by_hash c.
Proof. unfold settle. by destruct (chain_tip c). Qed.
Lemma settle_by_height c : ch_by_height (settle c) = ch_by_height c.
Proof. unfold settle. by destruct (chain_tip c). Qed.

Lemma settle_blocks c : blocks_in_order (settle c) = blocks_in_order c.
Proof. unfold blocks_in_order, hashes_in_order. by rewrite settle_by_hash, settle_by_height. Qed.

Lemma settle_tip c : chain_tip (settle c) = chain_tip c.
Proof.
  unfold settle. destruct (chain_tip c) as [t|] eqn:Ht; [done|]. done.
Qed.

Lemma settle_height c : chain_height (settle c) = chain_height c.
Proof. unfold chain_height. by rewrite settle_tip, settle_base. Qed.

Lemma mem_height c anchor base l : mem_rep c anchor base l -> chain_height c = base + len l.
Proof.
  intros [Hr _ Hb _]. by rewrite <-settle_height, (rep_height _ _ Hr), settle_base, Hb.
Qed.

Lemma rep_settled c l : chain_rep c l -> settle c = c.
Proof.
  intros Hr. unfold settle. rewrite (rep_tip _ _ Hr).
  destruct (last l) eqn:Hl; [done|]. pose proof (cr_tip _ _ Hr) as Ht. rewrite Hl in Ht. cbn in Ht.
  rewrite <-Ht. by destruct c.
Qed.

Lemma rep_mem c l : chain_rep c l -> mem_rep c (ch_anchor_prev_hash c) (ch_base_height c) l.
Proof. intros Hr. split; [by rewrite (rep_settled _ _ Hr)|done|done|by apply rep_prev_hash]. Qed.

(** Appending does not look at the stale tip hash beyond its value. *)
Lemma append_settled c anchor base l sb c' m :
  mem_rep c anchor base l -> append_stored_block c sb = Ok (c', m) ->
  c' = push_stored_block sb c /\ m = sb_metadata sb /\ counted sb /\ mem_rep c' anchor base (l ++ [sb]).
Proof.
  intros [Hr Han Hb Hp] Ha.
  assert (expected_prev_hash (settle c) = expected_prev_hash c) as Hep.
  { by rewrite (rep_prev_hash _ _ Hr), settle_anchor, Han, Hp. }
  assert (push_stored_block sb (settle c) = push_stored_block sb c) as Heq.
  { unfold push_stored_block. by rewrite settle_by_hash, settle_by_height, settle_anchor, settle_base. }
  assert (validate_stored_block (settle c) sb = validate_stored_block c sb) as Hv.
  { unfold validate_stored_block, validate_position. destruct sb as [b md txs].
    by rewrite settle_by_hash, settle_by_height, settle_height, Hep. }
  unfold append_stored_block in Ha. rewrite <-Hv, <-Heq in Ha.
  destruct (append_rep _ _ _ _ _ Hr Ha) as (-> & -> & Hr'). rewrite Heq in *.
  split_and!; [done|done| |].
  - apply bind_Ok in Ha as ([] & Ha & _). by destruct (validate_stored_block_Ok _ _ Ha) as (_ & ? & _).
  - apply rep_mem in Hr'. cbn in Hr'. by rewrite Han, Hb in Hr'.
Qed.

Lemma replace_settled c anchor base l sb c' old :
  mem_rep c anchor base l -> ch_by_hash c !! sb_hash sb = None ->
  replace_tip_block c sb = Ok (c', old) ->
  exists l0, l = l0 ++ [old] /\ mem_rep c' anchor base (l0 ++ [sb]).
Proof.
  intros [Hr Han Hb Hp] Hn Hrep.
  assert (exists t, chain_tip c = Some t) as [t Ht].
  { unfold replace_tip_block in Hrep. unfold chain_tip. destruct (ch_tip_hash c) as [h|]; [|done].
    cbn in *. destruct (ch_by_hash c !! h); [by eexists|done]. }
  assert (settle c = c) as Hs by (unfold settle; by rewrite Ht). rewrite Hs in Hr.
  rewrite (rep_tip _ _ Hr) in Ht. apply last_Some in Ht as [l0 ->].
  destruct (replace_rep _ _ _ _ _ _ Hr Hn Hrep) as [-> Hr']. exists l0. split; [done|].
  apply rep_mem in Hr'. unfold replace_tip_block in Hrep. run_inv. injection Hrep as <- _.
  exact Hr'.
Qed.

Lemma compact_settled c anchor base l :
  mem_rep c anchor base l -> base + len l < u64_max ->
  mem_rep (compact_to_checkpoint (base + len l) (last_hash anchor l) c) (last_hash anchor l)
    (base + len l) [].
Proof.
  intros [Hr Han Hb Hp] Hmax. set (h := base + len l). set (hash := last_hash anchor l).
  assert (ch_by_hash (compact_to_checkpoint h hash c) = ∅) as He.
  { pose proof (compacted_all _ _ h Hr ltac:(rewrite settle_base, Hb; unfold h; lia) hash) as He.
    unfold compact_to_checkpoint in *. cbn in *. by rewrite settle_by_hash, settle_by_height in He. }
  assert (ch_by_height (compact_to_checkpoint h hash c) = ∅) as He'.
  { apply map_empty. intros n. apply map_lookup_filter_None. right. intros x Hx Hgt. cbn in Hgt.
    rewrite <-settle_by_height, (cr_by_height _ _ Hr), settle_base, Hb in Hx. case_decide; [|done].
    apply fmap_Some in Hx as (sb & Hsb%lookup_lt_Some & _). unfold h, len in Hgt. lia. }
  split.
  - assert (settle (compact_to_checkpoint h hash c) = ChainStore_new_with_base hash h) as ->;
      [|by apply rep_empty].
    unfold settle, chain_tip. rewrite He, He'. cbn. by destruct (ch_tip_hash c).
  - done.
  - done.
  - unfold expected_prev_hash in *. cbn. by destruct (ch_tip_hash c).
Qed.

Lemma heights_cons from to : from <= to -> heights from to = from :: heights (from + 1) to.
Proof.
  intros Hle. unfold heights. replace (N.to_nat (to + 1 - from)) with (S (N.to_nat (to + 1 - (from + 1))))
    by lia. cbn [seq fmap list_fmap]. rewrite <-fmap_S_seq, <-list_fmap_compose. f_equal; [lia|].
  apply list_fmap_ext. intros i x _. cbn. lia.
Qed.

Lemma heights_nil from to : to < from -> heights from to = [].
Proof. intros Hlt. unfold heights. by replace (N.to_nat (to + 1 - from)) with O by lia. Qed.

Context `{RocksDb, !Serde StoredBlockRecord}.

Lemma load_block_Ok db c h sb c' m :
  read_stored_block_from_db db h = Ok (Some sb) -> append_stored_block c sb = Ok (c', m) ->
  load_block db c h = Ok c'.
Proof. unfold load_block. intros -> Ha. cbn. by rewrite Ha. Qed.

Lemma load_tail db c l l2 :
  chain_rep c l -> linked (expected_prev_hash c) (chain_height c) l2 ->
  NoDup (sb_hash <$> l ++ l2) -> Forall counted l2 -> chain_height c + len l2 <= u64_max ->
  (forall i sb, l2 !! i = Some sb ->
     read_stored_block_from_db db (chain_height c + N.of_nat i + 1) = Ok (Some sb)) ->
  exists c', foldM (load_block db) c (heights (chain_height c + 1) (chain_height c + len l2)) = Ok c' /\
    chain_rep c' (l ++ l2) /\ ch_anchor_prev_hash c' = ch_anchor_prev_hash c /\
    ch_base_height c' = ch_base_height c.
Proof.
  revert c l. induction l2 as [|sb l2 IH]; intros c l Hr Hl Hnd Hc Hmax Hread.
  { exists c. rewrite heights_nil by (unfold len; cbn; lia). by rewrite app_nil_r. }
  destruct Hl as (Hok & Hh & Hp & Hl). apply Forall_cons in Hc as [Hcsb Hc].
  unfold len in Hmax. cbn [length] in Hmax.
  rewrite heights_cons by (unfold len; cbn [length]; lia). cbn [foldM].
  pose proof (Hread O sb eq_refl) as Hsb. rewrite N.add_0_r in Hsb.
  assert (ch_by_hash c !! sb_hash sb = None) as Hfresh.
  { rewrite rep_by_hash_None by done. rewrite fmap_app in Hnd.
    apply NoDup_app in Hnd as (_ & Hd & _). intros Hin. apply (Hd _ Hin). by left. }
  pose proof (append_fits _ _ _ Hr Hok Hcsb Hh ltac:(lia) Hp Hfresh) as Ha.
  rewrite (load_block_Ok _ _ _ _ _ _ Hsb Ha). cbn [mbind outcome_bind].
  destruct (append_rep _ _ _ _ _ Hr Ha) as (_ & _ & Hr').
  assert (chain_height (push_stored_block sb c) = chain_height c + 1) as Hh'.
  { rewrite (rep_height _ _ Hr'), (rep_height _ _ Hr). unfold len. rewrite length_app. cbn. lia. }
  assert (expected_prev_hash (push_stored_block sb c) = sb_hash sb) as Hp' by done.
  destruct (IH (push_stored_block sb c) (l ++ [sb])) as (c' & Hf & Hrep & Ha' & Hb').
  - done.
  - by rewrite Hp', Hh'.
  - by rewrite <-app_assoc.
  - done.
  - rewrite Hh'. unfold len. lia.
  - intros i sb' Hi. rewrite Hh'. replace (chain_height c + 1 + N.of_nat i + 1)
      with (chain_height c + N.of_nat (S i) + 1) by lia. by apply Hread.
  - exists c'. rewrite Hh' in Hf. split_and!; [|by rewrite <-app_assoc in Hrep|done|done].
    rewrite <-Hf. f_equal. f_equal. unfold len. cbn [length]. lia.
Qed.
End memory.

(** ** Keys *)

Lemma height_key_le h h' : h <= u64_max -> h' <= u64_max ->
  bytes_le (height_to_key h) (height_to_key h') <-> h <= h'.
Proof. intros. apply bytes_le_be; change (256 ^ N.of_nat 8) with 18446744073709551616; lia. Qed.

Lemma height_key_inj h h' : h <= u64_max -> h' <= u64_max ->
  height_to_key h = height_to_key h' <-> h = h'.
Proof.
  intros. split; [|by intros ->].
  apply be_bytes_inj; change (256 ^ N.of_nat 8) with 18446744073709551616; lia.
Qed.

Lemma key_to_height_key h : h <= u64_max -> key_to_height (height_to_key h) = Ok h.
Proof.
  intros Hh. unfold key_to_height, height_to_key, len. rewrite length_be_bytes. cbn [N.of_nat].
  change (N.pos (Pos.of_succ_nat 7) =? 8) with true. cbn [ensure mbind outcome_bind].
  by rewrite of_be_bytes_small by (change (256 ^ N.of_nat 8) with 18446744073709551616; lia).
Qed.

(** ** The representation *)

Section representation.
Context `{Ciborium, Shake, Verifier, RocksDb, !RocksDbLaws}.
Context `{!Serde StoredBlockRecord, !Serde TrustedCheckpointRecord}.
Implicit Types (st : RocksDbChainStore) (db : DB) (l : list StoredBlock) (sb : StoredBlock).

(** The checkpoints: each under the key of its height, in the current format, and none
    above the newest, which is at the given height and names the given hash. *)
Definition checkpoints_rep db (height : N) (hash : bytes) (any : bool) : Prop :=
  (forall k v, db_get db Cf.Checkpoints k = Some v -> exists record,
     of_cbor v = Some record /\ tcr_version record = STATE_FORMAT_VERSION /\
     k = height_to_key (tcm_height (tcr_metadata record)) /\
     0 < tcm_height (tcr_metadata record) <= height) /\
  (if any then exists v record, db_get db Cf.Checkpoints (height_to_key height) = Some v /\
     of_cbor v = Some record /\ tcm_height (tcr_metadata record) = height /\
     tcm_tip_hash (tcr_metadata record) = hash
   else forall k, db_get db Cf.Checkpoints k = None).

(** The height of the last block that holds a transaction. *)
Definition tx_height l (tx_hash : TxHash) : option N :=
  foldl (fun found sb => if decide (tx_hash ∈ blk_tx_hashes (sb_block sb))
                         then Some (md_height (sb_metadata sb)) else found) None l.

(** The database holds the chain [l1 ++ l2] above height [base], whose hash is
    [anchor]; the newest checkpoint, if there is [any], is between [l1] and [l2]; what
    is below the height [first] is pruned. *)
Record disk_rep db (genesis : bytes) (base : N) (anchor : bytes) (first : N) l1 l2 (any : bool)
    : Prop := {
  dr_genesis : db_get db Cf.Meta META_GENESIS_ANCHOR = Some genesis;
  dr_genesis_len : length genesis = 32%nat;
  dr_tip : exists o, read_meta_u64_by_name db META_TIP_HEIGHT = Ok o /\
    default 0 o = base + len l1 + len l2;
  dr_base : snapshot_base db = Ok (if 0 <? base then Some (base, anchor) else None);
  dr_start : base = 0 -> anchor = genesis;
  dr_max : base + len l1 + len l2 < u64_max;
  dr_linked : linked anchor base (l1 ++ l2);
  dr_counted : Forall counted (l1 ++ l2);
  dr_hashes : NoDup (sb_hash <$> l2);
  dr_blocks : forall i sb, (l1 ++ l2) !! i = Some sb -> first <= base + N.of_nat i + 1 ->
    read_stored_block_from_db db (base + N.of_nat i + 1) = Ok (Some sb);
  dr_block_keys : forall k, is_Some (db_get db Cf.Blocks k) -> exists h,
    k = height_to_key h /\ first <= h /\ base < h <= base + len l1 + len l2;
  dr_first : first <= base + len l1 + 1;
  dr_hash_index : forall k v, db_get db Cf.HashIndex k = Some v -> exists i sb,
    (l1 ++ l2) !! i = Some sb /\ sb_hash sb = k /\ first <= base + N.of_nat i + 1 /\
    v = height_to_key (base + N.of_nat i + 1);
  dr_tx_index : forall k, db_get db Cf.TxIndex k =
    h ← tx_height (l1 ++ l2) k; if first <=? h then Some (height_to_key h) else None;
  dr_checkpoints : checkpoints_rep db (base + len l1) (last_hash anchor l1) any;
  dr_no_checkpoint : any = false -> l1 = []
}.

(** The memory holds [l2]. *)
Definition rocks_rep st (base : N) (anchor : bytes) (first : N) l1 l2 (any : bool) : Prop :=
  disk_rep (rk_db st) (rk_genesis_anchor st) base anchor first l1 l2 any /\
  mem_rep (rk_chain st) (last_hash anchor l1) (base + len l1) l2.

(** *** Opening *)

Lemma latest_key db k v :
  db_get db Cf.Checkpoints k = Some v ->
  (forall k' v', db_get db Cf.Checkpoints k' = Some v' -> bytes_le k' k) ->
  exists rest, reverse (db_iter db Cf.Checkpoints) = (k, v) :: rest.
Proof.
  intros Hk Hmax. rewrite db_iter_entries. rewrite <-cf_map_lookup in Hk.
  rewrite <-(insert_id _ _ _ Hk), sorted_entries_insert_max.
  - rewrite reverse_app. by eexists.
  - intros k' v'. rewrite cf_map_lookup. apply Hmax.
Qed.

(** The newest checkpoint comes first. *)
Lemma newest_checkpoint db height hash :
  height < u64_max -> checkpoints_rep db height hash true -> exists v record rest,
  reverse (db_iter db Cf.Checkpoints) = (height_to_key height, v) :: rest /\
  of_cbor v = Some record /\ tcr_version record = STATE_FORMAT_VERSION /\
  tcm_height (tcr_metadata record) = height /\ tcm_tip_hash (tcr_metadata record) = hash /\ 0 < height.
Proof.
  intros Hmax [Hall (v & record & Hv & Hr & Hh & Hhash)].
  destruct (latest_key db (height_to_key height) v Hv) as [rest Hrest].
  { intros k' v' (r & _ & _ & -> & Hr')%Hall. apply height_key_le; lia. }
  destruct (Hall _ _ Hv) as (r & Hr' & Hver & _ & Hpos). rewrite Hr in Hr'. injection Hr' as <-.
  exists v, record, rest. split_and!; try done. lia.
Qed.

Lemma latest_pair_rep db height hash any :
  height < u64_max -> checkpoints_rep db height hash any ->
  find_latest_checkpoint_pair db = Ok (if any then Some (height, hash) else None).
Proof.
  intros Hmax Hck. unfold find_latest_checkpoint_pair. destruct any.
  - destruct (newest_checkpoint _ _ _ Hmax Hck) as (v & record & rest & -> & Hr & Hver & Hh & Hhash & Hpos).
    cbn [latest_pair]. rewrite Hr, Hver. cbn [negb ensure mbind outcome_bind].
    change (STATE_FORMAT_VERSION <? STATE_FORMAT_VERSION) with false. cbn.
    by rewrite (proj2 (N.eqb_neq _ _)), Hh, Hhash by lia.
  - by rewrite (no_keys db _ (proj2 Hck)).
Qed.

Lemma load_disk db genesis base anchor first l1 l2 any :
  disk_rep db genesis base anchor first l1 l2 any -> exists c,
  foldM (load_block db) (ChainStore_new_with_base (last_hash anchor l1) (base + len l1))
    (heights (base + len l1 + 1) (base + len l1 + len l2)) = Ok c /\
  chain_rep c l2 /\ ch_anchor_prev_hash c = last_hash anchor l1 /\ ch_base_height c = base + len l1.
Proof.
  intros Hrep. pose proof (dr_max _ _ _ _ _ _ _ _ Hrep) as Hmax.
  pose proof (dr_linked _ _ _ _ _ _ _ _ Hrep) as [_ Hl2]%linked_app.
  pose proof (dr_counted _ _ _ _ _ _ _ _ Hrep) as [_ Hc2]%Forall_app.
  destruct (load_tail db (ChainStore_new_with_base (last_hash anchor l1) (base + len l1)) [] l2)
    as (c' & Hf & Hr & Ha & Hb); try done.
  - apply rep_empty. lia.
  - apply (dr_hashes _ _ _ _ _ _ _ _ Hrep).
  - cbn. lia.
  - intros i sb Hi. cbn. pose proof (dr_first _ _ _ _ _ _ _ _ Hrep). unfold len in *.
    replace (base + N.of_nat (length l1) + N.of_nat i + 1)
      with (base + N.of_nat (length l1 + i) + 1) by lia.
    apply (dr_blocks _ _ _ _ _ _ _ _ Hrep); [|lia].
    rewrite lookup_app_r by lia. by replace (length l1 + i - length l1)%nat with i by lia.
  - by exists c'.
Qed.

Lemma open_disk db genesis base anchor first l1 l2 any a :
  disk_rep db genesis base anchor first l1 l2 any -> exists c,
  rocks_open_internal db a = Ok (mkRocksDbChainStore db c genesis) /\
  chain_rep c l2 /\ ch_anchor_prev_hash c = last_hash anchor l1 /\ ch_base_height c = base + len l1.
Proof.
  intros Hrep. pose proof (dr_max _ _ _ _ _ _ _ _ Hrep) as Hmax.
  unfold rocks_open_internal, read_meta_hash_by_name. rewrite (dr_genesis _ _ _ _ _ _ _ _ Hrep).
  assert (len genesis = 32) as -> by (unfold len; by rewrite (dr_genesis_len _ _ _ _ _ _ _ _ Hrep)).
  change (32 =? 32) with true. cbn [mbind outcome_bind ensure].
  destruct (dr_tip _ _ _ _ _ _ _ _ Hrep) as (o & -> & Htip). rewrite (dr_base _ _ _ _ _ _ _ _ Hrep).
  cbn [mbind outcome_bind]. rewrite Htip.
  assert (default (0, genesis) (if 0 <? base then Some (base, anchor) else None) =
          (base, anchor)) as Hbase.
  { destruct (N.ltb_spec 0 base); cbn; [done|]. rewrite (dr_start _ _ _ _ _ _ _ _ Hrep) by lia.
    f_equal. lia. }
  assert (next_height (E := StorageError.t) (if 0 <? base then Some (base, anchor) else None) 1 =
          Ok (base + 1)) as ->.
  { unfold next_height, add_checked. destruct (N.ltb_spec 0 base); [|f_equal; lia].
    by rewrite (proj2 (N.leb_le _ _)) by lia. }
  cbn [mbind outcome_bind]. rewrite Hbase.
  destruct (N.eqb_spec (base + len l1 + len l2) 0) as [Hz|Hne].
  - assert (l1 = [] /\ l2 = []) as [-> ->] by (unfold len in Hz; destruct l1, l2; cbn in Hz; split; done || lia).
    eexists. split_and!; [done|by apply rep_empty; lia|done|]. cbn. unfold len. cbn. lia.
  - rewrite (latest_pair_rep _ (base + len l1) _ _ ltac:(lia) (dr_checkpoints _ _ _ _ _ _ _ _ Hrep)).
    cbn [mbind outcome_bind].
    assert (any = false -> last_hash anchor l1 = anchor /\ len l1 = 0) as Hno.
    { by intros ->%(dr_no_checkpoint _ _ _ _ _ _ _ _ Hrep). }
    assert (default (base, anchor) (if any then Some (base + len l1, last_hash anchor l1) else None)
            = (base + len l1, last_hash anchor l1)) as ->.
    { destruct any; [done|]. destruct Hno as [-> ->]; [done|]. by rewrite N.add_0_r. }
    assert (next_height (E := StorageError.t)
      (if any then Some (base + len l1, last_hash anchor l1) else None) (base + 1) =
      Ok (base + len l1 + 1)) as ->.
    { unfold next_height, add_checked. destruct any; [by rewrite (proj2 (N.leb_le _ _)) by lia|].
      destruct Hno as [_ ->]; [done|]. by rewrite N.add_0_r. }
    destruct (load_disk _ _ _ _ _ _ _ _ Hrep) as (c & Hl & Hc & Ha & Hb). exists c.
    cbn [mbind outcome_bind]. rewrite Hl. cbn [mbind outcome_bind].
    by rewrite (rep_height _ _ Hc), Hb, N.eqb_refl.
Qed.

(** A store that satisfies the representation is read back from its database, up to
    the tip hash a compaction leaves behind. *)
Lemma open_rep st base anchor first l1 l2 any a :
  rocks_rep st base anchor first l1 l2 any ->
  rocks_open_internal (rk_db st) a =
    Ok (mkRocksDbChainStore (rk_db st) (settle (rk_chain st)) (rk_genesis_anchor st)).
Proof.
  intros [Hd [Hm Hma Hmb _]]. destruct (open_disk _ _ _ _ _ _ _ _ a Hd) as (c & -> & Hc & Ha & Hb).
  do 2 f_equal. eapply rep_unique; [exact Hc|exact Hm| |].
  - by rewrite Ha, settle_anchor, Hma.
  - by rewrite Hb, settle_base, Hmb.
Qed.

Lemma settle_twice c : settle (settle c) = settle c.
Proof. unfold settle at 1. rewrite settle_tip. destruct (chain_tip c) eqn:Ht; unfold settle; by rewrite Ht. Qed.

Lemma settle_rocks st base a first l1 l2 any :
  rocks_rep st base a first l1 l2 any ->
  rocks_rep (mkRocksDbChainStore (rk_db st) (settle (rk_chain st)) (rk_genesis_anchor st)) base a first l1 l2 any /\
  expected_prev_hash (settle (rk_chain st)) = expected_prev_hash (rk_chain st).
Proof.
  intros [Hd [Hc Ha Hb Hp]]. split.
  - split; [done|]. split; cbn [rk_chain].
    + by rewrite settle_twice.
    + by rewrite settle_anchor.
    + by rewrite settle_base.
    + by rewrite (rep_prev_hash _ _ Hc), settle_anchor, Ha.
  - by rewrite (rep_prev_hash _ _ Hc), settle_anchor, Ha, Hp.
Qed.
End representation.
