(* ===== verification/StorageProps.v ===== *)
(** * The operations of the block store on RocksDB.

    Each operation writes one batch; [disk_rep] holds before and after it, so that a
    node that stops at any point opens its database again.  [StorageHistory] and
    [RestartProps] draw the conclusions. *)

From S2P Require Import Prelude Crypto Types Cbor Payloads Tx FeeMarket Leaves Store StoreInv.
From S2P Require Import ApplyAccounts ApplyValidators Governance Archival ApplyTx Mempool Block Chain.
From S2P Require Import ChainInv Recovery RecoveryProps Commit Records RecordsProps Upgrade Storage.
From S2P Require Import StorageRep.

(** ** What the representation reads *)

(** Two databases, of one library or of two, with the same chain. *)
Section agreement.
Context `{Ciborium, Shake, Verifier, !Serde StoredBlockRecord, !Serde TrustedCheckpointRecord}.
Context (R R' : RocksDb) (db : @DB R) (db' : @DB R').

Definition agree : Prop := forall cf k, cf <> Cf.Siblings -> (cf = Cf.Meta -> k <> META_CHAIN_ID) ->
  db_get db' cf k = db_get db cf k.

Lemma disk_agree genesis base anchor first l1 l2 any :
  agree -> disk_rep db genesis base anchor first l1 l2 any ->
  disk_rep db' genesis base anchor first l1 l2 any.
Proof.
  intros Ha [Hgen Hglen Htip Hbase Hst Hmx Hlk Hcnt Hnd Hblk Hkeys Hfst Hhi Hti Hck Hno].
  assert (forall cf k, cf <> Cf.Siblings -> cf <> Cf.Meta -> db_get db' cf k = db_get db cf k) as Hsame.
  { intros. by apply Ha. }
  unfold read_meta_u64_by_name, snapshot_base, read_meta_hash_by_name, read_stored_block_from_db in *.
  split; try done.
  - by rewrite Ha.
  - unfold read_meta_u64_by_name. by rewrite Ha.
  - unfold snapshot_base, read_meta_u64_by_name, read_meta_hash_by_name. by rewrite !Ha.
  - intros i sb. unfold read_stored_block_from_db. rewrite Hsame by done. apply Hblk.
  - intros k. rewrite Hsame by done. apply Hkeys.
  - intros k v. rewrite Hsame by done. apply Hhi.
  - intros k. rewrite Hsame by done. apply Hti.
  - destruct Hck as [Hall Hany]. split.
    + intros k v. rewrite Hsame by done. apply Hall.
    + destruct any; [|intros k; by rewrite Hsame].
      destruct Hany as (v & r & Hv & Hr). exists v, r. by rewrite Hsame.
Qed.
End agreement.

Section operations.
Context `{Ciborium, Shake, Verifier, RocksDb, !RocksDbLaws}.
Context `{!Serde StoredBlockRecord, !Serde TrustedCheckpointRecord}.
Context `{!SerdeLaws StoredBlockRecord, !SerdeLaws TrustedCheckpointRecord}.
Implicit Types (st : RocksDbChainStore) (db : DB) (l : list StoredBlock) (sb : StoredBlock).

(** ** Databases that agree *)

Lemma read_meta_agree db db' key :
  db_get db' Cf.Meta key = db_get db Cf.Meta key ->
  read_meta_u64_by_name db' key = read_meta_u64_by_name db key /\
  read_meta_hash_by_name db' key = read_meta_hash_by_name db key.
Proof. unfold read_meta_u64_by_name, read_meta_hash_by_name. by intros ->. Qed.

Lemma read_block_agree db db' h :
  db_get db' Cf.Blocks (height_to_key h) = db_get db Cf.Blocks (height_to_key h) ->
  read_stored_block_from_db db' h = read_stored_block_from_db db h.
Proof. unfold read_stored_block_from_db. by intros ->. Qed.

Lemma snapshot_base_agree db db' :
  (forall key, key <> META_TIP_HEIGHT -> db_get db' Cf.Meta key = db_get db Cf.Meta key) ->
  snapshot_base db' = snapshot_base db.
Proof.
  intros Hm. unfold snapshot_base.
  by rewrite (proj1 (read_meta_agree _ _ _ (Hm META_SNAPSHOT_BASE_HEIGHT ltac:(done)))),
    (proj2 (read_meta_agree _ _ _ (Hm META_SNAPSHOT_BASE_HASH ltac:(done)))).
Qed.

Lemma checkpoints_agree db db' height hash any :
  (forall key, db_get db' Cf.Checkpoints key = db_get db Cf.Checkpoints key) ->
  checkpoints_rep db height hash any -> checkpoints_rep db' height hash any.
Proof.
  intros Hc [Hall Hany]. split.
  - intros k v. rewrite Hc. apply Hall.
  - destruct any; [|intros k; by rewrite Hc]. by setoid_rewrite Hc.
Qed.

(** ** Appending *)

Lemma encode_block_Ok sb b :
  stored_ok sb -> readable sb -> encode_stored_block_bytes sb = Ok b ->
  exists record, of_cbor b = Some record /\
    record_into_stored_block record (md_height (sb_metadata sb)) = Ok sb.
Proof.
  intros Hok Hr He. unfold encode_stored_block_bytes in He. run_inv.
  exists x. split; [by apply of_to_cbor|]. by apply stored_record_roundtrip; [apply so_bodies|..].
Qed.

Lemma read_written db sb b :
  stored_ok sb -> readable sb -> encode_stored_block_bytes sb = Ok b ->
  db_get db Cf.Blocks (height_to_key (md_height (sb_metadata sb))) = Some b ->
  read_stored_block_from_db db (md_height (sb_metadata sb)) = Ok (Some sb).
Proof.
  intros Hok Hr He Hg. destruct (encode_block_Ok _ _ Hok Hr He) as (record & Hrec & Hsb).
  unfold read_stored_block_from_db, decode_cbor_slice. rewrite Hg, Hrec. cbn. by rewrite Hsb.
Qed.

(** What the batch of one block does to each family. *)
Lemma append_batch_effect sb batch cf k old :
  append_block_to_batch sb = Ok batch -> exists b,
  encode_stored_block_bytes sb = Ok b /\
  batch_effect batch cf k old =
    let hk := height_to_key (md_height (sb_metadata sb)) in
    match cf with
    | Cf.Blocks => if decide (k = hk) then Some b else old
    | Cf.HashIndex => if decide (k = sb_hash sb) then Some hk else old
    | Cf.TxIndex => if decide (k ∈ blk_tx_hashes (sb_block sb)) then Some hk else old
    | _ => old
    end.
Proof.
  intros Hb. unfold append_block_to_batch in Hb. run_inv. exists x. split; [done|].
  change (Put ?c ?a ?b :: Put ?c' ?a' ?b' :: ?l) with ([Put c a b; Put c' a' b'] ++ l).
  rewrite batch_effect_app. destruct (decide (cf = Cf.TxIndex)) as [->|Hne].
  - by rewrite puts_effect.
  - rewrite batch_effect_other.
    + destruct cf; cbn; try done; repeat case_decide; naive_solver.
    + apply Forall_fmap, Forall_forall. intros ? _ <-. done.
Qed.

(** The database with one more block, whose encoding is [b]. *)
Definition appended db db' sb (b : bytes) : Prop :=
  forall cf k, db_get db' cf k =
    let hk := height_to_key (md_height (sb_metadata sb)) in
    let old := db_get db cf k in
    match cf with
    | Cf.Blocks => if decide (k = hk) then Some b else old
    | Cf.HashIndex => if decide (k = sb_hash sb) then Some hk else old
    | Cf.TxIndex => if decide (k ∈ blk_tx_hashes (sb_block sb)) then Some hk else old
    | Cf.Meta => if decide (k = META_TIP_HEIGHT) then Some hk else old
    | _ => old
    end.

Lemma persist_Ok st sb db' :
  persist_to_db st sb = Ok db' -> exists b,
  encode_stored_block_bytes sb = Ok b /\ appended (rk_db st) db' sb b.
Proof.
  unfold persist_to_db, write_batch. intros Hp. run_inv.
  destruct (append_batch_effect _ _ Cf.Blocks [] None H4) as (b & Hb & _). exists b. split; [done|].
  intros cf k. rewrite (db_write_get _ _ _ _ _ Hp), batch_effect_app.
  destruct (append_batch_effect _ _ cf k (db_get (rk_db st) cf k) H4) as (b' & Hb' & ->).
  rewrite Hb in Hb'. injection Hb' as <-. destruct cf; cbn; try done.
  repeat case_decide; naive_solver.
Qed.

Lemma tx_height_snoc l sb k :
  tx_height (l ++ [sb]) k =
  if decide (k ∈ blk_tx_hashes (sb_block sb)) then Some (md_height (sb_metadata sb)) else tx_height l k.
Proof. unfold tx_height. by rewrite foldl_app. Qed.

(** The block fits on a chain. *)
Record fits (anchor : bytes) (n : N) l sb : Prop := {
  fi_ok : stored_ok sb;
  fi_counted : counted sb;
  fi_readable : readable sb;
  fi_height : md_height (sb_metadata sb) = n + len l + 1;
  fi_prev : bh_prev_hash (sb_header sb) = last_hash anchor l
}.

Lemma fits_linked anchor n l sb : fits anchor n l sb -> linked anchor n l -> linked anchor n (l ++ [sb]).
Proof.
  intros [Hok _ _ Hh Hp] Hl. apply linked_app. split; [done|]. cbn. rewrite <-(so_height _ Hok).
  by split_and!.
Qed.

Lemma fits_tail anchor base pre sb rest :
  linked anchor base (pre ++ sb :: rest) -> counted sb -> readable sb -> fits anchor base pre sb.
Proof.
  intros Hl Hc Hr. apply linked_app in Hl as (_ & Hok & Hh & Hp & _). split; try done.
  by rewrite (so_height _ Hok), Hh.
Qed.

Lemma len_app {A} (l1 l2 : list A) : len (l1 ++ l2) = len l1 + len l2.
Proof. unfold len. rewrite length_app. lia. Qed.

Lemma len_cons {A} (x : A) (l : list A) : len (x :: l) = len l + 1.
Proof. unfold len. cbn [length]. lia. Qed.

(** Every index of a chain extended by one block. *)
Lemma lookup_snoc_cases {A} (l : list A) x i y :
  (l ++ [x]) !! i = Some y -> l !! i = Some y \/ (i = length l /\ y = x).
Proof. intros Hi. apply lookup_snoc_Some in Hi as [[_ ?]|[-> <-]]; auto. Qed.

Lemma disk_append db db' genesis base anchor first l1 l2 any sb b :
  disk_rep db genesis base anchor first l1 l2 any ->
  fits anchor base (l1 ++ l2) sb -> sb_hash sb ∉ sb_hash <$> l2 ->
  md_height (sb_metadata sb) < u64_max -> encode_stored_block_bytes sb = Ok b ->
  appended db db' sb b ->
  disk_rep db' genesis base anchor first l1 (l2 ++ [sb]) any.
Proof.
  intros [Hgen Hglen Htip Hbase Hst Hmx Hlk Hcnt Hnd Hblk Hkeys Hfst Hhi Hti Hck Hno] Hfit Hfresh Hmax Hb Hdb. pose proof (fi_height _ _ _ _ Hfit) as Hh.
  rewrite len_app in Hh. assert (len (l2 ++ [sb]) = len l2 + 1) as Hlen by by rewrite len_app.
  assert (forall key, key <> META_TIP_HEIGHT -> db_get db' Cf.Meta key = db_get db Cf.Meta key) as Hmeta.
  { intros key Hne. by rewrite Hdb, decide_False. }
  split; rewrite ?app_assoc.
  - by rewrite Hmeta.
  - done.
  - exists (Some (md_height (sb_metadata sb))). unfold read_meta_u64_by_name. rewrite Hdb, decide_True by done.
    rewrite key_to_height_key by lia. split; [done|]. cbn. lia.
  - by rewrite (snapshot_base_agree _ _ Hmeta).
  - done.
  - lia.
  - by apply fits_linked.
  - apply Forall_app. split; [done|]. by apply Forall_singleton, Hfit.
  - rewrite fmap_app. apply NoDup_app. split_and!; [done| |apply NoDup_singleton].
    by intros h Hin ->%list_elem_of_singleton.
  - intros i sb' [Hi|[-> ->]]%lookup_snoc_cases Hf.
    + rewrite <-(Hblk _ _ Hi Hf). apply read_block_agree. rewrite Hdb. cbn.
      apply lookup_lt_Some in Hi. rewrite length_app in Hi. unfold len in *.
      rewrite decide_False; [done|]. rewrite height_key_inj by lia. lia.
    + rewrite length_app. replace (base + _ + 1) with (md_height (sb_metadata sb)) by (unfold len in *; lia).
      apply (read_written _ _ b); [apply Hfit|apply Hfit|done|]. rewrite Hdb. cbn. by rewrite decide_True.
  - intros k. rewrite Hdb. cbn. case_decide as Hk.
    + intros _. exists (md_height (sb_metadata sb)). split; [done|]. lia.
    + intros (h & -> & Hr)%Hkeys. exists h. split; [done|]. lia.
  - done.
  - intros k v. rewrite Hdb. cbn. case_decide as Hk.
    + intros [= <-]. exists (length (l1 ++ l2)), sb. rewrite lookup_app_r, Nat.sub_diag by lia.
      rewrite length_app. unfold len in *. split_and!; [done|done|lia|]. f_equal. lia.
    + intros (i & sb' & Hi & Hrest)%Hhi. exists i, sb'. split; [|done].
      by apply lookup_app_l_Some.
  - intros k. rewrite Hdb, tx_height_snoc. cbn. case_decide; cbn; [|apply Hti].
    by rewrite (proj2 (N.leb_le _ _)) by lia.
  - eapply checkpoints_agree; [|done]. intros key. by rewrite Hdb.
  - done.
Qed.

Lemma last_hash_app anchor l1 l2 : last_hash (last_hash anchor l1) l2 = last_hash anchor (l1 ++ l2).
Proof. unfold last_hash. rewrite last_app. by destruct (last l2). Qed.

(** A block the memory holds above [l1 ++ l2] fits there. *)
Lemma mem_fits c base anchor l1 l2 sb :
  mem_rep c (last_hash anchor l1) (base + len l1) (l2 ++ [sb]) -> counted sb -> readable sb ->
  fits anchor base (l1 ++ l2) sb /\ sb_hash sb ∉ sb_hash <$> l2.
Proof.
  intros [Hr Ha Hb _] Hc Hrd. split.
  - pose proof (cr_linked _ _ Hr) as Hl. rewrite settle_anchor, settle_base, Ha, Hb in Hl.
    apply linked_app in Hl as (_ & Hok & Hh & Hp & _). split; try done.
    + rewrite (so_height _ Hok), Hh, len_app. lia.
    + by rewrite Hp, last_hash_app.
  - pose proof (cr_hashes _ _ Hr) as Hnd. rewrite fmap_app in Hnd.
    apply NoDup_app in Hnd as (_ & Hd & _). intros Hin. apply (Hd _ Hin). by left.
Qed.

Lemma append_rocks st base anchor first l1 l2 any sb c' m db' :
  rocks_rep st base anchor first l1 l2 any -> readable sb ->
  md_height (sb_metadata sb) < u64_max ->
  append_stored_block (rk_chain st) sb = Ok (c', m) -> persist_to_db st sb = Ok db' ->
  rocks_rep (mkRocksDbChainStore db' c' (rk_genesis_anchor st)) base anchor first l1 (l2 ++ [sb]) any.
Proof.
  intros [Hd Hm] Hr Hmax Ha Hp. destruct (append_settled _ _ _ _ _ _ _ Hm Ha) as (_ & _ & Hc & Hm').
  destruct (mem_fits _ _ _ _ _ _ Hm' Hc Hr) as [Hfit Hfresh].
  destruct (persist_Ok _ _ _ Hp) as (b & Hb & Happ). split; [|done].
  by eapply disk_append.
Qed.

Lemma push_tip sb c : chain_tip (push_stored_block sb c) = Some sb.
Proof. unfold chain_tip. cbn. by rewrite lookup_insert_eq. Qed.

(** Both ways of appending store one block, that of the execution or the given one. *)
Lemma append_execution_Ok st exe st' m :
  append_block_inner st exe = Ok (st', m) -> exists c' db',
  append_stored_block (rk_chain st) (stored_of exe) = Ok (c', m) /\
  persist_to_db st (stored_of exe) = Ok db' /\
  st' = mkRocksDbChainStore db' c' (rk_genesis_anchor st).
Proof.
  unfold append_block_inner. intros Ha.
  apply bind_Ok in Ha as ([trial md] & Happ%map_err_Ok & Ha).
  destruct (stored_of_counted _ _ _ _ Happ) as [Hst _].
  assert (trial = push_stored_block (stored_of exe) (rk_chain st)) as ->.
  { clear Ha. unfold append_stored_block in Hst. run_inv. by injection Hst as <- _. }
  rewrite push_tip in Ha. run_inv. injection Ha as <- <-. by eexists _, _.
Qed.

(** ** Replacing the tip *)

Definition replaced db db' old sb (b : bytes) : Prop :=
  forall cf k, cf <> Cf.Siblings -> db_get db' cf k =
    let hk := height_to_key (md_height (sb_metadata sb)) in
    let prior := db_get db cf k in
    match cf with
    | Cf.Blocks => if decide (k = hk) then Some b else prior
    | Cf.HashIndex => if decide (k = sb_hash sb) then Some hk
                      else if decide (k = sb_hash old) then None else prior
    | Cf.Meta => if decide (k = META_TIP_HEIGHT) then Some hk else prior
    | _ => prior
    end.

Lemma persist_replace_Ok st old sb db' :
  persist_replace_canonical st old sb = Ok db' -> exists b old_b,
  encode_stored_block_bytes sb = Ok b /\ replaced (rk_db st) db' old sb b /\
  encode_stored_block_bytes old = Ok old_b /\
  forall k, db_get db' Cf.Siblings k =
    if decide (k = sibling_key (sb_hash old) (md_height (sb_metadata sb))) then Some old_b
    else db_get (rk_db st) Cf.Siblings k.
Proof.
  unfold persist_replace_canonical, write_batch. intros Hp. run_inv. exists x0, x.
  split_and!; [done| |done|].
  - intros cf k Hne. rewrite (db_write_get _ _ _ _ _ Hp). unfold batch_effect. cbn [foldl op_effect].
    fold (sb_hash sb) (sb_hash old). destruct cf; try done; repeat case_decide; naive_solver.
  - intros k. rewrite (db_write_get _ _ _ _ _ Hp). unfold batch_effect. cbn [foldl op_effect].
    fold (sb_hash sb) (sb_hash old). repeat case_decide; naive_solver.
Qed.

Lemma disk_replace db db' genesis base anchor first l1 l2 any old sb b :
  disk_rep db genesis base anchor first l1 (l2 ++ [old]) any ->
  fits anchor base (l1 ++ l2) sb -> sb_hash sb ∉ sb_hash <$> l2 ->
  blk_tx_hashes (sb_block sb) = blk_tx_hashes (sb_block old) ->
  encode_stored_block_bytes sb = Ok b -> replaced db db' old sb b ->
  disk_rep db' genesis base anchor first l1 (l2 ++ [sb]) any.
Proof.
  intros [Hgen Hglen Htip Hbase Hst Hmx Hlk Hcnt Hnd Hblk Hkeys Hfst Hhi Hti Hck Hno].
  intros Hfit Hfresh Htx Hb Hdb. pose proof (fi_height _ _ _ _ Hfit) as Hh. rewrite len_app in Hh.
  assert (forall x, len (l2 ++ [x]) = len l2 + 1) as Hlen by (intros; by rewrite len_app).
  rewrite Hlen in Htip, Hmx, Hkeys.
  assert (forall key, key <> META_TIP_HEIGHT -> db_get db' Cf.Meta key = db_get db Cf.Meta key) as Hmeta.
  { intros key Hne. by rewrite Hdb, decide_False. }
  rewrite app_assoc in *. pose proof Hlk as [Hlk1 (Hoko & Hho & _)]%linked_app.
  assert (md_height (sb_metadata old) = md_height (sb_metadata sb)) as Hho'.
  { rewrite (so_height _ Hoko), Hho, len_app. lia. }
  split; rewrite ?Hlen, ?app_assoc.
  - by rewrite Hmeta.
  - done.
  - exists (Some (md_height (sb_metadata sb))). unfold read_meta_u64_by_name.
    rewrite Hdb, decide_True by done. rewrite key_to_height_key by lia. split; [done|]. cbn. lia.
  - by rewrite (snapshot_base_agree _ _ Hmeta).
  - done.
  - done.
  - by apply fits_linked.
  - apply Forall_app in Hcnt as [Hcnt _]. apply Forall_app. split; [done|].
    by apply Forall_singleton, Hfit.
  - rewrite fmap_app in *. apply NoDup_app in Hnd as (Hnd & _ & _).
    apply NoDup_app. split_and!; [done| |apply NoDup_singleton].
    by intros h Hin ->%list_elem_of_singleton.
  - intros i sb' [Hi|[-> ->]]%lookup_snoc_cases Hf.
    + rewrite <-(Hblk _ _ (lookup_app_l_Some _ _ _ _ Hi) Hf). apply read_block_agree.
      apply lookup_lt_Some in Hi. rewrite length_app in Hi. unfold len in *.
      rewrite Hdb, decide_False; [done| |done]. rewrite height_key_inj by lia. lia.
    + rewrite length_app. replace (base + _ + 1) with (md_height (sb_metadata sb)) by (unfold len in *; lia).
      apply (read_written _ _ b); [apply Hfit|apply Hfit|done|]. by rewrite Hdb, decide_True.
  - intros k. rewrite Hdb by done. cbn. case_decide as Hk; [|apply Hkeys].
    intros _. exists (md_height (sb_metadata sb)). split; [done|]. lia.
  - done.
  - intros k v. rewrite Hdb by done. cbn. case_decide as Hk.
    + intros [= <-]. exists (length (l1 ++ l2)), sb. rewrite lookup_app_r, Nat.sub_diag by lia.
      rewrite length_app. unfold len in *. split_and!; [done|done|lia|]. f_equal. lia.
    + case_decide as Ho; [done|]. intros (i & sb' & Hi & Hs & Hrest)%Hhi. exists i, sb'.
      apply lookup_snoc_cases in Hi as [Hi|[-> ->]]; [|by symmetry in Hs]. split; [|done].
      by apply lookup_app_l_Some.
  - intros k. rewrite Hdb by done. by rewrite Hti, !tx_height_snoc, Htx, Hho'.
  - eapply checkpoints_agree; [|done]. intros key. by rewrite Hdb.
  - done.
Qed.

Lemma replace_rocks st base anchor first l1 l2 any sb policy st' old :
  rocks_rep st base anchor first l1 l2 any -> counted sb -> readable sb ->
  ch_by_hash (rk_chain st) !! sb_hash sb = None ->
  (forall tip, last l2 = Some tip -> blk_tx_hashes (sb_block sb) = blk_tx_hashes (sb_block tip)) ->
  rocks_replace_canonical_at_height st sb policy = Ok (st', old) ->
  exists l0, l2 = l0 ++ [old] /\ rocks_rep st' base anchor first l1 (l0 ++ [sb]) any.
Proof.
  intros [Hd Hm] Hc Hr Hfresh Htx Hrep. unfold rocks_replace_canonical_at_height in Hrep.
  apply bind_Ok in Hrep as ([] & _ & Hrep). apply bind_Ok in Hrep as ([trial d] & Ht%map_err_Ok & Hrep).
  run_inv. injection Hrep as <- <-. destruct (replace_settled _ _ _ _ _ _ _ Hm Hfresh Ht) as (l0 & -> & Hm').
  exists l0. split; [done|]. split; [|done].
  destruct (mem_fits _ _ _ _ _ _ Hm' Hc Hr) as [Hfit Hnew].
  destruct (persist_replace_Ok _ _ _ _ H4) as (b & _ & Hb & Hdb & _).
  eapply disk_replace; try done. apply Htx. by rewrite last_snoc.
Qed.

(** ** Checkpoints *)

Lemma checkpoint_metadata_Ok c state m :
  checkpoint_metadata c state = Ok m ->
  st_block_height state = chain_height c /\ tcm_height m = chain_height c /\
  tcm_tip_hash m = expected_prev_hash c /\ tcm_state_root m = state_root state.
Proof. unfold checkpoint_metadata. intros Hc. run_inv. cbn. split_and!; done. Qed.

Lemma write_checkpoint_Ok st state st' m :
  rocks_write_trusted_checkpoint st state = Ok (st', m) -> exists b,
  checkpoint_metadata (rk_chain st) state = Ok m /\
  to_cbor (mkTrustedCheckpointRecord STATE_FORMAT_VERSION m (state_into_record state)) = Some b /\
  rk_chain st' = rk_chain st /\ rk_genesis_anchor st' = rk_genesis_anchor st /\
  forall cf k, db_get (rk_db st') cf k =
    if decide (cf = Cf.Checkpoints /\ k = height_to_key (tcm_height m)) then Some b
    else db_get (rk_db st) cf k.
Proof.
  unfold rocks_write_trusted_checkpoint, put_checkpoint, write_batch. intros Hw. run_inv.
  injection Hw as <- <-. destruct (checkpoint_metadata_Ok _ _ _ H4) as (Hs & Hh & _).
  exists x0. split_and!; try done. intros cf k. cbn. rewrite (db_write_get _ _ _ _ _ H6).
  unfold batch_effect. cbn [foldl op_effect]. rewrite Hs, Hh.
  apply decide_ext. split; intros []; by split.
Qed.

Lemma disk_checkpoint db db' genesis base anchor first l1 l2 any m state b :
  disk_rep db genesis base anchor first l1 l2 any ->
  tcm_height m = base + len l1 + len l2 -> 0 < tcm_height m ->
  tcm_tip_hash m = last_hash anchor (l1 ++ l2) ->
  of_cbor b = Some (mkTrustedCheckpointRecord STATE_FORMAT_VERSION m state) ->
  (forall cf k, db_get db' cf k =
    if decide (cf = Cf.Checkpoints /\ k = height_to_key (tcm_height m)) then Some b
    else db_get db cf k) ->
  disk_rep db' genesis base anchor first (l1 ++ l2) [] true.
Proof.
  intros [Hgen Hglen Htip Hbase Hst Hmx Hlk Hcnt Hnd Hblk Hkeys Hfst Hhi Hti Hck Hno].
  intros Hh Hpos Hhash Hb Hdb.
  assert (forall cf k, cf <> Cf.Checkpoints -> db_get db' cf k = db_get db cf k) as Hsame.
  { intros cf k Hne. rewrite Hdb, decide_False; [done|]. by intros []. }
  assert (len (@nil StoredBlock) = 0) as Hnil by done.
  split; rewrite ?app_nil_r, ?len_app, ?Hnil, ?N.add_assoc, ?N.add_0_r; try done.
  - by rewrite Hsame.
  - by rewrite (proj1 (read_meta_agree _ _ _ (Hsame Cf.Meta META_TIP_HEIGHT ltac:(done)))).
  - rewrite (snapshot_base_agree db); [done|]. intros. by apply Hsame.
  - constructor.
  - intros i sb Hi Hf. rewrite <-(Hblk _ _ Hi Hf). by apply read_block_agree, Hsame.
  - intros k. rewrite Hsame by done. apply Hkeys.
  - lia.
  - intros k v. rewrite Hsame by done. apply Hhi.
  - intros k. rewrite Hsame by done. apply Hti.
  - destruct Hck as [Hall _]. rewrite <-Hh, <-Hhash. split.
    + intros k v. rewrite Hdb. case_decide as Hd.
      * intros [= <-]. eexists. split_and!; [exact Hb|done|apply Hd|done|cbn; lia].
      * intros (r & ? & ? & ? & ?)%Hall. exists r. split_and!; try done; lia.
    + eexists b, _. split_and!; [by rewrite Hdb, decide_True|exact Hb|done|done].
Qed.

Lemma checkpoint_rocks st base anchor first l1 l2 any state st' m :
  rocks_rep st base anchor first l1 l2 any -> 0 < st_block_height state ->
  rocks_write_trusted_checkpoint st state = Ok (st', m) ->
  disk_rep (rk_db st') (rk_genesis_anchor st') base anchor first (l1 ++ l2) [] true /\
  rocks_rep (compact_chain_to_checkpoint st' (tcm_height m) (tcm_tip_hash m))
    base anchor first (l1 ++ l2) [] true.
Proof.
  intros [Hd Hm] Hpos Hw. pose proof (dr_max _ _ _ _ _ _ _ _ Hd) as Hmax.
  destruct (write_checkpoint_Ok _ _ _ _ Hw) as (b & Hmeta & Hb & Hchain & Hgen & Hdb).
  destruct (checkpoint_metadata_Ok _ _ _ Hmeta) as (Hs & Hh & Hhash & _).
  rewrite (mem_height _ _ _ _ Hm) in Hs, Hh. rewrite (mr_prev _ _ _ _ Hm), last_hash_app in Hhash.
  assert (disk_rep (rk_db st') (rk_genesis_anchor st') base anchor first (l1 ++ l2) [] true) as Hd'.
  { rewrite Hgen. eapply disk_checkpoint; try done; [lia|by apply of_to_cbor]. }
  split; [done|]. split; [done|]. cbn. rewrite Hchain, Hh, Hhash, len_app, N.add_assoc, <-last_hash_app.
  apply compact_settled; [done|lia].
Qed.

(** ** Pruning *)

Lemma below_cutoff_Ok cutoff f (entries : list (bytes * bytes)) :
  (forall kv, kv ∈ entries -> exists h, f kv = Ok h) -> exists keys,
  below_cutoff cutoff f entries = Ok keys /\
  forall k, k ∈ keys <-> exists v h, (k, v) ∈ entries /\ f (k, v) = Ok (Some h) /\ h < cutoff.
Proof.
  intros Hf. induction entries as [|[k v] entries IH] using rev_ind.
  { exists []. split; [done|]. intros k. split; [by intros ?%elem_of_nil|].
    by intros (? & ? & ?%elem_of_nil & _). }
  destruct IH as (keys & Hk & Hkeys); [intros; apply Hf; set_solver|].
  destruct (Hf (k, v)) as [h Hh]; [set_solver|].
  unfold below_cutoff in *. rewrite foldM_app, Hk. cbn [mbind outcome_bind foldM]. rewrite Hh.
  cbn [mbind outcome_bind]. eexists. split; [done|]. intros k'.
  setoid_rewrite elem_of_app. setoid_rewrite list_elem_of_singleton.
  destruct h as [h|]; [destruct (N.ltb_spec h cutoff)|];
    rewrite ?elem_of_app, ?list_elem_of_singleton, Hkeys; split.
  - intros [(v' & h' & ? & ? & ?)| ->]; [exists v', h'|exists v, h]; auto.
  - intros (v' & h' & [?|[= -> ->]] & ? & ?); eauto 10.
  - intros (v' & h' & ? & ? & ?); eauto 10.
  - intros (v' & h' & [?|[= -> ->]] & Hh' & ?); [eauto 10|]. rewrite Hh in Hh'. injection Hh' as <-. lia.
  - intros (v' & h' & ? & ? & ?); eauto 10.
  - intros (v' & h' & [?|[= -> ->]] & Hh' & ?); [eauto 10|]. by rewrite Hh in Hh'.
Qed.

(** The keys of a family that are heights. *)
Lemma keys_heights (keys : list bytes) (P : N -> Prop) :
  (forall k, k ∈ keys -> exists h, k = height_to_key h /\ P h) ->
  exists hs, keys = height_to_key <$> hs /\ Forall P hs.
Proof.
  induction keys as [|k keys IH]; intros Hk; [by exists []|].
  destruct IH as (hs & -> & Hhs); [intros; apply Hk; by right|].
  destruct (Hk k) as (h & -> & Hh); [by left|]. exists (h :: hs). by split; [|constructor].
Qed.

Lemma count_below_Ok cutoff hs :
  Forall (fun h => h <= u64_max) hs -> exists n, count_below cutoff (height_to_key <$> hs) = Ok n.
Proof.
  induction 1 as [|h hs Hh _ [n IH]]; [by eexists|]. cbn [fmap list_fmap count_below].
  rewrite key_to_height_key by done. cbn [mbind outcome_bind]. destruct (cutoff <=? h); [by eexists|].
  rewrite IH. by eexists.
Qed.

Lemma iter_key db cf k : k ∈ (db_iter db cf).*1 <-> is_Some (db_get db cf k).
Proof.
  rewrite list_elem_of_fmap. split.
  - intros ([k' v] & -> & Hin). apply db_iter_get in Hin. by eexists.
  - intros [v Hv]. exists (k, v). by split; [|apply db_iter_get].
Qed.

Lemma checkpoint_keys db height hash any :
  height < u64_max -> checkpoints_rep db height hash any -> exists hs,
  (db_iter db Cf.Checkpoints).*1 = height_to_key <$> hs /\
  Forall (fun h => 0 < h <= height) hs /\ checkpoint_heights db = Ok hs /\
  (forall h, h ∈ hs -> is_Some (db_get db Cf.Checkpoints (height_to_key h))) /\
  if any then height ∈ hs else hs = [].
Proof.
  intros Hmax [Hall Hany].
  destruct (keys_heights (db_iter db Cf.Checkpoints).*1 (fun h => 0 < h <= height)) as (hs & Hk & Hhs).
  { intros k [v (r & _ & _ & -> & Hr)%Hall]%iter_key. by eexists. }
  exists hs. split_and!; [done|done|..].
  - unfold checkpoint_heights. rewrite Hk. apply collect_at_fmap. intros _ h Hin.
    rewrite Forall_forall in Hhs. apply key_to_height_key. specialize (Hhs h Hin). lia.
  - intros h Hin. apply iter_key. rewrite Hk. by apply list_elem_of_fmap_2.
  - destruct any.
    + destruct Hany as (v & r & Hv & _). assert (height_to_key height ∈ (db_iter db Cf.Checkpoints).*1) as Hin.
      { apply iter_key. by eexists. }
      rewrite Hk in Hin. apply list_elem_of_fmap in Hin as (h & Hh & Hin).
      rewrite Forall_forall in Hhs. pose proof (Hhs h Hin).
      apply height_key_inj in Hh; [by subst|lia|lia].
    + by rewrite (no_keys _ _ Hany) in Hk; destruct hs.
Qed.

(** The guard on the checkpoints compares the cutoff with the newest. *)
Lemma late_checkpoint db height hash any cutoff :
  height < u64_max -> checkpoints_rep db height hash any ->
  existsb (fun k => match key_to_height k with Ok h => cutoff <=? h | _ => cutoff <=? 0 end)
    (reverse (db_iter db Cf.Checkpoints).*1) = any && (cutoff <=? height).
Proof.
  intros Hmax Hck. destruct (checkpoint_keys _ _ _ _ Hmax Hck) as (hs & Hk & Hhs & _ & _ & Hany).
  rewrite Hk. rewrite Forall_forall in Hhs. apply eq_iff_eq_true.
  rewrite existsb_exists, andb_true_iff, N.leb_le. setoid_rewrite <-list_elem_of_In.
  setoid_rewrite elem_of_reverse. split.
  - intros (k & (h & -> & Hin)%list_elem_of_fmap & Hle). pose proof (Hhs _ Hin).
    rewrite key_to_height_key in Hle by lia. apply N.leb_le in Hle.
    destruct any; [split; [done|lia]|]. subst hs. by apply elem_of_nil in Hin.
  - intros [-> Hle]. exists (height_to_key height). split; [by apply list_elem_of_fmap_2|].
    rewrite key_to_height_key by lia. by apply N.leb_le.
Qed.

Lemma max_of hs top : top ∈ hs -> Forall (fun h => 0 < h <= top) hs -> foldl N.max 0 hs = top.
Proof.
  intros Hin Hhs. assert (forall a, a <= top -> (top ∈ hs \/ a = top) -> foldl N.max a hs = top) as Hg.
  { clear Hin. induction Hhs as [|h hs Hh _ IH]; intros a Ha Hor; cbn.
    - destruct Hor as [?%elem_of_nil|]; done.
    - apply IH; [lia|]. destruct Hor as [[Hx|?]%elem_of_cons|?]; [right; lia|auto|right; lia]. }
  apply Hg; [lia|auto].
Qed.

(** What is left in the database. *)
Record pruned db db' (cutoff top : N) : Prop := {
  pr_meta : forall k, db_get db' Cf.Meta k = db_get db Cf.Meta k;
  pr_blocks : forall k, db_get db' Cf.Blocks k =
    if decide (bytes_le (height_to_key 0) k /\ bytes_lt k (height_to_key cutoff)) then None
    else db_get db Cf.Blocks k;
  pr_index : forall cf k v, cf = Cf.HashIndex \/ cf = Cf.TxIndex ->
    db_get db' cf k = Some v <->
    db_get db cf k = Some v /\ forall h, key_to_height v = Ok h -> cutoff <= h;
  pr_checkpoints : forall k, db_get db' Cf.Checkpoints k =
    if decide (k = height_to_key top) then db_get db Cf.Checkpoints k else None
}.

Lemma deletes_other cf cf' keys k old :
  cf' <> cf -> batch_effect ((fun key => Delete cf' key) <$> keys) cf k old = old.
Proof. intros Hne. apply batch_effect_other, Forall_fmap, Forall_forall. by intros. Qed.

Lemma index_pruned db cf cutoff (keys : list bytes) k v :
  (forall k, k ∈ keys <-> exists v h, (k, v) ∈ db_iter db cf /\ index_height (k, v) = Ok (Some h) /\ h < cutoff) ->
  (if decide (k ∈ keys) then None else db_get db cf k) = Some v <->
  db_get db cf k = Some v /\ forall h, key_to_height v = Ok h -> cutoff <= h.
Proof.
  intros Hkeys. unfold index_height in Hkeys. split.
  - case_decide as Hk; [done|]. intros Hv. split; [done|]. intros h Hh.
    destruct (decide (cutoff <= h)) as [|Hlt]; [done|]. destruct Hk. apply Hkeys. exists v, h.
    split_and!; [by apply db_iter_get| |lia]. cbn. by rewrite Hh.
  - intros [Hv Hh]. rewrite decide_False; [done|]. rewrite Hkeys. intros (v' & h & Hin & Hi & Hlt).
    apply db_iter_get in Hin. rewrite Hv in Hin. injection Hin as <-. cbn in Hi. run_inv.
    injection Hi as <-. specialize (Hh _ H4). lia.
Qed.

Lemma index_total db cf :
  (forall k v, db_get db cf k = Some v -> exists h, v = height_to_key h) ->
  forall kv, kv ∈ db_iter db cf -> exists h, index_height kv = Ok h.
Proof.
  intros Hv [k v] Hin. apply db_iter_get, Hv in Hin as [h ->]. unfold index_height, key_to_height. cbn [snd].
  unfold height_to_key, len. rewrite length_be_bytes. by eexists.
Qed.

Lemma prune_write db top cutoff hashes txs siblings hs db' :
  (forall k, k ∈ hashes <-> exists v h, (k, v) ∈ db_iter db Cf.HashIndex /\
     index_height (k, v) = Ok (Some h) /\ h < cutoff) ->
  (forall k, k ∈ txs <-> exists v h, (k, v) ∈ db_iter db Cf.TxIndex /\
     index_height (k, v) = Ok (Some h) /\ h < cutoff) ->
  (db_iter db Cf.Checkpoints).*1 = height_to_key <$> hs -> Forall (fun h => 0 < h <= top) hs ->
  top < u64_max ->
  db_write db (DeleteRange Cf.Blocks (height_to_key 0) (height_to_key cutoff)
     :: ((fun k => Delete Cf.HashIndex k) <$> hashes)
     ++ ((fun k => Delete Cf.TxIndex k) <$> txs)
     ++ ((fun k => Delete Cf.Siblings k) <$> siblings)
     ++ ((fun h => Delete Cf.Checkpoints (height_to_key h)) <$> filter (fun h => h <> top) hs)) = Some db' ->
  pruned db db' cutoff top.
Proof.
  intros Hhash Htx Hk Hhs Hmax Hw.
  assert (forall cf k, db_get db' cf k =
    match cf with
    | Cf.HashIndex => if decide (k ∈ hashes) then None else db_get db cf k
    | Cf.TxIndex => if decide (k ∈ txs) then None else db_get db cf k
    | Cf.Siblings => if decide (k ∈ siblings) then None else db_get db cf k
    | Cf.Checkpoints => if decide (k ∈ height_to_key <$> filter (fun h => h <> top) hs) then None
                        else db_get db cf k
    | Cf.Blocks => if decide (bytes_le (height_to_key 0) k /\ bytes_lt k (height_to_key cutoff)) then None
                   else db_get db cf k
    | Cf.Meta => db_get db cf k
    end) as Hdb.
  { intros cf k. rewrite (db_write_get _ _ _ _ _ Hw). change (?op :: ?rest) with ([op] ++ rest) at 1. rewrite !batch_effect_app.
    rewrite (list_fmap_compose height_to_key (fun k => Delete Cf.Checkpoints k)).
    destruct cf; rewrite ?deletes_effect, ?deletes_other by done; try done.
    all: cbn; repeat case_decide; tauto. }
  split.
  - exact (Hdb Cf.Meta).
  - exact (Hdb Cf.Blocks).
  - intros cf k v [-> | ->]; rewrite Hdb; by apply index_pruned.
  - intros k. rewrite Hdb. destruct (decide (k = height_to_key top)) as [->|Hne].
    + rewrite decide_False; [done|]. intros (h & Hh & [Hne Hin]%list_elem_of_filter)%list_elem_of_fmap.
      rewrite Forall_forall in Hhs. specialize (Hhs _ Hin). apply height_key_inj in Hh; lia.
    + case_decide as Hc; [done|]. destruct (db_get db Cf.Checkpoints k) as [v|] eqn:Hv; [|done].
      destruct Hc. assert (k ∈ (db_iter db Cf.Checkpoints).*1) as Hin by (apply iter_key; by eexists).
      rewrite Hk in Hin. apply list_elem_of_fmap in Hin as (h & -> & Hin).
      apply list_elem_of_fmap_2, list_elem_of_filter. split; [|done]. by intros ->.
Qed.

Lemma prune_Ok st base anchor first l1 l2 cutoff :
  rocks_rep st base anchor first l1 l2 true -> 0 < cutoff <= base + len l1 ->
  prune_blocks_below st cutoff = Err StorageError.RocksDb \/
  exists db' stats,
    prune_blocks_below st cutoff = Ok (mkRocksDbChainStore db' (rk_chain st) (rk_genesis_anchor st), stats) /\
    pruned (rk_db st) db' cutoff (base + len l1).
Proof.
  intros [Hd Hm] Hcut. pose proof (dr_max _ _ _ _ _ _ _ _ Hd) as Hmax.
  pose proof (dr_checkpoints _ _ _ _ _ _ _ _ Hd) as Hck. assert (base + len l1 < u64_max) as Htop by lia.
  unfold prune_blocks_below. rewrite (late_checkpoint _ _ _ _ _ Htop Hck), (mem_height _ _ _ _ Hm).
  rewrite (proj2 (N.eqb_neq cutoff 0)), !(proj2 (N.leb_le _ _)) by lia. cbn [negb andb ensure mbind outcome_bind].
  destruct (keys_heights (db_iter (rk_db st) Cf.Blocks).*1 (fun h => h <= u64_max)) as (bs & -> & Hbs).
  { intros k (h & -> & Hh)%iter_key%(dr_block_keys _ _ _ _ _ _ _ _ Hd). exists h. split; [done|lia]. }
  destruct (count_below_Ok cutoff bs Hbs) as [n ->].
  destruct (below_cutoff_Ok cutoff index_height (db_iter (rk_db st) Cf.HashIndex)) as (hashes & -> & Hhash).
  { apply index_total. intros k v (i & sb & _ & _ & _ & ->)%(dr_hash_index _ _ _ _ _ _ _ _ Hd). eauto. }
  destruct (below_cutoff_Ok cutoff index_height (db_iter (rk_db st) Cf.TxIndex)) as (txs & -> & Htx).
  { apply index_total. intros k v. rewrite (dr_tx_index _ _ _ _ _ _ _ _ Hd).
    destruct (tx_height _ _) as [h|]; cbn; [|done]. destruct (first <=? h); [|done]. intros [= <-]. eauto. }
  destruct (below_cutoff_Ok cutoff sibling_height (db_iter (rk_db st) Cf.Siblings)) as (sibs & -> & _).
  { intros kv _. unfold sibling_height. eauto. }
  destruct (checkpoint_keys _ _ _ _ Htop Hck) as (hs & Hk & Hhs & -> & _ & Hin).
  cbn [mbind outcome_bind]. rewrite (max_of _ _ Hin Hhs). unfold write_batch.
  destruct (db_write _ _) as [db'|] eqn:Hw; [|by left]. right. eexists db', _. split; [done|].
  eapply prune_write; eauto.
Qed.

(** What a successful run shows. *)
Lemma prune_Ok_inv st base anchor first l1 l2 any cutoff st' stats :
  rocks_rep st base anchor first l1 l2 any -> prune_blocks_below st cutoff = Ok (st', stats) ->
  any = true /\ 0 < cutoff <= base + len l1 /\ exists db',
  st' = mkRocksDbChainStore db' (rk_chain st) (rk_genesis_anchor st) /\
  pruned (rk_db st) db' cutoff (base + len l1).
Proof.
  intros Hrep Hp. destruct (Hrep) as [Hd Hm]. pose proof (dr_max _ _ _ _ _ _ _ _ Hd).
  assert (any = true /\ 0 < cutoff <= base + len l1) as [-> Hcut].
  { unfold prune_blocks_below in Hp.
    rewrite (late_checkpoint _ (base + len l1) _ _ _ ltac:(lia) (dr_checkpoints _ _ _ _ _ _ _ _ Hd)) in Hp.
    do 3 (apply bind_Ok in Hp as ([] & ?%ensure_Ok & Hp)). bool_hyps. split; [done|]. lia. }
  split_and!; [done|lia|lia|].
  destruct (prune_Ok _ _ _ _ _ _ _ Hrep Hcut) as [He|(db' & stats' & He & Hpr)]; rewrite He in Hp; [done|].
  injection Hp as <- <-. by exists db'.
Qed.

Lemma tx_height_elem l k h : tx_height l k = Some h -> exists sb, sb ∈ l /\ md_height (sb_metadata sb) = h.
Proof.
  induction l as [|sb l IH] using rev_ind; [done|]. rewrite tx_height_snoc. case_decide.
  - intros [= <-]. exists sb. set_solver.
  - intros (sb' & ? & ?)%IH. exists sb'. set_solver.
Qed.

Lemma tx_height_bound anchor base l k h :
  linked anchor base l -> tx_height l k = Some h -> base < h <= base + len l.
Proof.
  intros Hl (sb & [i Hi]%list_elem_of_lookup & <-)%tx_height_elem.
  destruct (linked_lookup _ _ _ _ _ Hl Hi) as (Hok & Hh & _). apply lookup_lt_Some in Hi.
  rewrite (so_height _ Hok), Hh. unfold len. lia.
Qed.

Lemma key_not_below k cutoff h : k = height_to_key h -> h <= u64_max -> cutoff <= u64_max -> cutoff <= h ->
  ~ (bytes_le (height_to_key 0) k /\ bytes_lt k (height_to_key cutoff)).
Proof.
  intros -> Hh Hc Hle [_ [Hlt Hne]]. apply height_key_le in Hlt; [|done|done]. apply Hne.
  f_equal. lia.
Qed.

Lemma disk_pruned db db' genesis base anchor first l1 l2 cutoff :
  disk_rep db genesis base anchor first l1 l2 true -> pruned db db' cutoff (base + len l1) ->
  cutoff <= base + len l1 ->
  disk_rep db' genesis base anchor (N.max first cutoff) l1 l2 true.
Proof.
  intros [Hgen Hglen Htip Hbase Hst Hmx Hlk Hcnt Hnd Hblk Hkeys Hfst Hhi Hti Hck Hno].
  intros [Hmeta Hblocks Hidx Hcks] Hle. split; try done.
  - by rewrite Hmeta.
  - by rewrite (proj1 (read_meta_agree _ _ _ (Hmeta META_TIP_HEIGHT))).
  - rewrite (snapshot_base_agree db); [done|]. auto.
  - intros i sb Hi Hf. pose proof (lookup_lt_Some _ _ _ Hi) as Hlt. rewrite length_app in Hlt.
    rewrite <-(Hblk _ _ Hi ltac:(lia)). apply read_block_agree. rewrite Hblocks, decide_False; [done|].
    eapply key_not_below; [done|unfold len in *; lia..].
  - intros k. rewrite Hblocks. case_decide as Hr; [by intros []|].
    intros (h & -> & Hh)%Hkeys. exists h. split; [done|]. split; [|lia].
    destruct (decide (cutoff <= h)) as [|Hlt]; [lia|]. destruct Hr.
    split; [apply height_key_le; lia|]. split; [apply height_key_le; lia|].
    rewrite height_key_inj by lia. lia.
  - lia.
  - intros k v. rewrite Hidx by auto. intros [(i & sb & Hi & Hs & Hf & ->)%Hhi Hh].
    exists i, sb. split_and!; [done|done| |done]. apply N.max_lub; [done|]. apply Hh, key_to_height_key.
    apply lookup_lt_Some in Hi. rewrite length_app in Hi. unfold len in *. lia.
  - intros k. apply option_eq. intros v. rewrite Hidx by auto. rewrite Hti.
    destruct (tx_height (l1 ++ l2) k) as [h|] eqn:Htx; cbn [mbind option_bind]; [|by split; [intros []|]].
    apply (tx_height_bound _ _ _ _ _ Hlk) in Htx. rewrite len_app in Htx.
    destruct (N.leb_spec first h), (N.leb_spec (N.max first cutoff) h); try lia; split; try done.
    + by intros [].
    + intros [= <-]. split; [done|]. intros h'. rewrite key_to_height_key by lia. intros [= <-]. lia.
    + intros [[= <-] Hh]. specialize (Hh h (key_to_height_key h ltac:(lia))). lia.
    + by intros [].
  - destruct Hck as [Hall Hany]. split.
    + intros k v. rewrite Hcks. case_decide; [|done]. apply Hall.
    + destruct Hany as (v & r & Hv & Hrest). exists v, r. split; [|done]. by rewrite Hcks, decide_True.
Qed.

(** ** Opening *)

Lemma open_empty db a st :
  (forall cf k, db_get db cf k = None) -> length a = 32%nat ->
  rocks_open_internal db a = Ok st ->
  rocks_rep st 0 a 0 [] [] false /\
  forall k, k <> META_GENESIS_ANCHOR -> db_get (rk_db st) Cf.Meta k = None.
Proof.
  intros Hn Ha Ho. unfold rocks_open_internal, read_meta_hash_by_name, write_meta_raw, write_batch in Ho.
  rewrite Hn in Ho. cbn [mbind outcome_bind] in Ho.
  destruct (db_write db _) as [db'|] eqn:Hw; [|done]. cbn [ok_or mbind outcome_bind] in Ho.
  assert (forall cf k, db_get db' cf k =
    if decide (cf = Cf.Meta /\ k = META_GENESIS_ANCHOR) then Some a else None) as Hdb.
  { intros cf k. rewrite (db_write_get _ _ _ _ _ Hw), Hn. cbn. repeat case_decide; naive_solver. }
  assert (forall cf k, k <> META_GENESIS_ANCHOR -> db_get db' cf k = None) as Hno.
  { intros cf k Hk. rewrite Hdb, decide_False; [done|]. by intros []. }
  assert (forall cf k, cf <> Cf.Meta -> db_get db' cf k = None) as Hno'.
  { intros cf k Hk. rewrite Hdb, decide_False; [done|]. by intros []. }
  unfold snapshot_base, read_meta_u64_by_name, read_meta_hash_by_name in Ho.
  rewrite !Hno in Ho by done. cbn in Ho. injection Ho as <-. split; [|intros k; apply Hno]. split; [|by apply rep_mem, rep_empty].
  split; cbn [rk_db rk_genesis_anchor]; try done.
  - exists None. unfold read_meta_u64_by_name. by rewrite Hno.
  - unfold snapshot_base, read_meta_u64_by_name, read_meta_hash_by_name. by rewrite !Hno.
  - constructor.
  - intros k. rewrite Hno' by done. by intros [].
  - intros k v. by rewrite Hno'.
  - split; [intros k v|intros k]; by rewrite Hno'.
Qed.

Lemma enforce_rocks st base anchor first l1 l2 any chain_id st' :
  rocks_rep st base anchor first l1 l2 any -> enforce_chain_id st chain_id = Ok st' ->
  rocks_rep st' base anchor first l1 l2 any.
Proof.
  intros [Hd Hm] He. unfold enforce_chain_id, write_meta_raw, write_batch in He.
  destruct (db_get _ _ _) as [stored|]; run_inv; [done|]. split; [|done].
  eapply disk_agree; [|exact Hd]. intros cf k _ Hk. cbn. rewrite (db_write_get _ _ _ _ _ H4). cbn.
  case_decide as Hc; [|done]. destruct Hc as [<- <-]. by destruct (Hk eq_refl).
Qed.

End operations.

(** ** Bootstrap from a snapshot *)

(** A database given by its contents, for the states within one batch. *)
Definition view_db : RocksDb := {|
  DB := Cf.t -> bytes -> option bytes;
  db_get := fun view => view;
  db_iter := fun _ _ => [];
  db_write := fun view batch => Some (fun cf k => batch_effect batch cf k (view cf k))
|}.

Section bootstrap.
Context `{Ciborium, Shake, Verifier, RocksDb, !RocksDbLaws}.
Context `{!Serde StoredBlockRecord, !Serde TrustedCheckpointRecord}.
Context `{!SerdeLaws StoredBlockRecord, !SerdeLaws TrustedCheckpointRecord}.
Implicit Types (st : RocksDbChainStore) (l : list StoredBlock) (sb : StoredBlock).

(** The blocks of a tail, one at a time; the tip is written with the last. *)
Lemma append_view genesis base anchor first l1 any tail batches :
  Forall2 (fun sb batch => append_block_to_batch sb = Ok batch) tail batches ->
  forall (view : @DB view_db) l2,
  disk_rep view genesis base anchor first l1 l2 any ->
  linked (last_hash anchor (l1 ++ l2)) (base + len (l1 ++ l2)) tail ->
  Forall counted tail -> Forall readable tail -> NoDup (sb_hash <$> l2 ++ tail) ->
  base + len (l1 ++ l2 ++ tail) < u64_max ->
  exists view' : @DB view_db, disk_rep view' genesis base anchor first l1 (l2 ++ tail) any /\
    view' Cf.Meta META_TIP_HEIGHT =
      (if decide (tail = []) then view Cf.Meta META_TIP_HEIGHT
       else Some (height_to_key (base + len (l1 ++ l2 ++ tail)))) /\
    forall cf k, (cf = Cf.Meta -> k <> META_TIP_HEIGHT) ->
      view' cf k = batch_effect (concat batches) cf k (view cf k).
Proof.
  induction 1 as [|sb batch tail batches Hb Hbs IH]; intros view l2 Hd Hl Hc Hr Hnd Hmax.
  { exists view. by rewrite app_nil_r. }
  destruct Hl as (Hok & Hh & Hp & Hl). apply Forall_cons in Hc as [Hc Hcs], Hr as [Hr Hrs].
  rewrite cons_middle, app_assoc in Hnd. rewrite !len_app, len_cons in Hmax. rewrite len_app in Hh.
  assert (fits anchor base (l1 ++ l2) sb) as Hfit.
  { split; try done. by rewrite (so_height _ Hok), Hh, len_app. }
  destruct (append_batch_effect _ _ Cf.Blocks [] None Hb) as (b & Hbytes & _).
  set (view1 := (fun cf k => if decide (cf = Cf.Meta /\ k = META_TIP_HEIGHT)
    then Some (height_to_key (md_height (sb_metadata sb))) else batch_effect batch cf k (view cf k)) : @DB view_db).
  assert (appended (view : @DB view_db) view1 sb b) as Happ.
  { intros cf k. unfold view1. cbn [db_get view_db].
    destruct (append_batch_effect _ _ cf k (view cf k) Hb) as (b' & Hb' & ->).
    rewrite Hbytes in Hb'. injection Hb' as <-. destruct cf; cbn; repeat case_decide; naive_solver. }
  destruct (IH view1 (l2 ++ [sb])) as (view' & Hd' & Htip & Hview').
  - eapply disk_append; try done.
    + rewrite fmap_app in Hnd. apply NoDup_app in Hnd as (Hnd & _ & _). rewrite fmap_app in Hnd.
      apply NoDup_app in Hnd as (_ & Hnd & _). intros Hin. apply (Hnd _ Hin). by left.
    + rewrite (so_height _ Hok), Hh. lia.
  - rewrite app_assoc, last_hash_snoc, len_app, len_cons. by rewrite N.add_0_l, N.add_assoc.
  - done.
  - done.
  - done.
  - rewrite !len_app, len_cons. change (len []) with 0. lia.
  - exists view'. rewrite <-app_assoc in *. split_and!; [done| |].
    + rewrite Htip. destruct tail; [|done]. rewrite decide_True, decide_False by done.
      unfold view1. rewrite decide_True by done. rewrite (so_height _ Hok), Hh, !len_app, len_cons.
      do 2 f_equal. change (len []) with 0. lia.
    + intros cf k Hne. cbn [concat]. rewrite batch_effect_app, Hview' by done. f_equal. unfold view1.
      rewrite decide_False; [done|]. intros [-> ->]. by apply Hne.
Qed.

Lemma check_tail_Ok policy base tail_bytes c tail :
  chain_rep base [] -> foldM (check_tail_block policy) (base, []) tail_bytes = Ok (c, tail) ->
  chain_rep c tail /\ ch_anchor_prev_hash c = ch_anchor_prev_hash base /\
  ch_base_height c = ch_base_height base /\ Forall counted tail /\
  Forall (fun sb => exists b, b ∈ tail_bytes /\ decode_block_bytes b = Ok sb) tail.
Proof.
  intros Hb. apply (foldM_invariant _ (fun acc =>
    chain_rep acc.1 acc.2 /\ ch_anchor_prev_hash acc.1 = ch_anchor_prev_hash base /\
    ch_base_height acc.1 = ch_base_height base /\ Forall counted acc.2 /\
    Forall (fun sb => exists b, b ∈ tail_bytes /\ decode_block_bytes b = Ok sb) acc.2)); [|done].
  intros [c1 l1] b [c2 l2] Hin (Hr & Ha & Hh & Hc & Hf) Hs. unfold check_tail_block in Hs.
  apply bind_Ok in Hs as (sb & Hsb & Hs). apply bind_Ok in Hs as ([] & _ & Hs).
  apply bind_Ok in Hs as ([trial md] & Happ%map_err_Ok & [= <- <-]).
  destruct (append_settled _ _ _ _ _ _ _ (rep_mem _ _ Hr) Happ) as (-> & _ & Hcnt & _).
  destruct (append_rep _ _ _ _ _ Hr Happ) as (_ & _ & Hr'). cbn in *.
  split_and!; try done; apply Forall_app; (split; [done|]); apply Forall_singleton; eauto.
Qed.

Lemma validate_snapshot_Ok b chain_id m s :
  validate_snapshot b chain_id = Ok (m, s) -> exists record,
  of_cbor b = Some record /\ tcr_version record = STATE_FORMAT_VERSION /\ tcr_metadata record = m /\
  record_into_state (tcr_state record) chain_id = Ok s /\ st_block_height s = tcm_height m /\
  state_root s = tcm_state_root m.
Proof.
  unfold validate_snapshot, decode_cbor_slice, check_state_format_version. intros Hv.
  apply bind_Ok in Hv as (record & Hr%ok_or_Ok & Hv). exists record. run_inv. injection Hv as <- <-.
  split_and!; bool_hyps; done || unfold STATE_FORMAT_VERSION in *; lia.
Qed.

(** The empty store at the height of a snapshot. *)
Lemma bootstrap_base (db : DB) (view : @DB view_db) genesis anchor first b record :
  disk_rep db genesis 0 anchor first [] [] false -> of_cbor b = Some record ->
  tcr_version record = STATE_FORMAT_VERSION -> length (tcm_tip_hash (tcr_metadata record)) = 32%nat ->
  0 < tcm_height (tcr_metadata record) < u64_max ->
  (forall cf k, view cf k = batch_effect
      [ Put Cf.Checkpoints (height_to_key (tcm_height (tcr_metadata record))) b;
        Put Cf.Meta META_SNAPSHOT_BASE_HEIGHT (height_to_key (tcm_height (tcr_metadata record)));
        Put Cf.Meta META_SNAPSHOT_BASE_HASH (tcm_tip_hash (tcr_metadata record));
        Put Cf.Meta META_TIP_HEIGHT (height_to_key (tcm_height (tcr_metadata record))) ]
      cf k (db_get db cf k)) ->
  disk_rep view genesis (tcm_height (tcr_metadata record)) (tcm_tip_hash (tcr_metadata record)) first [] [] true.
Proof.
  intros [Hgen Hglen Htip Hbase Hst Hmx Hlk Hcnt Hnd Hblk Hkeys Hfst Hhi Hti Hck Hno] Hb Hver H32 Hh Hv.
  set (h := tcm_height (tcr_metadata record)) in *. set (hash := tcm_tip_hash (tcr_metadata record)) in *.
  assert (len (@nil StoredBlock) = 0) as Hnil by done. rewrite Hnil in *. rewrite !N.add_0_r in *.
  assert (forall cf k, view cf k =
    match cf with
    | Cf.Checkpoints => if decide (k = height_to_key h) then Some b else db_get db cf k
    | Cf.Meta => if decide (k = META_TIP_HEIGHT) then Some (height_to_key h)
                 else if decide (k = META_SNAPSHOT_BASE_HASH) then Some hash
                 else if decide (k = META_SNAPSHOT_BASE_HEIGHT) then Some (height_to_key h)
                 else db_get db cf k
    | _ => db_get db cf k
    end) as Hview.
  { intros cf k. rewrite Hv. unfold batch_effect. cbn [foldl op_effect].
    destruct cf; try done; repeat case_decide; intuition congruence. }
  clear Hv. split; rewrite ?Hnil, ?N.add_0_r; try done; cbn [db_get view_db].
  - by rewrite Hview.
  - exists (Some h). unfold read_meta_u64_by_name. cbn [db_get view_db]. rewrite Hview, decide_True by done.
    by rewrite key_to_height_key by lia.
  - unfold snapshot_base, read_meta_u64_by_name, read_meta_hash_by_name. cbn [db_get view_db].
    assert (view Cf.Meta META_SNAPSHOT_BASE_HEIGHT = Some (height_to_key h)) as -> by by rewrite Hview.
    assert (view Cf.Meta META_SNAPSHOT_BASE_HASH = Some hash) as -> by by rewrite Hview.
    rewrite key_to_height_key by lia. cbn [mbind outcome_bind]. unfold len. rewrite H32. cbn.
    by rewrite (proj2 (N.ltb_lt _ _)) by lia.
  - lia.
  - lia.
  - intros k. rewrite Hview. intros (h' & -> & Hh')%Hkeys. exists h'. split; [done|]. lia.
  - lia.
  - intros k v. rewrite Hview. intros (i & sb & Hi & _)%Hhi. done.
  - intros k. rewrite Hview. apply Hti.
  - destruct Hck as [_ Hnone]. split.
    + intros k v. cbn [db_get view_db]. rewrite Hview. case_decide as Hk; [|by rewrite Hnone].
      intros [= <-]. exists record. split_and!; try done; lia.
    + exists b, record. cbn [db_get view_db]. by rewrite Hview, decide_True.
Qed.

Lemma empty_rocks st base anchor first l1 l2 any :
  rocks_rep st base anchor first l1 l2 any -> chain_height (rk_chain st) = 0 ->
  base = 0 /\ l1 = [] /\ l2 = [] /\ any = false.
Proof.
  intros [Hd Hm] Hh. rewrite (mem_height _ _ _ _ Hm) in Hh.
  assert (l1 = [] /\ l2 = []) as [-> ->] by (unfold len in Hh; destruct l1, l2; cbn in Hh; split; done || lia).
  change (len []) with 0 in Hh. split_and!; [lia|done|done|]. destruct any; [|done].
  destruct (newest_checkpoint _ (base + len (@nil StoredBlock)) _ ltac:(pose proof (dr_max _ _ _ _ _ _ _ _ Hd); lia)
    (dr_checkpoints _ _ _ _ _ _ _ _ Hd)) as (v & record & rest & _ & _ & _ & _ & _ & Hpos).
  change (len []) with 0 in Hpos. lia.
Qed.

Lemma bootstrap_write (db db' : DB) genesis anchor first b record tail batches :
  let h := tcm_height (tcr_metadata record) in
  let hash := tcm_tip_hash (tcr_metadata record) in
  disk_rep db genesis 0 anchor first [] [] false ->
  of_cbor b = Some record -> tcr_version record = STATE_FORMAT_VERSION -> length hash = 32%nat ->
  0 < h -> h + len tail < u64_max -> linked hash h tail -> NoDup (sb_hash <$> tail) ->
  Forall counted tail -> Forall readable tail ->
  collect append_block_to_batch tail = Ok batches ->
  db_write db
    ([ Put Cf.Checkpoints (height_to_key h) b;
       Put Cf.Meta META_SNAPSHOT_BASE_HEIGHT (height_to_key h);
       Put Cf.Meta META_SNAPSHOT_BASE_HASH hash ]
     ++ concat batches ++ [Put Cf.Meta META_TIP_HEIGHT (height_to_key (h + len tail))]) = Some db' ->
  disk_rep db' genesis h hash first [] tail true.
Proof.
  intros h hash Hd Hrec Hver H32 Hpos Hmax Hl Hnd Hcnt Hread Hbatch Hw.
  set (start := [Put Cf.Checkpoints (height_to_key h) b;
    Put Cf.Meta META_SNAPSHOT_BASE_HEIGHT (height_to_key h); Put Cf.Meta META_SNAPSHOT_BASE_HASH hash]) in *.
  set (tip := fun n => [Put Cf.Meta META_TIP_HEIGHT (height_to_key n)]). fold (tip (h + len tail)) in Hw.
  set (view := (fun cf k => batch_effect (start ++ tip h) cf k (db_get db cf k)) : @DB view_db).
  pose proof (bootstrap_base _ view _ _ _ _ _ Hd Hrec Hver H32 ltac:(lia) (fun cf k => eq_refl)) as Hbase.
  destruct (append_view genesis h hash first [] true tail batches) with (view := view) (l2 := @nil StoredBlock)
    as (view' & Hd' & Htip & Hview'); try done.
  { eapply collect_at_Forall2; [|exact Hbatch]. by intros. }
  { cbn. change (len (@nil StoredBlock)) with 0. by rewrite N.add_0_r. }
  apply (disk_agree _ _ view' db'); [|done]. intros cf k _ _.
  rewrite (db_write_get _ _ _ _ _ Hw), !batch_effect_app.
  assert (forall n old, batch_effect (tip n) cf k old =
    if decide (cf = Cf.Meta /\ k = META_TIP_HEIGHT) then Some (height_to_key n) else old) as Ht.
  { intros n old. unfold tip, batch_effect. cbn [foldl op_effect]. apply decide_ext. intuition congruence. }
  rewrite Ht. cbn [db_get view_db]. case_decide as Hc.
  - destruct Hc as [-> ->]. rewrite Htip. case_decide as Hn.
    + subst tail. unfold view. rewrite batch_effect_app, Ht.
      change (len (@nil StoredBlock)) with 0. by rewrite N.add_0_r.
    + done.
  - rewrite Hview' by (intros -> ->; by apply Hc). f_equal. unfold view.
    by rewrite batch_effect_app, Ht.
Qed.

Lemma bootstrap_rocks st base anchor first l1 l2 any snapshot tail_bytes chain_id st' m :
  rocks_rep st base anchor first l1 l2 any ->
  bootstrap_from_external_snapshot st snapshot tail_bytes chain_id = Ok (st', m) ->
  0 < tcm_height m < u64_max -> length (tcm_tip_hash m) = 32%nat -> chain_height (rk_chain st') < u64_max ->
  (forall b sb, b ∈ tail_bytes -> decode_block_bytes b = Ok sb -> readable sb) ->
  exists tail, rocks_rep st' (tcm_height m) (tcm_tip_hash m) first [] tail true.
Proof.
  intros Hrep Hboot Hpos H32 Hmax Hread. unfold bootstrap_from_external_snapshot in Hboot.
  apply bind_Ok in Hboot as ([] & He%ensure_Ok & Hboot). bool_hyps.
  destruct (empty_rocks _ _ _ _ _ _ _ Hrep He) as (-> & -> & -> & ->). destruct Hrep as [Hd _].
  apply bind_Ok in Hboot as ([md s] & Hv & Hboot). apply bind_Ok in Hboot as (policy & _ & Hboot).
  destruct (validate_snapshot_Ok _ _ _ _ Hv) as (record & Hrec & Hver & Hmd & _).
  apply bind_Ok in Hboot as ([c tail] & Htail & Hboot). run_inv. injection Hboot as <- <-.
  rename x into batches, x0 into db', H4 into Hbatch, H5 into Hw. apply ok_or_Ok in Hw.
  set (h := tcm_height (tcr_metadata record)) in *. set (hash := tcm_tip_hash (tcr_metadata record)) in *.
  cbn [rk_chain] in Hmax. destruct (check_tail_Ok policy (ChainStore_new_with_base hash h) tail_bytes c tail)
    as (Hc & Ha & Hb & Hcnt & Hdec); [apply rep_empty; lia|done|].
  cbn in Ha, Hb. rewrite (rep_height _ _ Hc), Hb in Hw, Hmax.
  pose proof (cr_linked _ _ Hc) as Hl. rewrite Ha, Hb in Hl.
  exists tail. split; cbn [rk_db rk_chain rk_genesis_anchor].
  - apply (bootstrap_write (rk_db st) db' _ anchor first snapshot record tail batches); try done.
    + by destruct Hpos.
    + apply (cr_hashes _ _ Hc).
    + eapply Forall_impl; [exact Hdec|]. intros sb (b & Hin & Hsb). by eapply Hread.
    + rewrite <-Hw. replace (if bool_decide (tail = []) then _ else _) with (h + len tail); [done|].
      case_bool_decide as Hn; [|done]. subst tail. apply N.add_0_r.
  - apply rep_mem in Hc. rewrite Ha, Hb in Hc. change (last_hash hash []) with hash.
    change (len (@nil StoredBlock)) with 0. by rewrite N.add_0_r.
Qed.
End bootstrap.
