(* ===== verification/StorageHistory.v ===== *)
(** * What a block store on RocksDB promises.

    The abstract state is a linked list of blocks above a base, of which the part
    below a height is pruned.  The operations of the store implement those of the
    list, and the database alone gives the store back, after any history of them. *)

From S2P Require Import Prelude Crypto Types Cbor Payloads Tx FeeMarket Leaves Store StoreInv.
From S2P Require Import ApplyAccounts ApplyValidators Governance Archival ApplyTx Mempool Block Chain.
From S2P Require Import ChainInv Recovery RecoveryProps Commit Records RecordsProps Upgrade Storage.
From S2P Require Import StorageRep StorageProps.

Section history.
Context `{Ciborium, Shake, Verifier, RocksDb, !RocksDbLaws}.
Context `{!Serde StoredBlockRecord, !Serde TrustedCheckpointRecord}.
Context `{!SerdeLaws StoredBlockRecord, !SerdeLaws TrustedCheckpointRecord}.
Implicit Types (st : RocksDbChainStore) (l : list StoredBlock) (sb : StoredBlock).

(** ** Reading *)

Lemma mem_get c anchor base l h :
  mem_rep c anchor base l ->
  get_stored_block_by_height c h = if base <? h then l !! N.to_nat (h - base - 1) else None.
Proof.
  intros [Hr _ Hb _]. unfold get_stored_block_by_height.
  rewrite <-settle_by_height, <-settle_by_hash, (cr_by_height _ _ Hr), settle_base, Hb.
  destruct (N.ltb_spec base h); [rewrite decide_True by done|by rewrite decide_False by lia].
  destruct (l !! _) as [sb|] eqn:Hl; [|done]. cbn. apply (cr_by_hash _ _ Hr).
  split; [by eapply list_elem_of_lookup_2|done].
Qed.

(** The block at a height of a list above [base], unless it is pruned. *)
Definition block_at (base first : N) l (h : N) : option StoredBlock :=
  if (base <? h) && (first <=? h) then l !! N.to_nat (h - base - 1) else None.

Lemma read_block_rep st base anchor first l1 l2 any h :
  rocks_rep st base anchor first l1 l2 any -> h <= u64_max ->
  rocks_read_stored_block_at_height st h = Ok (block_at base first (l1 ++ l2) h).
Proof.
  intros [Hd Hm] Hh. unfold rocks_read_stored_block_at_height, block_at. rewrite (mem_get _ _ _ _ h Hm).
  pose proof (dr_first _ _ _ _ _ _ _ _ Hd) as Hfirst. unfold len in *.
  destruct (N.ltb_spec (base + N.of_nat (length l1)) h) as [Hmem|Hmem].
  - rewrite (proj2 (N.ltb_lt base h)), (proj2 (N.leb_le first h)) by lia. cbn [andb].
    rewrite lookup_app_r by lia.
    replace (N.to_nat (h - base - 1) - length l1)%nat
      with (N.to_nat (h - (base + N.of_nat (length l1)) - 1)) by lia.
    destruct (l2 !! _) as [sb|] eqn:Hl; [done|]. unfold read_stored_block_from_db.
    destruct (db_get _ _ _) as [b|] eqn:Hb; [|done]. exfalso.
    destruct (dr_block_keys _ _ _ _ _ _ _ _ Hd _ (mk_is_Some _ _ Hb)) as (h' & Hk & _ & Hh').
    pose proof (dr_max _ _ _ _ _ _ _ _ Hd). unfold len in *.
    apply height_key_inj in Hk as <-; [|lia..]. apply lookup_ge_None_1 in Hl. lia.
  - destruct ((base <? h) && (first <=? h)) eqn:Hr.
    + apply andb_true_iff in Hr as [Hb%N.ltb_lt Hf%N.leb_le].
      destruct ((l1 ++ l2) !! N.to_nat (h - base - 1)) as [sb|] eqn:Hl.
      * pose proof (dr_blocks _ _ _ _ _ _ _ _ Hd _ _ Hl) as Hblk.
        replace (base + N.of_nat (N.to_nat (h - base - 1)) + 1) with h in Hblk by lia. by rewrite Hblk.
      * apply lookup_ge_None_1 in Hl. rewrite length_app in Hl. lia.
    + unfold read_stored_block_from_db. destruct (db_get _ _ _) as [b|] eqn:Hb; [|done]. exfalso.
      destruct (dr_block_keys _ _ _ _ _ _ _ _ Hd _ (mk_is_Some _ _ Hb)) as (h' & Hk & Hf & Hh').
      pose proof (dr_max _ _ _ _ _ _ _ _ Hd). unfold len in *.
      apply height_key_inj in Hk as <-; [|lia..]. apply andb_false_iff in Hr as [?%N.ltb_ge|?%N.leb_gt]; lia.
Qed.

Lemma tx_height_rep st base anchor first l1 l2 any k :
  rocks_rep st base anchor first l1 l2 any ->
  get_tx_block_height st k = Ok (h ← tx_height (l1 ++ l2) k; if first <=? h then Some h else None).
Proof.
  intros [Hd Hm]. unfold get_tx_block_height. rewrite (dr_tx_index _ _ _ _ _ _ _ _ Hd).
  destruct (tx_height (l1 ++ l2) k) as [h|] eqn:Ht; [|done]. cbn [mbind option_bind].
  destruct (first <=? h); [|done]. pose proof (dr_max _ _ _ _ _ _ _ _ Hd).
  apply (tx_height_bound _ _ _ _ _ (dr_linked _ _ _ _ _ _ _ _ Hd)) in Ht. rewrite len_app in Ht.
  by rewrite key_to_height_key by lia.
Qed.

Lemma range_rep st base anchor first l1 l2 any from to :
  rocks_rep st base anchor first l1 l2 any -> base < from -> first <= from -> to <= u64_max ->
  blocks_in_height_range st from to =
    Ok (take (N.to_nat (to + 1 - from)) (drop (N.to_nat (from - base - 1)) (l1 ++ l2))).
Proof.
  intros Hrep Hb Hf Hto. unfold blocks_in_height_range. destruct (N.ltb_spec to from) as [Hlt|Hle].
  { by replace (N.to_nat (to + 1 - from)) with 0%nat by lia. }
  unfold add_checked. rewrite (proj2 (N.leb_le _ _)) by lia. cbn [mbind outcome_bind].
  remember (N.to_nat (to + 1 - from)) as n eqn:Hn. clear Hle. revert from Hb Hf Hn.
  induction n as [|n IH]; intros from Hb Hf Hn; [by rewrite heights_nil by lia|].
  rewrite heights_cons by lia. cbn [read_range]. rewrite (read_block_rep _ _ _ _ _ _ _ _ Hrep) by lia.
  unfold block_at. rewrite (proj2 (N.ltb_lt base from)), (proj2 (N.leb_le first from)) by lia.
  cbn [andb mbind outcome_bind]. destruct ((l1 ++ l2) !! N.to_nat (from - base - 1)) as [sb|] eqn:Hl.
  - rewrite (drop_S _ _ _ Hl). cbn [take]. rewrite IH by lia. cbn [mbind outcome_bind].
    by replace (N.to_nat (from + 1 - base - 1)) with (S (N.to_nat (from - base - 1))) by lia.
  - apply lookup_ge_None_1 in Hl. by rewrite drop_ge by done.
Qed.

(** ** The operations *)

Lemma append_stored_rocks st base anchor first l1 l2 any sb policy st' m :
  rocks_rep st base anchor first l1 l2 any -> readable sb -> md_height (sb_metadata sb) < u64_max ->
  rocks_append_stored_block st sb policy = Ok (st', m) ->
  rocks_rep st' base anchor first l1 (l2 ++ [sb]) any.
Proof.
  intros Hrep Hr Hmax Ha. unfold rocks_append_stored_block in Ha. apply bind_Ok in Ha as ([] & _ & Ha).
  apply bind_Ok in Ha as ([trial md] & Ht%map_err_Ok & Ha). run_inv. injection Ha as <- <-.
  by eapply append_rocks.
Qed.

Lemma append_execution_rocks st base anchor first l1 l2 any exe st' m :
  rocks_rep st base anchor first l1 l2 any -> readable (stored_of exe) ->
  md_height (sb_metadata (stored_of exe)) < u64_max -> append_block_inner st exe = Ok (st', m) ->
  rocks_rep st' base anchor first l1 (l2 ++ [stored_of exe]) any.
Proof.
  intros Hrep Hr Hmax (c' & db' & Ha & Hp & ->)%append_execution_Ok. by eapply append_rocks.
Qed.

Lemma prune_rocks st base anchor first l1 l2 any cutoff st' stats :
  rocks_rep st base anchor first l1 l2 any -> prune_blocks_below st cutoff = Ok (st', stats) ->
  rocks_rep st' base anchor (N.max first cutoff) l1 l2 any.
Proof.
  intros Hrep Hp. destruct (prune_Ok_inv _ _ _ _ _ _ _ _ _ _ Hrep Hp) as (-> & Hcut & db' & -> & Hpr).
  destruct Hrep as [Hd Hm]. split; [|done]. apply (disk_pruned (rk_db st)); [done|done|lia].
Qed.

Lemma reopen_rocks st base anchor first l1 l2 any a st' :
  rocks_rep st base anchor first l1 l2 any -> rocks_open_internal (rk_db st) a = Ok st' ->
  rocks_rep st' base anchor first l1 l2 any.
Proof.
  intros Hrep Ho. rewrite (open_rep _ _ _ _ _ _ _ _ Hrep) in Ho. injection Ho as <-. by apply settle_rocks.
Qed.

(** ** Copies *)

Lemma stored_hash_length sb : stored_ok sb -> length (sb_hash sb) = 32%nat.
Proof. intros Hok. rewrite (so_hash _ Hok). apply hash_chunks_length. Qed.

Section copies.
(** No write of the database fails. *)
Context (Hwrites : forall db batch, is_Some (db_write db batch)).

(** A database that holds the first blocks, all of them in memory. *)
Definition copied st (genesis : bytes) l : Prop :=
  rocks_rep st 0 genesis 0 [] l false /\ chain_rep (rk_chain st) l.

Lemma open_empty_total (db : DB) a :
  (forall cf k, db_get db cf k = None) -> length a = 32%nat ->
  exists st, rocks_open_internal db a = Ok st /\ copied st a [].
Proof.
  intros Hn Ha. assert (exists st, rocks_open_internal db a = Ok st /\
    rk_chain st = ChainStore_new_with_base a 0) as (st & Ho & Hc).
  { unfold rocks_open_internal, read_meta_hash_by_name at 1, write_meta_raw, write_batch.
    rewrite Hn. cbn [mbind outcome_bind]. destruct (Hwrites db [Put Cf.Meta META_GENESIS_ANCHOR a]) as [db' Hw].
    rewrite Hw. cbn [ok_or mbind outcome_bind].
    unfold snapshot_base, read_meta_u64_by_name, read_meta_hash_by_name.
    assert (forall k, k <> META_GENESIS_ANCHOR -> db_get db' Cf.Meta k = None) as Hno.
    { intros k Hk. rewrite (db_write_get _ _ _ _ _ Hw), Hn. cbn. rewrite decide_False; [done|]. by intros []. }
    rewrite !Hno by done. by eexists. }
  exists st. split; [done|]. split; [by eapply open_empty|]. rewrite Hc. by apply rep_empty.
Qed.

Lemma append_copied st genesis pre sb b :
  copied st genesis pre -> fits genesis 0 pre sb -> sb_hash sb ∉ sb_hash <$> pre ->
  len pre + 1 < u64_max -> encode_stored_block_bytes sb = Ok b ->
  exists st', rocks_append_stored_block st sb None = Ok (st', sb_metadata sb) /\
    copied st' genesis (pre ++ [sb]).
Proof.
  intros [[Hd Hm] Hc] Hfit Hnew Hmax Henc. pose proof (fi_ok _ _ _ _ Hfit) as Hok.
  pose proof (mr_anchor _ _ _ _ Hm) as Ha. pose proof (mr_base _ _ _ _ Hm) as Hb.
  cbn in Ha. change (0 + len []) with 0 in Hb.
  assert (append_stored_block (rk_chain st) sb = Ok (push_stored_block sb (rk_chain st), sb_metadata sb)) as Happ.
  { apply (append_fits _ pre); try done.
    - apply Hfit.
    - rewrite <-(so_height _ Hok), (fi_height _ _ _ _ Hfit), (rep_height _ _ Hc), Hb. lia.
    - rewrite (rep_height _ _ Hc), Hb. lia.
    - by rewrite (fi_prev _ _ _ _ Hfit), (rep_prev_hash _ _ Hc), Ha.
    - by rewrite (rep_by_hash_None _ pre). }
  assert (exists db', persist_to_db st sb = Ok db') as [db' Hp].
  { unfold persist_to_db, append_block_to_batch, write_batch. rewrite Henc. cbn [mbind outcome_bind].
    match goal with |- context [db_write ?d ?ba] => destruct (Hwrites d ba) as [db' ->] end. by exists db'. }
  exists (mkRocksDbChainStore db' (push_stored_block sb (rk_chain st)) (rk_genesis_anchor st)). split.
  - unfold rocks_append_stored_block. cbn [check_commit mbind outcome_bind].
    rewrite Happ. cbn [map_err mbind outcome_bind]. by rewrite Hp.
  - split; [|by eapply append_rep].
    eapply append_rocks; [by split|apply Hfit| |exact Happ|done]. rewrite (fi_height _ _ _ _ Hfit). lia.
Qed.
End copies.

(** ** Histories *)

(** A store after any sequence of operations that started on an empty database.  A
    block is one its encoding gives back; a sibling carries the count and the
    transactions of the tip it replaces and has a new hash.  In [stored_stopped] the
    process stops between a checkpoint and the compaction that follows it. *)
Inductive stored : RocksDbChainStore -> Prop :=
  | stored_open (db : DB) a chain_id st :
      (forall cf k, db_get db cf k = None) -> length a = 32%nat ->
      rocks_open_with_chain_id db a chain_id = Ok st -> stored st
  | stored_append st sb policy st' m :
      stored st -> readable sb -> md_height (sb_metadata sb) < u64_max ->
      rocks_append_stored_block st sb policy = Ok (st', m) -> stored st'
  | stored_execution st exe policy st' m :
      stored st -> readable (stored_of exe) -> md_height (sb_metadata (stored_of exe)) < u64_max ->
      rocks_append_block st exe policy = Ok (st', m) -> stored st'
  | stored_trusted st exe st' m :
      stored st -> readable (stored_of exe) -> md_height (sb_metadata (stored_of exe)) < u64_max ->
      rocks_append_block_trusted st exe = Ok (st', m) -> stored st'
  | stored_replace st sb policy st' old :
      stored st -> counted sb -> readable sb -> ch_by_hash (rk_chain st) !! sb_hash sb = None ->
      (forall tip, chain_tip (rk_chain st) = Some tip ->
         blk_tx_hashes (sb_block sb) = blk_tx_hashes (sb_block tip)) ->
      rocks_replace_canonical_at_height st sb policy = Ok (st', old) -> stored st'
  | stored_checkpoint st state st' m :
      stored st -> 0 < st_block_height state ->
      rocks_write_trusted_checkpoint st state = Ok (st', m) ->
      stored (compact_chain_to_checkpoint st' (tcm_height m) (tcm_tip_hash m))
  | stored_stopped st state st' m a st'' :
      stored st -> 0 < st_block_height state ->
      rocks_write_trusted_checkpoint st state = Ok (st', m) ->
      rocks_open_internal (rk_db st') a = Ok st'' -> stored st''
  | stored_prune st cutoff st' stats :
      stored st -> prune_blocks_below st cutoff = Ok (st', stats) -> stored st'
  | stored_bootstrap st snapshot tail_bytes chain_id st' m :
      stored st -> bootstrap_from_external_snapshot st snapshot tail_bytes chain_id = Ok (st', m) ->
      0 < tcm_height m < u64_max -> length (tcm_tip_hash m) = 32%nat ->
      chain_height (rk_chain st') < u64_max ->
      (forall b sb, b ∈ tail_bytes -> decode_block_bytes b = Ok sb -> readable sb) -> stored st'
  | stored_reopen st a st' :
      stored st -> rocks_open_internal (rk_db st) a = Ok st' -> stored st'.

Lemma mem_tip c anchor base l : mem_rep c anchor base l -> chain_tip c = last l.
Proof. intros [Hr _ _ _]. rewrite <-settle_tip. by apply rep_tip. Qed.

Lemma stored_rep st : stored st -> exists base anchor first l1 l2 any,
  rocks_rep st base anchor first l1 l2 any.
Proof.
  induction 1 as [db a chain_id st Hn Hlen Ho|st sb policy st' m _ IH Hr Hmax Ha
    |st exe policy st' m _ IH Hr Hmax Ha|st exe st' m _ IH Hr Hmax Ha
    |st sb policy st' old _ IH Hc Hr Hf Htx Hrep|st state st' m _ IH Hpos Hw
    |st state st' m a st'' _ IH Hpos Hw Ho|st cutoff st' stats _ IH Hp
    |st snapshot tail_bytes chain_id st' m _ IH Hb Hpos Hlen Hmax Hr|st a st' _ IH Ho];
    try destruct IH as (base & anchor & first & l1 & l2 & any & IH).
  - unfold rocks_open_with_chain_id in Ho. apply bind_Ok in Ho as (st0 & Ho & He).
    destruct (open_empty _ _ _ Hn Hlen Ho) as [Hrep _]. by eauto 10 using enforce_rocks.
  - by eauto 10 using append_stored_rocks.
  - unfold rocks_append_block in Ha. apply bind_Ok in Ha as ([] & _ & Ha).
    by eauto 10 using append_execution_rocks.
  - by eauto 10 using append_execution_rocks.
  - destruct (replace_rocks st base anchor first l1 l2 any sb policy st' old) as (l0 & _ & Hrep'); try done;
      [|by eauto 10].
    intros tip Ht. apply Htx. by rewrite (mem_tip _ _ _ _ (proj2 IH)).
  - destruct (checkpoint_rocks _ _ _ _ _ _ _ _ _ _ IH Hpos Hw) as [_ Hrep]. by eauto 10.
  - destruct (checkpoint_rocks _ _ _ _ _ _ _ _ _ _ IH Hpos Hw) as [Hd _].
    destruct (open_disk _ _ _ _ _ _ _ _ a Hd) as (c & Ho' & Hc & Hca & Hcb).
    rewrite Ho' in Ho. injection Ho as <-. exists base, anchor, first, (l1 ++ l2), [], true.
    split; [done|]. apply rep_mem in Hc. cbn [rk_chain]. by rewrite <-Hca, <-Hcb.
  - by eauto 10 using prune_rocks.
  - destruct (bootstrap_rocks _ _ _ _ _ _ _ _ _ _ _ _ IH Hb Hpos Hlen Hmax Hr) as [tail Hrep]. by eauto 10.
  - by eauto 10 using reopen_rocks.
Qed.

(** The block store on RocksDB implements a linked list of blocks above a base, of
    which everything below a height is pruned: reading by height and by range and
    looking a transaction up give what the list has, appending extends the list,
    replacing the tip swaps its last block, a checkpoint evicts the blocks from memory
    and keeps them readable, pruning only raises the first height, and opening the
    database gives the same list. *)
Lemma rocks_store_refines st base anchor first l1 l2 any :
  rocks_rep st base anchor first l1 l2 any ->
  (forall h, h <= u64_max ->
     rocks_read_stored_block_at_height st h = Ok (block_at base first (l1 ++ l2) h)) /\
  (forall from to, base < from -> first <= from -> to <= u64_max ->
     blocks_in_height_range st from to =
       Ok (take (N.to_nat (to + 1 - from)) (drop (N.to_nat (from - base - 1)) (l1 ++ l2)))) /\
  (forall k, get_tx_block_height st k =
     Ok (h ← tx_height (l1 ++ l2) k; if first <=? h then Some h else None)) /\
  (forall sb policy st' m, readable sb -> md_height (sb_metadata sb) < u64_max ->
     rocks_append_stored_block st sb policy = Ok (st', m) ->
     rocks_rep st' base anchor first l1 (l2 ++ [sb]) any) /\
  (forall sb policy st' old, counted sb -> readable sb ->
     ch_by_hash (rk_chain st) !! sb_hash sb = None ->
     (forall tip, last l2 = Some tip -> blk_tx_hashes (sb_block sb) = blk_tx_hashes (sb_block tip)) ->
     rocks_replace_canonical_at_height st sb policy = Ok (st', old) ->
     exists l0, l2 = l0 ++ [old] /\ rocks_rep st' base anchor first l1 (l0 ++ [sb]) any) /\
  (forall state st' m, 0 < st_block_height state ->
     rocks_write_trusted_checkpoint st state = Ok (st', m) ->
     rocks_rep (compact_chain_to_checkpoint st' (tcm_height m) (tcm_tip_hash m))
       base anchor first (l1 ++ l2) [] true) /\
  (forall cutoff st' stats, prune_blocks_below st cutoff = Ok (st', stats) ->
     rocks_rep st' base anchor (N.max first cutoff) l1 l2 any) /\
  (forall a, exists st', rocks_open_internal (rk_db st) a = Ok st' /\
     rocks_rep st' base anchor first l1 l2 any).
Proof.
  intros Hrep. split_and!.
  - intros h. by apply read_block_rep with (1 := Hrep).
  - intros from to. by apply range_rep with (1 := Hrep).
  - intros k. by apply tx_height_rep with (1 := Hrep).
  - intros sb policy st' m. by apply append_stored_rocks with (1 := Hrep).
  - intros sb policy st' old. by apply replace_rocks with (1 := Hrep).
  - intros state st' m Hpos Hw. by destruct (checkpoint_rocks _ _ _ _ _ _ _ _ _ _ Hrep Hpos Hw).
  - intros cutoff st' stats. by apply prune_rocks.
  - intros a. rewrite (open_rep _ _ _ _ _ _ _ _ Hrep). eexists. split; [done|]. by apply settle_rocks.
Qed.

(** C14 A database can be opened again after any history that starts with opening an empty one
    with a 32-byte anchor and goes on with openings, appended blocks, replacements of the tip
    by a sibling, checkpoints with the compaction that follows, stops between the two, prunings
    and snapshot bootstraps. Opening then succeeds, whatever anchor it is given, and yields the
    store as it was: the same database, genesis anchor, blocks in memory, base and anchor of
    the memory, height and parent for the next block. The history is one whose blocks are below
    the maximal u64 height and carry transactions that read back, under their recorded hashes,
    from their own encoding; whose siblings have a hash that is new in memory, the tip's
    transaction list and a correct included count; whose checkpoints are of states above height
    0; and whose snapshots are above height 0 with a tip hash of 32 bytes. The encoding of the
    records is any that decodes what it encoded. *)
Theorem reopen_after_any_history st a :
  stored st -> exists c,
  rocks_open_internal (rk_db st) a = Ok (mkRocksDbChainStore (rk_db st) c (rk_genesis_anchor st)) /\
  ch_by_hash c = ch_by_hash (rk_chain st) /\ ch_by_height c = ch_by_height (rk_chain st) /\
  ch_base_height c = ch_base_height (rk_chain st) /\
  ch_anchor_prev_hash c = ch_anchor_prev_hash (rk_chain st) /\
  chain_height c = chain_height (rk_chain st) /\
  expected_prev_hash c = expected_prev_hash (rk_chain st).
Proof.
  intros (base & anchor & first & l1 & l2 & any & Hrep)%stored_rep. exists (settle (rk_chain st)).
  split; [by eapply open_rep|]. split_and!.
  - apply settle_by_hash.
  - apply settle_by_height.
  - apply settle_base.
  - apply settle_anchor.
  - apply settle_height.
  - by apply (settle_rocks _ _ _ _ _ _ _ Hrep).
Qed.

(** Pruning is guarded and loses nothing else.  It is refused for cutoff 0, without
    a checkpoint and for a cutoff above the newest checkpoint; otherwise it can only fail
    in the write, and when it succeeds the blocks from the cutoff on and the chain in
    memory are as before, the blocks below are gone, and the database opens. *)
Lemma prune_keeps_chain st base anchor first l1 l2 any cutoff :
  rocks_rep st base anchor first l1 l2 any ->
  if (cutoff =? 0) || negb any || (base + len l1 <? cutoff)
  then exists reason, prune_blocks_below st cutoff = Err (StorageError.InvalidPruneCutoff reason)
  else prune_blocks_below st cutoff = Err StorageError.RocksDb \/
    exists st' stats, prune_blocks_below st cutoff = Ok (st', stats) /\
      rk_chain st' = rk_chain st /\
      (forall h, h <= u64_max ->
         rocks_read_stored_block_at_height st' h =
           if h <? cutoff then Ok None else rocks_read_stored_block_at_height st h) /\
      (forall a, exists st'', rocks_open_internal (rk_db st') a = Ok st'' /\
         blocks_in_order (rk_chain st'') = blocks_in_order (rk_chain st)).
Proof.
  intros Hrep. destruct (_ || _) eqn:Hg.
  - destruct Hrep as [Hd Hm]. pose proof (dr_max _ _ _ _ _ _ _ _ Hd). unfold prune_blocks_below.
    rewrite (late_checkpoint _ (base + len l1) _ _ _ ltac:(lia) (dr_checkpoints _ _ _ _ _ _ _ _ Hd)).
    destruct (N.eqb_spec cutoff 0); [by eexists|]. cbn [negb ensure mbind outcome_bind].
    destruct (cutoff <=? chain_height (rk_chain st)); cbn [ensure mbind outcome_bind orb] in *; [|by eexists].
    assert (any && (cutoff <=? base + len l1) = false) as ->; [|by eexists].
    destruct any; [|done]. by apply N.leb_gt, N.ltb_lt.
  - apply orb_false_iff in Hg as [[Hc%N.eqb_neq Hany]%orb_false_iff Hle%N.ltb_ge].
    destruct any; [|done].
    destruct (prune_Ok _ _ _ _ _ _ cutoff Hrep ltac:(lia)) as [?|(db' & stats & Hp & Hpr)]; [by left|].
    right. eexists _, stats. split; [exact Hp|]. split; [done|].
    pose proof (prune_rocks _ _ _ _ _ _ _ _ _ _ Hrep Hp) as Hrep'. split.
    + intros h Hh. rewrite (read_block_rep _ _ _ _ _ _ _ _ Hrep' Hh), (read_block_rep _ _ _ _ _ _ _ _ Hrep Hh).
      unfold block_at. destruct (N.ltb_spec h cutoff).
      * by rewrite (proj2 (N.leb_gt (N.max first cutoff) h)), andb_false_r by lia.
      * by replace (N.max first cutoff <=? h) with (first <=? h) by
          (destruct (N.leb_spec first h), (N.leb_spec (N.max first cutoff) h); lia).
    + intros a. rewrite (open_rep _ _ _ _ _ _ _ _ Hrep'). eexists. split; [done|]. apply settle_blocks.
Qed.
End history.
