(* ===== verification/RestartProps.v ===== *)
(** * A node that stops and starts again.

    [running] is the life of a node that produces blocks into the store on RocksDB,
    writes checkpoints, prunes and restarts.  Whatever it did, opening its database
    and recovering the tip yields the state it had. *)

From S2P Require Import Prelude Crypto Types Cbor Payloads Tx FeeMarket Leaves Store StoreInv.
From S2P Require Import ApplyAccounts ApplyValidators Governance Archival ApplyTx TxSpec TxRefine.
From S2P Require Import Invariants Supply Mempool Block BlockInv Chain ChainInv Recovery.
From S2P Require Import StateRoot Examples RecoveryProps Commit Records RecordsProps Upgrade.
From S2P Require Import Storage StorageRep StorageProps StorageHistory.

#[local] Arguments state_root : simpl never.
#[local] Arguments compute_block_hash : simpl never.

(** ** The meta family *)

Section meta.
Context `{Ciborium, Shake, Verifier, RocksDb, !RocksDbLaws}.
Context `{!Serde StoredBlockRecord, !Serde TrustedCheckpointRecord}.
Context `{!SerdeLaws StoredBlockRecord, !SerdeLaws TrustedCheckpointRecord}.
Implicit Types (st : RocksDbChainStore) (s : StateStore) (sb : StoredBlock).

(** The entries under these keys are written once. *)
Definition same_meta (db db' : DB) : Prop :=
  forall k, k <> META_TIP_HEIGHT -> db_get db' Cf.Meta k = db_get db Cf.Meta k.

Lemma append_meta st sb db' : persist_to_db st sb = Ok db' -> same_meta (rk_db st) db'.
Proof. intros (b & _ & Hdb)%persist_Ok k Hk. by rewrite Hdb, decide_False. Qed.

Lemma append_base st sb policy st' m :
  rocks_append_stored_block st sb policy = Ok (st', m) ->
  db_get (rk_db st') Cf.Meta META_SNAPSHOT_BASE_HEIGHT =
  db_get (rk_db st) Cf.Meta META_SNAPSHOT_BASE_HEIGHT.
Proof.
  intros Ha. unfold rocks_append_stored_block in Ha. apply bind_Ok in Ha as ([] & _ & Ha).
  apply bind_Ok in Ha as ([trial md] & _ & Ha). run_inv. injection Ha as <- <-. by apply (append_meta _ _ _ H4).
Qed.

Lemma append_checkpoints st sb db' k :
  persist_to_db st sb = Ok db' -> db_get db' Cf.Checkpoints k = db_get (rk_db st) Cf.Checkpoints k.
Proof. intros (b & _ & Hdb)%persist_Ok. by rewrite Hdb. Qed.

(** ** Blocks of readable transactions *)

(** Submitted in canonical encoding, and decoded from it. *)
Definition readable_entry (e : PendingEntry) : Prop :=
  canonical_entry e /\ decode_tx (pe_raw_bytes e) = Ok (pe_tx e).
Definition pool_readable (pool : Mempool) : Prop := forall e, e ∈ all_pending pool -> readable_entry e.

Lemma pool_readable_canonical pool : pool_readable pool -> pool_canonical pool.
Proof. intros Hp e He. by destruct (Hp e He). Qed.

Lemma assembly_readable {E} config l a0 a :
  (forall e, e ∈ l -> readable_entry e) ->
  Forall2 body_readable (as_transactions a0) (as_included a0) ->
  foldM (assemble_entry (E := E) config) a0 l = Ok a ->
  Forall2 body_readable (as_transactions a) (as_included a).
Proof.
  intros Hl. apply (foldM_invariant _ (fun a => Forall2 body_readable (as_transactions a) (as_included a))).
  intros [s pool included txs deferred bytes skipped fees gas] e a' He Hf Ha.
  cbn in *. destruct (cfg_max_block_bytes config <? _); [by run_inv|].
  destruct (apply_tx s (pe_tx e) _) as [[s' r]|er|]; run_inv; [|done]. cbn.
  apply Forall2_app; [done|]. constructor; [|constructor].
  destruct (Hl e He) as [[Henc Hhash] Hdec]. by exists (pe_raw_bytes e).
Qed.

(** [execution.block.commit_signatures = sigs] *)
Definition with_signatures (sigs : list CommitSig) (exe : BlockExecutionResult) : BlockExecutionResult :=
  let b := exe_block exe in
  mkBlockExecutionResult (mkBlock (blk_header b) (blk_tx_hashes b) sigs) (exe_included exe)
    (exe_included_transactions exe) (exe_deferred exe) (exe_new_height exe) (exe_state_root exe)
    (exe_tx_root exe) (exe_bytes_used exe) (exe_vc_budget_consumed exe) (exe_skipped exe).

Lemma assembled_readable s pool ctx config s' pool' exe sigs :
  pool_readable pool -> assemble_block s pool ctx config = Ok (s', pool', exe) ->
  readable (stored_of (with_signatures sigs exe)).
Proof.
  intros Hp (a & s1 & Ha & _ & _ & _ & _ & Hst)%assemble_block_Ok.
  assert (readable (stored_of exe)) as Hr.
  { rewrite Hst. unfold readable. cbn.
    refine (assembly_readable _ _ _ _ _ _ Ha); [|by constructor].
    intros e. unfold pending_in_order. rewrite merge_sort_Permutation. apply Hp. }
  exact Hr.
Qed.

Lemma signatures_replay config s sigs exe :
  replay_block (cfg_fee_params config) (cfg_fee_dist config) (cfg_validator_pool config) s
    (stored_of (with_signatures sigs exe)) =
  replay_block (cfg_fee_params config) (cfg_fee_dist config) (cfg_validator_pool config) s
    (stored_of exe).
Proof. by destruct exe as [[] ? ? ? ? ? ? ? ? ?]. Qed.
End meta.

(** ** The life of a node *)

Section restart.
Context `{Ciborium, Shake, Verifier, RocksDb, !RocksDbLaws}.
Context `{!Serde StoredBlockRecord, !Serde TrustedCheckpointRecord}.
Context `{!SerdeLaws StoredBlockRecord, !SerdeLaws TrustedCheckpointRecord}.
Context (genesis : StateStore) (anchor : bytes) (config : AssemblyConfig).
Implicit Types (st : RocksDbChainStore) (s : StateStore).

Notation recover st := (rocks_recover_tip_with_checkpoint st genesis (cfg_fee_params config)
  (cfg_fee_dist config) (cfg_validator_pool config)).

(** The store and the state of a node that started on an empty database, and whose
    checkpoints can be restored.  The flag tells whether every block left an active validator,
    to whom fees go; the static pool is for a block that leaves none. *)
Inductive running : bool -> RocksDbChainStore -> StateStore -> Prop :=
  | running_start db st :
      (forall cf k, db_get db cf k = None) ->
      rocks_open_with_chain_id db anchor (st_chain_id genesis) = Ok st -> running true st genesis
  | running_block active st s pool ctx s' pool' exe sigs policy st' m :
      running active st s -> pool_txs_wf pool -> pool_readable pool ->
      is_epoch_boundary (asm_height ctx) (epc_epoch_duration (cfg_epoch_config config)) = false ->
      assemble_block s pool ctx config = Ok (s', pool', exe) -> st_block_height s' + 2 <= u64_max ->
      rocks_append_block st (with_signatures sigs exe) policy = Ok (st', m) ->
      running (active && negb (bool_decide (active_validators s' = []))) st' s'
  | running_checkpoint active st s st' m :
      running active st s -> 0 < st_block_height s -> snapshot_ok s ->
      rocks_write_trusted_checkpoint st s = Ok (st', m) ->
      running active (compact_chain_to_checkpoint st' (tcm_height m) (tcm_tip_hash m)) s
  | running_prune active st s cutoff st' stats :
      running active st s -> prune_blocks_below st cutoff = Ok (st', stats) -> running active st' s
  | running_restart active st s st' r :
      running active st s -> rocks_open_with_chain_id (rk_db st) anchor (st_chain_id genesis) = Ok st' ->
      recover st' = Ok r -> running active st' (rr_state (crr_replay r)).

(** The newest checkpoint holds [s0], or there is none and [s0] is the genesis state. *)
Definition checkpoint_of (db : DB) s0 (hash : bytes) (any : bool) : Prop :=
  if any then snapshot_ok s0 /\ exists b m,
    db_get db Cf.Checkpoints (height_to_key (st_block_height s0)) = Some b /\
    of_cbor b = Some (mkTrustedCheckpointRecord STATE_FORMAT_VERSION m (state_into_record s0)) /\
    m = mkTrustedCheckpointMetadata (st_block_height s0) hash (state_root s0)
  else s0 = genesis.

(** The chain in memory replays from the state of the newest checkpoint to [s]. *)
Record run_rep st s : Prop := {
  rn_chain_id : db_get (rk_db st) Cf.Meta META_CHAIN_ID = Some (st_chain_id genesis);
  rn_base : db_get (rk_db st) Cf.Meta META_SNAPSHOT_BASE_HEIGHT = None;
  rn_inv : chain_inv s;
  rn_id : st_chain_id s = st_chain_id genesis;
  rn_max : st_block_height s + 2 <= u64_max;
  rn_rep : exists first l1 l2 any s0,
    rocks_rep st 0 anchor first l1 l2 any /\
    st_block_height s = len l1 + len l2 /\ st_block_height s0 = len l1 /\
    chain_inv s0 /\ st_chain_id s0 = st_chain_id genesis /\
    checkpoint_of (rk_db st) s0 (last_hash anchor l1) any /\
    foldM (replay_stored (cfg_fee_params config) (cfg_fee_dist config) (cfg_validator_pool config))
      (s0, last_hash anchor l1, state_root s0) l2 = Ok (s, last_hash anchor (l1 ++ l2), state_root s)
}.

(** *** Recovery *)

Lemma find_checkpoint_Ok st s0 hash any h :
  chain_inv s0 -> st_chain_id s0 = st_chain_id genesis -> st_block_height s0 = h ->
  h < u64_max -> checkpoints_rep (rk_db st) (h) hash any ->
  checkpoint_of (rk_db st) s0 hash any ->
  find_latest_checkpoint_with_state (rk_db st) (st_chain_id genesis) =
  Ok (if any then Some (mkTrustedCheckpointMetadata (h) hash (state_root s0), s0) else None).
Proof.
  intros Hinv Hid Hh Hmax Hck Hof. unfold find_latest_checkpoint_with_state. destruct any.
  - destruct (newest_checkpoint _ _ _ Hmax Hck) as (v & record & rest & Hrev & Hr & Hver & Hhr & _ & Hpos).
    destruct Hof as [Hsn (b & m & Hb & Hrec & Hm)]. rewrite Hrev. cbn [latest_with_state].
    assert (v = b) as ->.
    { assert ((height_to_key (h), v) ∈ db_iter (rk_db st) Cf.Checkpoints) as Hin.
      { rewrite <-elem_of_reverse, Hrev. by left. }
      apply db_iter_get in Hin. rewrite Hh in Hb. congruence. }
    rewrite Hrec. cbn [tcr_version tcr_metadata tcr_state]. unfold check_state_format_version.
    rewrite N.ltb_irrefl. cbn [negb ensure mbind outcome_bind]. subst m. cbn [tcm_height tcm_state_root].
    rewrite Hh, (proj2 (N.eqb_neq _ _)) by lia.
    rewrite <-Hid, (snapshot_restores _ (ci_store _ Hinv) Hsn), Hh, N.eqb_refl. by rewrite bool_decide_true.
  - by rewrite (no_keys _ _ (proj2 Hck)).
Qed.

Definition recovered s (hash : bytes) : ReplayResult :=
  mkReplayResult s hash (st_block_height s) (state_root s).

(** All of the list is above the checkpoint. *)
Lemma above_checkpoint prev m n l :
  linked prev n l -> m <= n -> filter (fun sb => m < md_height (sb_metadata sb)) l = l.
Proof.
  revert prev n. induction l as [|sb l IH]; intros prev n Hl Hle; [done|].
  destruct Hl as (Hok & Hh & _ & Hl). rewrite filter_cons_True, (IH _ _ Hl); [done|lia|].
  rewrite (so_height _ Hok), Hh. lia.
Qed.

(** Without a checkpoint the whole chain is in memory. *)
Lemma recover_memory st s l :
  chain_rep (rk_chain st) l -> ch_anchor_prev_hash (rk_chain st) = anchor ->
  ch_base_height (rk_chain st) = 0 -> Forall counted l -> len l + 2 <= u64_max ->
  db_get (rk_db st) Cf.Meta META_SNAPSHOT_BASE_HEIGHT = None -> st_block_height genesis = 0 ->
  foldM (replay_stored (cfg_fee_params config) (cfg_fee_dist config) (cfg_validator_pool config))
    (genesis, anchor, state_root genesis) l = Ok (s, last_hash anchor l, state_root s) ->
  rocks_recover_tip st genesis (cfg_fee_params config) (cfg_fee_dist config) (cfg_validator_pool config) =
    Ok (recovered s (last_hash anchor l)).
Proof.
  intros Hc Ha Hb Hcnt Hmax Hmeta Hg Hf. pose proof (cr_linked _ _ Hc) as Hl. rewrite Ha, Hb in Hl.
  assert (map_err StorageError.Replay (recover_tip (rk_chain st) genesis (cfg_fee_params config)
    (cfg_fee_dist config) (cfg_validator_pool config)) = Ok (recovered s (last_hash anchor l))) as Hmem.
  { unfold recover_tip. rewrite (chain_consistent _ _ Hc Hb Hcnt Hmax), (rep_blocks_in_order _ _ Hc), Ha.
    cbn [mbind outcome_bind]. rewrite (replay_linked config genesis anchor l s); [done|by rewrite Hg|done|lia|done]. }
  unfold rocks_recover_tip. rewrite Hmem. destruct (_ =? 0); [done|].
  unfold read_meta_u64_by_name. rewrite Hmeta, (rep_blocks_in_order _ _ Hc). cbn [mbind outcome_bind default].
  change (0 <? 0) with false. cbn [mbind outcome_bind]. destruct l as [|sb l]; cbn [head from_option]; [done|].
  destruct Hl as (Hok & Hh & _). rewrite (so_height _ Hok), Hh. done.
Qed.

Lemma recover_run st s :
  run_rep st s -> settle (rk_chain st) = rk_chain st -> st_block_height genesis = 0 ->
  exists source checkpoint, recover st =
    Ok (mkCheckpointRecoveryResult (recovered s (expected_prev_hash (rk_chain st))) source checkpoint).
Proof.
  intros [_ Hbase Hinv _ Hmax (first & l1 & l2 & any & s0 & [Hd Hm] & Hh & Hh0 & Hinv0 & Hid0 & Hof & Hf)] Hs Hg.
  destruct Hm as [Hc Ha Hb Hp]. rewrite Hs in Hc. rewrite Hp, last_hash_app.
  pose proof (dr_linked _ _ _ _ _ _ _ _ Hd) as [_ Hl2]%linked_app.
  pose proof (dr_counted _ _ _ _ _ _ _ _ Hd) as [_ Hcnt]%Forall_app.
  pose proof (dr_checkpoints _ _ _ _ _ _ _ _ Hd) as Hck. rewrite N.add_0_l in *.
  unfold rocks_recover_tip_with_checkpoint.
  rewrite (find_checkpoint_Ok _ _ _ _ _ Hinv0 Hid0 Hh0 ltac:(lia) Hck Hof). cbn [mbind outcome_bind].
  destruct any.
  - cbn [tcm_height tcm_tip_hash]. rewrite (rep_blocks_in_order _ _ Hc), (above_checkpoint _ _ _ _ Hl2) by done.
    rewrite (replay_linked config s0 (last_hash anchor l1) l2 s); [|by rewrite Hh0|done|lia|].
    + cbn. rewrite last_hash_app. eauto.
    + by rewrite last_hash_app.
  - assert (l1 = []) as -> by (by apply (dr_no_checkpoint _ _ _ _ _ _ _ _ Hd)). cbn in Hof. subst s0.
    rewrite (recover_memory st s l2); try done; [cbn; eauto|]. change (len (@nil StoredBlock)) with 0 in Hh. lia.
Qed.

(** *** Every step keeps the invariant *)

Lemma open_rep_id st base first l1 l2 any a :
  rocks_rep st base a first l1 l2 any ->
  db_get (rk_db st) Cf.Meta META_CHAIN_ID = Some (st_chain_id genesis) ->
  rocks_open_with_chain_id (rk_db st) anchor (st_chain_id genesis) =
    Ok (mkRocksDbChainStore (rk_db st) (settle (rk_chain st)) (rk_genesis_anchor st)).
Proof.
  intros Hr Hid. unfold rocks_open_with_chain_id. rewrite (open_rep _ _ _ _ _ _ _ _ Hr).
  cbn [mbind outcome_bind]. unfold enforce_chain_id. cbn [rk_db]. rewrite Hid. by rewrite bool_decide_true.
Qed.

Lemma run_start db st :
  chain_inv genesis -> st_block_height genesis = 0 -> length anchor = 32%nat ->
  (forall cf k, db_get db cf k = None) ->
  rocks_open_with_chain_id db anchor (st_chain_id genesis) = Ok st -> run_rep st genesis.
Proof.
  intros Hinv Hg Hlen Hn Ho. unfold rocks_open_with_chain_id in Ho.
  apply bind_Ok in Ho as (st0 & Ho & He). destruct (open_empty _ _ _ Hn Hlen Ho) as [Hrep Hmeta].
  pose proof (enforce_rocks _ _ _ _ _ _ _ _ _ Hrep He) as Hrep'.
  unfold enforce_chain_id, write_meta_raw, write_batch in He. rewrite Hmeta in He by done. run_inv.
  assert (forall k, db_get x Cf.Meta k = if decide (k = META_CHAIN_ID) then Some (st_chain_id genesis)
    else db_get (rk_db st0) Cf.Meta k) as Hdb.
  { intros k. rewrite (db_write_get _ _ _ _ _ H4). cbn. repeat case_decide; naive_solver. }
  split; cbn [rk_db]; try done.
  - rewrite Hdb, decide_False by done. by apply Hmeta.
  - rewrite Hg. done.
  - exists 0, [], [], false, genesis. by split_and!.
Qed.

Lemma run_block st s pool ctx s' pool' exe sigs policy st' m :
  config_wf config -> run_rep st s -> pool_txs_wf pool -> pool_readable pool ->
  is_epoch_boundary (asm_height ctx) (epc_epoch_duration (cfg_epoch_config config)) = false ->
  assemble_block s pool ctx config = Ok (s', pool', exe) -> st_block_height s' + 2 <= u64_max ->
  rocks_append_block st (with_signatures sigs exe) policy = Ok (st', m) -> run_rep st' s'.
Proof.
  intros Hcfg [Hid Hbase Hinv Hcid Hmax (first & l1 & l2 & any & s0 & Hrep & Hh & Hh0 & Hinv0 & Hid0 & Hof & Hf)].
  intros Hwf Hpr Hne Ha Hmax' Happ.
  destruct (assemble_block_step _ _ _ _ _ _ _ Hinv Hwf Hcfg Ha) as (Hinv' & Hev & Hh' & _).
  destruct (replay_assembled _ _ _ _ _ _ _ Hinv Hwf Hcfg (pool_readable_canonical _ Hpr) Ha)
    as (s1 & Hs1 & _ & Hre). unfold epoch_step in Hs1. rewrite Hne in Hs1. subst s1.
  rewrite bool_decide_true in Hre by done.
  pose proof (assembled_readable _ _ _ _ _ _ _ sigs Hpr Ha) as Hread.
  unfold rocks_append_block in Happ. apply bind_Ok in Happ as ([] & _ & Happ).
  destruct (append_execution_Ok _ _ _ _ Happ) as (c' & db' & Hc & Hdb & ->).
  set (sb := stored_of (with_signatures sigs exe)) in *.
  assert (md_height (sb_metadata sb) = st_block_height s') as Hsb.
  { destruct Hrep as [_ Hm]. destruct (append_settled _ _ _ _ _ _ _ Hm Hc) as (_ & _ & Hcs & Hm').
    destruct (mem_fits _ _ _ _ _ _ Hm' Hcs Hread) as [[_ _ _ Hhs _] _].
    rewrite Hhs, len_app, Hh', Hh. lia. }
  split; cbn [rk_db].
  - by rewrite (append_meta _ _ _ Hdb).
  - by rewrite (append_meta _ _ _ Hdb).
  - done.
  - by rewrite (ev_chain_id _ _ Hev).
  - done.
  - exists first, l1, (l2 ++ [sb]), any, s0. split_and!; try done.
    + eapply append_rocks; try done. rewrite Hsb. lia.
    + rewrite Hh', Hh, len_app. change (len [sb]) with 1. lia.
    + unfold checkpoint_of in *. destruct any; [|done]. by rewrite (append_checkpoints _ _ _ _ Hdb).
    + rewrite foldM_app, Hf. cbn [mbind outcome_bind foldM]. unfold replay_stored at 1.
      rewrite <-(signatures_replay config s sigs exe) in Hre. fold sb in Hre. rewrite Hre. cbn [mbind outcome_bind].
      by rewrite app_assoc, last_hash_snoc.
Qed.

Lemma run_checkpoint st s st' m :
  run_rep st s -> 0 < st_block_height s -> snapshot_ok s ->
  rocks_write_trusted_checkpoint st s = Ok (st', m) ->
  run_rep (compact_chain_to_checkpoint st' (tcm_height m) (tcm_tip_hash m)) s.
Proof.
  intros [Hid Hbase Hinv Hcid Hmax (first & l1 & l2 & any & s0 & Hrep & Hh & Hh0 & Hinv0 & Hid0 & Hof & Hf)].
  intros Hpos Hsn Hw. destruct (checkpoint_rocks _ _ _ _ _ _ _ _ _ _ Hrep Hpos Hw) as [_ Hrep'].
  destruct (write_checkpoint_Ok _ _ _ _ Hw) as (b & Hmeta & Hb & _ & _ & Hdb).
  destruct (checkpoint_metadata_Ok _ _ _ Hmeta) as (Hs & Hmh & Hhash & Hroot).
  rewrite (mr_prev _ _ _ _ (proj2 Hrep)), last_hash_app in Hhash.
  split; cbn [rk_db compact_chain_to_checkpoint]; try done.
  - rewrite Hdb, decide_False; [done|]. by intros [].
  - rewrite Hdb, decide_False; [done|]. by intros [].
  - exists first, (l1 ++ l2), [], true, s. rewrite app_nil_r, len_app. split_and!; try done.
    + change (len (@nil StoredBlock)) with 0. lia.
    + split; [done|]. exists b, m. split_and!.
      * rewrite Hdb, decide_True; [done|]. by rewrite Hs, Hmh.
      * by apply of_to_cbor.
      * destruct m. cbn in *. congruence.
Qed.

Lemma run_prune st s cutoff st' stats :
  run_rep st s -> prune_blocks_below st cutoff = Ok (st', stats) -> run_rep st' s.
Proof.
  intros [Hid Hbase Hinv Hcid Hmax (first & l1 & l2 & any & s0 & Hrep & Hh & Hh0 & Hinv0 & Hid0 & Hof & Hf)] Hp.
  destruct (prune_Ok_inv _ _ _ _ _ _ _ _ _ _ Hrep Hp) as (-> & Hcut & db' & -> & Hpr).
  rewrite N.add_0_l in *. split; cbn [rk_db]; try done.
  - by rewrite (pr_meta _ _ _ _ Hpr).
  - by rewrite (pr_meta _ _ _ _ Hpr).
  - exists (N.max first cutoff), l1, l2, true, s0. split_and!; try done.
    + destruct Hrep as [Hd Hm]. split; [|done]. apply (disk_pruned (rk_db st)); try done. lia.
    + destruct Hof as [Hsn (b & m & Hb & Hrec & Hm)]. split; [done|]. exists b, m. split_and!; try done.
      cbn [rk_db]. by rewrite (pr_checkpoints _ _ _ _ Hpr), Hh0, decide_True, <-Hh0 by done.
Qed.

Lemma run_reopen st s :
  run_rep st s -> exists st',
  rocks_open_with_chain_id (rk_db st) anchor (st_chain_id genesis) = Ok st' /\
  st' = mkRocksDbChainStore (rk_db st) (settle (rk_chain st)) (rk_genesis_anchor st) /\ run_rep st' s.
Proof.
  intros [Hid Hbase Hinv Hcid Hmax (first & l1 & l2 & any & s0 & Hrep & Hrest)]. eexists.
  split; [exact (open_rep_id _ _ _ _ _ _ _ Hrep Hid)|]. split; [done|]. split; try done.
  exists first, l1, l2, any, s0. split; [by apply settle_rocks|done].
Qed.

Lemma running_rep active st s :
  chain_inv genesis -> st_block_height genesis = 0 -> length anchor = 32%nat -> config_wf config ->
  running active st s -> run_rep st s.
Proof.
  intros Hinv Hg Hlen Hcfg Hrun. induction Hrun.
  - by eapply run_start.
  - by eapply run_block.
  - by eapply run_checkpoint.
  - by eapply run_prune.
  - destruct (run_reopen _ _ IHHrun) as (st2 & Ho & Hst & Hrep). rewrite Ho in *. simplify_eq.
    destruct (recover_run _ _ Hrep (settle_twice _) Hg) as (source & ck & Hrec).
    rewrite Hrec in *. by simplify_eq.
Qed.

(** A restart loses nothing.  Take any node that started on an empty database and
    then produced blocks, wrote checkpoints and compacted its memory, pruned old blocks
    and restarted, in any order: opening its database again succeeds, and recovering
    the tip, from the newest checkpoint and the blocks after it or from the genesis
    state, yields the exact state, height, state root and tip hash the node had.  This
    is for checkpoints whose state the snapshot format can hold, for blocks that do not
    close an epoch and for transactions submitted in their canonical encoding. *)
Lemma restart_recovers_state active st s :
  chain_inv genesis -> st_block_height genesis = 0 -> length anchor = 32%nat -> config_wf config ->
  running active st s -> exists st' source checkpoint,
  rocks_open_with_chain_id (rk_db st) anchor (st_chain_id genesis) = Ok st' /\
  blocks_in_order (rk_chain st') = blocks_in_order (rk_chain st) /\
  chain_height (rk_chain st') = st_block_height s /\
  recover st' = Ok (mkCheckpointRecoveryResult
    (mkReplayResult s (expected_prev_hash (rk_chain st)) (st_block_height s) (state_root s))
    source checkpoint).
Proof.
  intros Hinv Hg Hlen Hcfg Hrun. pose proof (running_rep _ _ _ Hinv Hg Hlen Hcfg Hrun) as Hrep.
  destruct (run_reopen _ _ Hrep) as (st' & Ho & -> & Hrep').
  destruct (recover_run _ _ Hrep' (settle_twice _) Hg) as (source & ck & Hrec).
  destruct Hrep as [_ _ _ _ _ (first & l1 & l2 & any & s0 & Hr & Hh & _)].
  eexists _, source, ck. split; [exact Ho|]. split_and!.
  - apply settle_blocks.
  - cbn. rewrite settle_height, (mem_height _ _ _ _ (proj2 Hr)), Hh. lia.
  - rewrite Hrec. cbn [rk_chain]. by rewrite (proj2 (settle_rocks _ _ _ _ _ _ _ Hr)).
Qed.

(** ** A checkpoint that cannot be restored *)

Lemma only_key (db : DB) cf k v :
  (forall k', db_get db cf k' = if decide (k' = k) then Some v else None) -> db_iter db cf = [(k, v)].
Proof.
  intros Hget. rewrite db_iter_entries. assert (cf_map db cf = <[k := v]> ∅) as ->.
  { apply map_eq. intros k'. rewrite cf_map_lookup, Hget. case_decide as Hk; [subst|].
    - by rewrite lookup_insert_eq.
    - by rewrite lookup_insert_ne by done. }
  rewrite sorted_entries_insert_max by (intros k' v' Hv; by rewrite lookup_empty in Hv).
  by rewrite delete_empty.
Qed.

Lemma recover_empty st c_anchor base :
  mem_rep (rk_chain st) c_anchor base [] -> settle (rk_chain st) = rk_chain st ->
  db_get (rk_db st) Cf.Meta META_SNAPSHOT_BASE_HEIGHT = None -> st_block_height genesis + 2 <= u64_max ->
  rocks_recover_tip st genesis (cfg_fee_params config) (cfg_fee_dist config) (cfg_validator_pool config) =
    Ok (recovered genesis c_anchor).
Proof.
  intros [Hc Ha _ _] Hs Hmeta Hmax. rewrite Hs in Hc. unfold rocks_recover_tip.
  assert (recover_tip (rk_chain st) genesis (cfg_fee_params config) (cfg_fee_dist config)
    (cfg_validator_pool config) = Ok (recovered genesis c_anchor)) as ->.
  { unfold recover_tip, verify_chain_consistency. rewrite (rep_blocks_in_order _ _ Hc), Ha, (cr_tip _ _ Hc).
    cbn. rewrite bool_decide_true by done. cbn.
    apply (replay_linked config genesis c_anchor [] genesis); [done|by constructor|unfold len; cbn; lia|done]. }
  destruct (_ =? 0); [done|]. unfold read_meta_u64_by_name.
  by rewrite Hmeta, (rep_blocks_in_order _ _ Hc).
Qed.

(** The first checkpoint of a state that holds a proof anchor, a pending key rotation,
    a peer-id binding or archival data takes the node's state away: the store opens at
    the height of the checkpoint, the checks at start-up refuse the snapshot, whose
    root is not the recorded one, and recovery then replays no block at all and
    reports success with the genesis state at height 0.  The only other possibility
    is a collision of the hash function among the inputs of the two roots. *)
Lemma lost_checkpoint_resets_node st first l2 s st' m a :
  st_block_height genesis = 0 -> rocks_rep st 0 anchor first [] l2 false ->
  db_get (rk_db st) Cf.Meta META_SNAPSHOT_BASE_HEIGHT = None ->
  store_ok s -> 0 < st_block_height s -> lost_in_checkpoint s ->
  rocks_write_trusted_checkpoint st s = Ok (st', m) -> exists st'',
  rocks_open_internal (rk_db st') a = Ok st'' /\
  chain_height (rk_chain st'') = st_block_height s /\
  (recover st'' = Ok (mkCheckpointRecoveryResult
     (mkReplayResult genesis (tcm_tip_hash m) 0 (state_root genesis)) RecoverySource.FullReplay None) \/
   collision_in (root_queries (restored s (st_chain_id genesis)) ++ root_queries s)).
Proof.
  intros Hg Hrep Hbase Hok Hpos Hlost Hw.
  destruct (checkpoint_rocks _ _ _ _ _ _ _ _ _ _ Hrep Hpos Hw) as [Hd _].
  destruct (write_checkpoint_Ok _ _ _ _ Hw) as (b & Hmeta & Hb & _ & _ & Hdb).
  destruct (checkpoint_metadata_Ok _ _ _ Hmeta) as (Hs & Hmh & Hhash & Hroot).
  rewrite (mr_prev _ _ _ _ (proj2 Hrep)), last_hash_app in Hhash.
  rewrite (mem_height _ _ _ _ (proj2 Hrep)) in Hs, Hmh.
  destruct (open_disk _ _ _ _ _ _ _ _ a Hd) as (c & Ho & Hc & Ha & Hcb).
  eexists. split; [exact Ho|]. cbn [rk_chain]. split.
  { rewrite (rep_height _ _ Hc), Hcb, Hs. unfold len. cbn. lia. }
  unfold rocks_recover_tip_with_checkpoint, find_latest_checkpoint_with_state. cbn [rk_db].
  rewrite (only_key _ _ (height_to_key (tcm_height m)) b).
  2: { intros k. rewrite Hdb. pose proof (proj2 (dr_checkpoints _ _ _ _ _ _ _ _ (proj1 Hrep))) as Hn.
       cbn in Hn. rewrite Hn. apply decide_ext. intuition congruence. }
  cbn [reverse rev_append latest_with_state]. rewrite (of_to_cbor _ _ Hb). cbn [tcr_version tcr_metadata tcr_state].
  unfold check_state_format_version. rewrite N.ltb_irrefl. cbn [negb ensure mbind outcome_bind].
  rewrite (proj2 (N.eqb_neq (tcm_height m) 0)) by lia.
  assert (rocks_recover_tip (mkRocksDbChainStore (rk_db st') c (rk_genesis_anchor st')) genesis
    (cfg_fee_params config) (cfg_fee_dist config) (cfg_validator_pool config) =
    Ok (mkReplayResult genesis (tcm_tip_hash m) 0 (state_root genesis))) as Htip.
  { rewrite (recover_empty _ (tcm_tip_hash m) (ch_base_height c)).
    - unfold recovered. by rewrite Hg.
    - apply rep_mem in Hc. by rewrite Ha, <-Hhash in Hc.
    - by eapply rep_settled.
    - cbn [rk_db]. rewrite Hdb, decide_False; [done|]. by intros [].
    - rewrite Hg. lia. }
  destruct (record_into_state (state_into_record s) (st_chain_id genesis)) as [s'|e|] eqn:Hrec.
  - destruct (decide (state_root s' = state_root s)) as [Heq|Hne].
    + right. by apply (checkpoint_of_lost_tables s _ s').
    + left. rewrite (bool_decide_false (state_root s' = _)) by (by rewrite Hroot). rewrite orb_true_r.
      cbn [mbind outcome_bind]. by rewrite Htip.
  - left. cbn [mbind outcome_bind]. by rewrite Htip.
  - by destruct (record_into_state_no_panic _ _ Hrec).
Qed.
End restart.

(** ** Without the static pool *)

Section fallback.
Context `{Ciborium, Shake, Verifier, RocksDb, !RocksDbLaws}.
Context `{!Serde StoredBlockRecord, !Serde TrustedCheckpointRecord}.
Context `{!SerdeLaws StoredBlockRecord, !SerdeLaws TrustedCheckpointRecord}.
Context (genesis : StateStore) (anchor : bytes) (config : AssemblyConfig).

(** A node whose blocks all left an active validator could have had any static pool. *)
Lemma running_without_fallback st s :
  chain_inv genesis -> st_block_height genesis = 0 -> length anchor = 32%nat -> config_wf config ->
  running genesis anchor config true st s -> running genesis anchor (without_fallback config) true st s.
Proof.
  intros Hinv Hg Hlen Hcfg. assert (config_wf (without_fallback config)) as Hcfg' by (intros a []%elem_of_nil).
  generalize (eq_refl true). generalize true at 1 3 4. intros active Ht Hrun. revert Ht.
  induction Hrun as [db st Hn Ho|active st s pool ctx s' pool' exe sigs policy st' m Hrun IH Hwf Hpr Hne Ha Hmax Happ
    |active st s st' m Hrun IH Hpos Hsn Hw|active st s cutoff st' stats Hrun IH Hp|active st s st' r Hrun IH Ho Hrec];
    intros Ht.
  - by eapply running_start.
  - apply andb_true_iff in Ht as [-> Hact].
    pose proof (rn_inv _ _ _ _ _ (running_rep _ _ _ _ _ _ Hinv Hg Hlen Hcfg Hrun)) as Hs.
    eapply running_block; [by apply IH|exact Hwf|exact Hpr|exact Hne| |exact Hmax|exact Happ].
    apply assemble_without_fallback; try done. cbn. by destruct (bool_decide _) eqn:Hb; bool_hyps.
  - eapply running_checkpoint; [by apply IH|done..].
  - eapply running_prune; [by apply IH|done].
  - destruct (restart_recovers_state _ _ _ _ _ _ Hinv Hg Hlen Hcfg Hrun) as (st1 & source & ck & Ho1 & _ & _ & Hrec1).
    rewrite Ho in Ho1. injection Ho1 as <-. rewrite Hrec in Hrec1. injection Hrec1 as ->.
    destruct (restart_recovers_state _ _ _ _ _ _ Hinv Hg Hlen Hcfg' (IH Ht)) as (st2 & source' & ck' & Ho2 & _ & _ & Hrec2).
    rewrite Ho in Ho2. injection Ho2 as <-. exact (running_restart _ _ _ _ _ _ _ _ (IH Ht) Ho Hrec2).
Qed.
End fallback.

(** ** Witnesses *)

#[local] Existing Instance example_shake.
#[local] Existing Instance example_verifier.
#[local] Existing Instance Ex.cbor.
#[local] Existing Instance example_rocksdb.
#[local] Existing Instance example_rocksdb_laws.

Module RestartEx.
Definition produced : StateStore * BlockExecutionResult :=
  match Ex.block_run with
  | Ok (s, _, exe) => (s, exe)
  | _ => (Ex.genesis, mkBlockExecutionResult (mkBlock (mkBlockHeader 0 0 [] [] [] 0 [] []) [] []) [] [] [] 0 [] [] 0 0 [])
  end.
Definition state : StateStore := produced.1.
Definition execution : BlockExecutionResult := with_signatures [] produced.2.
Definition block : StoredBlock := stored_of execution.

Definition record_of (sb : StoredBlock) : list StoredBlockRecord :=
  match stored_block_into_record sb with Ok r => [r] | _ => [] end.
Definition checkpoint_record (sb : StoredBlock) (s : StateStore) : TrustedCheckpointRecord :=
  mkTrustedCheckpointRecord STATE_FORMAT_VERSION
    (mkTrustedCheckpointMetadata 1 (sb_hash sb) (state_root s)) (state_into_record s).

#[export] Instance blocks : Serde StoredBlockRecord :=
  table_serde (record_of block).
#[export] Instance checkpoints : Serde TrustedCheckpointRecord :=
  table_serde [checkpoint_record block state].

#[export] Instance blocks_laws : SerdeLaws StoredBlockRecord.
Proof.
  apply table_serde_laws. unfold record_of.
  by destruct (stored_block_into_record block).
Qed.
#[export] Instance checkpoints_laws : SerdeLaws TrustedCheckpointRecord.
Proof. by apply table_serde_laws. Qed.

Definition empty : DB := (fun _ => ∅) : mem_db.

(** Open, append the block, write a checkpoint. *)
Definition life : outcome StorageError.t (RocksDbChainStore * RocksDbChainStore * RocksDbChainStore * TrustedCheckpointMetadata) :=
  st0 ← rocks_open_with_chain_id empty RecoveryEx.anchor (st_chain_id Ex.genesis);
  '(st1, _) ← rocks_append_block st0 execution None;
  '(st2, m) ← rocks_write_trusted_checkpoint st1 state;
  Ok (st0, st1, st2, m).

Definition succeeds {E A} (m : outcome E A) : bool := match m with Ok _ => true | _ => false end.
Lemma succeeds_Ok {E A} (m : outcome E A) : succeeds m = true -> exists a, m = Ok a.
Proof. destruct m; [eauto|done|done]. Qed.

Lemma life_Ok : succeeds life = true.
Proof. vm_cast_no_check (@eq_refl bool true). Qed.

Lemma pool_readable_ok : pool_readable Ex.pool.
Proof.
  intros e He. split; [by apply RecoveryEx.pool_canonical_ok|]. unfold all_pending in He.
  assert ((map_to_list (by_hash Ex.pool)).*2 =
    [mkPendingEntry Ex.transfer Ex.transfer_raw (compute_tx_hash Ex.transfer_raw) 1000 5]) as Hp
    by (by vm_compute).
  rewrite Hp in He. apply list_elem_of_singleton in He as ->. by vm_compute.
Qed.

Lemma produced_Ok : exists pool', Ex.block_run = Ok (state, pool', produced.2).
Proof.
  destruct Ex.block_run_Ok as (s' & pool' & exe & Hr & _). exists pool'.
  unfold state, produced. by rewrite Hr.
Qed.

Lemma state_height : st_block_height state = 1.
Proof. vm_cast_no_check (@eq_refl N 1). Qed.

Lemma life_parts : exists st0 st1 st2 md m,
  rocks_open_with_chain_id empty RecoveryEx.anchor (st_chain_id Ex.genesis) = Ok st0 /\
  rocks_append_block st0 execution None = Ok (st1, md) /\
  rocks_write_trusted_checkpoint st1 state = Ok (st2, m).
Proof.
  destruct (succeeds_Ok _ life_Ok) as [x Hl]. unfold life in Hl.
  apply bind_Ok in Hl as (st0 & Ho & Hl). apply bind_Ok in Hl as ([st1 md] & Ha & Hl).
  apply bind_Ok in Hl as ([st2 m] & Hw & _). exists st0, st1, st2, md, m.
  split; [exact Ho|]. split; [exact Ha|exact Hw].
Qed.

Lemma block_readable : readable block.
Proof.
  destruct produced_Ok as [pool' Hrun]. unfold Ex.block_run in Hrun.
  exact (assembled_readable _ _ _ _ _ _ _ [] pool_readable_ok Hrun).
Qed.

Lemma fresh_store st :
  rocks_open_with_chain_id empty RecoveryEx.anchor (st_chain_id Ex.genesis) = Ok st ->
  rocks_rep st 0 RecoveryEx.anchor 0 [] [] false /\
  db_get (rk_db st) Cf.Meta META_SNAPSHOT_BASE_HEIGHT = None.
Proof.
  intros Ho. assert (forall cf k, db_get empty cf k = None) as Hn by (intros; apply lookup_empty). split.
  - unfold rocks_open_with_chain_id in Ho. apply bind_Ok in Ho as (st0 & Ho & He).
    exact (enforce_rocks _ _ _ _ _ _ _ _ _ (proj1 (open_empty empty RecoveryEx.anchor _ Hn eq_refl Ho)) He).
  - exact (rn_base _ _ Ex.config _ _
      (run_start Ex.genesis RecoveryEx.anchor Ex.config empty st Ex.genesis_inv eq_refl eq_refl Hn Ho)).
Qed.

(** The same store, as a history and as a list. *)
Lemma node_rep : exists st, stored st /\ rocks_rep st 0 RecoveryEx.anchor 0 [block] [] true.
Proof.
  destruct life_parts as (st0 & st1 & st2 & md & m & Ho & Ha & Hw).
  assert (md_height (sb_metadata block) = 1) as Hh by (vm_cast_no_check (@eq_refl N 1)).
  assert (md_height (sb_metadata block) < u64_max) as Hmax by (rewrite Hh; lia).
  assert (0 < st_block_height state) as Hpos by (rewrite state_height; lia).
  assert (forall cf k, db_get empty cf k = None) as Hn by (intros; apply lookup_empty).
  exists (compact_chain_to_checkpoint st2 (tcm_height m) (tcm_tip_hash m)). split.
  - apply (stored_checkpoint st1 state); [|exact Hpos|exact Hw].
    apply (stored_execution st0 execution None st1 md); [|exact block_readable|exact Hmax|exact Ha].
    exact (stored_open empty RecoveryEx.anchor _ st0 Hn eq_refl Ho).
  - apply (checkpoint_rocks st1 0 RecoveryEx.anchor 0 [] [block] false state); [|exact Hpos|exact Hw].
    unfold rocks_append_block in Ha. apply bind_Ok in Ha as ([] & _ & Ha).
    exact (append_execution_rocks st0 0 RecoveryEx.anchor 0 [] [] false execution st1 md
      (proj1 (fresh_store _ Ho)) block_readable Hmax Ha).
Qed.
End RestartEx.

Import RestartEx.

Lemma rocks_store_refines_witness : exists st,
  rocks_read_stored_block_at_height st 1 = Ok (Some block) /\
  rocks_read_stored_block_at_height st 2 = Ok None.
Proof.
  destruct node_rep as (st & _ & Hrep). exists st.
  destruct (rocks_store_refines st 0 RecoveryEx.anchor 0 [block] [] true Hrep) as (Hread & _).
  split; [exact (Hread 1 ltac:(lia))|exact (Hread 2 ltac:(lia))].
Defined.

Lemma reopen_after_any_history_witness : exists st c,
  rocks_open_internal (rk_db st) [] = Ok (mkRocksDbChainStore (rk_db st) c (rk_genesis_anchor st)) /\
  chain_height c = chain_height (rk_chain st).
Proof.
  destruct node_rep as (st & Hst & _). exists st.
  destruct (reopen_after_any_history st [] Hst) as (c & Ho & _ & _ & _ & _ & Hh & _).
  exists c. split; [exact Ho|exact Hh].
Defined.

Lemma prune_keeps_chain_witness : exists st,
  (exists reason, prune_blocks_below st 2 = Err (StorageError.InvalidPruneCutoff reason)) /\
  (prune_blocks_below st 1 = Err StorageError.RocksDb \/
   exists st' stats, prune_blocks_below st 1 = Ok (st', stats) /\ rk_chain st' = rk_chain st).
Proof.
  destruct node_rep as (st & _ & Hrep). exists st. split.
  - exact (prune_keeps_chain st 0 RecoveryEx.anchor 0 [block] [] true 2 Hrep).
  - destruct (prune_keeps_chain st 0 RecoveryEx.anchor 0 [block] [] true 1 Hrep)
      as [He|(st' & stats & Hp & Hc & _)]; [left; exact He|right].
    exists st', stats. split; [exact Hp|exact Hc].
Defined.
