(* ===== verification/NodeConfig.v ===== *)
(** * The configuration of a node and what is started from it: [pqcd/src/node.rs].

    A configuration file, the environment variables that override it, the roles, the genesis
    state and the commit policy built from it, opening the database, and the commands that
    work on a stopped node; of [devnet.rs], how a start recovers the state.  Reading JSON and TOML is the parameter [ConfigFormats], the
    [hex] crate is [Hex].  A [String] is its bytes.  Left out are the texts of the errors, the log,
    the data directory, whose database is an argument, and the fields that only the
    transports, the limits of the API and the signer backends read. *)

From S2P Require Import Prelude Crypto Text Types Cbor Payloads Tx FeeMarket Leaves Store StoreInv.
From S2P Require Import ApplyAccounts ApplyValidators Governance Archival ApplyTx Mempool Block Chain.
From S2P Require Import Recovery Commit Records Upgrade Storage.

(** ** Roles *)

(** [pqc-p2p/src/config.rs] *)
Module P2pRole.
Inductive t : Set := Validator | ValidatorFullnode | PublicFullnode.
End P2pRole.

Module NodeRole.
Inductive t : Set := SingleNode | Validator | Sentry | Full | Rpc | Archive | Bootnode.

Global Instance eq_dec : EqDecision t.
Proof. solve_decision. Defined.

Definition as_str (r : t) : bytes :=
  match r with
  | SingleNode => bstr "single_node"
  | Validator => bstr "validator"
  | Sentry => bstr "sentry"
  | Full => bstr "full"
  | Rpc => bstr "rpc"
  | Archive => bstr "archive"
  | Bootnode => bstr "bootnode"
  end.

Definition ALL : list t := [Validator; Sentry; Full; Rpc; Archive; Bootnode; SingleNode].

Definition is_validator (r : t) : bool :=
  match r with Validator | SingleNode => true | _ => false end.
Definition runs_bft_consensus_loop (r : t) : bool :=
  match r with Validator => true | _ => false end.
Definition requires_validator_set (r : t) : bool :=
  match r with SingleNode => false | _ => true end.
Definition requires_p2p_transport (r : t) : bool :=
  match r with SingleNode => false | _ => true end.
Definition syncs_from_peers (r : t) : bool := negb (is_validator r).
Definition keeps_full_history (r : t) : bool :=
  match r with Validator | SingleNode | Archive => true | _ => false end.
Definition serves_public_tx_submission (r : t) : bool :=
  match r with Validator | Bootnode | SingleNode => false | _ => true end.
Definition api_is_private (r : t) : bool :=
  match r with Validator | Bootnode => true | _ => false end.

Definition p2p_role (r : t) : P2pRole.t :=
  match r with
  | Validator | SingleNode => P2pRole.Validator
  | Sentry => P2pRole.ValidatorFullnode
  | Full | Rpc | Archive | Bootnode => P2pRole.PublicFullnode
  end.
Definition libp2p_listen_field (r : t) : bytes :=
  match r with
  | Validator | SingleNode => bstr "validator_listen"
  | Sentry => bstr "vfn_listen"
  | Full | Rpc | Archive | Bootnode => bstr "public_listen"
  end.
End NodeRole.

(** ** The configuration *)

Module GenesisKeyStatus.
Inductive t : Set := Pending | Active | Revoked.
End GenesisKeyStatus.

Record GenesisKeyConfig := mkGenesisKeyConfig {
  gkc_alg_id : N;
  gkc_pk_hex : bytes;
  gkc_key_version : N;
  gkc_valid_from_height : N;
  gkc_status : GenesisKeyStatus.t;
  gkc_allowed_tx_types : N
}.

Record GenesisAccountConfig := mkGenesisAccountConfig {
  gac_address_hex : bytes;
  gac_balance : N;
  gac_nonce : N;
  gac_keys : list GenesisKeyConfig
}.

Record ValidatorConfig := mkValidatorConfig {
  vc_node_id : bytes;
  vc_address_hex : bytes;
  vc_sig_alg_id : N;
  vc_public_key_hex : bytes;
  vc_commit_seed_hex : option bytes;
  vc_archival_sk_hex : option bytes
}.

Record DevnetConfig := mkDevnetConfig {
  dc_role : NodeRole.t;
  dc_sync_interval_ms : N;
  dc_block_time_ms : N;
  dc_proposer_address_hex : option bytes;
  dc_quorum_threshold : option N;
  dc_validators : list ValidatorConfig;
  dc_snapshot_source : option bytes;
  dc_epoch_duration : N;
  dc_unbonding_period : N;
  dc_keystore_path : option bytes;
  dc_distributed_signing : bool;
  dc_distributed_signing_quorum_wait_ms : N;
  dc_attack_mode : option bytes;
  dc_kem_seed_salt_hex : option bytes;
  dc_libp2p_seed_salt_hex : option bytes
}.

Global Instance eta_DevnetConfig : Settable DevnetConfig := fun x =>
  mkDevnetConfig (dc_role x) (dc_sync_interval_ms x) (dc_block_time_ms x)
    (dc_proposer_address_hex x) (dc_quorum_threshold x) (dc_validators x) (dc_snapshot_source x)
    (dc_epoch_duration x) (dc_unbonding_period x) (dc_keystore_path x) (dc_distributed_signing x)
    (dc_distributed_signing_quorum_wait_ms x) (dc_attack_mode x) (dc_kem_seed_salt_hex x)
    (dc_libp2p_seed_salt_hex x).

Definition DevnetConfig_default : DevnetConfig :=
  mkDevnetConfig NodeRole.SingleNode 250 1000 None None [] None EPOCH_DURATION_DEVNET
    VALIDATOR_UNBONDING_PERIOD None false 1500 None None None.

(** [enable], [validator_listen], [vfn_listen], [public_listen] of the section. *)
Record Libp2pConfig := mkLibp2pConfig {
  lc_enable : bool;
  lc_validator_listen : option bytes;
  lc_vfn_listen : option bytes;
  lc_public_listen : option bytes
}.

Record ApiConfig := mkApiConfig {
  api_public_tx_submission : bool;
  api_expose_token_state : bool;
  api_expose_notary_routes : bool
}.
Definition ApiConfig_default : ApiConfig := mkApiConfig true true true.

Record NodeConfig := mkNodeConfig {
  nc_node_id : bytes;
  nc_chain_id_hex : bytes;
  nc_anchor_prev_hash_hex : bytes;
  nc_fee_params : FeeParams;
  nc_devnet : DevnetConfig;
  nc_genesis_accounts : list GenesisAccountConfig;
  nc_api : ApiConfig;
  nc_libp2p : option Libp2pConfig
}.

Global Instance eta_NodeConfig : Settable NodeConfig := fun x =>
  mkNodeConfig (nc_node_id x) (nc_chain_id_hex x) (nc_anchor_prev_hash_hex x) (nc_fee_params x)
    (nc_devnet x) (nc_genesis_accounts x) (nc_api x) (nc_libp2p x).

Module NodeError.
Inductive t : Type :=
  | ReadConfig
  | ParseConfig
  | NotHex (field : string)
  | WrongLength (field : string) (expected actual : N)
  | UnknownAlg (raw : N)
  | InvalidGenesisAccount (address : bytes) (why : InvariantViolation)
  | InvalidValidators (why : CommitValidationError.t)
  | Storage (e : StorageError.t)
  | HeightMismatch (recovered store : N)
  | NoCheckpoint
  | PruneRefusedForRole (r : NodeRole.t)
  | PruneRefusedEmpty
  | NoValidatorSet (r : NodeRole.t).
End NodeError.

(** ** Loading *)

Class ConfigFormats := {
  toml_from_str : bytes -> option NodeConfig;
  json_from_str : bytes -> option NodeConfig
}.

Definition to_ascii_lowercase (s : bytes) : bytes :=
  (fun c => let n := Byte.to_N c in if (65 <=? n) && (n <=? 90) then byte_of_N (n + 32) else c) <$> s.

(** [Path::extension] of a file name: what follows its last dot, unless that dot is the
    first character. *)
Definition extension (file_name : bytes) : option bytes :=
  match list_find (fun c => c = x2e) (reverse file_name) with
  | Some (i, _) =>
      if bool_decide (S i = length file_name) then None
      else Some (drop (length file_name - i) file_name)
  | None => None
  end.

(** [hay.contains(needle)] *)
Definition contains (needle hay : bytes) : bool :=
  existsb (fun i => bool_decide (take (length needle) (drop i hay) = needle)) (seq 0 (S (length hay))).

Definition warn_on_role_api_misconfig (config : NodeConfig) : N :=
  if negb (NodeRole.serves_public_tx_submission (dc_role (nc_devnet config)))
     && api_public_tx_submission (nc_api config)
  then 1 else 0.

Definition warn_on_three_network_misconfig (config : NodeConfig) : bool :=
  match nc_libp2p config with
  | None => false
  | Some libp2p =>
      if negb (lc_enable libp2p) then false
      else if negb (NodeRole.is_validator (dc_role (nc_devnet config))) then false
      else
        match lc_public_listen libp2p with
        | None => false
        | Some public_listen =>
            contains (bstr "0.0.0.0") public_listen || contains (bstr "[::]") public_listen
            || contains (bstr "/ip4/0.0.0.0/") public_listen
            || contains (bstr "/ip6/::/") public_listen
        end
  end.

(** The value of a variable without the whitespace around it, if any is left. *)
Definition env_value (env : bytes -> option bytes) (var : bytes) : option bytes :=
  match env var with
  | Some value => if bool_decide (trim value = []) then None else Some (trim value)
  | None => None
  end.

Definition apply_env (env : bytes -> option bytes) (config : NodeConfig) : NodeConfig :=
  let config :=
    match env_value env (bstr "VIPER_NODE_ID") with
    | Some id => config <| nc_node_id := id |>
    | None => config
    end in
  let config :=
    match env_value env (bstr "VIPER_KEYSTORE_PATH") with
    | Some path => config <| nc_devnet := (nc_devnet config) <| dc_keystore_path := Some path |> |>
    | None => config
    end in
  let config :=
    match env_value env (bstr "VIPER_LIBP2P_SEED_SALT_HEX") with
    | Some salt =>
        config <| nc_devnet := (nc_devnet config) <| dc_libp2p_seed_salt_hex := Some salt |> |>
    | None => config
    end in
  match env_value env (bstr "VIPER_KEM_SEED_SALT_HEX") with
  | Some salt => config <| nc_devnet := (nc_devnet config) <| dc_kem_seed_salt_hex := Some salt |> |>
  | None => config
  end.

(** [contents] is what reading the file gives. *)
Definition load_node_config `{ConfigFormats} (file_name : bytes) (contents : option bytes)
    (env : bytes -> option bytes) : outcome NodeError.t NodeConfig :=
  raw ← ok_or contents NodeError.ReadConfig;
  let is_toml := from_option (fun e => bool_decide (to_ascii_lowercase e = bstr "toml")) false
                   (extension file_name) in
  config ← ok_or (if is_toml then toml_from_str raw else json_from_str raw) NodeError.ParseConfig;
  Ok (apply_env env config).

(** ** Genesis *)

Section genesis.
Context `{Shake} {hex : Hex}.

Definition decode_hex_bytes (raw : bytes) (field : string) : outcome NodeError.t bytes :=
  let trimmed := trim raw in
  let normalized := default trimmed (strip_prefix (bstr "0x") trimmed) in
  ok_or (hex_decode normalized) (NodeError.NotHex field).

Definition decode_hex_array (n : N) (raw : bytes) (field : string) : outcome NodeError.t bytes :=
  b ← decode_hex_bytes raw field;
  ensure (len b =? n) (NodeError.WrongLength field n (len b)) ;;
  Ok b.

Definition key_from_config (config : GenesisKeyConfig) : outcome NodeError.t KeyEntry :=
  alg_id ← ok_or (AlgId.from_u16 (gkc_alg_id config)) (NodeError.UnknownAlg (gkc_alg_id config));
  pk_bytes ← decode_hex_bytes (gkc_pk_hex config) "pk_hex";
  Ok (mkKeyEntry alg_id pk_bytes (gkc_key_version config) (gkc_valid_from_height config)
        match gkc_status config with
        | GenesisKeyStatus.Pending => KeyStatus.Pending
        | GenesisKeyStatus.Active => KeyStatus.Active
        | GenesisKeyStatus.Revoked => KeyStatus.Revoked
        end
        (gkc_allowed_tx_types config)).

Definition account_from_config (config : GenesisAccountConfig) : outcome NodeError.t Account :=
  keys ← collect key_from_config (gac_keys config);
  address ← decode_hex_array 32 (gac_address_hex config) "address_hex";
  let account := mkAccount address (gac_balance config) (gac_nonce config) keys 0 None
                   VERIFIER_TEMPLATE_ID_EOA [] in
  map_err (NodeError.InvalidGenesisAccount address) (check_invariants account) ;;
  Ok account.

(** [StateStore::from_snapshot_accounts] *)
Definition from_snapshot_accounts (accounts : list Account) (block_height : N) (chain_id : bytes)
    : StateStore :=
  from_snapshot_full accounts [] [] phase1_registry block_height chain_id.

Definition seed_validator (store : StateStore) (v : ValidatorConfig)
    : outcome NodeError.t StateStore :=
  alg_id ← ok_or (AlgId.from_u16 (vc_sig_alg_id v)) (NodeError.UnknownAlg (vc_sig_alg_id v));
  pk ← decode_hex_bytes (vc_public_key_hex v) "devnet.validators[].public_key_hex";
  operator ← decode_hex_array 32 (vc_address_hex v) "devnet.validators[].address_hex";
  Ok (insert_validator
        (mkValidatorRecord operator (vc_node_id v) alg_id pk 0 ValidatorStatus.Active 0 false)
        store).

Definition build_genesis_state (config : NodeConfig) : outcome NodeError.t StateStore :=
  chain_id ← decode_hex_bytes (nc_chain_id_hex config) "chain_id_hex";
  accounts ← collect account_from_config (nc_genesis_accounts config);
  foldM seed_validator (from_snapshot_accounts accounts 0 chain_id) (dc_validators (nc_devnet config)).

Definition commit_validator_from_config (config : ValidatorConfig)
    : outcome NodeError.t CommitValidator :=
  address ← decode_hex_bytes (vc_address_hex config) "devnet.validators[].address_hex";
  sig_alg_id ← ok_or (AlgId.from_u16 (vc_sig_alg_id config))
                 (NodeError.UnknownAlg (vc_sig_alg_id config));
  public_key ← decode_hex_bytes (vc_public_key_hex config) "devnet.validators[].public_key_hex";
  Ok (mkCommitValidator (vc_node_id config) address sig_alg_id public_key).

Definition build_commit_quorum_policy (config : NodeConfig)
    : outcome NodeError.t (option CommitQuorumPolicy) :=
  if bool_decide (dc_validators (nc_devnet config) = []) then Ok None
  else
    validators ← collect commit_validator_from_config (dc_validators (nc_devnet config));
    policy ← map_err NodeError.InvalidValidators
               (CommitQuorumPolicy_new validators (dc_quorum_threshold (nc_devnet config)));
    Ok (Some policy).
End genesis.

(** ** Starting and maintaining a node *)

Record NodeBootstrapReport := mkNodeBootstrapReport {
  nbr_chain_height : N;
  nbr_tip_hash : bytes;
  nbr_state_root : bytes;
  nbr_recovery_source : RecoverySource.t;
  nbr_checkpoint : option TrustedCheckpointMetadata;
  nbr_account_count : N
}.

Section start.
Context `{Ciborium, Shake, Verifier, RocksDb} {hex : Hex}.
Context `{!Serde StoredBlockRecord, !Serde TrustedCheckpointRecord}.

(** [ApiNodeState] *)
Record ApiNodeState := mkApiNodeState {
  ans_chain_id : bytes;
  ans_recovery_source : RecoverySource.t;
  ans_state : StateStore;
  ans_disk : RocksDbChainStore
}.

(** The compiled-in handlers need at most one round for each of the three versions of the
    state format before the current one, so four rounds always suffice and [Panic] stands
    for nothing ([upgrade_returns]). *)
Definition run_upgrade_chain (st : RocksDbChainStore) : outcome StorageError.t RocksDbChainStore :=
  default Panic (apply_upgrade_chain 4 st global_registry).

Definition open_disk_store_from_config (db : DB) (config : NodeConfig) (anchor_prev_hash : bytes)
    : outcome NodeError.t RocksDbChainStore :=
  _ ← build_commit_quorum_policy config;
  configured_chain_id ← decode_hex_bytes (nc_chain_id_hex config) "chain_id_hex";
  store ← map_err NodeError.Storage (rocks_open_with_chain_id db anchor_prev_hash configured_chain_id);
  map_err NodeError.Storage (run_upgrade_chain store).

Definition anchor_of (config : NodeConfig) : outcome NodeError.t bytes :=
  decode_hex_array 32 (nc_anchor_prev_hash_hex config) "anchor_prev_hash_hex".

(** The part that [bootstrap_from_config_path] and [open_node_state] share. *)
Definition recover_node (db : DB) (config : NodeConfig)
    : outcome NodeError.t (StateStore * RocksDbChainStore * CheckpointRecoveryResult) :=
  genesis_state ← build_genesis_state config;
  anchor_prev_hash ← anchor_of config;
  disk ← open_disk_store_from_config db config anchor_prev_hash;
  map_err NodeError.Storage (verify_quick_finality_invariants disk) ;;
  recovery ← map_err NodeError.Storage
    (rocks_recover_tip_with_checkpoint disk genesis_state (nc_fee_params config)
       FeeDistributionParams_default []);
  Ok (genesis_state, disk, recovery).

Definition bootstrap_from_config (db : DB) (config : NodeConfig)
    : outcome NodeError.t NodeBootstrapReport :=
  '(_, disk, recovery) ← recover_node db config;
  let replay := crr_replay recovery in
  ensure (rr_height replay =? chain_height (rk_chain disk))
    (NodeError.HeightMismatch (rr_height replay) (chain_height (rk_chain disk))) ;;
  Ok (mkNodeBootstrapReport (rr_height replay) (rr_tip_hash replay) (rr_state_root replay)
        (crr_source recovery) (crr_checkpoint recovery)
        (len (accounts_in_order (rr_state replay)))).

Definition open_node_state (db : DB) (config : NodeConfig) : outcome NodeError.t ApiNodeState :=
  '(genesis_state, disk, recovery) ← recover_node db config;
  Ok (mkApiNodeState (st_chain_id genesis_state) (crr_source recovery)
        (rr_state (crr_replay recovery)) disk).

(** *** The start of a devnet node: [start_from_config_path] of [devnet.rs] *)

(** The static validators whose address can be read. *)
Definition configured_pool (config : NodeConfig) : list Address :=
  omap (fun v => match decode_hex_array 32 (vc_address_hex v) "devnet.validators[].address_hex" with
                 | Ok address => Some address
                 | _ => None
                 end) (dc_validators (nc_devnet config)).

(** The parameters its proposer assembles blocks with. *)
Definition production_config (config : NodeConfig) : AssemblyConfig :=
  mkAssemblyConfig u64_max (nc_fee_params config) (configured_pool config)
    FeeDistributionParams_default
    (mkEpochConfig (dc_epoch_duration (nc_devnet config)) (dc_unbonding_period (nc_devnet config))
       (epc_churn EpochConfig_devnet)).

(** From the configuration to the recovered state.  [cold_start] is the download of a peer's
    snapshot into an empty database; starting the swarm before it is left out. *)
Definition start_recovery (db : DB) (config : NodeConfig)
    (cold_start : RocksDbChainStore -> outcome NodeError.t RocksDbChainStore)
    : outcome NodeError.t (RocksDbChainStore * CheckpointRecoveryResult) :=
  genesis_state ← build_genesis_state config;
  commit_policy ← build_commit_quorum_policy config;
  anchor_prev_hash ← anchor_of config;
  let role := dc_role (nc_devnet config) in
  ensure (negb (NodeRole.requires_validator_set role && bool_decide (commit_policy = None)))
    (NodeError.NoValidatorSet role) ;;
  let validator_pool := configured_pool config in
  disk ← open_disk_store_from_config db config anchor_prev_hash;
  _ ← map_err NodeError.Storage (verify_quick_finality_invariants disk);
  disk ← (if (chain_height (rk_chain disk) =? 0) && negb (has_checkpoint disk)
          then cold_start disk else Ok disk);
  recovery ← map_err NodeError.Storage
    (rocks_recover_tip_with_checkpoint disk genesis_state (nc_fee_params config)
       FeeDistributionParams_default validator_pool);
  let height := rr_height (crr_replay recovery) in
  ensure (negb (height <? chain_height (rk_chain disk)))
    (NodeError.HeightMismatch height (chain_height (rk_chain disk))) ;;
  Ok (disk, recovery).

Definition snapshot_export (db : DB) (config : NodeConfig) : outcome NodeError.t (N * bytes) :=
  anchor_prev_hash ← anchor_of config;
  disk ← open_disk_store_from_config db config anchor_prev_hash;
  b ← ok_or (export_checkpoint_bytes disk) NodeError.NoCheckpoint;
  '(height, _) ← map_err NodeError.Storage (decode_snapshot_metadata b);
  Ok (height, b).

Definition snapshot_import (db : DB) (config : NodeConfig) (snapshot_bytes : bytes)
    : outcome NodeError.t (RocksDbChainStore * TrustedCheckpointMetadata) :=
  genesis_state ← build_genesis_state config;
  anchor_prev_hash ← anchor_of config;
  disk ← open_disk_store_from_config db config anchor_prev_hash;
  map_err NodeError.Storage
    (bootstrap_from_external_snapshot disk snapshot_bytes [] (st_chain_id genesis_state)).

Definition snapshot_prune (db : DB) (config : NodeConfig) (keep_tail_blocks : N) (force : bool)
    : outcome NodeError.t (RocksDbChainStore * PruneStats) :=
  let role := dc_role (nc_devnet config) in
  ensure (negb (NodeRole.keeps_full_history role && negb force))
    (NodeError.PruneRefusedForRole role) ;;
  anchor_prev_hash ← anchor_of config;
  disk ← open_disk_store_from_config db config anchor_prev_hash;
  let tip := chain_height (rk_chain disk) in
  ensure (negb (tip =? 0)) NodeError.PruneRefusedEmpty ;;
  if tip <=? keep_tail_blocks then Ok (disk, mkPruneStats 0 0 0 0 0 0)
  else map_err NodeError.Storage (prune_blocks_below disk (tip - keep_tail_blocks)).
End start.
