(* ===== verification/NodeConfigProps.v ===== *)
(** * What is started from a configuration.

    The genesis state of a configuration satisfies the invariant of the chain, holds the
    configured supply and derives the configured commit policy.  A node started from its
    configuration finds the state it had; where it does not, the two entry points differ. *)

From S2P Require Import Prelude Crypto Text Types Cbor Payloads Tx FeeMarket Leaves Store StoreInv.
From S2P Require Import ApplyAccounts ApplyValidators Governance Archival ApplyTx TxSpec TxRefine.
From S2P Require Import Invariants Supply Mempool Block BlockInv Chain ChainInv Recovery RecoveryProps.
From S2P Require Import Examples StateRoot Commit CommitProps Records RecordsProps Upgrade Storage.
From S2P Require Import StorageRep StorageProps StorageHistory RestartProps NodeConfig.

(** ** Text fields *)

Section text.
Context {hex : Hex}.

Lemma decode_hex_encode b field : decode_hex_bytes (hex_encode b) field = Ok b.
Proof.
  unfold decode_hex_bytes. rewrite trim_digits by apply hex_encode_lower.
  rewrite strip_prefix_digits by (apply hex_encode_lower || reflexivity). cbn [default].
  by rewrite hex_decode_encode.
Qed.

Lemma decode_hex_array_Ok n raw field b :
  decode_hex_array n raw field = Ok b <-> decode_hex_bytes raw field = Ok b /\ len b = n.
Proof.
  unfold decode_hex_array. split.
  - intros Hd. run_inv. bool_hyps. done.
  - intros [-> Hl]. cbn [mbind outcome_bind]. by rewrite (proj2 (N.eqb_eq _ _) Hl).
Qed.
End text.

(** ** Tables from distinct keys *)

Lemma tbl_of_values {K V} `{Countable K} (h : K -> V -> bytes) (key : V -> K) l :
  NoDup (key <$> l) -> (map_to_list (rows (tbl_of h key l))).*2 ≡ₚ l.
Proof.
  intros Hnd. assert (forall v, v ∈ l -> rows (tbl_of h key l) !! key v = Some v) as Hin.
  { intros v Hv. unfold tbl_of. rewrite foldl_insert_rows. by apply foldl_insert_elem. }
  assert (forall k v, rows (tbl_of h key l) !! k = Some v -> v ∈ l /\ key v = k) as Hout.
  { intros k v. unfold tbl_of. rewrite foldl_insert_rows. intros [?|Hk]%foldl_insert_lookup; [done|].
    cbn in Hk. by rewrite lookup_empty in Hk. }
  apply NoDup_Permutation.
  - apply NoDup_fmap_2_strong; [|apply NoDup_map_to_list].
    intros [k v] [k' v'] Hv%elem_of_map_to_list Hv'%elem_of_map_to_list. cbn. intros <-.
    by rewrite <-(proj2 (Hout _ _ Hv)), <-(proj2 (Hout _ _ Hv')).
  - by eapply NoDup_fmap_1.
  - intros v. rewrite list_elem_of_fmap. split.
    + intros ([k w] & -> & Hw%elem_of_map_to_list). by destruct (Hout _ _ Hw).
    + intros Hv. exists (key v, v). split; [done|]. by apply elem_of_map_to_list, Hin.
Qed.

Lemma tbl_of_has {K V} `{Countable K} (h : K -> V -> bytes) (key : V -> K) l v :
  v ∈ l -> is_Some (rows (tbl_of h key l) !! key v).
Proof.
  unfold tbl_of. rewrite foldl_insert_rows. cbn. generalize (∅ : gmap K V) as m.
  assert (forall (m : gmap K V) l, is_Some (m !! key v) ->
    is_Some (foldl (fun m v => <[key v := v]> m) m l !! key v)) as Hkeep.
  { intros m l'. revert m. induction l' as [|w l' IH]; intros m Hm; cbn; [done|]. apply IH.
    destruct (decide (key w = key v)) as [->|?]; [by rewrite lookup_insert_eq|by rewrite lookup_insert_ne]. }
  induction l as [|w l IH]; intros m; [by intros ?%elem_of_nil|]. cbn.
  intros [->|Hv]%elem_of_cons; [|by apply IH]. apply Hkeep. by rewrite lookup_insert_eq.
Qed.

Lemma map_sum_values {K V} `{Countable K} (f : V -> N) (m : gmap K V) :
  map_sum f m = list_sumN f (map_to_list m).*2.
Proof.
  induction m as [|k v m Hk IH] using map_ind; [by rewrite map_to_list_empty|].
  rewrite map_sum_insert_fresh, IH by done.
  symmetry. apply (list_sumN_Permutation f _ (v :: (map_to_list m).*2)).
  by rewrite (map_to_list_insert m k v Hk).
Qed.

(** ** The genesis state *)

Section genesis.
Context `{Shake} {hex : Hex}.
Implicit Types (config : NodeConfig) (s : StateStore).

(** What a text field stands for. *)
Definition hex_value (raw : bytes) : option bytes :=
  hex_decode (default (trim raw) (strip_prefix (bstr "0x") (trim raw))).

Lemma decode_hex_bytes_Ok raw field b : decode_hex_bytes raw field = Ok b <-> hex_value raw = Some b.
Proof.
  unfold decode_hex_bytes. fold (hex_value raw). destruct (hex_value raw); cbn; split; congruence.
Qed.

(** The record of a configured validator. *)
Definition seeds (v : ValidatorConfig) (r : ValidatorRecord) : Prop :=
  hex_value (vc_address_hex v) = Some (val_operator r) /\ len (val_operator r) = 32 /\
  hex_value (vc_public_key_hex v) = Some (val_consensus_pk r) /\
  AlgId.from_u16 (vc_sig_alg_id v) = Some (val_consensus_alg_id r) /\
  r = mkValidatorRecord (val_operator r) (vc_node_id v) (val_consensus_alg_id r)
        (val_consensus_pk r) 0 ValidatorStatus.Active 0 false.

Lemma seeded l s s' :
  foldM seed_validator s l = Ok s' ->
  exists rs, Forall2 seeds l rs /\ s' = foldl (fun s v => insert_validator v s) s rs.
Proof.
  revert s. induction l as [|v l IH]; intros s Hf; cbn in Hf.
  { injection Hf as <-. by exists []. }
  apply bind_Ok in Hf as (s1 & Hv & (rs & Hrs & ->)%IH). unfold seed_validator in Hv. run_inv.
  destruct (AlgId.from_u16 (vc_sig_alg_id v)) as [a|] eqn:Ha; [|done]. cbn in *. simplify_eq.
  repeat match goal with
  | H : decode_hex_array _ _ _ = Ok _ |- _ => apply decode_hex_array_Ok in H as [? ?]
  | H : decode_hex_bytes _ _ = Ok _ |- _ => apply decode_hex_bytes_Ok in H
  end.
  eexists (_ :: rs). split; [constructor; [|exact Hrs]|reflexivity]. by split_and!.
Qed.

Lemma account_from_config_Ok c a :
  account_from_config c = Ok a ->
  hex_value (gac_address_hex c) = Some (acc_address a) /\ len (acc_address a) = 32 /\
  acc_balance a = gac_balance c /\ check_invariants a = Ok tt.
Proof.
  unfold account_from_config. intros Hc. run_inv.
  match goal with H : decode_hex_array _ _ _ = Ok _ |- _ => apply decode_hex_array_Ok in H as [Hd ?] end.
  apply decode_hex_bytes_Ok in Hd. split_and!; try done.
Qed.

(** The configured accounts and validators, and nothing else. *)
Lemma genesis_assembled config s :
  build_genesis_state config = Ok s -> exists chain_id accounts rs,
  hex_value (nc_chain_id_hex config) = Some chain_id /\
  Forall2 (fun c a => account_from_config c = Ok a) (nc_genesis_accounts config) accounts /\
  Forall2 seeds (dc_validators (nc_devnet config)) rs /\
  s = assembled accounts [] [] phase1_registry rs FeeMarketState_default [] [] 0 chain_id /\
  s = foldl (fun s v => insert_validator v s) (from_snapshot_accounts accounts 0 chain_id) rs.
Proof.
  unfold build_genesis_state. intros Hb.
  apply bind_Ok in Hb as (chain_id & Hid%decode_hex_bytes_Ok & Hb).
  apply bind_Ok in Hb as (accounts & Ha & (rs & Hrs & ->)%seeded).
  apply (collect_at_Forall2 _ (fun c a => account_from_config c = Ok a)) in Ha; [|done].
  exists chain_id, accounts, rs. split_and!; try done.
  exact (inserts_assembled accounts [] [] phase1_registry rs false FeeMarketState_default [] [] 0 chain_id).
Qed.

Definition same_address (a : GenesisAccountConfig) (v : ValidatorConfig) : Prop :=
  hex_value (gac_address_hex a) = hex_value (vc_address_hex v).

Definition accounts_from (cs : list GenesisAccountConfig) (accounts : list Account) : Prop :=
  Forall2 (fun c a => account_from_config c = Ok a) cs accounts.

Lemma configured_accounts cs accounts a :
  accounts_from cs accounts -> a ∈ accounts ->
  length (acc_address a) = 32%nat /\ check_invariants a = Ok tt.
Proof.
  intros Ha [i Hi]%list_elem_of_lookup. destruct (Forall2_lookup_r _ _ _ _ _ Ha Hi) as (c & _ & Hc).
  apply account_from_config_Ok in Hc as (_ & Hl & _ & ?). unfold len in Hl. split; [lia|done].
Qed.

(** A configured validator whose address is among the accounts has one. *)
Lemma configured_validators cs accounts vs rs r :
  accounts_from cs accounts -> Forall2 seeds vs rs ->
  (forall v, v ∈ vs -> exists a, a ∈ cs /\ same_address a v) -> r ∈ rs ->
  length (val_operator r) = 32%nat /\ val_tombstoned r = false /\
  is_Some (rows (tbl_of h_account acc_address accounts) !! val_operator r).
Proof.
  intros Ha Hrs Hop [i Hi]%list_elem_of_lookup. destruct (Forall2_lookup_r _ _ _ _ _ Hrs Hi) as (v & Hv & Hsd).
  destruct Hsd as (Hav & Hl & _ & _ & Hrec). split; [unfold len in Hl; lia|]. split; [by rewrite Hrec|].
  destruct (Hop v (list_elem_of_lookup_2 _ _ _ Hv)) as (c & [j Hc]%list_elem_of_lookup & Hsame).
  destruct (Forall2_lookup_l _ _ _ _ _ Ha Hc) as (a & Haj & Hca%account_from_config_Ok).
  destruct Hca as (Hca & _). unfold same_address in Hsame.
  assert (val_operator r = acc_address a) as -> by congruence.
  apply (tbl_of_has _ acc_address), (list_elem_of_lookup_2 _ _ _ Haj).
Qed.

Lemma tbl_of_key {V} (h : bytes -> V -> bytes) (key : V -> bytes) l k v :
  rows (tbl_of h key l) !! k = Some v -> k = key v.
Proof.
  unfold tbl_of. rewrite foldl_insert_rows. intros [[_ ?]|Hk]%foldl_insert_lookup; [done|].
  cbn in Hk. by rewrite lookup_empty in Hk.
Qed.

Lemma genesis_chain_inv config s :
  build_genesis_state config = Ok s ->
  (forall v, v ∈ dc_validators (nc_devnet config) ->
     exists a, a ∈ nc_genesis_accounts config /\ same_address a v) ->
  chain_inv s.
Proof.
  intros Hb Hop. destruct (genesis_assembled _ _ Hb) as (chain_id & accounts & rs & _ & Ha & Hrs & Has & Hfold).
  pose proof (fun a => configured_accounts _ _ a Ha) as Hacc.
  pose proof (fun r => configured_validators _ _ _ _ r Ha Hrs Hop) as Hr.
  assert (store_ok s) as Hok.
  { rewrite Hfold. apply foldl_store_ok_elem.
    - intros s0 r Hin Hs0. apply upd_validators_ok; [split; [done|by apply Hr]|done].
    - apply from_snapshot_ok; [by apply Hacc|intros ? []%elem_of_nil..|lia]. }
  clear Hfold. subst s. split; [done|..]; try apply tbl_all_empty; [..|done].
  - intros k a Hk%tbl_of_elem. right. by apply Hacc.
  - intros k r Hk%tbl_of_elem. intros Ht. destruct (Hr r Hk) as (_ & Hf & _). congruence.
  - intros k r Hk. pose proof (tbl_of_key h_validator val_operator rs k r Hk) as ->.
    exact (proj2 (proj2 (Hr r (tbl_of_elem h_validator val_operator rs _ _ Hk)))).
Qed.

Lemma NoDup_images {A B C} (f : A -> option C) (g : B -> C) l k :
  Forall2 (fun x y => f x = Some (g y)) l k -> NoDup (f <$> l) <-> NoDup (g <$> k).
Proof.
  intros Hf. assert (f <$> l = Some <$> (g <$> k)) as ->.
  { induction Hf as [|x y l k Hx _ IH]; [done|]. rewrite !fmap_cons. by rewrite Hx, IH. }
  split; [apply NoDup_fmap_1|apply NoDup_fmap_2, _].
Qed.

(** *** Supply *)

Lemma genesis_supply config s :
  build_genesis_state config = Ok s ->
  NoDup (hex_value ∘ gac_address_hex <$> nc_genesis_accounts config) ->
  supply s = list_sumN gac_balance (nc_genesis_accounts config).
Proof.
  intros Hb Hnd. destruct (genesis_assembled _ _ Hb) as (chain_id & accounts & rs & _ & Ha & Hrs & -> & _).
  unfold supply, balances, bonds. cbn [assembled st_accounts st_validators].
  assert (map_sum bonded (rows (tbl_of h_validator val_operator rs)) = 0) as ->.
  { rewrite (map_sum_ext _ (fun _ => 0)).
    - rewrite map_sum_values, list_sumN_const. lia.
    - intros k r Hk%tbl_of_elem. apply list_elem_of_lookup in Hk as [i Hi].
      destruct (Forall2_lookup_r _ _ _ _ _ Hrs Hi) as (v & _ & _ & _ & _ & _ & ->). done. }
  rewrite N.add_0_r, map_sum_values.
  assert (Forall2 (fun c a => hex_value (gac_address_hex c) = Some (acc_address a) /\
    gac_balance c = acc_balance a) (nc_genesis_accounts config) accounts) as Hca.
  { eapply Forall2_impl; [exact Ha|]. intros c a (? & _ & ? & _)%account_from_config_Ok. by split. }
  rewrite (list_sumN_Permutation _ _ accounts).
  - clear Ha Hnd Hb. induction Hca as [|c a cs l [_ Hbal] _ IH]; [done|]. cbn. by rewrite IH, Hbal.
  - apply tbl_of_values. eapply NoDup_images; [|exact Hnd].
    eapply Forall2_impl; [exact Hca|]. by intros c a [? _].
Qed.

(** *** Commit policy *)

Lemma active_records rs accounts chain_id :
  NoDup (val_operator <$> rs) -> (forall r, r ∈ rs -> val_status r = ValidatorStatus.Active) ->
  active_validators (assembled accounts [] [] phase1_registry rs FeeMarketState_default [] [] 0 chain_id)
    ≡ₚ rs.
Proof.
  intros Hnd Hst. unfold active_validators, validators_in_order. cbn [assembled st_validators].
  assert ((sorted_entries bytes_le (rows (tbl_of h_validator val_operator rs))).*2 ≡ₚ rs) as Hp.
  { unfold sorted_entries. rewrite merge_sort_Permutation. by apply tbl_of_values. }
  rewrite Hp. clear Hp Hnd. induction rs as [|r rs IH]; [done|].
  rewrite filter_cons_True by (apply Hst; left). f_equiv. apply IH. intros r' ?. apply Hst. by right.
Qed.

Lemma insert_new_distinct {E} (e : bytes -> E) l seen seen' :
  foldM (insert_new e) seen l = Ok seen' -> NoDup l /\ forall x, x ∈ l -> x ∉ seen.
Proof.
  revert seen. induction l as [|x l IH]; intros seen Hf; cbn in Hf.
  { split; [constructor|by intros ? ?%elem_of_nil]. }
  apply bind_Ok in Hf as (seen1 & [Hx ->]%insert_new_Ok & [Hnd Hs]%IH). split.
  - constructor; [|done]. intros Hin%Hs. set_solver.
  - intros y [->|Hy]%elem_of_cons; [done|]. apply Hs in Hy. set_solver.
Qed.

Lemma policy_new_Ok l th p :
  CommitQuorumPolicy_new l th = Ok p ->
  NoDup (cva_address <$> l) /\ cqp_validators p = l /\ forall l', l' ≡ₚ l ->
  CommitQuorumPolicy_new l' th = Ok (p <| cqp_validators := l' |>).
Proof.
  unfold CommitQuorumPolicy_new. intros Hp. run_inv.
  match goal with H : foldM _ _ _ = Ok _ |- _ => apply insert_new_distinct in H as [Hnd _] end.
  split; [done|]. split; [done|]. intros l' Hl'.
  assert (len l' = len l) as Hlen by (unfold len; by rewrite Hl').
  rewrite bool_decide_false.
  - cbn [negb ensure mbind outcome_bind]. rewrite insert_new_loop; [|by rewrite Hl'|set_solver].
    cbn [mbind outcome_bind]. rewrite Hlen.
    rewrite (proj2 (N.eqb_neq _ _)), (proj2 (N.ltb_ge _ _)) by done. done.
  - intros ->. by apply Permutation_nil_l in Hl'.
Qed.

Lemma commit_validators_of vs rs cvs :
  Forall2 seeds vs rs -> collect commit_validator_from_config vs = Ok cvs ->
  cvs = commit_validator_of <$> rs.
Proof.
  intros Hs Hc. apply (collect_at_Forall2 _ (fun v cv => commit_validator_from_config v = Ok cv)) in Hc; [|done].
  revert cvs Hc. induction Hs as [|v r vs rs Hv _ IH]; intros cvs Hc.
  { by apply Forall2_nil_inv_l in Hc as ->. }
  apply Forall2_cons_inv_l in Hc as (cv & cvs' & Hcv & Hc & ->). rewrite fmap_cons.
  rewrite <-(IH _ Hc). f_equal. destruct Hv as (Ha & _ & Hpk & Halg & Hr).
  unfold commit_validator_from_config in Hcv. rewrite Halg in Hcv. run_inv.
  repeat match goal with H : decode_hex_bytes _ _ = Ok _ |- _ => apply decode_hex_bytes_Ok in H end.
  rewrite Hr. unfold commit_validator_of. cbn. congruence.
Qed.

(** The policy read off the genesis state is the configured one, its validators in the
    order of their addresses. *)
Lemma genesis_policy config s policy :
  build_genesis_state config = Ok s -> build_commit_quorum_policy config = Ok policy ->
  from_state_store s (dc_quorum_threshold (nc_devnet config)) =
    Ok (fmap (fun p => p <| cqp_validators := commit_validator_of <$> active_validators s |>) policy) /\
  forall p, policy = Some p -> cqp_validators p ≡ₚ commit_validator_of <$> active_validators s.
Proof.
  intros Hb Hp. destruct (genesis_assembled _ _ Hb) as (chain_id & accounts & rs & _ & _ & Hrs & -> & _).
  assert (forall r, r ∈ rs -> val_status r = ValidatorStatus.Active) as Hact.
  { intros r [i Hi]%list_elem_of_lookup.
    destruct (Forall2_lookup_r _ _ _ _ _ Hrs Hi) as (v & _ & _ & _ & _ & _ & ->). done. }
  unfold build_commit_quorum_policy in Hp. case_bool_decide as Hnil.
  { rewrite Hnil in Hrs. apply Forall2_nil_inv_l in Hrs as ->. by injection Hp as <-. }
  apply bind_Ok in Hp as (cvs & Hc & Hp). pose proof (commit_validators_of _ _ _ Hrs Hc) as ->.
  apply bind_Ok in Hp as (p & Hp & [= <-]).
  assert (CommitQuorumPolicy_new (commit_validator_of <$> rs) (dc_quorum_threshold (nc_devnet config)) = Ok p)
    as Hnew by (unfold map_err in Hp; destruct (CommitQuorumPolicy_new _ _); congruence).
  apply policy_new_Ok in Hnew as (Hnd & Hv & Hperm). rewrite <-list_fmap_compose in Hnd.
  pose proof (active_records rs accounts chain_id Hnd Hact) as Hpa.
  set (s := assembled _ _ _ _ _ _ _ _ _ _) in *. unfold from_state_store.
  destruct (active_validators s) as [|r l] eqn:Hl.
  - apply Permutation_nil_l in Hpa. subst rs. apply Forall2_nil_inv_r in Hrs. done.
  - rewrite (Hperm (commit_validator_of <$> r :: l)) by (by rewrite Hpa). cbn. split; [done|].
    intros p' [= <-]. by rewrite Hv, <-Hpa.
Qed.

(** C8 The genesis state that a configuration describes is sound.  If every configured
    validator has a genesis account, the state satisfies the invariant of the chain, at height
    0 and with the configured chain id; with distinct accounts its supply is the sum of the
    configured balances; and the commit policy derived from it is the configured one: the same
    validators and keys, ordered by address, the same threshold, or none without validators. *)
Theorem genesis_state_sound config s policy :
  build_genesis_state config = Ok s -> build_commit_quorum_policy config = Ok policy ->
  (forall v, v ∈ dc_validators (nc_devnet config) ->
     exists a, a ∈ nc_genesis_accounts config /\ same_address a v) ->
  chain_inv s /\ st_block_height s = 0 /\ hex_value (nc_chain_id_hex config) = Some (st_chain_id s) /\
  (NoDup (hex_value ∘ gac_address_hex <$> nc_genesis_accounts config) ->
     supply s = list_sumN gac_balance (nc_genesis_accounts config)) /\
  from_state_store s (dc_quorum_threshold (nc_devnet config)) =
    Ok (fmap (fun p => p <| cqp_validators := commit_validator_of <$> active_validators s |>) policy) /\
  (forall p, policy = Some p -> cqp_validators p ≡ₚ commit_validator_of <$> active_validators s).
Proof.
  intros Hb Hp Hop. destruct (genesis_policy _ _ _ Hb Hp) as [Hpol Hperm].
  destruct (genesis_assembled _ _ Hb) as (chain_id & accounts & rs & Hid & _ & _ & Has & _).
  split_and!; try done.
  - by eapply genesis_chain_inv.
  - by rewrite Has.
  - by rewrite Has.
  - by apply genesis_supply.
Qed.
End genesis.

(** ** Start *)

Section start.
Context `{Ciborium, Shake, Verifier, RocksDb, !RocksDbLaws} {hex : Hex}.
Context `{!Serde StoredBlockRecord, !Serde TrustedCheckpointRecord}.
Context `{!SerdeLaws StoredBlockRecord, !SerdeLaws TrustedCheckpointRecord}.
Implicit Types (st : RocksDbChainStore) (s : StateStore).

(** The four rounds of [run_upgrade_chain] suffice. *)
Lemma upgrade_returns st : is_Some (apply_upgrade_chain 4 st global_registry).
Proof.
  unfold apply_upgrade_chain. destruct (latest_entry _) as [[k record]|]; [|by eexists].
  destruct (tcr_version record =? STATE_FORMAT_VERSION); [by eexists|].
  destruct (_ <? _); [by eexists|]. destruct (record_into_state _ _) as [s| |]; [|by eexists..].
  destruct (run_migrations_total global_registry (tcr_version record) STATE_FORMAT_VERSION s
    global_registry_progressive) as (r & Hr & _).
  rewrite Hr by (unfold STATE_FORMAT_VERSION; lia). by eexists.
Qed.

(** A database of the current version is left alone. *)
Lemma upgrade_noop st base anchor first l1 l2 any :
  rocks_rep st base anchor first l1 l2 any -> run_upgrade_chain st = Ok st.
Proof.
  intros [Hd _]. pose proof (dr_checkpoints _ _ _ _ _ _ _ _ Hd) as Hck.
  pose proof (dr_max _ _ _ _ _ _ _ _ Hd) as Hmax.
  unfold run_upgrade_chain, apply_upgrade_chain. destruct any.
  - destruct (newest_checkpoint _ (base + len l1) _ ltac:(lia) Hck) as (v & record & rest & -> & Hr & Hver & Hh & _ & Hpos).
    cbn [latest_entry]. rewrite Hr, (proj2 (N.eqb_neq _ 0)) by lia. by rewrite Hver, N.eqb_refl.
  - by rewrite (no_keys _ _ (proj2 Hck)).
Qed.

(** *** A node and its configuration *)

(** [genesis] and [anchor] come from the configuration. *)
Record configures (config : NodeConfig) (genesis : StateStore) (anchor : bytes) : Prop := {
  cf_genesis : build_genesis_state config = Ok genesis;
  cf_anchor : anchor_of config = Ok anchor;
  cf_policy : exists policy, build_commit_quorum_policy config = Ok policy;
  cf_operators : forall v, v ∈ dc_validators (nc_devnet config) ->
    exists a, a ∈ nc_genesis_accounts config /\ same_address a v
}.

Lemma configured_facts config genesis anchor :
  configures config genesis anchor ->
  chain_inv genesis /\ st_block_height genesis = 0 /\ length anchor = 32%nat /\
  decode_hex_bytes (nc_chain_id_hex config) "chain_id_hex" = Ok (st_chain_id genesis).
Proof.
  intros [Hg Ha _ Hop]. split; [by eapply genesis_chain_inv|].
  destruct (genesis_assembled _ _ Hg) as (chain_id & accounts & rs & Hid & _ & _ & -> & _).
  apply decode_hex_array_Ok in Ha as [_ Hl]. unfold len in Hl.
  split_and!; [done|lia|by apply decode_hex_bytes_Ok].
Qed.

(** What [recover_node] does once the database opens to a store of the current version. *)
Lemma recover_node_open config genesis anchor db st :
  configures config genesis anchor ->
  rocks_open_with_chain_id db anchor (st_chain_id genesis) = Ok st -> run_upgrade_chain st = Ok st ->
  recover_node db config =
    (map_err NodeError.Storage (verify_quick_finality_invariants st) ;;
     recovery ← map_err NodeError.Storage (rocks_recover_tip_with_checkpoint st genesis
       (nc_fee_params config) FeeDistributionParams_default []);
     Ok (genesis, st, recovery)).
Proof.
  intros Hc Ho Hup. destruct (configured_facts _ _ _ Hc) as (_ & _ & _ & Hid). destruct Hc as [Hg Ha [p Hp] _].
  unfold recover_node, open_disk_store_from_config. rewrite Hg, Ha, Hp, Hid. cbn [mbind outcome_bind].
  rewrite Ho. cbn [map_err mbind outcome_bind]. rewrite Hup. done.
Qed.

Definition all_signed st : bool :=
  forallb (fun sb => negb (bool_decide (blk_commit_signatures (sb_block sb) = [])))
    (blocks_in_order (rk_chain st)).

Lemma verify_quick_eq st :
  verify_quick_finality_invariants st = if all_signed st then Ok tt else
    Err (StorageError.InvalidPersistedValue
      "ADR-054: post-checkpoint tail contains a block with no commit signatures").
Proof.
  unfold verify_quick_finality_invariants, all_signed. induction (blocks_in_order _) as [|sb l IH]; [done|].
  cbn [foldM forallb]. destruct (negb _); [|done]. exact IH.
Qed.

(** The store that the database of a node opens to. *)
Lemma reopened genesis anchor production active st st' s :
  chain_inv genesis -> st_block_height genesis = 0 -> length anchor = 32%nat -> config_wf production ->
  running genesis anchor production active st s ->
  rocks_open_with_chain_id (rk_db st) anchor (st_chain_id genesis) = Ok st' ->
  all_signed st' = all_signed st /\ run_upgrade_chain st' = Ok st'.
Proof.
  intros Hinv Hg Hlen Hwf Hrun Ho.
  destruct (restart_recovers_state _ _ _ _ _ _ Hinv Hg Hlen Hwf Hrun) as (st1 & _ & _ & Ho1 & Hblk & _).
  rewrite Ho in Ho1. injection Ho1 as <-. split; [unfold all_signed; by rewrite Hblk|].
  pose proof (running_rep _ _ _ _ _ _ Hinv Hg Hlen Hwf Hrun) as Hrep.
  destruct (run_reopen _ _ _ _ _ Hrep) as (st2 & Ho2 & _ & Hrep'). rewrite Ho in Ho2. injection Ho2 as <-.
  destruct Hrep' as [_ _ _ _ _ (first & l1 & l2 & any & s0 & Hr & _)]. by eapply upgrade_noop.
Qed.

(** The two entry points that recover without a static pool. *)
Lemma entry_points_recover config genesis anchor production active st s :
  configures config genesis anchor ->
  cfg_fee_params production = nc_fee_params config ->
  cfg_fee_dist production = FeeDistributionParams_default -> cfg_validator_pool production = [] ->
  running genesis anchor production active st s ->
  exists st', rocks_open_with_chain_id (rk_db st) anchor (st_chain_id genesis) = Ok st' /\
  if all_signed st then exists source checkpoint,
    bootstrap_from_config (rk_db st) config =
      Ok (mkNodeBootstrapReport (st_block_height s) (expected_prev_hash (rk_chain st)) (state_root s)
            source checkpoint (len (accounts_in_order s))) /\
    open_node_state (rk_db st) config = Ok (mkApiNodeState (st_chain_id genesis) source s st')
  else True.
Proof.
  intros Hc Hfp Hfd Hvp Hrun. destruct (configured_facts _ _ _ Hc) as (Hinv & Hg & Hlen & _).
  assert (config_wf production) as Hwf by (intros a Ha; rewrite Hvp in Ha; by apply elem_of_nil in Ha).
  destruct (restart_recovers_state _ _ _ _ _ _ Hinv Hg Hlen Hwf Hrun) as (st' & source & ck & Ho & Hblk & Hh & Hrec).
  exists st'. split; [done|]. destruct (reopened _ _ _ _ _ _ _ Hinv Hg Hlen Hwf Hrun Ho) as [Hsg Hup].
  rewrite Hfp, Hfd, Hvp in Hrec. unfold bootstrap_from_config, open_node_state.
  rewrite (recover_node_open _ _ _ _ _ Hc Ho Hup), verify_quick_eq, Hsg.
  destruct (all_signed st); [|done]. exists source, ck.
  cbn [map_err mbind outcome_bind]. rewrite Hrec. cbn [map_err mbind outcome_bind crr_replay rr_height].
  rewrite Hh, N.eqb_refl. by split_and!.
Qed.

Lemma configured_pool_wf config : config_wf (production_config config).
Proof.
  intros a. cbn. intros (v & _ & Hv)%list_elem_of_omap.
  destruct (decode_hex_array _ _ _) as [b| |] eqn:Hd; simplify_eq.
  apply decode_hex_array_Ok in Hd as [_ Hl]. unfold len in Hl. lia.
Qed.

(** The configuration passes the check of its role. *)
Definition has_validator_set config : Prop :=
  NodeRole.requires_validator_set (dc_role (nc_devnet config)) = true ->
  dc_validators (nc_devnet config) <> [].

Lemma policy_given config policy :
  has_validator_set config -> build_commit_quorum_policy config = Ok policy ->
  NodeRole.requires_validator_set (dc_role (nc_devnet config)) && bool_decide (policy = None) = false.
Proof.
  intros Hset. unfold build_commit_quorum_policy. case_bool_decide as Hnil; intros Hp.
  - destruct (NodeRole.requires_validator_set _) eqn:Hr; [|done]. by destruct (Hset Hr).
  - run_inv. by rewrite andb_comm.
Qed.

Lemma start_recovery_open config genesis anchor db st cold_start :
  configures config genesis anchor -> has_validator_set config ->
  rocks_open_with_chain_id db anchor (st_chain_id genesis) = Ok st -> run_upgrade_chain st = Ok st ->
  start_recovery db config cold_start =
    (_ ← map_err NodeError.Storage (verify_quick_finality_invariants st);
     disk ← (if (chain_height (rk_chain st) =? 0) && negb (has_checkpoint st)
             then cold_start st else Ok st);
     recovery ← map_err NodeError.Storage (rocks_recover_tip_with_checkpoint disk genesis
       (nc_fee_params config) FeeDistributionParams_default (configured_pool config));
     ensure (negb (rr_height (crr_replay recovery) <? chain_height (rk_chain disk)))
       (NodeError.HeightMismatch (rr_height (crr_replay recovery)) (chain_height (rk_chain disk))) ;;
     Ok (disk, recovery)).
Proof.
  intros Hc Hset Ho Hup. destruct (configured_facts _ _ _ Hc) as (_ & _ & _ & Hid). destruct Hc as [Hg Ha [p Hp] _].
  unfold start_recovery, open_disk_store_from_config. rewrite Hg, Hp, Ha, Hid. cbn [mbind outcome_bind].
  rewrite (policy_given _ _ Hset Hp). cbn [negb ensure mbind outcome_bind].
  rewrite Ho. cbn [map_err mbind outcome_bind]. rewrite Hup. done.
Qed.

(** C7 A node continues where it stopped. Take any node started from its configuration on an
    empty database that then produced blocks with the configured parameters and static
    validator pool, wrote checkpoints, pruned and restarted, in any order. If the blocks in
    memory carry commit signatures, starting the devnet node on its database recovers exactly
    its state, tip hash and chain. [bootstrap] and the API node, which recover with an empty
    pool, report and serve the same if no pool is configured or every block left an active
    validator. If a block in memory carries no signature, all three refuse to start. This is
    for configurations whose validators have genesis accounts and form a commit policy, and
    exist where the role needs them; pools of canonically encoded transactions; blocks that do
    not close an epoch, up to the maximum of u64 minus 2; checkpoints above height 0 of states
    the snapshot format can hold; and, at height 0, no snapshot download. *)
Theorem node_restarts_from_config config genesis anchor active st s cold_start :
  configures config genesis anchor -> has_validator_set config ->
  running genesis anchor (production_config config) active st s ->
  (0 < st_block_height s \/ forall disk, cold_start disk = Ok disk) ->
  if all_signed st then exists st',
    blocks_in_order (rk_chain st') = blocks_in_order (rk_chain st) /\
    (exists source checkpoint, start_recovery (rk_db st) config cold_start =
       Ok (st', mkCheckpointRecoveryResult
         (mkReplayResult s (expected_prev_hash (rk_chain st)) (st_block_height s) (state_root s))
         source checkpoint)) /\
    (configured_pool config = [] \/ active = true -> exists source checkpoint,
       bootstrap_from_config (rk_db st) config =
         Ok (mkNodeBootstrapReport (st_block_height s) (expected_prev_hash (rk_chain st)) (state_root s)
               source checkpoint (len (accounts_in_order s))) /\
       open_node_state (rk_db st) config = Ok (mkApiNodeState (st_chain_id genesis) source s st'))
  else exists e,
    start_recovery (rk_db st) config cold_start = Err (NodeError.Storage (StorageError.InvalidPersistedValue e)) /\
    bootstrap_from_config (rk_db st) config = Err (NodeError.Storage (StorageError.InvalidPersistedValue e)) /\
    open_node_state (rk_db st) config = Err (NodeError.Storage (StorageError.InvalidPersistedValue e)).
Proof.
  intros Hc Hset Hrun Hcold. destruct (configured_facts _ _ _ Hc) as (Hinv & Hg & Hlen & _).
  pose proof (configured_pool_wf config) as Hwf.
  destruct (restart_recovers_state _ _ _ _ _ _ Hinv Hg Hlen Hwf Hrun) as (st' & source & ck & Ho & Hblk & Hh & Hrec).
  destruct (reopened _ _ _ _ _ _ _ Hinv Hg Hlen Hwf Hrun Ho) as [Hsg Hup].
  rewrite (start_recovery_open _ _ _ _ _ cold_start Hc Hset Ho Hup), verify_quick_eq, Hsg.
  destruct (all_signed st) eqn:Hall; cbn [map_err mbind outcome_bind].
  - exists st'. split; [done|]. split.
    + exists source, ck. assert ((if (chain_height (rk_chain st') =? 0) && negb (has_checkpoint st')
        then cold_start st' else Ok st') = Ok st') as ->.
      { destruct Hcold as [Hpos|Hcold]; [|by case_match]. by rewrite Hh, (proj2 (N.eqb_neq _ _)) by lia. }
      cbn [mbind outcome_bind]. cbn [production_config cfg_fee_params cfg_fee_dist cfg_validator_pool] in Hrec.
      rewrite Hrec. cbn [map_err mbind outcome_bind crr_replay rr_height]. by rewrite Hh, N.ltb_irrefl.
    + intros Hact. destruct (entry_points_recover config genesis anchor (without_fallback (production_config config))
        active st s Hc) as (st2 & Ho2 & Hentry); try done.
      { destruct Hact as [Hnil| ->]; [|by apply running_without_fallback].
        unfold without_fallback, production_config in *. rewrite Hnil in *. exact Hrun. }
      rewrite Ho in Ho2. injection Ho2 as <-. by rewrite Hall in Hentry.
  - unfold bootstrap_from_config, open_node_state.
    rewrite (recover_node_open _ _ _ _ _ Hc Ho Hup), verify_quick_eq, Hsg. by eexists.
Qed.

(** C38 A checkpoint that the snapshot format cannot hold resets the API node.  When the first
    checkpoint is taken of a state with a proof anchor, a pending key rotation, a peer-id
    binding or archival data, the next start reads back the height of the checkpoint but
    recovers the genesis state at height 0.  [bootstrap] notices the mismatch and refuses to
    start; [open_node_state] does not compare the heights and serves the genesis state above a
    chain of full height.  The only other possibility is a collision of the hash function among
    the inputs of the two state roots. *)
Theorem unrestorable_checkpoint_serves_genesis config genesis anchor st first l2 s st' m :
  configures config genesis anchor ->
  rocks_rep st 0 anchor first [] l2 false ->
  db_get (rk_db st) Cf.Meta META_SNAPSHOT_BASE_HEIGHT = None ->
  db_get (rk_db st) Cf.Meta META_CHAIN_ID = Some (st_chain_id genesis) ->
  store_ok s -> 0 < st_block_height s -> lost_in_checkpoint s ->
  rocks_write_trusted_checkpoint st s = Ok (st', m) ->
  (exists st'', open_node_state (rk_db st') config =
       Ok (mkApiNodeState (st_chain_id genesis) RecoverySource.FullReplay genesis st'') /\
     chain_height (rk_chain st'') = st_block_height s /\
     bootstrap_from_config (rk_db st') config = Err (NodeError.HeightMismatch 0 (st_block_height s))) \/
  collision_in (root_queries (restored s (st_chain_id genesis)) ++ root_queries s).
Proof.
  intros Hc Hrep Hbase Hid Hok Hpos Hlost Hw. destruct (configured_facts _ _ _ Hc) as (_ & Hg & Hlen & _).
  set (production := mkAssemblyConfig 0 (nc_fee_params config) [] FeeDistributionParams_default EpochConfig_devnet).
  destruct (lost_checkpoint_resets_node genesis anchor production st first l2 s st' m anchor Hg Hrep Hbase Hok
    Hpos Hlost Hw) as (st'' & Ho & Hh & [Hrec|?]); [left|by right].
  destruct (checkpoint_rocks _ _ _ _ _ _ _ _ _ _ Hrep Hpos Hw) as [_ Hcr].
  destruct (write_checkpoint_Ok _ _ _ _ Hw) as (b & _ & _ & _ & _ & Hdb).
  set (cst := compact_chain_to_checkpoint st' _ _) in Hcr.
  assert (rocks_open_with_chain_id (rk_db st') anchor (st_chain_id genesis) = Ok st'' /\
    rocks_rep st'' 0 anchor first l2 [] true /\ blocks_in_order (rk_chain st'') = []) as (Hoid & Hr & Hblk).
  { change (rk_db st') with (rk_db cst) in Ho. rewrite (open_rep cst _ _ _ _ _ _ anchor Hcr) in Ho.
    injection Ho as <-.
    pose proof (settle_rocks _ _ _ _ _ _ _ Hcr) as [Hs _]. split_and!; [|exact Hs|].
    - apply (open_rep_id genesis anchor cst _ _ _ _ _ _ Hcr). cbn. rewrite Hdb, decide_False; [done|]. by intros [].
    - destruct Hcr as [_ [Hcc _ _ _]]. exact (rep_blocks_in_order _ _ Hcc). }
  exists st''. unfold bootstrap_from_config, open_node_state.
  rewrite (recover_node_open _ _ _ _ _ Hc Hoid (upgrade_noop _ _ _ _ _ _ _ Hr)), verify_quick_eq.
  unfold all_signed. rewrite Hblk. cbn [forallb map_err mbind outcome_bind].
  cbn in Hrec. rewrite Hrec. cbn [map_err mbind outcome_bind crr_replay crr_source rr_state rr_height].
  rewrite Hh, (proj2 (N.eqb_neq 0 _)) by lia. by split_and!.
Qed.
End start.

(** ** Witnesses *)

#[local] Existing Instance example_shake.
#[local] Existing Instance example_verifier.
#[local] Existing Instance example_hex.
#[local] Existing Instance Ex.cbor.
#[local] Existing Instance example_rocksdb.
#[local] Existing Instance example_rocksdb_laws.

Module ConfigEx.
Import RestartEx(empty, record_of, succeeds, succeeds_Ok).

(** One validator with an account, on the anchor of the examples. *)
Definition key : GenesisKeyConfig :=
  mkGenesisKeyConfig (AlgId.as_u16 AlgId.MlDsa65) (bstr "0x1a") 1 0 GenesisKeyStatus.Active 15.
Definition account : GenesisAccountConfig :=
  mkGenesisAccountConfig (hex_encode Ex.alice) 1000000 0 [key].
Definition validator : ValidatorConfig :=
  mkValidatorConfig (bstr "node-1") (hex_encode Ex.alice) (AlgId.as_u16 AlgId.MlDsa65) (bstr " 2a ")
    None None.
Definition config : NodeConfig :=
  mkNodeConfig (bstr "node-1") (bstr "01") (hex_encode RecoveryEx.anchor) Ex.fee_params
    (DevnetConfig_default <| dc_role := NodeRole.Validator |> <| dc_validators := [validator] |>)
    [account] ApiConfig_default None.

Definition genesis : StateStore := match build_genesis_state config with Ok s => s | _ => StateStore_new end.

Lemma genesis_Ok : build_genesis_state config = Ok genesis.
Proof.
  assert (succeeds (build_genesis_state config) = true) as Hs by (vm_cast_no_check (@eq_refl bool true)).
  unfold genesis. by destruct (build_genesis_state config).
Qed.

Lemma operators : forall v, v ∈ dc_validators (nc_devnet config) ->
  exists a, a ∈ nc_genesis_accounts config /\ same_address a v.
Proof.
  intros v Hv. cbn in Hv. apply list_elem_of_singleton in Hv as ->. exists account.
  split; [by left|reflexivity].
Qed.

Lemma policy_Ok : exists policy, build_commit_quorum_policy config = Ok policy.
Proof. apply succeeds_Ok. vm_cast_no_check (@eq_refl bool true). Qed.

Lemma configured : configures config genesis RecoveryEx.anchor.
Proof. split; [exact genesis_Ok|by vm_compute|exact policy_Ok|exact operators]. Qed.

(** An empty block with one commit signature, and one that commits to a bound peer id. *)
Definition produced := assemble_block genesis Mempool_new (mkAssemblyContext 1 RecoveryEx.anchor 0 Ex.alice)
  (production_config config).
Definition sigs : list CommitSig := [mkCommitSig Ex.alice AlgId.MlDsa65 0 [x01]].
Definition signed : list BlockExecutionResult :=
  match produced with Ok (_, _, exe) => [with_signatures sigs exe] | _ => [] end.
Definition bound : StateStore := (set_validator_peer_id Ex.alice [x01] genesis) <| st_block_height := 1 |>.
Definition bound_block : StoredBlock :=
  let header := mkBlockHeader HEADER_VERSION_V1 1 RecoveryEx.anchor (state_root bound)
                  (compute_tx_root []) 0 Ex.alice empty_extension_root in
  let b := mkBlock header [] [] in
  mkStoredBlock b (mkBlockMetadata (compute_block_hash b) 1 RecoveryEx.anchor (state_root bound)
    (compute_tx_root []) 0 0 0 0 0 0) [].

Definition signed_block : StoredBlock := from_option stored_of bound_block (head signed).

#[export] Instance blocks : Serde StoredBlockRecord :=
  table_serde (record_of signed_block ++ record_of bound_block).
#[export] Instance checkpoints : Serde TrustedCheckpointRecord :=
  table_serde [RestartEx.checkpoint_record bound_block bound].
#[export] Instance blocks_laws : SerdeLaws StoredBlockRecord.
Proof.
  apply table_serde_laws. unfold record_of.
  by destruct (stored_block_into_record signed_block), (stored_block_into_record bound_block).
Qed.
#[export] Instance checkpoints_laws : SerdeLaws TrustedCheckpointRecord.
Proof. by apply table_serde_laws. Qed.

Definition start : outcome StorageError.t RocksDbChainStore :=
  rocks_open_with_chain_id empty RecoveryEx.anchor (st_chain_id genesis).

(** Open and append the block. *)
Definition appends {E} (opened : outcome StorageError.t RocksDbChainStore)
    (run : outcome E (StateStore * Mempool * BlockExecutionResult)) : bool :=
  match opened, run with
  | Ok st0, Ok (s, _, exe) =>
      match rocks_append_block st0 (with_signatures sigs exe) None with
      | Ok (st1, _) => all_signed st1 && (st_block_height s =? 1) && negb (bool_decide (active_validators s = []))
      | _ => false
      end
  | _, _ => false
  end.
Lemma appends_Ok : appends start produced = true.
Proof. vm_cast_no_check (@eq_refl bool true). Qed.

Lemma no_pending : pool_readable Mempool_new.
Proof. intros e He. vm_compute in He. by apply elem_of_nil in He. Qed.

Lemma node_running_of opened run :
  opened = start -> run = produced -> appends opened run = true -> exists st s,
  running genesis RecoveryEx.anchor (production_config config) true st s /\ all_signed st = true /\ st_block_height s = 1.
Proof.
  intros Ho Hp Hl. unfold appends in Hl. destruct opened as [st0| |]; [|discriminate Hl..].
  destruct run as [[[s pool] exe]| |]; [|discriminate Hl..].
  destruct (rocks_append_block st0 (with_signatures sigs exe) None) as [[st1 md]| |] eqn:Ha; [|discriminate Hl..].
  apply andb_true_iff in Hl as [[Hs Hh%N.eqb_eq]%andb_true_iff Hv]. exists st1, s. split; [|split; [exact Hs|exact Hh]].
  change true with (true && true). rewrite <-Hv at 2.
  apply (running_block _ _ _ true st0 genesis Mempool_new
    (mkAssemblyContext 1 RecoveryEx.anchor 0 Ex.alice) s pool exe sigs None st1 md).
  - apply (running_start _ _ _ empty st0); [intros cf k; apply lookup_empty|symmetry; exact Ho].
  - exact Ex.empty_pool_wf.
  - exact no_pending.
  - reflexivity.
  - symmetry. exact Hp.
  - rewrite Hh. lia.
  - exact Ha.
Qed.

(** Open, append the other block and write its checkpoint. *)
Definition lost_life : outcome StorageError.t (RocksDbChainStore * RocksDbChainStore * TrustedCheckpointMetadata) :=
  st0 ← start;
  '(st1, _) ← rocks_append_stored_block st0 bound_block None;
  '(st2, m) ← rocks_write_trusted_checkpoint st1 bound;
  Ok (st1, st2, m).
Definition loses (life : outcome StorageError.t (RocksDbChainStore * RocksDbChainStore * TrustedCheckpointMetadata))
    : bool :=
  match life with
  | Ok (st1, _, _) =>
      bool_decide (db_get (rk_db st1) Cf.Meta META_CHAIN_ID = Some (st_chain_id genesis))
      && bool_decide (db_get (rk_db st1) Cf.Meta META_SNAPSHOT_BASE_HEIGHT = None)
  | _ => false
  end.
Lemma loses_Ok : loses lost_life = true.
Proof. vm_cast_no_check (@eq_refl bool true). Qed.

Lemma lost_node_of life :
  life = lost_life -> loses life = true -> exists st1 st2 m,
  rocks_rep st1 0 RecoveryEx.anchor 0 [] [bound_block] false /\
  db_get (rk_db st1) Cf.Meta META_SNAPSHOT_BASE_HEIGHT = None /\
  db_get (rk_db st1) Cf.Meta META_CHAIN_ID = Some (st_chain_id genesis) /\
  rocks_write_trusted_checkpoint st1 bound = Ok (st2, m).
Proof.
  intros Hlife Hl. destruct life as [[[st1 st2] m]| |]; [|discriminate Hl..]. exists st1, st2, m. cbn [loses] in Hl.
  apply andb_true_iff in Hl as [Hid%bool_decide_eq_true Hbase%bool_decide_eq_true].
  symmetry in Hlife. unfold lost_life in Hlife. apply bind_Ok in Hlife as (st0 & Ho & Hlife).
  apply bind_Ok in Hlife as ([st1' md] & Ha & Hlife). apply bind_Ok in Hlife as ([st2' m'] & Hw & He).
  injection He as -> -> ->. split; [|split; [exact Hbase|split; [exact Hid|exact Hw]]].
  unfold start, rocks_open_with_chain_id in Ho. apply bind_Ok in Ho as (st & Ho & He).
  assert (rocks_rep st0 0 RecoveryEx.anchor 0 [] [] false) as Hrep.
  { refine (enforce_rocks _ _ _ _ _ _ _ _ _ (proj1 (open_empty empty RecoveryEx.anchor _ _ eq_refl Ho)) He).
    intros cf k. apply lookup_empty. }
  refine (append_stored_rocks st0 0 RecoveryEx.anchor 0 [] [] false bound_block None st1 md Hrep _ _ Ha).
  - constructor.
  - reflexivity.
Qed.

Lemma set_height_ok h s : h <= u64_max -> store_ok s -> store_ok (s <| st_block_height := h |>).
Proof. intros Hh []. split; assumption. Qed.

Lemma bound_ok : store_ok bound.
Proof.
  apply set_height_ok; [lia|]. apply set_validator_peer_id_ok; [reflexivity|].
  exact (ci_store _ (genesis_chain_inv _ _ genesis_Ok operators)).
Qed.
Lemma bound_lost : lost_in_checkpoint bound.
Proof. do 2 right. left. apply (bool_decide_unpack _). vm_cast_no_check I. Qed.
End ConfigEx.

Import ConfigEx.

Lemma genesis_state_sound_witness :
  chain_inv genesis /\ supply genesis = 1000000 /\
  exists p, from_state_store genesis None = Ok (Some p) /\ len (cqp_validators p) = 1.
Proof.
  destruct policy_Ok as [policy Hp].
  destruct (genesis_state_sound config genesis policy genesis_Ok Hp operators)
    as (Hinv & _ & _ & Hs & Hpol & Hv).
  split; [exact Hinv|]. split; [apply Hs; apply NoDup_singleton|].
  assert (exists p, policy = Some p /\ len (cqp_validators p) = 1) as (p & -> & Hl).
  { assert (match build_commit_quorum_policy config with
      | Ok (Some p) => len (cqp_validators p) =? 1 | _ => false end = true) as Hc by (vm_compute; reflexivity).
    rewrite Hp in Hc. destruct policy as [p|]; [|discriminate Hc]. exists p. split; [reflexivity|].
    apply N.eqb_eq, Hc. }
  eexists. split; [exact Hpol|]. rewrite <-Hl. cbn. unfold len. by rewrite (Hv p eq_refl).
Defined.

Lemma node_restarts_from_config_witness : exists st s st' source checkpoint,
  st_block_height s = 1 /\ configured_pool config = [Ex.alice] /\
  (exists source checkpoint, start_recovery (rk_db st) config (fun _ => Err NodeError.NoCheckpoint) =
     Ok (st', mkCheckpointRecoveryResult
       (mkReplayResult s (expected_prev_hash (rk_chain st)) 1 (state_root s)) source checkpoint)) /\
  bootstrap_from_config (rk_db st) config =
    Ok (mkNodeBootstrapReport 1 (expected_prev_hash (rk_chain st)) (state_root s) source checkpoint
          (len (accounts_in_order s))) /\
  open_node_state (rk_db st) config = Ok (mkApiNodeState (st_chain_id genesis) source s st').
Proof.
  destruct (node_running_of start produced eq_refl eq_refl appends_Ok) as (st & s & Hrun & Hs & Hh).
  assert (has_validator_set config) as Hset by (intros _; discriminate).
  assert (0 < st_block_height s) as Hpos by (rewrite Hh; reflexivity).
  pose proof (node_restarts_from_config config genesis RecoveryEx.anchor true st s
    (fun _ => Err NodeError.NoCheckpoint) configured Hset Hrun (or_introl Hpos)) as Hr.
  rewrite Hs, Hh in Hr. destruct Hr as (st' & _ & Hst & Hb).
  destruct (Hb (or_intror eq_refl)) as (source & ck & Hboot & Hopen). exists st, s, st', source, ck.
  split; [exact Hh|]. split; [vm_compute; reflexivity|]. split; [exact Hst|]. split; [exact Hboot|exact Hopen].
Defined.

Lemma unrestorable_checkpoint_serves_genesis_witness : exists st,
  (exists st', open_node_state (rk_db st) config =
       Ok (mkApiNodeState (st_chain_id genesis) RecoverySource.FullReplay genesis st') /\
     chain_height (rk_chain st') = 1 /\
     bootstrap_from_config (rk_db st) config = Err (NodeError.HeightMismatch 0 1)) \/
  collision_in (root_queries (restored bound (st_chain_id genesis)) ++ root_queries bound).
Proof.
  destruct (lost_node_of lost_life eq_refl loses_Ok) as (st1 & st2 & m & Hrep & Hbase & Hid & Hw). exists st2.
  exact (unrestorable_checkpoint_serves_genesis config genesis RecoveryEx.anchor st1 0 [bound_block] bound st2 m
    configured Hrep Hbase Hid bound_ok eq_refl bound_lost Hw).
Defined.
