(* ===== verification/Keystore.v ===== *)
(** * The signing keys of a node: [pqcd/src/keystore.rs].

    For each validator address a list of entries, one per key version, in ascending order.
    Entries come from the configuration and from a key file that is read again when its
    modification time changes.  Deriving a public key from a seed belongs to the [ml-dsa]
    crate ([MlDsaKeys]), reading the JSON file to serde ([KeystoreFormat]); what the system
    calls on the file return are arguments. *)

From S2P Require Import Prelude Crypto Text Types Cbor Payloads Tx FeeMarket Leaves Store StoreInv.
From S2P Require Import ApplyAccounts ApplyValidators Governance Archival ApplyTx Mempool Block Chain.
From S2P Require Import Recovery Commit Records Upgrade Storage NodeConfig.

Record KeystoreEntry := mkKeystoreEntry {
  ke_sig_alg_id : AlgId.t;
  ke_commit_seed : bytes;
  ke_key_version : N;
  ke_public_key : bytes;
  ke_archival_sk : option bytes
}.

(** The field [entries]. *)
Abbreviation Keystore := (gmap bytes (list KeystoreEntry)).

(** The table with the time of the file it was last loaded from. *)
Record KeystoreState := mkKeystoreState {
  ks_entries : Keystore;
  ks_last_mtime : option N
}.

Record KeystoreFileEntry := mkKeystoreFileEntry {
  kf_address_hex : bytes;
  kf_sig_alg_id : N;
  kf_commit_seed_hex : bytes;
  kf_key_version : option N;
  kf_archival_sk_hex : option bytes
}.

Class KeystoreFormat := keystore_from_str : bytes -> option (list KeystoreFileEntry).

(** The public key that the [ml-dsa] crate derives from a seed. *)
Class MlDsaKeys := ml_dsa_keygen : AlgId.t -> bytes -> bytes.

Module KeystoreError.
Inductive t : Type :=
  | Config (e : NodeError.t)
  | NotADerivableKey (a : AlgId.t)
  | SeedMismatch (node_id : bytes)
  | ReadFile
  | StatFile
  | ParseFile
  | BadArchivalKey
  | DuplicateEntry (address : bytes) (key_version : N).
End KeystoreError.

Definition DEFAULT_KEY_VERSION : N := 1.
Definition SLH_DSA_SHAKE_256S_SK_LEN : N := 128.

Definition version_le (a b : KeystoreEntry) : Prop := ke_key_version a <= ke_key_version b.
Global Instance version_le_dec : RelDecision version_le.
Proof. intros a b. unfold version_le. apply _. Defined.

(** ** Lookup *)

Definition get_for_pk (ks : Keystore) (address expected_pk : bytes) : option KeystoreEntry :=
  entries ← ks !! address;
  snd <$> list_find (fun e => ke_public_key e = expected_pk) entries.

Definition get_latest (ks : Keystore) (address : bytes) : option KeystoreEntry :=
  ks !! address ≫= last.

Definition keystore_contains (ks : Keystore) (address : bytes) : bool :=
  match ks !! address with Some v => negb (bool_decide (v = [])) | None => false end.

Definition staged_versions_for (ks : Keystore) (address : bytes) : list N :=
  ke_key_version <$> default [] (ks !! address).

Definition keystore_len (ks : Keystore) : N := map_sum len ks.

(** ** Writing *)

Definition push_sorted (bucket : list KeystoreEntry) (entry : KeystoreEntry) : list KeystoreEntry :=
  merge_sort version_le (bucket ++ [entry]).

Definition insert_versioned (ks : Keystore) (address : bytes) (entry : KeystoreEntry)
    : outcome KeystoreError.t Keystore :=
  let bucket := default [] (ks !! address) in
  ensure (negb (existsb (fun e => ke_key_version e =? ke_key_version entry) bucket))
    (KeystoreError.DuplicateEntry address (ke_key_version entry)) ;;
  Ok (<[address := push_sorted bucket entry]> ks).

(** [true] when the entry is new. *)
Definition upsert (ks : Keystore) (address : bytes) (entry : KeystoreEntry) : Keystore * bool :=
  let bucket := default [] (ks !! address) in
  match list_find (fun e => ke_key_version e = ke_key_version entry) bucket with
  | Some (i, _) => (<[address := <[i := entry]> bucket]> ks, false)
  | None => (<[address := push_sorted bucket entry]> ks, true)
  end.

(** The buckets of [other] in some order, each in its own. *)
Definition merge_bucket (ks : Keystore) (b : bytes * list KeystoreEntry) : Keystore :=
  foldl (fun ks entry => (upsert ks b.1 entry).1) ks b.2.
Definition keystore_merge (ks other : Keystore) : Keystore := foldl merge_bucket ks (map_to_list other).

(** ** Loading *)

Section load.
Context `{MlDsaKeys} {hex : Hex}.

Definition ml_dsa_public_key_from_seed (a : AlgId.t) (seed : bytes) : outcome KeystoreError.t bytes :=
  if is_ml_dsa a then Ok (ml_dsa_keygen a seed) else Err (KeystoreError.NotADerivableKey a).

Definition seed_entry (ks : Keystore) (v : ValidatorConfig) : outcome KeystoreError.t Keystore :=
  match vc_commit_seed_hex v with
  | None => Ok ks
  | Some seed_hex =>
      address ← map_err KeystoreError.Config
        (decode_hex_array 32 (vc_address_hex v) "devnet.validators[].address_hex");
      commit_seed ← map_err KeystoreError.Config
        (decode_hex_array 32 seed_hex "devnet.validators[].commit_seed_hex");
      sig_alg_id ← ok_or (AlgId.from_u16 (vc_sig_alg_id v))
        (KeystoreError.Config (NodeError.UnknownAlg (vc_sig_alg_id v)));
      derived_pk ← ml_dsa_public_key_from_seed sig_alg_id commit_seed;
      expected_pk ← map_err KeystoreError.Config
        (decode_hex_bytes (vc_public_key_hex v) "devnet.validators[].public_key_hex");
      ensure (bool_decide (derived_pk = expected_pk)) (KeystoreError.SeedMismatch (vc_node_id v)) ;;
      let archival_sk := h ← vc_archival_sk_hex v; hex_decode (trim_start_0x h) in
      insert_versioned ks address
        (mkKeystoreEntry sig_alg_id commit_seed DEFAULT_KEY_VERSION derived_pk archival_sk)
  end.

Definition from_validators (validators : list ValidatorConfig) (include_seeds : bool)
    : outcome KeystoreError.t KeystoreState :=
  if negb include_seeds then Ok (mkKeystoreState ∅ None)
  else entries ← foldM seed_entry ∅ validators; Ok (mkKeystoreState entries None).

Definition archival_sk_of_file (hex_str : option bytes) : outcome KeystoreError.t (option bytes) :=
  match hex_str with
  | None => Ok None
  | Some hex_str =>
      b ← ok_or (hex_decode (trim_start_0x hex_str)) KeystoreError.BadArchivalKey;
      ensure (len b =? SLH_DSA_SHAKE_256S_SK_LEN) KeystoreError.BadArchivalKey ;;
      Ok (Some b)
  end.

Definition load_entry (ks : Keystore) (entry : KeystoreFileEntry) : outcome KeystoreError.t Keystore :=
  address ← map_err KeystoreError.Config
    (decode_hex_array 32 (kf_address_hex entry) "keystore.address_hex");
  commit_seed ← map_err KeystoreError.Config
    (decode_hex_array 32 (kf_commit_seed_hex entry) "keystore.commit_seed_hex");
  sig_alg_id ← ok_or (AlgId.from_u16 (kf_sig_alg_id entry))
    (KeystoreError.Config (NodeError.UnknownAlg (kf_sig_alg_id entry)));
  public_key ← ml_dsa_public_key_from_seed sig_alg_id commit_seed;
  archival_sk ← archival_sk_of_file (kf_archival_sk_hex entry);
  insert_versioned ks address
    (mkKeystoreEntry sig_alg_id commit_seed (default DEFAULT_KEY_VERSION (kf_key_version entry))
       public_key archival_sk).

(** [contents] is what reading the file gives, [mtime] its time of modification. *)
Definition load_from_file `{KeystoreFormat} (contents : option bytes) (mtime : option N)
    : outcome KeystoreError.t KeystoreState :=
  raw ← ok_or contents KeystoreError.ReadFile;
  parsed ← ok_or (keystore_from_str raw) KeystoreError.ParseFile;
  entries ← foldM load_entry ∅ parsed;
  Ok (mkKeystoreState entries mtime).

(** What [fs::metadata] returns. *)
Inductive Stat : Type := StatNotFound | StatFailed | StatFound (mtime : option N).

Definition reload_if_changed `{KeystoreFormat} (ks : KeystoreState) (stat : Stat)
    (contents : option bytes) (load_mtime : option N)
    : outcome KeystoreError.t (KeystoreState * bool) :=
  match stat with
  | StatNotFound => Ok (mkKeystoreState (ks_entries ks) None, false)
  | StatFailed => Err KeystoreError.StatFile
  | StatFound mtime =>
      if bool_decide (mtime = ks_last_mtime ks) && bool_decide (is_Some (ks_last_mtime ks))
      then Ok (ks, false)
      else
        reloaded ← load_from_file contents load_mtime;
        Ok (mkKeystoreState (keystore_merge (ks_entries ks) (ks_entries reloaded)) mtime, true)
  end.
End load.
