(* ===== verification/KeystoreProps.v ===== *)
(** * The key versions of a keystore.

    Whatever is loaded, each validator has its key versions in ascending order without
    repetition, every cached public key is the one its seed derives, and reading the key
    file again overrides by address and version and keeps the rest. *)

From S2P Require Import Prelude Crypto Text Types Cbor Payloads Tx FeeMarket Leaves Store StoreInv.
From S2P Require Import ApplyAccounts ApplyValidators Governance Archival ApplyTx Mempool Block Chain.
From S2P Require Import Recovery Commit Records Upgrade Storage NodeConfig Keystore.

(** The entry of a bucket with a given version. *)
Definition version_in (b : list KeystoreEntry) (v : N) : option KeystoreEntry :=
  snd <$> list_find (fun e => ke_key_version e = v) b.

Definition entry_at (ks : Keystore) (address : bytes) (v : N) : option KeystoreEntry :=
  ks !! address ≫= fun b => version_in b v.

Definition versions (b : list KeystoreEntry) : list N := ke_key_version <$> b.

Lemma version_in_Some b v e :
  NoDup (versions b) -> version_in b v = Some e <-> e ∈ b /\ ke_key_version e = v.
Proof.
  intros Hnd. unfold version_in. split.
  - intros ([i e'] & (Hi & ? & _)%list_find_Some & ->)%fmap_Some. by apply list_elem_of_lookup_2 in Hi.
  - intros [[i Hi]%list_elem_of_lookup Hv]. apply fmap_Some. exists (i, e). split; [|done].
    apply list_find_Some. split_and!; [done|done|]. intros j e' Hj Hlt Hv'.
    assert (i = j) as ->; [|lia].
    apply (NoDup_lookup _ _ _ (ke_key_version e) Hnd); unfold versions; rewrite list_lookup_fmap; [by rewrite Hi|].
    rewrite Hj. cbn. congruence.
Qed.

Lemma version_in_None b v : version_in b v = None <-> v ∉ versions b.
Proof.
  unfold version_in. rewrite fmap_None, list_find_None, Forall_forall. split.
  - intros Hf (e & -> & He)%list_elem_of_fmap. by eapply Hf.
  - intros Hv e He <-. apply Hv, list_elem_of_fmap. eauto.
Qed.

(** Sorted strictly. *)
Definition ascending (b : list KeystoreEntry) : Prop := StronglySorted N.lt (versions b).

Lemma ascending_NoDup b : ascending b -> NoDup (versions b).
Proof.
  unfold ascending. induction (versions b) as [|v l IH]; intros Hs; [constructor|].
  apply StronglySorted_inv in Hs as [Hs Hv]. constructor; [|by apply IH]. intros Hin.
  rewrite Forall_forall in Hv. specialize (Hv v Hin). lia.
Qed.

Lemma ascending_sorted b : StronglySorted version_le b -> NoDup (versions b) -> ascending b.
Proof.
  unfold ascending. induction b as [|e b IH]; intros Hs Hnd; [constructor|].
  apply StronglySorted_inv in Hs as [Hs He]. apply NoDup_cons in Hnd as [Hn Hnd].
  constructor; [by apply IH|]. rewrite Forall_forall in He. apply Forall_forall. intros v Hv.
  assert (v <> ke_key_version e) by (by intros ->). apply list_elem_of_fmap in Hv as (e' & -> & Hin).
  specialize (He _ Hin). unfold version_le in He. lia.
Qed.

Global Instance version_le_total : Total version_le.
Proof. intros a b. unfold version_le. lia. Qed.
Global Instance version_le_trans : Transitive version_le.
Proof. intros a b c. unfold version_le. lia. Qed.

Lemma push_sorted_ok b e :
  ascending b -> ke_key_version e ∉ versions b ->
  ascending (push_sorted b e) /\ push_sorted b e ≡ₚ e :: b.
Proof.
  intros Hb He. assert (push_sorted b e ≡ₚ e :: b) as Hp.
  { unfold push_sorted. rewrite merge_sort_Permutation. symmetry. apply Permutation_cons_append. }
  split; [|done]. apply ascending_sorted; [apply (StronglySorted_merge_sort _)|].
  unfold versions. rewrite Hp. constructor; [done|by apply ascending_NoDup].
Qed.

(** ** Writing one entry *)

Section keystore.
Context `{MlDsaKeys} {hex : Hex}.
Implicit Types (ks : Keystore) (e : KeystoreEntry) (b : list KeystoreEntry).

Definition derived e : Prop :=
  is_ml_dsa (ke_sig_alg_id e) = true /\
  ke_public_key e = ml_dsa_keygen (ke_sig_alg_id e) (ke_commit_seed e).

Definition bucket_wf b : Prop := b <> [] /\ ascending b /\ Forall derived b.
Definition keystore_wf ks : Prop := map_Forall (fun _ b => bucket_wf b) ks.

Lemma default_bucket ks a : keystore_wf ks -> ascending (default [] (ks !! a)) /\
  Forall derived (default [] (ks !! a)).
Proof.
  intros Hw. destruct (ks !! a) as [b|] eqn:Hb; cbn; [by destruct (Hw a b Hb)|].
  split; constructor.
Qed.

Lemma entry_at_insert ks a b a' v :
  entry_at (<[a := b]> ks) a' v = if decide (a' = a) then version_in b v else entry_at ks a' v.
Proof.
  unfold entry_at. case_decide as Ha; [subst|].
  - by rewrite lookup_insert_eq.
  - by rewrite lookup_insert_ne.
Qed.

Lemma version_in_perm b b' v : NoDup (versions b) -> b ≡ₚ b' -> version_in b v = version_in b' v.
Proof.
  intros Hnd Hp. assert (NoDup (versions b')) as Hnd' by (unfold versions in *; by rewrite <-Hp).
  apply option_eq. intros e. by rewrite !version_in_Some, Hp.
Qed.

Lemma version_in_cons b e v :
  ke_key_version e ∉ versions b -> version_in (e :: b) v =
    if decide (v = ke_key_version e) then Some e else version_in b v.
Proof.
  intros Hn. unfold version_in. cbn. case_decide as H1; case_decide as H2; try congruence; [done|].
  destruct (list_find _ b) as [[]|]; done.
Qed.

Lemma push_version b e v :
  ascending b -> ke_key_version e ∉ versions b ->
  version_in (push_sorted b e) v = if decide (v = ke_key_version e) then Some e else version_in b v.
Proof.
  intros Hb Hn. destruct (push_sorted_ok b e Hb Hn) as [Ha Hp].
  rewrite (version_in_perm _ _ _ (ascending_NoDup _ Ha) Hp). by apply version_in_cons.
Qed.

Lemma push_wf b e :
  ascending b -> Forall derived b -> derived e -> ke_key_version e ∉ versions b ->
  bucket_wf (push_sorted b e).
Proof.
  intros Hb Hd He Hn. destruct (push_sorted_ok b e Hb Hn) as [Ha Hp]. split; [|split; [done|]].
  - intros Hnil. rewrite Hnil in Hp. by apply Permutation_nil_l in Hp.
  - rewrite Hp. by constructor.
Qed.

Lemma versions_update b i e e' :
  b !! i = Some e' -> ke_key_version e' = ke_key_version e -> versions (<[i := e]> b) = versions b.
Proof.
  intros Hi Hv. unfold versions. rewrite list_fmap_insert. apply list_insert_id.
  rewrite list_lookup_fmap, Hi. cbn. congruence.
Qed.

Lemma delete_update b i e : delete i (<[i := e]> b) = delete i b.
Proof. revert i. induction b as [|x b IH]; intros [|i]; cbn; [done..|by f_equal]. Qed.

Lemma update_version b i e e' v :
  NoDup (versions b) -> b !! i = Some e' -> ke_key_version e' = ke_key_version e ->
  version_in (<[i := e]> b) v = if decide (v = ke_key_version e) then Some e else version_in b v.
Proof.
  intros Hnd Hi Hv. pose proof (versions_update b i e e' Hi Hv) as Hvs.
  pose proof (delete_Permutation _ _ _ Hi) as Hp.
  assert (<[i := e]> b ≡ₚ e :: delete i b) as Hp'.
  { rewrite <-(delete_update b i e). apply delete_Permutation, list_lookup_insert_eq.
    by eapply lookup_lt_Some. }
  assert (ke_key_version e ∉ versions (delete i b)) as Hn.
  { rewrite <-Hv. unfold versions in *. rewrite Hp in Hnd. by apply NoDup_cons in Hnd as [? _]. }
  rewrite (version_in_perm _ _ v ltac:(by rewrite Hvs) Hp'), (version_in_perm _ _ v Hnd Hp).
  rewrite !version_in_cons by congruence. rewrite Hv. by case_decide.
Qed.

Lemma upsert_ok ks a e :
  keystore_wf ks -> derived e ->
  keystore_wf (upsert ks a e).1 /\
  forall a' v, entry_at (upsert ks a e).1 a' v =
    if decide (a' = a /\ v = ke_key_version e) then Some e else entry_at ks a' v.
Proof.
  intros Hw He. destruct (default_bucket ks a Hw) as [Hasc Hder]. unfold upsert.
  set (b := default [] (ks !! a)) in *.
  assert (forall v, entry_at ks a v = version_in b v) as Hold.
  { intros v. unfold entry_at, b. by destruct (ks !! a). }
  destruct (list_find _ b) as [[i e']|] eqn:Hf; cbn [fst].
  - apply list_find_Some in Hf as (Hi & Hv & _).
    pose proof (versions_update b i e e' Hi Hv) as Hvs. split.
    + apply map_Forall_insert_2; [|done]. split; [|split].
      * intros Hn%(f_equal length). rewrite length_insert in Hn. by destruct b.
      * unfold ascending. by rewrite Hvs.
      * by apply Forall_insert.
    + intros a' v. rewrite entry_at_insert. case_decide as Ha; [subst a'|by rewrite decide_False by (by intros [])].
      rewrite (update_version b i e e' v (ascending_NoDup _ Hasc) Hi Hv), Hold. repeat case_decide; naive_solver.
  - assert (ke_key_version e ∉ versions b) as Hn.
    { apply version_in_None. unfold version_in. by rewrite Hf. }
    split; [apply map_Forall_insert_2; [by apply push_wf|done]|]. intros a' v. rewrite entry_at_insert.
    case_decide as Ha; [subst a'|by rewrite decide_False by (by intros [])].
    rewrite push_version by done. rewrite Hold. repeat case_decide; naive_solver.
Qed.

Lemma insert_versioned_ok ks a e ks' :
  keystore_wf ks -> derived e -> insert_versioned ks a e = Ok ks' ->
  keystore_wf ks' /\ entry_at ks a (ke_key_version e) = None /\
  forall a' v, entry_at ks' a' v =
    if decide (a' = a /\ v = ke_key_version e) then Some e else entry_at ks a' v.
Proof.
  intros Hw He Hi. unfold insert_versioned in Hi. run_inv.
  assert (list_find (fun e0 => ke_key_version e0 = ke_key_version e) (default [] (ks !! a)) = None) as Hf.
  { apply list_find_None, Forall_forall. intros e0 Hin Hv.
    match goal with H : existsb _ _ = false |- _ => apply not_true_iff_false in H; apply H end.
    apply existsb_exists. exists e0. split; [by apply list_elem_of_In|]. by apply N.eqb_eq. }
  pose proof (upsert_ok ks a e Hw He) as Hu. unfold upsert in Hu. rewrite Hf in Hu. cbn [fst] in Hu.
  destruct Hu as [? ?]. split; [done|]. split; [|done].
  unfold entry_at, version_in. destruct (ks !! a) as [b|]; cbn in *; [by rewrite Hf|done].
Qed.

(** ** Merging *)

(** The first table wins. *)
Definition first_of (x y : option KeystoreEntry) : option KeystoreEntry :=
  match x with Some e => Some e | None => y end.

Lemma merge_bucket_ok ks a b :
  keystore_wf ks -> Forall derived b -> NoDup (versions b) ->
  keystore_wf (merge_bucket ks (a, b)) /\
  forall a' v, entry_at (merge_bucket ks (a, b)) a' v =
    if decide (a' = a) then first_of (version_in b v) (entry_at ks a' v) else entry_at ks a' v.
Proof.
  unfold merge_bucket. cbn [fst snd]. revert ks. induction b as [|e b IH]; intros ks Hw Hd Hnd; cbn [foldl].
  - split; [done|]. intros a' v. by case_decide.
  - apply Forall_cons in Hd as [He Hd]. apply NoDup_cons in Hnd as [Hn Hnd].
    destruct (upsert_ok ks a e Hw He) as [Hw' Hup]. destruct (IH _ Hw' Hd Hnd) as [Hw'' Hm].
    split; [done|]. intros a' v. rewrite Hm, Hup. case_decide as Ha; [subst a'|by rewrite decide_False by (by intros [])].
    rewrite version_in_cons by done. case_decide as Hv; [destruct Hv as [_ ->]|].
    + by rewrite (proj2 (version_in_None b _) Hn), decide_True.
    + rewrite decide_False by naive_solver. done.
Qed.

Lemma merge_list_ok ks l :
  keystore_wf ks -> Forall (fun kb => bucket_wf kb.2) l -> NoDup l.*1 ->
  keystore_wf (foldl merge_bucket ks l) /\
  forall a v, entry_at (foldl merge_bucket ks l) a v =
    first_of (entry_at (list_to_map l) a v) (entry_at ks a v).
Proof.
  revert ks. induction l as [|[k b] l IH]; intros ks Hw Hl Hnd; cbn [foldl].
  - split; [done|]. intros a v. unfold entry_at. cbn [list_to_map foldr]. by rewrite lookup_empty.
  - apply Forall_cons in Hl as [[_ [Hasc Hder]] Hl]. apply NoDup_cons in Hnd as [Hk Hnd]. cbn in Hasc, Hder, Hk.
    destruct (merge_bucket_ok ks k b Hw Hder (ascending_NoDup _ Hasc)) as [Hw' Hb].
    destruct (IH _ Hw' Hl Hnd) as [Hw'' Hm]. split; [done|]. intros a v. rewrite Hm, Hb.
    rewrite list_to_map_cons, entry_at_insert. case_decide as Ha; [subst a|done].
    assert (entry_at (list_to_map l) k v = None) as ->; [|done].
    unfold entry_at. by rewrite (not_elem_of_list_to_map_1 _ _ Hk).
Qed.

Lemma merge_ok ks other :
  keystore_wf ks -> keystore_wf other ->
  keystore_wf (keystore_merge ks other) /\
  forall a v, entry_at (keystore_merge ks other) a v = first_of (entry_at other a v) (entry_at ks a v).
Proof.
  intros Hw Ho. unfold keystore_merge.
  destruct (merge_list_ok ks (map_to_list other) Hw) as [Hw' Hm].
  - apply Forall_forall. intros [k b] Hb%elem_of_map_to_list. by apply (Ho k).
  - apply NoDup_fst_map_to_list.
  - split; [done|]. intros a v. by rewrite Hm, list_to_map_to_list.
Qed.

(** ** Loading *)

Lemma derive_Ok a seed pk :
  ml_dsa_public_key_from_seed a seed = Ok pk -> is_ml_dsa a = true /\ pk = ml_dsa_keygen a seed.
Proof. unfold ml_dsa_public_key_from_seed. destruct (is_ml_dsa a); [by intros [= <-]|done]. Qed.

Lemma seed_entry_wf ks v ks' : keystore_wf ks -> seed_entry ks v = Ok ks' -> keystore_wf ks'.
Proof.
  unfold seed_entry. intros Hw Hs. destruct (vc_commit_seed_hex v); [|by injection Hs as <-]. run_inv.
  match goal with H : ml_dsa_public_key_from_seed _ _ = Ok _ |- _ => apply derive_Ok in H as [? ?] end.
  eapply insert_versioned_ok; [exact Hw| |eassumption]. by split.
Qed.

Lemma load_entry_wf ks f ks' : keystore_wf ks -> load_entry ks f = Ok ks' -> keystore_wf ks'.
Proof.
  unfold load_entry. intros Hw Hs. run_inv.
  match goal with H : ml_dsa_public_key_from_seed _ _ = Ok _ |- _ => apply derive_Ok in H as [? ?] end.
  eapply insert_versioned_ok; [exact Hw| |eassumption]. by split.
Qed.

Context `{KeystoreFormat}.

Lemma load_from_file_wf contents mtime (ks : KeystoreState) :
  load_from_file contents mtime = Ok ks -> keystore_wf (ks_entries ks).
Proof.
  unfold load_from_file. intros Hl. run_inv. cbn.
  match goal with H : foldM _ _ _ = Ok _ |- _ => revert H end.
  apply (foldM_invariant _ keystore_wf); [|apply map_Forall_empty].
  intros ks f ks' _. apply load_entry_wf.
Qed.

(** A keystore after it was built from a configuration and reloaded any number of times. *)
Inductive loaded : KeystoreState -> Prop :=
  | loaded_config validators include_seeds (ks : KeystoreState) :
      from_validators validators include_seeds = Ok ks -> loaded ks
  | loaded_file (ks ks' : KeystoreState) stat contents load_mtime changed :
      loaded ks -> reload_if_changed ks stat contents load_mtime = Ok (ks', changed) -> loaded ks'.

Lemma reload_Ok (ks : KeystoreState) stat contents load_mtime (ks' : KeystoreState) changed :
  keystore_wf (ks_entries ks) -> reload_if_changed ks stat contents load_mtime = Ok (ks', changed) ->
  keystore_wf (ks_entries ks') /\
  if changed then exists file, load_from_file contents load_mtime = Ok file /\
    forall a v, entry_at (ks_entries ks') a v =
      first_of (entry_at (ks_entries file) a v) (entry_at (ks_entries ks) a v)
  else ks_entries ks' = ks_entries ks.
Proof.
  intros Hw Hr. unfold reload_if_changed in Hr. destruct stat; [by simplify_eq|done|].
  destruct (_ && _); [by simplify_eq|]. apply bind_Ok in Hr as (file & Hf & [= <- <-]). cbn [ks_entries].
  destruct (merge_ok _ _ Hw (load_from_file_wf _ _ _ Hf)) as [? ?]. split; [done|by exists file].
Qed.

Lemma loaded_wf (ks : KeystoreState) : loaded ks -> keystore_wf (ks_entries ks).
Proof.
  induction 1 as [validators include ks Hf|ks ks' stat contents lm changed _ IH Hr].
  - unfold from_validators in Hf. destruct include; cbn in Hf; [|by injection Hf as <-; apply map_Forall_empty].
    run_inv. cbn. match goal with H : foldM _ _ _ = Ok _ |- _ => revert H end.
    apply (foldM_invariant _ keystore_wf); [|apply map_Forall_empty]. intros ks v ks' _. apply seed_entry_wf.
  - by eapply reload_Ok.
Qed.

(** C24 The keys a node signs with.  After building the keystore from the configuration and
    reloading the key file any number of times, the staged versions of a validator are in
    ascending order without repetition; the entry selected for an on-chain key exists exactly
    when some version has that key, and its seed derives that key, so that a node never signs
    with another one; the latest entry has the highest version; and a reload that reads the
    file replaces the entries with the same address and version and keeps all others. *)
Theorem keystore_selects_keys (ks : KeystoreState) :
  loaded ks ->
  (forall a, StronglySorted N.lt (staged_versions_for (ks_entries ks) a)) /\
  (forall a pk e, get_for_pk (ks_entries ks) a pk = Some e ->
     ke_public_key e = pk /\ ml_dsa_keygen (ke_sig_alg_id e) (ke_commit_seed e) = pk /\
     is_ml_dsa (ke_sig_alg_id e) = true) /\
  (forall a v e, entry_at (ks_entries ks) a v = Some e ->
     is_Some (get_for_pk (ks_entries ks) a (ke_public_key e))) /\
  (forall a e, get_latest (ks_entries ks) a = Some e ->
     forall v, v ∈ staged_versions_for (ks_entries ks) a -> v <= ke_key_version e) /\
  (forall stat contents load_mtime (ks' : KeystoreState), reload_if_changed ks stat contents load_mtime = Ok (ks', true) ->
     exists file, load_from_file contents load_mtime = Ok file /\
     forall a v, entry_at (ks_entries ks') a v =
       first_of (entry_at (ks_entries file) a v) (entry_at (ks_entries ks) a v)).
Proof.
  intros Hl. pose proof (loaded_wf _ Hl) as Hw. split_and!.
  - intros a. exact (proj1 (default_bucket _ a Hw)).
  - intros a pk e He. unfold get_for_pk in He. destruct (ks_entries ks !! a) as [b|] eqn:Hb; [|done].
    cbn in He. apply fmap_Some in He as ([i e'] & (Hi & Hpk & _)%list_find_Some & ->). cbn in *.
    destruct (Hw a b Hb) as (_ & _ & Hd). rewrite Forall_lookup in Hd. destruct (Hd _ _ Hi) as [? Hk].
    by rewrite <-Hpk, Hk.
  - intros a v e He. unfold entry_at in He. unfold get_for_pk.
    destruct (ks_entries ks !! a) as [b|]; [|done]. cbn in *. unfold version_in in He.
    apply fmap_Some in He as ([i e'] & (Hi & _ & _)%list_find_Some & ->). cbn.
    destruct (list_find _ b) as [p|] eqn:Hf; [by eexists|]. apply list_find_None in Hf.
    rewrite Forall_lookup in Hf. by destruct (Hf _ _ Hi).
  - intros a e He v Hv. unfold get_latest in He. unfold staged_versions_for in Hv.
    destruct (ks_entries ks !! a) as [b|] eqn:Hb; [|done]. cbn in *. destruct (Hw a b Hb) as (_ & Hasc & _).
    apply last_Some in He as [b' ->]. unfold ascending, versions in Hasc. rewrite fmap_app in Hasc, Hv.
    apply elem_of_app in Hv as [Hv|Hv]; [|by apply list_elem_of_singleton in Hv as ->].
    apply StronglySorted_app in Hasc as (Hlt & _ & _). specialize (Hlt v (ke_key_version e) Hv).
    assert (v < ke_key_version e); [|lia]. apply Hlt. by left.
  - intros stat contents lm ks' Hr. exact (proj2 (reload_Ok _ _ _ _ _ _ Hw Hr)).
Qed.
End keystore.

(** ** Witness *)

#[local] Existing Instance example_hex.

Module KeystoreEx.
(** The seed itself as the public key; any file lists one staged version. *)
#[export] Instance keys : MlDsaKeys := fun _ seed => seed.
Definition seed : bytes := replicate 32 x05.
Definition address : bytes := replicate 32 x0a.
#[export] Instance format : KeystoreFormat := fun _ =>
  Some [mkKeystoreFileEntry (hex_encode address) 2 (hex_encode (replicate 32 x06)) (Some 2) None].
Definition validator : ValidatorConfig :=
  mkValidatorConfig (bstr "v") (hex_encode address) 2 (hex_encode seed) (Some (hex_encode seed)) None.

Definition first_key : KeystoreEntry := mkKeystoreEntry AlgId.MlDsa65 seed 1 seed None.
Definition second_key : KeystoreEntry :=
  mkKeystoreEntry AlgId.MlDsa65 (replicate 32 x06) 2 (replicate 32 x06) None.
Definition configured_keys : KeystoreState := mkKeystoreState {[ address := [first_key] ]} None.
Definition reloaded : KeystoreState :=
  mkKeystoreState {[ address := [first_key; second_key] ]} (Some 7).

Lemma reloaded_loaded : loaded reloaded.
Proof.
  apply (loaded_file configured_keys reloaded (StatFound (Some 7)) (Some []) None true).
  - apply (loaded_config [validator] true).
    vm_cast_no_check (@eq_refl (outcome KeystoreError.t _) (Ok configured_keys)).
  - vm_cast_no_check (@eq_refl (outcome KeystoreError.t _) (Ok (reloaded, true))).
Qed.
End KeystoreEx.

Import KeystoreEx.

Lemma keystore_selects_keys_witness :
  staged_versions_for (ks_entries reloaded) address = [1; 2] /\
  is_Some (get_for_pk (ks_entries reloaded) address seed) /\
  (forall e, get_latest (ks_entries reloaded) address = Some e -> 1 <= ke_key_version e).
Proof.
  destruct (keystore_selects_keys reloaded reloaded_loaded) as (_ & _ & Hsel & Hmax & _).
  split; [reflexivity|]. split.
  - apply (Hsel address 1 first_key). reflexivity.
  - intros e He. apply (Hmax address e He). left.
Defined.
