(* ===== verification/BlockTree.v ===== *)
(** * Block reception: [pqc-consensus/src/{block_tree_cache,reception}.rs].

    The bounded cache of blocks whose parent is unknown, and the classifier that
    decides what to do with a received block.  [Instant::now()] is an argument;
    [elapsed()] is the (saturating) difference to it. *)

From S2P Require Import Prelude Crypto Types Cbor Payloads Tx FeeMarket Leaves Store StoreInv.
From S2P Require Import ApplyAccounts ApplyValidators Governance Archival ApplyTx Mempool Block Chain.

(** ** [block_tree_cache.rs] *)

Definition DEFAULT_CAPACITY : N := 1024.

Record Cached := mkCached {
  cd_stored : StoredBlock;
  cd_inserted_at : N
}.

Record BlockTreeCache := mkBlockTreeCache {
  btc_capacity : N;
  btc_ttl : N;
  btc_entries : gmap bytes Cached;
  btc_by_parent : gmap bytes (gset bytes);
  btc_insertion_order : list bytes
}.

Definition BlockTreeCache_new (capacity ttl : N) : BlockTreeCache :=
  mkBlockTreeCache (N.max capacity 1) ttl ∅ ∅ [].

Definition btc_len (c : BlockTreeCache) : N := N.of_nat (size (btc_entries c)).

Definition block_hash_of (sb : StoredBlock) : bytes := md_block_hash (sb_metadata sb).
Definition parent_of (sb : StoredBlock) : bytes := md_prev_hash (sb_metadata sb).

(** [self.by_parent.get_mut(&parent)]: remove the hash, and the set when empty. *)
Definition unlink_child (parent hash : bytes) (m : gmap bytes (gset bytes))
    : gmap bytes (gset bytes) :=
  match m !! parent with
  | Some set =>
      if bool_decide (set ∖ {[ hash ]} = ∅) then delete parent m
      else <[parent := set ∖ {[ hash ]}]> m
  | None => m
  end.

Definition btc_remove (hash : bytes) (c : BlockTreeCache) : BlockTreeCache * option StoredBlock :=
  match btc_entries c !! hash with
  | Some cached =>
      (mkBlockTreeCache (btc_capacity c) (btc_ttl c) (delete hash (btc_entries c))
         (unlink_child (parent_of (cd_stored cached)) hash (btc_by_parent c))
         (btc_insertion_order c), Some (cd_stored cached))
  | None => (c, None)
  end.

(** [while let Some(hash) = self.insertion_order.pop_front()]. *)
Fixpoint evict_loop (order : list bytes) (c : BlockTreeCache) : BlockTreeCache :=
  match order with
  | [] => mkBlockTreeCache (btc_capacity c) (btc_ttl c) (btc_entries c) (btc_by_parent c) []
  | hash :: order =>
      let c := mkBlockTreeCache (btc_capacity c) (btc_ttl c) (btc_entries c) (btc_by_parent c)
                 order in
      if bool_decide (is_Some (btc_entries c !! hash)) then (btc_remove hash c).1
      else evict_loop order c
  end.

Definition evict_oldest (c : BlockTreeCache) : BlockTreeCache := evict_loop (btc_insertion_order c) c.

Definition btc_insert (now : N) (stored : StoredBlock) (c : BlockTreeCache) : BlockTreeCache :=
  let hash := block_hash_of stored in
  let parent := parent_of stored in
  match btc_entries c !! hash with
  | Some cached =>
      mkBlockTreeCache (btc_capacity c) (btc_ttl c)
        (<[hash := mkCached (cd_stored cached) now]> (btc_entries c)) (btc_by_parent c)
        (btc_insertion_order c)
  | None =>
      let c := if btc_capacity c <=? btc_len c then evict_oldest c else c in
      mkBlockTreeCache (btc_capacity c) (btc_ttl c)
        (<[hash := mkCached stored now]> (btc_entries c))
        (<[parent := {[ hash ]} ∪ default ∅ (btc_by_parent c !! parent)]> (btc_by_parent c))
        (btc_insertion_order c ++ [hash])
  end.

Definition fresh (now : N) (c : BlockTreeCache) (cached : Cached) : bool :=
  now - cd_inserted_at cached <=? btc_ttl c.

Definition btc_get (now : N) (hash : bytes) (c : BlockTreeCache) : option StoredBlock :=
  cached ← btc_entries c !! hash;
  if fresh now c cached then Some (cd_stored cached) else None.

Definition children_of (now : N) (parent : bytes) (c : BlockTreeCache) : list StoredBlock :=
  match btc_by_parent c !! parent with
  | None => []
  | Some set =>
      cd_stored <$> filter (fun cached => fresh now c cached)
        (omap (fun h => btc_entries c !! h) (merge_sort bytes_le (elements set)))
  end.

Definition prune_expired (now : N) (c : BlockTreeCache) : BlockTreeCache * N :=
  let victims := (map_to_list (filter (fun kv => ~ fresh now c kv.2) (btc_entries c))).*1 in
  (foldl (fun c h => (btc_remove h c).1) c victims, len victims).

(** ** [reception.rs] *)

Module BlockReceptionClass.
Inductive t : Type :=
  | LinkAtTip
  | Duplicate
  | SiblingAtTip (local : BlockMetadata)
  | OrphanFutureChild
  | BelowFinalized.
End BlockReceptionClass.

Module BlockReceptionError.
Inductive t : Type := HeightInconsistent (meta header : N) | HashInconsistent.
End BlockReceptionError.

Section reception.
Context `{Shake}.

Definition classify_incoming_block (candidate : StoredBlock) (local_height : N)
    (local_tip : option BlockMetadata) (lookup_canonical_at_height : N -> option BlockMetadata)
    : outcome BlockReceptionError.t BlockReceptionClass.t :=
  let m := sb_metadata candidate in
  let h := md_height m in
  ensure (h =? bh_height (blk_header (sb_block candidate)))
    (BlockReceptionError.HeightInconsistent h (bh_height (blk_header (sb_block candidate)))) ;;
  ensure (bool_decide (md_block_hash m = compute_block_hash (sb_block candidate)))
    BlockReceptionError.HashInconsistent ;;
  if match lookup_canonical_at_height h with
     | Some local_at_h => bool_decide (md_block_hash local_at_h = md_block_hash m)
     | None => false
     end then Ok BlockReceptionClass.Duplicate
  else if h <? local_height then Ok BlockReceptionClass.BelowFinalized
  else if h =? local_height then
    match local_tip with
    | Some tip_meta =>
        if bool_decide (md_block_hash tip_meta = md_block_hash m)
        then Ok BlockReceptionClass.OrphanFutureChild
        else Ok (BlockReceptionClass.SiblingAtTip tip_meta)
    | None => Ok BlockReceptionClass.OrphanFutureChild
    end
  else
    next ← add_checked u64_max local_height 1;
    if h =? next then
      match local_tip with
      | None => Ok BlockReceptionClass.LinkAtTip
      | Some tip_meta =>
          if bool_decide (md_prev_hash m = md_block_hash tip_meta)
          then Ok BlockReceptionClass.LinkAtTip
          else Ok BlockReceptionClass.OrphanFutureChild
      end
    else Ok BlockReceptionClass.OrphanFutureChild.
End reception.
