(* ===== verification/BlockTreeProps.v ===== *)
(** * The orphan cache stays consistent and bounded. *)

From S2P Require Import Prelude Crypto Types Cbor Payloads Tx FeeMarket Leaves Store StoreInv.
From S2P Require Import ApplyAccounts ApplyValidators Governance Archival ApplyTx Mempool Block Chain.
From S2P Require Import BlockTree.

(** The two indices describe the same blocks, every block can be found by the
    eviction, and the capacity holds. *)
Record btc_ok (c : BlockTreeCache) : Prop := {
  bo_capacity : 1 <= btc_capacity c;
  bo_len : btc_len c <= btc_capacity c;
  bo_keys : forall h d, btc_entries c !! h = Some d -> block_hash_of (cd_stored d) = h;
  bo_parents : forall p set, btc_by_parent c !! p = Some set -> set <> ∅;
  bo_children : forall p h,
    h ∈ default ∅ (btc_by_parent c !! p) <->
    exists d, btc_entries c !! h = Some d /\ parent_of (cd_stored d) = p;
  bo_order : forall h, is_Some (btc_entries c !! h) -> h ∈ btc_insertion_order c
}.

Lemma btc_new_ok capacity ttl : btc_ok (BlockTreeCache_new capacity ttl).
Proof.
  split; cbn.
  - lia.
  - unfold btc_len. cbn. rewrite map_size_empty. lia.
  - intros h d Hd. by rewrite lookup_empty in Hd.
  - intros p set Hp. by rewrite lookup_empty in Hp.
  - intros p h. rewrite lookup_empty. cbn. split; [set_solver|]. intros (d & Hd & _).
    by rewrite lookup_empty in Hd.
  - intros h [d Hd]. by rewrite lookup_empty in Hd.
Qed.

Lemma unlink_child_lookup parent hash m p h :
  h ∈ default ∅ (unlink_child parent hash m !! p) <->
  h ∈ default ∅ (m !! p) /\ ~ (p = parent /\ h = hash).
Proof.
  unfold unlink_child. destruct (decide (p = parent)) as [->|Hp].
  - destruct (m !! parent) as [set|] eqn:Hm; [|rewrite Hm; cbn; set_solver].
    case_bool_decide as He.
    + rewrite lookup_delete_eq. cbn. split; [set_solver|]. intros [Hh Hn].
      assert (h ∈ set ∖ {[ hash ]}) by set_solver. set_solver.
    + rewrite lookup_insert_eq. cbn. set_solver.
  - assert (forall x : option (gset bytes), (match m !! parent with
      | Some set => if bool_decide (set ∖ {[ hash ]} = ∅) then delete parent m
                    else <[parent := set ∖ {[ hash ]}]> m
      | None => m end) !! p = m !! p) as Hl.
    { intros _. destruct (m !! parent); [|done]. case_bool_decide;
        [by rewrite lookup_delete_ne|by rewrite lookup_insert_ne]. }
    rewrite (Hl None). naive_solver.
Qed.

Lemma unlink_child_nonempty parent hash m :
  (forall p set, m !! p = Some set -> set <> ∅) ->
  forall p set, unlink_child parent hash m !! p = Some set -> set <> ∅.
Proof.
  intros Hm p set. unfold unlink_child. destruct (m !! parent) as [s0|]; [|apply Hm].
  case_bool_decide as He.
  - intros [_ Hl]%lookup_delete_Some. by eapply Hm.
  - intros [[_ <-]|[_ Hl]]%lookup_insert_Some; [done|by eapply Hm].
Qed.

(** Removal keeps everything but the bound on the order. *)
Lemma btc_remove_ok hash c : btc_ok c -> btc_ok (btc_remove hash c).1.
Proof.
  intros Hc. unfold btc_remove. destruct (btc_entries c !! hash) as [d|] eqn:Hd; [|done].
  destruct Hc as [Hcap Hlen Hk Hp Hch Ho]. split; cbn.
  - done.
  - unfold btc_len in *. cbn. rewrite map_size_delete, Hd. cbn. lia.
  - intros h e [_ He]%lookup_delete_Some. by apply Hk.
  - by apply unlink_child_nonempty.
  - intros p h. rewrite unlink_child_lookup, Hch. split.
    + intros [(e & He & Hpe) Hn]. exists e. split; [|done]. apply lookup_delete_Some.
      split; [|done]. intros <-. apply Hn. split; [|done]. rewrite Hd in He. by injection He as ->.
    + intros (e & [Hne He]%lookup_delete_Some & Hpe). split; [by exists e|]. by intros [_ ->].
  - intros h [e [_ He]%lookup_delete_Some]. apply Ho. by exists e.
Qed.

Definition set_order (order : list bytes) (c : BlockTreeCache) : BlockTreeCache :=
  mkBlockTreeCache (btc_capacity c) (btc_ttl c) (btc_entries c) (btc_by_parent c) order.

Lemma set_order_ok order c :
  btc_ok c -> (forall h, is_Some (btc_entries c !! h) -> h ∈ order) -> btc_ok (set_order order c).
Proof. intros [] Ho. by split. Qed.

(** An eviction removes one block, if there is one. *)
Lemma evict_loop_ok order c :
  btc_ok (set_order order c) ->
  let c' := evict_loop order c in
  btc_ok c' /\ btc_capacity c' = btc_capacity c /\ btc_ttl c' = btc_ttl c /\
  btc_entries c' ⊆ btc_entries c /\ (btc_len c' = btc_len c - 1).
Proof.
  revert c. induction order as [|hash order IH]; intros c Hc; cbn [evict_loop].
  - fold (set_order [] c). split_and!; try done. cbn.
    assert (btc_entries c = ∅) as He.
    { apply map_empty. intros h. apply eq_None_not_Some. intros Hh.
      by apply (bo_order _ Hc), elem_of_nil in Hh. }
    unfold btc_len. cbn. rewrite He, map_size_empty. done.
  - fold (set_order order c). case_bool_decide as Hh; cbn [set_order btc_entries] in Hh.
    + assert (btc_ok (btc_remove hash (set_order (hash :: order) c)).1) as Hr
        by by apply btc_remove_ok.
      revert Hr. unfold btc_remove. cbn [set_order btc_entries].
      destruct Hh as [d Hd]. rewrite Hd. cbn. intros Hr. split_and!; try done.
      * apply (set_order_ok order) in Hr; [exact Hr|]. cbn. intros h [e [Hne He]%lookup_delete_Some].
        assert (h ∈ hash :: order) as Hin by (apply (bo_order _ Hc); by exists e).
        apply elem_of_cons in Hin as [->|]; done.
      * apply delete_subseteq.
      * unfold btc_len. cbn. rewrite map_size_delete, Hd. cbn. lia.
    + apply (IH (set_order order c)). apply (set_order_ok order) in Hc; [exact Hc|]. cbn.
      intros h Hs. assert (h ∈ hash :: order) as Hin by by apply (bo_order _ Hc).
      apply elem_of_cons in Hin as [->|]; done.
Qed.

Lemma btc_insert_ok now stored c : btc_ok c -> btc_ok (btc_insert now stored c).
Proof.
  intros Hc. unfold btc_insert. destruct (btc_entries c !! block_hash_of stored) as [d|] eqn:Hd.
  - destruct Hc as [Hcap Hlen Hk Hp Hch Ho]. split; cbn; try done.
    + unfold btc_len in *. cbn. by rewrite map_size_insert_Some by eauto.
    + intros h e [[<- <-]|[_ He]]%lookup_insert_Some; [by apply (Hk _ d)|by apply Hk].
    + intros p h. rewrite Hch. split.
      * intros (e & He & Hpe). destruct (decide (h = block_hash_of stored)) as [->|Hne].
        -- eexists. rewrite lookup_insert_eq. split; [done|]. cbn. congruence.
        -- exists e. by rewrite lookup_insert_ne.
      * intros (e & [[<- <-]|[_ He]]%lookup_insert_Some & Hpe); [exists d|exists e]; done.
    + intros h [e [[<- _]|[_ He]]%lookup_insert_Some]; apply Ho; eauto.
  - cbv zeta. set (c1 := if btc_capacity c <=? btc_len c then evict_oldest c else c).
    assert (btc_ok c1 /\ btc_len c1 < btc_capacity c1 /\ btc_entries c1 !! block_hash_of stored = None)
      as (Hc1 & Hl & Hd1).
    { unfold c1. destruct (N.leb_spec (btc_capacity c) (btc_len c)); [|done].
      destruct (evict_loop_ok (btc_insertion_order c) c) as (Hok & Hcap & _ & Hsub & Hlen).
      { apply set_order_ok; [done|apply Hc]. }
      fold (evict_oldest c) in *. pose proof (bo_capacity _ Hc). pose proof (bo_len _ Hc).
      split_and!; [done|lia|]. by eapply lookup_weaken_None. }
    clearbody c1. destruct Hc1 as [Hcap Hlen Hk Hp Hch Ho]. split; cbn; try done.
    + unfold btc_len in *. cbn. rewrite map_size_insert_None by done. lia.
    + intros h e [[<- <-]|[_ He]]%lookup_insert_Some; [done|by apply Hk].
    + intros p set [[_ <-]|[_ Hs]]%lookup_insert_Some; [set_solver|by eapply Hp].
    + intros p h. destruct (decide (p = parent_of stored)) as [->|Hne].
      * rewrite lookup_insert_eq. cbn. rewrite elem_of_union, elem_of_singleton, Hch. split.
        -- intros [->|(e & He & Hpe)]; [eexists; by rewrite lookup_insert_eq|].
           exists e. rewrite lookup_insert_ne; [done|]. congruence.
        -- intros (e & [[<- _]|[_ He]]%lookup_insert_Some & Hpe); [by left|right; by exists e].
      * rewrite lookup_insert_ne, Hch by done. split.
        -- intros (e & He & Hpe). exists e. rewrite lookup_insert_ne; [done|congruence].
        -- intros (e & [[<- <-]|[_ He]]%lookup_insert_Some & Hpe); [done|by exists e].
    + intros h [e [[<- _]|[_ He]]%lookup_insert_Some]; rewrite elem_of_app; [right; by left|left].
      apply Ho. by exists e.
Qed.

(** ** The operations, in any order *)

Module CacheOp.
Inductive t : Type :=
  | Insert (now : N) (stored : StoredBlock)
  | Remove (hash : bytes)
  | Prune (now : N).
End CacheOp.

Definition cache_run (c : BlockTreeCache) (op : CacheOp.t) : BlockTreeCache :=
  match op with
  | CacheOp.Insert now stored => btc_insert now stored c
  | CacheOp.Remove hash => (btc_remove hash c).1
  | CacheOp.Prune now => (prune_expired now c).1
  end.

Lemma cache_run_ok ops c : btc_ok c -> btc_ok (foldl cache_run c ops).
Proof.
  revert c. induction ops as [|op ops IH]; intros c Hc; [done|]. cbn. apply IH.
  destruct op as [now stored|hash|now]; cbn; [by apply btc_insert_ok|by apply btc_remove_ok|].
  unfold prune_expired. cbn. revert c Hc.
  intros c Hc. set (l := (map_to_list _).*1). clearbody l. revert c Hc.
  induction l as [|h l IHl]; intros c Hc; [done|]. cbn. by apply IHl, btc_remove_ok.
Qed.

Lemma btc_remove_capacity hash c : btc_capacity (btc_remove hash c).1 = btc_capacity c.
Proof. unfold btc_remove. by destruct (btc_entries c !! hash). Qed.

Lemma evict_loop_capacity order c : btc_capacity (evict_loop order c) = btc_capacity c.
Proof.
  revert c. induction order as [|h order IH]; intros c; [done|]. cbn [evict_loop].
  case_bool_decide; [by rewrite btc_remove_capacity|by rewrite IH].
Qed.

Lemma cache_run_capacity ops c : btc_capacity (foldl cache_run c ops) = btc_capacity c.
Proof.
  revert c. induction ops as [|op ops IH]; intros c; [done|]. cbn. rewrite IH. clear IH.
  destruct op as [now stored|hash|now]; cbn; [|apply btc_remove_capacity|].
  - unfold btc_insert. destruct (btc_entries c !! _); [done|]. cbn.
    destruct (_ <=? _); [apply evict_loop_capacity|done].
  - set (l := (map_to_list _).*1). clearbody l. revert c.
    induction l as [|h l IHl]; intros c; [done|]. cbn. by rewrite IHl, btc_remove_capacity.
Qed.

(** The orphan cache: after any sequence of insertions, removals and prunings, it
    holds at most its capacity, a block is found by its own hash only, and the children
    listed for a parent are exactly the unexpired cached blocks that name that parent. *)
Lemma block_tree_cache_consistent capacity ttl ops now parent sb :
  let c := foldl cache_run (BlockTreeCache_new capacity ttl) ops in
  btc_len c <= N.max capacity 1 /\
  (forall h, btc_get now h c = Some sb -> block_hash_of sb = h) /\
  (sb ∈ children_of now parent c <->
   btc_get now (block_hash_of sb) c = Some sb /\ parent_of sb = parent).
Proof.
  intros c. assert (btc_ok c) as Hc by apply cache_run_ok, btc_new_ok.
  assert (btc_capacity c = N.max capacity 1) as Hcap by apply cache_run_capacity.
  split_and!.
  - rewrite <-Hcap. apply Hc.
  - intros h. unfold btc_get. destruct (btc_entries c !! h) as [d|] eqn:Hd; [|done]. cbn.
    destruct (fresh now c d); [|done]. intros [= <-]. by apply (bo_keys _ Hc).
  - unfold children_of, btc_get. pose proof (bo_children _ Hc parent (block_hash_of sb)) as Hch.
    split.
    + destruct (btc_by_parent c !! parent) as [set|] eqn:Hp; [|by intros ?%elem_of_nil].
      intros (d & -> & [Hf Hd]%list_elem_of_filter)%list_elem_of_fmap.
      apply list_elem_of_omap in Hd as (h & Hh & Hd). rewrite merge_sort_Permutation in Hh.
      apply elem_of_elements in Hh. pose proof (bo_keys _ Hc _ _ Hd) as <-.
      rewrite Hd. cbn. apply Is_true_true in Hf. rewrite Hf. split; [done|].
      apply Hch in Hh as (e & He & <-). congruence.
    + intros [Hg Hpar]. destruct (btc_entries c !! block_hash_of sb) as [d|] eqn:Hd; [|done].
      cbn in Hg. destruct (fresh now c d) eqn:Hf; [|done]. injection Hg as Hsb.
      assert (block_hash_of sb ∈ default ∅ (btc_by_parent c !! parent)) as Hin.
      { apply Hch. exists d. by rewrite Hsb. }
      destruct (btc_by_parent c !! parent) as [set|]; [|by apply elem_of_empty in Hin].
      apply list_elem_of_fmap. exists d. split; [done|]. apply list_elem_of_filter.
      split; [by apply Is_true_true|]. apply list_elem_of_omap. exists (block_hash_of sb).
      split; [|done]. rewrite merge_sort_Permutation. by apply elem_of_elements.
Qed.
