(* ===== verification/Proposer.v ===== *)
(** * The local proposer and the epoch summary:
      [pqc-consensus/src/{proposer,archival}.rs].

    A proposal is built on copies of the state and the pool and committed in a
    second step, which rejects a proposal built on an old height or tip.  The
    archival summary of a closed epoch hashes the epoch's block hashes. *)

From S2P Require Import Prelude Crypto Types Cbor Payloads Tx FeeMarket Leaves Store StoreInv.
From S2P Require Import ApplyAccounts ApplyValidators Governance Archival ApplyTx Mempool Block Chain.

(** ** [proposer.rs] *)

Record LocalProposer := mkLocalProposer {
  lp_proposer : bytes;
  lp_assembly : AssemblyConfig;
  lp_tip_hash : bytes;
  lp_committed_blocks : list Block
}.

Record ProposedBlock := mkProposedBlock {
  pb_execution : BlockExecutionResult;
  pb_block_hash : bytes;
  pb_next_state : StateStore;
  pb_next_pool : Mempool
}.

Module ProposerError.
Inductive t : Type :=
  | Assemble (e : AssembleError.t)
  | StaleProposalHeight (expected got : N)
  | StaleProposalPrevHash.
End ProposerError.

Definition LocalProposer_new (proposer : bytes) (assembly : AssemblyConfig)
    (initial_prev_hash : bytes) : LocalProposer :=
  mkLocalProposer proposer assembly initial_prev_hash [].

Definition set_proposer (address : bytes) (p : LocalProposer) : LocalProposer :=
  mkLocalProposer address (lp_assembly p) (lp_tip_hash p) (lp_committed_blocks p).
Definition advance_tip (new_tip : bytes) (p : LocalProposer) : LocalProposer :=
  mkLocalProposer (lp_proposer p) (lp_assembly p) new_tip (lp_committed_blocks p).

Section proposer.
Context `{Ciborium, Shake, Verifier}.

Definition build_next_block (p : LocalProposer) (store : StateStore) (pool : Mempool)
    (timestamp : N) : outcome ProposerError.t ProposedBlock :=
  '(next_state, next_pool, execution) ← map_err ProposerError.Assemble
    (assemble_block store pool
       (mkAssemblyContext (sat_add u64_max (st_block_height store) 1) (lp_tip_hash p) timestamp
          (lp_proposer p)) (lp_assembly p));
  Ok (mkProposedBlock execution (compute_block_hash (exe_block execution)) next_state next_pool).

(** The new proposer and state; the pool stays the caller's. *)
Definition commit_block_preserve_pool (p : LocalProposer) (store : StateStore)
    (proposal : ProposedBlock)
    : outcome ProposerError.t (LocalProposer * StateStore * BlockExecutionResult) :=
  let b := exe_block (pb_execution proposal) in
  let expected_height := sat_add u64_max (st_block_height store) 1 in
  ensure (bh_height (blk_header b) =? expected_height)
    (ProposerError.StaleProposalHeight expected_height (bh_height (blk_header b))) ;;
  ensure (bool_decide (bh_prev_hash (blk_header b) = lp_tip_hash p))
    ProposerError.StaleProposalPrevHash ;;
  Ok (mkLocalProposer (lp_proposer p) (lp_assembly p) (pb_block_hash proposal)
        (lp_committed_blocks p ++ [b]), pb_next_state proposal, pb_execution proposal).

Definition commit_block (p : LocalProposer) (store : StateStore) (proposal : ProposedBlock)
    : outcome ProposerError.t (LocalProposer * StateStore * Mempool * BlockExecutionResult) :=
  '(p, store, execution) ← commit_block_preserve_pool p store proposal;
  Ok (p, store, pb_next_pool proposal, execution).

Definition run_once (p : LocalProposer) (store : StateStore) (pool : Mempool) (timestamp : N)
    : outcome ProposerError.t (LocalProposer * StateStore * Mempool * BlockExecutionResult) :=
  proposal ← build_next_block p store pool timestamp;
  commit_block p store proposal.
End proposer.

(** ** [archival.rs] *)

Definition ARCHIVAL_EPOCH_ROOT_DOMAIN : bytes := bstr "VIPER-ARCHIVAL-V1".

Definition epoch_for_height (height epoch_duration : N) : N := height / epoch_duration.

Record ArchivalEpochSummary := mkArchivalEpochSummary {
  aes_epoch_number : N;
  aes_first_height : N;
  aes_last_height : N;
  aes_epoch_root : bytes
}.

Section archival.
Context `{Shake}.

Definition compute_archival_epoch_root (epoch_number : N) (block_hashes : list bytes) : bytes :=
  hash_chunks ARCHIVAL_EPOCH_ROOT_DOMAIN (be_bytes 8 epoch_number :: block_hashes).

(** [first_height..=last_height] *)
Definition heights_between (first last : N) : list N :=
  (fun i => first + N.of_nat i) <$> seq 0 (N.to_nat (last + 1 - first)).

Definition summarize_closed_epoch (chain : ChainStore) (boundary_height epoch_duration : N)
    : option ArchivalEpochSummary :=
  if negb (is_epoch_boundary boundary_height epoch_duration) then None
  else
    let current_epoch := epoch_for_height boundary_height epoch_duration in
    if current_epoch =? 0 then None
    else
      let closed_epoch := current_epoch - 1 in
      let first_height := sat_mul u64_max closed_epoch epoch_duration in
      let last_height := sat_add u64_max first_height epoch_duration - 1 in
      hashes ← mapM (fun h => md_block_hash <$> get_metadata_by_height chain h)
                 (heights_between first_height last_height);
      Some (mkArchivalEpochSummary closed_epoch first_height last_height
              (compute_archival_epoch_root closed_epoch hashes)).
End archival.
