(* ===== verification/ProposerProps.v ===== *)
(** * Epoch summaries and the in-memory window of the chain.

    What [summarize_closed_epoch] returns on a chain store, compacted or not. *)

From S2P Require Import Prelude Crypto Types Cbor Payloads Tx FeeMarket Leaves Store StoreInv.
From S2P Require Import ApplyAccounts ApplyValidators Governance Archival ApplyTx Mempool Block.
From S2P Require Import BlockInv Chain ChainInv Recovery Examples RecoveryProps Proposer.

Section epoch_summary.
Context `{Shake}.

Lemma rep_metadata c l h :
  chain_rep c l -> ch_base_height c < h ->
  get_metadata_by_height c h = sb_metadata <$> l !! N.to_nat (h - ch_base_height c - 1).
Proof.
  intros Hc Hh. unfold get_metadata_by_height, get_stored_block_by_height.
  rewrite (cr_by_height _ _ Hc), decide_True by done.
  destruct (l !! _) as [sb|] eqn:Hl; [|done]. cbn.
  assert (ch_by_hash c !! sb_hash sb = Some sb) as ->; [|done].
  apply (cr_by_hash _ _ Hc). split; [by eapply list_elem_of_lookup_2|done].
Qed.

Lemma rep_metadata_evicted c l h :
  chain_rep c l -> h <= ch_base_height c -> get_metadata_by_height c h = None.
Proof.
  intros Hc Hh. unfold get_metadata_by_height, get_stored_block_by_height.
  by rewrite (cr_by_height _ _ Hc), decide_False by lia.
Qed.

(** Reading a window of a list by position. *)
Lemma mapM_window {A B} (f : A -> B) (g : nat -> option B) l k d :
  (forall i, (i < d)%nat -> g i = f <$> l !! (k + i)%nat) -> (k + d <= length l)%nat ->
  mapM g (seq 0 d) = Some (f <$> take d (drop k l)).
Proof.
  intros Hg Hlen. apply mapM_Some. apply Forall2_same_length_lookup. split.
  { rewrite length_seq, length_fmap, length_take, length_drop. lia. }
  intros i x y [-> Hi]%lookup_seq Hy. cbn in *.
  rewrite list_lookup_fmap, lookup_take_lt, lookup_drop in Hy by lia. by rewrite Hg.
Qed.

Lemma mapM_fmap_l {A B C} (h : A -> B) (g : B -> option C) (l : list A) :
  mapM g (h <$> l) = mapM (fun x => g (h x)) l.
Proof. induction l as [|x l IH]; [done|]. cbn. by rewrite IH. Qed.

(** The summary of a closed epoch covers exactly its blocks, but only while they are
    all in memory: on a chain that has reached the boundary that closes epoch [e], the
    result is the root over the hashes of the [d] blocks from height [e * d] on when
    the chain was last compacted below that height, and nothing otherwise.  So the
    record of every epoch with a checkpoint inside (one is taken each 1000 blocks, and
    evicts what is below) is never produced, and not only that of the first epoch. *)
Lemma epoch_summary_needs_uncompacted_chain c l e d :
  chain_rep c l -> 0 < d -> (e + 1) * d <= chain_height c ->
  summarize_closed_epoch c ((e + 1) * d) d =
    if ch_base_height c <? e * d then
      Some (mkArchivalEpochSummary e (e * d) ((e + 1) * d - 1)
        (compute_archival_epoch_root e
           (sb_hash <$> take (N.to_nat d) (drop (N.to_nat (e * d - ch_base_height c - 1)) l))))
    else None.
Proof.
  intros Hc Hd Hh. pose proof (rep_height _ _ Hc) as Hlen. pose proof (cr_max _ _ Hc) as Hmax.
  unfold summarize_closed_epoch.
  assert (is_epoch_boundary ((e + 1) * d) d = true) as ->.
  { unfold is_epoch_boundary. rewrite N.Div0.mod_mul, (proj2 (N.ltb_lt _ _)) by nia. done. }
  unfold epoch_for_height. rewrite N.div_mul by lia. cbn [negb].
  rewrite (proj2 (N.eqb_neq _ _)) by lia. replace (e + 1 - 1) with e by lia.
  assert (sat_mul u64_max e d = e * d) as -> by (unfold sat_mul; nia).
  assert (sat_add u64_max (e * d) d - 1 = (e + 1) * d - 1) as -> by (unfold sat_add; nia).
  unfold heights_between.
  replace (N.to_nat ((e + 1) * d - 1 + 1 - e * d)) with (N.to_nat d) by nia.
  rewrite mapM_fmap_l.
  destruct (N.ltb_spec (ch_base_height c) (e * d)) as [Hb|Hb].
  - rewrite (mapM_window sb_hash _ l (N.to_nat (e * d - ch_base_height c - 1)));
      [done| |unfold len in *; nia].
    intros i Hi. rewrite (rep_metadata _ _ _ Hc) by lia. rewrite <-option_fmap_compose.
    replace (N.to_nat (e * d + N.of_nat i - ch_base_height c - 1))
      with (N.to_nat (e * d - ch_base_height c - 1) + i)%nat by lia. done.
  - destruct (N.to_nat d) as [|k] eqn:Hk; [lia|]. cbn [seq mapM].
    rewrite (rep_metadata_evicted _ _ _ Hc) by lia. done.
Qed.
End epoch_summary.

(** ** Example: the first block of a chain, epochs of one block *)

#[local] Existing Instance example_shake.

Lemma epoch_summary_needs_uncompacted_chain_witness : exists c sb,
  chain_rep c [sb] /\ summarize_closed_epoch c ((0 + 1) * 1) 1 =
    if ch_base_height c <? 0 * 1 then
      Some (mkArchivalEpochSummary 0 (0 * 1) ((0 + 1) * 1 - 1)
        (compute_archival_epoch_root 0
           (sb_hash <$> take (N.to_nat 1) (drop (N.to_nat (0 * 1 - ch_base_height c - 1)) [sb]))))
    else None.
Proof.
  destruct RecoveryEx.first_chain as (c & sb & Hc & Hh). exists c, sb. split; [done|].
  apply (epoch_summary_needs_uncompacted_chain c [sb] 0 1 Hc); [done|]. by rewrite Hh.
Defined.
