(* ===== verification/Node.v ===== *)
(** * The live node: [pqcd/src/devnet.rs], [pqcd/src/devnet/dispatch.rs],
      [pqcd/src/devnet/consensus_loops.rs], [pqcd/src/devnet/keystore_lifecycle.rs] and
      [RocksDbChainStore] of [pqc-consensus/src/storage_rocksdb.rs].

    The part of [LiveNodeState] that blocks and votes change, and the handlers that
    change it under the node's lock.  A handler that reports an error after it has
    changed the state returns both.  RocksDB is the two column families it is used
    as, a write to it succeeds; log output, counters and the network are left out.
    Signing is the parameter [Signer]. *)

From S2P Require Import Prelude Crypto Types Cbor Payloads Tx FeeMarket Leaves Store StoreInv.
From S2P Require Import ApplyAccounts ApplyValidators Governance Archival ApplyTx Mempool Block Chain.
From S2P Require Import Recovery Round Commit Records Upgrade Storage NodeConfig Keystore BlockTree.
From S2P Require Import Proposer.

(** ** Signing: [keystore_lifecycle.rs], [sign.rs] *)

(** [sign a seed msg]: the ML-DSA signature of the [ml-dsa] crate. *)
Class Signer := sign : AlgId.t -> bytes -> bytes -> bytes.

Record LocalCommitSigner := mkLocalCommitSigner {
  lcs_validator_address : bytes;
  lcs_sig_alg_id : AlgId.t;
  lcs_commit_seed : bytes
}.

Definition snapshot_block_signers (ks : Keystore) (active : list ValidatorRecord)
    : list LocalCommitSigner :=
  omap (fun record =>
    entry ← get_for_pk ks (val_operator record) (val_consensus_pk record);
    Some (mkLocalCommitSigner (val_operator record) (ke_sig_alg_id entry) (ke_commit_seed entry)))
    active.

Section signing.
Context `{Shake, Signer}.

Definition ml_dsa_sign_with_seed (a : AlgId.t) (seed preimage : bytes) : option bytes :=
  if is_ml_dsa a then Some (sign a seed preimage) else None.

(** Always for round 0. *)
Definition build_signed_precommit (sig_alg_id : AlgId.t) (commit_seed validator_address : bytes)
    (height : N) (block_hash : bytes) : option SignedVote :=
  signature ← ml_dsa_sign_with_seed sig_alg_id commit_seed
    (vote_preimage viper_research_1 height 0 VoteStep.Precommit block_hash);
  Some (mkSignedVote MSG_TYPE_PRECOMMIT height 0 block_hash validator_address signature).

(** Phase 2 of the loops: the commit signatures of a block this node proposes. *)
Definition sign_commit (mode : CommitPreimageMode.t) (height : N) (block_hash : bytes)
    (signer : LocalCommitSigner) : option CommitSig :=
  signature ← ml_dsa_sign_with_seed (lcs_sig_alg_id signer) (lcs_commit_seed signer)
    (commit_preimage_for_mode viper_research_1 mode height block_hash);
  Some (mkCommitSig (lcs_validator_address signer) (lcs_sig_alg_id signer)
          (match mode with CommitPreimageMode.Legacy => 0
                         | CommitPreimageMode.Distributed round => round end) signature).

Definition sign_block (mode : CommitPreimageMode.t) (height : N) (block_hash : bytes)
    (signers : list LocalCommitSigner) : option (list CommitSig) :=
  mapM (sign_commit mode height block_hash) signers.
End signing.

(** ** The disk: [storage_rocksdb.rs] *)

Record Disk := mkDisk {
  dk_chain : ChainStore;
  dk_blocks : gmap N StoredBlock;
  dk_siblings : gmap bytes StoredBlock
}.

Section disk.
Context `{Ciborium, Shake, Verifier}.

(** [persist_to_db]: the block under its height. *)
Definition disk_append_stored_block (d : Disk) (stored : StoredBlock)
    (policy : option CommitQuorumPolicy) : outcome StorageError.t Disk :=
  check_commit (sb_block stored) policy ;;
  '(trial, _) ← map_err StorageError.Chain (append_stored_block (dk_chain d) stored);
  Ok (mkDisk trial (<[md_height (sb_metadata stored) := stored]> (dk_blocks d)) (dk_siblings d)).

Definition append_block_trusted (d : Disk) (execution : BlockExecutionResult)
    : outcome StorageError.t Disk :=
  '(trial, _) ← map_err StorageError.Chain (append_block (dk_chain d) execution);
  let stored := stored_of execution in
  Ok (mkDisk trial (<[md_height (sb_metadata stored) := stored]> (dk_blocks d)) (dk_siblings d)).

(** [persist_replace_canonical]: the displaced block is archived. *)
Definition replace_canonical_at_height (d : Disk) (canonical : StoredBlock)
    (policy : option CommitQuorumPolicy) : outcome StorageError.t (Disk * StoredBlock) :=
  check_commit (sb_block canonical) policy ;;
  '(trial, displaced) ← map_err StorageError.Chain (replace_tip_block (dk_chain d) canonical);
  Ok (mkDisk trial (<[md_height (sb_metadata canonical) := canonical]> (dk_blocks d))
        (<[md_block_hash (sb_metadata displaced) := displaced]> (dk_siblings d)), displaced).

Definition read_stored_block_at_height (d : Disk) (height : N) : option StoredBlock :=
  match get_stored_block_by_height (dk_chain d) height with
  | Some stored => Some stored
  | None => dk_blocks d !! height
  end.

(** The height and tip hash of the checkpoint, when the state is that of the tip. *)
Definition write_trusted_checkpoint (d : Disk) (s : StateStore)
    : outcome StorageError.t (N * bytes) :=
  metadata ← checkpoint_metadata (dk_chain d) s;
  Ok (tcm_height metadata, tcm_tip_hash metadata).
End disk.

(** ** The node *)

Definition CHECKPOINT_INTERVAL : N := 1000.

Record SenderBudget := mkSenderBudget {
  sbu_max_txs_per_window : N;
  sbu_window : N;
  sbu_admitted : gmap Address (N * N)
}.

Record LiveNode := mkLiveNode {
  nd_fee_params : FeeParams;
  nd_validator_pool : list Address;
  nd_distributed_signing : bool;
  nd_state : StateStore;
  nd_mempool : Mempool;
  nd_disk : Disk;
  nd_proposer : option LocalProposer;
  nd_keystore : Keystore;
  nd_pending_precommits : gmap (N * bytes) (gmap bytes SignedVote);
  nd_own_precommits_emitted : gset (N * bytes * bytes);
  nd_orphan_cache : BlockTreeCache;
  nd_sender_budget : SenderBudget
}.

Global Instance eta_LiveNode : Settable LiveNode := fun x =>
  mkLiveNode (nd_fee_params x) (nd_validator_pool x) (nd_distributed_signing x) (nd_state x)
    (nd_mempool x) (nd_disk x) (nd_proposer x) (nd_keystore x) (nd_pending_precommits x)
    (nd_own_precommits_emitted x) (nd_orphan_cache x) (nd_sender_budget x).

Module ImportOutcome.
Inductive t : Type := Imported | Duplicate | OrphanedNeedsParent (parent_hash : bytes).
End ImportOutcome.

Module ImportError.
Inductive t : Type :=
  | Classifier (e : BlockReceptionError.t)
  | BelowFinalized (height local_height : N)
  | Replay (e : ReplayError.t)
  | Storage (e : StorageError.t)
  | EquivocationNoBody (height : N)
  | EquivocationDetected (height submitted : N).
End ImportError.

Definition disk_height (n : LiveNode) : N := chain_height (dk_chain (nd_disk n)).

Section import.
Context `{Ciborium, Shake, Verifier}.

(** [from_state_store(..).expect(..)], in the node's preimage mode. *)
Definition node_policy {E} (n : LiveNode) : outcome E (option CommitQuorumPolicy) :=
  match from_state_store (nd_state n) None with
  | Ok p => Ok (if nd_distributed_signing n then with_distributed_preimage 0 <$> p else p)
  | _ => Panic
  end.

Definition checkpoint_if_due (height : N) (n : LiveNode) : LiveNode :=
  if height mod CHECKPOINT_INTERVAL =? 0 then
    match write_trusted_checkpoint (nd_disk n) (nd_state n) with
    | Ok (h, tip_hash) =>
        n <| nd_disk := mkDisk (compact_to_checkpoint h tip_hash (dk_chain (nd_disk n)))
               (dk_blocks (nd_disk n)) (dk_siblings (nd_disk n)) |>
    | _ => n
    end
  else n.

Definition append_canonical_link_at_tip (n : LiveNode) (stored : StoredBlock)
    : outcome ImportError.t LiveNode :=
  replay ← map_err ImportError.Replay
    (replay_blocks_from_state (nd_state n) (expected_prev_hash (dk_chain (nd_disk n))) [stored]
       (nd_fee_params n) FeeDistributionParams_default (nd_validator_pool n));
  policy ← node_policy n;
  disk ← map_err ImportError.Storage (disk_append_stored_block (nd_disk n) stored policy);
  let n := n <| nd_disk := disk |> in
  let n := n <| nd_state := rr_state replay |> in
  let n := n <| nd_proposer ::= fmap (advance_tip (block_hash_of stored)) |> in
  Ok (checkpoint_if_due (md_height (sb_metadata stored)) n).

(** The evidence of one validator that signed both blocks in one round. *)
Definition sibling_evidence (height : N) (hash_a hash_b : bytes) (sig_a sig_b : CommitSig)
    : EquivocationEvidence :=
  mkEquivocationEvidence (cs_validator_address sig_b) height
    (mkEquivocationVote height (cs_round sig_a) hash_a 2 (cs_signature sig_a))
    (mkEquivocationVote height (cs_round sig_b) hash_b 2 (cs_signature sig_b)).

(** [collect] into a map keeps the last of equal keys. *)
Definition local_index (b : Block) : gmap (bytes * N) CommitSig :=
  list_to_map ((fun sig => ((cs_validator_address sig, cs_round sig), sig))
    <$> reverse (blk_commit_signatures b)).

Definition submit_one_evidence (height : N) (local candidate : StoredBlock)
    (current_height : N) (acc : StateStore * N) (sig_b : CommitSig) : StateStore * N :=
  let '(s, submitted) := acc in
  match local_index (sb_block local) !! (cs_validator_address sig_b, cs_round sig_b) with
  | None => (s, submitted)
  | Some sig_a =>
      if len (cs_validator_address sig_b) =? 32 then
        match apply_submit_equivocation_evidence s
                (encode_equivocation_evidence
                   (sibling_evidence height (block_hash_of local) (block_hash_of candidate)
                      sig_a sig_b)) current_height with
        | Ok s' => (s', submitted + 1)
        | _ => (s, submitted)
        end
      else (s, submitted)
  end.

(** The state is changed in place, outside of any block. *)
Definition submit_equivocation_evidence_for_sibling_pair (height : N)
    (local candidate : StoredBlock) (n : LiveNode) : LiveNode * N :=
  let '(s, submitted) :=
    foldl (submit_one_evidence height local candidate (disk_height n)) (nd_state n, 0)
      (blk_commit_signatures (sb_block candidate)) in
  (n <| nd_state := s |>, submitted).

Definition state_equivalent (candidate local : BlockMetadata) : bool :=
  bool_decide (md_prev_hash candidate = md_prev_hash local)
  && bool_decide (md_state_root candidate = md_state_root local)
  && bool_decide (md_tx_root candidate = md_tx_root local).

Definition resolve_sibling_at_tip (n : LiveNode) (candidate : StoredBlock) (local : BlockMetadata)
    : LiveNode * outcome ImportError.t unit :=
  let height := md_height (sb_metadata candidate) in
  match node_policy (E := ImportError.t) n with
  | Ok policy =>
      if state_equivalent (sb_metadata candidate) local then
        match replace_canonical_at_height (nd_disk n) candidate policy with
        | Ok (disk, _) =>
            let n := n <| nd_disk := disk |> in
            (n <| nd_proposer ::= fmap (advance_tip (block_hash_of candidate)) |>, Ok tt)
        | Err e => (n, Err (ImportError.Storage e))
        | Panic => (n, Panic)
        end
      else
        match read_stored_block_at_height (nd_disk n) height with
        | None => (n, Err (ImportError.EquivocationNoBody height))
        | Some local_block =>
            let '(n, submitted) :=
              submit_equivocation_evidence_for_sibling_pair height local_block candidate n in
            (n, Err (ImportError.EquivocationDetected height submitted))
        end
  | Err e => (n, Err e)
  | Panic => (n, Panic)
  end.

(** The metadata of the tip, if the in-memory chain still holds it. *)
Definition local_tip_meta (c : ChainStore) : option BlockMetadata :=
  hash ← ch_tip_hash c;
  sb_metadata <$> ch_by_hash c !! hash.

Definition import_remote_block (now : N) (n : LiveNode) (stored : StoredBlock)
    : LiveNode * outcome ImportError.t ImportOutcome.t :=
  let c := dk_chain (nd_disk n) in
  let candidate_height := md_height (sb_metadata stored) in
  match classify_incoming_block stored (chain_height c) (local_tip_meta c)
          (fun h => if h =? candidate_height then get_metadata_by_height c candidate_height
                    else None) with
  | Err e => (n, Err (ImportError.Classifier e))
  | Panic => (n, Panic)
  | Ok BlockReceptionClass.Duplicate => (n, Ok ImportOutcome.Duplicate)
  | Ok BlockReceptionClass.BelowFinalized =>
      (n, Err (ImportError.BelowFinalized candidate_height (chain_height c)))
  | Ok (BlockReceptionClass.SiblingAtTip local) =>
      let '(n, r) := resolve_sibling_at_tip n stored local in
      (n, _ ← r; Ok ImportOutcome.Imported)
  | Ok BlockReceptionClass.OrphanFutureChild =>
      (n <| nd_orphan_cache ::= btc_insert now stored |>,
       Ok (ImportOutcome.OrphanedNeedsParent (parent_of stored)))
  | Ok BlockReceptionClass.LinkAtTip =>
      match append_canonical_link_at_tip n stored with
      | Ok n => (n, Ok ImportOutcome.Imported)
      | Err e => (n, Err e)
      | Panic => (n, Panic)
      end
  end.

(** One child: removed from the cache and imported.  A panic ends the node. *)
Definition drain_child (now : N) (acc : LiveNode * list bytes) (child : StoredBlock)
    : outcome ImportError.t (LiveNode * list bytes) :=
  let '(n, needs_fetch) := acc in
  let n := n <| nd_orphan_cache ::= fun c => (btc_remove (block_hash_of child) c).1 |> in
  match import_remote_block now n child with
  | (n, Ok (ImportOutcome.OrphanedNeedsParent parent_hash)) => Ok (n, needs_fetch ++ [parent_hash])
  | (n, Panic) => Panic
  | (n, _) => Ok (n, needs_fetch)
  end.

Definition drain_orphan_children (now : N) (n : LiveNode) (parent_hash : bytes)
    : outcome ImportError.t (LiveNode * list bytes) :=
  foldM (drain_child now) (n, []) (children_of now parent_hash (nd_orphan_cache n)).
End import.

(** ** Votes *)

Section votes.
Context `{Ciborium, Shake, Verifier, Signer}.

(** [retain(|(h, ..)| h > tip)] on both vote tables. *)
Definition drop_old_votes (tip : N) (n : LiveNode) : LiveNode :=
  let n := n <| nd_pending_precommits ::= filter (fun kv => tip < kv.1.1) |> in
  n <| nd_own_precommits_emitted ::= filter (fun k => tip < k.1.1) |>.

(** [pending_precommits.entry(key).or_default().insert(voter, vote)] *)
Definition buffer_precommit (vote : SignedVote) (n : LiveNode) : LiveNode :=
  let key := (sv_height vote, sv_block_hash vote) in
  n <| nd_pending_precommits ::= fun m =>
         <[key := <[sv_validator_address vote := vote]> (default ∅ (m !! key))]> m |>.

Definition vote_step_of (msg_type : N) : option VoteStep.t :=
  if msg_type =? MSG_TYPE_PREVOTE then Some VoteStep.Prevote
  else if msg_type =? MSG_TYPE_PRECOMMIT then Some VoteStep.Precommit
  else None.

(** The record of the voter if it is an active validator. *)
Definition active_voter (s : StateStore) (address : bytes) : option ValidatorRecord :=
  snd <$> list_find (fun v => val_operator v = address) (active_validators s).

(** The address of a vote is 32 bytes by its type, so the conversion to an [Address]
    cannot fail. *)
Definition handle_inbound_precommit (n : LiveNode) (vote : SignedVote) : LiveNode :=
  if sv_height vote <=? disk_height n then n
  else
    match active_voter (nd_state n) (sv_validator_address vote), vote_step_of (sv_msg_type vote) with
    | Some record, Some step =>
        if verify (val_consensus_alg_id record) (val_consensus_pk record)
             (vote_preimage viper_research_1 (sv_height vote) (sv_round vote) step
                (sv_block_hash vote)) (sv_signature vote)
        then buffer_precommit vote (drop_old_votes (disk_height n) n)
        else n
    | _, _ => n
    end.

(** [route_event] on a consensus vote: only a precommit reaches the handler. *)
Definition handle_gossip_vote (n : LiveNode) (payload : bytes) : LiveNode :=
  match decode_signed_vote payload with
  | Ok vote =>
      if sv_msg_type vote =? MSG_TYPE_PRECOMMIT then handle_inbound_precommit n vote else n
  | _ => n
  end.

(** One signer of the node: a precommit unless one was emitted for this very block. *)
Definition emit_precommit (height : N) (block_hash : bytes) (acc : LiveNode * list SignedVote)
    (signer : LocalCommitSigner) : LiveNode * list SignedVote :=
  let '(n, emitted) := acc in
  let addr := lcs_validator_address signer in
  let key := (height, block_hash, addr) in
  if negb (len addr =? 32) then (n, emitted)
  else if bool_decide (key ∈ nd_own_precommits_emitted n) then (n, emitted)
  else
    match build_signed_precommit (lcs_sig_alg_id signer) (lcs_commit_seed signer) addr height
            block_hash with
    | Some vote =>
        let n := n <| nd_own_precommits_emitted ::= union {[ key ]} |> in
        (buffer_precommit vote n, emitted ++ [vote])
    | None => (n, emitted)
    end.

(** The votes to gossip, and whether there are any.  Of the block only the height and
    hash its metadata claims and the number of its signatures are looked at. *)
Definition handle_non_proposer_proposal_if_applicable (n : LiveNode) (inbound : StoredBlock)
    : outcome ImportError.t (LiveNode * list SignedVote * bool) :=
  let height := md_height (sb_metadata inbound) in
  if negb (nd_distributed_signing n) then Ok (n, [], false)
  else if height <=? disk_height n then Ok (n, [], false)
  else
    match from_state_store (nd_state n) None with
    | Ok None => Ok (n, [], false)
    | Ok (Some policy) =>
        if cqp_quorum_threshold policy <=? len (blk_commit_signatures (sb_block inbound))
        then Ok (n, [], false)
        else
          let signers := snapshot_block_signers (nd_keystore n) (active_validators (nd_state n)) in
          let '(n, emitted) :=
            foldl (emit_precommit height (block_hash_of inbound)) (n, []) signers in
          Ok (n, emitted, negb (bool_decide (emitted = [])))
    | _ => Panic
    end.

Definition should_build_as_proposer (distributed_signing : bool) (validator_addresses : list bytes)
    (next_height round : N) (ks : Keystore) : bool :=
  if negb distributed_signing then true
  else match select_proposer validator_addresses next_height round None with
       | Some proposer_addr => keystore_contains ks proposer_addr
       | None => false
       end.

(** One buffered vote: skipped when its signer is there already or not active.  The
    bucket is a hash map, whose order the code leaves open; here it is that of the keys. *)
Definition merge_vote (s : StateStore) (already : list bytes) (commit_sigs : list CommitSig)
    (voter_vote : bytes * SignedVote) : list CommitSig :=
  let '(voter, vote) := voter_vote in
  if bool_decide (voter ∈ already) then commit_sigs
  else match active_voter s voter with
       | Some record =>
           commit_sigs ++ [mkCommitSig voter (val_consensus_alg_id record) (sv_round vote)
                             (sv_signature vote)]
       | None => commit_sigs
       end.

Definition merge_distributed_precommits_into_block (n : LiveNode) (commit_sigs : list CommitSig)
    (block_height : N) (block_hash : bytes) (mode : CommitPreimageMode.t)
    : LiveNode * list CommitSig :=
  match mode with
  | CommitPreimageMode.Legacy => (n, commit_sigs)
  | CommitPreimageMode.Distributed _ =>
      let key := (block_height, block_hash) in
      match nd_pending_precommits n !! key with
      | None => (n, commit_sigs)
      | Some bucket =>
          let already := filter (fun a => len a = 32) (cs_validator_address <$> commit_sigs) in
          (n <| nd_pending_precommits ::= delete key |>,
           foldl (merge_vote (nd_state n) already) commit_sigs (map_to_list bucket))
      end
  end.
End votes.

(** ** Producing a block: the phases of [consensus_loop]

    The state lock is released between the phases and other handlers run there, which
    is why they are separate steps.  An error ends the loop.  The signed proposal is
    gossiped after phase 2 when signing is distributed. *)

Module LoopError.
Inductive t : Type :=
  | NoProposer
  | Proposer (e : ProposerError.t)
  | Signing
  | Storage (e : StorageError.t).
End LoopError.

Record Candidate := mkCandidate {
  cand_proposal : ProposedBlock;
  cand_mode : CommitPreimageMode.t
}.

(** [proposal.execution.block.commit_signatures = sigs] *)
Definition with_commit_signatures (sigs : list CommitSig) (p : ProposedBlock) : ProposedBlock :=
  let e := pb_execution p in
  let b := exe_block e in
  mkProposedBlock
    (mkBlockExecutionResult (mkBlock (blk_header b) (blk_tx_hashes b) sigs) (exe_included e)
       (exe_included_transactions e) (exe_deferred e) (exe_new_height e) (exe_state_root e)
       (exe_tx_root e) (exe_bytes_used e) (exe_vc_budget_consumed e) (exe_skipped e))
    (pb_block_hash p) (pb_next_state p) (pb_next_pool p).

Section produce.
Context `{Ciborium, Shake, Verifier, Signer}.

Definition node_mode (n : LiveNode) : CommitPreimageMode.t :=
  if nd_distributed_signing n then CommitPreimageMode.Distributed 0 else CommitPreimageMode.Legacy.

(** Phases 1 and 2: select the proposer, build the block, sign it. *)
Definition propose (n : LiveNode) (timestamp : N) : outcome LoopError.t (LiveNode * option Candidate) :=
  let active := active_validators (nd_state n) in
  match val_operator <$> active with
  | [] => Ok (n, None)
  | first :: _ as validator_addresses =>
      let next_height := sat_add u64_max (st_block_height (nd_state n)) 1 in
      let proposer_addr :=
        if 1 <? len validator_addresses
        then default first (select_proposer validator_addresses next_height 0 None)
        else first in
      proposer ← ok_or (nd_proposer n) LoopError.NoProposer;
      if negb (should_build_as_proposer (nd_distributed_signing n) validator_addresses next_height 0
                 (nd_keystore n))
      then Ok (n, None)
      else
        let proposer := set_proposer proposer_addr proposer in
        proposal ← map_err LoopError.Proposer
          (build_next_block proposer (nd_state n) (nd_mempool n) timestamp);
        let mode := node_mode n in
        sigs ← ok_or (sign_block mode (bh_height (blk_header (exe_block (pb_execution proposal))))
                        (pb_block_hash proposal) (snapshot_block_signers (nd_keystore n) active))
                 LoopError.Signing;
        Ok (n <| nd_proposer := Some proposer |>,
            Some (mkCandidate (with_commit_signatures sigs proposal) mode))
  end.

(** Phases 2.5 and 2c: add the peers' precommits; without a quorum the proposal is
    dropped and the next tick builds another one. *)
Definition collect_votes (n : LiveNode) (cand : Candidate)
    : outcome LoopError.t (LiveNode * option ProposedBlock) :=
  let p := cand_proposal cand in
  let b := exe_block (pb_execution p) in
  let '(n, sigs) := merge_distributed_precommits_into_block n (blk_commit_signatures b)
    (bh_height (blk_header b)) (pb_block_hash p) (cand_mode cand) in
  match cand_mode cand with
  | CommitPreimageMode.Legacy => Ok (n, Some (with_commit_signatures sigs p))
  | CommitPreimageMode.Distributed _ =>
      match from_state_store (nd_state n) None with
      | Ok (Some policy) =>
          Ok (n, if cqp_quorum_threshold policy <=? len sigs
                 then Some (with_commit_signatures sigs p) else None)
      | Ok None => Ok (n, None)
      | _ => Panic
      end
  end.

(** The pool without the included, the skipped and the outdated transactions. *)
Definition evict_block_txs (r : BlockExecutionResult) (pool : Mempool) : Mempool :=
  let pool := foldl (fun pool h => evict h pool) pool (exe_included r) in
  let pool := foldl (fun pool sk => evict sk.1 pool) pool (exe_skipped r) in
  foldl (fun pool tx => evict_stale (tx_sender tx) (sat_add u64_max (tx_nonce tx) 1) pool) pool
    (exe_included_transactions r).

(** Phase 3: commit, evict, persist, checkpoint. *)
Definition finalize (n : LiveNode) (proposal : ProposedBlock) : outcome LoopError.t LiveNode :=
  proposer ← ok_or (nd_proposer n) LoopError.NoProposer;
  '(proposer, s, result) ← map_err LoopError.Proposer
    (commit_block_preserve_pool proposer (nd_state n) proposal);
  disk ← map_err LoopError.Storage (append_block_trusted (nd_disk n) result);
  let n := n <| nd_state := s |> in
  let n := n <| nd_mempool ::= evict_block_txs result |> in
  let n := n <| nd_proposer := Some proposer |> in
  let n := n <| nd_disk := disk |> in
  Ok (checkpoint_if_due (bh_height (blk_header (exe_block result))) n).
End produce.

(** ** Transactions from the network and the API *)

Section transactions.
Context `{Ciborium, Shake, Verifier}.

Definition check_sender_budget (now : N) (b : SenderBudget) (sender : Address) : bool :=
  if sbu_max_txs_per_window b =? 0 then false
  else match sbu_admitted b !! sender with
       | Some (count, window_start) =>
           (now - window_start <? sbu_window b) && (sbu_max_txs_per_window b <=? count)
       | None => false
       end.

Definition record_sender_admission {E} (now : N) (sender : Address) (b : SenderBudget)
    : outcome E SenderBudget :=
  if sbu_max_txs_per_window b =? 0 then Ok b
  else
    let '(count, window_start) := default (0, now) (sbu_admitted b !! sender) in
    entry ← if sbu_window b <=? now - window_start then Ok (1, now)
            else (c ← add_checked u32_max count 1; Ok (c, window_start));
    Ok (mkSenderBudget (sbu_max_txs_per_window b) (sbu_window b)
          (<[sender := entry]> (sbu_admitted b))).

(** [inject_tx] and [handle_inbound_transaction]; [true] when admitted. *)
Definition handle_inbound_transaction (now : N) (n : LiveNode) (raw_tx : bytes)
    : outcome unit (LiveNode * bool) :=
  let sender := match decode_tx raw_tx with Ok tx => Some (tx_sender tx) | _ => None end in
  if match sender with Some a => check_sender_budget now (nd_sender_budget n) a | None => false end
  then Ok (n, false)
  else match try_admit (nd_mempool n) raw_tx (nd_state n) (nd_fee_params n) with
       | Ok (pool, _) =>
           let n := n <| nd_mempool := pool |> in
           match sender with
           | Some a =>
               budget ← record_sender_admission now a (nd_sender_budget n);
               Ok (n <| nd_sender_budget := budget |>, true)
           | None => Ok (n, true)
           end
       | Err _ => Ok (n, false)
       | Panic => Panic
       end.
End transactions.

(** ** Blocks from the network *)

Module BlockInboundClass.
Inductive t : Type := Behind | Next | Gap (ahead_by : N).
End BlockInboundClass.

Definition classify_inbound_height (local_tip received : N) : BlockInboundClass.t :=
  if received <=? local_tip then BlockInboundClass.Behind
  else if received =? local_tip + 1 then BlockInboundClass.Next
  else BlockInboundClass.Gap (received - local_tip - 1).

Definition MAX_BLOCKS_PER_REQUEST : N := 16.

Record BlockFetchRequest := mkBlockFetchRequest { bfr_from_height : N; bfr_to_height : N }.

Module BlockFetchRequestError.
Inductive t : Type := EmptyRange (from to : N) | RangeTooLarge (len max : N).
End BlockFetchRequestError.

Definition block_fetch_validate (r : BlockFetchRequest) : outcome BlockFetchRequestError.t unit :=
  if bfr_to_height r <? bfr_from_height r
  then Err (BlockFetchRequestError.EmptyRange (bfr_from_height r) (bfr_to_height r))
  else
    l ← add_checked u64_max (bfr_to_height r - bfr_from_height r) 1;
    if MAX_BLOCKS_PER_REQUEST <? l
    then Err (BlockFetchRequestError.RangeTooLarge l MAX_BLOCKS_PER_REQUEST) else Ok tt.

(** The request a gap gives rise to. *)
Definition gap_request {E} (local_tip received : N) : outcome E BlockFetchRequest :=
  from ← add_checked u64_max local_tip 1;
  last ← add_checked u64_max from MAX_BLOCKS_PER_REQUEST;
  Ok (mkBlockFetchRequest from (N.min (received - 1) (last - 1))).

(** What handling a gossiped block sends out. *)
Module Sent.
Inductive t : Type :=
  | Vote (v : SignedVote)
  | FetchRange (r : BlockFetchRequest)
  | FetchParent (parent_hash : bytes).
End Sent.

Section inbound.
Context `{Ciborium, Shake, Verifier, Signer}.

(** With the source of the block known and the swarm running. *)
Definition handle_inbound_block (now : N) (n : LiveNode) (inbound : StoredBlock)
    : outcome ImportError.t (LiveNode * list Sent.t) :=
  let received := md_height (sb_metadata inbound) in
  match classify_inbound_height (disk_height n) received with
  | BlockInboundClass.Behind => Ok (n, [])
  | BlockInboundClass.Next =>
      '(n, votes, signed) ← handle_non_proposer_proposal_if_applicable n inbound;
      if (signed : bool) then Ok (n, map Sent.Vote votes)
      else match import_remote_block now n inbound with
           | (n, Ok (ImportOutcome.OrphanedNeedsParent p)) => Ok (n, [Sent.FetchParent p])
           | (_, Panic) => Panic
           | (n, _) => Ok (n, [])
           end
  | BlockInboundClass.Gap _ =>
      r ← gap_request (disk_height n) received;
      match block_fetch_validate r with
      | Ok _ => Ok (n, [Sent.FetchRange r])
      | Err _ => Ok (n, [])
      | Panic => Panic
      end
  end.

(** The entries of a response, [None] for one that does not decode: imported in order
    up to the first failure. *)
Fixpoint import_batch (now : N) (n : LiveNode) (parents : list bytes)
    (blocks : list (option StoredBlock)) : outcome ImportError.t (LiveNode * list bytes) :=
  match blocks with
  | [] | None :: _ => Ok (n, parents)
  | Some stored :: blocks =>
      match import_remote_block now n stored with
      | (n, Ok ImportOutcome.Imported) =>
          '(n, more) ← drain_orphan_children now n (block_hash_of stored);
          import_batch now n (parents ++ more) blocks
      | (n, Ok ImportOutcome.Duplicate) => import_batch now n parents blocks
      | (n, Ok (ImportOutcome.OrphanedNeedsParent p)) => import_batch now n (parents ++ [p]) blocks
      | (n, Err _) => Ok (n, parents)
      | (_, Panic) => Panic
      end
  end.

Definition handle_inbound_block_fetch_response (now : N) (n : LiveNode)
    (blocks : list (option StoredBlock)) : outcome ImportError.t (LiveNode * list Sent.t) :=
  '(n, parents) ← import_batch now n [] blocks;
  Ok (n, map Sent.FetchParent parents).
End inbound.
