(* ===== verification/NodeProps.v ===== *)
(** * The node: accountability, and where its handlers break it.

    Two commit proofs for different blocks of one height identify more than a third
    of the validators, each slashable when it signed both in one round.  A node
    running the code alone can be brought to sign two such votes. *)

From S2P Require Import Prelude Crypto Types Cbor Payloads Tx FeeMarket Leaves Store StoreInv.
From S2P Require Import ApplyAccounts ApplyValidators Governance Archival ApplyTx Mempool Block.
From S2P Require Import StateRoot Chain Recovery Round RoundProps Commit CommitProps BlockTree.
From S2P Require Import Keystore Proposer Node TxSpec TxRefine Invariants Supply ChainInv Examples.

(** ** Two votes of one validator *)

Section double_vote.
Context `{Ciborium, Shake, Verifier}.

Definition vote_pair (a : bytes) (h r : N) (hash1 hash2 sig1 sig2 : bytes) : EquivocationEvidence :=
  mkEquivocationEvidence a h (mkEquivocationVote h r hash1 2 sig1)
    (mkEquivocationVote h r hash2 2 sig2).

(** The window in which evidence about height [h] is accepted. *)
Definition in_window (h now : N) : Prop := h <= now /\ now - h <= EVIDENCE_VALIDITY_WINDOW_BLOCKS.

(** A precommit of [a] that its registered key verifies. *)
Definition signed_precommit (v : ValidatorRecord) (h r : N) (hash sig : bytes) : Prop :=
  verify (val_consensus_alg_id v) (val_consensus_pk v)
    (vote_preimage viper_research_1 h r VoteStep.Precommit hash) sig = true.

Lemma double_vote_slashed s a v h r hash1 hash2 sig1 sig2 now :
  get_validator s a = Some v -> val_tombstoned v = false -> len a = 32 ->
  h <= u64_max -> r <= u32_max -> len hash1 = 32 -> len hash2 = 32 -> hash1 <> hash2 ->
  in_window h now -> signed_precommit v h r hash1 sig1 -> signed_precommit v h r hash2 sig2 ->
  cbor_roundtrips (evidence_value (vote_pair a h r hash1 hash2 sig1 sig2)) ->
  apply_submit_equivocation_evidence s
    (encode_equivocation_evidence (vote_pair a h r hash1 hash2 sig1 sig2)) now =
  execute_slash a now s.
Proof.
  intros Hv Ht Ha Hh Hr Hl1 Hl2 Hne [Hw1 Hw2] Hs1 Hs2 Hc.
  unfold apply_submit_equivocation_evidence. rewrite decode_encode_evidence; [|done|].
  2: { unfold evidence_wf, vote_wf. cbn. auto 10. }
  unfold check_evidence, vote_pair, verify_vote_signature.
  cbn [map_err mbind outcome_bind evid_validator_address evid_height evid_vote_a evid_vote_b
       ev_height ev_round ev_block_hash ev_step ev_signature].
  rewrite !N.eqb_refl, bool_decide_false by done.
  rewrite (proj2 (N.leb_le _ _) Hw1), (proj2 (N.leb_le _ _) Hw2), Hv.
  cbn [andb negb ensure ok_or mbind outcome_bind]. rewrite Ht.
  unfold signed_precommit in Hs1, Hs2.
  change (verify (val_consensus_alg_id v) (val_consensus_pk v)
    (compute_vote_preimage viper_research_1 (mkEquivocationVote h r hash1 2 sig1)) sig1 = true) in Hs1.
  change (verify (val_consensus_alg_id v) (val_consensus_pk v)
    (compute_vote_preimage viper_research_1 (mkEquivocationVote h r hash2 2 sig2)) sig2 = true) in Hs2.
  rewrite Hs1, Hs2. done.
Qed.
End double_vote.

(** ** Two commit proofs *)

Section accountability.
Context `{Ciborium, Shake, Verifier}.

Lemma compute_block_hash_len b : len (compute_block_hash b) = 32.
Proof. unfold compute_block_hash, hash_chunks, finish, len. by rewrite shake256_32_length. Qed.

Lemma set_len_list (l : list bytes) : NoDup l -> set_len (list_to_set l : gset bytes) = len l.
Proof. intros Hnd. unfold set_len, len. by rewrite size_list_to_set. Qed.

Lemma set_len_list_le (l : list bytes) : set_len (list_to_set l : gset bytes) <= len l.
Proof.
  induction l as [|x l IH]; [done|]. cbn [list_to_set].
  pose proof (set_len_union_inter {[ x ]} (list_to_set l)) as Hu.
  assert (set_len {[ x ]} = 1) by (unfold set_len; by rewrite size_singleton).
  unfold len in *. cbn [length]. lia.
Qed.

(** The signers of a valid commit proof are active, a quorum of them. *)
Lemma commit_signers s b :
  store_ok s -> validate_block_commit_quorum b (with_distributed_preimage 0 (state_policy s)) = Ok tt ->
  (list_to_set (sig_addresses b) : gset bytes) ⊆ list_to_set (val_operator <$> active_validators s) /\
  quorum_size (active_validator_count s) <= set_len (list_to_set (sig_addresses b)) /\
  forall c, c ∈ blk_commit_signatures b -> exists v,
    get_validator s (cs_validator_address c) = Some v /\ len (cs_validator_address c) = 32 /\
    signed_precommit v (bh_height (blk_header b)) (cs_round c) (compute_block_hash b) (cs_signature c).
Proof.
  intros Hs (Hnd & Hq & Hv)%validate_commit_Ok. split_and!.
  - intros a. rewrite !elem_of_list_to_set. intros (c & -> & Hc)%list_elem_of_fmap.
    destruct (Hv c Hc) as (cv & Hcv & _). revert Hcv.
    unfold validator_by_address. cbn [cqp_validators state_policy with_distributed_preimage].
    destruct (list_find _ _) as [[i w]|] eqn:Hf; [|done]. intros _.
    apply list_find_Some in Hf as (Hi & <- & _).
    apply list_elem_of_lookup_2, list_elem_of_fmap in Hi as (v & -> & Hin).
    apply list_elem_of_fmap. by exists v.
  - rewrite set_len_list by done. unfold sig_addresses, len in *. by rewrite length_fmap.
  - intros c Hc. destruct (Hv c Hc) as (cv & Hcv & Hm).
    apply (state_policy_validator s) in Hcv as (v & Hg & _ & -> & Hl); [|done].
    exists v. split_and!; [done|done|]. unfold ml_dsa_verify in Hm. bool_hyps.
    unfold signed_precommit. cbn in *. congruence.
Qed.

(** C10 Accountability of commits under distributed signing: if two blocks of one height
    with different hashes both pass the quorum check of one state, more than a third of
    the active validators have a verified signature in each of them, and for every one
    of those that signed both in the same round the evidence made of its two signatures
    is accepted and slashes it, at any height of the validity window. *)
Theorem conflicting_commits_accountable s b1 b2 :
  store_ok s ->
  validate_block_commit_quorum b1 (with_distributed_preimage 0 (state_policy s)) = Ok tt ->
  validate_block_commit_quorum b2 (with_distributed_preimage 0 (state_policy s)) = Ok tt ->
  bh_height (blk_header b1) = bh_height (blk_header b2) -> bh_height (blk_header b1) <= u64_max ->
  compute_block_hash b1 <> compute_block_hash b2 ->
  exists guilty : gset bytes,
    active_validator_count s < 3 * set_len guilty /\
    forall a, a ∈ guilty -> exists v c1 c2,
      get_validator s a = Some v /\
      c1 ∈ blk_commit_signatures b1 /\ cs_validator_address c1 = a /\
      c2 ∈ blk_commit_signatures b2 /\ cs_validator_address c2 = a /\
      forall now, let h := bh_height (blk_header b1) in
        let ev := sibling_evidence h (compute_block_hash b1) (compute_block_hash b2) c1 c2 in
        cs_round c1 = cs_round c2 -> cs_round c1 <= u32_max -> val_tombstoned v = false ->
        in_window h now -> cbor_roundtrips (evidence_value ev) ->
        apply_submit_equivocation_evidence s (encode_equivocation_evidence ev) now =
        execute_slash a now s.
Proof.
  intros Hs Hv1 Hv2 Hh Hb Hne.
  destruct (commit_signers s b1 Hs Hv1) as (Hi1 & Hq1 & Hc1).
  destruct (commit_signers s b2 Hs Hv2) as (Hi2 & Hq2 & Hc2).
  pose proof (active_operators_NoDup s Hs) as Hnd.
  assert (active_validator_count s = set_len (list_to_set (val_operator <$> active_validators s))) as Hn.
  { rewrite set_len_list by done. unfold active_validator_count, len. by rewrite length_fmap. }
  rewrite Hn in Hq1, Hq2 |- *.
  exists (list_to_set (sig_addresses b1) ∩ list_to_set (sig_addresses b2)).
  split; [by apply quorum_intersection|].
  intros a. rewrite elem_of_intersection, !elem_of_list_to_set.
  intros [(c1 & -> & Hin1)%list_elem_of_fmap (c2 & Heq & Hin2)%list_elem_of_fmap].
  destruct (Hc1 c1 Hin1) as (v & Hg & Hl & Hs1). destruct (Hc2 c2 Hin2) as (v2 & Hg2 & _ & Hs2).
  rewrite <-Heq, Hg in Hg2. injection Hg2 as <-. rewrite <-Hh in Hs2.
  exists v, c1, c2. split_and!; try done.
  intros now h ev Hr Hru Ht Hw Hcb. rewrite <-Hr in Hs2.
  assert (ev = vote_pair (cs_validator_address c1) h (cs_round c1) (compute_block_hash b1)
    (compute_block_hash b2) (cs_signature c1) (cs_signature c2)) as Hev.
  { unfold ev, sibling_evidence, vote_pair. by rewrite <-Heq, <-Hr. }
  rewrite Hev in Hcb |- *.
  apply (double_vote_slashed _ _ v); auto using compute_block_hash_len.
Qed.
End accountability.

(** ** What the node signs *)

Section signing.
Context `{Ciborium, Shake, Verifier, Signer}.

(** What signing a proposal leaves alone, and the keys it may add. *)
Definition votes_only (height : N) (hash : bytes) (n n' : LiveNode) : Prop :=
  nd_state n' = nd_state n /\ nd_disk n' = nd_disk n /\ nd_keystore n' = nd_keystore n /\
  nd_distributed_signing n' = nd_distributed_signing n /\
  forall k, k ∈ nd_own_precommits_emitted n' ->
    k ∈ nd_own_precommits_emitted n \/ k.1 = (height, hash).

Lemma emit_precommit_frame height hash n out signer n' out' :
  emit_precommit height hash (n, out) signer = (n', out') ->
  votes_only height hash n n' /\ out ⊆ out' /\
  (forall k, k ∈ nd_own_precommits_emitted n' -> k ∈ nd_own_precommits_emitted n \/
     k = (height, hash, lcs_validator_address signer)).
Proof.
  unfold emit_precommit, votes_only.
  destruct (negb _); [intros [= <- <-]; split_and!; auto|].
  case_bool_decide; [intros [= <- <-]; split_and!; auto|].
  destruct (build_signed_precommit _ _ _ _ _) as [v|]; intros [= <- <-]; [|split_and!; auto].
  cbn. split_and!; try done; [| set_solver |].
  all: intros k [->%elem_of_singleton|?]%elem_of_union; auto.
Qed.

Lemma emit_fold_frame height hash l n out n' out' :
  foldl (emit_precommit height hash) (n, out) l = (n', out') ->
  votes_only height hash n n' /\ out ⊆ out'.
Proof.
  revert n out. induction l as [|x l IH]; intros n out; cbn [foldl].
  { intros [= <- <-]. unfold votes_only. split_and!; auto. }
  destruct (emit_precommit _ _ (n, out) x) as [n1 out1] eqn:He.
  intros (Hv & Ho)%IH. apply emit_precommit_frame in He as (Hv1 & Ho1 & _).
  unfold votes_only in *. destruct Hv as (-> & -> & -> & -> & Hk), Hv1 as (? & ? & ? & ? & Hk1).
  split_and!; try done; [|set_solver]. intros k [?|?]%Hk; auto.
Qed.

(** Each signer that has not voted for the block yet does so. *)
Lemma emit_fold_signs height hash l n out n' out' signer vote :
  foldl (emit_precommit height hash) (n, out) l = (n', out') ->
  NoDup (lcs_validator_address <$> l) -> signer ∈ l ->
  len (lcs_validator_address signer) = 32 ->
  (height, hash, lcs_validator_address signer) ∉ nd_own_precommits_emitted n ->
  build_signed_precommit (lcs_sig_alg_id signer) (lcs_commit_seed signer)
    (lcs_validator_address signer) height hash = Some vote ->
  vote ∈ out'.
Proof.
  intros Hf Hnd Hin Hl Hk Hb. revert n out Hf Hk.
  induction l as [|x l IH]; intros n out; [by apply not_elem_of_nil in Hin|].
  rewrite fmap_cons in Hnd. apply NoDup_cons in Hnd as [Hx Hnd]. cbn [foldl].
  destruct (emit_precommit _ _ (n, out) x) as [n1 out1] eqn:He. intros Hf Hk.
  apply elem_of_cons in Hin as [->|Hin].
  - apply emit_fold_frame in Hf as [_ Ho]. apply Ho. unfold emit_precommit in He.
    rewrite Hl, bool_decide_false, Hb in He by done. cbn in He. injection He as <- <-. set_solver.
  - apply (IH Hnd Hin _ _ Hf). apply emit_precommit_frame in He as (_ & _ & Hk1).
    intros [?|Heq]%Hk1; [done|]. injection Heq as Heq. apply Hx. rewrite <-Heq.
    by apply list_elem_of_fmap_2.
Qed.

Lemma snapshot_addresses ks active :
  NoDup (val_operator <$> active) ->
  NoDup (lcs_validator_address <$> snapshot_block_signers ks active).
Proof.
  intros Hnd. eapply sublist_NoDup; [exact Hnd|].
  unfold snapshot_block_signers. induction active as [|v l IH]; [constructor|].
  apply NoDup_cons in Hnd as [_ Hnd]. cbn [omap list_omap fmap list_fmap].
  destruct (get_for_pk _ _ _) as [e|]; cbn; constructor; by apply IH.
Qed.

(** A key of the node for an active validator, whose signatures verify. *)
Definition signs_for (n : LiveNode) (v : ValidatorRecord) (e : KeystoreEntry) : Prop :=
  v ∈ active_validators (nd_state n) /\
  get_for_pk (nd_keystore n) (val_operator v) (val_consensus_pk v) = Some e /\
  ke_sig_alg_id e = val_consensus_alg_id v /\ is_ml_dsa (ke_sig_alg_id e) = true /\
  forall msg, verify (val_consensus_alg_id v) (val_consensus_pk v) msg
                (sign (ke_sig_alg_id e) (ke_commit_seed e) msg) = true.

(** A block of the next height without a quorum of signatures. *)
Definition is_proposal (n : LiveNode) (b : StoredBlock) : Prop :=
  md_height (sb_metadata b) = disk_height n + 1 /\
  len (blk_commit_signatures (sb_block b)) < quorum_size (active_validator_count (nd_state n)).

Definition precommit_of (v : ValidatorRecord) (e : KeystoreEntry) (b : StoredBlock) : SignedVote :=
  mkSignedVote MSG_TYPE_PRECOMMIT (md_height (sb_metadata b)) 0 (block_hash_of b) (val_operator v)
    (sign (ke_sig_alg_id e) (ke_commit_seed e)
       (vote_preimage viper_research_1 (md_height (sb_metadata b)) 0 VoteStep.Precommit
          (block_hash_of b))).

(** A proposal is answered by the precommit of every key of the node that has not voted
    for this very block. *)
Lemma proposal_is_signed now n b v e :
  store_ok (nd_state n) -> nd_distributed_signing n = true -> is_proposal n b -> signs_for n v e ->
  (md_height (sb_metadata b), block_hash_of b, val_operator v) ∉ nd_own_precommits_emitted n ->
  exists n' out, handle_inbound_block now n b = Ok (n', out) /\
    Sent.Vote (precommit_of v e b) ∈ out /\
    votes_only (md_height (sb_metadata b)) (block_hash_of b) n n'.
Proof.
  intros Hs Hd [Hh Hq] (Hv & Hks & Ha & Hml & _) Hk.
  unfold handle_inbound_block, classify_inbound_height. rewrite Hh.
  rewrite (proj2 (N.leb_gt _ _)) by lia. rewrite N.eqb_refl.
  unfold handle_non_proposer_proposal_if_applicable. rewrite Hd, Hh. cbn [negb].
  rewrite (proj2 (N.leb_gt _ _)) by lia. rewrite from_state_store_eq by done.
  rewrite bool_decide_false by (intros Hnil; rewrite Hnil in Hv; by apply not_elem_of_nil in Hv).
  cbn [cqp_quorum_threshold state_policy]. rewrite (proj2 (N.leb_gt _ _)) by done.
  destruct (foldl _ _ _) as [n' out] eqn:Hf. rewrite Hh in Hk.
  destruct (active_validators_elem _ _ Hs Hv) as (_ & _ & Hl).
  pose proof (snapshot_addresses (nd_keystore n) _ (active_operators_NoDup _ Hs)) as Hnd.
  assert (precommit_of v e b ∈ out) as Hin.
  { refine (emit_fold_signs _ _ _ _ _ _ _
      (mkLocalCommitSigner (val_operator v) (ke_sig_alg_id e) (ke_commit_seed e)) _ Hf Hnd _ Hl Hk _).
    - apply list_elem_of_omap. exists v. split; [done|]. by rewrite Hks.
    - unfold build_signed_precommit, ml_dsa_sign_with_seed, precommit_of. cbn. by rewrite Hml, Hh. }
  rewrite bool_decide_false by (intros ->; by apply not_elem_of_nil in Hin).
  apply emit_fold_frame in Hf as [Hfr _]. cbn [mbind outcome_bind negb].
  exists n', (map Sent.Vote out). split_and!; [done|by apply list_elem_of_fmap_2|done].
Qed.

(** C36 A node that runs the code alone can be made to equivocate: given two blocks of the
    next height with different hashes and no quorum of signatures, whatever else they
    hold, its handler signs a round-0 precommit for each, and the evidence made of the
    two votes slashes its validator on any state that has the record, at any height of
    the validity window. *)
Theorem honest_node_signs_conflicting_votes clock n b1 b2 v e :
  store_ok (nd_state n) -> nd_distributed_signing n = true -> signs_for n v e ->
  val_tombstoned v = false -> disk_height n < u64_max ->
  is_proposal n b1 -> is_proposal n b2 ->
  len (block_hash_of b1) = 32 -> len (block_hash_of b2) = 32 ->
  block_hash_of b1 <> block_hash_of b2 ->
  (forall k, k ∈ nd_own_precommits_emitted n -> k.1.1 <= disk_height n) ->
  let v1 := precommit_of v e b1 in let v2 := precommit_of v e b2 in
  exists n1 out1 n2 out2,
    handle_inbound_block clock n b1 = Ok (n1, out1) /\ Sent.Vote v1 ∈ out1 /\
    handle_inbound_block clock n1 b2 = Ok (n2, out2) /\ Sent.Vote v2 ∈ out2 /\
    forall s now, let h := disk_height n + 1 in
      let ev := vote_pair (val_operator v) h 0 (sv_block_hash v1) (sv_block_hash v2)
                  (sv_signature v1) (sv_signature v2) in
      get_validator s (val_operator v) = Some v -> in_window h now ->
      cbor_roundtrips (evidence_value ev) ->
      apply_submit_equivocation_evidence s (encode_equivocation_evidence ev) now =
      execute_slash (val_operator v) now s.
Proof.
  intros Hs Hd Hsf Ht Hmax Hp1 Hp2 Hl1 Hl2 Hne Hown v1 v2.
  pose proof (proj1 Hp1) as Hh1. pose proof (proj1 Hp2) as Hh2.
  destruct (proposal_is_signed clock n b1 v e) as (n1 & out1 & Hr1 & Hin1 & Hst & Hdk & Hks & Hds & Hk);
    [done..| |]. { intros Hk%Hown. cbn in Hk. lia. }
  assert (disk_height n1 = disk_height n) as Hdh by (unfold disk_height; by rewrite Hdk).
  destruct (proposal_is_signed clock n1 b2 v e) as (n2 & out2 & Hr2 & Hin2 & _).
  { by rewrite Hst. } { by rewrite Hds. } { unfold is_proposal in *. by rewrite Hdh, Hst. }
  { unfold signs_for in *. by rewrite Hst, Hks. }
  { intros [Hk1%Hown|Heq]%Hk; [cbn in Hk1; lia|]. cbn in Heq. congruence. }
  exists n1, out1, n2, out2. split_and!; try done.
  intros s now h ev Hg Hw Hcb. destruct Hsf as (Hv & _ & _ & _ & Hsig).
  destruct (active_validators_elem _ _ Hs Hv) as (_ & _ & Hl).
  apply (double_vote_slashed _ _ v); try done; unfold h; [lia| |].
  all: unfold signed_precommit; cbn; rewrite ?Hh1, ?Hh2; apply Hsig.
Qed.
End signing.

(** ** From a proposal to a committed block *)

Section quorum.
Context `{Ciborium, Shake, Verifier, Signer}.

(** The keys of the node sign for the records they are registered under. *)
Definition keys_sound (n : LiveNode) : Prop := forall v e,
  v ∈ active_validators (nd_state n) ->
  get_for_pk (nd_keystore n) (val_operator v) (val_consensus_pk v) = Some e ->
  ke_sig_alg_id e = val_consensus_alg_id v /\
  forall msg, verify (val_consensus_alg_id v) (val_consensus_pk v) msg
                (sign (ke_sig_alg_id e) (ke_commit_seed e) msg) = true.

(** The commit check knows ML-DSA signatures only. *)
Definition all_ml_dsa (sigs : list CommitSig) : Prop :=
  forall c, c ∈ sigs -> is_ml_dsa (cs_sig_alg_id c) = true.

(** Every buffered vote is a verified precommit for the block it is filed under. *)
Definition buffered_ok (n : LiveNode) : Prop := forall h hash bucket voter vote,
  nd_pending_precommits n !! (h, hash) = Some bucket -> bucket !! voter = Some vote ->
  exists v, active_voter (nd_state n) voter = Some v /\
    signed_precommit v h (sv_round vote) hash (sv_signature vote).

Lemma active_voter_Some s a v :
  active_voter s a = Some v -> v ∈ active_validators s /\ val_operator v = a.
Proof.
  unfold active_voter. destruct (list_find _ _) as [[i w]|] eqn:Hf; [|done]. intros [= <-].
  apply list_find_Some in Hf as (Hi & Ha & _). split; [by eapply list_elem_of_lookup_2|done].
Qed.

Lemma state_policy_active s v :
  store_ok s -> v ∈ active_validators s ->
  validator_by_address (state_policy s) (val_operator v) = Some (commit_validator_of v).
Proof.
  intros Hs Hv. unfold validator_by_address. cbn [cqp_validators state_policy].
  destruct (list_find _ _) as [[i w]|] eqn:Hf.
  - apply list_find_Some in Hf as (Hi & Ha & _). cbn. f_equal.
    apply list_elem_of_lookup_2, list_elem_of_fmap in Hi as (u & -> & Hu). f_equal. cbn in Ha.
    destruct (active_validators_elem s u Hs Hu) as [Hg _].
    destruct (active_validators_elem s v Hs Hv) as [Hg' _]. congruence.
  - apply list_find_None in Hf. rewrite Forall_forall in Hf.
    exfalso. apply (Hf (commit_validator_of v)); [by apply list_elem_of_fmap_2|done].
Qed.

Lemma handle_gossip_vote_ok n payload :
  buffered_ok n -> buffered_ok (handle_gossip_vote n payload) /\
  nd_state (handle_gossip_vote n payload) = nd_state n.
Proof.
  intros Hb. unfold handle_gossip_vote. destruct (decode_signed_vote payload) as [vote| |]; [|done..].
  destruct (N.eqb_spec (sv_msg_type vote) MSG_TYPE_PRECOMMIT) as [Hm|]; [|done].
  unfold handle_inbound_precommit. destruct (_ <=? _); [done|].
  destruct (active_voter _ _) as [v|] eqn:Hv; [|done]. rewrite Hm.
  change (vote_step_of MSG_TYPE_PRECOMMIT) with (Some VoteStep.Precommit). cbn iota beta.
  destruct (verify _ _ _ _) eqn:Hs; [|done]. split; [|done].
  intros h hash bucket voter w. cbn. rewrite lookup_insert_Some.
  intros [[Heq <-]|[_ [Hl _]%map_lookup_filter_Some]]; [|by apply (Hb h hash bucket)].
  injection Heq as <- <-. rewrite lookup_insert_Some. intros [[<- <-]|[_ Hw]]; [by exists v|].
  destruct (filter _ _ !! _) as [bk|] eqn:Hf; cbn in Hw; [|by rewrite lookup_empty in Hw].
  apply map_lookup_filter_Some in Hf as [Hf _]. by apply (Hb _ _ bk).
Qed.

Lemma gossip_votes_ok l n :
  buffered_ok n -> buffered_ok (foldl handle_gossip_vote n l) /\
  nd_state (foldl handle_gossip_vote n l) = nd_state n.
Proof.
  revert n. induction l as [|p l IH]; intros n Hb; [done|]. cbn [foldl].
  destruct (handle_gossip_vote_ok n p Hb) as [Hb1 <-]. by apply IH.
Qed.

(** The signature a buffered vote becomes. *)
Definition merged_sig (s : StateStore) (already : list bytes) (kv : bytes * SignedVote)
    : option CommitSig :=
  if bool_decide (kv.1 ∈ already) then None
  else v ← active_voter s kv.1;
       Some (mkCommitSig kv.1 (val_consensus_alg_id v) (sv_round kv.2) (sv_signature kv.2)).

Lemma merge_votes_eq s already l sigs :
  foldl (merge_vote s already) sigs l = sigs ++ omap (merged_sig s already) l.
Proof.
  revert sigs. induction l as [|[a w] l IH]; intros sigs; [by rewrite app_nil_r|].
  cbn [foldl omap list_omap]. rewrite IH. unfold merge_vote, merged_sig. cbn [fst snd].
  case_bool_decide; [done|]. destruct (active_voter s a); cbn; [by rewrite <-app_assoc|done].
Qed.

Lemma merged_addresses s already l :
  NoDup l.*1 -> NoDup (cs_validator_address <$> omap (merged_sig s already) l).
Proof.
  intros Hnd. eapply sublist_NoDup; [exact Hnd|]. clear Hnd.
  induction l as [|[a w] l IH]; [constructor|]. cbn [omap list_omap fmap list_fmap].
  unfold merged_sig at 1. cbn [fst snd]. case_bool_decide; [by constructor|].
  destruct (active_voter s a); cbn; by constructor.
Qed.

(** A verified precommit of an active ML-DSA validator, as the commit check sees it. *)
Lemma sig_checked_intro s b v c :
  store_ok s -> is_ml_dsa (cs_sig_alg_id c) = true -> v ∈ active_validators s ->
  cs_validator_address c = val_operator v -> cs_sig_alg_id c = val_consensus_alg_id v ->
  signed_precommit v (bh_height (blk_header b)) (cs_round c) (compute_block_hash b) (cs_signature c) ->
  sig_checked (with_distributed_preimage 0 (state_policy s)) b c.
Proof.
  intros Hs Hml Hv Ha Hal Hsig. exists (commit_validator_of v).
  split; [rewrite Ha; by apply state_policy_active|].
  unfold ml_dsa_verify. rewrite Hal. cbn [commit_validator_of cva_sig_alg_id cva_public_key].
  rewrite Hal in Hml. rewrite bool_decide_true, Hml by done. exact Hsig.
Qed.

(** The signatures of phase 2. *)
Lemma sign_block_checked n b sigs :
  store_ok (nd_state n) -> keys_sound n ->
  sign_block (CommitPreimageMode.Distributed 0) (bh_height (blk_header b)) (compute_block_hash b)
    (snapshot_block_signers (nd_keystore n) (active_validators (nd_state n))) = Some sigs ->
  NoDup (cs_validator_address <$> sigs) /\ forall c, c ∈ sigs ->
    len (cs_validator_address c) = 32 /\
    sig_checked (with_distributed_preimage 0 (state_policy (nd_state n))) b c.
Proof.
  intros Hs Hks Hsb. unfold sign_block in Hsb. apply mapM_Some in Hsb.
  assert (cs_validator_address <$> sigs = lcs_validator_address <$>
    snapshot_block_signers (nd_keystore n) (active_validators (nd_state n))) as Hadr.
  { clear -Hsb. induction Hsb as [|x c l k Hx _ IH]; [done|]. rewrite !fmap_cons, IH. f_equal.
    unfold sign_commit in Hx. destruct (ml_dsa_sign_with_seed _ _ _); by simplify_eq/=. }
  split; [rewrite Hadr; by apply snapshot_addresses, active_operators_NoDup|].
  intros c [i Hi]%list_elem_of_lookup. destruct (Forall2_lookup_r _ _ _ _ _ Hsb Hi) as (x & Hx & Hc).
  apply list_elem_of_lookup_2, list_elem_of_omap in Hx as (v & Hv & Hx).
  destruct (get_for_pk _ _ _) as [e|] eqn:He; [|done]. cbn in Hx. injection Hx as <-.
  destruct (Hks v e Hv He) as [Hal Hsig]. destruct (active_validators_elem _ _ Hs Hv) as (_ & _ & Hl).
  unfold sign_commit, ml_dsa_sign_with_seed in Hc. cbn in Hc.
  destruct (is_ml_dsa _) eqn:Hml; [|done]. cbn in Hc. injection Hc as <-. split; [done|].
  apply (sig_checked_intro _ _ v); try done. apply Hsig.
Qed.

(** The own signatures of [b] and the votes of other validators. *)
Section merged.
Context (s : StateStore) (b : Block) (votes : gmap bytes SignedVote).
Let policy := with_distributed_preimage 0 (state_policy s).
Let already := filter (fun a => len a = 32) (sig_addresses b).
Let added := omap (merged_sig s already) (map_to_list votes).

Hypothesis Hs : store_ok s.
Hypothesis Hnd : NoDup (sig_addresses b).
Hypothesis Hown : forall c, c ∈ blk_commit_signatures b ->
  len (cs_validator_address c) = 32 /\ sig_checked policy b c.
Hypothesis Hvotes : forall voter vote, votes !! voter = Some vote -> exists v,
  active_voter s voter = Some v /\
  signed_precommit v (bh_height (blk_header b)) (sv_round vote) (compute_block_hash b)
    (sv_signature vote).

Lemma already_eq a : a ∈ already <-> a ∈ sig_addresses b.
Proof.
  unfold already. rewrite list_elem_of_filter. split; [by intros [_ ?]|]. intros Ha. split; [|done].
  apply list_elem_of_fmap in Ha as (c & -> & Hc). by apply Hown.
Qed.

Lemma merged_validates sigs :
  sigs = blk_commit_signatures b ++ added -> cqp_quorum_threshold policy <= len sigs ->
  0 < cqp_quorum_threshold policy ->
  validate_block_commit_quorum (mkBlock (blk_header b) (blk_tx_hashes b) sigs) policy = Ok tt <->
  all_ml_dsa sigs.
Proof.
  intros -> Hq Hpos. rewrite validate_commit_iff by done. split.
  { intros (_ & _ & Hck) c Hc. destruct (Hck c Hc) as (v & _ & Hm). unfold ml_dsa_verify in Hm.
    bool_hyps. congruence. }
  intros Hml. split_and!; [|done|].
  - unfold sig_addresses. cbn [blk_commit_signatures]. rewrite fmap_app. apply NoDup_app. split_and!.
    + done.
    + intros a Ha (c & -> & Hc)%list_elem_of_fmap.
      apply list_elem_of_omap in Hc as ([k w] & _ & Hc). unfold merged_sig in Hc. cbn in Hc.
      case_bool_decide as Hk; [done|]. destruct (active_voter s k); [|done]. cbn in Hc.
      injection Hc as <-. apply Hk. by apply already_eq.
    + apply merged_addresses, NoDup_fst_map_to_list.
  - intros c Hin. pose proof (Hml c Hin) as Hmc. apply elem_of_app in Hin as [Hc|Hc]; [by apply Hown|].
    apply list_elem_of_omap in Hc as ([k w] & Hin%elem_of_map_to_list & Hc).
    destruct (Hvotes k w Hin) as (v & Hv & Hsig). unfold merged_sig in Hc. cbn in Hc.
    case_bool_decide; [done|]. rewrite Hv in Hc. cbn in Hc. injection Hc as <-.
    apply active_voter_Some in Hv as [Hv Ha]. by apply (sig_checked_intro s _ v).
Qed.

Lemma merged_count :
  set_len (list_to_set (sig_addresses b) ∪ dom votes) <= len (blk_commit_signatures b ++ added).
Proof.
  transitivity (set_len (list_to_set (cs_validator_address <$> (blk_commit_signatures b ++ added)))).
  - apply set_len_mono. intros a. rewrite elem_of_union, !elem_of_list_to_set, elem_of_dom, fmap_app, elem_of_app.
    intros [Ha|[w Hw]]; [by left|]. destruct (decide (a ∈ sig_addresses b)) as [|Hn]; [by left|right].
    destruct (Hvotes a w Hw) as (v & Hv & _). apply list_elem_of_fmap.
    exists (mkCommitSig a (val_consensus_alg_id v) (sv_round w) (sv_signature w)). split; [done|].
    apply list_elem_of_omap. exists (a, w). split; [by apply elem_of_map_to_list|].
    unfold merged_sig. cbn. rewrite bool_decide_false by by rewrite already_eq. by rewrite Hv.
  - etransitivity; [apply set_len_list_le|]. unfold len. by rewrite length_fmap.
Qed.
End merged.

Lemma propose_Ok n t n1 cand :
  propose n t = Ok (n1, Some cand) ->
  let p := cand_proposal cand in let b := exe_block (pb_execution p) in
  cand_mode cand = node_mode n /\ pb_block_hash p = compute_block_hash b /\
  nd_state n1 = nd_state n /\ nd_pending_precommits n1 = nd_pending_precommits n /\
  nd_distributed_signing n1 = nd_distributed_signing n /\
  sign_block (node_mode n) (bh_height (blk_header b)) (compute_block_hash b)
    (snapshot_block_signers (nd_keystore n) (active_validators (nd_state n))) =
  Some (blk_commit_signatures b).
Proof.
  unfold propose. destruct (val_operator <$> _) as [|first rest]; [done|].
  intros Hp. apply bind_Ok in Hp as (pr & _ & Hp). destruct (negb _); [done|].
  apply bind_Ok in Hp as (prop & Hb & Hp). apply bind_Ok in Hp as (sigs & Hs & Hp).
  injection Hp as <- <-. destruct (sign_block _ _ _ _) as [sg|] eqn:Hsb; [|done].
  cbn in Hs. injection Hs as ->. unfold build_next_block in Hb.
  destruct (assemble_block _ _ _ _) as [[[s1 p1] ex]| |]; [|done..].
  cbn in Hb. injection Hb as <-. cbn in *. split_and!; done.
Qed.

(** C11 The distributed-signing path of a proposer produces valid commit proofs.  Whatever vote
    messages arrive over gossip between building a block and collecting, a block the proposer
    goes on to finalise passes the quorum check of the state it was built on exactly when all
    the signatures it carries are ML-DSA signatures (the vote of a validator with an SLH-DSA
    consensus key is buffered and merged, and spoils the block); and it is finalised whenever
    its own signatures together with the buffered votes of other active validators reach
    the quorum.  This is for a node with distributed signing on, whose keystore signs for the
    keys on the chain and whose earlier buffered votes were verified. *)
Theorem collected_block_validates n t n1 cand payloads :
  store_ok (nd_state n) -> nd_distributed_signing n = true -> keys_sound n ->
  buffered_ok n -> propose n t = Ok (n1, Some cand) ->
  let n2 := foldl handle_gossip_vote n1 payloads in
  let b := exe_block (pb_execution (cand_proposal cand)) in
  let votes := default ∅ (nd_pending_precommits n2 !! (bh_height (blk_header b), compute_block_hash b)) in
  exists n3 r, collect_votes n2 cand = Ok (n3, r) /\
    (forall p, r = Some p ->
       validate_block_commit_quorum (exe_block (pb_execution p))
         (with_distributed_preimage 0 (state_policy (nd_state n))) = Ok tt <->
       all_ml_dsa (blk_commit_signatures (exe_block (pb_execution p)))) /\
    (quorum_size (active_validator_count (nd_state n)) <=
       set_len (list_to_set (sig_addresses b) ∪ dom votes) -> is_Some r).
Proof.
  intros Hs Hd Hks Hbuf Hp n2 b votes.
  destruct (propose_Ok _ _ _ _ Hp) as (Hm & Hh & Hst & Hpp & Hds & Hsb). fold b in Hh, Hsb.
  assert (node_mode n = CommitPreimageMode.Distributed 0) as Hnm by (unfold node_mode; by rewrite Hd).
  rewrite Hnm in Hm, Hsb. destruct (sign_block_checked n b _ Hs Hks Hsb) as [Hnd Hck].
  assert (buffered_ok n1) as Hb1 by (unfold buffered_ok; by rewrite Hst, Hpp).
  destruct (gossip_votes_ok payloads n1 Hb1) as [Hb2 Hs2]. fold n2 in Hb2, Hs2. rewrite Hst in Hs2.
  set (already := filter (fun a => len a = 32) (sig_addresses b)).
  set (sigs := blk_commit_signatures b ++ omap (merged_sig (nd_state n) already) (map_to_list votes)).
  assert (exists n3, merge_distributed_precommits_into_block n2 (blk_commit_signatures b)
    (bh_height (blk_header b)) (pb_block_hash (cand_proposal cand)) (cand_mode cand) = (n3, sigs) /\
    nd_state n3 = nd_state n) as (n3 & Hmg & Hs3).
  { unfold merge_distributed_precommits_into_block. rewrite Hm, Hh, Hs2. unfold sigs, votes.
    destruct (nd_pending_precommits n2 !! _) as [bk|]; cbn [default].
    - rewrite merge_votes_eq. eexists. done.
    - rewrite map_to_list_empty, app_nil_r. by exists n2. }
  assert (active_validators (nd_state n) <> []) as Hne.
  { intros Hnil. unfold propose in Hp. by rewrite Hnil in Hp. }
  unfold collect_votes. fold b. rewrite Hmg, Hm, Hs3, from_state_store_eq by done.
  rewrite bool_decide_false by done. cbn [cqp_quorum_threshold state_policy].
  assert (forall voter vote, votes !! voter = Some vote -> exists v,
    active_voter (nd_state n) voter = Some v /\
    signed_precommit v (bh_height (blk_header b)) (sv_round vote) (compute_block_hash b)
      (sv_signature vote)) as Hv.
  { intros a w Hw. rewrite <-Hs2. unfold votes in Hw.
    destruct (nd_pending_precommits n2 !! _) as [bk|] eqn:Hbk; [by apply (Hb2 _ _ bk)|].
    cbn in Hw. by rewrite lookup_empty in Hw. }
  eexists n3, _. split; [done|]. split.
  - intros p. destruct (N.leb_spec (quorum_size (active_validator_count (nd_state n))) (len sigs));
      [|done]. intros [= <-]. apply (merged_validates _ _ votes); try done.
    pose proof (quorum_size_bounds (active_validator_count (nd_state n))). cbn. lia.
  - intros Hq. pose proof (merged_count (nd_state n) b votes Hck Hv) as Hc.
    rewrite (proj2 (N.leb_le _ _)); [done|]. etransitivity; [exact Hq|exact Hc].
Qed.
End quorum.

(** ** A sibling at the tip *)

Section sibling.
Context `{Ciborium, Shake, Verifier, Signer}.

(** What a slash does to the validators. *)
Lemma execute_slash_validators addr v h s s' :
  get_validator s addr = Some v -> execute_slash addr h s = Ok s' ->
  exists v', get_validator s' addr = Some v' /\ val_tombstoned v' = true /\
    (validator_wf v -> validator_wf v') /\
    forall op, op <> addr -> get_validator s' op = get_validator s op.
Proof.
  intros Hv He. apply (execute_slash_Ok _ v) in He as (amount & cutoff & entry & Hle & _ & ->); [|done].
  set (s1 := set_validator _ _ _).
  assert (forall op, get_validator (record_recent_slash entry (credit_treasury amount s1)) op =
    get_validator s1 op) as Hg.
  { intros op. unfold get_validator, credit_treasury.
    change (st_validators (record_recent_slash entry (credit_account TREASURY_ADDRESS amount s1)))
      with (st_validators (credit_account TREASURY_ADDRESS amount s1)). by rewrite credit_validators. }
  eexists. rewrite Hg. split; [apply get_validator_set_validator|]. split_and!; [done| |].
  - intros (? & ? & ? & ? & ? & ?). unfold validator_wf. cbn. split_and!; auto; [lia|done].
  - intros op Hop. rewrite Hg. unfold s1. rewrite get_validator_set_validator_ne by done.
    unfold get_validator. by rewrite prune_validators.
Qed.

Lemma execute_slash_total addr v h s :
  get_validator s addr = Some v -> exists s', execute_slash addr h s = Ok s'.
Proof.
  intros Hv. unfold execute_slash, get_validator in *. rewrite prune_validators, Hv. cbn. eauto.
Qed.

(** A slash changes the root, or shows a collision. *)
Lemma execute_slash_root addr v h s s' :
  chain_inv s -> map_Forall (fun _ v => validator_wf v) (rows (st_validators s)) ->
  get_validator s addr = Some v -> val_tombstoned v = false -> execute_slash addr h s = Ok s' ->
  state_root s' <> state_root s \/ collision_in (root_queries s' ++ root_queries s).
Proof.
  intros Hinv Hwf Hv Ht He.
  destruct (decide (state_root s' = state_root s)) as [Hr|]; [right|by left].
  destruct (execute_slash_validators _ _ _ _ _ Hv He) as (v' & Hv' & Ht' & Hw & Hne).
  apply (execute_slash_Ok _ v) in He as (amount & cutoff & entry & Hle & _ & Heq); [|done].
  destruct (slash_step addr v amount cutoff entry s Hv Ht Hinv) as [Hinv' _]. rewrite <-Heq in Hinv'.
  destruct (validators_bound s' s) as [Hall|?]; try done;
    [apply (ci_store _ Hinv')|apply (ci_store _ Hinv)| |].
  - intros op w Hop. destruct (decide (op = addr)) as [->|Hn].
    + unfold get_validator in Hv'. rewrite Hv' in Hop. injection Hop as <-. apply Hw.
      by eapply (Hwf addr).
    + eapply (Hwf op). specialize (Hne op Hn). unfold get_validator in Hne. by rewrite <-Hne.
  - specialize (Hall addr). congruence.
Qed.

Lemma rep_stored_at_tip c l tip :
  chain_rep c (l ++ [tip]) -> get_stored_block_by_height c (chain_height c) = Some tip.
Proof.
  intros Hc. unfold get_stored_block_by_height.
  rewrite (rep_height _ _ Hc), (cr_by_height _ _ Hc). rewrite decide_True by (unfold len; rewrite length_app; cbn; lia).
  assert (N.to_nat (ch_base_height c + len (l ++ [tip]) - ch_base_height c - 1) = length l) as ->
    by (unfold len; rewrite length_app; cbn; lia).
  rewrite lookup_app_r, Nat.sub_diag by lia. cbn. apply (cr_by_hash _ _ Hc).
  split; [|done]. apply elem_of_app. right. by apply list_elem_of_singleton.
Qed.

(** The import of a block at the height of the tip with another state root. *)
Lemma import_divergent_sibling now n l tip cand :
  chain_rep (dk_chain (nd_disk n)) (l ++ [tip]) -> store_ok (nd_state n) ->
  md_height (sb_metadata cand) = disk_height n ->
  bh_height (blk_header (sb_block cand)) = disk_height n ->
  block_hash_of cand = compute_block_hash (sb_block cand) ->
  block_hash_of cand <> block_hash_of tip ->
  md_state_root (sb_metadata cand) <> md_state_root (sb_metadata tip) ->
  import_remote_block now n cand =
    let '(n', k) := submit_equivocation_evidence_for_sibling_pair (disk_height n) tip cand n in
    (n', Err (ImportError.EquivocationDetected (disk_height n) k)).
Proof.
  intros Hc Hs Hh Hb Hhash Hne Hroot. unfold import_remote_block, classify_incoming_block.
  pose proof (rep_stored_at_tip _ _ _ Hc) as Hat. unfold block_hash_of in *. unfold disk_height in *.
  cbv beta. rewrite Hh, Hb, ?N.eqb_refl. cbn [ensure mbind outcome_bind].
  rewrite bool_decide_true by done. cbn [ensure mbind outcome_bind]. rewrite ?N.eqb_refl.
  unfold get_metadata_by_height. rewrite Hat. cbn [fmap option_fmap option_map].
  rewrite (bool_decide_false (md_block_hash (sb_metadata tip) = _)) by congruence.
  rewrite (proj2 (N.ltb_ge _ _)) by lia. rewrite ?N.eqb_refl.
  assert (local_tip_meta (dk_chain (nd_disk n)) = Some (sb_metadata tip)) as ->.
  { pose proof (rep_tip _ _ Hc) as Ht. rewrite last_snoc in Ht. unfold chain_tip in Ht.
    unfold local_tip_meta. destruct (ch_tip_hash _); [|done]. cbn in *. by rewrite Ht. }
  rewrite bool_decide_false by congruence.
  unfold resolve_sibling_at_tip, node_policy. rewrite from_state_store_eq by done.
  unfold state_equivalent. rewrite (bool_decide_false (md_state_root _ = _)) by done.
  rewrite andb_false_r. cbn [andb]. rewrite Hh. unfold read_stored_block_at_height. rewrite Hat.
  destruct (submit_equivocation_evidence_for_sibling_pair _ _ _ _) as [n' k]. done.
Qed.

Lemma local_index_lookup b c :
  NoDup (sig_addresses b) -> c ∈ blk_commit_signatures b ->
  local_index b !! (cs_validator_address c, cs_round c) = Some c.
Proof.
  intros Hnd Hin. unfold local_index. apply elem_of_list_to_map.
  - rewrite reverse_Permutation. apply (NoDup_fmap_1 fst). rewrite <-!list_fmap_compose. exact Hnd.
  - apply list_elem_of_fmap. exists c. split; [done|]. by apply elem_of_reverse.
Qed.

(** C37 Evidence found while importing is executed outside of any block.  Take a node whose tip
    carries the signatures of any set of distinct validators, and a block at the height of the
    tip with another state root, whose only signature is by one of these validators, in the
    same round.  The block is rejected, yet the validator is slashed in the node's live state.
    No quorum is asked of the block, the chain stays as it was, and the state no longer has
    the root it had (or two hashed inputs collide).  This is for a registered validator that is
    not tombstoned yet and whose two signatures verify, a block that carries its own hash,
    and evidence that CBOR reads back as it was written. *)
Theorem sibling_import_slashes_outside_blocks now n l tip cand c1 c2 v :
  let h := disk_height n in let a := cs_validator_address c2 in
  let ev := sibling_evidence h (block_hash_of tip) (block_hash_of cand) c1 c2 in
  chain_inv (nd_state n) -> map_Forall (fun _ v => validator_wf v) (rows (st_validators (nd_state n))) ->
  chain_rep (dk_chain (nd_disk n)) (l ++ [tip]) ->
  md_height (sb_metadata cand) = h -> bh_height (blk_header (sb_block cand)) = h ->
  block_hash_of cand = compute_block_hash (sb_block cand) -> len (block_hash_of tip) = 32 ->
  block_hash_of cand <> block_hash_of tip ->
  md_state_root (sb_metadata cand) <> md_state_root (sb_metadata tip) ->
  NoDup (sig_addresses (sb_block tip)) -> c1 ∈ blk_commit_signatures (sb_block tip) ->
  blk_commit_signatures (sb_block cand) = [c2] ->
  cs_validator_address c1 = a -> cs_round c1 = cs_round c2 -> cs_round c2 <= u32_max ->
  get_validator (nd_state n) a = Some v -> val_tombstoned v = false -> len a = 32 ->
  signed_precommit v h (cs_round c1) (block_hash_of tip) (cs_signature c1) ->
  signed_precommit v h (cs_round c2) (block_hash_of cand) (cs_signature c2) ->
  cbor_roundtrips (evidence_value ev) ->
  exists s', execute_slash a h (nd_state n) = Ok s' /\
    import_remote_block now n cand =
      (n <| nd_state := s' |>, Err (ImportError.EquivocationDetected h 1)) /\
    (state_root s' <> state_root (nd_state n) \/
     collision_in (root_queries s' ++ root_queries (nd_state n))).
Proof.
  intros h a ev Hinv Hwf Hc Hh Hb Hhash Hl Hne Hroot Hnd Ht1 Ht2 Ha Hr Hru Hv Htb Hla Hs1 Hs2 Hcb.
  destruct (execute_slash_total a v h _ Hv) as [s' He]. exists s'. split; [done|].
  split; [|by eapply execute_slash_root].
  rewrite (import_divergent_sibling now n l tip) by (done || apply (ci_store _ Hinv)).
  unfold submit_equivocation_evidence_for_sibling_pair. rewrite Ht2. cbn [foldl].
  unfold submit_one_evidence. fold a h. rewrite <-Ha, <-Hr, local_index_lookup by done.
  rewrite Ha, Hla, (N.eqb_refl 32). cbn [snd]. fold ev.
  assert (ev = vote_pair a h (cs_round c1) (block_hash_of tip) (block_hash_of cand)
    (cs_signature c1) (cs_signature c2)) as Hev by (unfold ev, sibling_evidence, vote_pair; by rewrite <-Hr).
  rewrite Hev in Hcb |- *. rewrite (double_vote_slashed _ _ v); try done; try congruence.
  - by rewrite He.
  - unfold h, disk_height. rewrite (rep_height _ _ Hc). apply (cr_max _ _ Hc).
  - rewrite Hhash. apply compute_block_hash_len.
  - split; lia.
Qed.
End sibling.

(** ** Examples *)

#[local] Existing Instance example_shake.
#[local] Existing Instance example_verifier.

Module NodeEx.
(** Signatures the example verifier accepts: the message itself. *)
Definition signer : Signer := fun _ _ msg => msg.
#[local] Existing Instance signer.

Definition header (height timestamp : N) (state_root : bytes) : BlockHeader :=
  mkBlockHeader 1 height (replicate 32 x00) state_root (replicate 32 x00) timestamp Ex.alice
    (replicate 32 x00).
Definition precommit (height : N) (b : Block) (a : bytes) : CommitSig :=
  mkCommitSig a AlgId.MlDsa65 0
    (vote_preimage viper_research_1 height 0 VoteStep.Precommit (compute_block_hash b)).
Definition block_with (height timestamp : N) (state_root : bytes) (signers : list bytes) : Block :=
  let h := header height timestamp state_root in
  mkBlock h [] (precommit height (mkBlock h [] []) <$> signers).

Definition parent : bytes := replicate 32 x00.
Definition root_a : bytes := replicate 32 x01.
Definition root_b : bytes := replicate 32 x02.
Definition both : list bytes := [Ex.alice; Ex.bob].

(** Two blocks of height 1 with both validators' signatures. *)
Definition fork_a : Block := block_with 1 10 root_a both.
Definition fork_b : Block := block_with 1 20 root_b both.

Lemma genesis_ok : store_ok Ex.genesis.
Proof. apply ci_store, Ex.genesis_inv. Qed.

Definition stored (b : Block) : StoredBlock :=
  let h := blk_header b in
  mkStoredBlock b (mkBlockMetadata (compute_block_hash b) (bh_height h) (bh_prev_hash h)
    (bh_state_root h) (bh_tx_root h) (bh_timestamp h) 0 0 0 0 0) [].

(** Alice's node before the first block. *)
Definition key : KeystoreEntry := mkKeystoreEntry AlgId.MlDsa65 (replicate 32 x05) 1 [x2a] None.
Definition node_at (a : bytes) (k : KeystoreEntry) (s : StateStore) (d : Disk) : LiveNode :=
  mkLiveNode Ex.fee_params [] true s Mempool_new d
    (Some (LocalProposer_new a Ex.config parent)) {[ a := [k] ]} ∅ ∅
    (BlockTreeCache_new 16 60) (mkSenderBudget 50 60 ∅).
Definition empty_disk : Disk := mkDisk (ChainStore_new parent) ∅ ∅.
Definition node : LiveNode := node_at Ex.alice key Ex.genesis empty_disk.

(** The node of Bob, who proposes the first block. *)
Definition bob_key : KeystoreEntry := mkKeystoreEntry AlgId.MlDsa65 (replicate 32 x06) 1 [x2b] None.
Definition proposer_node : LiveNode := node_at Ex.bob bob_key Ex.genesis empty_disk.

Definition alice : ValidatorRecord := Ex.validator Ex.alice 500 ValidatorStatus.Active x2a.

(** Two proposals with Alice's signature or none. *)
Definition prop_a : StoredBlock := stored (block_with 1 10 root_a []).
Definition prop_b : StoredBlock := stored (block_with 1 20 root_b []).
Definition precommits : EquivocationEvidence :=
  let v1 := precommit_of alice key prop_a in let v2 := precommit_of alice key prop_b in
  vote_pair (val_operator alice) (disk_height node + 1) 0 (sv_block_hash v1) (sv_block_hash v2)
    (sv_signature v1) (sv_signature v2).

Lemma active : active_validators Ex.genesis =
  [alice; Ex.validator Ex.bob 300 ValidatorStatus.Active x2b].
Proof. by vm_compute. Qed.

Lemma alice_active : alice ∈ active_validators Ex.genesis.
Proof. rewrite active. left. Qed.

Lemma alice_signs : signs_for node alice key.
Proof.
  split_and!; [apply alice_active|by vm_compute|done|done|].
  intros msg. unfold verify, example_verifier, sign, signer. by apply bool_decide_true.
Qed.

Lemma node_keys : keys_sound proposer_node.
Proof.
  intros v e Hv He. change (nd_state proposer_node) with Ex.genesis in Hv. rewrite active in Hv.
  assert (forall msg, verify (val_consensus_alg_id v) (val_consensus_pk v) msg
    (sign (ke_sig_alg_id e) (ke_commit_seed e) msg) = true) as Hs.
  { intros msg. unfold verify, example_verifier, sign, signer. by apply bool_decide_true. }
  split; [|done]. apply elem_of_cons in Hv as [->|Hv%list_elem_of_singleton].
  - by vm_compute in He.
  - subst v. by vm_compute in He; injection He as <-.
Qed.

(** A chain of one block with the signatures of a quorum, and a sibling that only Bob signed. *)
Definition tip : StoredBlock := stored (block_with 1 10 root_a both).
Definition sibling : StoredBlock := stored (block_with 1 20 root_b [Ex.bob]).
Definition forked_node : LiveNode :=
  node_at Ex.alice key Ex.genesis (mkDisk (push_stored_block tip (ChainStore_new parent)) ∅ ∅).

Lemma tip_rep : chain_rep (dk_chain (nd_disk forked_node)) ([] ++ [tip]).
Proof.
  assert (append_stored_block (ChainStore_new parent) tip =
    Ok (push_stored_block tip (ChainStore_new parent), sb_metadata tip)) as Ha.
  { unfold append_stored_block.
    assert (validate_stored_block (ChainStore_new parent) tip = Ok tt) as -> by by vm_compute. done. }
  by destruct (append_rep _ [] _ _ _ (rep_empty parent 0 eq_refl) Ha) as (_ & _ & Hr).
Qed.

Definition bob_sig (sb : StoredBlock) : CommitSig := precommit 1 (sb_block sb) Ex.bob.
Lemma tip_signers : NoDup (sig_addresses (sb_block tip)).
Proof. apply (bool_decide_unpack _). by vm_compute. Qed.

Lemma tip_bob : bob_sig tip ∈ blk_commit_signatures (sb_block tip).
Proof. right. left. Qed.

Definition sibling_codec : Ciborium :=
  example_cbor (evidence_value (sibling_evidence (disk_height forked_node) (block_hash_of tip)
    (block_hash_of sibling) (bob_sig tip) (bob_sig sibling))).
Definition bob : ValidatorRecord := Ex.validator Ex.bob 300 ValidatorStatus.Active x2b.

Lemma genesis_validators_wf :
  map_Forall (fun _ v => validator_wf v) (rows (st_validators Ex.genesis)).
Proof.
  assert (Forall (fun v => v ∈ Ex.validators) (map_to_list (rows (st_validators Ex.genesis))).*2) as Hsub.
  { vm_compute. repeat constructor. }
  intros k v Hv. assert (v ∈ Ex.validators) as Hin.
  { rewrite Forall_forall in Hsub. apply Hsub, list_elem_of_fmap. exists (k, v).
    split; [done|by apply elem_of_map_to_list]. }
  unfold Ex.validators in Hin. repeat (apply elem_of_cons in Hin as [->|Hin]); [..|by apply elem_of_nil in Hin].
  all: unfold validator_wf, chunk_ok; cbn; split_and!; done.
Qed.

(** The block Bob's node builds, and Alice's precommit for it. *)
Definition built (cbor : Ciborium) : option (LiveNode * Candidate) :=
  match propose proposer_node 7 with Ok (n, Some c) => Some (n, c) | _ => None end.
Definition alice_vote : SignedVote :=
  match built (example_codec []) with
  | Some (_, c) =>
      let hash := pb_block_hash (cand_proposal c) in
      mkSignedVote MSG_TYPE_PRECOMMIT 1 0 hash Ex.alice
        (vote_preimage viper_research_1 1 0 VoteStep.Precommit hash)
  | None => mkSignedVote 0 0 0 [] [] []
  end.
Definition vote_codec : Ciborium := example_cbor (encode_signed_vote alice_vote).
End NodeEx.

Lemma conflicting_commits_accountable_witness :
  exists guilty : gset bytes, active_validator_count Ex.genesis < 3 * set_len guilty /\
    forall a, a ∈ guilty -> is_Some (get_validator Ex.genesis a).
Proof.
  pose (cbor := example_codec []).
  destruct (conflicting_commits_accountable (H := cbor) Ex.genesis NodeEx.fork_a NodeEx.fork_b
    NodeEx.genesis_ok) as (guilty & Hlt & Hg); [by vm_compute..| |].
  { intros Heq. by vm_compute in Heq. }
  exists guilty. split; [done|]. intros a Ha. destruct (Hg a Ha) as (v & _ & _ & Hv & _). by exists v.
Defined.

Lemma honest_node_signs_conflicting_votes_witness :
  let cbor := example_cbor (evidence_value NodeEx.precommits) in let sig := NodeEx.signer in
  (exists n1 out1 n2 out2,
    handle_inbound_block 0 NodeEx.node NodeEx.prop_a = Ok (n1, out1) /\
    Sent.Vote (precommit_of NodeEx.alice NodeEx.key NodeEx.prop_a) ∈ out1 /\
    handle_inbound_block 0 n1 NodeEx.prop_b = Ok (n2, out2) /\
    Sent.Vote (precommit_of NodeEx.alice NodeEx.key NodeEx.prop_b) ∈ out2) /\
  apply_submit_equivocation_evidence Ex.genesis (encode_equivocation_evidence NodeEx.precommits) 1 =
  execute_slash (val_operator NodeEx.alice) 1 Ex.genesis.
Proof.
  intros cbor sig.
  destruct (honest_node_signs_conflicting_votes 0 NodeEx.node NodeEx.prop_a NodeEx.prop_b
    NodeEx.alice NodeEx.key NodeEx.genesis_ok) as (n1 & o1 & n2 & o2 & H1 & H2 & H3 & H4 & Hslash);
    [done|apply NodeEx.alice_signs|done|by vm_compute|by vm_compute|by vm_compute|by vm_compute
    |by vm_compute| | |].
  - intros Heq. by vm_compute in Heq.
  - intros k Hk. by apply elem_of_empty in Hk.
  - split; [exists n1, o1, n2, o2; exact (conj H1 (conj H2 (conj H3 H4)))|].
    apply (Hslash Ex.genesis 1); [by vm_compute|split; by vm_compute|reflexivity].
Defined.

Lemma collected_block_validates_witness :
  let cbor := NodeEx.vote_codec in let sig := NodeEx.signer in
  exists n1 cand n3 p, propose NodeEx.proposer_node 7 = Ok (n1, Some cand) /\
    collect_votes (foldl handle_gossip_vote n1 [[x00]]) cand = Ok (n3, Some p) /\
    validate_block_commit_quorum (exe_block (pb_execution p))
      (with_distributed_preimage 0 (state_policy Ex.genesis)) = Ok tt.
Proof.
  intros cbor sig.
  assert (match propose NodeEx.proposer_node 7 with
          | Ok (n1, Some cand) =>
              let n2 := foldl handle_gossip_vote n1 [[x00]] in
              let b := exe_block (pb_execution (cand_proposal cand)) in
              let votes := default ∅ (nd_pending_precommits n2 !!
                             (bh_height (blk_header b), compute_block_hash b)) in
              quorum_size (active_validator_count Ex.genesis) <=
                set_len (list_to_set (sig_addresses b) ∪ dom votes) /\
              match collect_votes n2 cand with
              | Ok (_, Some p) => Forall (fun c => is_ml_dsa (cs_sig_alg_id c) = true)
                                    (blk_commit_signatures (exe_block (pb_execution p)))
              | _ => False
              end
          | _ => False
          end) as Hq by (vm_compute; split; [done|repeat constructor]).
  destruct (propose NodeEx.proposer_node 7) as [[n1 [cand|]]| |] eqn:Hp; [|destruct Hq..].
  destruct (collected_block_validates NodeEx.proposer_node 7 n1 cand [[x00]] NodeEx.genesis_ok eq_refl
    NodeEx.node_keys) as (n3 & r & Hc & Hv & Hsome);
    [|exact Hp|].
  { intros h hash bk voter vote Hl.
    change (nd_pending_precommits NodeEx.proposer_node)
      with (∅ : gmap (N * bytes) (gmap bytes SignedVote)) in Hl. by rewrite lookup_empty in Hl. }
  destruct Hq as [Hq Hml]. destruct (Hsome Hq) as [p ->]. exists n1, cand, n3, p. rewrite Hc in Hml.
  exact (conj eq_refl (conj Hc (proj2 (Hv p eq_refl) (proj1 (Forall_forall _ _) Hml)))).
Defined.

Lemma sibling_import_slashes_outside_blocks_witness :
  let cbor := NodeEx.sibling_codec in
  exists s', execute_slash Ex.bob 1 Ex.genesis = Ok s' /\
    import_remote_block 0 NodeEx.forked_node NodeEx.sibling =
      (NodeEx.forked_node <| nd_state := s' |>, Err (ImportError.EquivocationDetected 1 1)) /\
    (state_root s' <> state_root Ex.genesis \/
     collision_in (root_queries s' ++ root_queries Ex.genesis)).
Proof.
  intros cbor.
  refine (sibling_import_slashes_outside_blocks 0 NodeEx.forked_node [] NodeEx.tip NodeEx.sibling
    (NodeEx.bob_sig NodeEx.tip) (NodeEx.bob_sig NodeEx.sibling) NodeEx.bob Ex.genesis_inv
    NodeEx.genesis_validators_wf NodeEx.tip_rep _ _ _ _ _ _ NodeEx.tip_signers NodeEx.tip_bob _ _ _ _ _ _ _ _ _ _);
    by vm_compute.
Defined.
