(* ===== verification/AdmissionProps.v ===== *)
(** * The per-sender admission budget of the node. *)

From S2P Require Import Prelude Crypto Types Cbor Payloads Tx FeeMarket Leaves Store StoreInv.
From S2P Require Import ApplyAccounts ApplyValidators Governance Archival ApplyTx Mempool Block.
From S2P Require Import StateRoot Chain Recovery Examples Round Commit Keystore BlockTree Proposer Node.

Section budget.
Context `{Ciborium, Shake, Verifier}.
Context (a : Address) (t0 max window : N).

Definition sent_by (raw : bytes) : bool :=
  match decode_tx raw with Ok tx => bool_decide (tx_sender tx = a) | _ => false end.

(** A sequence of transactions with the times they arrive at, and how many of [a] are
    admitted. *)
Definition handle_all (n : LiveNode) (l : list (N * bytes)) : outcome unit (LiveNode * N) :=
  foldM (fun '(n, k) '(now, raw) =>
    '(n', admitted) ← handle_inbound_transaction now n raw;
    Ok (n', if admitted && sent_by raw then k + 1 else k)) (n, 0) l.

(** [base] is what was admitted before the current window of [a] began. *)
Definition counted (base : N) (n : LiveNode) (k : N) : Prop :=
  sbu_max_txs_per_window (nd_sender_budget n) = max /\ sbu_window (nd_sender_budget n) = window /\
  match sbu_admitted (nd_sender_budget n) !! a with
  | None => k = 0
  | Some (c, w) => c <= max /\ if w <? t0 then base = max /\ k <= c else k <= base + c
  end.

Lemma record_counted base n now k b' :
  counted base n k -> 0 < max -> t0 <= now -> now < t0 + window ->
  check_sender_budget now (nd_sender_budget n) a = false ->
  record_sender_admission (E := unit) now a (nd_sender_budget n) = Ok b' ->
  forall n', nd_sender_budget n' = b' -> counted base n' (k + 1).
Proof.
  intros (Hm & Hw & He) Hpos Ht1 Ht2 Hck Hrec n' Hn. unfold counted. rewrite Hn. clear n' Hn.
  unfold check_sender_budget in Hck. unfold record_sender_admission in Hrec.
  rewrite Hm, ?Hw in *. rewrite (proj2 (N.eqb_neq max 0)) in * by lia.
  destruct (sbu_admitted (nd_sender_budget n) !! a) as [[c w]|]; cbn [default from_option id] in *.
  - destruct He as [Hc He]. destruct (N.leb_spec window (now - w)).
    + cbn in Hrec. injection Hrec as <-. cbn. rewrite lookup_insert_eq. split_and!; [done..|lia|].
      rewrite (proj2 (N.ltb_ge _ _)) by lia. destruct (N.ltb_spec w t0); [|lia].
      destruct He as [-> He]. lia.
    + apply bind_Ok in Hrec as (entry & Hentry & [= <-]).
      apply bind_Ok in Hentry as (c' & [-> _]%add_checked_Ok & [= <-]).
      rewrite (proj2 (N.ltb_lt _ _)) in Hck by done. cbn in Hck. apply N.leb_gt in Hck.
      cbn. rewrite lookup_insert_eq. split_and!; [done..|lia|].
      destruct (w <? t0); [destruct He as [-> He]; split; [done|]; lia|lia].
  - rewrite N.sub_diag, (proj2 (N.leb_gt _ _)) in Hrec by lia. cbn in Hrec. injection Hrec as <-.
    cbn. rewrite lookup_insert_eq. split_and!; [done..|lia|].
    rewrite (proj2 (N.ltb_ge _ _)) by lia. lia.
Qed.

(** One transaction. *)
Lemma handle_counted base n now raw k n' admitted :
  counted base n k -> 0 < max -> t0 <= now -> now < t0 + window ->
  handle_inbound_transaction now n raw = Ok (n', admitted) ->
  counted base n' (if admitted && sent_by raw then k + 1 else k).
Proof.
  intros Hc Hpos Ht1 Ht2. unfold handle_inbound_transaction, sent_by.
  destruct (decode_tx raw) as [tx|e|]; cbn iota beta zeta.
  2,3: destruct (try_admit _ _ _ _) as [[pool adm]|e'|]; intros Hr; [|..|done];
    injection Hr as <- <-; by rewrite ?andb_false_r.
  destruct (check_sender_budget _ _ _) eqn:Hck; [by intros [= <- <-]|].
  destruct (try_admit _ _ _ _) as [[pool adm]|e'|]; [|by intros [= <- <-]|done].
  intros (b' & Hrec & [= <- <-])%bind_Ok. cbn [andb]. cbn in Hrec.
  case_bool_decide as Hs; [rewrite Hs in Hck, Hrec; by eapply record_counted|].
  destruct Hc as (Hm & Hw & He). unfold counted. cbn. unfold record_sender_admission in Hrec.
  rewrite Hm, (proj2 (N.eqb_neq max 0)) in Hrec by lia.
  destruct (default _ _) as [c w]. apply bind_Ok in Hrec as (entry & _ & [= <-]). cbn.
  by rewrite lookup_insert_ne.
Qed.

Lemma handle_all_counted base l n k n' k' :
  counted base n k -> 0 < max -> Forall (fun p => t0 <= p.1 /\ p.1 < t0 + window) l ->
  foldM (fun '(n, k) '(now, raw) =>
    '(n', admitted) ← handle_inbound_transaction now n raw;
    Ok (n', if admitted && sent_by raw then k + 1 else k)) (n, k) l = Ok (n', k') ->
  counted base n' k'.
Proof.
  intros Hc Hpos Hl. revert n k Hc.
  induction Hl as [|[now raw] l [Ht1 Ht2] _ IH]; intros n k Hc; cbn [foldM].
  { by intros [= <- <-]. }
  intros ([n1 k1] & Hstep & Hrest)%bind_Ok.
  apply bind_Ok in Hstep as ([n2 adm] & Hh & [= <- <-]).
  eapply IH; [|exact Hrest]. by eapply handle_counted.
Qed.

(** The admission budget bounds what one sender gets into the pool: of any sequence
    of transactions arriving within the length of one window, at most [max] of a sender
    unknown to the budget are admitted, and at most [2 * max] of any sender (the window
    is a fixed one, which restarts at the first admission after it has run out). *)
Lemma sender_budget_bounded n l n' k :
  sbu_max_txs_per_window (nd_sender_budget n) = max -> sbu_window (nd_sender_budget n) = window ->
  0 < max -> (forall c w, sbu_admitted (nd_sender_budget n) !! a = Some (c, w) -> c <= max) ->
  Forall (fun p => t0 <= p.1 /\ p.1 < t0 + window) l ->
  handle_all n l = Ok (n', k) ->
  k <= 2 * max /\ (sbu_admitted (nd_sender_budget n) !! a = None -> k <= max).
Proof.
  intros Hm Hw Hpos Hb Hl Hr. split.
  - assert (counted max n 0) as Hc.
    { split_and!; [done..|].
      destruct (sbu_admitted (nd_sender_budget n) !! a) as [[c w]|] eqn:Ha; [|done].
      split; [by eapply Hb|]. destruct (w <? t0); [split; [done|]|]; lia. }
    eapply handle_all_counted in Hr as (_ & _ & Hk); [|done..].
    destruct (sbu_admitted (nd_sender_budget n') !! a) as [[c w]|]; [|lia]. destruct Hk as [Hcm Hk]. destruct (w <? t0); lia.
  - intros Hn. assert (counted 0 n 0) as Hc by (split_and!; [done..|by rewrite Hn]).
    eapply handle_all_counted in Hr as (_ & _ & Hk); [|done..].
    destruct (sbu_admitted (nd_sender_budget n') !! a) as [[c w]|]; [|lia]. destruct Hk as [Hcm Hk]. destruct (w <? t0); lia.
Qed.
End budget.

(** ** Example: the signed transfer arrives twice *)

#[local] Existing Instance example_shake.
#[local] Existing Instance example_verifier.
#[local] Existing Instance Ex.cbor.

Module AdmissionEx.
Definition node : LiveNode :=
  mkLiveNode Ex.fee_params [] false Ex.genesis Mempool_new (mkDisk (ChainStore_new []) ∅ ∅) None ∅ ∅ ∅
    (BlockTreeCache_new 16 60) (mkSenderBudget 1 60 ∅).
Definition arrivals : list (N * bytes) := [(100, Ex.transfer_raw); (110, Ex.transfer_raw)].
End AdmissionEx.

Lemma sender_budget_bounded_witness : exists n' k,
  handle_all Ex.alice AdmissionEx.node AdmissionEx.arrivals = Ok (n', k) /\ k = 1 /\ k <= 2 * 1.
Proof.
  assert (match handle_all Ex.alice AdmissionEx.node AdmissionEx.arrivals with
          | Ok (_, k) => k = 1 | _ => False end) as Hrun by (vm_compute; done).
  destruct (handle_all Ex.alice AdmissionEx.node AdmissionEx.arrivals) as [[n' k]| |] eqn:Hr;
    [|destruct Hrun..].
  exists n', k. split; [done|]. split; [done|].
  refine (proj1 (sender_budget_bounded Ex.alice 100 1 60 AdmissionEx.node AdmissionEx.arrivals n' k
    eq_refl eq_refl eq_refl _ _ Hr)).
  - intros c w Hl. by vm_compute in Hl.
  - repeat constructor; by vm_compute.
Defined.
