(* ===== verification/SlhDsa.v ===== *)
(** * vendor/slh-dsa: the hash-based signature scheme SLH-DSA (FIPS 205).

    Addresses ([address.rs]), base-2^b digits and the split of the message digest
    ([util.rs]), the three hash suites ([hashes/]), WOTS+ ([wots.rs]), XMSS ([xmss.rs]),
    the hypertree ([hypertree.rs]), FORS ([fors.rs]), keys and signatures with their byte
    encodings ([signing_key.rs], [verifying_key.rs], [signature_encoding.rs]) and the
    twelve parameter sets.

    SHAKE-256, SHA-2 and HMAC come from external crates: the classes [Shake] and [Sha2],
    whose only laws are output lengths.  An [Array<T, L>] is a list; that it has [L]
    elements is the predicate [signature_wf] and the length lemmas of [SlhDsaProps].
    Loop counters and array sizes are [nat]; [u16], [u32] and [u64] values are [N]. An
    overflow, a failed [debug_assert!], an index out of range and an [expect] on an error
    are all [Panic]. *)

From S2P Require Import Prelude Crypto.
Local Open Scope nat_scope.
Local Open Scope N_scope.

(** ** Language primitives *)

(** [debug_assert!(b)] *)
Definition debug_assert {E} (b : bool) : outcome E unit := if b then Ok tt else Panic.

(** [o.unwrap()], [o.expect(..)] and [v[i]]. *)
Definition unwrap {E A} (o : option A) : outcome E A :=
  match o with Some a => Ok a | None => Panic end.

(** [r.unwrap()] *)
Definition unwrap_result {E F A} (m : outcome E A) : outcome F A :=
  match m with Ok a => Ok a | Err _ | Panic => Panic end.

(** [a * b], and [a << s] on a [w]-bit integer. *)
Definition mul_checked {E} (m a b : N) : outcome E N := if a * b <=? m then Ok (a * b) else Panic.
Definition shl_checked {E} (w a s : N) : outcome E N :=
  if s <? w then Ok (N.shiftl a s mod 2 ^ w) else Panic.
Definition shr_checked {E} (w a s : N) : outcome E N :=
  if s <? w then Ok (N.shiftr a s) else Panic.

(** [v[a..b]] *)
Definition slice {A} (a b : nat) (l : list A) : list A := take (b - a)%nat (drop a l).

(** [Array::<_, L>::from_fn(g)], and a loop [for j in 0..L] that fills an array. *)
Definition from_fn {E A} (n : nat) (g : nat -> outcome E A) : outcome E (list A) :=
  collect g (seq 0 n).

(** The full chunks of [l.chunks_exact(n)] and what is left over. *)
Definition chunks_exact {A} (n : nat) (l : list A) : list (list A) :=
  (fun i => slice (i * n) ((i + 1) * n) l)%nat <$> seq 0 (length l / n).
Definition chunks_remainder {A} (n : nat) (l : list A) : list A := drop (length l / n * n)%nat l.

(** [l.chunks(n)]: the last chunk may be shorter. *)
Definition chunks {A} (n : nat) (l : list A) : list (list A) :=
  (fun i => slice (i * n) ((i + 1) * n) l)%nat <$> seq 0 ((length l + (n - 1)) / n).

(** [dst.copy_from_slice(src)] *)
Definition copy_from_slice {E} (dst src : bytes) : outcome E bytes :=
  if bool_decide (length dst = length src) then Ok src else Panic.

(** [buf.chunks_exact_mut(n)] with every chunk rewritten by [w]. *)
Definition rewrite_chunks {E} (n : nat) (w : N -> bytes -> outcome E bytes) (buf : bytes)
    : outcome E bytes :=
  cs ← collect_at w 0 (chunks_exact n buf);
  Ok (concat cs ++ chunks_remainder n buf).

(** [.zip(items.iter()).for_each(|(buf, x)| write(x, buf))]: chunks beyond the items stay. *)
Definition zip_writer {E A} (items : list A) (write : A -> bytes -> outcome E bytes)
    (i : N) (buf : bytes) : outcome E bytes :=
  match items !! N.to_nat i with
  | Some x => write x buf
  | None => Ok buf
  end.

(** [signature::Error]: it carries no detail. *)
Inductive Error : Set := SignatureError.

(** ** [address.rs]

    The type tag and the padding of an address are private constants; [as_ref] writes
    them.  Fields are big-endian. *)

Module WotsHash.
Record t := mk {
  layer_adrs : N; tree_adrs_high : N; tree_adrs_low : N;
  key_pair_adrs : N; chain_adrs : N; hash_adrs : N
}.
Definition TYPE_CONST : N := 0.
Definition as_ref (a : t) : bytes :=
  be_bytes 4 (layer_adrs a) ++ be_bytes 4 (tree_adrs_high a) ++ be_bytes 8 (tree_adrs_low a)
    ++ be_bytes 4 TYPE_CONST ++ be_bytes 4 (key_pair_adrs a) ++ be_bytes 4 (chain_adrs a)
    ++ be_bytes 4 (hash_adrs a).
Definition default : t := mk 0 0 0 0 0 0.
Global Instance eta : Settable t := fun x =>
  mk (layer_adrs x) (tree_adrs_high x) (tree_adrs_low x) (key_pair_adrs x) (chain_adrs x)
    (hash_adrs x).
End WotsHash.

Module WotsPk.
Record t := mk {
  layer_adrs : N; tree_adrs_high : N; tree_adrs_low : N; key_pair_adrs : N
}.
Definition TYPE_CONST : N := 1.
Definition as_ref (a : t) : bytes :=
  be_bytes 4 (layer_adrs a) ++ be_bytes 4 (tree_adrs_high a) ++ be_bytes 8 (tree_adrs_low a)
    ++ be_bytes 4 TYPE_CONST ++ be_bytes 4 (key_pair_adrs a) ++ be_bytes 8 0.
End WotsPk.

Module HashTree.
Record t := mk {
  layer_adrs : N; tree_adrs_high : N; tree_adrs_low : N; tree_height : N; tree_index : N
}.
Definition TYPE_CONST : N := 2.
Definition as_ref (a : t) : bytes :=
  be_bytes 4 (layer_adrs a) ++ be_bytes 4 (tree_adrs_high a) ++ be_bytes 8 (tree_adrs_low a)
    ++ be_bytes 4 TYPE_CONST ++ be_bytes 4 0 ++ be_bytes 4 (tree_height a)
    ++ be_bytes 4 (tree_index a).
Global Instance eta : Settable t := fun x =>
  mk (layer_adrs x) (tree_adrs_high x) (tree_adrs_low x) (tree_height x) (tree_index x).
End HashTree.

Module ForsTree.
Record t := mk {
  tree_adrs_high : N; tree_adrs_low : N; key_pair_adrs : N; tree_height : N; tree_index : N
}.
Definition TYPE_CONST : N := 3.
Definition as_ref (a : t) : bytes :=
  be_bytes 4 0 ++ be_bytes 4 (tree_adrs_high a) ++ be_bytes 8 (tree_adrs_low a)
    ++ be_bytes 4 TYPE_CONST ++ be_bytes 4 (key_pair_adrs a) ++ be_bytes 4 (tree_height a)
    ++ be_bytes 4 (tree_index a).
Definition new (tree_adrs_low key_pair_adrs : N) : t := mk 0 tree_adrs_low key_pair_adrs 0 0.
Global Instance eta : Settable t := fun x =>
  mk (tree_adrs_high x) (tree_adrs_low x) (key_pair_adrs x) (tree_height x) (tree_index x).
End ForsTree.

Module ForsRoots.
Record t := mk { tree_adrs_high : N; tree_adrs_low : N; key_pair_adrs : N }.
Definition TYPE_CONST : N := 4.
Definition as_ref (a : t) : bytes :=
  be_bytes 4 0 ++ be_bytes 4 (tree_adrs_high a) ++ be_bytes 8 (tree_adrs_low a)
    ++ be_bytes 4 TYPE_CONST ++ be_bytes 4 (key_pair_adrs a) ++ be_bytes 8 0.
End ForsRoots.

Module WotsPrf.
Record t := mk {
  layer_adrs : N; tree_adrs_high : N; tree_adrs_low : N; key_pair_adrs : N; chain_adrs : N
}.
Definition TYPE_CONST : N := 5.
Definition as_ref (a : t) : bytes :=
  be_bytes 4 (layer_adrs a) ++ be_bytes 4 (tree_adrs_high a) ++ be_bytes 8 (tree_adrs_low a)
    ++ be_bytes 4 TYPE_CONST ++ be_bytes 4 (key_pair_adrs a) ++ be_bytes 4 (chain_adrs a)
    ++ be_bytes 4 0.
Global Instance eta : Settable t := fun x =>
  mk (layer_adrs x) (tree_adrs_high x) (tree_adrs_low x) (key_pair_adrs x) (chain_adrs x).
End WotsPrf.

Module ForsPrf.
Record t := mk {
  tree_adrs_high : N; tree_adrs_low : N; key_pair_adrs : N; tree_index : N
}.
Definition TYPE_CONST : N := 6.
Definition as_ref (a : t) : bytes :=
  be_bytes 4 0 ++ be_bytes 4 (tree_adrs_high a) ++ be_bytes 8 (tree_adrs_low a)
    ++ be_bytes 4 TYPE_CONST ++ be_bytes 4 (key_pair_adrs a) ++ be_bytes 4 0
    ++ be_bytes 4 (tree_index a).
Global Instance eta : Settable t := fun x =>
  mk (tree_adrs_high x) (tree_adrs_low x) (key_pair_adrs x) (tree_index x).
End ForsPrf.

Definition wots_prf_adrs (a : WotsHash.t) : WotsPrf.t :=
  WotsPrf.mk (WotsHash.layer_adrs a) (WotsHash.tree_adrs_high a) (WotsHash.tree_adrs_low a)
    (WotsHash.key_pair_adrs a) 0.
Definition pk_adrs (a : WotsHash.t) : WotsPk.t :=
  WotsPk.mk (WotsHash.layer_adrs a) (WotsHash.tree_adrs_high a) (WotsHash.tree_adrs_low a)
    (WotsHash.key_pair_adrs a).
Definition tree_adrs (a : WotsHash.t) : HashTree.t :=
  HashTree.mk (WotsHash.layer_adrs a) (WotsHash.tree_adrs_high a) (WotsHash.tree_adrs_low a) 0 0.
Definition fors_prf_adrs (a : ForsTree.t) : ForsPrf.t :=
  ForsPrf.mk (ForsTree.tree_adrs_high a) (ForsTree.tree_adrs_low a) (ForsTree.key_pair_adrs a)
    (ForsTree.tree_index a).
Definition fors_roots (a : ForsTree.t) : ForsRoots.t :=
  ForsRoots.mk (ForsTree.tree_adrs_high a) (ForsTree.tree_adrs_low a) (ForsTree.key_pair_adrs a).

(** The 22-byte form of an address given by its 32 bytes. *)
Definition compressed (adrs : bytes) : bytes :=
  slice 3 4 adrs ++ slice 8 16 adrs ++ slice 19 20 adrs ++ slice 20 32 adrs.

(** ** [hashes.rs], [hashes/shake.rs], [hashes/sha2.rs] *)

(** The trait [HashSuite].  A suite reaches an address only through its bytes. *)
Record HashSuite := mkHashSuite {
  hs_N : nat;
  hs_M : nat;
  prf_msg : bytes -> bytes -> bytes -> bytes;
  h_msg : bytes -> bytes -> bytes -> bytes -> bytes;
  prf_sk : bytes -> bytes -> bytes -> bytes;
  t_hash : bytes -> bytes -> list bytes -> bytes;
  h_hash : bytes -> bytes -> bytes -> bytes -> bytes;
  f_hash : bytes -> bytes -> bytes -> bytes
}.

(** The [sha2] and [hmac] crates. *)
Class Sha2 := {
  sha256 : bytes -> bytes;
  sha512 : bytes -> bytes;
  hmac_sha256 : bytes -> bytes -> bytes;
  hmac_sha512 : bytes -> bytes -> bytes;
  sha256_length : forall d, length (sha256 d) = 32%nat;
  sha512_length : forall d, length (sha512 d) = 64%nat;
  hmac_sha256_length : forall k d, length (hmac_sha256 k d) = 32%nat;
  hmac_sha512_length : forall k d, length (hmac_sha512 k d) = 64%nat
}.

Section suites.
Context `{Shake} `{Sha2}.

Definition Shake_suite (n m : nat) : HashSuite := {|
  hs_N := n;
  hs_M := m;
  prf_msg := fun sk_prf opt_rand msg => shake256 n (sk_prf ++ opt_rand ++ msg);
  h_msg := fun rand pk_seed pk_root msg => shake256 m (rand ++ pk_seed ++ pk_root ++ msg);
  prf_sk := fun pk_seed sk_seed adrs => shake256 n (pk_seed ++ adrs ++ sk_seed);
  t_hash := fun pk_seed adrs ms => shake256 n (pk_seed ++ adrs ++ concat ms);
  h_hash := fun pk_seed adrs m1 m2 => shake256 n (pk_seed ++ adrs ++ m1 ++ m2);
  f_hash := fun pk_seed adrs m' => shake256 n (pk_seed ++ adrs ++ m')
|}.

(** [mgf1::<H, L>]: chunk [i] of the output is the head of [H(seed || i)]. *)
Definition mgf1 (hash : bytes -> bytes) (output_size l : nat) (seed : bytes) : bytes :=
  concat ((fun counter =>
             take (min output_size (l - counter * output_size))
               (hash (seed ++ be_bytes 4 (N.of_nat counter))))%nat
          <$> seq 0 ((l + (output_size - 1)) / output_size)).

Definition zeroes (n : nat) : bytes := replicate n x00.

Definition Sha2L1 (n m : nat) : HashSuite := {|
  hs_N := n;
  hs_M := m;
  prf_msg := fun sk_prf opt_rand msg => take n (hmac_sha256 sk_prf (opt_rand ++ msg));
  h_msg := fun rand pk_seed pk_root msg =>
    let result := sha256 (rand ++ pk_seed ++ pk_root ++ msg) in
    mgf1 sha256 32 m (rand ++ pk_seed ++ result);
  prf_sk := fun pk_seed sk_seed adrs =>
    take n (sha256 (pk_seed ++ zeroes (64 - n) ++ compressed adrs ++ sk_seed));
  t_hash := fun pk_seed adrs ms =>
    take n (sha256 (pk_seed ++ zeroes (64 - n) ++ compressed adrs ++ concat ms));
  h_hash := fun pk_seed adrs m1 m2 =>
    take n (sha256 (pk_seed ++ zeroes (64 - n) ++ compressed adrs ++ m1 ++ m2));
  f_hash := fun pk_seed adrs m' =>
    take n (sha256 (pk_seed ++ zeroes (64 - n) ++ compressed adrs ++ m'))
|}.

Definition Sha2L35 (n m : nat) : HashSuite := {|
  hs_N := n;
  hs_M := m;
  prf_msg := fun sk_prf opt_rand msg => take n (hmac_sha512 sk_prf (opt_rand ++ msg));
  h_msg := fun rand pk_seed pk_root msg =>
    let result := sha512 (rand ++ pk_seed ++ pk_root ++ msg) in
    mgf1 sha512 64 m (rand ++ pk_seed ++ result);
  prf_sk := fun pk_seed sk_seed adrs =>
    take n (sha256 (pk_seed ++ zeroes (64 - n) ++ compressed adrs ++ sk_seed));
  t_hash := fun pk_seed adrs ms =>
    take n (sha512 (pk_seed ++ zeroes (128 - n) ++ compressed adrs ++ concat ms));
  h_hash := fun pk_seed adrs m1 m2 =>
    take n (sha512 (pk_seed ++ zeroes (128 - n) ++ compressed adrs ++ m1 ++ m2));
  f_hash := fun pk_seed adrs m' =>
    take n (sha256 (pk_seed ++ zeroes (64 - n) ++ compressed adrs ++ m'))
|}.
End suites.

(** ** Parameter sets: the traits [WotsParams], [XmssParams], [HypertreeParams],
    [ForsParams] and [ParameterSet], with the encoded lengths. *)

Record ParameterSet := mkParameterSet {
  NAME : string;
  suite :> HashSuite;
  WotsMsgLen : nat;
  WotsSigLen : nat;
  HPrime : nat;
  p_D : nat;
  p_H : nat;
  p_K : nat;
  p_A : nat;
  MD : nat;
  SigLen : N;
  VkLen : N;
  SkLen : N
}.

Section parameter_sets.
Context `{Shake} `{Sha2}.
Open Scope string_scope.

Definition Shake128s : ParameterSet :=
  mkParameterSet "SLH-DSA-SHAKE-128s" (Shake_suite 16 30)
    32 35 9 7 63 14 12 ((12 * 14 + 7) / 8) 7856 32 (4 * 16).
Definition Shake128f : ParameterSet :=
  mkParameterSet "SLH-DSA-SHAKE-128f" (Shake_suite 16 34)
    32 35 3 22 66 33 6 25 17088 32 (4 * 16).
Definition Shake192s : ParameterSet :=
  mkParameterSet "SLH-DSA-SHAKE-192s" (Shake_suite 24 39)
    (24 * 2) (24 * 2 + 3) 9 7 63 17 14 ((14 * 17 + 7) / 8) 16224 48 (4 * 24).
Definition Shake192f : ParameterSet :=
  mkParameterSet "SLH-DSA-SHAKE-192f" (Shake_suite 24 42)
    (24 * 2) (24 * 2 + 3) 3 22 66 33 8 ((33 * 8 + 7) / 8) 35664 48 (4 * 24).
Definition Shake256s : ParameterSet :=
  mkParameterSet "SLH-DSA-SHAKE-256s" (Shake_suite 32 47)
    (32 * 2) (32 * 2 + 3) 8 8 64 22 14 ((14 * 22 + 7) / 8) 29792 64 (4 * 32).
Definition Shake256f : ParameterSet :=
  mkParameterSet "SLH-DSA-SHAKE-256f" (Shake_suite 32 49)
    (32 * 2) (32 * 2 + 3) 4 17 68 35 9 ((35 * 9 + 7) / 8) 49856 64 (4 * 32).
Definition Sha2_128s : ParameterSet :=
  mkParameterSet "SLH-DSA-SHA2-128s" (Sha2L1 16 30)
    32 35 9 7 63 14 12 ((12 * 14 + 7) / 8) 7856 32 (4 * 16).
Definition Sha2_128f : ParameterSet :=
  mkParameterSet "SLH-DSA-SHA2-128f" (Sha2L1 16 34)
    32 35 3 22 66 33 6 25 17088 32 (4 * 16).
Definition Sha2_192s : ParameterSet :=
  mkParameterSet "SLH-DSA-SHA2-192s" (Sha2L35 24 39)
    (24 * 2) (24 * 2 + 3) 9 7 63 17 14 ((14 * 17 + 7) / 8) 16224 48 (4 * 24).
Definition Sha2_192f : ParameterSet :=
  mkParameterSet "SLH-DSA-SHA2-192f" (Sha2L35 24 42)
    (24 * 2) (24 * 2 + 3) 3 22 66 33 8 ((33 * 8 + 7) / 8) 35664 48 (4 * 24).
Definition Sha2_256s : ParameterSet :=
  mkParameterSet "SLH-DSA-SHA2-256s" (Sha2L35 32 47)
    (32 * 2) (32 * 2 + 3) 8 8 64 22 14 ((14 * 22 + 7) / 8) 29792 64 (4 * 32).
Definition Sha2_256f : ParameterSet :=
  mkParameterSet "SLH-DSA-SHA2-256f" (Sha2L35 32 49)
    (32 * 2) (32 * 2 + 3) 4 17 68 35 9 ((35 * 9 + 7) / 8) 49856 64 (4 * 32).

Definition parameter_sets : list ParameterSet :=
  [Shake128f; Shake128s; Shake192f; Shake192s; Shake256f; Shake256s;
   Sha2_128f; Sha2_128s; Sha2_192f; Sha2_192s; Sha2_256f; Sha2_256s].
End parameter_sets.

(** ** [util.rs] *)

(** [while bits < B]: each turn adds eight bits, so [b] turns are enough. *)
Fixpoint base_2b_refill {E} (b : N) (x : bytes) (fuel : nat) (bits : N) (i : nat) (total : N)
    : outcome E (N * nat * N) :=
  match fuel with
  | O => Ok (bits, i, total)
  | S fuel' =>
      if bits <? b then
        xi ← unwrap (x !! i);
        shifted ← shl_checked 64 total 8;
        total' ← add_checked u64_max shifted (Byte.to_N xi);
        base_2b_refill b x fuel' (bits + 8) (i + 1)%nat total'
      else Ok (bits, i, total)
  end.

(** The closure of [from_fn], run [out_len] times over its captured variables. *)
Fixpoint base_2b_loop {E} (b : N) (x : bytes) (out_len : nat) (bits : N) (i : nat) (total : N)
    : outcome E (list N) :=
  match out_len with
  | O => Ok []
  | S out_len' =>
      '(bits1, i1, total1) ← base_2b_refill b x (N.to_nat b) bits i total;
      bits2 ← sub_checked bits1 b;
      out ← shr_checked 64 total1 bits2;
      one_b ← shl_checked 64 1 b;
      mask_b ← sub_checked one_b 1;
      one_bits ← shl_checked 64 1 bits2;
      mask_bits ← sub_checked one_bits 1;
      out16 ← unwrap (if N.land out mask_b <=? u16_max then Some (N.land out mask_b) else None);
      rest ← base_2b_loop b x out_len' bits2 i1 (N.land total1 mask_bits);
      Ok (out16 :: rest)
  end.

Definition base_2b {E} (out_len b : nat) (x : bytes) : outcome E (list N) :=
  debug_assert (bool_decide ((out_len * b + 7) / 8 <= length x)%nat) ;;
  debug_assert (bool_decide (b <= 16)%nat) ;;
  base_2b_loop (N.of_nat b) x out_len 0 0 0.

Definition div_ceil (a b : nat) : nat := ((a + (b - 1)) / b)%nat.

(** [bytes[w - n..].copy_from_slice(src)] on a zeroed [w]-byte buffer. *)
Definition right_align {E} (w : nat) (src : bytes) (n : nat) : outcome E bytes :=
  ensured ← copy_from_slice (zeroes n) src;
  if bool_decide (n <= w)%nat then Ok (zeroes (w - n) ++ ensured) else Panic.

(** [1u64.checked_shl(s).unwrap_or(0).wrapping_sub(1)] *)
Definition tree_mask (s : N) : N :=
  (default 0 (if s <? 64 then Some (N.shiftl 1 s) else None) + u64_max) mod 2 ^ 64.

(** The trait [CryptoRngCore]: the buffer filled and the generator after it. *)
Class Rng := {
  rng_state : Type;
  fill_bytes : rng_state -> nat -> bytes * rng_state;
  fill_bytes_length : forall r n, length (fill_bytes r n).1 = n
}.

Section scheme.
Context (P : ParameterSet).
Implicit Types (sk_seed pk_seed m : bytes).

Definition split_digest (digest : bytes) : outcome Error (bytes * N * N) :=
  let m := slice 0 (MD P) digest in
  h_tree ← unwrap (if bool_decide (HPrime P <= p_H P)%nat then Some (p_H P - HPrime P)%nat else None);
  let idx_tree_size := div_ceil h_tree 8 in
  let idx_leaf_size := div_ceil (HPrime P) 8 in
  idx_tree_bytes ← right_align 8 (slice (MD P) (MD P + idx_tree_size) digest) idx_tree_size;
  idx_leaf_bytes ← right_align 4
    (slice (MD P + idx_tree_size) (MD P + idx_tree_size + idx_leaf_size) digest) idx_leaf_size;
  let idx_tree := N.land (of_be_bytes idx_tree_bytes) (tree_mask (N.of_nat h_tree)) in
  one_leaf ← shl_checked 32 1 (N.of_nat (HPrime P));
  leaf_mask ← sub_checked one_leaf 1;
  Ok (m, idx_tree, N.land (of_be_bytes idx_leaf_bytes) leaf_mask).

(** ** [wots.rs] *)

Definition LOG_W : nat := 4.
Definition W : N := 16.
Definition CK_LEN : nat := 3.

(** Algorithm 4.  [for j in i..(i + s)] *)
Definition wots_chain (x : bytes) (i s : N) pk_seed (adrs : WotsHash.t) : outcome Error bytes :=
  e ← add_checked u32_max i s;
  debug_assert (e <? N.shiftl 1 (N.of_nat LOG_W)) ;;
  Ok (foldl (fun tmp j =>
        f_hash P pk_seed (WotsHash.as_ref adrs<| WotsHash.hash_adrs := N.of_nat j |>) tmp)
      x (seq (N.to_nat i) (N.to_nat s))).

(** The secret value of chain [i] and the address of its hashes. *)
Definition wots_sk sk_seed pk_seed (adrs : WotsHash.t) (i : nat) : bytes :=
  let sk_adrs := (wots_prf_adrs adrs)<| WotsPrf.chain_adrs := N.of_nat i |> in
  prf_sk P pk_seed sk_seed (WotsPrf.as_ref sk_adrs).
Definition chain_of (adrs : WotsHash.t) (i : nat) : WotsHash.t :=
  adrs<| WotsHash.chain_adrs := N.of_nat i |>.

(** Algorithm 5 *)
Definition wots_pk_gen sk_seed pk_seed (adrs : WotsHash.t) : outcome Error bytes :=
  tmp ← from_fn (WotsSigLen P) (fun i =>
    wots_chain (wots_sk sk_seed pk_seed adrs i) 0 (N.shiftl 1 (N.of_nat LOG_W) - 1) pk_seed
      (chain_of adrs i));
  Ok (t_hash P pk_seed (WotsPk.as_ref (pk_adrs adrs)) tmp).

(** The digits of a message followed by those of its checksum:
    [msg.iter().map(|&x| (1 << LOG_W) - 1 - x).sum::<u16>() << 4] and what follows. *)
Definition msg_csum m : outcome Error (list N) :=
  msg ← base_2b (WotsMsgLen P) LOG_W m;
  sum ← foldM (fun acc x =>
          y ← sub_checked (N.shiftl 1 (N.of_nat LOG_W) - 1) x; add_checked u16_max acc y) 0 msg;
  csum ← shl_checked 16 sum 4;
  csum_chunks ← base_2b CK_LEN LOG_W (be_bytes 2 csum);
  Ok (msg ++ csum_chunks).

(** Algorithm 6 *)
Definition wots_sign m sk_seed pk_seed (adrs : WotsHash.t) : outcome Error (list bytes) :=
  digits ← msg_csum m;
  from_fn (WotsSigLen P) (fun i =>
    digit ← unwrap (digits !! i);
    wots_chain (wots_sk sk_seed pk_seed adrs i) 0 digit pk_seed (chain_of adrs i)).

Definition wots_pk_from_sig (sig : list bytes) m pk_seed (adrs : WotsHash.t)
    : outcome Error bytes :=
  digits ← msg_csum m;
  tmp ← from_fn (WotsSigLen P) (fun i =>
    msg_i ← unwrap (digits !! i);
    sig_i ← unwrap (sig !! i);
    s ← sub_checked (W - 1) msg_i;
    wots_chain sig_i msg_i s pk_seed (chain_of adrs i));
  Ok (t_hash P pk_seed (WotsPk.as_ref (pk_adrs adrs)) tmp).

(** ** [xmss.rs] *)

Record XmssSig := mkXmssSig { xs_sig : list bytes; xs_auth : list bytes }.

Fixpoint xmss_node sk_seed (node : N) (height : nat) pk_seed (adrs : WotsHash.t)
    : outcome Error bytes :=
  debug_assert (bool_decide (height <= HPrime P)%nat) ;;
  width ← shl_checked 32 1 (N.of_nat (HPrime P - height));
  debug_assert (node <? width) ;;
  match height with
  | O => wots_pk_gen sk_seed pk_seed adrs<| WotsHash.key_pair_adrs := node |>
  | S height' =>
      l ← mul_checked u32_max 2 node;
      lnode ← xmss_node sk_seed l height' pk_seed adrs;
      r ← add_checked u32_max l 1;
      rnode ← xmss_node sk_seed r height' pk_seed adrs;
      let adrs' := (tree_adrs adrs)<| HashTree.tree_height := N.of_nat height |>
                     <| HashTree.tree_index := node |> in
      Ok (h_hash P pk_seed (HashTree.as_ref adrs') lnode rnode)
  end.

(** [for j in 0..HPrime]: the sibling at level [j], then [idx >>= 1]. *)
Definition xmss_sign m sk_seed pk_seed (idx : N) (adrs : WotsHash.t) : outcome Error XmssSig :=
  let adrs := adrs<| WotsHash.key_pair_adrs := idx |> in
  sig ← wots_sign m sk_seed pk_seed adrs;
  '(_, auth) ← foldM (fun '(idx, auth) j =>
    node ← xmss_node sk_seed (N.lxor idx 1) j pk_seed adrs;
    Ok (N.shiftr idx 1, auth ++ [node])) (idx, []) (seq 0 (HPrime P));
  Ok (mkXmssSig sig auth).

Definition xmss_pk_from_sig (idx : N) (sig : XmssSig) m pk_seed (adrs : WotsHash.t)
    : outcome Error bytes :=
  let adrs := adrs<| WotsHash.key_pair_adrs := idx |> in
  node ← wots_pk_from_sig (xs_sig sig) m pk_seed adrs;
  '(_, node) ← foldM (fun '(idx, node) j =>
    let '(idx', rem) := (N.shiftr idx 1, N.land idx 1) in
    let adrs' := (tree_adrs adrs)<| HashTree.tree_height := N.of_nat j + 1 |>
                   <| HashTree.tree_index := idx' |> in
    auth ← unwrap (xs_auth sig !! j);
    Ok (idx', if rem =? 0 then h_hash P pk_seed (HashTree.as_ref adrs') node auth
              else h_hash P pk_seed (HashTree.as_ref adrs') auth node))
    (idx, node) (seq 0 (HPrime P));
  Ok node.

(** ** [hypertree.rs] *)

(** The step to the next layer: its leaf is the low [HPrime] bits of the tree index. *)
Definition next_layer (idx_tree : N) : outcome Error (N * N) :=
  one ← shl_checked 64 1 (N.of_nat (HPrime P));
  mask ← sub_checked one 1;
  idx_leaf ← unwrap (if N.land idx_tree mask <=? u32_max then Some (N.land idx_tree mask) else None);
  idx_tree' ← shr_checked 64 idx_tree (N.of_nat (HPrime P));
  Ok (idx_tree', idx_leaf).

Definition layer_of (j : nat) (idx_tree : N) : WotsHash.t :=
  WotsHash.default<| WotsHash.layer_adrs := N.of_nat j |><| WotsHash.tree_adrs_low := idx_tree |>.

Definition ht_sign m sk_seed pk_seed (idx_tree idx_leaf : N) : outcome Error (list XmssSig) :=
  debug_assert (bool_decide (0 < p_D P)%nat) ;;
  sig0 ← xmss_sign m sk_seed pk_seed idx_leaf (layer_of 0 idx_tree);
  root ← xmss_pk_from_sig idx_leaf sig0 m pk_seed (layer_of 0 idx_tree);
  '(_, _, sigs) ← foldM (fun '(idx_tree, root, sigs) j =>
    '(idx_tree', idx_leaf) ← next_layer idx_tree;
    sig_j ← xmss_sign root sk_seed pk_seed idx_leaf (layer_of j idx_tree');
    root' ← (if bool_decide (j <> p_D P - 1)%nat
             then xmss_pk_from_sig idx_leaf sig_j root pk_seed (layer_of j idx_tree')
             else Ok root);
    Ok (idx_tree', root', sigs ++ [sig_j])) (idx_tree, root, [sig0]) (seq 1 (p_D P - 1));
  Ok sigs.

Definition ht_verify m (sig : list XmssSig) pk_seed (idx_tree idx_leaf : N) (pk_root : bytes)
    : outcome Error bool :=
  sig0 ← unwrap (sig !! 0%nat);
  root ← xmss_pk_from_sig idx_leaf sig0 m pk_seed (layer_of 0 idx_tree);
  '(_, root) ← foldM (fun '(idx_tree, root) j =>
    '(idx_tree', idx_leaf) ← next_layer idx_tree;
    sig_j ← unwrap (sig !! j);
    root' ← xmss_pk_from_sig idx_leaf sig_j root pk_seed (layer_of j idx_tree');
    Ok (idx_tree', root')) (idx_tree, root) (seq 1 (p_D P - 1));
  Ok (bool_decide (root = pk_root)).

(** ** [fors.rs] *)

Record ForsMTSig := mkForsMTSig { fm_sk : bytes; fm_auth : list bytes }.

Definition fors_sk_gen sk_seed pk_seed (adrs : ForsTree.t) (idx : N) : bytes :=
  prf_sk P pk_seed sk_seed (ForsPrf.as_ref (fors_prf_adrs adrs)<| ForsPrf.tree_index := idx |>).

Definition fors_adrs (adrs : ForsTree.t) (height index : N) : ForsTree.t :=
  adrs<| ForsTree.tree_height := height |><| ForsTree.tree_index := index |>.

Fixpoint fors_node sk_seed (i : N) (z : nat) pk_seed (adrs : ForsTree.t) : outcome Error bytes :=
  debug_assert (bool_decide (z <= p_A P)%nat) ;;
  width ← shl_checked 32 (N.of_nat (p_K P)) (N.of_nat (p_A P - z));
  debug_assert (i <? width) ;;
  match z with
  | O =>
      let sk := fors_sk_gen sk_seed pk_seed adrs i in
      Ok (f_hash P pk_seed (ForsTree.as_ref (fors_adrs adrs 0 i)) sk)
  | S z' =>
      l ← mul_checked u32_max 2 i;
      lnode ← fors_node sk_seed l z' pk_seed adrs;
      r ← add_checked u32_max l 1;
      rnode ← fors_node sk_seed r z' pk_seed adrs;
      Ok (h_hash P pk_seed (ForsTree.as_ref (fors_adrs adrs (N.of_nat z) i)) lnode rnode)
  end.

(** [(i << a) + x] on [u32]. *)
Definition fors_index (i a : nat) (x : N) : outcome Error N :=
  base ← shl_checked 32 (N.of_nat i) (N.of_nat a);
  add_checked u32_max base x.

Definition fors_sign (md : bytes) sk_seed pk_seed (adrs : ForsTree.t)
    : outcome Error (list ForsMTSig) :=
  indices ← base_2b (p_K P) (p_A P) md;
  from_fn (p_K P) (fun i =>
    index ← unwrap (indices !! i);
    leaf ← fors_index i (p_A P) index;
    auth ← from_fn (p_A P) (fun j =>
      shifted ← shr_checked 16 index (N.of_nat j);
      node ← fors_index i (p_A P - j) (N.lxor shifted 1);
      fors_node sk_seed node j pk_seed adrs);
    Ok (mkForsMTSig (fors_sk_gen sk_seed pk_seed adrs leaf) auth)).

(** The climb from a leaf: [tree_index >>= 1] at each level; the bit of the index says on
    which side the node stands. *)
Definition fors_root (sig : ForsMTSig) (index leaf : N) pk_seed (adrs : ForsTree.t)
    : outcome Error bytes :=
  let node := f_hash P pk_seed (ForsTree.as_ref (fors_adrs adrs 0 leaf)) (fm_sk sig) in
  '(_, node) ← foldM (fun '(tree_index, node) j =>
    let tree_index' := N.shiftr tree_index 1 in
    let adrs' := fors_adrs adrs (N.of_nat j + 1) tree_index' in
    auth ← unwrap (fm_auth sig !! j);
    bit ← shr_checked 16 index (N.of_nat j);
    Ok (tree_index', if N.land bit 1 =? 0 then h_hash P pk_seed (ForsTree.as_ref adrs') node auth
                     else h_hash P pk_seed (ForsTree.as_ref adrs') auth node))
    (leaf, node) (seq 0 (p_A P));
  Ok node.

Definition fors_pk_from_sig (sig : list ForsMTSig) (md : bytes) pk_seed (adrs : ForsTree.t)
    : outcome Error bytes :=
  indices ← base_2b (p_K P) (p_A P) md;
  roots ← from_fn (p_K P) (fun i =>
    sig_i ← unwrap (sig !! i);
    index ← unwrap (indices !! i);
    leaf ← fors_index i (p_A P) index;
    fors_root sig_i index leaf pk_seed adrs);
  Ok (t_hash P pk_seed (ForsRoots.as_ref (fors_roots adrs)) roots).

(** ** [signing_key.rs], [verifying_key.rs] *)

Record VerifyingKey := mkVerifyingKey { vk_pk_seed : bytes; vk_pk_root : bytes }.
Record SigningKey := mkSigningKey {
  sk_sk_seed : bytes; sk_sk_prf : bytes; sk_verifying_key : VerifyingKey
}.
Record Signature := mkSignature {
  sig_randomizer : bytes; sig_fors : list ForsMTSig; sig_ht : list XmssSig
}.

Definition from_seed (sk_seed sk_prf pk_seed : bytes) : outcome Error SigningKey :=
  top ← sub_checked (N.of_nat (p_D P)) 1;
  pk_root ← xmss_node sk_seed 0 (HPrime P) pk_seed
    WotsHash.default<| WotsHash.layer_adrs := top |>;
  Ok (mkSigningKey sk_seed sk_prf (mkVerifyingKey pk_seed pk_root)).

(** [SigningKey::new]: three draws of [N] bytes from the generator. *)
Definition SigningKey_new `{Rng} (rng : rng_state) : outcome Error SigningKey :=
  let '(sk_seed, rng) := fill_bytes rng (hs_N P) in
  let '(sk_prf, rng) := fill_bytes rng (hs_N P) in
  let '(pk_seed, _) := fill_bytes rng (hs_N P) in
  from_seed sk_seed sk_prf pk_seed.

(** [Array::clone_from_slice] and [try_into().unwrap()]: a slice of exactly [N] bytes. *)
Definition exactly_n (b : bytes) : outcome Error bytes :=
  if bool_decide (length b = hs_N P) then Ok b else Panic.

Definition slh_keygen_internal (sk_seed sk_prf pk_seed : bytes) : outcome Error SigningKey :=
  a ← exactly_n sk_seed; b ← exactly_n sk_prf; c ← exactly_n pk_seed;
  from_seed a b c.

Definition slh_sign_internal (sk : SigningKey) (msg : bytes) (opt_rand : option bytes)
    : outcome Error Signature :=
  let pk_seed := vk_pk_seed (sk_verifying_key sk) in
  rand ← exactly_n (default pk_seed opt_rand);
  let randomizer := prf_msg P (sk_sk_prf sk) rand msg in
  let digest := h_msg P randomizer pk_seed (vk_pk_root (sk_verifying_key sk)) msg in
  '(md, idx_tree, idx_leaf) ← split_digest digest;
  let adrs := ForsTree.new idx_tree idx_leaf in
  fors_sig ← fors_sign md (sk_sk_seed sk) pk_seed adrs;
  fors_pk ← fors_pk_from_sig fors_sig md pk_seed adrs;
  ht_sig ← ht_sign fors_pk (sk_sk_seed sk) pk_seed idx_tree idx_leaf;
  Ok (mkSignature randomizer fors_sig ht_sig).

(** [[&[0], &ctx_len.to_be_bytes(), ctx, msg].concat()], for a context of at most 255 bytes. *)
Definition ctx_msg (msg ctx : bytes) : outcome Error bytes :=
  ensure (len ctx <=? u8_max) SignatureError ;;
  Ok ([x00] ++ be_bytes 1 (len ctx) ++ ctx ++ msg).

Definition try_sign_with_context (sk : SigningKey) (msg ctx : bytes) (opt_rand : option bytes)
    : outcome Error Signature :=
  m ← ctx_msg msg ctx;
  slh_sign_internal sk m opt_rand.

Definition try_sign (sk : SigningKey) (msg : bytes) : outcome Error Signature :=
  try_sign_with_context sk msg [] None.

Definition slh_verify_internal (vk : VerifyingKey) (msg : bytes) (sig : Signature)
    : outcome Error unit :=
  let digest := h_msg P (sig_randomizer sig) (vk_pk_seed vk) (vk_pk_root vk) msg in
  '(md, idx_tree, idx_leaf) ← split_digest digest;
  let adrs := ForsTree.new idx_tree idx_leaf in
  fors_pk ← fors_pk_from_sig (sig_fors sig) md (vk_pk_seed vk) adrs;
  ok ← ht_verify fors_pk (sig_ht sig) (vk_pk_seed vk) idx_tree idx_leaf (vk_pk_root vk);
  ensure ok SignatureError.

Definition try_verify_with_context (vk : VerifyingKey) (msg ctx : bytes) (sig : Signature)
    : outcome Error unit :=
  m ← ctx_msg msg ctx;
  slh_verify_internal vk m sig.

Definition verify_msg (vk : VerifyingKey) (msg : bytes) (sig : Signature) : outcome Error unit :=
  try_verify_with_context vk msg [] sig.

(** *** Key encodings *)

Definition VerifyingKey_to_bytes (vk : VerifyingKey) : outcome Error bytes :=
  debug_assert (N.of_nat (hs_N P) * 2 =? VkLen P) ;;
  a ← copy_from_slice (zeroes (hs_N P)) (vk_pk_seed vk);
  b ← copy_from_slice (zeroes (N.to_nat (VkLen P) - hs_N P)) (vk_pk_root vk);
  Ok (a ++ b).

Definition VerifyingKey_try_from (b : bytes) : outcome Error VerifyingKey :=
  ensure (len b =? N.of_nat (hs_N P) * 2) SignatureError ;;
  Ok (mkVerifyingKey (take (hs_N P) b) (drop (hs_N P) b)).

Definition SigningKey_to_bytes (sk : SigningKey) : outcome Error bytes :=
  a ← copy_from_slice (zeroes (hs_N P)) (sk_sk_seed sk);
  b ← copy_from_slice (zeroes (hs_N P)) (sk_sk_prf sk);
  vk ← VerifyingKey_to_bytes (sk_verifying_key sk);
  c ← copy_from_slice (zeroes (N.to_nat (SkLen P) - 2 * hs_N P)) vk;
  Ok (a ++ b ++ c).

Definition SigningKey_try_from (b : bytes) : outcome Error SigningKey :=
  ensure (len b =? SkLen P) SignatureError ;;
  let sk_seed := take (hs_N P) b in
  let rest := drop (hs_N P) b in
  let sk_prf := take (hs_N P) rest in
  vk ← VerifyingKey_try_from (drop (hs_N P) rest);
  Ok (mkSigningKey sk_seed sk_prf vk).

(** *** Signature encodings *)

Definition WotsSig_SIZE : nat := hs_N P * WotsSigLen P.
Definition XmssSig_SIZE : nat := WotsSig_SIZE + HPrime P * hs_N P.
Definition HypertreeSig_SIZE : nat := XmssSig_SIZE * p_D P.
Definition ForsMTSig_SIZE : nat := hs_N P + p_A P * hs_N P.
Definition ForsSignature_SIZE : nat := p_K P * (p_A P + 1) * hs_N P.

Definition WotsSig_write_to (sig : list bytes) (buf : bytes) : outcome unit bytes :=
  debug_assert (bool_decide (length buf = WotsSig_SIZE)) ;;
  rewrite_chunks (hs_N P) (zip_writer sig (fun s c => copy_from_slice c s)) buf.

Definition WotsSig_try_from (value : bytes) : outcome unit (list bytes) :=
  ensure (bool_decide (length value = WotsSig_SIZE)) tt ;;
  from_fn (WotsSigLen P) (fun i => Ok (slice (i * hs_N P) ((i + 1) * hs_N P) value)).

Definition XmssSig_write_to (sig : XmssSig) (buf : bytes) : outcome unit bytes :=
  debug_assert (bool_decide (length buf = XmssSig_SIZE)) ;;
  wots ← WotsSig_write_to (xs_sig sig) (take WotsSig_SIZE buf);
  auth ← rewrite_chunks (hs_N P) (zip_writer (xs_auth sig) (fun s c => copy_from_slice c s))
    (drop WotsSig_SIZE buf);
  Ok (wots ++ auth).

Definition XmssSig_try_from (value : bytes) : outcome unit XmssSig :=
  ensure (bool_decide (length value = XmssSig_SIZE)) tt ;;
  sig ← WotsSig_try_from (slice 0 WotsSig_SIZE value);
  auth ← from_fn (HPrime P) (fun i =>
    Ok (slice (WotsSig_SIZE + i * hs_N P) (WotsSig_SIZE + (i + 1) * hs_N P) value));
  Ok (mkXmssSig sig auth).

Definition HypertreeSig_write_to (sig : list XmssSig) (buf : bytes) : outcome unit bytes :=
  debug_assert (bool_decide (length buf = HypertreeSig_SIZE)) ;;
  rewrite_chunks XmssSig_SIZE (zip_writer sig XmssSig_write_to) buf.

Definition HypertreeSig_to_vec (sig : list XmssSig) : outcome unit bytes :=
  HypertreeSig_write_to sig (zeroes HypertreeSig_SIZE).

Definition HypertreeSig_try_from (value : bytes) : outcome unit (list XmssSig) :=
  ensure (bool_decide (length value = HypertreeSig_SIZE)) tt ;;
  collect (fun c => unwrap_result (XmssSig_try_from c)) (chunks XmssSig_SIZE value).

(** [.enumerate().for_each(|(i, c)| ..)]: the secret value, then the path. *)
Definition ForsMTSig_write_to (sig : ForsMTSig) (buf : bytes) : outcome unit bytes :=
  debug_assert (bool_decide (length buf = ForsMTSig_SIZE)) ;;
  rewrite_chunks (hs_N P) (fun i c =>
    if i =? 0 then copy_from_slice c (fm_sk sig)
    else a ← unwrap (fm_auth sig !! N.to_nat (i - 1)); copy_from_slice c a) buf.

Definition ForsMTSig_try_from (value : bytes) : outcome unit ForsMTSig :=
  ensure (bool_decide (length value = ForsMTSig_SIZE)) tt ;;
  auth ← from_fn (p_A P) (fun i =>
    Ok (slice (hs_N P + i * hs_N P) (hs_N P + (i + 1) * hs_N P) value));
  Ok (mkForsMTSig (slice 0 (hs_N P) value) auth).

Definition ForsSignature_write_to (sig : list ForsMTSig) (buf : bytes) : outcome unit bytes :=
  debug_assert (bool_decide (length buf = ForsSignature_SIZE)) ;;
  rewrite_chunks ForsMTSig_SIZE (fun i c =>
    s ← unwrap (sig !! N.to_nat i); ForsMTSig_write_to s c) buf.

Definition ForsSignature_to_vec (sig : list ForsMTSig) : outcome unit bytes :=
  ForsSignature_write_to sig (zeroes ForsSignature_SIZE).

Definition ForsSignature_try_from (value : bytes) : outcome unit (list ForsMTSig) :=
  ensure (bool_decide (length value = ForsSignature_SIZE)) tt ;;
  collect (fun c => unwrap_result (ForsMTSig_try_from c)) (chunks ForsMTSig_SIZE value).

Definition Signature_to_vec (sig : Signature) : outcome unit bytes :=
  fors ← ForsSignature_to_vec (sig_fors sig);
  ht ← HypertreeSig_to_vec (sig_ht sig);
  let b := sig_randomizer sig ++ fors ++ ht in
  debug_assert (len b =? SigLen P) ;;
  Ok b.

(** [to_bytes] fills a zeroed array in place. *)
Definition Signature_to_bytes (sig : Signature) : outcome unit bytes :=
  let buf := zeroes (N.to_nat (SigLen P)) in
  a ← copy_from_slice (take (hs_N P) buf) (sig_randomizer sig);
  fors ← ForsSignature_write_to (sig_fors sig)
    (slice (hs_N P) (hs_N P + ForsSignature_SIZE) buf);
  ht ← HypertreeSig_write_to (sig_ht sig) (drop (hs_N P + ForsSignature_SIZE)%nat buf);
  Ok (a ++ fors ++ ht).

Definition Signature_try_from (b : bytes) : outcome Error Signature :=
  ensure (len b =? SigLen P) SignatureError ;;
  let rest := drop (hs_N P) b in
  fors ← map_err (fun _ => SignatureError) (ForsSignature_try_from (take ForsSignature_SIZE rest));
  ht ← map_err (fun _ => SignatureError) (HypertreeSig_try_from (drop ForsSignature_SIZE rest));
  Ok (mkSignature (take (hs_N P) b) fors ht).
End scheme.
