(* ===== verification/SlhDsaProps.v ===== *)
(** * SLH-DSA: digits, chains and trees.

    Each routine of [SlhDsa] is shown to run without a panic and to compute a closed
    form: [base_2b] the base-2^b digits of a byte string, a WOTS+ signature opened to the
    public key, a path of siblings climbed to the root of its tree. *)

From S2P Require Import Prelude Crypto SlhDsa.

(** ** Generic lemmas *)

Section generic.
Context {E : Type}.

Lemma debug_assert_true (b : bool) : b = true -> @debug_assert E b = Ok tt.
Proof. by intros ->. Qed.

Lemma unwrap_Some {A} (o : option A) a : o = Some a -> @unwrap E A o = Ok a.
Proof. by intros ->. Qed.

Lemma add_checked_small m a b : a + b <= m -> @add_checked E m a b = Ok (a + b).
Proof. intros ?. by apply add_checked_Ok. Qed.

Lemma sub_checked_small a b : b <= a -> @sub_checked E a b = Ok (a - b).
Proof. intros ?. by apply sub_checked_Ok. Qed.

Lemma mul_checked_small m a b : a * b <= m -> @mul_checked E m a b = Ok (a * b).
Proof. intros ?%N.leb_le. unfold mul_checked. by case_match. Qed.

Lemma shl_checked_small w a s : s < w -> a * 2 ^ s < 2 ^ w -> @shl_checked E w a s = Ok (a * 2 ^ s).
Proof.
  intros ?%N.ltb_lt ?. unfold shl_checked. case_match; [|done].
  by rewrite N.shiftl_mul_pow2, N.mod_small.
Qed.

Lemma shr_checked_small w a s : s < w -> @shr_checked E w a s = Ok (a / 2 ^ s).
Proof.
  intros ?%N.ltb_lt. unfold shr_checked. case_match; [|done]. by rewrite N.shiftr_div_pow2.
Qed.

(** The mask [(1 << s) - 1]. *)
Lemma mask_checked {A} w s (f : N -> outcome E A) :
  s < w -> (one ← shl_checked w 1 s; mask ← sub_checked one 1; f mask) = f (N.ones s).
Proof.
  intros ?. rewrite shl_checked_small; [|done|].
  - cbn [mbind outcome_bind]. rewrite sub_checked_small.
    + cbn [mbind outcome_bind]. by rewrite N.ones_equiv, N.mul_1_l, N.sub_1_r.
    + rewrite N.mul_1_l. assert (2 ^ s <> 0) by (by apply N.pow_nonzero). lia.
  - rewrite N.mul_1_l. by apply N.pow_lt_mono_r.
Qed.

Lemma collect_seq {B} (g : nat -> outcome E B) (h : nat -> B) i a n :
  (forall k, (a <= k < a + n)%nat -> g k = Ok (h k)) ->
  collect_at (fun _ => g) i (seq a n) = Ok (h <$> seq a n).
Proof.
  revert i a. induction n as [|n IH]; intros i a Hg; cbn; [done|].
  rewrite (Hg a) by lia. cbn. by rewrite (IH _ (S a)) by (intros; apply Hg; lia).
Qed.

Lemma from_fn_Ok {B} n (g : nat -> outcome E B) (h : nat -> B) :
  (forall k, (k < n)%nat -> g k = Ok (h k)) -> from_fn n g = Ok (h <$> seq 0 n).
Proof. intros Hg. apply collect_seq. intros k ?. apply Hg. lia. Qed.

(** A loop over consecutive indices whose state is a function of the index. *)
Lemma foldM_seq {S} (f : S -> nat -> outcome E S) (st : nat -> S) a n :
  (forall k, (a <= k < a + n)%nat -> f (st k) k = Ok (st (k + 1)%nat)) ->
  foldM f (st a) (seq a n) = Ok (st (a + n)%nat).
Proof.
  revert a. induction n as [|n IH]; intros a Hf; cbn.
  - by rewrite Nat.add_0_r.
  - rewrite Hf by lia. cbn. rewrite Nat.add_1_r, IH; [f_equal; f_equal; lia|].
    intros k ?. apply Hf. lia.
Qed.
End generic.

Lemma lookup_seq_fmap {B} (h : nat -> B) n i : (i < n)%nat -> (h <$> seq 0 n) !! i = Some (h i).
Proof. intros ?. rewrite list_lookup_fmap, lookup_seq_lt by done. done. Qed.

Lemma length_slice {B} a b (l : list B) :
  (a <= b)%nat -> (b <= length l)%nat -> length (slice a b l) = (b - a)%nat.
Proof. intros. unfold slice. rewrite length_take, length_drop. lia. Qed.

Lemma of_be_bytes_app l1 l2 :
  of_be_bytes (l1 ++ l2) = of_be_bytes l1 * 256 ^ len l2 + of_be_bytes l2.
Proof.
  induction l2 as [|b l2 IH] using rev_ind.
  - rewrite app_nil_r. change (256 ^ len []) with 1. change (of_be_bytes []) with 0. lia.
  - rewrite app_assoc, !of_be_bytes_snoc, IH. unfold len. rewrite length_app. cbn [length].
    rewrite Nat.add_1_r, Nat2N.inj_succ, N.pow_succ_r'. lia.
Qed.

Lemma of_be_bytes_take i x :
  of_be_bytes (take i x) = of_be_bytes x / 256 ^ len (drop i x).
Proof.
  rewrite <-(take_drop i x) at 2. rewrite of_be_bytes_app.
  rewrite N.div_add_l by (by apply N.pow_nonzero).
  rewrite N.div_small; [lia|]. apply of_be_bytes_bound.
Qed.

Lemma pow_256 n : 256 ^ n = 2 ^ (8 * n).
Proof. by rewrite N.pow_mul_r. Qed.

Lemma land_ones_small a s : N.land a (N.ones s) = a mod 2 ^ s.
Proof. apply N.land_ones. Qed.

(** ** Digits *)

(** Digit [k] of the bit string [x] read in groups of [b] bits. *)
Definition digit (b : N) (x : bytes) (k : nat) : N :=
  of_be_bytes x / 2 ^ (8 * len x - (N.of_nat k + 1) * b) mod 2 ^ b.

Section base_2b.
Context {E : Type} (b : N) (x : bytes).
Hypothesis Hb : b <= 16.

Let prefix (i : nat) : N := of_be_bytes (take i x).

Lemma prefix_succ i c : x !! i = Some c -> prefix (i + 1) = prefix i * 256 + Byte.to_N c.
Proof.
  intros Hc. unfold prefix. rewrite Nat.add_1_r, (take_S_r _ _ c) by done.
  apply of_be_bytes_snoc.
Qed.

Lemma refill_step (bits : N) i c :
  bits < b -> x !! i = Some c ->
  (shifted ← shl_checked 64 (prefix i mod 2 ^ bits) 8;
   @add_checked E u64_max shifted (Byte.to_N c)) = Ok (prefix (i + 1) mod 2 ^ (bits + 8)).
Proof.
  intros Hlt Hc. assert (Byte.to_N c < 256) by (pose proof (Byte.to_N_bounded c); lia).
  assert (H16 : 2 ^ bits <= 2 ^ 16) by (apply N.pow_le_mono_r; lia).
  assert (2 ^ bits <> 0) by (by apply N.pow_nonzero).
  pose proof (N.mod_lt (prefix i) (2 ^ bits) ltac:(done)).
  rewrite shl_checked_small by (done || (change (2 ^ 64) with (2 ^ 48 * 2 ^ 16); nia)).
  cbn [mbind outcome_bind]. rewrite add_checked_small.
  - f_equal. rewrite prefix_succ with (c := c) by done. rewrite N.pow_add_r.
    change (2 ^ 8) with 256. rewrite (N.mul_comm (2 ^ bits)), N.Div0.mod_mul_r, (N.mul_comm 256).
    rewrite N.div_add_l by done. rewrite (N.div_small (Byte.to_N c)) by done.
    rewrite (N.add_comm (prefix i * 256)), N.Div0.mod_add, (N.mod_small (Byte.to_N c)) by done.
    rewrite N.add_0_r. lia.
  - change (2 ^ 8) with 256. change (2 ^ 16) with 65536 in H16. nia.
Qed.

(** The refill ends with at least [b] bits in hand. *)
Lemma refill_spec fuel (bits : N) i k :
  bits < b + 8 -> k + bits = 8 * N.of_nat i -> k + b <= 8 * len x ->
  b <= bits + 8 * N.of_nat fuel ->
  exists bits' i', @base_2b_refill E b x fuel bits i (prefix i mod 2 ^ bits)
      = Ok (bits', i', prefix i' mod 2 ^ bits') /\
    b <= bits' < b + 8 /\ k + bits' = 8 * N.of_nat i'.
Proof.
  revert bits i. induction fuel as [|fuel IH]; intros bits i Hbits Hk Hx Hf; cbn [base_2b_refill].
  - exists bits, i. split; [done|]. lia.
  - destruct (N.ltb_spec bits b) as [Hlt|]; [|exists bits, i; split; [done|lia]].
    destruct (x !! i) as [c|] eqn:Hc; cycle 1.
    { apply lookup_ge_None in Hc. unfold len in Hx. lia. }
    cbn [unwrap mbind outcome_bind].
    pose proof (refill_step bits i c Hlt Hc) as Hstep.
    apply bind_Ok in Hstep as (sh & -> & Hstep). cbn [mbind outcome_bind].
    rewrite Hstep. cbn [mbind outcome_bind]. apply IH; lia.
Qed.

(** One digit comes out; the bits below it stay. *)
Lemma digit_of_prefix bits' i' (k : nat) :
  (i' <= length x)%nat -> b <= bits' -> N.of_nat k * b + bits' = 8 * N.of_nat i' ->
  prefix i' mod 2 ^ bits' / 2 ^ (bits' - b) mod 2 ^ b = digit b x k.
Proof.
  intros Hi Hbits Hk. unfold digit, prefix. rewrite of_be_bytes_take, pow_256.
  assert (Hd : len (drop i' x) = len x - N.of_nat i').
  { unfold len. rewrite length_drop. lia. }
  rewrite Hd.
  replace (2 ^ bits') with (2 ^ (bits' - b) * 2 ^ b) by (rewrite <-N.pow_add_r; f_equal; lia).
  rewrite N.Div0.mod_mul_r, (N.mul_comm (2 ^ (bits' - b))), N.div_add by (by apply N.pow_nonzero).
  rewrite (N.div_small (_ mod _)) by (apply N.mod_lt; by apply N.pow_nonzero).
  rewrite N.add_0_l, N.Div0.mod_mod, N.Div0.div_div, <-N.pow_add_r.
  do 3 f_equal. unfold len in *. lia.
Qed.

Lemma base_2b_loop_spec n bits i k :
  bits < 8 -> N.of_nat k * b + bits = 8 * N.of_nat i ->
  (N.of_nat k + N.of_nat n) * b <= 8 * len x ->
  @base_2b_loop E b x n bits i (prefix i mod 2 ^ bits) = Ok (digit b x <$> seq k n).
Proof.
  revert bits i k. induction n as [|n IH]; intros bits i k Hbits Hk Hn; [done|].
  cbn [base_2b_loop].
  destruct (refill_spec (N.to_nat b) bits i (N.of_nat k * b)) as (bits' & i' & -> & Hb' & Hi');
    [lia..|].
  cbn [mbind outcome_bind]. rewrite sub_checked_small by lia. cbn [mbind outcome_bind].
  rewrite shr_checked_small by lia. cbn [mbind outcome_bind].
  rewrite !mask_checked by lia. rewrite !land_ones_small, (digit_of_prefix bits' i' k).
  2-4: try unfold len in *; lia.
  assert (Hd : digit b x k < 2 ^ 16).
  { apply N.lt_le_trans with (2 ^ b); [apply N.mod_lt; by apply N.pow_nonzero|].
    by apply N.pow_le_mono_r. }
  change (2 ^ 16) with 65536 in Hd.
  replace (digit b x k <=? 65535) with true by (symmetry; apply N.leb_le; lia).
  cbn [unwrap mbind outcome_bind].
  replace (prefix i' mod 2 ^ bits' mod 2 ^ (bits' - b)) with (prefix i' mod 2 ^ (bits' - b)).
  - rewrite (IH _ _ (k + 1)%nat) by lia. by rewrite Nat.add_1_r.
  - replace (2 ^ bits') with (2 ^ (bits' - b) * 2 ^ b) by (rewrite <-N.pow_add_r; f_equal; lia).
    by rewrite N.Div0.mod_mul_r, N.mul_comm, N.Div0.mod_add, N.Div0.mod_mod.
Qed.
End base_2b.

Lemma base_2b_spec {E} n b x :
  (b <= 16)%nat -> (n * b <= 8 * length x)%nat ->
  @base_2b E n b x = Ok (digit (N.of_nat b) x <$> seq 0 n).
Proof.
  intros Hb Hn. unfold base_2b. rewrite !debug_assert_true.
  - cbn [mbind outcome_bind]. rewrite <-(base_2b_loop_spec (N.of_nat b) x) with (bits := 0) (i := 0%nat).
    + by rewrite take_0.
    + lia.
    + lia.
    + lia.
    + unfold len. lia.
  - apply bool_decide_eq_true. apply Nat.lt_succ_r. apply Nat.Div0.div_lt_upper_bound. lia.
  - by apply bool_decide_eq_true.
Qed.

Lemma digit_lt b x k : digit b x k < 2 ^ b.
Proof. apply N.mod_lt. by apply N.pow_nonzero. Qed.

(** ** Well-formed parameter sets *)

Record suite_wf (S : HashSuite) : Prop := {
  prf_msg_length a b c : length (prf_msg S a b c) = hs_N S;
  h_msg_length a b c d : length (h_msg S a b c d) = hs_M S;
  prf_sk_length a b c : length (prf_sk S a b c) = hs_N S;
  t_hash_length a b c : length (t_hash S a b c) = hs_N S;
  h_hash_length a b c d : length (h_hash S a b c d) = hs_N S;
  f_hash_length a b c : length (f_hash S a b c) = hs_N S
}.

(** What the comments of the traits ask of the type-level sizes. *)
Record params_wf (P : ParameterSet) : Prop := {
  pw_suite : suite_wf P;
  pw_n : (0 < hs_N P <= 32)%nat;
  pw_wots_msg : WotsMsgLen P = (2 * hs_N P)%nat;
  pw_wots_sig : WotsSigLen P = (WotsMsgLen P + CK_LEN)%nat;
  pw_hprime : (0 < HPrime P < 32)%nat;
  pw_d : (0 < p_D P)%nat;
  pw_h : p_H P = (HPrime P * p_D P)%nat;
  pw_trees : (p_H P - HPrime P <= 64)%nat;
  pw_a : (p_A P <= 16)%nat;
  pw_k : N.of_nat (p_K P) * 2 ^ N.of_nat (p_A P) < 2 ^ 32;
  pw_k_pos : (0 < p_K P)%nat;
  pw_md : (p_K P * p_A P <= 8 * MD P)%nat;
  pw_m : (MD P + div_ceil (p_H P - HPrime P) 8 + div_ceil (HPrime P) 8 <= hs_M P)%nat;
  pw_sig_len : SigLen P = N.of_nat (hs_N P + ForsSignature_SIZE P + HypertreeSig_SIZE P);
  pw_vk_len : VkLen P = N.of_nat (2 * hs_N P);
  pw_sk_len : SkLen P = N.of_nat (4 * hs_N P)
}.

Section wots.
Context (P : ParameterSet) (Hwf : params_wf P).
Implicit Types (m sk_seed pk_seed : bytes) (adrs : WotsHash.t) (sig : list bytes).

(** *** The digits of a message and of its checksum *)

Definition msg_digits m : list N := digit 4 m <$> seq 0 (WotsMsgLen P).
Definition checksum m : N := list_sumN (fun x => 15 - x) (msg_digits m).
Definition wots_digits m : list N :=
  msg_digits m ++ (digit 4 (be_bytes 2 (checksum m * 16)) <$> seq 0 3).

Lemma digits_lt_16 x k : digit 4 x k < 16.
Proof. apply (digit_lt 4). Qed.

Lemma msg_digits_lt m : Forall (fun x => x < 16) (msg_digits m).
Proof. apply Forall_fmap, Forall_true. intros k. apply digits_lt_16. Qed.

Lemma length_wots_digits m : length (wots_digits m) = WotsSigLen P.
Proof.
  unfold wots_digits, msg_digits. rewrite length_app, !length_fmap, !length_seq.
  by rewrite (pw_wots_sig P Hwf).
Qed.

Lemma wots_digits_lt m i d : wots_digits m !! i = Some d -> d < 16.
Proof.
  intros Hd%list_elem_of_lookup_2%elem_of_app. destruct Hd as [Hd|Hd].
  - by eapply Forall_forall in Hd; [|apply msg_digits_lt].
  - apply list_elem_of_fmap in Hd as (k & -> & _). apply digits_lt_16.
Qed.

Lemma list_sumN_le_const {A} (f : A -> N) c l :
  (forall x, f x <= c) -> list_sumN f l <= c * len l.
Proof.
  intros Hf. rewrite <-(list_sumN_const (A := A)).
  induction l as [|x l IH]; cbn; [lia|]. pose proof (Hf x). lia.
Qed.

Lemma checksum_le m : checksum m <= 15 * N.of_nat (WotsMsgLen P).
Proof.
  unfold checksum. etrans; [apply (list_sumN_le_const _ 15); lia|].
  unfold len, msg_digits. by rewrite length_fmap, length_seq.
Qed.

Lemma checksum_lt m : checksum m < 4096.
Proof.
  pose proof (checksum_le m). pose proof (pw_n P Hwf). pose proof (pw_wots_msg P Hwf). lia.
Qed.

Lemma checksum_fold l acc :
  Forall (fun x => x < 16) l -> acc + list_sumN (fun x => 15 - x) l <= u16_max ->
  foldM (fun acc x => y ← sub_checked (N.shiftl 1 (N.of_nat LOG_W) - 1) x;
                      @add_checked Error u16_max acc y) acc l
    = Ok (acc + list_sumN (fun x => 15 - x) l).
Proof.
  intros Hl. revert acc. induction Hl as [|x l Hx Hl IH]; intros acc Hacc; cbn in *.
  - by rewrite N.add_0_r.
  - change (N.shiftl 1 (N.of_nat LOG_W) - 1) with 15 in *.
    rewrite sub_checked_small by lia. cbn. rewrite add_checked_small by lia. cbn.
    rewrite IH by lia. f_equal. lia.
Qed.

Lemma msg_csum_spec m : length m = hs_N P -> msg_csum P m = Ok (wots_digits m).
Proof.
  intros Hm. unfold msg_csum. pose proof (pw_wots_msg P Hwf). pose proof (checksum_lt m) as Hlt.
  rewrite base_2b_spec by (unfold LOG_W; lia). cbn [mbind outcome_bind].
  change (digit (N.of_nat LOG_W) m <$> seq 0 (WotsMsgLen P)) with (msg_digits m).
  rewrite checksum_fold; [|apply msg_digits_lt|unfold checksum in Hlt; lia].
  cbn [mbind outcome_bind]. rewrite N.add_0_l. fold (checksum m).
  rewrite shl_checked_small by (change (2 ^ 16) with 65536; change (2 ^ 4) with 16; lia).
  cbn [mbind outcome_bind]. rewrite base_2b_spec; [done|by unfold LOG_W; lia|].
  rewrite length_be_bytes. unfold CK_LEN, LOG_W. lia.
Qed.

(** *** Chains *)

Definition chain (x : bytes) (i s : nat) pk_seed adrs : bytes :=
  foldl (fun tmp j =>
    f_hash P pk_seed (WotsHash.as_ref adrs<| WotsHash.hash_adrs := N.of_nat j |>) tmp) x (seq i s).

Lemma chain_app x i s s' pk_seed adrs :
  chain (chain x i s pk_seed adrs) (i + s) s' pk_seed adrs = chain x i (s + s') pk_seed adrs.
Proof. unfold chain. by rewrite seq_app, foldl_app. Qed.

Lemma length_chain x i s pk_seed adrs :
  length x = hs_N P -> length (chain x i s pk_seed adrs) = hs_N P.
Proof.
  unfold chain. generalize (seq i s). intros l. revert x.
  induction l as [|j l IH]; intros x Hx; cbn; [done|]. apply IH.
  apply f_hash_length, (pw_suite P Hwf).
Qed.

Lemma wots_chain_spec x i s pk_seed adrs :
  i + s < 16 ->
  wots_chain P x i s pk_seed adrs = Ok (chain x (N.to_nat i) (N.to_nat s) pk_seed adrs).
Proof.
  intros Hs. unfold wots_chain. rewrite add_checked_small by lia. cbn [mbind outcome_bind].
  by rewrite debug_assert_true by (by apply N.ltb_lt).
Qed.

Definition wots_public sk_seed pk_seed adrs : bytes :=
  t_hash P pk_seed (WotsPk.as_ref (pk_adrs adrs))
    ((fun i => chain (wots_sk P sk_seed pk_seed adrs i) 0 15 pk_seed (chain_of adrs i))
       <$> seq 0 (WotsSigLen P)).

Lemma wots_pk_gen_spec sk_seed pk_seed adrs :
  wots_pk_gen P sk_seed pk_seed adrs = Ok (wots_public sk_seed pk_seed adrs).
Proof.
  unfold wots_pk_gen. erewrite from_fn_Ok; [reflexivity|]. intros i _. by apply wots_chain_spec.
Qed.

Definition wots_digit m (i : nat) : nat := N.to_nat (default 0 (wots_digits m !! i)).

Lemma wots_digit_lookup m i :
  (i < WotsSigLen P)%nat -> wots_digits m !! i = Some (N.of_nat (wots_digit m i)).
Proof.
  intros Hi. unfold wots_digit.
  destruct (lookup_lt_is_Some_2 (wots_digits m) i) as [d ->]; [by rewrite length_wots_digits|].
  cbn. by rewrite N2Nat.id.
Qed.

Lemma wots_digit_lt m i : (wots_digit m i < 16)%nat.
Proof.
  unfold wots_digit. destruct (wots_digits m !! i) as [d|] eqn:Hd; cbn; [|lia].
  apply wots_digits_lt in Hd. lia.
Qed.

Definition wots_signature m sk_seed pk_seed adrs : list bytes :=
  (fun i => chain (wots_sk P sk_seed pk_seed adrs i) 0 (wots_digit m i) pk_seed (chain_of adrs i))
    <$> seq 0 (WotsSigLen P).

Lemma wots_sign_spec m sk_seed pk_seed adrs :
  length m = hs_N P -> wots_sign P m sk_seed pk_seed adrs = Ok (wots_signature m sk_seed pk_seed adrs).
Proof.
  intros Hm. unfold wots_sign. rewrite msg_csum_spec by done. cbn [mbind outcome_bind].
  apply from_fn_Ok. intros i Hi. rewrite wots_digit_lookup by done. cbn [unwrap mbind outcome_bind].
  pose proof (wots_digit_lt m i). rewrite wots_chain_spec by lia. by rewrite Nat2N.id.
Qed.

(** Each value of a signature hashed up to the end of its chain. *)
Definition wots_opened sig m pk_seed adrs : bytes :=
  t_hash P pk_seed (WotsPk.as_ref (pk_adrs adrs))
    ((fun i => chain (default [] (sig !! i)) (wots_digit m i) (15 - wots_digit m i) pk_seed
                 (chain_of adrs i)) <$> seq 0 (WotsSigLen P)).

Lemma wots_pk_from_sig_spec sig m pk_seed adrs :
  length m = hs_N P -> length sig = WotsSigLen P ->
  wots_pk_from_sig P sig m pk_seed adrs = Ok (wots_opened sig m pk_seed adrs).
Proof.
  intros Hm Hsig. unfold wots_pk_from_sig. rewrite msg_csum_spec by done. cbn [mbind outcome_bind].
  erewrite from_fn_Ok; [reflexivity|]. intros i Hi. cbn beta.
  destruct (lookup_lt_is_Some_2 sig i) as [s Hs]; [by rewrite Hsig|].
  rewrite wots_digit_lookup by done. rewrite Hs. cbn [unwrap mbind outcome_bind default].
  pose proof (wots_digit_lt m i). rewrite sub_checked_small by (unfold W; lia).
  cbn [mbind outcome_bind]. rewrite wots_chain_spec by (unfold W; lia). rewrite Nat2N.id.
  do 2 f_equal. unfold W. lia.
Qed.

Lemma wots_opened_signature m sk_seed pk_seed adrs :
  wots_opened (wots_signature m sk_seed pk_seed adrs) m pk_seed adrs
    = wots_public sk_seed pk_seed adrs.
Proof.
  unfold wots_opened, wots_public, wots_signature. f_equal. apply list_fmap_ext.
  intros k i Hi. apply lookup_seq in Hi as [-> Hi]. cbn [Nat.add].
  rewrite lookup_seq_fmap by done. cbn [default].
  pose proof (wots_digit_lt m k). etrans; [apply (chain_app _ 0 (wots_digit m k))|]. f_equal. lia.
Qed.
End wots.

(** ** Trees and paths *)

Section merkle.
Context {T : Type} (comb : nat -> N -> T -> T -> T).

(** The node above two children, the known one on the side its index says. *)
Definition above (h : nat) (idx : N) (node sibling : T) : T :=
  if N.land idx 1 =? 0 then comb h (N.shiftr idx 1) node sibling
  else comb h (N.shiftr idx 1) sibling node.

(** From leaf [idx] up [h] levels with the siblings [auth]. *)
Fixpoint climb (idx : N) (auth : nat -> T) (leaf : T) (h : nat) : T :=
  match h with
  | O => leaf
  | S h' => above h (N.shiftr idx (N.of_nat h')) (climb idx auth leaf h') (auth h')
  end.

Lemma lxor_1_even i : N.land i 1 = 0 -> i = 2 * N.shiftr i 1 /\ N.lxor i 1 = 2 * N.shiftr i 1 + 1.
Proof.
  rewrite <-N.div2_spec. pose proof (N.div2_odd i) as Hi.
  destruct i as [|[p|p|]]; cbn in *; try done; intros; lia.
Qed.

Lemma lxor_1_odd i : N.land i 1 <> 0 -> i = 2 * N.shiftr i 1 + 1 /\ N.lxor i 1 = 2 * N.shiftr i 1.
Proof.
  rewrite <-N.div2_spec. pose proof (N.div2_odd i) as Hi.
  destruct i as [|[p|p|]]; cbn in *; try done; intros; lia.
Qed.

(** A path of the siblings in a tree leads to the ancestor in that tree. *)
Lemma climb_tree (tree : nat -> N -> T) idx h :
  (forall k i, (k < h)%nat -> tree (S k) i = comb (S k) i (tree k (2 * i)) (tree k (2 * i + 1))) ->
  climb idx (fun j => tree j (N.lxor (N.shiftr idx (N.of_nat j)) 1)) (tree 0%nat idx) h
    = tree h (N.shiftr idx (N.of_nat h)).
Proof.
  induction h as [|h IH]; intros Ht; cbn [climb]; [by rewrite N.shiftr_0_r|].
  rewrite IH by (intros; apply Ht; lia). unfold above.
  rewrite Nat2N.inj_succ, <-N.add_1_r, <-N.shiftr_shiftr.
  set (i := N.shiftr idx (N.of_nat h)). rewrite Ht by lia.
  destruct (N.eqb_spec (N.land i 1) 0) as [He|Ho].
  - destruct (lxor_1_even i He) as [<- ->]. done.
  - destruct (lxor_1_odd i Ho) as [<- ->]. done.
Qed.

Lemma climb_ext idx auth auth' leaf h :
  (forall j, (j < h)%nat -> auth j = auth' j) -> climb idx auth leaf h = climb idx auth' leaf h.
Proof.
  induction h as [|h IH]; intros Ha; cbn [climb]; [done|].
  rewrite IH by (intros; apply Ha; lia). by rewrite Ha by lia.
Qed.
End merkle.

Lemma shiftr_lt_pow2 idx a h : (h <= a)%nat -> idx < 2 ^ N.of_nat a ->
  N.shiftr idx (N.of_nat h) < 2 ^ N.of_nat (a - h).
Proof.
  intros Hh Hi. rewrite N.shiftr_div_pow2. apply N.Div0.div_lt_upper_bound.
  rewrite <-N.pow_add_r. replace (N.of_nat h + N.of_nat (a - h)) with (N.of_nat a) by lia. done.
Qed.

Lemma lxor_1_lt i w : (0 < w)%nat -> i < 2 ^ N.of_nat w -> N.lxor i 1 < 2 ^ N.of_nat w.
Proof.
  intros Hw Hi. replace (2 ^ N.of_nat w) with (2 * 2 ^ N.of_nat (w - 1)) in *
    by (rewrite <-N.pow_succ_r'; f_equal; lia).
  destruct (N.eq_dec (N.land i 1) 0) as [He|Ho].
  - destruct (lxor_1_even i He) as [? ->]. lia.
  - destruct (lxor_1_odd i Ho) as [? ->]. lia.
Qed.

Lemma pow2_lt_32 n : (n < 32)%nat -> 2 ^ N.of_nat n < 2 ^ 32.
Proof. intros. apply N.pow_lt_mono_r; lia. Qed.

(** ** XMSS *)

Section xmss.
Context (P : ParameterSet) (Hwf : params_wf P).
Implicit Types (m sk_seed pk_seed : bytes) (adrs : WotsHash.t).

Definition xmss_comb pk_seed adrs (height : nat) (node : N) (l r : bytes) : bytes :=
  h_hash P pk_seed (HashTree.as_ref (tree_adrs adrs)<| HashTree.tree_height := N.of_nat height |>
                      <| HashTree.tree_index := node |>) l r.

Fixpoint xmss_tree sk_seed pk_seed adrs (height : nat) (node : N) : bytes :=
  match height with
  | O => wots_public P sk_seed pk_seed adrs<| WotsHash.key_pair_adrs := node |>
  | S height' =>
      xmss_comb pk_seed adrs height node (xmss_tree sk_seed pk_seed adrs height' (2 * node))
        (xmss_tree sk_seed pk_seed adrs height' (2 * node + 1))
  end.

Lemma xmss_node_spec sk_seed pk_seed adrs height node :
  (height <= HPrime P)%nat -> node < 2 ^ N.of_nat (HPrime P - height) ->
  xmss_node P sk_seed node height pk_seed adrs = Ok (xmss_tree sk_seed pk_seed adrs height node).
Proof.
  pose proof (pw_hprime P Hwf) as Hh.
  revert node. induction height as [|height IH]; intros node Hle Hnode; cbn [xmss_node].
  all: rewrite debug_assert_true by (by apply bool_decide_eq_true); cbn [mbind outcome_bind].
  all: rewrite shl_checked_small by (lia || (rewrite N.mul_1_l; apply pow2_lt_32; lia)).
  all: cbn [mbind outcome_bind]; rewrite N.mul_1_l.
  all: rewrite debug_assert_true by (by apply N.ltb_lt); cbn [mbind outcome_bind].
  - by apply wots_pk_gen_spec.
  - assert (Hw : 2 * 2 ^ N.of_nat (HPrime P - S height) = 2 ^ N.of_nat (HPrime P - height)).
    { rewrite <-N.pow_succ_r'. f_equal. lia. }
    pose proof (pow2_lt_32 (HPrime P - height) ltac:(lia)) as H32.
    change (2 ^ 32) with 4294967296 in H32.
    rewrite mul_checked_small by lia. cbn [mbind outcome_bind]. rewrite IH by lia.
    cbn [mbind outcome_bind]. rewrite add_checked_small by lia. cbn [mbind outcome_bind].
    by rewrite IH by lia.
Qed.

Lemma xmss_tree_key_pair sk_seed pk_seed adrs k height node :
  xmss_tree sk_seed pk_seed adrs<| WotsHash.key_pair_adrs := k |> height node
    = xmss_tree sk_seed pk_seed adrs height node.
Proof.
  revert node. induction height as [|height IH]; intros node; [done|]. cbn [xmss_tree].
  by rewrite !IH.
Qed.

Definition xmss_path sk_seed pk_seed adrs (idx : N) (j : nat) : bytes :=
  xmss_tree sk_seed pk_seed adrs j (N.lxor (N.shiftr idx (N.of_nat j)) 1).

Definition xmss_signature m sk_seed pk_seed (idx : N) adrs : XmssSig :=
  mkXmssSig (wots_signature P m sk_seed pk_seed adrs<| WotsHash.key_pair_adrs := idx |>)
    (xmss_path sk_seed pk_seed adrs idx <$> seq 0 (HPrime P)).

Lemma xmss_sign_spec m sk_seed pk_seed idx adrs :
  length m = hs_N P -> idx < 2 ^ N.of_nat (HPrime P) ->
  xmss_sign P m sk_seed pk_seed idx adrs = Ok (xmss_signature m sk_seed pk_seed idx adrs).
Proof.
  intros Hm Hidx. unfold xmss_sign. rewrite wots_sign_spec by done. cbn [mbind outcome_bind].
  set (st := fun j => (N.shiftr idx (N.of_nat j), xmss_path sk_seed pk_seed adrs idx <$> seq 0 j)).
  change (idx, []) with (N.shiftr idx 0, @nil bytes).
  rewrite (foldM_seq _ st 0 (HPrime P)); [done|]. intros j [_ Hj]. cbn in Hj. unfold st.
  rewrite xmss_node_spec.
  - cbn [mbind outcome_bind]. rewrite xmss_tree_key_pair, N.shiftr_shiftr, seq_app, fmap_app.
    do 3 f_equal. lia.
  - lia.
  - apply lxor_1_lt; [lia|]. apply shiftr_lt_pow2; [lia|done].
Qed.

(** The root that a signature leads to. *)
Definition xmss_opened (idx : N) (sig : XmssSig) m pk_seed adrs : bytes :=
  climb (xmss_comb pk_seed adrs) idx (fun j => default [] (xs_auth sig !! j))
    (wots_opened P (xs_sig sig) m pk_seed adrs<| WotsHash.key_pair_adrs := idx |>) (HPrime P).

Definition xmss_sig_wf (sig : XmssSig) : Prop :=
  length (xs_sig sig) = WotsSigLen P /\ length (xs_auth sig) = HPrime P /\
  Forall (fun b => length b = hs_N P) (xs_sig sig) /\
  Forall (fun b => length b = hs_N P) (xs_auth sig).

Lemma xmss_pk_from_sig_spec idx sig m pk_seed adrs :
  length m = hs_N P -> xmss_sig_wf sig ->
  xmss_pk_from_sig P idx sig m pk_seed adrs = Ok (xmss_opened idx sig m pk_seed adrs).
Proof.
  intros Hm (Hsig & Hauth & _). unfold xmss_pk_from_sig.
  rewrite wots_pk_from_sig_spec by done. cbn [mbind outcome_bind].
  set (leaf := wots_opened P (xs_sig sig) m pk_seed _).
  set (st := fun j => (N.shiftr idx (N.of_nat j),
    climb (xmss_comb pk_seed adrs) idx (fun j => default [] (xs_auth sig !! j)) leaf j)).
  change (idx, leaf) with (st 0%nat). rewrite (foldM_seq _ st); [done|].
  intros j [_ Hj]. cbn in Hj. unfold st. cbn beta zeta.
  destruct (lookup_lt_is_Some_2 (xs_auth sig) j) as [a Ha]; [by rewrite Hauth|].
  rewrite Ha. cbn [unwrap mbind outcome_bind]. rewrite Nat.add_1_r. cbn [climb]. rewrite Ha.
  rewrite N.shiftr_shiftr. unfold above, xmss_comb. rewrite N.shiftr_shiftr.
  replace (N.of_nat (S j)) with (N.of_nat j + 1) by lia. done.
Qed.

(** A signature opens to the root of the tree it was made in. *)
Lemma xmss_opened_signature m sk_seed pk_seed idx adrs :
  idx < 2 ^ N.of_nat (HPrime P) ->
  xmss_opened idx (xmss_signature m sk_seed pk_seed idx adrs) m pk_seed adrs
    = xmss_tree sk_seed pk_seed adrs (HPrime P) 0.
Proof.
  intros Hidx. unfold xmss_opened, xmss_signature. cbn [xs_sig xs_auth].
  rewrite wots_opened_signature by done.
  rewrite (climb_ext _ _ _ (xmss_path sk_seed pk_seed adrs idx)).
  - pose proof (climb_tree (xmss_comb pk_seed adrs) (xmss_tree sk_seed pk_seed adrs) idx (HPrime P))
      as Hc. etrans; [apply Hc; done|]. f_equal.
    rewrite N.shiftr_div_pow2. by apply N.div_small.
  - intros j Hj. by rewrite lookup_seq_fmap.
Qed.

Lemma length_xmss_opened idx sig m pk_seed adrs :
  length (xmss_opened idx sig m pk_seed adrs) = hs_N P.
Proof.
  pose proof (pw_hprime P Hwf). unfold xmss_opened. destruct (HPrime P) as [|h]; [lia|].
  cbn [climb]. unfold above, xmss_comb. case_match; apply h_hash_length, (pw_suite P Hwf).
Qed.

Lemma length_xmss_tree sk_seed pk_seed adrs h i : length (xmss_tree sk_seed pk_seed adrs h i) = hs_N P.
Proof. destruct h; [apply t_hash_length|apply h_hash_length]; apply (pw_suite P Hwf). Qed.

Lemma xmss_signature_wf m sk_seed pk_seed idx adrs :
  xmss_sig_wf (xmss_signature m sk_seed pk_seed idx adrs).
Proof.
  unfold xmss_sig_wf, xmss_signature, wots_signature. cbn [xs_sig xs_auth].
  rewrite !length_fmap, !length_seq. split_and!; [done|done|..].
  - apply Forall_fmap, Forall_true. intros i. apply length_chain; [done|].
    apply prf_sk_length, (pw_suite P Hwf).
  - apply Forall_fmap, Forall_true. intros j. apply length_xmss_tree.
Qed.
End xmss.
