(* ===== verification/SlhSignProps.v ===== *)
(** * SLH-DSA: the hypertree, FORS, and signing followed by verification.

    The layers of the hypertree and the trees of FORS are opened as in [SlhDsaProps];
    [SigningKey] and [VerifyingKey] are then shown to agree for every parameter set. *)

From S2P Require Import Prelude Crypto SlhDsa SlhDsaProps.

(** ** The hypertree *)

Section hypertree.
Context (P : ParameterSet) (Hwf : params_wf P).
Implicit Types (m sk_seed pk_seed : bytes).

Definition tree_at (idx_tree : N) (j : nat) : N := N.shiftr idx_tree (N.of_nat (HPrime P * j)).
Definition leaf_at (idx_tree idx_leaf : N) (j : nat) : N :=
  match j with
  | O => idx_leaf
  | S j' => tree_at idx_tree j' mod 2 ^ N.of_nat (HPrime P)
  end.

Lemma next_layer_spec idx_tree j :
  next_layer P (tree_at idx_tree j) = Ok (tree_at idx_tree (S j), leaf_at idx_tree 0 (S j)).
Proof.
  pose proof (pw_hprime P Hwf). unfold next_layer. rewrite mask_checked by lia.
  rewrite land_ones_small.
  assert (Hlt : tree_at idx_tree j mod 2 ^ N.of_nat (HPrime P) < 2 ^ 32).
  { etrans; [apply N.mod_lt; by apply N.pow_nonzero|]. apply pow2_lt_32. lia. }
  change (2 ^ 32) with 4294967296 in Hlt.
  replace (_ <=? u32_max) with true by (symmetry; apply N.leb_le; lia).
  cbn [unwrap mbind outcome_bind]. rewrite shr_checked_small by lia. cbn [mbind outcome_bind].
  rewrite <-N.shiftr_div_pow2. unfold tree_at, leaf_at. rewrite N.shiftr_shiftr.
  do 3 f_equal. lia.
Qed.

Lemma leaf_at_lt idx_tree idx_leaf j :
  idx_leaf < 2 ^ N.of_nat (HPrime P) -> leaf_at idx_tree idx_leaf j < 2 ^ N.of_nat (HPrime P).
Proof. intros. destruct j; [done|]. apply N.mod_lt. by apply N.pow_nonzero. Qed.

(** The root reached at layer [j]. *)
Fixpoint ht_opened (sig : list XmssSig) m pk_seed (idx_tree idx_leaf : N) (j : nat) : bytes :=
  xmss_opened P (leaf_at idx_tree idx_leaf j) (default (mkXmssSig [] []) (sig !! j))
    (match j with O => m | S j' => ht_opened sig m pk_seed idx_tree idx_leaf j' end)
    pk_seed (layer_of j (tree_at idx_tree j)).

Definition ht_sig_wf (sig : list XmssSig) : Prop :=
  length sig = p_D P /\ Forall (xmss_sig_wf P) sig.

Lemma ht_sig_wf_lookup sig j : ht_sig_wf sig -> (j < p_D P)%nat ->
  exists s, sig !! j = Some s /\ xmss_sig_wf P s.
Proof.
  intros [Hl Hs] Hj. destruct (lookup_lt_is_Some_2 sig j) as [s Hj']; [by rewrite Hl|].
  exists s. split; [done|]. by eapply Forall_lookup_1.
Qed.

Lemma length_ht_opened sig m pk_seed idx_tree idx_leaf j :
  length (ht_opened sig m pk_seed idx_tree idx_leaf j) = hs_N P.
Proof. destruct j; by apply length_xmss_opened. Qed.

Lemma ht_verify_spec m sig pk_seed idx_tree idx_leaf pk_root :
  length m = hs_N P -> ht_sig_wf sig ->
  ht_verify P m sig pk_seed idx_tree idx_leaf pk_root
    = Ok (bool_decide (ht_opened sig m pk_seed idx_tree idx_leaf (p_D P - 1) = pk_root)).
Proof.
  intros Hm Hsig. pose proof (pw_d P Hwf) as Hd. unfold ht_verify.
  destruct (ht_sig_wf_lookup sig 0 Hsig Hd) as (s0 & Hs0 & Hw0). rewrite Hs0.
  cbn [unwrap mbind outcome_bind]. rewrite xmss_pk_from_sig_spec by done. cbn [mbind outcome_bind].
  set (st := fun k => (tree_at idx_tree (k - 1), ht_opened sig m pk_seed idx_tree idx_leaf (k - 1))).
  replace (idx_tree, _) with (st 1%nat).
  2: { unfold st. cbn [Nat.sub ht_opened]. rewrite Hs0. unfold tree_at. rewrite Nat.mul_0_r.
       by rewrite N.shiftr_0_r. }
  rewrite (foldM_seq _ st).
  - cbn [mbind outcome_bind]. unfold st.
    by replace (1 + (p_D P - 1) - 1)%nat with (p_D P - 1)%nat by lia.
  - intros j Hj. unfold st. rewrite next_layer_spec. cbn [mbind outcome_bind].
    destruct (ht_sig_wf_lookup sig j Hsig ltac:(lia)) as (s & Hs & Hw). rewrite Hs.
    cbn [unwrap mbind outcome_bind].
    replace (S (j - 1)) with j by lia.
    rewrite xmss_pk_from_sig_spec by (done || apply length_ht_opened). cbn [mbind outcome_bind].
    replace (j + 1 - 1)%nat with (S (j - 1)) by lia. cbn [ht_opened].
    replace (S (j - 1)) with j by lia. rewrite Hs. destruct j; [lia|]. done.
Qed.

(** The root of the tree that signs at layer [j], and the signature made there. *)
Definition layer_root sk_seed pk_seed (idx_tree : N) (j : nat) : bytes :=
  xmss_tree P sk_seed pk_seed (layer_of j (tree_at idx_tree j)) (HPrime P) 0.
Definition layer_sig m sk_seed pk_seed (idx_tree idx_leaf : N) (j : nat) : XmssSig :=
  xmss_signature P (match j with O => m | S j' => layer_root sk_seed pk_seed idx_tree j' end)
    sk_seed pk_seed (leaf_at idx_tree idx_leaf j) (layer_of j (tree_at idx_tree j)).
Definition ht_signature m sk_seed pk_seed idx_tree idx_leaf : list XmssSig :=
  layer_sig m sk_seed pk_seed idx_tree idx_leaf <$> seq 0 (p_D P).

Lemma ht_signature_wf m sk_seed pk_seed idx_tree idx_leaf :
  ht_sig_wf (ht_signature m sk_seed pk_seed idx_tree idx_leaf).
Proof.
  split; [by unfold ht_signature; rewrite length_fmap, length_seq|].
  apply Forall_fmap, Forall_true. intros j. by apply xmss_signature_wf.
Qed.

Lemma ht_opened_signature m sk_seed pk_seed idx_tree idx_leaf j :
  idx_leaf < 2 ^ N.of_nat (HPrime P) -> (j < p_D P)%nat ->
  ht_opened (ht_signature m sk_seed pk_seed idx_tree idx_leaf) m pk_seed idx_tree idx_leaf j
    = layer_root sk_seed pk_seed idx_tree j.
Proof.
  intros Hleaf. induction j as [|j IH]; intros Hj; cbn [ht_opened];
    unfold ht_signature at 1; rewrite lookup_seq_fmap by done; cbn [default].
  - by apply xmss_opened_signature.
  - rewrite IH by lia. apply xmss_opened_signature. by apply leaf_at_lt.
Qed.

Lemma ht_sign_spec m sk_seed pk_seed idx_tree idx_leaf :
  length m = hs_N P -> idx_leaf < 2 ^ N.of_nat (HPrime P) ->
  ht_sign P m sk_seed pk_seed idx_tree idx_leaf
    = Ok (ht_signature m sk_seed pk_seed idx_tree idx_leaf).
Proof.
  intros Hm Hleaf. pose proof (pw_d P Hwf) as Hd. unfold ht_sign.
  rewrite debug_assert_true by (by apply bool_decide_eq_true). cbn [mbind outcome_bind].
  rewrite xmss_sign_spec by done. cbn [mbind outcome_bind].
  rewrite xmss_pk_from_sig_spec by (done || by apply xmss_signature_wf). cbn [mbind outcome_bind].
  rewrite xmss_opened_signature by done.
  set (st := fun k => (tree_at idx_tree (k - 1),
    layer_root sk_seed pk_seed idx_tree (min (k - 1) (p_D P - 2)),
    layer_sig m sk_seed pk_seed idx_tree idx_leaf <$> seq 0 k)).
  assert (H0 : tree_at idx_tree 0 = idx_tree).
  { unfold tree_at. rewrite Nat.mul_0_r. apply N.shiftr_0_r. }
  replace (idx_tree, _, _) with (st 1%nat).
  2: { unfold st, layer_sig, layer_root. cbn [Nat.sub Nat.min seq fmap list_fmap leaf_at].
       by rewrite H0. }
  rewrite (foldM_seq _ st).
  - cbn [mbind outcome_bind]. unfold st, ht_signature. do 3 f_equal. lia.
  - intros j Hj. unfold st. rewrite next_layer_spec. cbn [mbind outcome_bind].
    destruct j as [|j]; [lia|]. replace (S j - 1)%nat with j by lia.
    replace (min j (p_D P - 2)) with j by lia.
    replace (S j + 1 - 1)%nat with (S j) by lia.
    assert (leaf_at idx_tree 0 (S j) < 2 ^ N.of_nat (HPrime P))
      by (apply N.mod_lt; by apply N.pow_nonzero).
    rewrite xmss_sign_spec by (done || by apply length_xmss_tree).
    cbn [mbind outcome_bind].
    rewrite (xmss_pk_from_sig_spec P Hwf)
      by (by apply length_xmss_tree || by apply xmss_signature_wf).
    rewrite xmss_opened_signature by done.
    rewrite seq_app, fmap_app.
    case_bool_decide; cbn [mbind outcome_bind].
    + by replace (min (S j) (p_D P - 2)) with (S j) by lia.
    + by replace (min (S j) (p_D P - 2)) with j by lia.
Qed.
End hypertree.

(** ** FORS *)

Lemma land_1_mod i : N.land i 1 = i mod 2.
Proof. apply (N.land_ones i 1). Qed.

Lemma lxor_1_add a x : N.lxor (2 * a + x) 1 = 2 * a + N.lxor x 1.
Proof.
  assert (Hp : N.land (2 * a + x) 1 = N.land x 1).
  { rewrite !land_1_mod, N.add_comm, (N.mul_comm 2). apply N.Div0.mod_add. }
  assert (Hs : N.shiftr (2 * a + x) 1 = a + N.shiftr x 1).
  { rewrite !N.shiftr_div_pow2. change (2 ^ 1) with 2. rewrite (N.mul_comm 2). by apply N.div_add_l. }
  destruct (N.eq_dec (N.land x 1) 0) as [He|Ho].
  - destruct (lxor_1_even x He) as [_ ->]. destruct (lxor_1_even (2 * a + x)) as [_ ->]; lia.
  - destruct (lxor_1_odd x Ho) as [_ ->]. destruct (lxor_1_odd (2 * a + x)) as [_ ->]; lia.
Qed.

Section fors.
Context (P : ParameterSet) (Hwf : params_wf P).
Implicit Types (md sk_seed pk_seed : bytes) (adrs : ForsTree.t).

Definition fors_comb pk_seed adrs (z : nat) (i : N) (l r : bytes) : bytes :=
  h_hash P pk_seed (ForsTree.as_ref (fors_adrs adrs (N.of_nat z) i)) l r.

Fixpoint fors_tree sk_seed pk_seed adrs (z : nat) (i : N) : bytes :=
  match z with
  | O => f_hash P pk_seed (ForsTree.as_ref (fors_adrs adrs 0 i)) (fors_sk_gen P sk_seed pk_seed adrs i)
  | S z' => fors_comb pk_seed adrs z i (fors_tree sk_seed pk_seed adrs z' (2 * i))
              (fors_tree sk_seed pk_seed adrs z' (2 * i + 1))
  end.

Lemma fors_width z : (z <= p_A P)%nat ->
  N.of_nat (p_K P) * 2 ^ N.of_nat (p_A P - z) < 2 ^ 32.
Proof.
  intros Hz. eapply N.le_lt_trans; [|apply (pw_k P Hwf)].
  apply N.mul_le_mono_l, N.pow_le_mono_r; lia.
Qed.

Lemma fors_node_spec sk_seed pk_seed adrs z i :
  (z <= p_A P)%nat -> i < N.of_nat (p_K P) * 2 ^ N.of_nat (p_A P - z) ->
  fors_node P sk_seed i z pk_seed adrs = Ok (fors_tree sk_seed pk_seed adrs z i).
Proof.
  pose proof (pw_a P Hwf) as Ha.
  revert i. induction z as [|z IH]; intros i Hle Hi; cbn [fors_node].
  all: rewrite debug_assert_true by (by apply bool_decide_eq_true); cbn [mbind outcome_bind].
  all: rewrite shl_checked_small by (lia || by apply fors_width).
  all: cbn [mbind outcome_bind].
  all: rewrite debug_assert_true by (by apply N.ltb_lt); cbn [mbind outcome_bind].
  1: done.
  assert (Hw : 2 * 2 ^ N.of_nat (p_A P - S z) = 2 ^ N.of_nat (p_A P - z)).
  { rewrite <-N.pow_succ_r'. f_equal. lia. }
  pose proof (fors_width z ltac:(lia)) as H32. change (2 ^ 32) with 4294967296 in H32.
  rewrite <-Hw in *. rewrite mul_checked_small by nia. cbn [mbind outcome_bind].
  rewrite IH by (lia || nia). cbn [mbind outcome_bind]. rewrite add_checked_small by nia.
  cbn [mbind outcome_bind]. by rewrite IH by (lia || nia).
Qed.

Definition fors_leaf md (i : nat) : N :=
  N.of_nat i * 2 ^ N.of_nat (p_A P) + digit (N.of_nat (p_A P)) md i.

Lemma fors_index_spec i j x :
  (i < p_K P)%nat -> (j <= p_A P)%nat -> x < 2 ^ N.of_nat (p_A P - j) ->
  fors_index i (p_A P - j) x = Ok (N.of_nat i * 2 ^ N.of_nat (p_A P - j) + x).
Proof.
  intros Hi Hj Hx. pose proof (pw_a P Hwf). pose proof (fors_width j Hj) as H32. unfold fors_index.
  change (2 ^ 32) with 4294967296 in *.
  rewrite shl_checked_small by (lia || (change (2 ^ 32) with 4294967296; nia)).
  cbn [mbind outcome_bind]. apply add_checked_small. nia.
Qed.

(** Level [j] of the leaf index: the index of the tree and the high bits of the digit. *)
Lemma fors_leaf_shiftr md i j : (j <= p_A P)%nat ->
  N.shiftr (fors_leaf md i) (N.of_nat j)
    = N.of_nat i * 2 ^ N.of_nat (p_A P - j)
      + N.shiftr (digit (N.of_nat (p_A P)) md i) (N.of_nat j).
Proof.
  intros Hj. unfold fors_leaf. rewrite !N.shiftr_div_pow2.
  replace (2 ^ N.of_nat (p_A P)) with (2 ^ N.of_nat (p_A P - j) * 2 ^ N.of_nat j)
    by (rewrite <-N.pow_add_r; f_equal; lia).
  rewrite N.mul_assoc. apply N.div_add_l. by apply N.pow_nonzero.
Qed.

Lemma fors_leaf_bit md i j : (j < p_A P)%nat ->
  exists a, N.shiftr (fors_leaf md i) (N.of_nat j)
    = 2 * a + N.shiftr (digit (N.of_nat (p_A P)) md i) (N.of_nat j) /\
    N.of_nat i * 2 ^ N.of_nat (p_A P - j) = 2 * a.
Proof.
  intros Hj. exists (N.of_nat i * 2 ^ N.of_nat (p_A P - S j)).
  assert (Hw : 2 * 2 ^ N.of_nat (p_A P - S j) = 2 ^ N.of_nat (p_A P - j)).
  { rewrite <-N.pow_succ_r'. f_equal. lia. }
  rewrite fors_leaf_shiftr, <-Hw by lia. lia.
Qed.

Lemma digit_shiftr_lt md i j : (j <= p_A P)%nat ->
  N.shiftr (digit (N.of_nat (p_A P)) md i) (N.of_nat j) < 2 ^ N.of_nat (p_A P - j).
Proof. intros. apply shiftr_lt_pow2; [done|]. apply digit_lt. Qed.

Definition fors_signature md sk_seed pk_seed adrs (i : nat) : ForsMTSig :=
  mkForsMTSig (fors_sk_gen P sk_seed pk_seed adrs (fors_leaf md i))
    ((fun j => fors_tree sk_seed pk_seed adrs j
                 (N.lxor (N.shiftr (fors_leaf md i) (N.of_nat j)) 1)) <$> seq 0 (p_A P)).

Lemma fors_indices md : length md = MD P ->
  @base_2b Error (p_K P) (p_A P) md = Ok (digit (N.of_nat (p_A P)) md <$> seq 0 (p_K P)).
Proof.
  intros Hmd. apply base_2b_spec; [apply (pw_a P Hwf)|]. rewrite Hmd. apply (pw_md P Hwf).
Qed.

Lemma fors_sign_spec md sk_seed pk_seed adrs :
  length md = MD P ->
  fors_sign P md sk_seed pk_seed adrs
    = Ok (fors_signature md sk_seed pk_seed adrs <$> seq 0 (p_K P)).
Proof.
  intros Hmd. pose proof (pw_a P Hwf). unfold fors_sign. rewrite fors_indices by done.
  cbn [mbind outcome_bind]. apply from_fn_Ok. intros i Hi. rewrite lookup_seq_fmap by done.
  cbn [unwrap mbind outcome_bind].
  pose proof (fors_index_spec i 0 (digit (N.of_nat (p_A P)) md i) Hi) as Hl.
  rewrite Nat.sub_0_r in Hl. rewrite Hl by (lia || apply digit_lt). cbn [mbind outcome_bind].
  erewrite from_fn_Ok; [reflexivity|]. intros j Hj. cbn beta.
  rewrite shr_checked_small, <-N.shiftr_div_pow2 by lia. cbn [mbind outcome_bind].
  pose proof (digit_shiftr_lt md i j ltac:(lia)) as Hd.
  rewrite fors_index_spec by (lia || (apply lxor_1_lt; [lia|done])). cbn [mbind outcome_bind].
  destruct (fors_leaf_bit md i j Hj) as (a & -> & Ha). rewrite Ha, lxor_1_add.
  apply fors_node_spec; [lia|]. pose proof (lxor_1_lt _ (p_A P - j) ltac:(lia) Hd). nia.
Qed.

Definition fors_opened (sig : ForsMTSig) md pk_seed adrs (i : nat) : bytes :=
  climb (fors_comb pk_seed adrs) (fors_leaf md i) (fun j => default [] (fm_auth sig !! j))
    (f_hash P pk_seed (ForsTree.as_ref (fors_adrs adrs 0 (fors_leaf md i))) (fm_sk sig)) (p_A P).

Definition fors_mt_wf (sig : ForsMTSig) : Prop :=
  length (fm_sk sig) = hs_N P /\ length (fm_auth sig) = p_A P /\
  Forall (fun b => length b = hs_N P) (fm_auth sig).

Definition fors_sig_wf (sig : list ForsMTSig) : Prop :=
  length sig = p_K P /\ Forall fors_mt_wf sig.

Lemma fors_root_spec sig md pk_seed adrs i :
  fors_mt_wf sig ->
  fors_root P sig (digit (N.of_nat (p_A P)) md i) (fors_leaf md i) pk_seed adrs
    = Ok (fors_opened sig md pk_seed adrs i).
Proof.
  intros (_ & Hauth & _). pose proof (pw_a P Hwf). unfold fors_root.
  set (leaf := f_hash P pk_seed _ _).
  set (st := fun j => (N.shiftr (fors_leaf md i) (N.of_nat j),
    climb (fors_comb pk_seed adrs) (fors_leaf md i) (fun j => default [] (fm_auth sig !! j)) leaf j)).
  replace (fors_leaf md i, leaf) with (st 0%nat) by (unfold st; by rewrite N.shiftr_0_r).
  rewrite (foldM_seq _ st); [done|]. intros j [_ Hj]. cbn in Hj. unfold st. cbn beta zeta.
  destruct (lookup_lt_is_Some_2 (fm_auth sig) j) as [a Ha]; [by rewrite Hauth|].
  rewrite Ha. cbn [unwrap mbind outcome_bind]. rewrite shr_checked_small, <-N.shiftr_div_pow2 by lia.
  cbn [mbind outcome_bind]. rewrite Nat.add_1_r. cbn [climb]. rewrite Ha.
  unfold above, fors_comb. rewrite N.shiftr_shiftr.
  replace (N.of_nat (S j)) with (N.of_nat j + 1) by lia.
  destruct (fors_leaf_bit md i j Hj) as (b & Hb & _).
  replace (N.land (N.shiftr (digit (N.of_nat (p_A P)) md i) (N.of_nat j)) 1)
    with (N.land (N.shiftr (fors_leaf md i) (N.of_nat j)) 1); [done|].
  by rewrite Hb, !land_1_mod, N.add_comm, (N.mul_comm 2), N.Div0.mod_add.
Qed.

Definition fors_pk (sig : list ForsMTSig) md pk_seed adrs : bytes :=
  t_hash P pk_seed (ForsRoots.as_ref (fors_roots adrs))
    ((fun i => fors_opened (default (mkForsMTSig [] []) (sig !! i)) md pk_seed adrs i)
       <$> seq 0 (p_K P)).

Lemma fors_pk_from_sig_spec sig md pk_seed adrs :
  length md = MD P -> fors_sig_wf sig ->
  fors_pk_from_sig P sig md pk_seed adrs = Ok (fors_pk sig md pk_seed adrs).
Proof.
  intros Hmd [Hlen Hsig]. unfold fors_pk_from_sig. rewrite fors_indices by done.
  cbn [mbind outcome_bind]. erewrite from_fn_Ok; [reflexivity|]. intros i Hi. cbn beta.
  destruct (lookup_lt_is_Some_2 sig i) as [s Hs]; [by rewrite Hlen|].
  rewrite Hs, lookup_seq_fmap by done. cbn [unwrap mbind outcome_bind default].
  pose proof (fors_index_spec i 0 (digit (N.of_nat (p_A P)) md i) Hi) as Hl.
  rewrite Nat.sub_0_r in Hl. rewrite Hl by (lia || apply digit_lt). cbn [mbind outcome_bind].
  apply fors_root_spec. by eapply Forall_lookup_1.
Qed.

Lemma length_fors_tree sk_seed pk_seed adrs z i : length (fors_tree sk_seed pk_seed adrs z i) = hs_N P.
Proof. destruct z; [apply f_hash_length|apply h_hash_length]; apply (pw_suite P Hwf). Qed.

Lemma fors_signature_wf md sk_seed pk_seed adrs :
  fors_sig_wf (fors_signature md sk_seed pk_seed adrs <$> seq 0 (p_K P)).
Proof.
  split; [by rewrite length_fmap, length_seq|]. apply Forall_fmap, Forall_true. intros i.
  unfold fors_mt_wf, fors_signature. split_and!; cbn [fm_sk fm_auth].
  - apply prf_sk_length, (pw_suite P Hwf).
  - by rewrite length_fmap, length_seq.
  - apply Forall_fmap, Forall_true. intros j. apply length_fors_tree.
Qed.

(** A FORS signature opens to the roots of the [K] trees, whatever was signed. *)
Lemma fors_pk_signature md sk_seed pk_seed adrs :
  fors_pk (fors_signature md sk_seed pk_seed adrs <$> seq 0 (p_K P)) md pk_seed adrs
    = t_hash P pk_seed (ForsRoots.as_ref (fors_roots adrs))
        ((fun i => fors_tree sk_seed pk_seed adrs (p_A P) (N.of_nat i)) <$> seq 0 (p_K P)).
Proof.
  unfold fors_pk. f_equal. apply list_fmap_ext. intros k i Hi.
  apply lookup_seq in Hi as [-> Hi]. cbn [Nat.add]. rewrite lookup_seq_fmap by done.
  unfold fors_opened, fors_signature. cbn [from_option id fm_sk fm_auth].
  rewrite (climb_ext _ _ _ (fun j => fors_tree sk_seed pk_seed adrs j
             (N.lxor (N.shiftr (fors_leaf md k) (N.of_nat j)) 1)))
    by (intros j Hj; cbn beta; by rewrite lookup_seq_fmap).
  etrans; [by apply (climb_tree (fors_comb pk_seed adrs) (fors_tree sk_seed pk_seed adrs))|].
  f_equal. rewrite fors_leaf_shiftr, Nat.sub_diag, N.shiftr_div_pow2 by done.
  rewrite (N.div_small (digit _ _ _)) by apply digit_lt. cbn. lia.
Qed.
End fors.

(** ** The digest of a message *)

Lemma tree_mask_ones s : s <= 64 -> tree_mask s = N.ones s.
Proof.
  intros Hs. unfold tree_mask. rewrite N.ones_equiv. destruct (N.ltb_spec s 64) as [Hlt|].
  - cbn [from_option id]. rewrite N.shiftl_1_l. assert (2 ^ s <> 0) by (by apply N.pow_nonzero).
    replace (2 ^ s + u64_max) with (N.pred (2 ^ s) + 1 * 2 ^ 64)
      by (change (2 ^ 64) with 18446744073709551616; lia).
    rewrite N.Div0.mod_add, N.mod_small; [done|].
    pose proof (N.pow_lt_mono_r 2 s 64 ltac:(lia) Hlt). lia.
  - replace s with 64 by lia. done.
Qed.

Lemma div_ceil_le a b : (a <= 8 * b)%nat -> (div_ceil a 8 <= b)%nat.
Proof. intros. unfold div_ceil. apply Nat.lt_succ_r, Nat.Div0.div_lt_upper_bound. lia. Qed.

Lemma right_align_spec {E} w src n : length src = n -> (n <= w)%nat ->
  @right_align E w src n = Ok (zeroes (w - n) ++ src).
Proof.
  intros Hs Hn. unfold right_align, copy_from_slice, zeroes. rewrite length_replicate.
  rewrite (bool_decide_true (n = length src)) by done. cbn [mbind outcome_bind].
  by rewrite bool_decide_true.
Qed.

Section keys.
Context (P : ParameterSet) (Hwf : params_wf P).

Lemma split_digest_spec digest :
  length digest = hs_M P ->
  exists md idx_tree idx_leaf, split_digest P digest = Ok (md, idx_tree, idx_leaf) /\
    length md = MD P /\ idx_tree < 2 ^ N.of_nat (p_H P - HPrime P) /\
    idx_leaf < 2 ^ N.of_nat (HPrime P).
Proof.
  intros Hlen. pose proof (pw_m P Hwf). pose proof (pw_hprime P Hwf). pose proof (pw_d P Hwf).
  pose proof (pw_h P Hwf). pose proof (pw_trees P Hwf). unfold split_digest.
  rewrite bool_decide_true by nia. cbn [unwrap mbind outcome_bind].
  rewrite right_align_spec; [|rewrite length_slice; lia|by apply div_ceil_le; lia].
  cbn [mbind outcome_bind].
  rewrite right_align_spec; [|rewrite length_slice; lia|by apply div_ceil_le; lia].
  cbn [mbind outcome_bind]. rewrite mask_checked by lia. do 3 eexists. split; [done|].
  split_and!.
  - rewrite length_slice; lia.
  - rewrite tree_mask_ones by lia. rewrite N.land_ones. apply N.mod_lt. by apply N.pow_nonzero.
  - rewrite N.land_ones. apply N.mod_lt. by apply N.pow_nonzero.
Qed.

(** ** Keys *)

Definition verifying_key_wf (vk : VerifyingKey) : Prop :=
  length (vk_pk_seed vk) = hs_N P /\ length (vk_pk_root vk) = hs_N P.

(** A key pair: the root is that of the top tree. *)
Definition signing_key_wf (sk : SigningKey) : Prop :=
  length (sk_sk_seed sk) = hs_N P /\ length (sk_sk_prf sk) = hs_N P /\
  length (vk_pk_seed (sk_verifying_key sk)) = hs_N P /\
  vk_pk_root (sk_verifying_key sk)
    = layer_root P (sk_sk_seed sk) (vk_pk_seed (sk_verifying_key sk)) 0 (p_D P - 1).

Lemma signing_key_vk_wf sk : signing_key_wf sk -> verifying_key_wf (sk_verifying_key sk).
Proof. intros (_ & _ & ? & Hr). split; [done|]. rewrite Hr. by apply length_xmss_tree. Qed.

Lemma from_seed_spec sk_seed sk_prf pk_seed :
  length sk_seed = hs_N P -> length sk_prf = hs_N P -> length pk_seed = hs_N P ->
  exists sk, from_seed P sk_seed sk_prf pk_seed = Ok sk /\ signing_key_wf sk.
Proof.
  intros ???. pose proof (pw_d P Hwf). unfold from_seed. rewrite sub_checked_small by lia.
  cbn [mbind outcome_bind]. rewrite xmss_node_spec; [|done|done|by rewrite Nat.sub_diag].
  cbn [mbind outcome_bind]. eexists. split; [done|]. split_and!; [done..|]. cbn.
  unfold layer_root, tree_at, layer_of. rewrite N.shiftr_0_l.
  replace (N.of_nat (p_D P - 1)) with (N.of_nat (p_D P) - 1) by lia. done.
Qed.

(** ** Signatures *)

Definition signature_wf (sig : Signature) : Prop :=
  length (sig_randomizer sig) = hs_N P /\ fors_sig_wf P (sig_fors sig) /\ ht_sig_wf P (sig_ht sig).

(** Verification computes a digest, opens FORS and climbs the hypertree; it never panics. *)
Lemma slh_verify_internal_spec vk msg sig :
  signature_wf sig ->
  exists md idx_tree idx_leaf,
    split_digest P (h_msg P (sig_randomizer sig) (vk_pk_seed vk) (vk_pk_root vk) msg)
      = Ok (md, idx_tree, idx_leaf) /\
    slh_verify_internal P vk msg sig
      = ensure (bool_decide (ht_opened P (sig_ht sig)
          (fors_pk P (sig_fors sig) md (vk_pk_seed vk) (ForsTree.new idx_tree idx_leaf))
          (vk_pk_seed vk) idx_tree idx_leaf (p_D P - 1) = vk_pk_root vk)) SignatureError.
Proof.
  intros (_ & Hfors & Hht). unfold slh_verify_internal.
  destruct (split_digest_spec (h_msg P (sig_randomizer sig) (vk_pk_seed vk) (vk_pk_root vk) msg))
    as (md & it & il & Hs & Hmd & _); [by apply h_msg_length, pw_suite|].
  exists md, it, il. split; [done|]. rewrite Hs. cbn [mbind outcome_bind].
  rewrite fors_pk_from_sig_spec by done. cbn [mbind outcome_bind].
  rewrite ht_verify_spec; [done|done| |done]. by apply t_hash_length, pw_suite.
Qed.

Lemma tree_at_top idx_tree :
  idx_tree < 2 ^ N.of_nat (p_H P - HPrime P) -> tree_at P idx_tree (p_D P - 1) = 0.
Proof.
  intros Hlt. unfold tree_at. rewrite N.shiftr_div_pow2. apply N.div_small.
  replace (HPrime P * (p_D P - 1))%nat with (p_H P - HPrime P)%nat; [done|].
  pose proof (pw_h P Hwf). pose proof (pw_d P Hwf). nia.
Qed.

(** Signing needs only the lengths of the key's parts; with the root of the top tree in the
    verifying key, the signature verifies. *)
Lemma sign_internal_spec sk msg opt_rand :
  length (vk_pk_seed (sk_verifying_key sk)) = hs_N P ->
  (forall r, opt_rand = Some r -> length r = hs_N P) ->
  exists sig, slh_sign_internal P sk msg opt_rand = Ok sig /\ signature_wf sig /\
    (signing_key_wf sk -> slh_verify_internal P (sk_verifying_key sk) msg sig = Ok tt).
Proof.
  intros Hpk Hrand. unfold slh_sign_internal, exactly_n.
  rewrite bool_decide_true by (destruct opt_rand; cbn; auto). cbn [mbind outcome_bind].
  set (rand := default _ opt_rand). set (r := prf_msg P (sk_sk_prf sk) rand msg).
  destruct (split_digest_spec (h_msg P r (vk_pk_seed (sk_verifying_key sk))
    (vk_pk_root (sk_verifying_key sk)) msg)) as (md & it & il & Hs & Hmd & Hit & Hil);
    [by apply h_msg_length, pw_suite|].
  rewrite Hs. cbn [mbind outcome_bind]. rewrite fors_sign_spec by done. cbn [mbind outcome_bind].
  rewrite fors_pk_from_sig_spec by (done || by apply fors_signature_wf). cbn [mbind outcome_bind].
  set (fsig := fors_signature P md _ _ _ <$> _). set (fpk := fors_pk P fsig md _ _).
  assert (Hfpk : length fpk = hs_N P) by (by apply t_hash_length, pw_suite).
  rewrite ht_sign_spec by done. cbn [mbind outcome_bind]. eexists. split; [done|].
  assert (Hw : signature_wf (mkSignature r fsig
    (ht_signature P fpk (sk_sk_seed sk) (vk_pk_seed (sk_verifying_key sk)) it il))).
  { split_and!; [by apply prf_msg_length, pw_suite|by apply fors_signature_wf|by apply ht_signature_wf]. }
  split; [done|]. intros (_ & _ & _ & Hroot).
  destruct (slh_verify_internal_spec (sk_verifying_key sk) msg _ Hw) as (md' & it' & il' & Hs' & ->).
  cbn [sig_randomizer sig_fors sig_ht] in *. rewrite Hs in Hs'. injection Hs' as <- <- <-.
  rewrite ht_opened_signature by (done || (pose proof (pw_d P Hwf); lia)).
  rewrite Hroot. unfold layer_root. rewrite tree_at_top by done.
  unfold tree_at. rewrite N.shiftr_0_l. by rewrite bool_decide_true.
Qed.

Lemma SigningKey_new_spec `{Rng} (rng : rng_state) :
  exists sk, SigningKey_new P rng = Ok sk /\ signing_key_wf sk.
Proof.
  unfold SigningKey_new.
  destruct (fill_bytes rng (hs_N P)) as [a r1] eqn:Ha.
  destruct (fill_bytes r1 (hs_N P)) as [b r2] eqn:Hb.
  destruct (fill_bytes r2 (hs_N P)) as [c r3] eqn:Hc.
  pose proof (fill_bytes_length rng (hs_N P)) as La. rewrite Ha in La.
  pose proof (fill_bytes_length r1 (hs_N P)) as Lb. rewrite Hb in Lb.
  pose proof (fill_bytes_length r2 (hs_N P)) as Lc. rewrite Hc in Lc.
  by apply from_seed_spec.
Qed.

(** A signature over a message and a context of at most 255 bytes. *)
Lemma sign_with_context_verifies sk msg ctx opt_rand :
  signing_key_wf sk -> len ctx <= 255 -> (forall r, opt_rand = Some r -> length r = hs_N P) ->
  exists sig, try_sign_with_context P sk msg ctx opt_rand = Ok sig /\ signature_wf sig /\
    try_verify_with_context P (sk_verifying_key sk) msg ctx sig = Ok tt.
Proof.
  intros Hsk Hctx Hr. unfold try_sign_with_context, try_verify_with_context, ctx_msg.
  rewrite (proj2 (N.leb_le _ _) Hctx). cbn [ensure mbind outcome_bind].
  destruct (sign_internal_spec sk ([x00] ++ be_bytes 1 (len ctx) ++ ctx ++ msg) opt_rand)
    as (sig & ? & ? & Hv); [apply Hsk|done|]. exists sig. auto.
Qed.
End keys.
