(* ===== verification/SlhCodecProps.v ===== *)
(** * SLH-DSA: byte encodings of keys and signatures, and the parameter sets.

    Encoding and decoding are inverse to each other between well-formed values and byte
    strings of the right length; the twelve parameter sets are well-formed, so the lemmas
    of [SlhSignProps] hold for each of them. *)

From S2P Require Import Prelude Crypto SlhDsa SlhDsaProps SlhSignProps.

(** ** Cutting and joining *)

Section pieces.
Context {T : Type}.
Implicit Types (b : list T) (l : list (list T)) (n k : nat).

(** [k] consecutive pieces of [n] elements. *)
Definition pieces n k b : list (list T) :=
  (fun i => slice (i * n) ((i + 1) * n) b)%nat <$> seq 0 k.

Lemma pieces_S n k b : pieces n (S k) b = take n b :: pieces n k (drop n b).
Proof.
  unfold pieces. cbn [seq fmap list_fmap]. f_equal.
  - unfold slice. rewrite drop_0. f_equal. lia.
  - rewrite <-fmap_S_seq, <-list_fmap_compose. apply list_fmap_ext. intros i j _. cbn [compose].
    unfold slice. rewrite drop_drop. f_equal; lia.
Qed.

Lemma length_pieces n k b : length (pieces n k b) = k.
Proof. unfold pieces. by rewrite length_fmap, length_seq. Qed.

Lemma pieces_lengths n k b : length b = (k * n)%nat -> Forall (fun c => length c = n) (pieces n k b).
Proof.
  revert b. induction k as [|k IH]; intros b Hb; [constructor|]. rewrite pieces_S. constructor.
  - rewrite length_take. lia.
  - apply IH. rewrite length_drop. lia.
Qed.

Lemma concat_pieces n k b : length b = (k * n)%nat -> concat (pieces n k b) = b.
Proof.
  revert b. induction k as [|k IH]; intros b Hb.
  - cbn in *. by destruct b.
  - rewrite pieces_S. cbn. rewrite IH; [apply take_drop|]. rewrite length_drop. lia.
Qed.

Lemma pieces_concat n l : Forall (fun c => length c = n) l -> pieces n (length l) (concat l) = l.
Proof.
  induction 1 as [|c l Hc Hl IH]; [done|]. cbn [length concat]. rewrite pieces_S.
  rewrite take_app_length', drop_app_length' by done. by rewrite IH.
Qed.

Lemma length_concat_const n l :
  Forall (fun c => length c = n) l -> length (concat l) = (length l * n)%nat.
Proof. induction 1; cbn; [done|]. rewrite length_app. lia. Qed.

Lemma chunks_pieces n k b : (0 < n)%nat -> length b = (k * n)%nat -> chunks n b = pieces n k b.
Proof.
  intros Hn Hb. unfold chunks, pieces. rewrite Hb.
  replace ((k * n + (n - 1)) / n)%nat with k; [done|].
  rewrite Nat.div_add_l, Nat.div_small by lia. lia.
Qed.

Lemma chunks_exact_pieces n k b :
  (0 < n)%nat -> length b = (k * n)%nat ->
  chunks_exact n b = pieces n k b /\ chunks_remainder n b = [].
Proof.
  intros Hn Hb. unfold chunks_exact, chunks_remainder, pieces. rewrite Hb, Nat.div_mul by lia.
  split; [done|]. apply drop_ge. lia.
Qed.

(** Pieces after an offset. *)
Lemma pieces_drop off n k b :
  ((fun i => slice (off + i * n) (off + (i + 1) * n) b)%nat <$> seq 0 k) = pieces n k (drop off b).
Proof.
  unfold pieces. apply list_fmap_ext. intros i j _. unfold slice. rewrite drop_drop.
  f_equal; lia.
Qed.
End pieces.

Lemma fmap_lookup_seq {T} (d : T) (l : list T) : (fun i => default d (l !! i)) <$> seq 0 (length l) = l.
Proof.
  apply list_eq. intros i. rewrite list_lookup_fmap. destruct (decide (i < length l)%nat) as [Hi|Hi].
  - rewrite lookup_seq_lt by done. cbn. destruct (lookup_lt_is_Some_2 l i Hi) as [x ->]. done.
  - rewrite lookup_seq_ge by lia. cbn. symmetry. apply lookup_ge_None. lia.
Qed.

Section writers.
Context {E : Type}.

Lemma collect_at_index {T B} (f : N -> T -> outcome E B) (h : nat -> B) a l :
  (forall i x, l !! i = Some x -> f (N.of_nat (a + i)) x = Ok (h (a + i)%nat)) ->
  collect_at f (N.of_nat a) l = Ok (h <$> seq a (length l)).
Proof.
  revert a. induction l as [|x l IH]; intros a Hf; [done|]. cbn [collect_at length seq fmap list_fmap].
  pose proof (Hf 0%nat x eq_refl) as H0. rewrite Nat.add_0_r in H0. rewrite H0.
  cbn [mbind outcome_bind]. replace (N.of_nat a + 1) with (N.of_nat (S a)) by lia.
  rewrite IH; [done|]. intros i y Hy. rewrite <-!Nat.add_succ_r || rewrite !Nat.add_succ_l.
  pose proof (Hf (S i) y Hy) as H1. by rewrite Nat.add_succ_r in H1.
Qed.

Lemma rewrite_chunks_spec n k (w : N -> bytes -> outcome E bytes) (h : nat -> bytes) buf :
  (0 < n)%nat -> length buf = (k * n)%nat ->
  (forall i c, (i < k)%nat -> length c = n -> w (N.of_nat i) c = Ok (h i)) ->
  rewrite_chunks n w buf = Ok (concat (h <$> seq 0 k)).
Proof.
  intros Hn Hbuf Hw. unfold rewrite_chunks.
  destruct (chunks_exact_pieces n k buf Hn Hbuf) as [-> ->].
  pose proof (collect_at_index w h 0 (pieces n k buf)) as Hc. cbn [Nat.add] in Hc.
  change (N.of_nat 0) with 0 in Hc. rewrite Hc.
  - cbn [mbind outcome_bind]. by rewrite length_pieces, app_nil_r.
  - intros i c Hi. apply Hw.
    + apply lookup_lt_Some in Hi. by rewrite length_pieces in Hi.
    + by eapply Forall_lookup_1 in Hi; [|by apply pieces_lengths].
Qed.

Lemma copy_from_slice_Ok (dst src : bytes) :
  length src = length dst -> @copy_from_slice E dst src = Ok src.
Proof. intros Hl. unfold copy_from_slice. by rewrite bool_decide_true. Qed.

(** Writing every element of an array over a buffer of its size. *)
Lemma zip_writer_spec {T} n (items : list T) (write : T -> bytes -> outcome E bytes)
    (enc : T -> bytes) buf :
  (0 < n)%nat -> length buf = (length items * n)%nat ->
  (forall x c, x ∈ items -> length c = n -> write x c = Ok (enc x)) ->
  rewrite_chunks n (zip_writer items write) buf = Ok (concat (enc <$> items)).
Proof.
  intros Hn Hbuf Hw.
  rewrite (rewrite_chunks_spec n (length items) _ (fun i => default [] ((enc <$> items) !! i))).
  - do 2 f_equal. rewrite <-(length_fmap enc items). apply fmap_lookup_seq.
  - done.
  - done.
  - intros i c Hi Hc. unfold zip_writer. rewrite Nat2N.id, list_lookup_fmap.
    destruct (lookup_lt_is_Some_2 items i Hi) as [x Hx]. rewrite Hx. cbn.
    apply Hw; [|done]. by eapply list_elem_of_lookup_2.
Qed.
End writers.

(** ** Signatures *)

Section codec.
Context (P : ParameterSet) (Hwf : params_wf P).
Implicit Types (v : bytes).

Definition xmss_encode (sig : XmssSig) : bytes := concat (xs_sig sig) ++ concat (xs_auth sig).
Definition mt_encode (sig : ForsMTSig) : bytes := fm_sk sig ++ concat (fm_auth sig).
Definition encode (sig : Signature) : bytes :=
  sig_randomizer sig ++ concat (mt_encode <$> sig_fors sig) ++ concat (xmss_encode <$> sig_ht sig).

Definition xmss_decode v : XmssSig :=
  mkXmssSig (pieces (hs_N P) (WotsSigLen P) (take (WotsSig_SIZE P) v))
    (pieces (hs_N P) (HPrime P) (drop (WotsSig_SIZE P) v)).
Definition mt_decode v : ForsMTSig :=
  mkForsMTSig (take (hs_N P) v) (pieces (hs_N P) (p_A P) (drop (hs_N P) v)).
Definition decode v : Signature :=
  let rest := drop (hs_N P) v in
  mkSignature (take (hs_N P) v)
    (mt_decode <$> pieces (ForsMTSig_SIZE P) (p_K P) (take (ForsSignature_SIZE P) rest))
    (xmss_decode <$> pieces (XmssSig_SIZE P) (p_D P) (drop (ForsSignature_SIZE P) rest)).

(** *** One XMSS signature *)

Lemma concat_fmap_id (l : list bytes) : concat ((fun x => x) <$> l) = concat l.
Proof. by rewrite list_fmap_id. Qed.

Lemma length_xmss_encode sig : xmss_sig_wf P sig -> length (xmss_encode sig) = XmssSig_SIZE P.
Proof.
  intros (Hs & Ha & Hfs & Hfa). unfold xmss_encode, XmssSig_SIZE, WotsSig_SIZE.
  rewrite length_app, !(length_concat_const (hs_N P)), Hs, Ha by done. lia.
Qed.

Lemma XmssSig_write_to_spec sig buf :
  xmss_sig_wf P sig -> length buf = XmssSig_SIZE P ->
  XmssSig_write_to P sig buf = Ok (xmss_encode sig).
Proof.
  intros (Hs & Ha & Hfs & Hfa) Hbuf. pose proof (pw_n P Hwf) as Hn.
  unfold XmssSig_write_to, WotsSig_write_to, XmssSig_SIZE, WotsSig_SIZE in *.
  rewrite !bool_decide_true by (rewrite ?length_take; lia). cbn [debug_assert mbind outcome_bind].
  assert (Hw : forall l : list bytes, Forall (fun b => length b = hs_N P) l ->
    forall x c, x ∈ l -> length c = hs_N P -> @copy_from_slice unit c x = Ok ((fun x => x) x)).
  { intros l Hl x c Hx Hc. apply copy_from_slice_Ok. rewrite Forall_forall in Hl. by rewrite Hc, Hl. }
  rewrite !(zip_writer_spec (hs_N P) _ _ (fun x => x))
    by (lia || (rewrite ?length_take, ?length_drop; lia) || by apply Hw).
  cbn [mbind outcome_bind]. unfold xmss_encode. by rewrite !concat_fmap_id.
Qed.

Lemma XmssSig_try_from_spec v :
  length v = XmssSig_SIZE P -> XmssSig_try_from P v = Ok (xmss_decode v).
Proof.
  intros Hv. unfold XmssSig_try_from, WotsSig_try_from.
  rewrite (bool_decide_true (length v = _)) by done.
  cbn [ensure mbind outcome_bind]. unfold XmssSig_SIZE in Hv.
  rewrite bool_decide_true by (rewrite length_slice; lia). cbn [ensure mbind outcome_bind].
  erewrite from_fn_Ok; [|reflexivity]. cbn [mbind outcome_bind].
  erewrite from_fn_Ok; [|reflexivity]. cbn [mbind outcome_bind].
  rewrite pieces_drop. unfold xmss_decode, slice at 2. by rewrite Nat.sub_0_r, drop_0.
Qed.

Lemma xmss_decode_wf v : length v = XmssSig_SIZE P -> xmss_sig_wf P (xmss_decode v).
Proof.
  intros Hv. unfold XmssSig_SIZE, WotsSig_SIZE in *. unfold xmss_sig_wf, xmss_decode.
  cbn [xs_sig xs_auth]. rewrite !length_pieces. split_and!; [done|done|..].
  - apply pieces_lengths. unfold WotsSig_SIZE. rewrite length_take. lia.
  - apply pieces_lengths. unfold WotsSig_SIZE. rewrite length_drop. lia.
Qed.

Lemma xmss_encode_decode v : length v = XmssSig_SIZE P -> xmss_encode (xmss_decode v) = v.
Proof.
  intros Hv. unfold XmssSig_SIZE, WotsSig_SIZE in *. unfold xmss_encode, xmss_decode, WotsSig_SIZE.
  cbn [xs_sig xs_auth]. rewrite !concat_pieces; [apply take_drop|..].
  - rewrite length_drop. lia.
  - rewrite length_take. lia.
Qed.

Lemma xmss_decode_encode sig : xmss_sig_wf P sig -> xmss_decode (xmss_encode sig) = sig.
Proof.
  intros (Hs & Ha & Hfs & Hfa). destruct sig as [s a]. cbn [xs_sig xs_auth] in *.
  assert (Hl : length (concat s) = WotsSig_SIZE P).
  { rewrite (length_concat_const (hs_N P)), Hs by done. unfold WotsSig_SIZE. lia. }
  unfold xmss_decode, xmss_encode. cbn [xs_sig xs_auth].
  rewrite take_app_length', drop_app_length', <-Hs, <-Ha by done. by rewrite !pieces_concat.
Qed.

(** *** One FORS tree *)

Lemma length_mt_encode sig : fors_mt_wf P sig -> length (mt_encode sig) = ForsMTSig_SIZE P.
Proof.
  intros (Hs & Ha & Hf). unfold mt_encode, ForsMTSig_SIZE.
  rewrite length_app, (length_concat_const (hs_N P)), Hs, Ha by done. lia.
Qed.

Lemma ForsMTSig_write_to_spec sig buf :
  fors_mt_wf P sig -> length buf = ForsMTSig_SIZE P -> ForsMTSig_write_to P sig buf = Ok (mt_encode sig).
Proof.
  intros (Hs & Ha & Hf) Hbuf. pose proof (pw_n P Hwf) as Hn. unfold ForsMTSig_write_to.
  rewrite bool_decide_true by done. cbn [debug_assert mbind outcome_bind].
  unfold ForsMTSig_SIZE in Hbuf.
  rewrite (rewrite_chunks_spec (hs_N P) (S (p_A P)) _
    (fun i => default [] ((fm_sk sig :: fm_auth sig) !! i))); [|lia|lia|].
  - unfold mt_encode. rewrite <-Ha.
    change (S (length (fm_auth sig))) with (length (fm_sk sig :: fm_auth sig)).
    by rewrite fmap_lookup_seq.
  - intros i c Hi Hc. destruct i as [|i].
    + cbn. apply copy_from_slice_Ok. by rewrite Hs, Hc.
    + replace (N.of_nat (S i) =? 0) with false by (symmetry; apply N.eqb_neq; lia).
      replace (N.to_nat (N.of_nat (S i) - 1)) with i by lia.
      destruct (lookup_lt_is_Some_2 (fm_auth sig) i) as [a Hi']; [lia|].
      rewrite lookup_cons_ne_0 by done. cbn [Nat.pred]. rewrite Hi'.
      cbn [unwrap mbind outcome_bind from_option id]. apply copy_from_slice_Ok. rewrite Hc. exact (Forall_lookup_1 _ _ _ _ Hf Hi').
Qed.

Lemma ForsMTSig_try_from_spec v :
  length v = ForsMTSig_SIZE P -> ForsMTSig_try_from P v = Ok (mt_decode v).
Proof.
  intros Hv. unfold ForsMTSig_try_from. rewrite bool_decide_true by done.
  cbn [ensure mbind outcome_bind]. erewrite from_fn_Ok; [|reflexivity]. cbn [mbind outcome_bind].
  rewrite pieces_drop. unfold mt_decode, slice. by rewrite Nat.sub_0_r, drop_0.
Qed.

Lemma mt_decode_wf v : length v = ForsMTSig_SIZE P -> fors_mt_wf P (mt_decode v).
Proof.
  intros Hv. unfold ForsMTSig_SIZE in Hv. unfold fors_mt_wf, mt_decode. cbn [fm_sk fm_auth].
  rewrite length_pieces, length_take. split_and!; [lia|done|]. apply pieces_lengths.
  rewrite length_drop. lia.
Qed.

Lemma mt_encode_decode v : length v = ForsMTSig_SIZE P -> mt_encode (mt_decode v) = v.
Proof.
  intros Hv. unfold ForsMTSig_SIZE in Hv. unfold mt_encode, mt_decode. cbn [fm_sk fm_auth].
  rewrite concat_pieces; [apply take_drop|]. rewrite length_drop. lia.
Qed.

Lemma mt_decode_encode sig : fors_mt_wf P sig -> mt_decode (mt_encode sig) = sig.
Proof.
  intros (Hs & Ha & Hf). destruct sig as [s a]. cbn [fm_sk fm_auth] in *.
  unfold mt_decode, mt_encode. cbn [fm_sk fm_auth].
  rewrite take_app_length', drop_app_length', <-Ha by done. by rewrite pieces_concat.
Qed.

(** *** Arrays of parts *)

Section parts.
Context {T : Type} (size : nat) (wf : T -> Prop) (enc : T -> bytes) (dec : bytes -> T).
Hypothesis length_enc : forall x, wf x -> length (enc x) = size.
Hypothesis dec_wf : forall v, length v = size -> wf (dec v).
Hypothesis enc_dec : forall v, length v = size -> enc (dec v) = v.
Hypothesis dec_enc : forall x, wf x -> dec (enc x) = x.

Lemma parts_lengths l : Forall wf l -> Forall (fun c => length c = size) (enc <$> l).
Proof. intros Hl. apply Forall_fmap. eapply Forall_impl; [done|]. apply length_enc. Qed.

Lemma length_parts l : Forall wf l -> length (concat (enc <$> l)) = (length l * size)%nat.
Proof. intros. rewrite (length_concat_const size), length_fmap; [done|]. by apply parts_lengths. Qed.

Lemma parts_decode_encode l : Forall wf l ->
  dec <$> pieces size (length l) (concat (enc <$> l)) = l.
Proof.
  intros Hl. rewrite <-(length_fmap enc l), pieces_concat by (by apply parts_lengths).
  rewrite <-list_fmap_compose. rewrite <-(list_fmap_id l) at 2. apply Forall_fmap_ext.
  eapply Forall_impl; [done|]. intros x. apply dec_enc.
Qed.

Lemma parts_encode_decode k v : length v = (k * size)%nat ->
  concat (enc <$> (dec <$> pieces size k v)) = v.
Proof.
  intros Hv. rewrite <-list_fmap_compose. etrans; [|by apply (concat_pieces size k)]. f_equal.
  rewrite <-(list_fmap_id (pieces size k v)) at 2. apply Forall_fmap_ext.
  eapply Forall_impl; [by apply pieces_lengths|]. intros c. apply enc_dec.
Qed.

Lemma parts_wf k v : length v = (k * size)%nat ->
  length (dec <$> pieces size k v) = k /\ Forall wf (dec <$> pieces size k v).
Proof.
  intros Hv. rewrite length_fmap, length_pieces. split; [done|]. apply Forall_fmap.
  eapply Forall_impl; [by apply pieces_lengths|]. apply dec_wf.
Qed.

Lemma parts_collect (f : bytes -> outcome unit T) k v :
  (0 < size)%nat -> length v = (k * size)%nat ->
  (forall c, length c = size -> f c = Ok (dec c)) ->
  collect (fun c => unwrap_result (f c)) (chunks size v) = @Ok unit _ (dec <$> pieces size k v).
Proof.
  intros Hs Hv Hf. rewrite (chunks_pieces size k) by done.
  pose proof (pieces_lengths size k v Hv) as Hl. revert Hl. generalize (pieces size k v) 0.
  intros l i Hl. revert i. induction Hl as [|c l Hc Hl IH]; intros i; [done|]. cbn [collect_at].
  rewrite Hf by done. cbn [unwrap_result mbind outcome_bind]. by rewrite IH.
Qed.
End parts.

(** *** Whole signatures *)

Lemma fors_size : ForsSignature_SIZE P = (p_K P * ForsMTSig_SIZE P)%nat.
Proof. unfold ForsSignature_SIZE, ForsMTSig_SIZE. lia. Qed.

Lemma ht_size : HypertreeSig_SIZE P = (p_D P * XmssSig_SIZE P)%nat.
Proof. unfold HypertreeSig_SIZE. lia. Qed.

Lemma sizes_pos : (0 < ForsMTSig_SIZE P)%nat /\ (0 < XmssSig_SIZE P)%nat.
Proof.
  pose proof (pw_n P Hwf). pose proof (pw_hprime P Hwf).
  unfold ForsMTSig_SIZE, XmssSig_SIZE. nia.
Qed.

Lemma ForsSignature_write_to_spec sig buf :
  fors_sig_wf P sig -> length buf = ForsSignature_SIZE P ->
  ForsSignature_write_to P sig buf = Ok (concat (mt_encode <$> sig)).
Proof.
  intros [Hl Hs] Hbuf. unfold ForsSignature_write_to. rewrite bool_decide_true by done.
  cbn [debug_assert mbind outcome_bind]. rewrite fors_size in Hbuf.
  rewrite (rewrite_chunks_spec (ForsMTSig_SIZE P) (p_K P) _
    (fun i => default [] ((mt_encode <$> sig) !! i))); [|apply sizes_pos|done|].
  - do 2 f_equal. rewrite <-Hl, <-(length_fmap mt_encode sig). apply fmap_lookup_seq.
  - intros i c Hi Hc. rewrite Nat2N.id, list_lookup_fmap.
    destruct (lookup_lt_is_Some_2 sig i) as [s Hi']; [by rewrite Hl|]. rewrite Hi'.
    cbn [unwrap mbind outcome_bind]. apply ForsMTSig_write_to_spec; [|done].
    exact (Forall_lookup_1 _ _ _ _ Hs Hi').
Qed.

Lemma HypertreeSig_write_to_spec sig buf :
  ht_sig_wf P sig -> length buf = HypertreeSig_SIZE P ->
  HypertreeSig_write_to P sig buf = Ok (concat (xmss_encode <$> sig)).
Proof.
  intros [Hl Hs] Hbuf. unfold HypertreeSig_write_to. rewrite bool_decide_true by done.
  cbn [debug_assert mbind outcome_bind]. rewrite ht_size in Hbuf.
  apply zip_writer_spec; [apply sizes_pos|by rewrite Hl|]. intros x c Hx Hc.
  apply XmssSig_write_to_spec; [|done]. rewrite Forall_forall in Hs. by apply Hs.
Qed.

Lemma length_encode sig : signature_wf P sig -> len (encode sig) = SigLen P.
Proof.
  intros (Hr & [Hfl Hf] & [Hhl Hh]). rewrite (pw_sig_len P Hwf). unfold len, encode.
  rewrite !length_app, Hr.
  rewrite (length_parts _ (fors_mt_wf P) mt_encode length_mt_encode) by done.
  rewrite (length_parts _ (xmss_sig_wf P) xmss_encode length_xmss_encode) by done.
  rewrite fors_size, ht_size. lia.
Qed.

Lemma Signature_to_vec_spec sig : signature_wf P sig -> Signature_to_vec P sig = Ok (encode sig).
Proof.
  intros Hsig. pose proof (length_encode sig Hsig) as Hl. destruct Hsig as (_ & Hf & Hh).
  unfold Signature_to_vec, ForsSignature_to_vec, HypertreeSig_to_vec.
  rewrite ForsSignature_write_to_spec by (done || apply length_replicate). cbn [mbind outcome_bind].
  rewrite HypertreeSig_write_to_spec by (done || apply length_replicate). cbn [mbind outcome_bind].
  by rewrite debug_assert_true by (by apply N.eqb_eq).
Qed.

Lemma Signature_to_bytes_spec sig : signature_wf P sig -> Signature_to_bytes P sig = Ok (encode sig).
Proof.
  intros (Hr & Hf & Hh). unfold Signature_to_bytes. rewrite (pw_sig_len P Hwf), Nat2N.id.
  set (buf := zeroes _). assert (Hbuf : length buf = (hs_N P + ForsSignature_SIZE P + HypertreeSig_SIZE P)%nat)
    by apply length_replicate.
  rewrite copy_from_slice_Ok by (rewrite length_take; lia). cbn [mbind outcome_bind].
  rewrite ForsSignature_write_to_spec by (done || (rewrite length_slice; lia)).
  cbn [mbind outcome_bind].
  by rewrite HypertreeSig_write_to_spec by (done || (rewrite length_drop; lia)).
Qed.

Lemma Signature_try_from_spec v : len v = SigLen P -> Signature_try_from P v = Ok (decode v).
Proof.
  intros Hv. unfold Signature_try_from. rewrite (proj2 (N.eqb_eq _ _) Hv). cbn [ensure mbind outcome_bind].
  rewrite (pw_sig_len P Hwf) in Hv. unfold len in Hv. apply Nat2N.inj in Hv.
  unfold ForsSignature_try_from, HypertreeSig_try_from.
  rewrite (bool_decide_true (length (take _ _) = _)) by (rewrite length_take, length_drop; lia).
  cbn [ensure mbind outcome_bind].
  rewrite (parts_collect _ mt_decode _ (p_K P));
    [|apply sizes_pos|rewrite length_take, length_drop, <-fors_size; lia|apply ForsMTSig_try_from_spec].
  cbn [map_err mbind outcome_bind].
  rewrite bool_decide_true by (rewrite !length_drop; lia). cbn [ensure mbind outcome_bind].
  rewrite (parts_collect _ xmss_decode _ (p_D P));
    [done|apply sizes_pos|rewrite !length_drop, <-ht_size; lia|apply XmssSig_try_from_spec].
Qed.

Lemma decode_wf v : len v = SigLen P -> signature_wf P (decode v) /\ encode (decode v) = v.
Proof.
  intros Hv. rewrite (pw_sig_len P Hwf) in Hv. unfold len in Hv. apply Nat2N.inj in Hv.
  unfold signature_wf, fors_sig_wf, ht_sig_wf, decode, encode. cbn [sig_randomizer sig_fors sig_ht].
  assert (Hf : length (take (ForsSignature_SIZE P) (drop (hs_N P) v)) = (p_K P * ForsMTSig_SIZE P)%nat)
    by (rewrite length_take, length_drop, <-fors_size; lia).
  assert (Hh : length (drop (ForsSignature_SIZE P) (drop (hs_N P) v)) = (p_D P * XmssSig_SIZE P)%nat)
    by (rewrite !length_drop, <-ht_size; lia).
  split; [split_and!|].
  - rewrite length_take. lia.
  - by apply (parts_wf _ _ mt_decode mt_decode_wf).
  - by apply (parts_wf _ _ mt_decode mt_decode_wf).
  - by apply (parts_wf _ _ xmss_decode xmss_decode_wf).
  - by apply (parts_wf _ _ xmss_decode xmss_decode_wf).
  - rewrite (parts_encode_decode _ _ _ mt_encode_decode), (parts_encode_decode _ _ _ xmss_encode_decode)
      by done. by rewrite !take_drop.
Qed.

Lemma decode_encode sig : signature_wf P sig -> decode (encode sig) = sig.
Proof.
  intros (Hr & [Hfl Hf] & [Hhl Hh]). destruct sig as [r f h]. cbn [sig_randomizer sig_fors sig_ht] in *.
  unfold decode, encode. cbn [sig_randomizer sig_fors sig_ht].
  rewrite take_app_length', drop_app_length' by done.
  assert (Hl : length (concat (mt_encode <$> f)) = ForsSignature_SIZE P).
  { rewrite (length_parts _ (fors_mt_wf P) mt_encode length_mt_encode), Hfl by done. by rewrite fors_size. }
  rewrite take_app_length', drop_app_length' by done. rewrite <-Hfl, <-Hhl.
  rewrite (parts_decode_encode _ _ _ _ length_mt_encode mt_decode_encode) by done.
  by rewrite (parts_decode_encode _ _ _ _ length_xmss_encode xmss_decode_encode) by done.
Qed.

(** ** Keys *)

Lemma VerifyingKey_to_bytes_spec vk : verifying_key_wf P vk ->
  VerifyingKey_to_bytes P vk = Ok (vk_pk_seed vk ++ vk_pk_root vk).
Proof.
  intros [Hs Hr]. unfold VerifyingKey_to_bytes. rewrite (pw_vk_len P Hwf).
  rewrite debug_assert_true by (apply N.eqb_eq; lia). cbn [mbind outcome_bind].
  unfold zeroes. rewrite !copy_from_slice_Ok; [done|..]; rewrite length_replicate; lia.
Qed.

Lemma VerifyingKey_roundtrip vk : verifying_key_wf P vk ->
  VerifyingKey_try_from P (vk_pk_seed vk ++ vk_pk_root vk) = Ok vk.
Proof.
  intros [Hs Hr]. unfold VerifyingKey_try_from, len. rewrite length_app, Hs, Hr.
  replace (_ =? _) with true by (symmetry; apply N.eqb_eq; lia). cbn [ensure mbind outcome_bind].
  rewrite take_app_length', drop_app_length' by done. by destruct vk.
Qed.

Lemma VerifyingKey_try_from_spec b :
  VerifyingKey_try_from P b
    = (if len b =? VkLen P then Ok (mkVerifyingKey (take (hs_N P) b) (drop (hs_N P) b))
       else Err SignatureError).
Proof.
  unfold VerifyingKey_try_from. rewrite (pw_vk_len P Hwf).
  replace (N.of_nat (hs_N P) * 2) with (N.of_nat (2 * hs_N P)) by lia. by destruct (_ =? _).
Qed.

Definition signing_key_bytes (sk : SigningKey) : bytes :=
  sk_sk_seed sk ++ sk_sk_prf sk ++ vk_pk_seed (sk_verifying_key sk) ++ vk_pk_root (sk_verifying_key sk).

Lemma SigningKey_to_bytes_spec sk : signing_key_wf P sk ->
  SigningKey_to_bytes P sk = Ok (signing_key_bytes sk) /\ len (signing_key_bytes sk) = SkLen P.
Proof.
  intros Hsk. pose proof (signing_key_vk_wf P Hwf sk Hsk) as Hvk. destruct Hsk as (Hs & Hp & _).
  unfold SigningKey_to_bytes, signing_key_bytes, zeroes. rewrite (pw_sk_len P Hwf).
  rewrite !copy_from_slice_Ok by (rewrite length_replicate; lia). cbn [mbind outcome_bind].
  rewrite VerifyingKey_to_bytes_spec by done. cbn [mbind outcome_bind]. destruct Hvk as [Hvs Hvr].
  rewrite copy_from_slice_Ok by (rewrite length_app, length_replicate; lia). split; [done|].
  unfold len. rewrite !length_app. lia.
Qed.

Lemma SigningKey_roundtrip sk : signing_key_wf P sk ->
  SigningKey_try_from P (signing_key_bytes sk) = Ok sk.
Proof.
  intros Hsk. pose proof (signing_key_vk_wf P Hwf sk Hsk) as Hvk.
  destruct (SigningKey_to_bytes_spec sk Hsk) as [_ Hlen]. destruct Hsk as (Hs & Hp & _).
  unfold SigningKey_try_from. rewrite (proj2 (N.eqb_eq _ _) Hlen). cbn [ensure mbind outcome_bind].
  unfold signing_key_bytes. rewrite take_app_length', drop_app_length' by done.
  rewrite take_app_length', drop_app_length' by done. rewrite VerifyingKey_roundtrip by done.
  cbn [mbind outcome_bind]. by destruct sk.
Qed.
End codec.

(** ** The parameter sets *)

Section suites.
Context `{Shake} `{Sha2}.

Lemma mgf1_length hash os l seed :
  (0 < os)%nat -> (forall d, length (hash d) = os) -> length (mgf1 hash os l seed) = l.
Proof.
  intros Hos Hh. unfold mgf1. set (g := fun c => take _ _).
  assert (Hg : forall k a, length (concat (g <$> seq a k)) = min (l - a * os) (k * os)).
  { induction k as [|k IH]; intros a; cbn [seq fmap list_fmap concat]; [cbn; lia|].
    rewrite length_app, IH. unfold g. rewrite length_take, Hh. nia. }
  rewrite Hg. pose proof (Nat.div_mod_eq (l + (os - 1)) os).
  pose proof (Nat.mod_upper_bound (l + (os - 1)) os ltac:(lia)). nia.
Qed.

Lemma Shake_suite_wf n m : suite_wf (Shake_suite n m).
Proof. split; intros; apply shake256_length. Qed.

Lemma Sha2L1_wf n m : (n <= 32)%nat -> suite_wf (Sha2L1 n m).
Proof.
  intros Hn. split; intros; cbn [prf_msg h_msg prf_sk t_hash h_hash f_hash hs_N hs_M Sha2L1 Sha2L35];
    rewrite ?length_take, ?sha256_length, ?hmac_sha256_length; try lia.
  apply mgf1_length; [lia|apply sha256_length].
Qed.

Lemma Sha2L35_wf n m : (n <= 32)%nat -> suite_wf (Sha2L35 n m).
Proof.
  intros Hn. split; intros; cbn [prf_msg h_msg prf_sk t_hash h_hash f_hash hs_N hs_M Sha2L1 Sha2L35];
    rewrite ?length_take, ?sha256_length, ?sha512_length, ?hmac_sha512_length; try lia.
  apply mgf1_length; [lia|apply sha512_length].
Qed.

Lemma parameter_sets_wf P : P ∈ parameter_sets -> params_wf P.
Proof.
  unfold parameter_sets. rewrite !elem_of_cons, elem_of_nil. intros HP.
  repeat destruct HP as [->|HP]; [..|done];
    (split; [apply Shake_suite_wf || (apply Sha2L1_wf; lia) || (apply Sha2L35_wf; lia)|..]);
    solve [vm_compute; reflexivity | vm_compute; lia].
Qed.
End suites.
