(* ===== verification/PqVerifier.v ===== *)
(** * pqc-crypto: SLH-DSA key pairs and signatures as bytes, and the node's verifier.

    [sign.rs] and [verify.rs].  ML-DSA is the external [ml-dsa] crate: the class [MlDsa]
    has its key and signature decoders and its verification. *)

From S2P Require Import Prelude Crypto SlhDsa.

Record PublicKey := mkPublicKey { pk_alg_id : AlgId.t; pk_bytes : bytes }.
Record SigBytes := mkSigBytes { sb_alg_id : AlgId.t; sb_bytes : bytes }.

(** The [ml-dsa] crate at one of its three parameter sets: decoding checks the length. *)
Class MlDsa := {
  md_key : Type;
  md_sig : Type;
  md_decode_key : AlgId.t -> bytes -> option md_key;
  md_decode_sig : AlgId.t -> bytes -> option md_sig;
  md_verify : AlgId.t -> md_key -> bytes -> md_sig -> bool
}.

Section slh_bytes.
Context (P : ParameterSet).

(** [slh_dsa_*_generate]: [SigningKey::new(&mut OsRng)], then both keys as bytes. *)
Definition slh_generate `{Rng} (rng : rng_state) : outcome CryptoError.t (bytes * bytes) :=
  sk ← unwrap_result (SigningKey_new P rng);
  pk ← unwrap_result (VerifyingKey_to_bytes P (sk_verifying_key sk));
  sk_bytes ← unwrap_result (SigningKey_to_bytes P sk);
  Ok (pk, sk_bytes).

(** [slh_dsa_*_sign]: no context and no randomness. *)
Definition slh_sign (sk_bytes preimage : bytes) : outcome CryptoError.t bytes :=
  sk ← map_err (fun _ => CryptoError.InvalidKeySize) (SigningKey_try_from P sk_bytes);
  sig ← map_err (fun _ => CryptoError.Backend) (try_sign_with_context P sk preimage [] None);
  unwrap_result (Signature_to_vec P sig).

(** [verify_slh_dsa_*] *)
Definition slh_verify (pk_bytes preimage sig_bytes : bytes) : outcome CryptoError.t unit :=
  vk ← map_err (fun _ => CryptoError.InvalidKeySize) (VerifyingKey_try_from P pk_bytes);
  sig ← map_err (fun _ => CryptoError.InvalidSignatureSize) (Signature_try_from P sig_bytes);
  map_err (fun _ => CryptoError.VerificationFailed) (verify_msg P vk preimage sig).
End slh_bytes.

Section verifiers.
Context `{Shake} `{Sha2} `{MlDsa}.

Definition slh_dsa_sha2_128s_generate `{Rng} := slh_generate Sha2_128s.
Definition slh_dsa_sha2_128s_sign := slh_sign Sha2_128s.
Definition slh_dsa_shake_128s_generate `{Rng} := slh_generate Shake128s.
Definition slh_dsa_shake_128s_sign := slh_sign Shake128s.
Definition slh_dsa_shake_192s_generate `{Rng} := slh_generate Shake192s.
Definition slh_dsa_shake_192s_sign := slh_sign Shake192s.
Definition slh_dsa_shake_256s_generate `{Rng} := slh_generate Shake256s.
Definition slh_dsa_shake_256s_sign := slh_sign Shake256s.

Definition verify_slh_dsa_128s := slh_verify Sha2_128s.
Definition verify_slh_dsa_shake_128s := slh_verify Shake128s.
Definition verify_slh_dsa_shake_192s := slh_verify Shake192s.
Definition verify_slh_dsa_shake_256s := slh_verify Shake256s.

(** [verify_ml_dsa_44], [verify_ml_dsa_65], [verify_ml_dsa_87] *)
Definition verify_ml_dsa (a : AlgId.t) (pk_bytes preimage sig_bytes : bytes)
    : outcome CryptoError.t unit :=
  vk ← ok_or (md_decode_key a pk_bytes) CryptoError.InvalidKeySize;
  sig ← ok_or (md_decode_sig a sig_bytes) CryptoError.InvalidSignatureSize;
  ensure (md_verify a vk preimage sig) CryptoError.VerificationFailed.

Definition MlDsaVerifier_verify (public_key : PublicKey) (preimage : bytes) (signature : SigBytes)
    : outcome CryptoError.t unit :=
  ensure (bool_decide (pk_alg_id public_key = sb_alg_id signature))
    (CryptoError.NotASigningAlgorithm (sb_alg_id signature)) ;;
  match sb_alg_id signature with
  | AlgId.MlDsa44 | AlgId.MlDsa65 | AlgId.MlDsa87 =>
      verify_ml_dsa (sb_alg_id signature) (pk_bytes public_key) preimage (sb_bytes signature)
  | other => Err (CryptoError.NotASigningAlgorithm other)
  end.

Definition PqVerifier_verify (public_key : PublicKey) (preimage : bytes) (signature : SigBytes)
    : outcome CryptoError.t unit :=
  ensure (bool_decide (pk_alg_id public_key = sb_alg_id signature))
    (CryptoError.NotASigningAlgorithm (sb_alg_id signature)) ;;
  let pk := pk_bytes public_key in
  let sig := sb_bytes signature in
  match sb_alg_id signature with
  | AlgId.MlDsa44 | AlgId.MlDsa65 | AlgId.MlDsa87 =>
      MlDsaVerifier_verify public_key preimage signature
  | AlgId.SlhDsaSha2128s => verify_slh_dsa_128s pk preimage sig
  | AlgId.SlhDsaShake128s => verify_slh_dsa_shake_128s pk preimage sig
  | AlgId.SlhDsaShake192s => verify_slh_dsa_shake_192s pk preimage sig
  | AlgId.SlhDsaShake256s => verify_slh_dsa_shake_256s pk preimage sig
  | AlgId.FnDsaPadded512 => Err (CryptoError.NotASigningAlgorithm AlgId.FnDsaPadded512)
  | AlgId.MlKem768 => Err (CryptoError.NotASigningAlgorithm AlgId.MlKem768)
  end.

(** [StubVerifier], of test builds. *)
Definition StubVerifier_verify (public_key : PublicKey) (preimage : bytes) (signature : SigBytes)
    : outcome CryptoError.t unit :=
  ensure (bool_decide (pk_alg_id public_key = sb_alg_id signature))
    (CryptoError.NotASigningAlgorithm (sb_alg_id signature)) ;;
  ensure (negb (bool_decide (sb_alg_id signature = AlgId.MlKem768)))
    (CryptoError.NotASigningAlgorithm (sb_alg_id signature)).

(** The verifier as the other modules see it. *)
Definition pq_verifier : Verifier := fun a pk preimage sig =>
  match PqVerifier_verify (mkPublicKey a pk) preimage (mkSigBytes a sig) with
  | Ok _ => true
  | _ => false
  end.
End verifiers.
