(* ===== verification/PqVerifierProps.v ===== *)
(** * SLH-DSA signatures through the node's verifier.

    Signing followed by verification for every parameter set, the encodings of
    signatures, the checksum of WOTS+, the separation of hash addresses, and the
    behaviour of [PqVerifier] on arbitrary bytes. *)

From S2P Require Import Prelude Crypto SlhDsa SlhDsaProps SlhSignProps SlhCodecProps PqVerifier.

(** ** Concrete parameters for the witnesses *)

Definition example_sha2 : Sha2 := {|
  sha256 := fun d => be_bytes 32 (foldl example_mix 1 d);
  sha512 := fun d => be_bytes 64 (foldl example_mix 2 d);
  hmac_sha256 := fun k d => be_bytes 32 (foldl example_mix 3 (k ++ d));
  hmac_sha512 := fun k d => be_bytes 64 (foldl example_mix 4 (k ++ d));
  sha256_length := fun d => length_be_bytes 32 _;
  sha512_length := fun d => length_be_bytes 64 _;
  hmac_sha256_length := fun k d => length_be_bytes 32 _;
  hmac_sha512_length := fun k d => length_be_bytes 64 _
|}.

Definition example_rng : Rng := {|
  rng_state := N;
  fill_bytes := fun r n => (be_bytes n (r * 40503 + 7), r + 1);
  fill_bytes_length := fun r n => length_be_bytes n _
|}.

(** A signature scheme that accepts the message itself. *)
Definition example_mldsa : MlDsa := {|
  md_key := bytes;
  md_sig := bytes;
  md_decode_key := fun _ b => Some b;
  md_decode_sig := fun _ b => Some b;
  md_verify := fun _ _ m s => bool_decide (m = s)
|}.

(** ** Digits determine the number *)

Definition of_digits (b : N) (l : list N) : N := foldl (fun acc d => acc * 2 ^ b + d) 0 l.

Lemma of_digits_spec b x k :
  N.of_nat k * b <= 8 * len x ->
  of_digits b (digit b x <$> seq 0 k) = of_be_bytes x / 2 ^ (8 * len x - N.of_nat k * b).
Proof.
  induction k as [|k IH]; intros Hk.
  - cbn [seq fmap list_fmap of_digits foldl]. symmetry. apply N.div_small.
    rewrite N.sub_0_r, <-pow_256. apply of_be_bytes_bound.
  - rewrite seq_S, fmap_app. unfold of_digits in *. rewrite foldl_app, IH by lia.
    cbn [fmap list_fmap foldl Nat.add]. unfold digit.
    replace (8 * len x - N.of_nat k * b) with (8 * len x - N.of_nat (S k) * b + b) by lia.
    replace ((N.of_nat k + 1) * b) with (N.of_nat (S k) * b) by lia.
    rewrite N.pow_add_r, <-N.Div0.div_div. symmetry.
    rewrite (N.mul_comm _ (2 ^ b)). apply N.Div0.div_mod.
Qed.

Lemma of_digits_le b l l' : Forall2 N.le l l' -> of_digits b l <= of_digits b l'.
Proof.
  intros Hl. unfold of_digits. assert (H0 : 0 <= 0) by lia. revert H0. generalize 0 at 1 3. generalize 0.
  induction Hl as [|x y l l' Hxy Hl IH]; intros a a' Ha; cbn; [done|]. apply IH. nia.
Qed.

Section checksum.
Context (P : ParameterSet) (Hwf : params_wf P).

Lemma msg_digits_inj m m' : length m = hs_N P -> length m' = hs_N P ->
  msg_digits P m = msg_digits P m' -> m = m'.
Proof.
  intros Hm Hm' Hd. pose proof (pw_wots_msg P Hwf) as Hw. apply (f_equal (of_digits 4)) in Hd.
  unfold msg_digits in Hd. rewrite !of_digits_spec in Hd by (unfold len; lia).
  replace (8 * len m - N.of_nat (WotsMsgLen P) * 4) with 0 in Hd by (unfold len; lia).
  replace (8 * len m' - N.of_nat (WotsMsgLen P) * 4) with 0 in Hd by (unfold len; lia).
  rewrite !N.div_1_r in Hd.
  by rewrite <-(be_bytes_of_be_bytes m), <-(be_bytes_of_be_bytes m'), Hd, Hm, Hm'.
Qed.

Lemma checksum_of_digits m :
  of_digits 4 (digit 4 (be_bytes 2 (checksum P m * 16)) <$> seq 0 3) = checksum P m.
Proof.
  pose proof (checksum_lt P Hwf m). rewrite of_digits_spec by (unfold len; rewrite length_be_bytes; lia).
  rewrite of_be_bytes_small by (change (256 ^ N.of_nat 2) with 65536; lia). unfold len.
  rewrite length_be_bytes. change (2 ^ (8 * N.of_nat 2 - N.of_nat 3 * 4)) with 16.
  by apply N.div_mul.
Qed.

(** Larger digits have a smaller checksum, strictly so when one digit is larger. *)
Lemma sum_complement l l' :
  Forall (fun x => x < 16) l' -> Forall2 N.le l l' ->
  list_sumN (fun x => 15 - x) l' <= list_sumN (fun x => 15 - x) l /\
  (list_sumN (fun x => 15 - x) l' = list_sumN (fun x => 15 - x) l -> l = l').
Proof.
  intros Hlt Hl. induction Hl as [|x y l l' Hxy Hl IH]; cbn; [done|].
  apply Forall_cons in Hlt as [Hy Hlt]. destruct (IH Hlt) as [Hle Heq]. split; [lia|].
  intros Hs. rewrite Heq by lia. f_equal. lia.
Qed.

Lemma digits_dominate m m' : length m = hs_N P -> length m' = hs_N P ->
  Forall2 N.le (wots_digits P m) (wots_digits P m') -> m = m'.
Proof.
  intros Hm Hm' Hd. unfold wots_digits in Hd.
  apply Forall2_app_inv in Hd as [Hmsg Hck]; [|unfold msg_digits; by rewrite !length_fmap].
  apply (of_digits_le 4) in Hck. rewrite !checksum_of_digits in Hck.
  destruct (sum_complement _ _ (msg_digits_lt P m') Hmsg) as [Hle Heq]. unfold checksum in Hck.
  apply msg_digits_inj; [done|done|]. apply Heq. lia.
Qed.

Lemma smaller_digit m m' : length m = hs_N P -> length m' = hs_N P -> m <> m' ->
  exists i x y, wots_digits P m !! i = Some x /\ wots_digits P m' !! i = Some y /\ y < x.
Proof.
  intros Hm Hm' Hne.
  destruct (decide (Forall2 N.le (wots_digits P m) (wots_digits P m'))) as [Hd|Hd].
  - by apply digits_dominate in Hd.
  - assert (Hl : length (wots_digits P m) = length (wots_digits P m'))
      by (by rewrite !length_wots_digits).
    revert Hd Hl. generalize (wots_digits P m) (wots_digits P m'). clear.
    induction l as [|x l IH]; intros [|y l'] Hd Hl; try discriminate Hl.
    { by destruct Hd. }
    destruct (N.le_gt_cases x y) as [Hxy|Hxy].
    + destruct (IH l') as (i & a & b & ? & ? & ?).
      * intros Hf. apply Hd. by constructor.
      * by injection Hl.
      * by exists (S i), a, b.
    + exists 0%nat, x, y. done.
Qed.
End checksum.

Section claims.
Context `{Shake} `{Sha2}.

(** C12 The vendored SLH-DSA crate signs and verifies: for each of its twelve parameter sets
    and any state of the random generator, [SigningKey::new] yields a key pair, and for every
    message, every context of at most 255 bytes and every choice of randomness, none or N bytes
    as the type of the argument demands, [try_sign_with_context] returns a signature that the
    verifying key accepts for that message and context. No assertion fails, no index is out of
    range and no integer overflows on the way. *)
Theorem slh_sign_then_verify `{Rng} (P : ParameterSet) (rng : rng_state) :
  P ∈ parameter_sets ->
  exists sk, SigningKey_new P rng = Ok sk /\
    forall msg ctx opt_rand, len ctx <= 255 ->
      (forall r, opt_rand = Some r -> length r = hs_N P) ->
      exists sig, try_sign_with_context P sk msg ctx opt_rand = Ok sig /\
        try_verify_with_context P (sk_verifying_key sk) msg ctx sig = Ok tt.
Proof.
  intros Hwf%parameter_sets_wf. destruct (SigningKey_new_spec P Hwf rng) as (sk & Hnew & Hsk).
  exists sk. split; [done|]. intros msg ctx opt_rand Hctx Hr.
  destruct (sign_with_context_verifies P Hwf sk msg ctx opt_rand Hsk Hctx Hr) as (sig & ? & _ & ?).
  by exists sig.
Qed.

(** C27 The checksum of WOTS+ does its work: of two different messages, neither has all its
    base-16 digits, checksum included, at least as large as the other's.  So a signature,
    whose values can only be hashed forward, never yields one of another message without
    inverting the hash at some chain. *)
Theorem wots_checksum_incomparable (P : ParameterSet) (m m' : bytes) (ds ds' : list N) :
  P ∈ parameter_sets -> length m = hs_N P -> length m' = hs_N P -> m <> m' ->
  msg_csum P m = Ok ds -> msg_csum P m' = Ok ds' ->
  (exists i x y, ds !! i = Some x /\ ds' !! i = Some y /\ y < x) /\
  (exists i x y, ds !! i = Some x /\ ds' !! i = Some y /\ x < y).
Proof.
  intros Hwf%parameter_sets_wf Hm Hm' Hne Hds Hds'.
  rewrite (msg_csum_spec P Hwf) in Hds, Hds' by done. apply Ok_inj in Hds as <-, Hds' as <-.
  split; [by apply smaller_digit|].
  destruct (smaller_digit P Hwf m' m Hm' Hm) as (i & x & y & ? & ? & ?); [done|]. by exists i, y, x.
Qed.

(** The byte encoding of signatures is exact for each parameter set: the byte strings that
    [Signature::try_from] accepts are those of the set's signature length; decoding one and
    encoding it again, by [to_vec] or by [to_bytes], gives the same bytes; and every
    signature with arrays of the declared sizes is encoded to bytes that decode to it. *)
Lemma signature_codec_exact (P : ParameterSet) :
  P ∈ parameter_sets ->
  (forall b, len b = SigLen P ->
     exists sig, Signature_try_from P b = Ok sig /\ signature_wf P sig /\
       Signature_to_vec P sig = Ok b /\ Signature_to_bytes P sig = Ok b) /\
  (forall b, len b <> SigLen P -> Signature_try_from P b = Err SignatureError) /\
  (forall sig, signature_wf P sig ->
     exists b, Signature_to_vec P sig = Ok b /\ len b = SigLen P /\ Signature_try_from P b = Ok sig).
Proof.
  intros Hwf%parameter_sets_wf. split_and!.
  - intros b Hb. destruct (decode_wf P Hwf b Hb) as [Hs He]. exists (decode P b).
    rewrite Signature_to_vec_spec, Signature_to_bytes_spec, He by done.
    by rewrite Signature_try_from_spec.
  - intros b Hb. unfold Signature_try_from. by rewrite (proj2 (N.eqb_neq _ _) Hb).
  - intros sig Hs. exists (encode sig). pose proof (length_encode P Hwf sig Hs).
    rewrite Signature_to_vec_spec, Signature_try_from_spec by done. by rewrite decode_encode.
Qed.
End claims.

(** ** The verifier on bytes *)

Section bytes_level.
Context `{Shake} `{Sha2} `{MlDsa}.

(** The parameter set behind an algorithm identifier. *)
Definition slh_params (a : AlgId.t) : option ParameterSet :=
  match a with
  | AlgId.SlhDsaSha2128s => Some Sha2_128s
  | AlgId.SlhDsaShake128s => Some Shake128s
  | AlgId.SlhDsaShake192s => Some Shake192s
  | AlgId.SlhDsaShake256s => Some Shake256s
  | _ => None
  end.

Lemma slh_params_wf a P : slh_params a = Some P -> params_wf P.
Proof.
  intros HP. apply parameter_sets_wf. unfold parameter_sets.
  destruct a; try discriminate HP; injection HP as <-; rewrite !elem_of_cons; tauto.
Qed.

Lemma PqVerifier_slh a P pk preimage sig : slh_params a = Some P ->
  PqVerifier_verify (mkPublicKey a pk) preimage (mkSigBytes a sig) = slh_verify P pk preimage sig.
Proof.
  intros HP. unfold PqVerifier_verify. cbn [pk_alg_id sb_alg_id pk_bytes sb_bytes].
  rewrite bool_decide_true by done. cbn [ensure mbind outcome_bind].
  by destruct a; try discriminate HP; injection HP as <-.
Qed.

(** On bytes of the right lengths verification ends in acceptance or [VerificationFailed]. *)
Lemma slh_verify_spec P pk preimage sig : params_wf P ->
  slh_verify P pk preimage sig
    = (if len pk =? VkLen P then
         if len sig =? SigLen P then
           map_err (fun _ => CryptoError.VerificationFailed)
             (verify_msg P (mkVerifyingKey (take (hs_N P) pk) (drop (hs_N P) pk)) preimage (decode P sig))
         else Err CryptoError.InvalidSignatureSize
       else Err CryptoError.InvalidKeySize).
Proof.
  intros Hwf. unfold slh_verify. rewrite VerifyingKey_try_from_spec by done.
  destruct (len pk =? VkLen P); [|done]. cbn [map_err mbind outcome_bind].
  destruct (N.eqb_spec (len sig) (SigLen P)) as [Hl|Hl].
  - by rewrite Signature_try_from_spec.
  - unfold Signature_try_from. by rewrite (proj2 (N.eqb_neq _ _) Hl).
Qed.

Lemma verify_msg_decides P vk preimage sig : params_wf P -> signature_wf P sig ->
  verify_msg P vk preimage sig = Ok tt \/ verify_msg P vk preimage sig = Err SignatureError.
Proof.
  intros Hwf Hs. unfold verify_msg, try_verify_with_context, ctx_msg.
  change (len [] <=? u8_max) with true. cbn [ensure mbind outcome_bind]. set (m := _ ++ _).
  destruct (slh_verify_internal_spec P Hwf vk m sig Hs) as (md & it & il & _ & ->).
  destruct (bool_decide _); [by left|by right].
Qed.

Lemma slh_verify_outcomes a P pk preimage sig : slh_params a = Some P ->
  (len pk <> VkLen P -> slh_verify P pk preimage sig = Err CryptoError.InvalidKeySize) /\
  (len pk = VkLen P -> len sig <> SigLen P ->
     slh_verify P pk preimage sig = Err CryptoError.InvalidSignatureSize) /\
  (len pk = VkLen P -> len sig = SigLen P -> slh_verify P pk preimage sig = Ok tt \/
     slh_verify P pk preimage sig = Err CryptoError.VerificationFailed).
Proof.
  intros Hwf%slh_params_wf. rewrite slh_verify_spec by done. split_and!.
  - intros Hl. by rewrite (proj2 (N.eqb_neq _ _) Hl).
  - intros Hk Hl. by rewrite (proj2 (N.eqb_eq _ _) Hk), (proj2 (N.eqb_neq _ _) Hl).
  - intros Hk Hl. rewrite (proj2 (N.eqb_eq _ _) Hk), (proj2 (N.eqb_eq _ _) Hl).
    destruct (verify_msg_decides P (mkVerifyingKey (take (hs_N P) pk) (drop (hs_N P) pk))
      preimage (decode P sig) Hwf) as [-> | ->]; [by apply decode_wf|by left|by right].
Qed.

Lemma slh_generate_spec `{Rng} P (rng : rng_state) : params_wf P ->
  exists sk, signing_key_wf P sk /\
    slh_generate P rng
      = Ok (vk_pk_seed (sk_verifying_key sk) ++ vk_pk_root (sk_verifying_key sk), signing_key_bytes sk).
Proof.
  intros Hwf. destruct (SigningKey_new_spec P Hwf rng) as (sk & Hnew & Hsk). exists sk.
  split; [done|]. unfold slh_generate. rewrite Hnew. cbn [unwrap_result mbind outcome_bind].
  rewrite VerifyingKey_to_bytes_spec by (done || by apply signing_key_vk_wf).
  cbn [unwrap_result mbind outcome_bind].
  by destruct (SigningKey_to_bytes_spec P Hwf sk Hsk) as [-> _].
Qed.

Lemma slh_sign_spec P sk preimage : params_wf P -> signing_key_wf P sk ->
  exists sig, signature_wf P sig /\ slh_sign P (signing_key_bytes sk) preimage = Ok (encode sig) /\
    verify_msg P (sk_verifying_key sk) preimage sig = Ok tt.
Proof.
  intros Hwf Hsk. unfold slh_sign. rewrite SigningKey_roundtrip by done.
  cbn [map_err mbind outcome_bind].
  destruct (sign_with_context_verifies P Hwf sk preimage [] None Hsk) as (sig & -> & Hs & Hv);
    [done|done|]. cbn [map_err mbind outcome_bind]. exists sig.
  by rewrite Signature_to_vec_spec.
Qed.

Lemma registry_sizes a P : slh_params a = Some P ->
  exists e, e ∈ phase1_registry /\ alg_id e = a /\ VkLen P = alg_pk_size e /\ SigLen P = alg_sig_size e.
Proof.
  intros HP. exists (default (mkAlgEntry a [] 0 0 None 0 Lifecycle.Active 0)
    (list_find (fun e => alg_id e = a) phase1_registry ≫= fun '(_, e) => Some e)).
  split; [|by destruct a; try discriminate HP; injection HP as <-].
  destruct a; try discriminate HP;
    [apply (list_elem_of_lookup_2 _ 4)|apply (list_elem_of_lookup_2 _ 6)
    |apply (list_elem_of_lookup_2 _ 7)|apply (list_elem_of_lookup_2 _ 5)]; reflexivity.
Qed.

Definition vk_bytes (vk : VerifyingKey) : bytes := vk_pk_seed vk ++ vk_pk_root vk.

Lemma len_vk_bytes P sk : params_wf P -> signing_key_wf P sk -> len (vk_bytes (sk_verifying_key sk)) = VkLen P.
Proof.
  intros Hwf Hsk. destruct (signing_key_vk_wf P Hwf sk Hsk) as [Hps Hpr].
  rewrite (pw_vk_len P Hwf). unfold len, vk_bytes. rewrite length_app. lia.
Qed.

(** What a key signs, the verifier accepts under the bytes of its public key. *)
Lemma slh_sign_accepted a P sk preimage : slh_params a = Some P -> signing_key_wf P sk ->
  exists sig, slh_sign P (signing_key_bytes sk) preimage = Ok sig /\ len sig = SigLen P /\
    PqVerifier_verify (mkPublicKey a (vk_bytes (sk_verifying_key sk))) preimage (mkSigBytes a sig) = Ok tt.
Proof.
  intros HP Hsk. pose proof (slh_params_wf a P HP) as Hwf.
  destruct (slh_sign_spec P sk preimage Hwf Hsk) as (sig & Hs & Hsign & Hv).
  destruct (signing_key_vk_wf P Hwf sk Hsk) as [Hps Hpr]. pose proof (len_vk_bytes P sk Hwf Hsk) as Hpk.
  exists (encode sig). split; [done|]. split; [by apply length_encode|].
  rewrite (PqVerifier_slh a P) by done. rewrite slh_verify_spec by done.
  rewrite (proj2 (N.eqb_eq _ _) Hpk), (proj2 (N.eqb_eq _ _) (length_encode P Hwf sig Hs)).
  unfold vk_bytes. rewrite decode_encode, take_app_length', drop_app_length' by done.
  destruct (sk_verifying_key sk) as [ps pr]. cbn [vk_pk_seed vk_pk_root] in *. by rewrite Hv.
Qed.

(** The four SLH-DSA algorithms of the node are usable end to end: a generated key pair
    signs any preimage, [PqVerifier] accepts the signature bytes under the public-key
    bytes, and the public key and the signature have exactly the sizes that the algorithm
    registry declares for that identifier, the secret key twice the public key's. *)
Lemma pq_sign_then_verify `{Rng} (a : AlgId.t) (P : ParameterSet) (rng : rng_state)
    (preimage : bytes) :
  slh_params a = Some P ->
  exists pk sk sig e,
    slh_generate P rng = Ok (pk, sk) /\ slh_sign P sk preimage = Ok sig /\
    PqVerifier_verify (mkPublicKey a pk) preimage (mkSigBytes a sig) = Ok tt /\
    e ∈ phase1_registry /\ alg_id e = a /\
    len pk = alg_pk_size e /\ len sig = alg_sig_size e /\ len sk = 2 * len pk.
Proof.
  intros HP. pose proof (slh_params_wf a P HP) as Hwf.
  destruct (slh_generate_spec P rng Hwf) as (sk & Hsk & Hgen).
  destruct (slh_sign_accepted a P sk preimage HP Hsk) as (sig & Hsign & Hlen & Hv).
  pose proof (len_vk_bytes P sk Hwf Hsk) as Hpk. destruct (registry_sizes a P HP) as (e & He & Ha & Hek & Hes).
  exists (vk_bytes (sk_verifying_key sk)), (signing_key_bytes sk), sig, e. split_and!; try done.
  - by rewrite Hpk.
  - by rewrite <-Hes.
  - destruct (SigningKey_to_bytes_spec P Hwf sk Hsk) as [_ ->].
    rewrite Hpk, (pw_sk_len P Hwf), (pw_vk_len P Hwf). lia.
Qed.

(** C29 [PqVerifier] is total on hostile input: whatever the public key, the preimage and the
    signature, it returns and never panics; keys and signatures of different algorithms are
    refused; under an SLH-DSA identifier the outcome is [InvalidKeySize] or
    [InvalidSignatureSize] exactly when a length is wrong and otherwise acceptance or
    [VerificationFailed]; FN-DSA and ML-KEM are never accepted. The vendored SLH-DSA code is
    modelled with its panics; the [ml-dsa] crate is a parameter of the model that returns, so
    for ML-DSA the claim is about the code around it. *)
Theorem pq_verifier_total (pk : PublicKey) (preimage : bytes) (sig : SigBytes) :
  PqVerifier_verify pk preimage sig <> Panic /\
  (pk_alg_id pk <> sb_alg_id sig ->
     PqVerifier_verify pk preimage sig = Err (CryptoError.NotASigningAlgorithm (sb_alg_id sig))) /\
  (forall P, pk_alg_id pk = sb_alg_id sig -> slh_params (sb_alg_id sig) = Some P ->
     (len (pk_bytes pk) <> VkLen P ->
        PqVerifier_verify pk preimage sig = Err CryptoError.InvalidKeySize) /\
     (len (pk_bytes pk) = VkLen P -> len (sb_bytes sig) <> SigLen P ->
        PqVerifier_verify pk preimage sig = Err CryptoError.InvalidSignatureSize) /\
     (len (pk_bytes pk) = VkLen P -> len (sb_bytes sig) = SigLen P ->
        PqVerifier_verify pk preimage sig = Ok tt \/
        PqVerifier_verify pk preimage sig = Err CryptoError.VerificationFailed)) /\
  (sb_alg_id sig = AlgId.FnDsaPadded512 \/ sb_alg_id sig = AlgId.MlKem768 ->
     PqVerifier_verify pk preimage sig = Err (CryptoError.NotASigningAlgorithm (sb_alg_id sig))).
Proof.
  destruct pk as [a pk], sig as [a' sig]. cbn [pk_alg_id pk_bytes sb_alg_id sb_bytes].
  destruct (decide (a = a')) as [<-|Hne].
  - split_and!; [|done|intros P _ HP; rewrite (PqVerifier_slh a P) by done; by apply slh_verify_outcomes with a|by intros [-> | ->]].
    destruct (slh_params a) as [P|] eqn:HP.
    + rewrite (PqVerifier_slh a P) by done.
      destruct (slh_verify_outcomes a P pk preimage sig HP) as (Hk & Hl & Hv).
      destruct (N.eq_dec (len pk) (VkLen P)) as [?|?]; [|by rewrite Hk].
      destruct (N.eq_dec (len sig) (SigLen P)) as [?|?]; [|by rewrite Hl].
      by destruct Hv as [-> | ->].
    + unfold PqVerifier_verify, MlDsaVerifier_verify, verify_ml_dsa.
      destruct a; try discriminate HP; no_panic.
  - assert (Hmis : PqVerifier_verify (mkPublicKey a pk) preimage (mkSigBytes a' sig)
      = Err (CryptoError.NotASigningAlgorithm a')).
    { unfold PqVerifier_verify. cbn [pk_alg_id sb_alg_id]. by rewrite bool_decide_false. }
    rewrite Hmis. by split_and!.
Qed.
End bytes_level.

(** ** Hash addresses *)

Inductive Adrs :=
  | AWotsHash (a : WotsHash.t) | AWotsPk (a : WotsPk.t) | AHashTree (a : HashTree.t)
  | AForsTree (a : ForsTree.t) | AForsRoots (a : ForsRoots.t) | AWotsPrf (a : WotsPrf.t)
  | AForsPrf (a : ForsPrf.t).

Definition adrs_bytes (a : Adrs) : bytes :=
  match a with
  | AWotsHash a => WotsHash.as_ref a
  | AWotsPk a => WotsPk.as_ref a
  | AHashTree a => HashTree.as_ref a
  | AForsTree a => ForsTree.as_ref a
  | AForsRoots a => ForsRoots.as_ref a
  | AWotsPrf a => WotsPrf.as_ref a
  | AForsPrf a => ForsPrf.as_ref a
  end.

(** The words of an address: layer, tree (high, low), type and three words, the last two
    of them one wide zero in the padded forms. *)
Definition adrs_words (a : Adrs) : N * N * N * N * (N * N * N) :=
  match a with
  | AWotsHash a => (WotsHash.layer_adrs a, WotsHash.tree_adrs_high a, WotsHash.tree_adrs_low a,
      WotsHash.TYPE_CONST, (WotsHash.key_pair_adrs a, WotsHash.chain_adrs a, WotsHash.hash_adrs a))
  | AWotsPk a => (WotsPk.layer_adrs a, WotsPk.tree_adrs_high a, WotsPk.tree_adrs_low a,
      WotsPk.TYPE_CONST, (WotsPk.key_pair_adrs a, 0, 0))
  | AHashTree a => (HashTree.layer_adrs a, HashTree.tree_adrs_high a, HashTree.tree_adrs_low a,
      HashTree.TYPE_CONST, (0, HashTree.tree_height a, HashTree.tree_index a))
  | AForsTree a => (0, ForsTree.tree_adrs_high a, ForsTree.tree_adrs_low a,
      ForsTree.TYPE_CONST, (ForsTree.key_pair_adrs a, ForsTree.tree_height a, ForsTree.tree_index a))
  | AForsRoots a => (0, ForsRoots.tree_adrs_high a, ForsRoots.tree_adrs_low a,
      ForsRoots.TYPE_CONST, (ForsRoots.key_pair_adrs a, 0, 0))
  | AWotsPrf a => (WotsPrf.layer_adrs a, WotsPrf.tree_adrs_high a, WotsPrf.tree_adrs_low a,
      WotsPrf.TYPE_CONST, (WotsPrf.key_pair_adrs a, WotsPrf.chain_adrs a, 0))
  | AForsPrf a => (0, ForsPrf.tree_adrs_high a, ForsPrf.tree_adrs_low a,
      ForsPrf.TYPE_CONST, (ForsPrf.key_pair_adrs a, 0, ForsPrf.tree_index a))
  end.

Definition words_bytes (w : N * N * N * N * (N * N * N)) : bytes :=
  let '(layer, high, low, ty, (x, y, z)) := w in
  be_bytes 4 layer ++ be_bytes 4 high ++ be_bytes 8 low ++ be_bytes 4 ty
    ++ be_bytes 4 x ++ be_bytes 4 y ++ be_bytes 4 z.

(** In range as the crate uses them: below 256 layers and no high tree bits. *)
Definition adrs_fits (a : Adrs) : Prop :=
  let '(layer, high, low, _, (x, y, z)) := adrs_words a in
  layer < 256 /\ high = 0 /\ low < 2 ^ 64 /\ x < 2 ^ 32 /\ y < 2 ^ 32 /\ z < 2 ^ 32.

Lemma adrs_bytes_words a : adrs_bytes a = words_bytes (adrs_words a).
Proof. by destruct a. Qed.

Lemma adrs_words_inj a b : adrs_words a = adrs_words b -> a = b.
Proof. destruct a as [[]|[]|[]|[]|[]|[]|[]], b as [[]|[]|[]|[]|[]|[]|[]]; cbv; congruence. Qed.

(** What the compressed form keeps. *)
Lemma compressed_words layer high low ty x y z :
  compressed (words_bytes (layer, high, low, ty, (x, y, z)))
    = be_bytes 1 layer ++ be_bytes 8 low ++ be_bytes 1 ty ++ be_bytes 4 x ++ be_bytes 4 y ++ be_bytes 4 z.
Proof. reflexivity. Qed.

(** Hash calls are separated by address: two addresses of any of the seven kinds, in the
    ranges the crate uses, have different 32-byte forms and different 22-byte compressed
    forms as soon as they differ in kind or in any field. *)
Lemma addresses_separate (a b : Adrs) :
  adrs_fits a -> adrs_fits b ->
  (adrs_bytes a = adrs_bytes b -> a = b) /\
  (compressed (adrs_bytes a) = compressed (adrs_bytes b) -> a = b).
Proof.
  intros Ha Hb.
  assert (Hc : compressed (adrs_bytes a) = compressed (adrs_bytes b) -> a = b).
  { rewrite !adrs_bytes_words. intros Heq. apply adrs_words_inj. revert Ha Hb Heq. unfold adrs_fits.
    assert (Hty : forall a, (adrs_words a).1.2 < 256) by (intros []; done).
    pose proof (Hty a) as Ha'. pose proof (Hty b) as Hb'.
    destruct (adrs_words a) as [[[[l h] t] ty] [[x y] z]].
    destruct (adrs_words b) as [[[[l' h'] t'] ty'] [[x' y'] z']]. cbn [fst snd] in Ha', Hb'.
    intros (? & -> & ? & ? & ? & ?) (? & -> & ? & ? & ? & ?). rewrite !compressed_words.
    repeat (intros [He Heq]%app_inj_width; [|by rewrite !length_be_bytes];
            apply be_bytes_inj in He as ->; [|done|done]; revert Heq).
    intros He. apply be_bytes_inj in He as ->; done. }
  split; [|done]. intros Heq. apply Hc. by rewrite Heq.
Qed.

(** ** Witnesses *)

Definition shake128f_ex : ParameterSet := @Shake128f example_shake.

Lemma slh_sign_then_verify_witness :
  exists sk, @SigningKey_new shake128f_ex example_rng 5 = Ok sk /\
    exists sig, try_sign_with_context shake128f_ex sk (bstr "preimage") (bstr "viper") None = Ok sig /\
      try_verify_with_context shake128f_ex (sk_verifying_key sk) (bstr "preimage") (bstr "viper") sig
        = Ok tt.
Proof.
  destruct (@slh_sign_then_verify example_shake example_sha2 example_rng shake128f_ex 5)
    as (sk & Hnew & Hsig).
  - by apply (list_elem_of_lookup_2 _ 0).
  - exists sk. split; [done|]. by apply Hsig.
Defined.

Lemma wots_checksum_incomparable_witness :
  (exists i x y, wots_digits shake128f_ex (replicate 16 x00) !! i = Some x /\
     wots_digits shake128f_ex (replicate 16 x01) !! i = Some y /\ y < x) /\
  (exists i x y, wots_digits shake128f_ex (replicate 16 x00) !! i = Some x /\
     wots_digits shake128f_ex (replicate 16 x01) !! i = Some y /\ x < y).
Proof.
  apply (@wots_checksum_incomparable example_shake example_sha2 shake128f_ex
    (replicate 16 x00) (replicate 16 x01)).
  - by apply (list_elem_of_lookup_2 _ 0).
  - done.
  - done.
  - done.
  - vm_compute. reflexivity.
  - vm_compute. reflexivity.
Defined.

Lemma signature_codec_exact_witness :
  exists sig, Signature_try_from shake128f_ex (zeroes (N.to_nat 17088)) = Ok sig /\ signature_wf shake128f_ex sig /\
    Signature_to_vec shake128f_ex sig = Ok (zeroes (N.to_nat 17088)) /\
    Signature_to_bytes shake128f_ex sig = Ok (zeroes (N.to_nat 17088)).
Proof.
  apply (@signature_codec_exact example_shake example_sha2 shake128f_ex).
  - by apply (list_elem_of_lookup_2 _ 0).
  - unfold len, zeroes. by rewrite length_replicate, N2Nat.id.
Defined.

Lemma pq_sign_then_verify_witness :
  exists pk sk sig e,
    @slh_generate (@Shake256s example_shake) example_rng 9 = Ok (pk, sk) /\
    slh_sign (@Shake256s example_shake) sk (bstr "epoch root") = Ok sig /\
    @PqVerifier_verify example_shake example_sha2 example_mldsa
      (mkPublicKey AlgId.SlhDsaShake256s pk) (bstr "epoch root")
      (mkSigBytes AlgId.SlhDsaShake256s sig) = Ok tt /\
    e ∈ phase1_registry /\ alg_id e = AlgId.SlhDsaShake256s /\
    len pk = alg_pk_size e /\ len sig = alg_sig_size e /\ len sk = 2 * len pk.
Proof.
  apply (@pq_sign_then_verify example_shake example_sha2 example_mldsa example_rng
    AlgId.SlhDsaShake256s (@Shake256s example_shake) 9 (bstr "epoch root")).
  reflexivity.
Defined.

Lemma addresses_separate_witness :
  compressed (adrs_bytes (AWotsHash (WotsHash.mk 3 0 77 5 1 2)))
    <> compressed (adrs_bytes (AWotsPrf (WotsPrf.mk 3 0 77 5 1))).
Proof.
  intros Heq. pose proof (proj2 (addresses_separate (AWotsHash (WotsHash.mk 3 0 77 5 1 2))
    (AWotsPrf (WotsPrf.mk 3 0 77 5 1)) ltac:(done) ltac:(done)) Heq) as Hab.
  discriminate Hab.
Defined.
