(* ===== verification/LightClient.v ===== *)
(** * pqc-light-client: compact headers, the sync committee and its attestations.

    [src/crates/pqc-light-client/src/lib.rs], all of it.  A stake is a [u128]; the sum of
    the stakes and the reduction of a seed are computed with their overflow checks. *)

From S2P Require Import Prelude Crypto Cbor.

Definition SYNC_COMMITTEE_SIZE : nat := 16.
Definition SYNC_COMMITTEE_QUORUM : nat := 11.
Definition SYNC_COMMITTEE_GOSSIP_TOPIC : bytes := bstr "viper-light-client-attestations-v1".
Definition COMPACT_HEADER_DOMAIN : bytes := bstr "VIPER-LIGHT-HEADER-V1".

(** ** Compact headers *)

Record CompactHeader := mkCompactHeader {
  ch_header_version : N;
  ch_height : N;
  ch_prev_hash : bytes;
  ch_state_root : bytes;
  ch_tx_root : bytes;
  ch_extension_root : bytes;
  ch_epoch : N
}.

Definition compact_header_value (h : CompactHeader) : Value.t :=
  Value.Map
    [ (Value_uint 1, Value_uint (ch_header_version h));
      (Value_uint 2, Value_uint (ch_height h));
      (Value_uint 3, Value.Bytes (ch_prev_hash h));
      (Value_uint 4, Value.Bytes (ch_state_root h));
      (Value_uint 5, Value.Bytes (ch_tx_root h));
      (Value_uint 6, Value.Bytes (ch_extension_root h));
      (Value_uint 7, Value_uint (ch_epoch h)) ].

Section headers.
Context `{Shake} `{Ciborium}.

Definition compact_cbor_bytes (h : CompactHeader) : bytes := into_writer (compact_header_value h).

Definition compact_preimage (h : CompactHeader) (fork_digest : bytes) : bytes :=
  COMPACT_HEADER_DOMAIN ++ fork_digest ++ compact_cbor_bytes h.

Definition HEADER_ROOT_DOMAIN : bytes := bstr "VIPER-LIGHT-HEADER-ROOT-V1".

Definition header_root (h : CompactHeader) (fork_digest : bytes) : bytes :=
  tagged_hash HEADER_ROOT_DOMAIN (compact_preimage h fork_digest).
End headers.

(** ** Committee selection *)

(** One bit of [reduce_u256_be_mod_u128]: [acc] doubled, plus the bit, modulo [m]. *)
Definition reduce_bit {E} (m pow128_mod_m : N) (acc bit : N) : outcome E N :=
  let high_carry := N.shiftr acc 127 in
  let shifted := N.lor (N.shiftl acc 1 mod 2 ^ 128) bit in
  if high_carry =? 1 then
    sum ← add_checked u128_max (shifted mod m) pow128_mod_m;
    Ok (sum mod m)
  else Ok (shifted mod m).

(** The bits of a byte from the most significant one. *)
Definition byte_bits (b : byte) : list N :=
  (fun shift => N.land (N.shiftr (Byte.to_N b) shift) 1) <$> [7; 6; 5; 4; 3; 2; 1; 0].

Definition reduce_u256_be_mod_u128 {E} (chunk : bytes) (m : N) : outcome E N :=
  if m =? 0 then Panic else
  let pow128_mod_m := ((u128_max mod m + 1) mod 2 ^ 128) mod m in
  foldM (fun acc b => foldM (reduce_bit m pow128_mod_m) acc (byte_bits b)) 0 chunk.

(** [slice::sort_by], a stable sort, by insertion from the right. *)
Fixpoint insert_by {T} (le : T -> T -> bool) (x : T) (l : list T) : list T :=
  match l with
  | [] => [x]
  | y :: l' => if le x y then x :: l else y :: insert_by le x l'
  end.
Definition sort_by {T} (le : T -> T -> bool) (l : list T) : list T := foldr (insert_by le) [] l.

(** Descending stake, then ascending address. *)
Definition stake_order (a b : nat * (bytes * N)) : bool :=
  let '(_, (addr_a, stake_a)) := a in
  let '(_, (addr_b, stake_b)) := b in
  (stake_b <? stake_a) || ((stake_b =? stake_a) && bytes_leb addr_a addr_b).

Definition stake_of (validators : list (bytes * N)) (i : nat) : N :=
  match validators !! i with Some v => v.2 | None => 0 end.

(** The walk over [remaining]: the first position whose cumulative stake exceeds the
    selector, the last position if none does. *)
Fixpoint pick_position (validators : list (bytes * N)) (selector cumulative : N)
    (remaining : list nat) (j last : nat) : nat :=
  match remaining with
  | [] => last
  | orig_idx :: rest =>
      let cumulative := sat_add u128_max cumulative (stake_of validators orig_idx) in
      if selector <? cumulative then j
      else pick_position validators selector cumulative rest (j + 1) last
  end.

Section selection.
Context `{Shake}.

Definition committee_seed (state_root : bytes) (epoch : N) : bytes :=
  tagged_hash (bstr "VIPER-SYNC-COMMITTEE-V1") (be_bytes 8 epoch ++ state_root).

(** [for i in 0..SYNC_COMMITTEE_SIZE], with its early exit. *)
Fixpoint select_loop {E} (validators : list (bytes * N)) (seed : bytes) (i fuel : nat)
    (total_stake : N) (remaining committee : list nat) : outcome E (list nat) :=
  match fuel with
  | O => Ok committee
  | S fuel' =>
      if bool_decide (remaining = []) || (total_stake =? 0) then Ok committee
      else
        let chunk := shake256_n 32 [seed; be_bytes 8 (N.of_nat i)] in
        selector ← reduce_u256_be_mod_u128 chunk total_stake;
        let j := pick_position validators selector 0 remaining 0 (length remaining - 1) in
        match remaining !! j with
        | None => Panic
        | Some picked =>
            select_loop validators seed (i + 1) fuel' (total_stake - stake_of validators picked)
              (delete j remaining) (committee ++ [picked])
        end
  end.

Definition select_committee {E} (state_root : bytes) (epoch : N) (validators : list (bytes * N))
    : outcome E (list nat) :=
  if bool_decide (validators = []) then Ok []
  else if bool_decide (length validators <= SYNC_COMMITTEE_SIZE)%nat then
    Ok ((sort_by stake_order (zip (seq 0 (length validators)) validators)).*1)
  else
    let seed := committee_seed state_root epoch in
    total_stake ← foldM (fun acc v => add_checked u128_max acc v.2) 0 validators;
    select_loop validators seed 0 SYNC_COMMITTEE_SIZE total_stake
      (seq 0 (length validators)) [].
End selection.

(** ** Attestations *)

Record LightClientAttestation := mkAttestation {
  lc_epoch : N;
  lc_header_root : bytes;
  lc_sigs : list (N * bytes);
  lc_agg_proof : option bytes
}.

(** The messages of the decoder's errors. *)
Inductive AttestationError : Set :=
  | CborDecodeFailed | EnvelopeNotMap | KeyOutOfRange | NonIntegerKey
  | EpochNotUint | EpochOutOfRange | HeaderRootNotBstr | HeaderRootNot32 | SigsNotArray
  | SigPairNot2Array | IdxOutOfU64 | CommitteeIndexNotUint | CommitteeIndexAbove255
  | CommitteeIndexOutOfCommittee | SignatureNotBstr | SignatureEmpty | AggProofNotNullOrBstr
  | UnknownKey | MissingEpoch | MissingHeaderRoot | MissingSigs | MissingAggProof.

Definition attestation_value (a : LightClientAttestation) : Value.t :=
  Value.Map
    [ (Value_uint 1, Value_uint (lc_epoch a));
      (Value_uint 2, Value.Bytes (lc_header_root a));
      (Value_uint 3, Value.Array ((fun '(idx, sig) =>
         Value.Array [Value_uint idx; Value.Bytes sig]) <$> lc_sigs a));
      (Value_uint 4, match lc_agg_proof a with None => Value.Null | Some b => Value.Bytes b end) ].

Definition decode_sig_entry (entry : Value.t) : outcome AttestationError (N * bytes) :=
  match entry with
  | Value.Array [idx_val; sig_val] =>
      idx_u64 ← match idx_val with
                | Value.Integer i => ok_or (try_from_Z u64_max i) IdxOutOfU64
                | _ => Err CommitteeIndexNotUint
                end;
      ensure (idx_u64 <=? u8_max) CommitteeIndexAbove255 ;;
      ensure (idx_u64 <? N.of_nat SYNC_COMMITTEE_SIZE) CommitteeIndexOutOfCommittee ;;
      sig_bytes ← expect_bytes SignatureNotBstr sig_val;
      ensure (negb (bool_decide (sig_bytes = []))) SignatureEmpty ;;
      Ok (idx_u64, sig_bytes)
  | _ => Err SigPairNot2Array
  end.

(** The fields seen so far. *)
Record AttestationFields := mkFields {
  f_epoch : option N;
  f_header_root : option bytes;
  f_sigs : option (list (N * bytes));
  f_agg_proof : option (option bytes)
}.

Global Instance eta_AttestationFields : Settable AttestationFields := fun x =>
  mkFields (f_epoch x) (f_header_root x) (f_sigs x) (f_agg_proof x).

Definition attestation_field (acc : AttestationFields) (key : Z) (val : Value.t)
    : outcome AttestationError AttestationFields :=
  key_int ← ok_or (try_from_Z u64_max key) KeyOutOfRange;
  match key_int with
  | 1 =>
      i ← match val with
          | Value.Integer i => ok_or (try_from_Z u64_max i) EpochOutOfRange
          | _ => Err EpochNotUint
          end;
      Ok (acc <| f_epoch := Some i |>)
  | 2 =>
      b ← expect_bytes_n HeaderRootNotBstr HeaderRootNot32 32 val;
      Ok (acc <| f_header_root := Some b |>)
  | 3 =>
      entries ← expect_array SigsNotArray val;
      decoded ← collect decode_sig_entry entries;
      Ok (acc <| f_sigs := Some decoded |>)
  | 4 =>
      p ← match val with
          | Value.Null => Ok None
          | Value.Bytes b => Ok (Some b)
          | _ => Err AggProofNotNullOrBstr
          end;
      Ok (acc <| f_agg_proof := Some p |>)
  | _ => Err UnknownKey
  end.

Section attestations.
Context `{Ciborium}.

Definition attestation_encode (a : LightClientAttestation) : bytes :=
  into_writer (attestation_value a).

Definition attestation_decode (b : bytes) : outcome AttestationError LightClientAttestation :=
  value ← ok_or (from_reader b) CborDecodeFailed;
  entries ← expect_map EnvelopeNotMap value;
  f ← decode_fields NonIntegerKey attestation_field (mkFields None None None None) entries;
  epoch ← ok_or (f_epoch f) MissingEpoch;
  header_root ← ok_or (f_header_root f) MissingHeaderRoot;
  sigs ← ok_or (f_sigs f) MissingSigs;
  agg_proof ← ok_or (f_agg_proof f) MissingAggProof;
  Ok (mkAttestation epoch header_root sigs agg_proof).
End attestations.
