(* ===== verification/LightClientProps.v ===== *)
(** * Properties of the light client: the reduction of a seed, the sync committee as a
    stake-weighted sample without replacement, and the codec of attestations. *)

From S2P Require Import Prelude Crypto Cbor LightClient.

(** ** The reduction modulo the total stake *)

Section reduce.
Context {E : Type} (m : N).
Hypothesis Hm : 0 < m <= u128_max.

Let pow : N := ((u128_max mod m + 1) mod 2 ^ 128) mod m.

Lemma pow_spec : pow = 2 ^ 128 mod m.
Proof.
  unfold pow. pose proof (N.mod_lt u128_max m ltac:(lia)).
  change (2 ^ 128) with (u128_max + 1) at 2.
  rewrite (N.mod_small _ (2 ^ 128)) by (change (2 ^ 128) with 340282366920938463463374607431768211456; lia).
  by rewrite N.Div0.add_mod_idemp_l.
Qed.

Lemma lor_bit x b : b <= 1 -> N.lor (2 * x) b = 2 * x + b.
Proof. intros Hb. assert (b = 0 \/ b = 1) as [-> | ->] by lia; by destruct x. Qed.

Local Abbreviation top := 170141183460469231731687303715884105728 (only parsing).

(** Doubling an accumulator: the bit shifted out of 128 bits is put back modulo [m]. *)
Lemma reduce_bit_spec acc b :
  acc < m -> b <= 1 -> @reduce_bit E m pow acc b = Ok ((2 * acc + b) mod m).
Proof.
  intros Hacc Hb. unfold reduce_bit. rewrite N.shiftr_div_pow2, N.shiftl_mul_pow2.
  change (2 ^ 1) with 2. rewrite (N.mul_comm acc 2).
  change (2 ^ 127) with top. change (2 ^ 128) with (2 * top).
  rewrite N.Div0.mul_mod_distr_l, lor_bit by done.
  pose proof (N.Div0.div_mod acc top) as Hdm. pose proof (N.mod_lt acc top ltac:(done)) as Hlt.
  remember (acc mod top) as r eqn:Hr.
  assert (Hq : acc / top = 0 \/ acc / top = 1).
  { assert (acc / top < 2); [|lia]. apply N.Div0.div_lt_upper_bound. lia. }
  destruct Hq as [Hq|Hq]; rewrite Hq in Hdm |- *; cbn [N.eqb Pos.eqb].
  - do 2 f_equal. lia.
  - assert (Hpow : pow = 2 * top - m).
    { rewrite pow_spec. change (2 ^ 128) with (2 * top).
      replace (2 * top) with (2 * top - m + 1 * m) at 1 by lia.
      rewrite N.Div0.mod_add. apply N.mod_small. lia. }
    pose proof (N.mod_lt (2 * r + b) m ltac:(lia)).
    assert (Hsum : (2 * r + b) mod m + pow <= u128_max) by (rewrite Hpow; lia).
    assert (Hadd : @add_checked E u128_max ((2 * r + b) mod m) pow = Ok ((2 * r + b) mod m + pow))
      by (by apply add_checked_Ok).
    rewrite Hadd. cbn [mbind outcome_bind]. rewrite pow_spec, <-N.Div0.add_mod. change (2 ^ 128) with (2 * top).
    do 2 f_equal. lia.
Qed.

Lemma byte_bits_value b acc : foldl (fun a x => 2 * a + x) acc (byte_bits b) = acc * 256 + Byte.to_N b.
Proof.
  assert (H0 : foldl (fun a x => 2 * a + x) 0 (byte_bits b) = Byte.to_N b) by (by destruct b).
  unfold byte_bits in *. cbn [fmap list_fmap foldl] in *. lia.
Qed.

Lemma reduce_bits_spec acc l :
  Forall (fun b => b <= 1) l -> acc < m ->
  foldM (@reduce_bit E m pow) acc l = Ok (foldl (fun a x => 2 * a + x) acc l mod m).
Proof.
  intros Hl Hacc.
  assert (Hg : forall l a, Forall (fun b => b <= 1) l ->
    foldM (@reduce_bit E m pow) (a mod m) l = Ok (foldl (fun a x => 2 * a + x) a l mod m)).
  { clear l acc Hl Hacc. induction l as [|x l IH]; intros a Hl; cbn [foldM foldl]; [done|].
    apply Forall_cons in Hl as [Hx Hl].
    rewrite reduce_bit_spec by (done || (apply N.mod_lt; lia)). cbn [mbind outcome_bind].
    rewrite <-IH by done. f_equal.
    rewrite <-N.Div0.add_mod_idemp_l, N.Div0.mul_mod_idemp_r, N.Div0.add_mod_idemp_l. done. }
  rewrite <-(Hg l acc Hl). by rewrite (N.mod_small acc) by done.
Qed.

Lemma byte_bits_le b : Forall (fun x => x <= 1) (byte_bits b).
Proof.
  apply Forall_fmap, Forall_true. intros s. cbn. change 1 with (N.ones 1) at 1.
  rewrite N.land_ones. change (2 ^ 1) with 2.
  pose proof (N.mod_lt (N.shiftr (Byte.to_N b) s) 2 ltac:(lia)). lia.
Qed.

Lemma reduce_spec chunk :
  @reduce_u256_be_mod_u128 E chunk m = Ok (of_be_bytes chunk mod m).
Proof.
  unfold reduce_u256_be_mod_u128. rewrite (proj2 (N.eqb_neq m 0)) by lia. fold pow.
  unfold of_be_bytes.
  assert (Hg : forall l a, foldM (fun acc b => foldM (@reduce_bit E m pow) acc (byte_bits b)) (a mod m) l
    = Ok (foldl (fun acc b => acc * 256 + Byte.to_N b) a l mod m)).
  { induction l as [|b l IH]; intros a; cbn [foldM foldl]; [done|].
    rewrite reduce_bits_spec by (apply byte_bits_le || (apply N.mod_lt; lia)).
    cbn [mbind outcome_bind]. rewrite byte_bits_value, <-IH. f_equal.
    rewrite <-N.Div0.add_mod_idemp_l, N.Div0.mul_mod_idemp_l, N.Div0.add_mod_idemp_l. done. }
  rewrite <-Hg. by rewrite N.Div0.mod_0_l.
Qed.
End reduce.

(** ** One draw *)

Section draws.
Context (validators : list (bytes * N)).

Definition stake_sum (l : list nat) : N := list_sumN (stake_of validators) l.

Lemma stake_sum_app l1 l2 : stake_sum (l1 ++ l2) = stake_sum l1 + stake_sum l2.
Proof. apply list_sumN_app. Qed.

Lemma stake_sum_Permutation l1 l2 : l1 ≡ₚ l2 -> stake_sum l1 = stake_sum l2.
Proof. apply list_sumN_Permutation. Qed.

(** Position [k] holds the selector: the stakes before it do not exceed it, its own does. *)
Definition holds (l : list nat) (selector : N) (k p : nat) : Prop :=
  l !! k = Some p /\ stake_sum (take k l) <= selector < stake_sum (take k l) + stake_of validators p.

Lemma pick_position_spec selector l : forall cum j last,
  cum <= selector < cum + stake_sum l -> cum + stake_sum l <= u128_max ->
  exists k p, pick_position validators selector cum l j last = (j + k)%nat /\ l !! k = Some p /\
    cum + stake_sum (take k l) <= selector < cum + stake_sum (take k l) + stake_of validators p.
Proof.
  induction l as [|x l IH]; intros cum j last Hsel Hmax; cbn [pick_position]; [cbn in Hsel; lia|].
  cbn [stake_sum list_sumN] in *. fold (stake_sum l) in *. unfold stake_sum in Hsel, Hmax. cbn in Hsel, Hmax.
  fold (stake_sum l) in Hsel, Hmax. rewrite sat_add_small by lia.
  destruct (N.ltb_spec selector (cum + stake_of validators x)) as [Hlt|Hge].
  - exists 0%nat, x. rewrite Nat.add_0_r. cbn. split_and!; [done..|lia|lia].
  - destruct (IH (cum + stake_of validators x) (j + 1)%nat last) as (k & p & Hp & Hk & Hb); [lia|lia|].
    exists (S k), p. rewrite Hp. split; [lia|]. split; [done|]. cbn [take]. unfold stake_sum. cbn.
    fold (stake_sum (take k l)). lia.
Qed.

Lemma pick_holds selector l last :
  selector < stake_sum l -> stake_sum l <= u128_max ->
  exists k p, pick_position validators selector 0 l 0 last = k /\ holds l selector k p.
Proof.
  intros Hs Hm. destruct (pick_position_spec selector l 0 0 last) as (k & p & Hp & Hk & Hb); [lia|lia|].
  exists k, p. split; [done|]. split; [done|lia].
Qed.

(** Who is left when [c] has been drawn, in index order. *)
Definition left_after (c : list nat) : list nat :=
  filter (fun i => i ∉ c) (seq 0 (length validators)).

Lemma left_after_NoDup c : NoDup (left_after c).
Proof. apply NoDup_filter, NoDup_seq. Qed.

Lemma filter_all (Q : nat -> Prop) `{forall x, Decision (Q x)} (l : list nat) :
  (forall x, x ∈ l -> Q x) -> filter Q l = l.
Proof.
  induction l as [|x l IH]; intros Hl; [done|]. rewrite filter_cons_True by (apply Hl; left).
  f_equal. apply IH. intros y ?. apply Hl. by right.
Qed.

Lemma delete_filter (l : list nat) k p :
  NoDup l -> l !! k = Some p -> delete k l = filter (fun i => i <> p) l.
Proof.
  intros Hnd Hk. rewrite delete_take_drop. rewrite <-(take_drop_middle l k p Hk) in Hnd.
  rewrite <-(take_drop_middle l k p Hk) at 3.
  apply NoDup_app in Hnd as (_ & Hd1 & [Hp _]%NoDup_cons).
  rewrite filter_app, filter_cons_False by (intros ?; done).
  f_equal; symmetry; apply filter_all; intros x Hx ->; [|done]. apply (Hd1 _ Hx). left.
Qed.

Lemma left_after_snoc c k p : left_after c !! k = Some p ->
  delete k (left_after c) = left_after (c ++ [p]).
Proof.
  intros Hk. rewrite (delete_filter _ _ p) by (done || apply left_after_NoDup). unfold left_after.
  rewrite list_filter_filter. apply list_filter_iff. intros i. set_solver.
Qed.

(** The number of members of a list with stake. *)
Definition staked (l : list nat) : nat := length (filter (fun i => 0 < stake_of validators i) l).

Lemma staked_delete l k p : l !! k = Some p -> 0 < stake_of validators p ->
  staked l = S (staked (delete k l)).
Proof.
  intros Hk Hp. unfold staked. rewrite (delete_Permutation l k p Hk) at 1.
  by rewrite filter_cons_True.
Qed.

Lemma staked_zero l : stake_sum l = 0 -> staked l = 0%nat.
Proof.
  unfold staked, stake_sum. induction l as [|x l IH]; cbn [list_sumN]; [done|]. intros Hs.
  rewrite filter_cons_False by lia. apply IH. lia.
Qed.

Lemma stake_sum_delete l k p : l !! k = Some p ->
  stake_sum l - stake_of validators p = stake_sum (delete k l).
Proof.
  intros Hk. rewrite (stake_sum_Permutation _ _ (delete_Permutation l k p Hk)).
  unfold stake_sum. cbn. lia.
Qed.
End draws.

(** ** The committee *)

Section committee.
Context `{Shake} {E : Type} (validators : list (bytes * N)) (seed : bytes).

Definition draw (i : nat) : bytes := shake256_n 32 [seed; be_bytes 8 (N.of_nat i)].

(** Draw [i] took the member whose stake interval, among those left, holds the digest
    reduced modulo the stake left. *)
Definition weighted_draw (c : list nat) (i p : nat) : Prop :=
  let rest := left_after validators (take i c) in
  exists k, holds validators rest (of_be_bytes (draw i) mod stake_sum validators rest) k p.

Definition committee_ok (c : list nat) : Prop :=
  NoDup c /\ Forall (fun p => (p < length validators)%nat /\ 0 < stake_of validators p) c /\
  forall i p, c !! i = Some p -> weighted_draw c i p.

Lemma committee_ok_snoc c k p :
  committee_ok c ->
  holds validators (left_after validators c)
    (of_be_bytes (draw (length c)) mod stake_sum validators (left_after validators c)) k p ->
  committee_ok (c ++ [p]).
Proof.
  intros (Hnd & Hpos & Hdraw) Hk. pose proof Hk as [Hlook Hb].
  apply list_elem_of_lookup_2 in Hlook as Hin. apply list_elem_of_filter in Hin as [Hnew Hseq].
  apply elem_of_seq in Hseq. split_and!.
  - apply NoDup_app. split_and!; [done| |apply NoDup_singleton]. intros x Hx ->%list_elem_of_singleton.
    done.
  - apply Forall_app. split; [done|]. constructor; [|done]. split; [lia|]. lia.
  - intros i q Hi. apply lookup_app_Some in Hi as [Hi|[Hge Hi]].
    + unfold weighted_draw. rewrite take_app_le by (apply lookup_lt_Some in Hi; lia). by apply Hdraw.
    + apply list_lookup_singleton_Some in Hi as [Hz <-]. replace i with (length c) by lia.
      unfold weighted_draw. rewrite take_app_length. by exists k.
Qed.

Lemma select_loop_spec fuel c :
  committee_ok c -> stake_sum validators (left_after validators c) <= u128_max ->
  exists c', @select_loop _ E validators seed (length c) fuel
      (stake_sum validators (left_after validators c)) (left_after validators c) c = Ok c' /\
    committee_ok c' /\
    length c' = (length c + min fuel (staked validators (left_after validators c)))%nat.
Proof.
  revert c. induction fuel as [|fuel IH]; intros c Hc Hmax; cbn [select_loop].
  - exists c. cbn. by rewrite Nat.add_0_r.
  - destruct (decide (stake_sum validators (left_after validators c) = 0)) as [Hz|Hnz].
    { rewrite Hz, N.eqb_refl, orb_true_r. exists c. rewrite staked_zero by done.
      by rewrite Nat.min_0_r, Nat.add_0_r. }
    rewrite (proj2 (N.eqb_neq _ 0)), orb_false_r by done.
    rewrite bool_decide_false by (intros Hnil; by rewrite Hnil in Hnz).
    rewrite reduce_spec by lia. cbn [mbind outcome_bind]. fold (draw (length c)).
    set (sel := of_be_bytes (draw (length c)) mod _).
    destruct (pick_holds validators sel (left_after validators c)
      (length (left_after validators c) - 1)) as (k & p & -> & Hk); [by apply N.mod_lt|done|].
    pose proof Hk as [Hlook Hb]. rewrite Hlook, (stake_sum_delete _ _ k) by done.
    rewrite (left_after_snoc _ _ _ _ Hlook).
    assert (Hdel : stake_sum validators (left_after validators (c ++ [p])) <= u128_max).
    { rewrite <-(left_after_snoc _ _ _ _ Hlook), <-stake_sum_delete with (p := p) by done. lia. }
    destruct (IH (c ++ [p])) as (c' & Hrun & Hok & Hlen); [by eapply committee_ok_snoc|done|].
    exists c'. rewrite length_app in Hrun, Hlen. cbn [length] in Hrun, Hlen. rewrite Hrun.
    split_and!; [done|done|]. rewrite (staked_delete _ _ _ _ Hlook) by lia.
    rewrite (left_after_snoc _ _ _ _ Hlook). lia.
Qed.
End committee.

(** *** Small active sets: a stable sort *)

Section sorting.
Context {T : Type} (le : T -> T -> bool).
Hypothesis le_total : forall x y, le x y = false -> le y x = true.
Hypothesis le_trans : forall x y z, le x y = true -> le y z = true -> le x z = true.

Lemma insert_by_Permutation x l : insert_by le x l ≡ₚ x :: l.
Proof.
  induction l as [|y l IH]; cbn; [done|]. destruct (le x y); [done|]. rewrite IH. apply Permutation_swap.
Qed.

Lemma sort_by_Permutation l : sort_by le l ≡ₚ l.
Proof. induction l as [|x l IH]; cbn; [done|]. by rewrite insert_by_Permutation, IH. Qed.

Lemma insert_by_sorted x l :
  StronglySorted (fun a b => le a b = true) l -> StronglySorted (fun a b => le a b = true) (insert_by le x l).
Proof.
  induction 1 as [|y l Hl IH Hy]; cbn; [by repeat constructor|]. destruct (le x y) eqn:Hxy.
  - constructor; [by constructor|]. constructor; [done|].
    eapply Forall_impl; [done|]. cbn. intros z. by apply le_trans.
  - constructor; [done|]. rewrite insert_by_Permutation. constructor; [by apply le_total|done].
Qed.

Lemma sort_by_sorted l : StronglySorted (fun a b => le a b = true) (sort_by le l).
Proof. induction l as [|x l IH]; cbn; [constructor|]. by apply insert_by_sorted. Qed.
End sorting.

Lemma stake_order_total a b : stake_order a b = false -> stake_order b a = true.
Proof.
  destruct a as [i [x s]], b as [j [y t]]. unfold stake_order. intros Hf.
  apply orb_false_iff in Hf as [Hs He]. apply N.ltb_ge in Hs. apply orb_true_iff.
  destruct (N.eqb_spec t s) as [->|Hne]; [right|left; apply N.ltb_lt; lia].
  rewrite N.eqb_refl in *. cbn in *. destruct (total bytes_le x y) as [Hxy|?]; [|done].
  unfold bytes_le in Hxy. congruence.
Qed.

Lemma stake_order_trans a b c :
  stake_order a b = true -> stake_order b c = true -> stake_order a c = true.
Proof.
  destruct a as [i [x s]], b as [j [y t]], c as [k [z u]]. unfold stake_order.
  rewrite !orb_true_iff, !andb_true_iff, !N.ltb_lt, !N.eqb_eq.
  intros [?|[-> Hxy]] [?|[-> Hyz]]; [left; lia..|right]. split; [done|].
  exact (transitivity (R := bytes_le) Hxy Hyz).
Qed.

Lemma zip_seq_fst (validators : list (bytes * N)) :
  (zip (seq 0 (length validators)) validators).*1 = seq 0 (length validators).
Proof. apply fst_zip. by rewrite length_seq. Qed.

Lemma zip_seq_lookup (validators : list (bytes * N)) e :
  e ∈ zip (seq 0 (length validators)) validators -> validators !! e.1 = Some e.2.
Proof.
  destruct e as [n v]. intros (i & Hi)%list_elem_of_lookup. apply lookup_zip_Some in Hi as [Hs Hv].
  by apply lookup_seq in Hs as [-> _].
Qed.

(** Higher stake first, the smaller address first among equals. *)
Definition ranks_before (validators : list (bytes * N)) (i j : nat) : Prop :=
  exists v w, validators !! i = Some v /\ validators !! j = Some w /\
    (w.2 < v.2 \/ w.2 = v.2 /\ bytes_le v.1 w.1).

Lemma small_committee_sorted validators :
  StronglySorted (ranks_before validators)
    (sort_by stake_order (zip (seq 0 (length validators)) validators)).*1.
Proof.
  pose proof (sort_by_sorted stake_order stake_order_total stake_order_trans
    (zip (seq 0 (length validators)) validators)) as Hs.
  pose proof (sort_by_Permutation stake_order (zip (seq 0 (length validators)) validators)) as Hp.
  assert (Hst : Forall (fun e => validators !! e.1 = Some e.2)
    (sort_by stake_order (zip (seq 0 (length validators)) validators))).
  { rewrite Hp. apply Forall_forall. apply zip_seq_lookup. }
  revert Hs Hst. generalize (sort_by stake_order (zip (seq 0 (length validators)) validators)).
  induction 1 as [|a l Hl IH Ha]; intros Hst; cbn; [constructor|].
  apply Forall_cons in Hst as [Hea Hst]. constructor; [by apply IH|]. apply Forall_fmap.
  rewrite Forall_forall in *. intros b Hb. cbn. exists a.2, b.2. split_and!; [done|by apply Hst|].
  specialize (Ha b Hb). destruct a as [i [x s]], b as [j [y t]]. unfold stake_order in Ha. cbn.
  apply orb_true_iff in Ha as [?%N.ltb_lt|[?%N.eqb_eq Hle]%andb_true_iff]; [by left|right].
  by split.
Qed.

Lemma sum_stakes {E} (l : list (bytes * N)) acc : acc <= u128_max ->
  foldM (fun acc v => @add_checked E u128_max acc v.2) acc l =
    if acc + list_sumN snd l <=? u128_max then Ok (acc + list_sumN snd l) else Panic.
Proof.
  revert acc. induction l as [|v l IH]; intros acc Hs; cbn.
  { by rewrite N.add_0_r, (proj2 (N.leb_le _ _) Hs). }
  destruct (N.leb_spec (acc + v.2) u128_max) as [Hv|Hv].
  - rewrite (proj2 (add_checked_Ok _ _ _ (acc + v.2))) by done. cbn [mbind outcome_bind].
    rewrite IH by done. by rewrite N.add_assoc.
  - rewrite (proj2 (add_checked_Panic _ _ _)) by done. cbn [mbind outcome_bind]. destruct (N.leb_spec (acc + (v.2 + list_sumN snd l)) u128_max); [lia|done].
Qed.

Lemma list_sumN_id {A} (f : A -> N) l : list_sumN f l = list_sumN id (f <$> l).
Proof. induction l as [|x l IH]; cbn; [done|]. by rewrite IH. Qed.

Lemma stake_sum_all validators : stake_sum validators (seq 0 (length validators)) = list_sumN snd validators.
Proof.
  unfold stake_sum. rewrite list_sumN_id, (list_sumN_id snd). f_equal. apply list_eq. intros i.
  rewrite !list_lookup_fmap. destruct (decide (i < length validators)%nat) as [Hi|Hi].
  - rewrite lookup_seq_lt by done. cbn. unfold stake_of.
    by destruct (lookup_lt_is_Some_2 validators i Hi) as [v ->].
  - rewrite lookup_seq_ge, lookup_ge_None_2 by lia. done.
Qed.

Lemma left_after_nil validators : left_after validators [] = seq 0 (length validators).
Proof. apply filter_all. intros x _. apply not_elem_of_nil. Qed.

(** C30 What the selection of a sync committee computes.  With at most 16 validators it is all of
    them by descending stake, by address among equals.  With more, and a total stake that fits
    [u128], it is a stake-weighted sample without replacement: distinct validators with stake, 16
    of them, or every validator with stake if fewer than 16 have any; draw [i] takes the member
    whose interval of cumulative stake holds the [i]-th digest of the seed modulo the stake not
    yet drawn, where the validators not yet drawn are walked in the order of the input (the
    specification walks them sorted by stake, and promises 16 members without regard to zero
    stakes).  With a greater total stake the sum overflows and the function panics. *)
Theorem committee_is_weighted_sample `{Shake} {E} (state_root : bytes) (epoch : N)
    (validators : list (bytes * N)) :
  let run := @select_committee _ E state_root epoch validators in
  if (length validators <=? 16)%nat then exists c, run = Ok c /\
    c ≡ₚ seq 0 (length validators) /\ StronglySorted (ranks_before validators) c
  else if list_sumN snd validators <=? u128_max then exists c, run = Ok c /\
    committee_ok validators (committee_seed state_root epoch) c /\
    length c = min 16 (staked validators (seq 0 (length validators)))
  else run = Panic.
Proof.
  intros run. unfold run, select_committee. destruct (Nat.leb_spec (length validators) 16) as [Hs|Hs].
  - rewrite (bool_decide_true (length validators <= _)%nat) by done.
    case_bool_decide as Hnil; eexists; (split; [done|]).
    + subst. split; [done|constructor].
    + split; [|apply small_committee_sorted]. rewrite sort_by_Permutation. by rewrite zip_seq_fst.
  - rewrite (bool_decide_false (validators = [])) by (intros ->; cbn in Hs; lia).
    rewrite bool_decide_false by (unfold SYNC_COMMITTEE_SIZE; lia).
    rewrite sum_stakes by lia. rewrite N.add_0_l. destruct (N.leb_spec (list_sumN snd validators) u128_max); [|done].
    cbn [mbind outcome_bind].
    destruct (select_loop_spec (E := E) validators (committee_seed state_root epoch) 16 [])
      as (c & Hrun & Hok & Hlen).
    + split_and!; [constructor|constructor|]. intros i p Hi. by rewrite lookup_nil in Hi.
    + by rewrite left_after_nil, stake_sum_all.
    + rewrite left_after_nil in *. rewrite stake_sum_all in Hrun. by exists c.
Qed.

(** ** Attestations *)

Definition attestation_wf (a : LightClientAttestation) : Prop :=
  lc_epoch a <= u64_max /\ len (lc_header_root a) = 32 /\
  Forall (fun s => s.1 < 16 /\ s.2 <> []) (lc_sigs a).

Lemma attestation_entry_Ok e idx sig : decode_sig_entry e = Ok (idx, sig) ->
  idx < 16 /\ sig <> [] /\ e = Value.Array [Value_uint idx; Value.Bytes sig].
Proof.
  unfold decode_sig_entry. intros He. destruct e as [| | | | | | |[|iv [|sv []]]|]; try discriminate He.
  apply bind_Ok in He as (u & Hu & He). run_inv.
  destruct iv as [z| | | | | | | |]; try discriminate Hu. run_inv.
  apply try_from_Z_Some in Hu as (? & -> & ?).
  match goal with Hb : expect_bytes _ _ = Ok _ |- _ => apply expect_bytes_Ok in Hb as -> end.
  injection He as <- <-. split_and!; [done|done|]. unfold Value_uint. by rewrite Z2N.id.
Qed.

Lemma decode_sig_entry_encoded idx sig : idx < 16 -> sig <> [] ->
  decode_sig_entry (Value.Array [Value_uint idx; Value.Bytes sig]) = Ok (idx, sig).
Proof.
  intros Hi Hs. unfold decode_sig_entry. cbn [Value_uint]. rewrite try_from_Z_of_N by lia.
  cbn [ok_or mbind outcome_bind]. rewrite (proj2 (N.leb_le _ _)) by lia.
  cbn [ensure mbind outcome_bind]. rewrite (proj2 (N.ltb_lt _ _)) by (unfold SYNC_COMMITTEE_SIZE; lia).
  cbn. by rewrite bool_decide_false.
Qed.

Definition fields_wf (f : AttestationFields) : Prop :=
  (forall e, f_epoch f = Some e -> e <= u64_max) /\
  (forall r, f_header_root f = Some r -> len r = 32) /\
  (forall s, f_sigs f = Some s -> Forall (fun s => s.1 < 16 /\ s.2 <> []) s).

Lemma attestation_field_wf f key v f' :
  fields_wf f -> attestation_field f key v = Ok f' -> fields_wf f'.
Proof.
  intros (He & Hr & Hs) Hf. unfold attestation_field in Hf.
  apply bind_Ok in Hf as (k & _ & Hf).
  destruct k as [|p]; [discriminate Hf|]. destruct p as [[p|p|]|[p|[p|p|]|]|]; try discriminate Hf;
    apply bind_Ok in Hf as (x & Hx & Hf); try apply bind_Ok in Hf as (d & Hd & Hf);
    injection Hf as <-; unfold fields_wf; cbn; split_and!; try done.
  - intros s [= <-].
    apply (collect_at_Forall2 _ (fun _ y => y.1 < 16 /\ y.2 <> [])) in Hd.
    + eapply Forall2_Forall_r; [done|]. by apply Forall_true.
    + intros _ e [idx sig] _ Hy. apply attestation_entry_Ok in Hy as (? & ? & _). done.
  - intros r [= <-]. by apply expect_bytes_n_Ok in Hx as [? _].
  - intros e [= <-]. destruct v; try discriminate Hx. run_inv.
    by apply try_from_Z_Some in Hx as (? & -> & ?).
Qed.

Lemma attestation_field_no_panic f key v : attestation_field f key v <> Panic.
Proof.
  assert (Hs : forall e, decode_sig_entry e <> Panic).
  { intros e. unfold decode_sig_entry, expect_bytes. no_panic. }
  unfold attestation_field, expect_bytes_n, expect_bytes, expect_array. no_panic.
  all: try (by apply collect_at_no_panic).
Qed.

(** The handler on the fields of an encoded attestation. *)
Lemma field_epoch f e : e <= u64_max ->
  attestation_field f (Z.of_N 1) (Value_uint e) = Ok (f <| f_epoch := Some e |>).
Proof. intros He. cbn. by rewrite try_from_Z_of_N. Qed.

Lemma field_root f r : len r = 32 ->
  attestation_field f (Z.of_N 2) (Value.Bytes r) = Ok (f <| f_header_root := Some r |>).
Proof. intros Hr. cbn. by rewrite Hr. Qed.

Lemma field_sigs f (sigs : list (N * bytes)) : Forall (fun s => s.1 < 16 /\ s.2 <> []) sigs ->
  attestation_field f (Z.of_N 3) (Value.Array ((fun '(idx, sig) =>
    Value.Array [Value_uint idx; Value.Bytes sig]) <$> sigs)) = Ok (f <| f_sigs := Some sigs |>).
Proof.
  intros Hs. unfold attestation_field. change (try_from_Z u64_max (Z.of_N 3)) with (Some 3).
  cbn [ok_or mbind outcome_bind expect_array]. rewrite collect_at_fmap; [done|].
  intros j [idx sig] Hin. rewrite Forall_forall in Hs. specialize (Hs _ Hin).
  apply decode_sig_entry_encoded; apply Hs.
Qed.

Section attestation_claims.
Context `{Ciborium}.

(** Attestations from the gossip topic are typed: whatever the bytes, the decoder returns
    without a panic; what it accepts has an epoch in [u64], a 32-byte header root and only
    non-empty signatures of members 0 to 15; and every such attestation is decoded back from
    its own encoding, given that [ciborium] reads back what it wrote. *)
Lemma attestation_codec_typed :
  (forall b, attestation_decode b <> Panic) /\
  (forall b a, attestation_decode b = Ok a -> attestation_wf a) /\
  (forall a, attestation_wf a -> cbor_roundtrips (attestation_value a) ->
     attestation_decode (attestation_encode a) = Ok a).
Proof.
  split_and!.
  - intros b. unfold attestation_decode, expect_map. no_panic.
    apply (foldM_no_panic _ (fun _ => True)); [done| |done]. intros f [k v] _ _. cbn.
    apply bind_no_panic; [by destruct k|]. intros. apply attestation_field_no_panic.
  - intros b a Ha. unfold attestation_decode in Ha. run_inv.
    match goal with Hd : decode_fields _ _ _ _ = Ok _ |- _ =>
      apply (decode_fields_invariant _ _ fields_wf) in Hd as (He & Hr & Hs);
        [|intros ????; apply attestation_field_wf|done] end.
    unfold attestation_wf. cbn. auto.
  - intros [epoch root sigs agg] (He & Hr & Hs) Hrt. unfold attestation_decode, attestation_encode.
    rewrite Hrt. cbn in He, Hr, Hs. unfold attestation_value. cbn [ok_or mbind outcome_bind expect_map lc_epoch
      lc_header_root lc_sigs lc_agg_proof].
    rewrite decode_fields_uint, field_epoch by done. cbn [mbind outcome_bind].
    rewrite decode_fields_uint, field_root by done. cbn [mbind outcome_bind].
    rewrite decode_fields_uint, field_sigs by done. cbn [mbind outcome_bind].
    rewrite decode_fields_uint. by destruct agg.
Qed.

Lemma compact_header_value_inj h1 h2 : compact_header_value h1 = compact_header_value h2 -> h1 = h2.
Proof.
  destruct h1, h2. unfold compact_header_value, Value_uint. cbn. intros [=].
  repeat match goal with Hz : Z.of_N _ = Z.of_N _ |- _ => apply N2Z.inj in Hz end. by subst.
Qed.

(** A header root commits to its header and fork: two compact headers, each readable from
    its own encoding, with one root under two fork digests are the same header under the same
    digest, or SHAKE-256 has one value on two different inputs among the four computed. *)
Lemma header_root_binds `{Shake} (h1 h2 : CompactHeader) (d1 d2 : bytes) :
  cbor_roundtrips (compact_header_value h1) -> cbor_roundtrips (compact_header_value h2) ->
  length d1 = 4%nat -> length d2 = 4%nat -> header_root h1 d1 = header_root h2 d2 ->
  (h1 = h2 /\ d1 = d2) \/
  collision_in [tagged_preimage HEADER_ROOT_DOMAIN (compact_preimage h1 d1);
                tagged_preimage HEADER_ROOT_DOMAIN (compact_preimage h2 d2)].
Proof.
  intros Hr1 Hr2 Hd1 Hd2 Heq.
  destruct (shake_inj_or [tagged_preimage HEADER_ROOT_DOMAIN (compact_preimage h1 d1);
    tagged_preimage HEADER_ROOT_DOMAIN (compact_preimage h2 d2)] _ _ ltac:(left) ltac:(right; left) Heq)
    as [Hp|Hc]; [left|by right].
  apply tagged_preimage_inj in Hp. unfold compact_preimage in Hp. apply app_inv_head in Hp.
  apply app_inj_width in Hp as [-> Hw]; [|by rewrite Hd1, Hd2]. split; [|done].
  apply compact_header_value_inj. unfold cbor_roundtrips, compact_cbor_bytes in *. congruence.
Qed.
End attestation_claims.

(** ** Witnesses *)

Lemma committee_is_weighted_sample_witness :
  exists c, @select_committee example_shake unit (replicate 32 x07) 5
      ((fun i => ([byte_of_N (N.of_nat i)], N.of_nat (100 + 10 * i))) <$> seq 0 20) = Ok c /\
    length c = 16%nat /\
    committee_ok ((fun i => ([byte_of_N (N.of_nat i)], N.of_nat (100 + 10 * i))) <$> seq 0 20)
      (@committee_seed example_shake (replicate 32 x07) 5) (H := example_shake) c.
Proof.
  destruct (@committee_is_weighted_sample example_shake unit (replicate 32 x07) 5
    ((fun i => ([byte_of_N (N.of_nat i)], N.of_nat (100 + 10 * i))) <$> seq 0 20))
    as (c & Hrun & Hok & Hlen). exists c. split_and!; [done| |done].
  rewrite Hlen. vm_compute. reflexivity.
Defined.

Definition attestation_ex : LightClientAttestation :=
  mkAttestation 12 (replicate 32 x0a) [(0, [x01]); (15, [x02; x03])] None.

Lemma attestation_codec_typed_witness :
  @attestation_decode (example_cbor (attestation_value attestation_ex))
    (@attestation_encode (example_cbor (attestation_value attestation_ex)) attestation_ex)
    = Ok attestation_ex.
Proof.
  apply (@attestation_codec_typed (example_cbor (attestation_value attestation_ex))); [|reflexivity].
  repeat split; cbn; try lia; try done. repeat constructor; cbn; done.
Defined.

Lemma header_root_binds_witness :
  let h := mkCompactHeader 1 7 (replicate 32 x01) (replicate 32 x02) (replicate 32 x03)
             (replicate 32 x04) 2 in
  let c := example_cbor (compact_header_value h) in
  (h = h /\ [x01; x02; x03; x04] = [x01; x02; x03; x04]) \/
  @collision_in example_shake
    [tagged_preimage HEADER_ROOT_DOMAIN (compact_preimage h [x01; x02; x03; x04]) (H := example_shake);
     tagged_preimage HEADER_ROOT_DOMAIN (compact_preimage h [x01; x02; x03; x04]) (H := example_shake)].
Proof.
  intros h c. by apply (@header_root_binds c example_shake).
Defined.
