(* ===== verification/FileStore.v ===== *)
(** * The block store in files: [pqc-consensus/src/storage.rs].

    A store is a directory: one file per block and per block hash, a tip file and a
    checkpoint.  A write goes to a staging directory and is renamed into place, so that
    a store that was left in the middle of a write is recognised when it is opened.

    The files are the finite map [Fs].  An operation that writes yields the file
    operations it performs, in their order, and its result ([FsM]); a stop of the
    process or a failing system call is a prefix of the operations, the last of which
    may be a write that is cut short ([stops_at]).  Creating the five directories, the
    messages of the errors and the log output are left out.  Also here: the migration
    of such a store to RocksDB, [migrate_store] of [pqcd/src/node.rs]. *)

From S2P Require Import Prelude Crypto Text Types Cbor Payloads Tx FeeMarket Leaves Store StoreInv.
From S2P Require Import ApplyAccounts ApplyValidators Governance Archival ApplyTx Mempool Block Chain.
From S2P Require Import Recovery Commit Records Upgrade Storage.

(** ** Files *)

Module Dir.
Inductive t : Set := Root | Blocks | Hashes | Staging | Checkpoints.

Global Instance eq_dec : EqDecision t.
Proof. solve_decision. Defined.
Global Instance countable : Countable t.
Proof.
  refine (inj_countable'
    (fun d => match d with Root => 0 | Blocks => 1 | Hashes => 2 | Staging => 3 | Checkpoints => 4 end%N)
    (fun n => match n with 0 => Root | 1 => Blocks | 2 => Hashes | 3 => Staging | _ => Checkpoints end%N)
    _).
  by intros [].
Defined.
End Dir.

Abbreviation Path := (Dir.t * bytes)%type.
Abbreviation Fs := (gmap Path bytes).

Definition TIP_FILE : bytes := bstr "tip.cbor".
Definition CHECKPOINT_FILE : bytes := bstr "trusted-checkpoint.cbor".

(** [File::create], the bytes written to it, and [fs::rename]. *)
Inductive FsOp : Type :=
  | Create (path : Path)
  | Write (path : Path) (contents : bytes)
  | Rename (from to : Path).

Definition apply_op (fs : Fs) (op : FsOp) : Fs :=
  match op with
  | Create path => <[path := []]> fs
  | Write path contents => <[path := contents]> fs
  | Rename from to =>
      match fs !! from with
      | Some contents => <[to := contents]> (delete from fs)
      | None => fs
      end
  end.

Definition apply_ops (fs : Fs) (ops : list FsOp) : Fs := foldl apply_op fs ops.

(** The files when a sequence of operations stops before its end, or at it. *)
Inductive stops_at : list FsOp -> Fs -> Fs -> Prop :=
  | stop_here ops fs : stops_at ops fs fs
  | stop_torn path contents n ops fs :
      stops_at (Write path contents :: ops) fs (<[path := take n contents]> fs)
  | stop_later op ops fs fs' :
      stops_at ops (apply_op fs op) fs' -> stops_at (op :: ops) fs fs'.

(** The operations performed, then the result. *)
Definition FsM (A : Type) : Type := list FsOp * outcome StorageError.t A.

Definition lift {A} (o : outcome StorageError.t A) : FsM A := ([], o).
Definition perform (op : FsOp) : FsM unit := ([op], Ok tt).

Global Instance FsM_ret : MRet FsM := fun A x => ([], Ok x).
Global Instance FsM_bind : MBind FsM := fun A B f m =>
  match m.2 with
  | Ok x => (m.1 ++ (f x).1, (f x).2)
  | Err e => (m.1, Err e)
  | Panic => (m.1, Panic)
  end.

(** ** Names *)

(** [n] decimal digits, zero-padded. *)
Fixpoint decimal (n : nat) (x : N) : bytes :=
  match n with
  | O => []
  | S n' => decimal n' (x / 10) ++ [byte_of_N (48 + x mod 10)]
  end.

(** [{height:020}]: a [u64] has at most 20 digits. *)
Definition format_height (height : N) : bytes := decimal 20 height.

Definition block_file_name (height : N) : bytes := (format_height height ++ bstr ".cbor").
Definition hash_index_file_name `{Hex} (block_hash : bytes) : bytes :=
  (hex_encode block_hash ++ bstr ".cbor").

(** The names in a directory, sorted. *)
Definition dir_entries (fs : Fs) (d : Dir.t) : list bytes :=
  merge_sort bytes_le
    (omap (fun p : Path => if decide (p.1 = d) then Some p.2 else None) (map_to_list fs).*1).

(** The first name that is in one of the two and not in the other, extra names first. *)
Definition ensure_inventory_exact (fs : Fs) (d : Dir.t) (expected : gset bytes)
    (error : bytes -> StorageError.t) : outcome StorageError.t unit :=
  let actual := dir_entries fs d in
  match filter (fun n => n ∉ expected) actual with
  | extra :: _ => Err (error extra)
  | [] =>
      match merge_sort bytes_le (elements (filter (fun n => n ∉ actual) expected)) with
      | missing :: _ => Err (error missing)
      | [] => Ok tt
      end
  end.

(** ** Records *)

Record TipRecord := mkTipRecord { tip_height : N; tip_block_hash : bytes }.
Record HashIndexRecord := mkHashIndexRecord { hi_height : N }.

Definition exists_file (fs : Fs) (path : Path) : bool := bool_decide (is_Some (fs !! path)).

Record DiskChainStore := mkDiskChainStore {
  dk_chain : ChainStore;
  dk_commit_policy : option CommitQuorumPolicy;
  dk_genesis_anchor : bytes
}.

Section file_store.
Context `{Ciborium, Shake, Verifier} {hex : Hex}.
Context `{!Serde StoredBlockRecord, !Serde TrustedCheckpointRecord}.
Context `{!Serde TipRecord, !Serde HashIndexRecord}.

Definition read_cbor {R} `{!Serde R} (fs : Fs) (path : Path) : outcome StorageError.t R :=
  contents ← ok_or (fs !! path) StorageError.Io;
  decode_cbor_slice contents.

Definition write_cbor {R} `{!Serde R} (path : Path) (value : R) : FsM unit :=
  perform (Create path) ;;
  contents ← lift (ok_or (to_cbor value) StorageError.Encode);
  perform (Write path contents).

Definition write_raw_bytes (path : Path) (contents : bytes) : FsM unit :=
  perform (Create path) ;; perform (Write path contents).

Definition rename (from to : Path) : FsM unit := perform (Rename from to).

Definition block_path (height : N) : Path := (Dir.Blocks, block_file_name height).
Definition hash_path (hash : bytes) : Path := (Dir.Hashes, hash_index_file_name hash).
Definition tip_path : Path := (Dir.Root, TIP_FILE).
Definition checkpoint_path : Path := (Dir.Checkpoints, CHECKPOINT_FILE).
Definition checkpoint_stage : Path := (Dir.Staging, bstr "trusted-checkpoint.tmp").

(** ** Opening *)

Definition read_snapshot_base_if_present (fs : Fs) : outcome StorageError.t (option (N * bytes)) :=
  if negb (exists_file fs checkpoint_path) then Ok None
  else
    match read_cbor fs checkpoint_path with
    | Err _ => Ok None
    | Panic => Panic
    | Ok record =>
        check_state_format_version (tcr_version record) ;;
        let m := tcr_metadata record in
        if tcm_height m =? 0 then Ok None else Ok (Some (tcm_height m, tcm_tip_hash m))
    end.

(** The checkpoint bounds what is loaded if the block above it names its hash. *)
Definition read_checkpoint_window (fs : Fs) : outcome StorageError.t (option (N * bytes)) :=
  window ← read_snapshot_base_if_present fs;
  match window with
  | None => Ok None
  | Some (ckpt_h, ckpt_tip) =>
      next ← add_checked u64_max ckpt_h 1;
      if exists_file fs (block_path next) then
        match read_cbor fs (block_path next) with
        | Ok r => Ok (if bool_decide (bhr_prev_hash (sbr_header r) = ckpt_tip) then window else None)
        | Err _ => Ok None
        | Panic => Panic
        end
      else Ok None
  end.

(** The chain, and the names of the files of the blocks and of the hashes. *)
Definition LoadState : Type := ChainStore * gset bytes * gset bytes.

Definition load_file (fs : Fs) (policy : option CommitQuorumPolicy) (memory_load_from : N)
    (acc : LoadState) (height : N) : outcome StorageError.t LoadState :=
  let '(chain, expected_block_files, expected_hash_files) := acc in
  let block_file := block_file_name height in
  ensure (exists_file fs (Dir.Blocks, block_file)) (StorageError.MissingBlockFile height) ;;
  record ← read_cbor fs (Dir.Blocks, block_file);
  let block_hash := md_block_hash (sbr_metadata record) in
  let hash_name := hash_index_file_name block_hash in
  ensure (exists_file fs (Dir.Hashes, hash_name)) (StorageError.MissingHashIndex block_hash) ;;
  hash_index ← read_cbor fs (Dir.Hashes, hash_name);
  ensure (hi_height hash_index =? height)
    (StorageError.HashIndexMismatch block_hash height (hi_height hash_index)) ;;
  chain ← (if memory_load_from <=? height then
             stored ← record_into_stored_block record height;
             check_commit (sb_block stored) policy ;;
             '(chain, _) ← map_err StorageError.Chain (append_stored_block chain stored);
             Ok chain
           else Ok chain);
  Ok (chain, {[block_file]} ∪ expected_block_files, {[hash_name]} ∪ expected_hash_files).

Definition open_internal (fs : Fs) (anchor_prev_hash : bytes) (policy : option CommitQuorumPolicy)
    : outcome StorageError.t DiskChainStore :=
  ensure (bool_decide (dir_entries fs Dir.Staging = [])) StorageError.IncompleteWriteDetected ;;
  snapshot_base ← (if negb (exists_file fs (block_path 1)) then read_snapshot_base_if_present fs
                   else Ok None);
  start_height ← next_height snapshot_base 1;
  let '(base_height, chain_anchor) := default (0, anchor_prev_hash) snapshot_base in
  checkpoint_window ← (if bool_decide (snapshot_base = None) then read_checkpoint_window fs
                       else Ok None);
  let '(base_height, chain_anchor) := default (base_height, chain_anchor) checkpoint_window in
  memory_load_from ← next_height checkpoint_window start_height;
  let chain := ChainStore_new_with_base chain_anchor base_height in
  if negb (exists_file fs tip_path) then
    ensure (bool_decide (dir_entries fs Dir.Blocks = [])
            && bool_decide (dir_entries fs Dir.Hashes = []))
      StorageError.TipMissingWithExistingData ;;
    Ok (mkDiskChainStore chain policy anchor_prev_hash)
  else
    tip ← read_cbor fs tip_path;
    '(chain, expected_block_files, expected_hash_files) ←
      foldM (load_file fs policy memory_load_from) (chain, ∅, ∅)
        (heights start_height (tip_height tip));
    ensure_inventory_exact fs Dir.Blocks expected_block_files StorageError.UnexpectedBlockFile ;;
    ensure_inventory_exact fs Dir.Hashes expected_hash_files StorageError.UnexpectedHashIndex ;;
    ensure (chain_height chain =? tip_height tip)
      (StorageError.TipHeightMismatch (tip_height tip) (chain_height chain)) ;;
    let actual_tip := expected_prev_hash chain in
    ensure (bool_decide (actual_tip = tip_block_hash tip))
      (StorageError.TipHashMismatch (tip_block_hash tip) actual_tip) ;;
    Ok (mkDiskChainStore chain policy anchor_prev_hash).

(** ** Appending *)

Definition persist_stored_block (stored : StoredBlock) : FsM unit :=
  let height := md_height (sb_metadata stored) in
  let hash := md_block_hash (sb_metadata stored) in
  let block_stage := (Dir.Staging, format_height height ++ bstr ".block.tmp") in
  let hash_stage := (Dir.Staging, hex_encode hash ++ bstr ".hash.tmp") in
  let tip_stage := (Dir.Staging, bstr "tip.tmp") in
  record ← lift (stored_block_into_record stored);
  write_cbor block_stage record ;;
  write_cbor hash_stage (mkHashIndexRecord height) ;;
  write_cbor tip_stage (mkTipRecord height hash) ;;
  rename block_stage (block_path height) ;;
  rename hash_stage (hash_path hash) ;;
  rename tip_stage tip_path.

Definition validate_commit_proof (st : DiskChainStore) (b : Block) : outcome StorageError.t unit :=
  check_commit b (dk_commit_policy st).

Definition with_chain (st : DiskChainStore) (c : ChainStore) : DiskChainStore :=
  mkDiskChainStore c (dk_commit_policy st) (dk_genesis_anchor st).

Definition disk_append_block_inner (st : DiskChainStore) (execution : BlockExecutionResult)
    : FsM (DiskChainStore * BlockMetadata) :=
  '(trial, metadata) ← lift (map_err StorageError.Chain (append_block (dk_chain st) execution));
  stored ← lift (match chain_tip trial with Some tip => Ok tip | None => Panic end);
  persist_stored_block stored ;;
  mret (with_chain st trial, metadata).

Definition disk_append_block (st : DiskChainStore) (execution : BlockExecutionResult)
    : FsM (DiskChainStore * BlockMetadata) :=
  lift (validate_commit_proof st (exe_block execution)) ;;
  disk_append_block_inner st execution.

Definition disk_append_block_trusted (st : DiskChainStore) (execution : BlockExecutionResult)
    : FsM (DiskChainStore * BlockMetadata) :=
  disk_append_block_inner st execution.

Definition disk_append_stored_block (st : DiskChainStore) (stored : StoredBlock)
    : FsM (DiskChainStore * BlockMetadata) :=
  lift (validate_commit_proof st (sb_block stored)) ;;
  '(trial, metadata) ← lift (map_err StorageError.Chain (append_stored_block (dk_chain st) stored));
  persist_stored_block stored ;;
  mret (with_chain st trial, metadata).

(** ** Reading *)

Definition read_stored_block_from_disk (fs : Fs) (height : N)
    : outcome StorageError.t (option StoredBlock) :=
  if negb (exists_file fs (block_path height)) then Ok None
  else
    record ← read_cbor fs (block_path height);
    stored ← record_into_stored_block record height;
    Ok (Some stored).

Definition disk_read_stored_block_at_height (fs : Fs) (st : DiskChainStore) (height : N)
    : outcome StorageError.t (option StoredBlock) :=
  match get_stored_block_by_height (dk_chain st) height with
  | Some stored => Ok (Some stored)
  | None => read_stored_block_from_disk fs height
  end.

Definition disk_export_block_bytes (fs : Fs) (st : DiskChainStore) (height : N)
    : outcome StorageError.t (option bytes) :=
  stored ← disk_read_stored_block_at_height fs st height;
  match stored with
  | Some s => b ← encode_stored_block_bytes s; Ok (Some b)
  | None => Ok None
  end.

(** The height of the header labels the errors. *)
Definition disk_decode_block_bytes (b : bytes) : outcome StorageError.t StoredBlock :=
  record ← decode_cbor_slice b;
  record_into_stored_block record (bhr_height (sbr_header record)).

(** ** Checkpoints and snapshots *)

Definition disk_write_trusted_checkpoint (st : DiskChainStore) (state : StateStore)
    : FsM TrustedCheckpointMetadata :=
  metadata ← lift (checkpoint_metadata (dk_chain st) state);
  write_cbor checkpoint_stage
    (mkTrustedCheckpointRecord STATE_FORMAT_VERSION metadata (state_into_record state)) ;;
  rename checkpoint_stage checkpoint_path ;;
  mret metadata.

Definition disk_export_checkpoint_bytes (fs : Fs) : option bytes := fs !! checkpoint_path.
Definition disk_has_checkpoint (fs : Fs) : bool := exists_file fs checkpoint_path.

Definition disk_import_external_snapshot (b chain_id : bytes) : FsM TrustedCheckpointMetadata :=
  '(metadata, _) ← lift (validate_snapshot b chain_id);
  write_raw_bytes checkpoint_stage b ;;
  rename checkpoint_stage checkpoint_path ;;
  mret metadata.

(** Step 2: one tail block. *)
Definition disk_check_tail_block (st : DiskChainStore) (acc : ChainStore * list StoredBlock) (b : bytes)
    : outcome StorageError.t (ChainStore * list StoredBlock) :=
  let '(tail_chain, tail_stored) := acc in
  stored ← disk_decode_block_bytes b;
  validate_commit_proof st (sb_block stored) ;;
  '(trial, _) ← map_err StorageError.Chain (append_stored_block tail_chain stored);
  Ok (trial, (tail_stored ++ [stored])).

(** Step 4: the tail, block by block. *)
Fixpoint persist_all (blocks : list StoredBlock) : FsM unit :=
  match blocks with
  | [] => mret tt
  | stored :: rest => persist_stored_block stored ;; persist_all rest
  end.

Definition disk_bootstrap_from_external_snapshot (st : DiskChainStore) (snapshot_bytes : bytes)
    (tail_block_bytes : list bytes) (chain_id : bytes)
    : FsM (DiskChainStore * TrustedCheckpointMetadata) :=
  lift (ensure (chain_height (dk_chain st) =? 0)
    (StorageError.InvalidSnapshot "cold bootstrap requires an empty disk store (height must be 0)")) ;;
  '(metadata, _) ← lift (validate_snapshot snapshot_bytes chain_id);
  let base := ChainStore_new_with_base (tcm_tip_hash metadata) (tcm_height metadata) in
  '(tail_chain, tail_stored) ← lift (foldM (disk_check_tail_block st) (base, []) tail_block_bytes);
  write_raw_bytes checkpoint_stage snapshot_bytes ;;
  rename checkpoint_stage checkpoint_path ;;
  persist_all tail_stored ;;
  mret (with_chain st tail_chain, metadata).

(** ** Recovery *)

Definition disk_recover_tip (fs : Fs) (st : DiskChainStore) (genesis_state : StateStore)
    (fee_params : FeeParams) (fee_dist : FeeDistributionParams) (validator_pool : list Address)
    : outcome StorageError.t ReplayResult :=
  let chain_start := from_option (fun b => md_height (sb_metadata b)) 1
                       (head (blocks_in_order (dk_chain st))) in
  if 1 <? chain_start then
    if negb (exists_file fs tip_path) then
      Err (StorageError.Replay (ReplayError.HeightGap 1 chain_start))
    else
      tip ← map_err (fun _ => StorageError.Decode) (read_cbor fs tip_path);
      blocks ← collect (fun h =>
          found ← read_stored_block_from_disk fs h;
          ok_or found (StorageError.MissingBlockFile h)) (heights 1 (tip_height tip));
      map_err StorageError.Replay
        (replay_blocks_from_state genesis_state (dk_genesis_anchor st) blocks fee_params fee_dist
           validator_pool)
  else
    map_err StorageError.Replay
      (recover_tip (dk_chain st) genesis_state fee_params fee_dist validator_pool).

Definition load_valid_checkpoint (fs : Fs) (st : DiskChainStore) (chain_id : bytes)
    : outcome StorageError.t (option (TrustedCheckpointMetadata * StateStore)) :=
  if negb (exists_file fs checkpoint_path) then Ok None
  else
    match read_cbor fs checkpoint_path with
    | Err _ => Ok None
    | Panic => Panic
    | Ok record =>
        check_state_format_version (tcr_version record) ;;
        let metadata := tcr_metadata record in
        match record_into_state (tcr_state record) chain_id with
        | Err _ => Ok None
        | Panic => Panic
        | Ok state =>
            let known :=
              if tcm_height metadata =? 0 then
                bool_decide (tcm_tip_hash metadata = ch_anchor_prev_hash (dk_chain st))
              else
                match get_metadata_by_height (dk_chain st) (tcm_height metadata) with
                | Some canonical =>
                    bool_decide (md_block_hash canonical = tcm_tip_hash metadata)
                    && bool_decide (md_state_root canonical = tcm_state_root metadata)
                | None => true
                end in
            Ok (if (st_block_height state =? tcm_height metadata)
                   && bool_decide (state_root state = tcm_state_root metadata) && known
                then Some (metadata, state) else None)
        end
    end.

Definition disk_recover_tip_with_checkpoint (fs : Fs) (st : DiskChainStore)
    (genesis_state : StateStore) (fee_params : FeeParams) (fee_dist : FeeDistributionParams)
    (validator_pool : list Address) : outcome StorageError.t CheckpointRecoveryResult :=
  found ← load_valid_checkpoint fs st (st_chain_id genesis_state);
  match found with
  | Some (metadata, checkpoint_state) =>
      let tail := filter (fun s => tcm_height metadata < md_height (sb_metadata s))
                    (blocks_in_order (dk_chain st)) in
      replay ← map_err StorageError.Replay
        (replay_blocks_from_state checkpoint_state (tcm_tip_hash metadata) tail fee_params fee_dist
           validator_pool);
      Ok (mkCheckpointRecoveryResult replay RecoverySource.TrustedCheckpoint (Some metadata))
  | None =>
      replay ← disk_recover_tip fs st genesis_state fee_params fee_dist validator_pool;
      Ok (mkCheckpointRecoveryResult replay RecoverySource.FullReplay None)
  end.

(** ** Migration to RocksDB *)

Section migration.
Context `{RocksDb}.

Definition migrate_block (fs : Fs) (legacy : DiskChainStore) (rdb : RocksDbChainStore) (h : N)
    : outcome StorageError.t RocksDbChainStore :=
  found ← disk_read_stored_block_at_height fs legacy h;
  stored ← ok_or found (StorageError.MissingBlockFile h);
  '(rdb, _) ← rocks_append_stored_block rdb stored None;
  Ok rdb.

(** From the data directory and the database of a loaded configuration on. *)
Definition migrate_store (fs : Fs) (db : DB) (anchor_prev_hash : bytes)
    (policy : option CommitQuorumPolicy) : outcome StorageError.t RocksDbChainStore :=
  legacy ← open_internal fs anchor_prev_hash policy;
  let tip_height := chain_height (dk_chain legacy) in
  rdb ← rocks_open_internal db anchor_prev_hash;
  rdb ← foldM (migrate_block fs legacy) rdb (heights 1 tip_height);
  match disk_export_checkpoint_bytes fs with
  | Some checkpoint_bytes => import_checkpoint_for_migration rdb checkpoint_bytes
  | None => Ok rdb
  end.
End migration.
End file_store.
