(* ===== verification/FileStoreRep.v ===== *)
(** * The files of a block store and the chain they hold.

    [file_rep] relates the directories of a [DiskChainStore] to one linked list of
    blocks.  Opening a directory that satisfies it loads the list, the writes of an
    append extend it, and a write that is cut short is recognised. *)

From S2P Require Import Prelude Crypto Text Types Cbor Payloads Tx FeeMarket Leaves Store StoreInv.
From S2P Require Import ApplyAccounts ApplyValidators Governance Archival ApplyTx Mempool Block Chain.
From S2P Require Import ChainInv Recovery RecoveryProps Commit Records RecordsProps Upgrade Storage.
From S2P Require Import StorageRep StorageProps FileStore.

(** ** Names *)

Lemma byte_of_N_inj a b : a < 256 -> b < 256 -> byte_of_N a = byte_of_N b -> a = b.
Proof.
  intros Ha Hb He%(f_equal Byte.to_N). rewrite !to_N_byte_of_N, !N.mod_small in He; lia.
Qed.

Lemma length_decimal n x : length (decimal n x) = n.
Proof.
  revert x. induction n as [|n IH]; intros x; [done|]. cbn. rewrite length_app, IH. cbn. lia.
Qed.

Lemma decimal_inj n x y :
  x < 10 ^ N.of_nat n -> y < 10 ^ N.of_nat n -> decimal n x = decimal n y -> x = y.
Proof.
  revert x y. induction n as [|n IH]; intros x y Hx Hy He.
  { rewrite N.pow_0_r in *. lia. }
  rewrite Nat2N.inj_succ, N.pow_succ_r' in *. cbn [decimal] in He.
  apply app_inj_tail in He as [Hd Hm]. apply IH in Hd; [|apply N.Div0.div_lt_upper_bound; lia..].
  pose proof (N.mod_lt x 10 ltac:(done)). pose proof (N.mod_lt y 10 ltac:(done)).
  apply byte_of_N_inj in Hm; [|lia..].
  rewrite (N.div_mod x 10), (N.div_mod y 10) by done. lia.
Qed.

Lemma block_file_name_inj h h' :
  h <= u64_max -> h' <= u64_max -> block_file_name h = block_file_name h' -> h = h'.
Proof.
  intros Hh Hh' He. apply app_inv_tail in He. revert He. unfold format_height.
  apply decimal_inj; change (10 ^ N.of_nat 20) with 100000000000000000000; lia.
Qed.

Lemma hash_index_file_name_inj `{Hex} a b : hash_index_file_name a = hash_index_file_name b -> a = b.
Proof. intros He%app_inv_tail. by apply hex_encode_inj. Qed.

(** ** Directories *)

Lemma elem_of_dir_entries fs d n : n ∈ dir_entries fs d <-> is_Some (fs !! (d, n)).
Proof.
  unfold dir_entries. rewrite merge_sort_Permutation, list_elem_of_omap. split.
  - intros ([d' n'] & Hin & Hs). cbn in Hs. case_decide as Hd; [|done]. injection Hs as <-. subst d'.
    apply list_elem_of_fmap in Hin as ([p c] & Hp & Hin). cbn in Hp. subst p.
    apply elem_of_map_to_list in Hin. by eexists.
  - intros [c Hc]. exists (d, n). split; [|by rewrite decide_True].
    apply list_elem_of_fmap. exists ((d, n), c). split; [done|]. by apply elem_of_map_to_list.
Qed.

Lemma dir_entries_nil fs d : dir_entries fs d = [] <-> forall n, fs !! (d, n) = None.
Proof.
  split.
  - intros He n. apply eq_None_not_Some. rewrite <-elem_of_dir_entries, He. apply not_elem_of_nil.
  - intros Hn. apply elem_of_nil_inv. intros n [c Hc]%elem_of_dir_entries. by rewrite Hn in Hc.
Qed.

Lemma inventory_exact fs d expected error :
  (forall n, is_Some (fs !! (d, n)) <-> n ∈ expected) ->
  ensure_inventory_exact fs d expected error = Ok tt.
Proof.
  intros He. unfold ensure_inventory_exact.
  assert (filter (fun n => n ∉ expected) (dir_entries fs d) = []) as ->.
  { apply elem_of_nil_inv. intros n [Hn Hin%elem_of_dir_entries]%list_elem_of_filter. by apply Hn, He. }
  assert (filter (fun n => n ∉ dir_entries fs d) expected = ∅) as ->; [|by rewrite elements_empty].
  apply elem_of_equiv_empty_L. intros n [Hn Hin]%elem_of_filter.
  by apply Hn, elem_of_dir_entries, He.
Qed.

Lemma inventory_extra fs d expected error n :
  is_Some (fs !! (d, n)) -> n ∉ expected -> exists extra,
  ensure_inventory_exact fs d expected error = Err (error extra) /\
  is_Some (fs !! (d, extra)) /\ extra ∉ expected.
Proof.
  intros Hn Hne. unfold ensure_inventory_exact.
  destruct (filter _ (dir_entries fs d)) as [|extra rest] eqn:Hf.
  - assert (n ∈ filter (fun n => n ∉ expected) (dir_entries fs d)) as Hin.
    { apply list_elem_of_filter. by rewrite elem_of_dir_entries. }
    rewrite Hf in Hin. by apply not_elem_of_nil in Hin.
  - exists extra. split; [done|]. rewrite <-elem_of_dir_entries.
    assert (extra ∈ filter (fun n => n ∉ expected) (dir_entries fs d)) as Hin by (rewrite Hf; by left).
    apply list_elem_of_filter in Hin as [Hx Hin]. done.
Qed.

Lemma exists_file_Some fs p c : fs !! p = Some c -> exists_file fs p = true.
Proof. intros Hp. unfold exists_file. rewrite Hp. by rewrite bool_decide_true by by eexists. Qed.

Lemma exists_file_None fs p : fs !! p = None -> exists_file fs p = false.
Proof. intros Hp. unfold exists_file. rewrite Hp. by rewrite bool_decide_false by by intros []. Qed.

(** ** Operations that are cut short *)

Lemma apply_ops_app fs ops1 ops2 : apply_ops fs (ops1 ++ ops2) = apply_ops (apply_ops fs ops1) ops2.
Proof. apply foldl_app. Qed.

Lemma stops_app ops1 ops2 fs fs' :
  stops_at (ops1 ++ ops2) fs fs' -> stops_at ops1 fs fs' \/ stops_at ops2 (apply_ops fs ops1) fs'.
Proof.
  revert fs. induction ops1 as [|op ops1 IH]; intros fs Hs; [by right|]. cbn in Hs.
  inversion Hs as [| |? ? ? ? Hl]; subst; [left; constructor..|].
  destruct (IH _ Hl); [left; by constructor|by right].
Qed.

Lemma stops_one op fs fs' :
  stops_at [op] fs fs' -> fs' = fs \/ fs' = apply_op fs op \/
    exists path contents n, op = Write path contents /\ fs' = <[path := take n contents]> fs.
Proof.
  intros Hs. inversion Hs as [|path contents n ? ?|? ? ? ? Hl]; subst.
  - by left.
  - right. right. by exists path, contents, n.
  - right. left. by inversion Hl.
Qed.

(** A file that no operation renames stays. *)
Definition keeps (p : Path) (op : FsOp) : Prop :=
  match op with Rename from _ => from <> p | _ => True end.

Lemma apply_keeps p op fs : keeps p op -> is_Some (fs !! p) -> is_Some (apply_op fs op !! p).
Proof.
  intros Hk Hp. destruct op as [path|path contents|from to]; cbn [apply_op keeps] in *.
  - destruct (decide (path = p)) as [->|]; [by rewrite lookup_insert_eq|by rewrite lookup_insert_ne].
  - destruct (decide (path = p)) as [->|]; [by rewrite lookup_insert_eq|by rewrite lookup_insert_ne].
  - destruct (fs !! from); [|done].
    destruct (decide (to = p)) as [->|]; [by rewrite lookup_insert_eq|].
    by rewrite lookup_insert_ne, lookup_delete_ne.
Qed.

Lemma stops_keep p ops fs fs' :
  Forall (keeps p) ops -> is_Some (fs !! p) -> stops_at ops fs fs' -> is_Some (fs' !! p).
Proof.
  intros Hk Hp Hs. induction Hs as [|path contents n ops fs|op ops fs fs' Hs IH]; [done| |].
  - destruct (decide (path = p)) as [->|]; [by rewrite lookup_insert_eq|by rewrite lookup_insert_ne].
  - apply Forall_cons in Hk as [Hk1 Hk]. by apply IH; [|apply apply_keeps].
Qed.

Lemma apply_ops_keep p ops fs :
  Forall (keeps p) ops -> is_Some (fs !! p) -> is_Some (apply_ops fs ops !! p).
Proof.
  intros Hk. revert fs. induction Hk as [|op ops Hop _ IH]; intros fs Hp; [done|].
  by apply IH, apply_keeps.
Qed.

Definition staged (fs : Fs) : Prop := exists n, is_Some (fs !! (Dir.Staging, n)).
Definition unstaged (fs : Fs) : Prop := forall n, fs !! (Dir.Staging, n) = None.

(** Operations that leave a staged file at every point but their ends. *)
Definition guarded (ops : list FsOp) : Prop :=
  forall fs fs', stops_at ops fs fs' -> fs' = fs \/ fs' = apply_ops fs ops \/ staged fs'.

Lemma stops_first op ops fs fs' :
  stops_at (op :: ops) fs fs' -> stops_at [op] fs fs' \/ stops_at ops (apply_op fs op) fs'.
Proof. apply (stops_app [op]). Qed.

Lemma create_there p fs : is_Some (apply_op fs (Create p) !! p).
Proof. cbn [apply_op]. by rewrite lookup_insert_eq. Qed.

Lemma write_there p contents fs : is_Some (apply_op fs (Write p contents) !! p).
Proof. cbn [apply_op]. by rewrite lookup_insert_eq. Qed.

(** One staged file, written and renamed. *)
Lemma guarded_one n contents to :
  guarded [Create (Dir.Staging, n); Write (Dir.Staging, n) contents; Rename (Dir.Staging, n) to].
Proof.
  intros fs fs' Hs.
  destruct (stops_first _ _ _ _ Hs) as [[->|[->|(? & ? & ? & ? & _)]]%stops_one|Hs']; [by left| |done|].
  { right. right. exists n. apply create_there. }
  destruct (stops_app [Write _ _] _ _ _ Hs') as [Hw|[->|[->|(? & ? & ? & ? & _)]]%stops_one];
    [| |by right; left|done]; right; right; exists n.
  - eapply stops_keep; [|apply create_there|exact Hw]. by repeat constructor.
  - apply write_there.
Qed.

(** Three staged files, renamed in the order they were written. *)
Lemma guarded_three n1 n2 n3 b1 b2 b3 to1 to2 to3 :
  n1 <> n3 -> n2 <> n3 ->
  guarded [Create (Dir.Staging, n1); Write (Dir.Staging, n1) b1;
           Create (Dir.Staging, n2); Write (Dir.Staging, n2) b2;
           Create (Dir.Staging, n3); Write (Dir.Staging, n3) b3;
           Rename (Dir.Staging, n1) to1; Rename (Dir.Staging, n2) to2; Rename (Dir.Staging, n3) to3].
Proof.
  intros H1 H2 fs fs' Hs.
  destruct (stops_first _ _ _ _ Hs) as [[->|[->|(? & ? & ? & ? & _)]]%stops_one|Hs']; [by left| |done|].
  { right. right. exists n1. apply create_there. }
  destruct (stops_app [Write _ _; Create _; Write _ _; Create _; Write _ _] _ _ _ Hs') as [Hw|Hr].
  { right. right. exists n1. eapply stops_keep; [|apply create_there|exact Hw]. by repeat constructor. }
  destruct (stops_app [Rename _ _; Rename _ _] _ _ _ Hr) as [Hw|[->|[->|(? & ? & ? & ? & _)]]%stops_one];
    [| |by right; left|done]; right; right; exists n3.
  - eapply stops_keep; [| |exact Hw]; [repeat constructor; cbn; congruence|]. apply write_there.
  - apply apply_ops_keep; [repeat constructor; cbn; congruence|]. apply write_there.
Qed.

(** Operations that only create and write staged files. *)
Definition stages (op : FsOp) : Prop :=
  match op with Create p | Write p _ => p.1 = Dir.Staging | Rename _ _ => False end.

Lemma failed_stops ops fs fs' : Forall stages ops -> stops_at ops fs fs' -> fs' = fs \/ staged fs'.
Proof.
  intros Hf Hs. destruct ops as [|op ops]; [left; by inversion Hs|].
  assert (forall p, Forall (keeps p) ops) as Hk.
  { intros p. apply Forall_cons in Hf as [_ Hf]. eapply Forall_impl; [exact Hf|]. by intros []. }
  apply Forall_cons in Hf as [Hop _].
  destruct (stops_first _ _ _ _ Hs) as [[->|[->|(p & c & n & -> & ->)]]%stops_one|Hs']; [by left| | |]; right.
  - destruct op as [[d n]|[d n] c|]; cbn in Hop; subst; [exists n; apply create_there|exists n; apply write_there|done].
  - destruct p as [d m]. cbn in Hop. subst. exists m. by rewrite lookup_insert_eq.
  - destruct op as [[d n]|[d n] c|]; cbn in Hop; subst; [| |done]; exists n; eapply stops_keep;
      [apply Hk| |exact Hs'|apply Hk| |exact Hs']; [apply create_there|apply write_there].
Qed.

Lemma guarded_failed ops : Forall stages ops -> guarded ops.
Proof. intros Hf fs fs' Hs. destruct (failed_stops _ _ _ Hf Hs); auto. Qed.

(** ** The blocks in the files *)

Section files.
Context `{Ciborium, Shake, Verifier} {hex : Hex}.
Context `{!Serde StoredBlockRecord, !Serde TrustedCheckpointRecord}.
Context `{!Serde TipRecord, !Serde HashIndexRecord}.
Context `{!SerdeLaws StoredBlockRecord, !SerdeLaws TrustedCheckpointRecord}.
Context `{!SerdeLaws TipRecord, !SerdeLaws HashIndexRecord}.
Implicit Types (fs : Fs) (st : DiskChainStore) (l : list StoredBlock) (sb : StoredBlock).

Lemma open_staged fs a policy :
  staged fs -> open_internal fs a policy = Err StorageError.IncompleteWriteDetected.
Proof.
  intros [n Hn]. unfold open_internal.
  rewrite (bool_decide_false (dir_entries fs Dir.Staging = [])); [done|].
  intros He. rewrite dir_entries_nil in He. rewrite He in Hn. by destruct Hn.
Qed.

Lemma encode_block_record sb b :
  stored_ok sb -> readable sb -> encode_stored_block_bytes sb = Ok b -> exists record,
  of_cbor b = Some record /\ record_into_stored_block record (md_height (sb_metadata sb)) = Ok sb /\
  md_block_hash (sbr_metadata record) = sb_hash sb /\
  bhr_prev_hash (sbr_header record) = bh_prev_hash (sb_header sb).
Proof.
  intros Hok Hr He. destruct (encode_block_Ok _ _ Hok Hr He) as (record & Hrec & Hsb).
  exists record. split; [done|]. split; [done|].
  unfold encode_stored_block_bytes in He. run_inv. rewrite (of_to_cbor _ _ He) in Hrec.
  injection Hrec as <-. destruct sb as [blk m txs]. unfold stored_block_into_record in *. by run_inv.
Qed.

(** The files of the block above height [n]. *)
Definition block_files fs (n : N) sb : Prop := exists b hb,
  fs !! block_path (n + 1) = Some b /\ encode_stored_block_bytes sb = Ok b /\
  fs !! hash_path (sb_hash sb) = Some hb /\ of_cbor hb = Some (mkHashIndexRecord (n + 1)).

Lemma load_file_Ok fs policy from c B H' n sb :
  block_files fs n sb -> stored_ok sb -> readable sb -> md_height (sb_metadata sb) = n + 1 ->
  load_file fs policy from (c, B, H') (n + 1) =
    (c ← (if from <=? n + 1 then
            check_commit (sb_block sb) policy ;;
            '(c, _) ← map_err StorageError.Chain (append_stored_block c sb); Ok c
          else Ok c);
     Ok (c, {[block_file_name (n + 1)]} ∪ B, {[hash_index_file_name (sb_hash sb)]} ∪ H')).
Proof.
  intros (b & hb & Hb & Henc & Hh & Hhb) Hok Hr Hht.
  destruct (encode_block_record _ _ Hok Hr Henc) as (record & Hrec & Hinto & Hhash & _).
  unfold load_file, read_cbor, decode_cbor_slice. fold (block_path (n + 1)).
  rewrite (exists_file_Some _ _ _ Hb), Hb. cbn [ensure ok_or mbind outcome_bind].
  rewrite Hrec. cbn [ensure ok_or mbind outcome_bind]. rewrite Hhash. fold (hash_path (sb_hash sb)).
  rewrite (exists_file_Some _ _ _ Hh), Hh. cbn [ensure ok_or mbind outcome_bind].
  rewrite Hhb. cbn [ensure ok_or mbind outcome_bind hi_height]. rewrite N.eqb_refl.
  cbn [ensure mbind outcome_bind]. by rewrite <-Hht, Hinto.
Qed.

(** The blocks [l] above height [n], each with its files. *)
Definition segment fs (n : N) l : Prop := forall i sb, l !! i = Some sb ->
  block_files fs (n + N.of_nat i) sb /\ stored_ok sb /\ readable sb /\
  md_height (sb_metadata sb) = n + N.of_nat i + 1.

Fixpoint block_names (n : N) l : gset bytes :=
  match l with [] => ∅ | _ :: l => {[block_file_name (n + 1)]} ∪ block_names (n + 1) l end.
Definition hash_names l : gset bytes := list_to_set ((fun sb => hash_index_file_name (sb_hash sb)) <$> l).

Lemma elem_of_block_names n l x :
  x ∈ block_names n l <-> exists i, (i < length l)%nat /\ x = block_file_name (n + N.of_nat i + 1).
Proof.
  revert n. induction l as [|sb l IH]; intros n; cbn [block_names length].
  { split; [set_solver|]. intros (i & Hi & _). lia. }
  rewrite elem_of_union, elem_of_singleton, IH. split.
  - intros [->|(i & Hi & ->)]; [exists 0%nat|exists (S i)]; (split; [lia|f_equal; lia]).
  - intros ([|i] & Hi & ->); [left; f_equal; lia|right]. exists i. split; [lia|f_equal; lia].
Qed.

Lemma elem_of_hash_names l x :
  x ∈ hash_names l <-> exists sb, sb ∈ l /\ x = hash_index_file_name (sb_hash sb).
Proof. unfold hash_names. rewrite elem_of_list_to_set, list_elem_of_fmap. naive_solver. Qed.

Lemma hash_names_cons sb l :
  hash_names (sb :: l) = {[hash_index_file_name (sb_hash sb)]} ∪ hash_names l.
Proof. done. Qed.

Lemma block_names_app n l l' : block_names n (l ++ l') = block_names n l ∪ block_names (n + len l) l'.
Proof.
  revert n. induction l as [|sb l IH]; intros n; cbn [block_names app].
  - unfold len. cbn. rewrite N.add_0_r. set_solver.
  - rewrite IH, len_cons. replace (n + 1 + len l) with (n + (len l + 1)) by lia. set_solver.
Qed.

Lemma hash_names_app l l' : hash_names (l ++ l') = hash_names l ∪ hash_names l'.
Proof. unfold hash_names. by rewrite fmap_app, list_to_set_app_L. Qed.

Lemma segment_cons fs n sb l :
  segment fs n (sb :: l) ->
  (block_files fs n sb /\ stored_ok sb /\ readable sb /\ md_height (sb_metadata sb) = n + 1) /\
  segment fs (n + 1) l.
Proof.
  intros Hs. split.
  - specialize (Hs 0%nat sb eq_refl). by rewrite N.add_0_r in Hs.
  - intros i sb' Hi. specialize (Hs (S i) sb' Hi).
    by replace (n + N.of_nat (S i)) with (n + 1 + N.of_nat i) in Hs by lia.
Qed.

Lemma segment_app fs n l l' : segment fs n (l ++ l') -> segment fs n l /\ segment fs (n + len l) l'.
Proof.
  intros Hs. split; intros i sb Hi.
  - apply Hs. by apply lookup_app_l_Some.
  - specialize (Hs (length l + i)%nat sb). rewrite lookup_app_r, Nat.add_comm, Nat.add_sub in Hs by lia.
    unfold len. replace (n + N.of_nat (length l) + N.of_nat i) with (n + N.of_nat (i + length l)) by lia.
    by apply Hs.
Qed.

Lemma heights_next n k : heights (n + 1) (n + (k + 1)) = (n + 1) :: heights (n + 1 + 1) (n + 1 + k).
Proof. rewrite heights_cons by lia. f_equal. f_equal. lia. Qed.

Lemma heights_split n k m : heights (n + 1) (n + k + m) = heights (n + 1) (n + k) ++ heights (n + k + 1) (n + k + m).
Proof.
  revert n. induction k as [|k IH] using N.peano_ind; intros n.
  { rewrite N.add_0_r. by rewrite (heights_nil (n + 1) n) by lia. }
  replace (n + N.succ k + m) with (n + ((k + m) + 1)) by lia.
  replace (n + N.succ k) with (n + (k + 1)) by lia. rewrite !heights_next. cbn [app]. f_equal.
  replace (n + (k + 1) + 1) with (n + 1 + k + 1) by lia.
  replace (n + (k + m + 1)) with (n + 1 + k + m) by lia. rewrite <-IH. f_equal. lia.
Qed.

(** Below the first height that is retained, a block is only checked. *)
Lemma skip_files fs policy from c n l B H' :
  segment fs n l -> n + len l < from ->
  foldM (load_file fs policy from) (c, B, H') (heights (n + 1) (n + len l)) =
    Ok (c, block_names n l ∪ B, hash_names l ∪ H').
Proof.
  revert n B H'. induction l as [|sb l IH]; intros n B H' Hs Hlt.
  { rewrite heights_nil by (unfold len; cbn; lia). cbn. do 2 f_equal; [f_equal|]; set_solver. }
  apply segment_cons in Hs as [(Hf & Hok & Hr & Hh) Hs]. rewrite len_cons in *. rewrite heights_next.
  cbn [foldM]. rewrite (load_file_Ok _ _ _ _ _ _ _ _ Hf Hok Hr Hh).
  rewrite (proj2 (N.leb_gt from (n + 1))) by lia. cbn [mbind outcome_bind].
  rewrite IH by (done || lia). rewrite hash_names_cons. cbn [block_names].
  do 2 f_equal; [f_equal|]; set_solver.
Qed.

(** From it on, the blocks are appended. *)
Lemma load_files fs policy from c l0 n l B H' :
  segment fs n l -> from <= n + 1 -> chain_rep c l0 -> chain_height c = n ->
  linked (expected_prev_hash c) n l -> NoDup (sb_hash <$> l0 ++ l) -> Forall counted l ->
  Forall (fun sb => check_commit (sb_block sb) policy = Ok tt) l -> n + len l <= u64_max ->
  exists c', foldM (load_file fs policy from) (c, B, H') (heights (n + 1) (n + len l)) =
    Ok (c', block_names n l ∪ B, hash_names l ∪ H') /\
    chain_rep c' (l0 ++ l) /\ ch_anchor_prev_hash c' = ch_anchor_prev_hash c /\
    ch_base_height c' = ch_base_height c.
Proof.
  revert c l0 n B H'. induction l as [|sb l IH]; intros c l0 n B H' Hs Hfrom Hc Hn Hl Hnd Hcnt Hpol Hmax.
  { exists c. rewrite app_nil_r, heights_nil by (unfold len; cbn; lia). split; [|done].
    cbn. do 2 f_equal; [f_equal|]; set_solver. }
  apply segment_cons in Hs as [(Hf & Hok & Hr & Hh) Hs]. destruct Hl as (_ & Hbh & Hp & Hl).
  apply Forall_cons in Hcnt as [Hcsb Hcnt]. apply Forall_cons in Hpol as [Hpsb Hpol].
  rewrite len_cons in *. rewrite heights_next. cbn [foldM].
  rewrite (load_file_Ok _ _ _ _ _ _ _ _ Hf Hok Hr Hh), (proj2 (N.leb_le from (n + 1))), Hpsb by lia.
  assert (ch_by_hash c !! sb_hash sb = None) as Hfresh.
  { rewrite (rep_by_hash_None _ l0) by done. rewrite fmap_app in Hnd.
    apply NoDup_app in Hnd as (_ & Hd & _). intros Hin. apply (Hd _ Hin). by left. }
  rewrite (append_fits _ _ _ Hc Hok Hcsb) by (done || lia || by rewrite Hn). cbn [mbind outcome_bind map_err].
  pose proof (append_fits _ _ _ Hc Hok Hcsb ltac:(by rewrite Hn) ltac:(lia) Hp Hfresh) as Ha.
  destruct (append_rep _ _ _ _ _ Hc Ha) as (_ & _ & Hc').
  assert (chain_height (push_stored_block sb c) = n + 1) as Hn'.
  { rewrite (rep_height _ _ Hc'), <-Hn, (rep_height _ _ Hc), len_app. unfold len. cbn. lia. }
  destruct (IH (push_stored_block sb c) (l0 ++ [sb]) (n + 1)
    ({[block_file_name (n + 1)]} ∪ B) ({[hash_index_file_name (sb_hash sb)]} ∪ H'))
    as (c' & Hfold & Hrep & Han & Hbase); try done; try lia.
  { by rewrite <-app_assoc. }
  exists c'. rewrite <-app_assoc in Hrep. split; [|done]. rewrite Hfold, hash_names_cons.
  cbn [block_names]. do 2 f_equal; [f_equal|]; set_solver.
Qed.

(** ** The representation *)

(** A checkpoint on a complete chain names one of its blocks; that of a chain that
    starts at a snapshot is the snapshot. *)
Definition checkpoint_rep fs (base : N) (anchor : bytes) l : Prop :=
  match fs !! checkpoint_path with
  | None => base = 0
  | Some b => exists record, of_cbor b = Some record /\ tcr_version record = STATE_FORMAT_VERSION /\
      let h := tcm_height (tcr_metadata record) in
      base <= h <= base + len l /\ (base = 0 \/ h = base) /\
      tcm_tip_hash (tcr_metadata record) = last_hash anchor (take (N.to_nat (h - base)) l)
  end.

(** The directory holds the chain [l] above height [base], whose hash is [anchor]. *)
Record file_rep fs (policy : option CommitQuorumPolicy) (genesis : bytes) (base : N) (anchor : bytes) l
    : Prop := {
  fr_unstaged : unstaged fs;
  fr_tip : if decide (l = []) then fs !! tip_path = None
    else exists b, fs !! tip_path = Some b /\ of_cbor b = Some (mkTipRecord (base + len l) (last_hash anchor l));
  fr_segment : segment fs base l;
  fr_block_names : forall n, is_Some (fs !! (Dir.Blocks, n)) -> n ∈ block_names base l;
  fr_hash_names : forall n, is_Some (fs !! (Dir.Hashes, n)) -> n ∈ hash_names l;
  fr_start : base = 0 -> anchor = genesis;
  fr_max : base + len l < u64_max;
  fr_linked : linked anchor base l;
  fr_counted : Forall counted l;
  fr_hashes : NoDup (sb_hash <$> l);
  fr_commits : Forall (fun sb => check_commit (sb_block sb) policy = Ok tt) l;
  fr_checkpoint : checkpoint_rep fs base anchor l
}.

(** How many blocks of a complete chain the checkpoint keeps out of memory. *)
Definition below_window fs (base : N) l : nat :=
  match fs !! checkpoint_path ≫= of_cbor (R := TrustedCheckpointRecord) with
  | Some record =>
      let h := tcm_height (tcr_metadata record) in
      if (base =? 0) && (h <? len l) then N.to_nat h else 0%nat
  | None => 0%nat
  end.

Lemma below_window_le fs base l : (below_window fs base l <= length l)%nat.
Proof.
  unfold below_window. destruct (_ ≫= _); [|lia]. destruct (_ && _) eqn:Hb; [|lia].
  apply andb_true_iff in Hb as [_ Hb%N.ltb_lt]. unfold len in Hb. lia.
Qed.

Lemma check_version_current :
  check_state_format_version STATE_FORMAT_VERSION = Ok tt.
Proof. done. Qed.

Lemma segment_file fs n l i sb :
  segment fs n l -> l !! i = Some sb -> exists b record,
  fs !! block_path (n + N.of_nat i + 1) = Some b /\ of_cbor b = Some record /\
  record_into_stored_block record (n + N.of_nat i + 1) = Ok sb /\
  bhr_prev_hash (sbr_header record) = bh_prev_hash (sb_header sb).
Proof.
  intros Hs Hi. destruct (Hs i sb Hi) as ((b & hb & Hb & Henc & _) & Hok & Hr & Hh).
  destruct (encode_block_record _ _ Hok Hr Henc) as (record & Hrec & Hinto & _ & Hprev).
  rewrite Hh in Hinto. by exists b, record.
Qed.

Lemma block_file_there fs policy genesis base anchor l h :
  file_rep fs policy genesis base anchor l -> h <= u64_max ->
  exists_file fs (block_path h) = (base <? h) && (h <=? base + len l).
Proof.
  intros Hr Hh. pose proof (fr_max _ _ _ _ _ _ Hr). destruct ((base <? h) && (h <=? base + len l)) eqn:Hb.
  - apply andb_true_iff in Hb as [Hb%N.ltb_lt Hle%N.leb_le]. unfold len in Hle.
    destruct (l !! N.to_nat (h - base - 1)) as [sb|] eqn:Hl; [|apply lookup_ge_None_1 in Hl; lia].
    destruct (segment_file _ _ _ _ _ (fr_segment _ _ _ _ _ _ Hr) Hl) as (b & _ & Hf & _).
    replace (base + N.of_nat _ + 1) with h in Hf by lia. by apply exists_file_Some in Hf.
  - apply exists_file_None, eq_None_not_Some.
    intros (i & Hi & He)%(fr_block_names _ _ _ _ _ _ Hr)%elem_of_block_names. unfold len in *.
    apply block_file_name_inj in He; [|lia..].
    apply andb_false_iff in Hb as [?%N.ltb_ge|?%N.leb_gt]; lia.
Qed.

Lemma read_base_rep fs policy genesis base anchor l :
  file_rep fs policy genesis base anchor l ->
  (if negb (exists_file fs (block_path 1)) then read_snapshot_base_if_present fs else Ok None) =
  Ok (if base =? 0 then None else Some (base, anchor)).
Proof.
  intros Hr. rewrite (block_file_there _ _ _ _ _ _ 1 Hr) by lia. pose proof (fr_checkpoint _ _ _ _ _ _ Hr) as Hc.
  unfold checkpoint_rep, read_snapshot_base_if_present, read_cbor, decode_cbor_slice in *.
  destruct (N.eqb_spec base 0) as [->|Hb].
  - change (0 <? 1) with true. cbn [andb]. rewrite N.add_0_l in *. destruct (N.leb_spec 1 (len l)); [done|].
    cbn [negb]. destruct (fs !! checkpoint_path) as [b|] eqn:Hf; [|by rewrite exists_file_None].
    destruct Hc as (record & Hrec & Hv & Hh & _). rewrite (exists_file_Some _ _ _ Hf).
    cbn [negb ok_or mbind outcome_bind]. rewrite Hrec. cbn [ok_or]. rewrite Hv, check_version_current.
    cbn [mbind outcome_bind]. by replace (tcm_height (tcr_metadata record)) with 0 by lia.
  - rewrite (proj2 (N.ltb_ge base 1)) by lia. cbn [andb negb].
    destruct (fs !! checkpoint_path) as [b|] eqn:Hf; [|done].
    destruct Hc as (record & Hrec & Hv & Hh & [?|Heq] & Htip); [done|]. rewrite (exists_file_Some _ _ _ Hf).
    cbn [negb ok_or mbind outcome_bind]. rewrite Hrec. cbn [ok_or]. rewrite Hv, check_version_current.
    cbn [mbind outcome_bind]. rewrite Htip, Heq, N.sub_diag, (proj2 (N.eqb_neq base 0)) by done. done.
Qed.

Lemma read_window_rep fs policy genesis anchor l :
  file_rep fs policy genesis 0 anchor l ->
  let k := below_window fs 0 l in
  read_checkpoint_window fs =
  Ok (if N.of_nat k =? 0 then None else Some (N.of_nat k, last_hash anchor (take k l))).
Proof.
  intros Hr k. unfold read_checkpoint_window, read_snapshot_base_if_present, read_cbor, decode_cbor_slice.
  pose proof (fr_checkpoint _ _ _ _ _ _ Hr) as Hc. pose proof (fr_max _ _ _ _ _ _ Hr).
  unfold checkpoint_rep in Hc. subst k. unfold below_window.
  destruct (fs !! checkpoint_path) as [b|] eqn:Hf; [|by rewrite exists_file_None].
  destruct Hc as (record & Hrec & Hv & Hh & _ & Htip). rewrite (exists_file_Some _ _ _ Hf).
  cbn [negb ok_or mbind outcome_bind option_bind]. rewrite Hrec. cbn [ok_or]. rewrite Hv, check_version_current.
  cbn [mbind outcome_bind]. rewrite N.sub_0_r in Htip. remember (tcm_height (tcr_metadata record)) as h.
  destruct (N.eqb_spec h 0) as [->|Hpos]; [by destruct (_ && _)|]. cbn [mbind outcome_bind].
  unfold add_checked. rewrite (proj2 (N.leb_le _ _)) by lia. cbn [mbind outcome_bind].
  rewrite (block_file_there _ _ _ _ _ _ _ Hr), (proj2 (N.ltb_lt 0 _)) by lia. cbn [andb].
  change (0 =? 0) with true. cbn [andb]. destruct (N.leb_spec (h + 1) (0 + len l)).
  - rewrite (proj2 (N.ltb_lt h (len l))) by lia. unfold len in *.
    destruct (l !! N.to_nat h) as [sb|] eqn:Hl; [|apply lookup_ge_None_1 in Hl; lia].
    destruct (segment_file _ _ _ _ _ (fr_segment _ _ _ _ _ _ Hr) Hl) as (b' & r' & Hb' & Hr' & _ & Hprev).
    replace (0 + N.of_nat (N.to_nat h) + 1) with (h + 1) in Hb' by lia. rewrite Hb'. cbn [ok_or mbind outcome_bind].
    rewrite Hr'. cbn [ok_or]. rewrite Hprev.
    pose proof (fr_linked _ _ _ _ _ _ Hr) as Hlk.
    rewrite <-(take_drop_middle _ _ _ Hl) in Hlk. apply linked_app in Hlk as (_ & _ & _ & Hp & _).
    rewrite Hp, <-Htip, bool_decide_true, N2Nat.id by done. rewrite (proj2 (N.eqb_neq h 0)) by done.
    by rewrite Htip.
  - by rewrite (proj2 (N.ltb_ge h (len l))) by lia.
Qed.

(** The blocks in memory after a directory is opened. *)
Definition window_rep st (base : N) (anchor : bytes) (k : nat) l : Prop :=
  chain_rep (dk_chain st) (drop k l) /\
  ch_anchor_prev_hash (dk_chain st) = last_hash anchor (take k l) /\
  ch_base_height (dk_chain st) = base + N.of_nat k /\ (k <= length l)%nat.

Lemma len_take k (l : list StoredBlock) : (k <= length l)%nat -> len (take k l) = N.of_nat k.
Proof. intros Hk. unfold len. rewrite length_take. lia. Qed.

Lemma load_chain fs policy genesis base anchor l k :
  file_rep fs policy genesis base anchor l -> (k <= length l)%nat -> exists c,
  foldM (load_file fs policy (base + N.of_nat k + 1))
    (ChainStore_new_with_base (last_hash anchor (take k l)) (base + N.of_nat k), ∅, ∅)
    (heights (base + 1) (base + len l)) = Ok (c, block_names base l, hash_names l) /\
  chain_rep c (drop k l) /\ ch_anchor_prev_hash c = last_hash anchor (take k l) /\
  ch_base_height c = base + N.of_nat k.
Proof.
  intros Hr Hk. pose proof (fr_max _ _ _ _ _ _ Hr) as Hmax.
  pose proof (len_take _ _ Hk) as Hlk. pose proof (len_app (take k l) (drop k l)) as Hlen.
  rewrite take_drop, Hlk in Hlen.
  pose proof (fr_segment _ _ _ _ _ _ Hr) as Hs. rewrite <-(take_drop k l) in Hs.
  apply segment_app in Hs as [Hs1 Hs2]. rewrite Hlk in Hs2.
  pose proof (fr_linked _ _ _ _ _ _ Hr) as Hl. rewrite <-(take_drop k l) in Hl.
  apply linked_app in Hl as [_ Hl]. rewrite Hlk in Hl.
  rewrite Hlen, N.add_assoc, heights_split, foldM_app, <-Hlk.
  rewrite skip_files by (done || lia). cbn [mbind outcome_bind]. rewrite Hlk.
  destruct (load_files fs policy (base + N.of_nat k + 1)
    (ChainStore_new_with_base (last_hash anchor (take k l)) (base + N.of_nat k)) []
    (base + N.of_nat k) (drop k l) (block_names base (take k l) ∪ ∅) (hash_names (take k l) ∪ ∅))
    as (c & Hf & Hc & Ha & Hb); try done; try lia.
  - apply rep_empty. lia.
  - pose proof (fr_hashes _ _ _ _ _ _ Hr) as Hnd. rewrite <-(take_drop k l), fmap_app in Hnd.
    by apply NoDup_app in Hnd as (_ & _ & ?).
  - apply Forall_drop, (fr_counted _ _ _ _ _ _ Hr).
  - apply Forall_drop, (fr_commits _ _ _ _ _ _ Hr).
  - exists c. split; [|done]. rewrite Hf.
    pose proof (block_names_app base (take k l) (drop k l)) as Hbn. rewrite take_drop, Hlk in Hbn.
    pose proof (hash_names_app (take k l) (drop k l)) as Hhn. rewrite take_drop in Hhn.
    rewrite Hbn, Hhn. do 2 f_equal; [f_equal|]; set_solver.
Qed.

Lemma segment_names fs base l : segment fs base l ->
  (forall n, n ∈ block_names base l -> is_Some (fs !! (Dir.Blocks, n))) /\
  (forall n, n ∈ hash_names l -> is_Some (fs !! (Dir.Hashes, n))).
Proof.
  intros Hs. split.
  - intros n (i & Hi & ->)%elem_of_block_names. apply lookup_lt_is_Some_2 in Hi as [sb Hi].
    destruct (Hs i sb Hi) as ((b & hb & Hb & _) & _). by exists b.
  - intros n (sb & [i Hi]%list_elem_of_lookup_1 & ->)%elem_of_hash_names.
    destruct (Hs i sb Hi) as ((b & hb & _ & _ & Hh & _) & _). by exists hb.
Qed.

(** Where opening starts the chain in memory. *)
Lemma open_window fs policy genesis base anchor l :
  file_rep fs policy genesis base anchor l ->
  let base_ckpt := if base =? 0 then None else Some (base, anchor) in
  let k := below_window fs base l in exists w,
  (if bool_decide (base_ckpt = None) then read_checkpoint_window fs else Ok None) = Ok w /\
  default (default (0, genesis) base_ckpt) w = (base + N.of_nat k, last_hash anchor (take k l)) /\
  next_height (E := StorageError.t) w (base + 1) = Ok (base + N.of_nat k + 1).
Proof.
  intros Hr base_ckpt k. subst base_ckpt k. pose proof (fr_max _ _ _ _ _ _ Hr).
  pose proof (below_window_le fs base l). destruct (N.eqb_spec base 0) as [->|Hb].
  - rewrite bool_decide_true, (read_window_rep _ _ _ _ _ Hr) by done. eexists. split; [done|].
    cbn [from_option id]. destruct (N.eqb_spec (N.of_nat (below_window fs 0 l)) 0) as [Hk|Hk].
    + rewrite Hk. replace (below_window fs 0 l) with 0%nat by lia.
      by rewrite (fr_start _ _ _ _ _ _ Hr eq_refl).
    + split; [done|]. cbn [next_height]. unfold add_checked, len in *.
      by rewrite (proj2 (N.leb_le _ _)) by lia.
  - rewrite bool_decide_false by done. exists None. split; [done|].
    assert (below_window fs base l = 0%nat) as ->; [|by rewrite N.add_0_r].
    unfold below_window. destruct (_ ≫= _); [|done]. by rewrite (proj2 (N.eqb_neq base 0)).
Qed.

(** Opening a directory loads its chain from the checkpoint on. *)
Lemma file_open_rep fs policy genesis base anchor l :
  file_rep fs policy genesis base anchor l -> exists st,
  open_internal fs genesis policy = Ok st /\ dk_commit_policy st = policy /\
  dk_genesis_anchor st = genesis /\ window_rep st base anchor (below_window fs base l) l.
Proof.
  intros Hr. pose proof (fr_max _ _ _ _ _ _ Hr) as Hmax. unfold open_internal.
  rewrite (bool_decide_true (dir_entries fs Dir.Staging = []))
    by (apply dir_entries_nil, (fr_unstaged _ _ _ _ _ _ Hr)).
  cbn [ensure mbind outcome_bind]. rewrite (read_base_rep _ _ _ _ _ _ Hr). cbn [mbind outcome_bind].
  destruct (open_window _ _ _ _ _ _ Hr) as (w & Hw & Hdef & Hnext).
  pose proof (below_window_le fs base l) as Hk. remember (below_window fs base l) as k eqn:Heqk.
  assert (next_height (E := StorageError.t) (if base =? 0 then None else Some (base, anchor)) 1 =
    Ok (base + 1)) as ->.
  { destruct (N.eqb_spec base 0) as [->|]; [done|]. cbn. unfold add_checked.
    by rewrite (proj2 (N.leb_le _ _)) by lia. }
  cbn [mbind outcome_bind]. destruct (default (0, genesis) _) as [b0 a0]. rewrite Hw.
  cbn [mbind outcome_bind]. rewrite Hdef, Hnext. cbn [mbind outcome_bind].
  pose proof (fr_tip _ _ _ _ _ _ Hr) as Ht. case_decide as Hl.
  - rewrite (exists_file_None _ _ Ht). cbn [negb]. subst l.
    rewrite (bool_decide_true (dir_entries fs Dir.Blocks = [])), (bool_decide_true (dir_entries fs Dir.Hashes = [])).
    + cbn [andb ensure mbind outcome_bind]. eexists. split; [done|]. cbn in Hk.
      assert (k = 0%nat) as -> by lia. do 2 (split; [done|]). split_and!; try done. apply rep_empty. cbn in Hmax |- *. lia.
    + apply dir_entries_nil. intros n. apply eq_None_not_Some. by intros ?%(fr_hash_names _ _ _ _ _ _ Hr).
    + apply dir_entries_nil. intros n. apply eq_None_not_Some. by intros ?%(fr_block_names _ _ _ _ _ _ Hr).
  - destruct Ht as (b & Hb & Htip). rewrite (exists_file_Some _ _ _ Hb). cbn [negb].
    unfold read_cbor, decode_cbor_slice. rewrite Hb. cbn [ok_or mbind outcome_bind]. rewrite Htip.
    cbn [ok_or mbind outcome_bind tip_height tip_block_hash].
    destruct (load_chain _ _ _ _ _ _ k Hr Hk) as (c & Hf & Hc & Ha & Hbase). rewrite Hf.
    cbn [mbind outcome_bind]. destruct (segment_names _ _ _ (fr_segment _ _ _ _ _ _ Hr)) as [Hbn Hhn].
    rewrite (inventory_exact _ Dir.Blocks)
      by (intros n; split; [apply (fr_block_names _ _ _ _ _ _ Hr)|apply Hbn]).
    rewrite (inventory_exact _ Dir.Hashes)
      by (intros n; split; [apply (fr_hash_names _ _ _ _ _ _ Hr)|apply Hhn]).
    cbn [mbind outcome_bind]. rewrite (rep_height _ _ Hc), (rep_prev_hash _ _ Hc), Ha, Hbase.
    rewrite last_hash_app, take_drop, bool_decide_true by done.
    replace (base + N.of_nat k + len (drop k l)) with (base + len l)
      by (unfold len; rewrite length_drop; lia).
    rewrite N.eqb_refl. cbn [ensure mbind outcome_bind]. by eexists.
Qed.
End files.
