(* ===== verification/FileStoreProps.v ===== *)
(** * The operations of the block store in files.

    Each operation of the store, appends, checkpoints and the bootstrap from a snapshot,
    keeps [file_rep], and so does what a stop in the middle of it leaves, unless the
    next opening recognises it. *)

From S2P Require Import Prelude Crypto Text Types Cbor Payloads Tx FeeMarket Leaves Store StoreInv.
From S2P Require Import ApplyAccounts ApplyValidators Governance Archival ApplyTx Mempool Block Chain.
From S2P Require Import ChainInv Recovery RecoveryProps Commit Records RecordsProps Upgrade Storage.
From S2P Require Import StorageRep StorageProps StorageHistory FileStore FileStoreRep.

(** ** Names in the staging directory *)

Definition block_stage_name (h : N) : bytes := format_height h ++ bstr ".block.tmp".
Definition hash_stage_name `{Hex} (hash : bytes) : bytes := hex_encode hash ++ bstr ".hash.tmp".
Definition tip_stage_name : bytes := bstr "tip.tmp".

Lemma stage_names `{Hex} h hash :
  block_stage_name h <> tip_stage_name /\ hash_stage_name hash <> tip_stage_name /\
  block_stage_name h <> hash_stage_name hash.
Proof.
  split_and!; intros He%(f_equal length);
    unfold block_stage_name, hash_stage_name, tip_stage_name, format_height in He;
    rewrite ?length_app, ?length_decimal, ?hex_encode_length in He; cbn [length bstr] in He;
    change (length (bstr ".block.tmp")) with 10%nat in *; change (length (bstr ".hash.tmp")) with 9%nat in *;
    change (length (bstr "tip.tmp")) with 7%nat in *; lia.
Qed.

Section file_store.
Context `{Ciborium, Shake, Verifier} {hex : Hex}.
Context `{!Serde StoredBlockRecord, !Serde TrustedCheckpointRecord}.
Context `{!Serde TipRecord, !Serde HashIndexRecord}.
Context `{!SerdeLaws StoredBlockRecord, !SerdeLaws TrustedCheckpointRecord}.
Context `{!SerdeLaws TipRecord, !SerdeLaws HashIndexRecord}.
Implicit Types (fs : Fs) (st : DiskChainStore) (l : list StoredBlock) (sb : StoredBlock).

(** ** The operations of one append *)

Definition persist_ops sb (b hb tb : bytes) : list FsOp :=
  let bs := (Dir.Staging, block_stage_name (md_height (sb_metadata sb))) in
  let hs := (Dir.Staging, hash_stage_name (sb_hash sb)) in
  let ts := (Dir.Staging, tip_stage_name) in
  [Create bs; Write bs b; Create hs; Write hs hb; Create ts; Write ts tb;
   Rename bs (block_path (md_height (sb_metadata sb))); Rename hs (hash_path (sb_hash sb));
   Rename ts tip_path].

Lemma persist_files_Ok sb ops :
  persist_stored_block sb = (ops, Ok tt) -> exists b hb tb,
  encode_stored_block_bytes sb = Ok b /\
  of_cbor hb = Some (mkHashIndexRecord (md_height (sb_metadata sb))) /\
  of_cbor tb = Some (mkTipRecord (md_height (sb_metadata sb)) (sb_hash sb)) /\
  ops = persist_ops sb b hb tb.
Proof.
  unfold persist_stored_block, encode_stored_block_bytes. unfold lift at 1.
  destruct (stored_block_into_record sb) as [record| |]; [|done..].
  unfold write_cbor, lift. cbn [mbind outcome_bind FsM_bind fst snd perform ok_or app].
  destruct (to_cbor record) as [b|]; [|done]. cbn [mbind outcome_bind FsM_bind fst snd perform ok_or app].
  destruct (to_cbor (mkHashIndexRecord _)) as [hb|] eqn:Hh; [|done].
  cbn [mbind outcome_bind FsM_bind fst snd perform ok_or app].
  destruct (to_cbor (mkTipRecord _ _)) as [tb|] eqn:Ht; [|done].
  cbn [mbind outcome_bind FsM_bind fst snd perform ok_or app rename].
  intros [= <-]. exists b, hb, tb. split_and!; [done|by apply of_to_cbor..|done].
Qed.

(** An append that fails leaves only staged files behind. *)
Lemma persist_failed sb ops r :
  persist_stored_block sb = (ops, r) -> r <> Ok tt ->
  Forall stages ops.
Proof.
  unfold persist_stored_block. unfold lift at 1.
  destruct (stored_block_into_record sb) as [record| |]; [|by intros [= <- <-]..].
  unfold write_cbor, lift. cbn [mbind outcome_bind FsM_bind fst snd perform ok_or app].
  destruct (to_cbor record) as [b|]; cbn [mbind outcome_bind FsM_bind fst snd perform ok_or app];
    [|intros [= <- <-] _; by repeat constructor].
  destruct (to_cbor (mkHashIndexRecord _)) as [hb|];
    cbn [mbind outcome_bind FsM_bind fst snd perform ok_or app]; [|intros [= <- <-] _; by repeat constructor].
  destruct (to_cbor (mkTipRecord _ _)) as [tb|];
    cbn [mbind outcome_bind FsM_bind fst snd perform ok_or app rename]; [|intros [= <- <-] _; by repeat constructor].
  by intros [= <- <-].
Qed.

Lemma persist_guarded sb : guarded (persist_stored_block sb).1.
Proof.
  destruct (persist_stored_block sb) as [ops r] eqn:Hp. cbn [fst].
  destruct r as [[]| |]; [|by eapply guarded_failed, persist_failed; [exact Hp|]..].
  apply persist_files_Ok in Hp as (b & hb & tb & _ & _ & _ & ->).
  destruct (stage_names (md_height (sb_metadata sb)) (sb_hash sb)) as (? & ? & ?). by apply guarded_three.
Qed.

(** The files with one more block. *)
Definition persisted fs fs' sb (b hb tb : bytes) : Prop := forall p, fs' !! p =
  if decide (p = tip_path) then Some tb
  else if decide (p = hash_path (sb_hash sb)) then Some hb
  else if decide (p = block_path (md_height (sb_metadata sb))) then Some b
  else fs !! p.

Lemma rename_lookup fs from to c p :
  fs !! from = Some c -> apply_op fs (Rename from to) !! p =
  if decide (p = to) then Some c else if decide (p = from) then None else fs !! p.
Proof.
  intros Hf. cbn [apply_op]. rewrite Hf. case_decide as Hto.
  - subst p. by rewrite lookup_insert_eq.
  - rewrite lookup_insert_ne by congruence. case_decide as Hfr.
    + subst p. by rewrite lookup_delete_eq.
    + by rewrite lookup_delete_ne by congruence.
Qed.

Lemma write_lookup fs q c p :
  apply_ops fs [Create q; Write q c] !! p = if decide (p = q) then Some c else fs !! p.
Proof.
  cbn [apply_ops foldl apply_op]. case_decide as Hq.
  - subst p. by rewrite lookup_insert_eq.
  - by rewrite !lookup_insert_ne by congruence.
Qed.

Lemma persist_effect fs sb b hb tb :
  unstaged fs -> persisted fs (apply_ops fs (persist_ops sb b hb tb)) sb b hb tb.
Proof.
  intros Hun p. unfold persist_ops.
  destruct (stage_names (md_height (sb_metadata sb)) (sb_hash sb)) as (Hbt & Hht & Hbh).
  set (bs := (Dir.Staging, block_stage_name _)). set (hs := (Dir.Staging, hash_stage_name _)).
  set (ts := (Dir.Staging, tip_stage_name)).
  assert (bs <> ts /\ hs <> ts /\ bs <> hs) as (Hbt' & Hht' & Hbh') by (subst bs hs ts; split_and!; congruence).
  set (fs6 := apply_ops fs [Create bs; Write bs b; Create hs; Write hs hb; Create ts; Write ts tb]).
  assert (forall p, fs6 !! p = if decide (p = ts) then Some tb else if decide (p = hs) then Some hb
    else if decide (p = bs) then Some b else fs !! p) as H6.
  { intros q. subst fs6. change [Create bs; Write bs b; Create hs; Write hs hb; Create ts; Write ts tb]
      with ([Create bs; Write bs b] ++ [Create hs; Write hs hb] ++ [Create ts; Write ts tb]).
    by rewrite !apply_ops_app, !write_lookup. }
  change (apply_ops fs _) with
    (apply_op (apply_op (apply_op fs6 (Rename bs (block_path (md_height (sb_metadata sb)))))
       (Rename hs (hash_path (sb_hash sb)))) (Rename ts tip_path)).
  set (fs7 := apply_op fs6 _). set (fs8 := apply_op fs7 _).
  pose proof (fun q => rename_lookup fs6 bs (block_path (md_height (sb_metadata sb))) b q
    ltac:(by rewrite H6, !decide_False, decide_True by done)) as H7. fold fs7 in H7.
  pose proof (fun q => rename_lookup fs7 hs (hash_path (sb_hash sb)) hb q
    ltac:(by rewrite H7, H6, !decide_False, decide_True by done)) as H8. fold fs8 in H8.
  rewrite (rename_lookup _ _ _ tb) by (by rewrite H8, H7, H6, !decide_False, decide_True by done).
  rewrite H8, H7, H6.
  repeat case_decide; subst; try done. all: symmetry; apply Hun.
Qed.

(** ** The chain grows *)

Lemma block_path_ne h h' : h <= u64_max -> h' <= u64_max -> h <> h' -> block_path h <> block_path h'.
Proof.
  intros Hh Hh' Hne He. apply Hne, (block_file_name_inj _ _ Hh Hh').
  unfold block_path in He. exact (proj2 (proj1 (pair_eq _ _ _ _) He)).
Qed.

Lemma hash_path_ne a b : a <> b -> hash_path a <> hash_path b.
Proof.
  intros Hne He. apply Hne, hash_index_file_name_inj.
  unfold hash_path in He. exact (proj2 (proj1 (pair_eq _ _ _ _) He)).
Qed.

Lemma persisted_segment fs fs' policy genesis base anchor l sb b hb tb :
  file_rep fs policy genesis base anchor l -> persisted fs fs' sb b hb tb ->
  fits anchor base l sb -> sb_hash sb ∉ sb_hash <$> l -> md_height (sb_metadata sb) < u64_max ->
  encode_stored_block_bytes sb = Ok b ->
  of_cbor hb = Some (mkHashIndexRecord (md_height (sb_metadata sb))) ->
  segment fs' base (l ++ [sb]).
Proof.
  intros Hr Hp Hfit Hfresh Hmax Hb Hhb i sb' Hi. pose proof (fi_height _ _ _ _ Hfit) as Hh.
  apply lookup_snoc_cases in Hi as [Hi|[-> ->]].
  - destruct (fr_segment _ _ _ _ _ _ Hr _ _ Hi) as ((b' & hb' & Hb' & Henc' & Hh' & Hhb') & Hrest).
    split; [|done]. exists b', hb'. split_and!; [|done| |done].
    + pose proof (lookup_lt_Some _ _ _ Hi). rewrite Hp, !decide_False, Hb'; [done| |done|done].
      apply block_path_ne; unfold len in *; lia.
    + rewrite Hp, decide_False, decide_False, decide_False; [done|done| |done].
      apply hash_path_ne. intros Heq. apply Hfresh. rewrite <-Heq.
      by eapply list_elem_of_fmap_2, list_elem_of_lookup_2.
  - unfold len in Hh. replace (base + N.of_nat (length l) + 1) with (md_height (sb_metadata sb)) by lia.
    split_and!; [|apply Hfit|apply Hfit|done]. exists b, hb.
    replace (base + N.of_nat (length l) + 1) with (md_height (sb_metadata sb)) by lia.
    split_and!; [|done| |done].
    + by rewrite Hp, decide_False, decide_False, decide_True.
    + by rewrite Hp, decide_False, decide_True.
Qed.

Lemma persisted_rep fs fs' policy genesis base anchor l sb b hb tb :
  file_rep fs policy genesis base anchor l -> persisted fs fs' sb b hb tb ->
  fits anchor base l sb -> sb_hash sb ∉ sb_hash <$> l -> md_height (sb_metadata sb) < u64_max ->
  check_commit (sb_block sb) policy = Ok tt -> encode_stored_block_bytes sb = Ok b ->
  of_cbor hb = Some (mkHashIndexRecord (md_height (sb_metadata sb))) ->
  of_cbor tb = Some (mkTipRecord (md_height (sb_metadata sb)) (sb_hash sb)) ->
  file_rep fs' policy genesis base anchor (l ++ [sb]).
Proof.
  intros Hr Hp Hfit Hfresh Hmax Hc Hb Hhb Htb. pose proof (fi_height _ _ _ _ Hfit) as Hh.
  assert (len (l ++ [sb]) = len l + 1) as Hlen by by rewrite len_app. split.
  - intros n. rewrite Hp, !decide_False by done. apply (fr_unstaged _ _ _ _ _ _ Hr).
  - rewrite decide_False by (by destruct l). exists tb. rewrite Hp, decide_True by done. split; [done|].
    rewrite Htb. unfold last_hash. rewrite last_snoc, Hlen. do 2 f_equal. lia.
  - by eapply persisted_segment.
  - intros n. rewrite Hp, decide_False, decide_False, block_names_app by done. case_decide as Hn.
    + intros _. injection Hn as ->. apply elem_of_union_r. cbn [block_names].
      replace (base + len l + 1) with (md_height (sb_metadata sb)) by lia. set_solver.
    + intros ?%(fr_block_names _ _ _ _ _ _ Hr). by apply elem_of_union_l.
  - intros n. rewrite Hp, decide_False, hash_names_app by done. case_decide as Hn.
    + intros _. injection Hn as ->. apply elem_of_union_r. rewrite hash_names_cons. set_solver.
    + rewrite decide_False by done. intros ?%(fr_hash_names _ _ _ _ _ _ Hr). by apply elem_of_union_l.
  - apply (fr_start _ _ _ _ _ _ Hr).
  - lia.
  - apply fits_linked; [done|apply (fr_linked _ _ _ _ _ _ Hr)].
  - apply Forall_app. split; [apply (fr_counted _ _ _ _ _ _ Hr)|]. by apply Forall_singleton, Hfit.
  - rewrite fmap_app. apply NoDup_app. split_and!; [apply (fr_hashes _ _ _ _ _ _ Hr)| |apply NoDup_singleton].
    by intros h Hin ->%list_elem_of_singleton.
  - apply Forall_app. split; [apply (fr_commits _ _ _ _ _ _ Hr)|by apply Forall_singleton].
  - pose proof (fr_checkpoint _ _ _ _ _ _ Hr) as Hck. unfold checkpoint_rep in *.
    rewrite Hp, !decide_False by done. destruct (fs !! checkpoint_path) as [cb|]; [|done].
    destruct Hck as (record & Hrec & Hv & Hle & Hor & Htip). exists record. split_and!; try done; [lia..|].
    rewrite take_app_le; [done|]. unfold len in *. lia.
Qed.

(** A block that fits the chain in memory fits the chain of the files. *)
Lemma window_append st base anchor k l sb c' m :
  window_rep st base anchor k l -> readable sb ->
  append_stored_block (dk_chain st) sb = Ok (c', m) ->
  fits anchor base l sb /\ window_rep (with_chain st c') base anchor k (l ++ [sb]).
Proof.
  intros (Hc & Ha & Hb & Hk) Hr Happ.
  pose proof (rep_mem _ _ Hc) as Hm. rewrite Ha, Hb in Hm.
  destruct (append_settled _ _ _ _ _ _ _ Hm Happ) as (-> & _ & Hcnt & Hm').
  destruct (append_rep _ _ _ _ _ Hc Happ) as (_ & _ & Hc').
  rewrite <-(len_take _ _ Hk) in Hm'. destruct (mem_fits _ _ _ _ _ _ Hm' Hcnt Hr) as [Hfit _].
  rewrite take_drop in Hfit. split; [done|]. split_and!; cbn [dk_chain with_chain].
  - by rewrite drop_app_le by lia.
  - by rewrite take_app_le by lia.
  - done.
  - rewrite length_app. lia.
Qed.

(** ** Appending *)

(** All the ways of appending one block. *)
Definition appends st sb (m : FsM (DiskChainStore * BlockMetadata)) : Prop :=
  (m.1 = [] /\ forall x, m.2 <> Ok x) \/
  exists c md, append_stored_block (dk_chain st) sb = Ok (c, md) /\
    m = (persist_stored_block sb ;; mret (with_chain st c, md)).

Lemma append_stored_appends st sb :
  appends st sb (disk_append_stored_block st sb) /\
  (forall ops x, disk_append_stored_block st sb = (ops, Ok x) ->
     check_commit (sb_block sb) (dk_commit_policy st) = Ok tt).
Proof.
  unfold disk_append_stored_block, validate_commit_proof, lift.
  destruct (check_commit _ _) as [[]| |]; [|by split; [left|]..].
  destruct (append_stored_block (dk_chain st) sb) as [[c md]| |] eqn:Ha; [|by split; [left|]..].
  cbn [mbind FsM_bind map_err fst snd app]. split; [|done]. right. exists c, md. split; [done|].
  symmetry. apply surjective_pairing.
Qed.

Lemma append_inner_appends st exe : appends st (stored_of exe) (disk_append_block_inner st exe).
Proof.
  unfold disk_append_block_inner, lift.
  destruct (append_block (dk_chain st) exe) as [[c md]| |] eqn:Ha; [|by left..].
  destruct (stored_of_counted _ _ _ _ Ha) as [Hst _]. pose proof Hst as Hp.
  unfold append_stored_block in Hp. apply bind_Ok in Hp as ([] & _ & [= <- _]).
  cbn [mbind FsM_bind map_err fst snd app]. rewrite push_tip. right.
  exists (push_stored_block (stored_of exe) (dk_chain st)), md. split; [done|]. by destruct (_ ≫= _).
Qed.

Lemma append_execution_appends st exe :
  appends st (stored_of exe) (disk_append_block st exe) /\
  (forall ops x, disk_append_block st exe = (ops, Ok x) ->
     check_commit (exe_block exe) (dk_commit_policy st) = Ok tt).
Proof.
  unfold disk_append_block, validate_commit_proof, lift.
  destruct (check_commit _ _) as [[]| |]; [|by split; [left|]..].
  split; [|done]. cbn [mbind FsM_bind fst snd app]. rewrite <-surjective_pairing.
  apply append_inner_appends.
Qed.

Lemma appends_guarded st sb m : appends st sb m -> guarded m.1.
Proof.
  intros [[-> _]|(c & md & _ & ->)]; [apply guarded_failed; constructor|].
  pose proof (persist_guarded sb) as Hg. cbn [mbind FsM_bind mret FsM_ret].
  destruct (persist_stored_block sb) as [ops [[]| |]]; cbn in *; by rewrite ?app_nil_r.
Qed.

(** The directory and the store in memory hold the same chain. *)
Definition store_rep fs st (policy : option CommitQuorumPolicy) (genesis : bytes) (base : N)
    (anchor : bytes) l : Prop :=
  file_rep fs policy genesis base anchor l /\ dk_commit_policy st = policy /\
  dk_genesis_anchor st = genesis /\ exists k, window_rep st base anchor k l.

Lemma appends_rep fs st policy genesis base anchor l sb ops st' md :
  store_rep fs st policy genesis base anchor l -> readable sb -> sb_hash sb ∉ sb_hash <$> l ->
  md_height (sb_metadata sb) < u64_max -> check_commit (sb_block sb) policy = Ok tt ->
  appends st sb (ops, Ok (st', md)) ->
  store_rep (apply_ops fs ops) st' policy genesis base anchor (l ++ [sb]).
Proof.
  intros (Hr & Hpol & Hgen & k & Hw) Hrd Hfresh Hmax Hc [[_ Hno]|(c & md' & Ha & He)]; [by destruct (Hno (st', md))|].
  cbn [mbind FsM_bind mret FsM_ret] in He.
  destruct (persist_stored_block sb) as [ops' [[]| |]] eqn:Hp; [|done..]. cbn in He.
  rewrite app_nil_r in He. injection He as -> -> ->.
  destruct (persist_files_Ok _ _ Hp) as (b & hb & tb & Hb & Hhb & Htb & ->).
  destruct (window_append _ _ _ _ _ _ _ _ Hw Hrd Ha) as [Hfit Hw'].
  split_and!; [|done|done|by exists k].
  eapply persisted_rep; try done. apply persist_effect, (fr_unstaged _ _ _ _ _ _ Hr).
Qed.

(** ** Checkpoints *)

Definition checkpoint_ops (b : bytes) : list FsOp :=
  [Create checkpoint_stage; Write checkpoint_stage b; Rename checkpoint_stage checkpoint_path].

Lemma checkpoint_ops_effect fs b p :
  unstaged fs -> apply_ops fs (checkpoint_ops b) !! p = if decide (p = checkpoint_path) then Some b else fs !! p.
Proof.
  intros Hun. change (checkpoint_ops b)
    with ([Create checkpoint_stage; Write checkpoint_stage b] ++ [Rename checkpoint_stage checkpoint_path]).
  rewrite apply_ops_app. pose proof (write_lookup fs checkpoint_stage b) as H2.
  set (fs2 := apply_ops fs [Create _; Write _ _]) in *. change (apply_ops fs2 ?ops) with (foldl apply_op fs2 ops).
  cbn [foldl]. rewrite (rename_lookup _ _ _ b) by by rewrite H2, decide_True.
  rewrite H2. repeat case_decide; subst; try done. symmetry. apply Hun.
Qed.

Lemma checkpoint_ops_guarded b : guarded (checkpoint_ops b).
Proof. apply guarded_one. Qed.

Lemma checkpoint_files_Ok st state ops m :
  disk_write_trusted_checkpoint st state = (ops, Ok m) -> exists b,
  ops = checkpoint_ops b /\ checkpoint_metadata (dk_chain st) state = Ok m /\
  of_cbor b = Some (mkTrustedCheckpointRecord STATE_FORMAT_VERSION m (state_into_record state)).
Proof.
  unfold disk_write_trusted_checkpoint, write_cbor, lift.
  destruct (checkpoint_metadata _ _) as [m'| |]; [|done..]. cbn [mbind FsM_bind fst snd perform app].
  destruct (to_cbor _) as [b|] eqn:Hb; [|done]. cbn [ok_or mbind FsM_bind fst snd perform app rename mret FsM_ret].
  intros [= <- <-]. exists b. split_and!; [done|done|by apply of_to_cbor].
Qed.

Lemma window_height st base anchor k l :
  window_rep st base anchor k l -> chain_height (dk_chain st) = base + len l /\
  expected_prev_hash (dk_chain st) = last_hash anchor l.
Proof.
  intros (Hc & Ha & Hb & Hk). rewrite (rep_height _ _ Hc), (rep_prev_hash _ _ Hc), Ha, Hb.
  rewrite last_hash_app, take_drop. split; [|done]. unfold len. rewrite length_drop. lia.
Qed.

(** The files differ in the checkpoint only. *)
Definition checkpointed fs fs' (b : bytes) : Prop :=
  forall p, fs' !! p = if decide (p = checkpoint_path) then Some b else fs !! p.

Lemma checkpointed_segment fs fs' b n l : checkpointed fs fs' b -> segment fs n l -> segment fs' n l.
Proof.
  intros Hc Hs i sb Hi. destruct (Hs i sb Hi) as ((b' & hb & Hb & He & Hh & Hhb) & Hrest).
  split; [|done]. exists b', hb. by rewrite !Hc, !decide_False.
Qed.

Lemma checkpointed_rep fs fs' b policy genesis base anchor l :
  file_rep fs policy genesis base anchor l -> checkpointed fs fs' b -> checkpoint_rep fs' base anchor l ->
  file_rep fs' policy genesis base anchor l.
Proof.
  intros [Hun Htip Hseg Hbn Hhn Hst Hmax Hlk Hcnt Hnd Hcm _] Hc Hck. split; try done.
  - intros n. by rewrite Hc, decide_False.
  - by assert (fs' !! tip_path = fs !! tip_path) as -> by by rewrite Hc, decide_False.
  - by eapply checkpointed_segment.
  - intros n. rewrite Hc, decide_False by done. apply Hbn.
  - intros n. rewrite Hc, decide_False by done. apply Hhn.
Qed.

(** The checkpoint of an empty store above height 0 is its base. *)
Lemma bootstrapped_rep fs fs' b policy genesis anchor record :
  file_rep fs policy genesis 0 anchor [] -> checkpointed fs fs' b -> of_cbor b = Some record ->
  tcr_version record = STATE_FORMAT_VERSION -> 0 < tcm_height (tcr_metadata record) < u64_max ->
  file_rep fs' policy genesis (tcm_height (tcr_metadata record)) (tcm_tip_hash (tcr_metadata record)) [].
Proof.
  intros [Hun Htip _ Hbn Hhn _ _ _ _ _ _ _] Hc Hr Hv Hh. split; try done.
  - intros n. by rewrite Hc, decide_False.
  - by rewrite decide_True, Hc, decide_False by done.
  - intros n. rewrite Hc, decide_False by done. apply Hbn.
  - intros n. rewrite Hc, decide_False by done. apply Hhn.
  - lia.
  - unfold len. cbn [length]. lia.
  - constructor.
  - unfold checkpoint_rep. rewrite Hc, decide_True by done. exists record. cbn zeta.
    rewrite N.sub_diag. change (len []) with 0. split_and!; try done; lia || by right.
Qed.

Lemma checkpoint_store_rep fs st policy genesis base anchor l state ops m :
  store_rep fs st policy genesis base anchor l -> base = 0 \/ l = [] ->
  disk_write_trusted_checkpoint st state = (ops, Ok m) ->
  store_rep (apply_ops fs ops) st policy genesis base anchor l.
Proof.
  intros (Hr & Hpol & Hgen & k & Hw) Hor Hck. split_and!; [|done|done|by exists k].
  destruct (checkpoint_files_Ok _ _ _ _ Hck) as (b & -> & Hm & Hb).
  destruct (checkpoint_metadata_Ok _ _ _ Hm) as (_ & Hh & Hhash & _).
  destruct (window_height _ _ _ _ _ Hw) as [Hch Hcp]. rewrite Hch in Hh. rewrite Hcp in Hhash.
  pose proof (fun p => checkpoint_ops_effect fs b p (fr_unstaged _ _ _ _ _ _ Hr)) as He.
  eapply checkpointed_rep; [done|done|]. unfold checkpoint_rep. rewrite He, decide_True by done.
  eexists. split; [done|]. cbn [tcr_version tcr_metadata]. rewrite Hh, Hhash. split_and!; [done|unfold len; lia|lia| |].
  - destruct Hor as [?| ->]; [by left|right]. unfold len. cbn. lia.
  - f_equal. symmetry. apply take_ge. unfold len. lia.
Qed.

(** ** A tail of blocks *)

(** The tail of blocks that is still to be written. *)
Record tail_fits (policy : option CommitQuorumPolicy) (base : N) (anchor : bytes) pre l : Prop := {
  tf_linked : linked anchor base (pre ++ l);
  tf_hashes : NoDup (sb_hash <$> pre ++ l);
  tf_max : base + len (pre ++ l) < u64_max;
  tf_counted : Forall counted l;
  tf_readable : Forall readable l;
  tf_commits : Forall (fun sb => check_commit (sb_block sb) policy = Ok tt) l
}.

Lemma tail_step fs policy genesis base anchor pre sb rest ops :
  file_rep fs policy genesis base anchor pre -> tail_fits policy base anchor pre (sb :: rest) ->
  persist_stored_block sb = (ops, Ok tt) ->
  file_rep (apply_ops fs ops) policy genesis base anchor (pre ++ [sb]) /\
  tail_fits policy base anchor (pre ++ [sb]) rest.
Proof.
  intros Hr [Hl Hnd Hmax Hc Hrd Hcm] Hp. apply Forall_cons in Hc as [Hcsb Hc], Hrd as [Hrsb Hrd], Hcm as [Hcmsb Hcm].
  destruct (persist_files_Ok _ _ Hp) as (b & hb & tb & Hb & Hhb & Htb & ->).
  pose proof (fits_tail _ _ _ _ _ Hl Hcsb Hrsb) as Hfit. split.
  - eapply persisted_rep; try done.
    + apply persist_effect, (fr_unstaged _ _ _ _ _ _ Hr).
    + rewrite fmap_app in Hnd. apply NoDup_app in Hnd as (_ & Hd & _). intros Hin. apply (Hd _ Hin). by left.
    + rewrite (fi_height _ _ _ _ Hfit). rewrite len_app, len_cons in Hmax. lia.
  - split; rewrite <-?app_assoc; done.
Qed.

Lemma persist_all_rep fs policy genesis base anchor pre rest ops :
  file_rep fs policy genesis base anchor pre -> tail_fits policy base anchor pre rest ->
  persist_all rest = (ops, Ok tt) ->
  file_rep (apply_ops fs ops) policy genesis base anchor (pre ++ rest).
Proof.
  revert fs pre ops. induction rest as [|sb rest IH]; intros fs pre ops Hr Ht Hp.
  { injection Hp as <-. by rewrite app_nil_r. }
  cbn [persist_all mbind FsM_bind] in Hp. destruct (persist_stored_block sb) as [ops1 [[]| |]] eqn:Hp1; [|done..].
  destruct (persist_all rest) as [ops2 r2] eqn:Hp2. cbn in Hp. injection Hp as <- ->.
  destruct (tail_step _ _ _ _ _ _ _ _ _ Hr Ht Hp1) as [Hr1 Ht1].
  rewrite apply_ops_app, cons_middle, app_assoc. by apply IH.
Qed.

(** Writing a tail that stops on the way, also by an error, leaves some of its blocks
    or a staged file. *)
Lemma persist_all_stops fs policy genesis base anchor pre rest fs' :
  file_rep fs policy genesis base anchor pre -> tail_fits policy base anchor pre rest ->
  stops_at (persist_all rest).1 fs fs' ->
  staged fs' \/ exists i, file_rep fs' policy genesis base anchor (pre ++ take i rest).
Proof.
  revert fs pre. induction rest as [|sb rest IH]; intros fs pre Hr Ht Hs.
  { right. exists 0%nat. rewrite app_nil_r. by inversion Hs; subst. }
  cbn [persist_all mbind FsM_bind] in Hs. pose proof (persist_guarded sb) as Hg.
  destruct (persist_stored_block sb) as [ops1 r1] eqn:Hp1. cbn [fst snd] in *.
  assert (fs' = fs -> staged fs' \/ exists i, file_rep fs' policy genesis base anchor (pre ++ take i (sb :: rest)))
    as Hzero by (intros ->; right; exists 0%nat; by rewrite app_nil_r).
  destruct r1 as [[]| |]; cbn [fst snd] in Hs.
  - destruct (tail_step _ _ _ _ _ _ _ _ _ Hr Ht Hp1) as [Hr1 Ht1].
    apply stops_app in Hs as [Hs|Hs].
    + destruct (Hg _ _ Hs) as [?|[->|?]]; [by auto| |by left]. right. exists 1%nat. exact Hr1.
    + destruct (IH _ _ Hr1 Ht1 Hs) as [?|[i Hi]]; [by left|]. right. exists (S i).
      cbn [take]. by rewrite cons_middle, app_assoc.
  - destruct (failed_stops _ _ _ (persist_failed _ _ _ Hp1 ltac:(done)) Hs); [by auto|by left].
  - destruct (failed_stops _ _ _ (persist_failed _ _ _ Hp1 ltac:(done)) Hs); [by auto|by left].
Qed.

(** ** Bootstrap from a snapshot *)

Lemma disk_check_tail_Ok st base tail_bytes c tail :
  chain_rep base [] -> foldM (disk_check_tail_block st) (base, []) tail_bytes = Ok (c, tail) ->
  chain_rep c tail /\ ch_anchor_prev_hash c = ch_anchor_prev_hash base /\
  ch_base_height c = ch_base_height base /\ Forall counted tail /\
  Forall (fun sb => check_commit (sb_block sb) (dk_commit_policy st) = Ok tt) tail /\
  Forall (fun sb => exists b, b ∈ tail_bytes /\ disk_decode_block_bytes b = Ok sb) tail.
Proof.
  intros Hb. apply (foldM_invariant _ (fun acc =>
    chain_rep acc.1 acc.2 /\ ch_anchor_prev_hash acc.1 = ch_anchor_prev_hash base /\
    ch_base_height acc.1 = ch_base_height base /\ Forall counted acc.2 /\
    Forall (fun sb => check_commit (sb_block sb) (dk_commit_policy st) = Ok tt) acc.2 /\
    Forall (fun sb => exists b, b ∈ tail_bytes /\ disk_decode_block_bytes b = Ok sb) acc.2)); [|done].
  intros [c1 l1] b [c2 l2] Hin (Hr & Ha & Hh & Hc & Hp & Hf) Hs. unfold disk_check_tail_block in Hs.
  apply bind_Ok in Hs as (sb & Hsb & Hs). apply bind_Ok in Hs as ([] & Hv & Hs).
  apply bind_Ok in Hs as ([trial md] & Happ%map_err_Ok & [= <- <-]).
  destruct (append_settled _ _ _ _ _ _ _ (rep_mem _ _ Hr) Happ) as (-> & _ & Hcnt & _).
  destruct (append_rep _ _ _ _ _ Hr Happ) as (_ & _ & Hr'). cbn in *.
  split_and!; try done; apply Forall_app; (split; [done|]); apply Forall_singleton; eauto.
Qed.

(** The operations of a bootstrap, whatever its result. *)
Lemma bootstrap_shape st snapshot tail_bytes chain_id :
  let m := disk_bootstrap_from_external_snapshot st snapshot tail_bytes chain_id in
  (m.1 = [] /\ forall x, m.2 <> Ok x) \/
  exists md s c tail, chain_height (dk_chain st) = 0 /\ validate_snapshot snapshot chain_id = Ok (md, s) /\
    foldM (disk_check_tail_block st) (ChainStore_new_with_base (tcm_tip_hash md) (tcm_height md), [])
      tail_bytes = Ok (c, tail) /\
    m.1 = checkpoint_ops snapshot ++ (persist_all tail).1 /\
    forall x, m.2 = Ok x -> (persist_all tail).2 = Ok tt /\ x = (with_chain st c, md).
Proof.
  cbn zeta. unfold disk_bootstrap_from_external_snapshot, lift.
  destruct (N.eqb_spec (chain_height (dk_chain st)) 0) as [Hz|]; [|by left].
  cbn [ensure mbind FsM_bind fst snd app].
  destruct (validate_snapshot snapshot chain_id) as [[md s]| |] eqn:Hv; [|by left..].
  cbn [mbind FsM_bind fst snd app].
  destruct (foldM _ _ tail_bytes) as [[c tail]| |] eqn:Hf; [|by left..]. right. exists md, s, c, tail.
  do 3 (split; [done|]). unfold write_raw_bytes, rename, perform.
  cbn [mbind FsM_bind mret FsM_ret fst snd app].
  destruct (persist_all tail) as [ops [[]| |]]; cbn; rewrite ?app_nil_r; (split; [done|]); [|done..].
  intros x [= <-]. done.
Qed.

(** The blocks of a tail that fit a base. *)
Lemma checked_tail st md c tail tail_bytes :
  foldM (disk_check_tail_block st) (ChainStore_new_with_base (tcm_tip_hash md) (tcm_height md), [])
    tail_bytes = Ok (c, tail) ->
  (forall b sb, b ∈ tail_bytes -> disk_decode_block_bytes b = Ok sb -> readable sb) ->
  0 < tcm_height md < u64_max -> chain_height c < u64_max ->
  tail_fits (dk_commit_policy st) (tcm_height md) (tcm_tip_hash md) [] tail /\
  window_rep (with_chain st c) (tcm_height md) (tcm_tip_hash md) 0 tail.
Proof.
  intros Hf Hr Hh Hmax.
  destruct (disk_check_tail_Ok _ _ _ _ _ (rep_empty (tcm_tip_hash md) (tcm_height md) ltac:(lia)) Hf) as (Hc & Ha & Hb & Hcnt & Hp & Hdec).
  cbn in Ha, Hb. rewrite (rep_height _ _ Hc), Hb in Hmax. split.
  - split; cbn [app]; try done.
    + pose proof (cr_linked _ _ Hc) as Hl. by rewrite Ha, Hb in Hl.
    + apply (cr_hashes _ _ Hc).
    + eapply Forall_impl; [exact Hdec|]. cbn. intros sb (b & Hin & Hd). by eapply Hr.
  - split_and!; cbn [dk_chain with_chain]; [by rewrite drop_0|done|by rewrite N.add_0_r|lia].
Qed.

Lemma empty_store_rep fs st policy genesis base anchor l :
  store_rep fs st policy genesis base anchor l -> chain_height (dk_chain st) = 0 -> base = 0 /\ l = [].
Proof.
  intros (_ & _ & _ & k & Hw) Hz. destruct (window_height _ _ _ _ _ Hw) as [Hh _].
  split; [lia|]. destruct l; [done|]. unfold len in Hh. cbn in Hh. lia.
Qed.

(** The snapshot is written, its tail not yet. *)
Lemma bootstrap_first fs st policy genesis base anchor l snapshot chain_id md s :
  store_rep fs st policy genesis base anchor l -> chain_height (dk_chain st) = 0 ->
  validate_snapshot snapshot chain_id = Ok (md, s) -> 0 < tcm_height md < u64_max ->
  file_rep (apply_ops fs (checkpoint_ops snapshot)) policy genesis (tcm_height md) (tcm_tip_hash md) [].
Proof.
  intros Hst Hz Hv Hh. destruct (empty_store_rep _ _ _ _ _ _ _ Hst Hz) as [-> ->].
  destruct (validate_snapshot_Ok _ _ _ _ Hv) as (record & Hrec & Hver & <- & _).
  destruct Hst as (Hr & _). eapply bootstrapped_rep; [done| |done|done|done].
  intros p. apply checkpoint_ops_effect, (fr_unstaged _ _ _ _ _ _ Hr).
Qed.

Lemma bootstrap_store_rep fs st policy genesis base anchor l snapshot tail_bytes chain_id ops st' md :
  store_rep fs st policy genesis base anchor l ->
  disk_bootstrap_from_external_snapshot st snapshot tail_bytes chain_id = (ops, Ok (st', md)) ->
  0 < tcm_height md < u64_max -> chain_height (dk_chain st') < u64_max ->
  (forall b sb, b ∈ tail_bytes -> disk_decode_block_bytes b = Ok sb -> readable sb) ->
  store_rep (apply_ops fs ops) st' policy genesis (tcm_height md) (tcm_tip_hash md)
    (blocks_in_order (dk_chain st')).
Proof.
  intros Hst Hb Hh Hmax Hr. destruct (bootstrap_shape st snapshot tail_bytes chain_id)
    as [[_ Hno]|(md' & s & c & tail & Hz & Hv & Hf & Hops & Hx)].
  { rewrite Hb in Hno. by destruct (Hno (st', md)). }
  rewrite Hb in Hops, Hx. destruct (Hx _ eq_refl) as [Hp [= -> ->]]. cbn [fst] in Hops. subst ops.
  destruct (checked_tail _ _ _ _ _ Hf Hr Hh Hmax) as [Ht Hw].
  pose proof (rep_blocks_in_order _ _ (proj1 Hw)) as Hbl. rewrite drop_0 in Hbl. rewrite Hbl.
  pose proof (bootstrap_first _ _ _ _ _ _ _ _ _ _ _ Hst Hz Hv Hh) as Hfirst.
  destruct Hst as (_ & Hpol & Hgen & _). rewrite Hpol in Ht. split_and!; [|done|done|by exists 0%nat].
  rewrite apply_ops_app. eapply (persist_all_rep _ _ _ _ _ []); [done|done|].
  by rewrite (surjective_pairing (persist_all tail)), Hp.
Qed.
End file_store.
