(* ===== verification/FileStoreHistory.v ===== *)
(** * Histories of a block store in files.

    [filed] is a directory and a store after any sequence of operations.  The claims:
    the directory opens with the chain that was appended, an operation that is cut short
    is recognised or leaves one of two chains, and a checkpoint on a store that started
    at a snapshot makes it unreadable. *)

From S2P Require Import Prelude Crypto Text Types Cbor Payloads Tx FeeMarket Leaves Store StoreInv.
From S2P Require Import ApplyAccounts ApplyValidators Governance Archival ApplyTx Mempool Block Chain.
From S2P Require Import ChainInv Recovery RecoveryProps Commit Records RecordsProps Upgrade Storage.
From S2P Require Import StorageRep StorageProps StorageHistory FileStore FileStoreRep FileStoreProps.

Section histories.
Context `{Ciborium, Shake, Verifier} {hex : Hex}.
Context `{!Serde StoredBlockRecord, !Serde TrustedCheckpointRecord}.
Context `{!Serde TipRecord, !Serde HashIndexRecord}.
Context `{!SerdeLaws StoredBlockRecord, !SerdeLaws TrustedCheckpointRecord}.
Context `{!SerdeLaws TipRecord, !SerdeLaws HashIndexRecord}.
Implicit Types (fs : Fs) (st : DiskChainStore) (l : list StoredBlock) (sb : StoredBlock).

(** ** Reading *)

Lemma read_file_rep fs policy genesis base anchor l h :
  file_rep fs policy genesis base anchor l -> h <= u64_max ->
  read_stored_block_from_disk fs h = Ok (block_at base 0 l h).
Proof.
  intros Hr Hh. unfold read_stored_block_from_disk, block_at, read_cbor, decode_cbor_slice.
  rewrite (block_file_there _ _ _ _ _ _ _ Hr Hh). rewrite (proj2 (N.leb_le 0 h)) by lia. rewrite andb_true_r.
  destruct (N.ltb_spec base h) as [Hlt|]; [|done]. cbn [andb].
  destruct (N.leb_spec h (base + len l)) as [Hle|Hgt]; cbn [negb].
  - destruct (l !! N.to_nat (h - base - 1)) as [sb|] eqn:Hl;
      [|apply lookup_ge_None_1 in Hl; unfold len in *; lia].
    destruct (segment_file _ _ _ _ _ (fr_segment _ _ _ _ _ _ Hr) Hl) as (b & record & Hb & Hrec & Hinto & _).
    replace (base + N.of_nat _ + 1) with h in Hb, Hinto by lia. rewrite Hb. cbn [ok_or mbind outcome_bind].
    rewrite Hrec. cbn [ok_or mbind outcome_bind]. by rewrite Hinto.
  - by rewrite lookup_ge_None_2 by (unfold len in *; lia).
Qed.

Lemma read_store_rep fs st policy genesis base anchor l h :
  store_rep fs st policy genesis base anchor l -> h <= u64_max ->
  disk_read_stored_block_at_height fs st h = Ok (block_at base 0 l h).
Proof.
  intros (Hr & _ & _ & k & Hc & Ha & Hb & Hk) Hh. unfold disk_read_stored_block_at_height.
  rewrite (mem_get _ _ _ _ h (rep_mem _ _ Hc)), Hb, (read_file_rep _ _ _ _ _ _ _ Hr Hh).
  destruct (N.ltb_spec (base + N.of_nat k) h) as [Hlt|]; [|done].
  rewrite lookup_drop. unfold block_at. rewrite (proj2 (N.leb_le 0 h)) by lia. rewrite (proj2 (N.ltb_lt base h)) by lia.
  replace (k + N.to_nat (h - (base + N.of_nat k) - 1))%nat with (N.to_nat (h - base - 1)) by lia.
  by destruct (l !! _).
Qed.

(** ** Histories *)

Context (policy : option CommitQuorumPolicy) (genesis : bytes).

(** A directory, the store that has it open, and the chain [l] above [base] that was
    appended.  The hash of a block is new; a trusted block satisfies the commit policy
    that the others are checked against. *)
Inductive filed : Fs -> DiskChainStore -> N -> bytes -> list StoredBlock -> Prop :=
  | filed_open st : open_internal ∅ genesis policy = Ok st -> filed ∅ st 0 genesis []
  | filed_append fs st base anchor l sb ops st' m :
      filed fs st base anchor l -> readable sb -> sb_hash sb ∉ sb_hash <$> l ->
      md_height (sb_metadata sb) < u64_max -> disk_append_stored_block st sb = (ops, Ok (st', m)) ->
      filed (apply_ops fs ops) st' base anchor (l ++ [sb])
  | filed_execution fs st base anchor l exe ops st' m :
      filed fs st base anchor l -> readable (stored_of exe) -> sb_hash (stored_of exe) ∉ sb_hash <$> l ->
      md_height (sb_metadata (stored_of exe)) < u64_max -> disk_append_block st exe = (ops, Ok (st', m)) ->
      filed (apply_ops fs ops) st' base anchor (l ++ [stored_of exe])
  | filed_trusted fs st base anchor l exe ops st' m :
      filed fs st base anchor l -> readable (stored_of exe) -> sb_hash (stored_of exe) ∉ sb_hash <$> l ->
      md_height (sb_metadata (stored_of exe)) < u64_max -> check_commit (exe_block exe) policy = Ok tt ->
      disk_append_block_trusted st exe = (ops, Ok (st', m)) ->
      filed (apply_ops fs ops) st' base anchor (l ++ [stored_of exe])
  | filed_checkpoint fs st base anchor l state ops m :
      filed fs st base anchor l -> base = 0 \/ l = [] ->
      disk_write_trusted_checkpoint st state = (ops, Ok m) -> filed (apply_ops fs ops) st base anchor l
  | filed_bootstrap fs st base anchor l snapshot tail_bytes chain_id ops st' m :
      filed fs st base anchor l ->
      disk_bootstrap_from_external_snapshot st snapshot tail_bytes chain_id = (ops, Ok (st', m)) ->
      0 < tcm_height m < u64_max -> chain_height (dk_chain st') < u64_max ->
      (forall b sb, b ∈ tail_bytes -> disk_decode_block_bytes b = Ok sb -> readable sb) ->
      filed (apply_ops fs ops) st' (tcm_height m) (tcm_tip_hash m) (blocks_in_order (dk_chain st'))
  | filed_reopen fs st base anchor l st' :
      filed fs st base anchor l -> open_internal fs genesis policy = Ok st' -> filed fs st' base anchor l.

Lemma empty_file_rep : file_rep ∅ policy genesis 0 genesis [].
Proof.
  split; try done; try constructor.
  - intros n [b Hb]. by rewrite lookup_empty in Hb.
  - intros n [b Hb]. by rewrite lookup_empty in Hb.
Qed.

Lemma reopened_rep fs base anchor l st :
  file_rep fs policy genesis base anchor l -> open_internal fs genesis policy = Ok st ->
  store_rep fs st policy genesis base anchor l.
Proof.
  intros Hr Ho. destruct (file_open_rep _ _ _ _ _ _ Hr) as (st' & Ho' & Hp & Hg & Hw).
  rewrite Ho in Ho'. injection Ho' as <-. split_and!; [done|done|done|by eexists].
Qed.

Lemma filed_rep fs st base anchor l : filed fs st base anchor l -> store_rep fs st policy genesis base anchor l.
Proof.
  induction 1 as [st Ho|fs st base anchor l sb ops st' m _ IH Hr Hf Hm Ha|fs st base anchor l exe ops st' m _ IH Hr Hf Hm Ha
    |fs st base anchor l exe ops st' m _ IH Hr Hf Hm Hc Ha|fs st base anchor l state ops m _ IH Hor Hc
    |fs st base anchor l snapshot tail_bytes chain_id ops st' m _ IH Hb Hh Hmax Hr|fs st base anchor l st' _ IH Ho].
  - apply reopened_rep; [apply empty_file_rep|done].
  - destruct (append_stored_appends st sb) as [Happ Hc]. rewrite Ha in Happ.
    apply Hc in Ha. rewrite (proj1 (proj2 IH)) in Ha. by eapply appends_rep.
  - destruct (append_execution_appends st exe) as [Happ Hc]. rewrite Ha in Happ.
    apply Hc in Ha. rewrite (proj1 (proj2 IH)) in Ha. by eapply appends_rep.
  - pose proof (append_inner_appends st exe) as Happ. unfold disk_append_block_trusted in Ha.
    rewrite Ha in Happ. by eapply appends_rep.
  - by eapply checkpoint_store_rep.
  - by eapply bootstrap_store_rep.
  - apply reopened_rep; [apply IH|done].
Qed.

(** The directory opens, and every height reads as the chain [l] above [base] has it. *)
Definition opens_with fs (base : N) (anchor : bytes) l : Prop := exists st,
  open_internal fs genesis policy = Ok st /\
  chain_height (dk_chain st) = base + len l /\ expected_prev_hash (dk_chain st) = last_hash anchor l /\
  blocks_in_order (dk_chain st) = drop (below_window fs base l) l /\
  forall h, h <= u64_max -> disk_read_stored_block_at_height fs st h = Ok (block_at base 0 l h).

Lemma file_rep_opens fs base anchor l :
  file_rep fs policy genesis base anchor l -> opens_with fs base anchor l.
Proof.
  intros Hr. destruct (file_open_rep _ _ _ _ _ _ Hr) as (st & Ho & Hp & Hg & Hw). exists st.
  destruct (window_height _ _ _ _ _ Hw) as [Hh Hx]. split_and!; try done.
  - by apply rep_blocks_in_order, Hw.
  - intros h. eapply read_store_rep. split_and!; try done. by eexists.
Qed.

(** A block store in files gives back what was appended.  After any history of
    openings, appended blocks, checkpoints and a bootstrap from a snapshot, opening the
    directory succeeds; the store that is opened has the height and the tip hash of the
    one that was running, keeps the blocks above the checkpoint in memory, and both read
    the block that was appended at every height. *)
Lemma file_store_reopens fs st base anchor l :
  filed fs st base anchor l ->
  opens_with fs base anchor l /\
  chain_height (dk_chain st) = base + len l /\ expected_prev_hash (dk_chain st) = last_hash anchor l /\
  forall h, h <= u64_max -> disk_read_stored_block_at_height fs st h = Ok (block_at base 0 l h).
Proof.
  intros Hst%filed_rep. pose proof Hst as (Hr & _ & _ & k & Hw).
  destruct (window_height _ _ _ _ _ Hw) as [Hh Hx]. split_and!; try done.
  - by apply file_rep_opens.
  - intros h. by eapply read_store_rep.
Qed.

(** The directory is recognised as incomplete, or it opens with one of two chains. *)
Definition recovers fs base anchor l base' anchor' l' : Prop :=
  open_internal fs genesis policy = Err StorageError.IncompleteWriteDetected \/
  opens_with fs base anchor l \/ opens_with fs base' anchor' l'.

Lemma appends_stop fs st base anchor l sb m fs' :
  store_rep fs st policy genesis base anchor l -> readable sb -> sb_hash sb ∉ sb_hash <$> l ->
  md_height (sb_metadata sb) < u64_max -> check_commit (sb_block sb) policy = Ok tt ->
  appends st sb m -> stops_at m.1 fs fs' -> recovers fs' base anchor l base anchor (l ++ [sb]).
Proof.
  intros Hst Hr Hf Hm Hc Ha Hs. pose proof Hst as (Hrep & _).
  destruct m as [ops r]. destruct (appends_guarded _ _ _ Ha _ _ Hs) as [->|[->|Hstg]].
  - right. left. by apply file_rep_opens.
  - destruct r as [[st' md]| |]; [right; right; by apply file_rep_opens; eapply appends_rep| |];
      (destruct Ha as [[Hnil _]|(c & md & _ & He)]; [cbn in *; subst; right; left; by apply file_rep_opens|]);
      cbn [mbind FsM_bind mret FsM_ret] in He;
      destruct (persist_stored_block sb) as [ops' [[]| |]] eqn:Hp; cbn in He; simplify_eq;
      (destruct (failed_stops _ _ _ (persist_failed _ _ _ Hp ltac:(done)) Hs) as [He|Hstg];
       [rewrite He; right; left; by apply file_rep_opens|left; by apply open_staged]).
  - left. by apply open_staged.
Qed.

Lemma stopped_early fs st base anchor l sb fs' :
  store_rep fs st policy genesis base anchor l -> stops_at [] fs fs' ->
  recovers fs' base anchor l base anchor (l ++ [sb]).
Proof. intros (Hr & _) Hs. inversion Hs; subst. right. left. by apply file_rep_opens. Qed.

Lemma append_stored_stop fs st base anchor l sb fs' :
  store_rep fs st policy genesis base anchor l -> readable sb -> sb_hash sb ∉ sb_hash <$> l ->
  md_height (sb_metadata sb) < u64_max -> stops_at (disk_append_stored_block st sb).1 fs fs' ->
  recovers fs' base anchor l base anchor (l ++ [sb]).
Proof.
  intros Hst Hr Hf Hm Hs. pose proof (proj1 (proj2 Hst)) as Hp.
  destruct (check_commit (sb_block sb) policy) as [[]| |] eqn:Hc.
  - eapply appends_stop; try done. apply append_stored_appends.
  - unfold disk_append_stored_block, validate_commit_proof in Hs. rewrite Hp, Hc in Hs. by eapply stopped_early.
  - unfold disk_append_stored_block, validate_commit_proof in Hs. rewrite Hp, Hc in Hs. by eapply stopped_early.
Qed.

Lemma append_execution_stop fs st base anchor l exe fs' :
  store_rep fs st policy genesis base anchor l -> readable (stored_of exe) ->
  sb_hash (stored_of exe) ∉ sb_hash <$> l -> md_height (sb_metadata (stored_of exe)) < u64_max ->
  stops_at (disk_append_block st exe).1 fs fs' ->
  recovers fs' base anchor l base anchor (l ++ [stored_of exe]).
Proof.
  intros Hst Hr Hf Hm Hs. pose proof (proj1 (proj2 Hst)) as Hp.
  destruct (check_commit (exe_block exe) policy) as [[]| |] eqn:Hc.
  - eapply appends_stop; try done. apply append_execution_appends.
  - unfold disk_append_block, validate_commit_proof in Hs. rewrite Hp, Hc in Hs. by eapply stopped_early.
  - unfold disk_append_block, validate_commit_proof in Hs. rewrite Hp, Hc in Hs. by eapply stopped_early.
Qed.

(** A checkpoint that fails leaves at most its staged file. *)
Lemma checkpoint_failed st state ops r :
  disk_write_trusted_checkpoint st state = (ops, r) -> (forall m, r <> Ok m) -> Forall stages ops.
Proof.
  unfold disk_write_trusted_checkpoint, write_cbor, lift.
  destruct (checkpoint_metadata _ _) as [m'| |]; [|by intros [= <- <-] _..].
  cbn [mbind FsM_bind fst snd perform app].
  destruct (to_cbor _) as [b|]; cbn [ok_or mbind FsM_bind fst snd perform app rename mret FsM_ret].
  - intros [= <- <-] Hno. by destruct (Hno m').
  - intros [= <- <-] _. by repeat constructor.
Qed.

(** A checkpoint destroys a store that started at a snapshot.  Such a store has no
    block 1, so opening it takes the checkpoint for the snapshot it started from; once
    a checkpoint is written above blocks it holds, those blocks are unexpected files and
    the directory can no longer be opened. *)
Lemma snapshot_store_checkpoint_unreadable fs st base anchor l state ops m :
  store_rep fs st policy genesis base anchor l -> 0 < base -> l <> [] ->
  disk_write_trusted_checkpoint st state = (ops, Ok m) -> exists name,
  open_internal (apply_ops fs ops) genesis policy = Err (StorageError.UnexpectedBlockFile name).
Proof.
  intros (Hr & _ & _ & k & Hw) Hpos Hl Hck. pose proof (fr_max _ _ _ _ _ _ Hr) as Hmax.
  destruct (checkpoint_files_Ok _ _ _ _ Hck) as (b & -> & Hm & Hb).
  destruct (checkpoint_metadata_Ok _ _ _ Hm) as (_ & Hh & _). destruct (window_height _ _ _ _ _ Hw) as [Hch _].
  rewrite Hch in Hh. set (fs' := apply_ops fs (checkpoint_ops b)).
  assert (checkpointed fs fs' b) as He.
  { intros p. apply checkpoint_ops_effect, (fr_unstaged _ _ _ _ _ _ Hr). }
  assert (forall p, p <> checkpoint_path -> fs' !! p = fs !! p) as Hsame by (intros; by rewrite He, decide_False).
  assert (forall p, p <> checkpoint_path -> exists_file fs' p = exists_file fs p) as Hex.
  { intros p Hp. unfold exists_file. by rewrite Hsame. }
  unfold open_internal, read_snapshot_base_if_present, read_cbor, decode_cbor_slice.
  rewrite (bool_decide_true (dir_entries fs' Dir.Staging = [])).
  2:{ apply dir_entries_nil. intros n. rewrite Hsame by done. apply (fr_unstaged _ _ _ _ _ _ Hr). }
  cbn [ensure mbind outcome_bind].
  rewrite (Hex (block_path 1)), (Hex tip_path) by done. rewrite (block_file_there _ _ _ _ _ _ 1 Hr), (proj2 (N.ltb_ge base 1)) by lia.
  assert (fs' !! checkpoint_path = Some b) as Hcp by by rewrite He, decide_True.
  cbn [andb negb]. rewrite (exists_file_Some _ _ _ Hcp), Hcp. cbn [negb ok_or mbind outcome_bind]. rewrite Hb.
  cbn [ok_or tcr_version tcr_metadata]. rewrite check_version_current, Hh. cbn [mbind outcome_bind].
  rewrite (proj2 (N.eqb_neq (base + len l) 0)) by lia. cbn [mbind outcome_bind next_height].
  unfold add_checked. rewrite (proj2 (N.leb_le _ _)) by lia. cbn [mbind outcome_bind from_option id].
  rewrite (bool_decide_false (Some _ = None)) by done. cbn [mbind outcome_bind from_option id next_height].
  pose proof (fr_tip _ _ _ _ _ _ Hr) as Ht. rewrite decide_False in Ht by done. destruct Ht as (tb & Htb & Htip).
  rewrite (exists_file_Some _ _ _ Htb), Hsame, Htb by done. cbn [negb ok_or mbind outcome_bind]. rewrite Htip.
  cbn [ok_or mbind outcome_bind tip_height]. rewrite heights_nil by lia. cbn [foldM mbind outcome_bind].
  destruct (inventory_extra fs' Dir.Blocks ∅ StorageError.UnexpectedBlockFile (block_file_name (base + 1)))
    as (name & -> & _); [|set_solver|by exists name].
  rewrite Hsame by done. destruct l as [|sb l]; [done|].
  destruct (segment_file _ _ _ 0 sb (fr_segment _ _ _ _ _ _ Hr) eq_refl) as (b' & _ & Hb' & _).
  rewrite N.add_0_r in Hb'. by exists b'.
Qed.
(** A finished checkpoint, as the directory shows it. *)
Lemma checkpoint_done fs st base anchor l state ops m :
  store_rep fs st policy genesis base anchor l -> disk_write_trusted_checkpoint st state = (ops, Ok m) ->
  opens_with (apply_ops fs ops) base anchor l \/
  (0 < base /\ l <> [] /\ exists name,
     open_internal (apply_ops fs ops) genesis policy = Err (StorageError.UnexpectedBlockFile name)).
Proof.
  intros Hst Hw. destruct (decide (base = 0 \/ l = [])) as [Hor|Hn].
  - left. destruct (checkpoint_store_rep _ _ _ _ _ _ _ _ _ _ Hst Hor Hw) as (Hr & _). by apply file_rep_opens.
  - right. assert (0 < base /\ l <> []) as [Hb Hl] by (split; [|intros ->]; [destruct (N.eq_0_gt_0_cases base)|]; tauto).
    split_and!; [done|done|]. by eapply snapshot_store_checkpoint_unreadable.
Qed.

Lemma checkpoint_stop fs st base anchor l state fs' :
  store_rep fs st policy genesis base anchor l ->
  stops_at (disk_write_trusted_checkpoint st state).1 fs fs' ->
  recovers fs' base anchor l base anchor l \/
  (0 < base /\ l <> [] /\ fs' = apply_ops fs (disk_write_trusted_checkpoint st state).1 /\
   exists name, open_internal fs' genesis policy = Err (StorageError.UnexpectedBlockFile name)).
Proof.
  intros Hst Hs. pose proof Hst as (Hr & _).
  destruct (disk_write_trusted_checkpoint st state) as [ops r] eqn:Hw. cbn [fst] in *.
  assert ((forall m, r <> Ok m) -> recovers fs' base anchor l base anchor l) as Hfail.
  { intros Hno. destruct (failed_stops _ _ _ (checkpoint_failed _ _ _ _ Hw Hno) Hs) as [->|?];
      [right; left; by apply file_rep_opens|left; by apply open_staged]. }
  destruct r as [m|e|]; [|left; by apply Hfail..].
  pose proof (checkpoint_done _ _ _ _ _ _ _ _ Hst Hw) as Hd.
  destruct (checkpoint_files_Ok _ _ _ _ Hw) as (b & -> & _).
  destruct (checkpoint_ops_guarded b _ _ Hs) as [->|[->|?]].
  - left. right. left. by apply file_rep_opens.
  - destruct Hd as [Hd|(? & ? & ?)]; [left; right; by left|by right].
  - left. left. by apply open_staged.
Qed.

Lemma check_tail_length st base acc tail_bytes c tail :
  foldM (disk_check_tail_block st) (base, acc) tail_bytes = Ok (c, tail) ->
  length tail = (length acc + length tail_bytes)%nat.
Proof.
  revert base acc. induction tail_bytes as [|b bs IH]; intros base acc Hf.
  { injection Hf as _ <-. cbn. lia. }
  cbn [foldM] in Hf. apply bind_Ok in Hf as ([c1 l1] & Hs & Hf). apply IH in Hf. rewrite Hf.
  unfold disk_check_tail_block in Hs. apply bind_Ok in Hs as (sb & _ & Hs).
  apply bind_Ok in Hs as ([] & _ & Hs). apply bind_Ok in Hs as ([trial md] & _ & [= _ <-]).
  rewrite length_app. cbn. lia.
Qed.

(** The directory is recognised as incomplete, or it opens with the old chain, or at the
    snapshot with some of the first blocks of the tail. *)
Definition bootstrap_recovers fs base anchor l st snapshot tail_bytes chain_id : Prop :=
  open_internal fs genesis policy = Err StorageError.IncompleteWriteDetected \/
  opens_with fs base anchor l \/
  exists md s c tail i, validate_snapshot snapshot chain_id = Ok (md, s) /\
    foldM (disk_check_tail_block st) (ChainStore_new_with_base (tcm_tip_hash md) (tcm_height md), [])
      tail_bytes = Ok (c, tail) /\
    opens_with fs (tcm_height md) (tcm_tip_hash md) (take i tail).

(** A bootstrap that stops. *)
Lemma bootstrap_stop fs st base anchor l snapshot tail_bytes chain_id fs' :
  store_rep fs st policy genesis base anchor l ->
  (forall md s, validate_snapshot snapshot chain_id = Ok (md, s) ->
     0 < tcm_height md /\ tcm_height md + len tail_bytes < u64_max) ->
  (forall b sb, b ∈ tail_bytes -> disk_decode_block_bytes b = Ok sb -> readable sb) ->
  stops_at (disk_bootstrap_from_external_snapshot st snapshot tail_bytes chain_id).1 fs fs' ->
  bootstrap_recovers fs' base anchor l st snapshot tail_bytes chain_id.
Proof.
  intros Hst Hh Hr Hs. pose proof Hst as (Hrep & Hpol & _).
  assert (fs' = fs -> bootstrap_recovers fs' base anchor l st snapshot tail_bytes chain_id) as Hzero.
  { intros ->. right. left. by apply file_rep_opens. }
  destruct (bootstrap_shape st snapshot tail_bytes chain_id)
    as [[Hnil _]|(md & s & c & tail & Hz & Hv & Hf & Hops & _)].
  { rewrite Hnil in Hs. apply Hzero. by inversion Hs. }
  destruct (Hh _ _ Hv) as [Hpos Hmax]. rewrite Hops in Hs.
  pose proof (check_tail_length _ _ _ _ _ _ Hf) as Hlen. cbn in Hlen.
  destruct (disk_check_tail_Ok _ _ _ _ _ (rep_empty (tcm_tip_hash md) (tcm_height md) ltac:(lia)) Hf)
    as (Hc & _ & Hb & _). cbn in Hb.
  destruct (checked_tail _ _ _ _ _ Hf Hr) as [Ht _]; [lia| |].
  { rewrite (rep_height _ _ Hc), Hb. unfold len in *. lia. }
  rewrite Hpol in Ht.
  pose proof (bootstrap_first _ _ _ _ _ _ _ _ _ _ _ Hst Hz Hv ltac:(lia)) as Hfirst.
  apply stops_app in Hs as [Hs|Hs].
  - destruct (checkpoint_ops_guarded _ _ _ Hs) as [?|[->|?]]; [by auto| |left; by apply open_staged].
    right. right. exists md, s, c, tail, 0%nat. do 2 (split; [done|]). by apply file_rep_opens.
  - destruct (persist_all_stops _ _ _ _ _ _ _ _ Hfirst Ht Hs) as [?|[i Hi]]; [left; by apply open_staged|].
    right. right. exists md, s, c, tail, i. do 2 (split; [done|]). by apply file_rep_opens.
Qed.

(** C13 What a write that is cut short leaves behind.  Wherever an append of a received or produced
    block, a checkpoint or a bootstrap stops, in the middle of writing a file or between two file
    operations, the directory is either refused as incomplete when it is opened, or it opens with
    the chain before the operation, or with the chain after it; a bootstrap that stops may also
    leave the snapshot with some of the tail.  There is one exception: a checkpoint of a store that
    started at a snapshot and holds blocks, once all its files are written, leaves a directory
    that is refused with [UnexpectedBlockFile]; histories that contain such a checkpoint are
    left out.  The blocks are those whose transactions are read back, with the recorded hash, from
    their encoding; their hash is new and their height below the maximum of [u64], and a trusted
    block of the history satisfies the commit policy; a snapshot is above height 0. *)
Theorem interrupted_write_recovers fs st base anchor l :
  filed fs st base anchor l ->
  (forall sb fs', readable sb -> sb_hash sb ∉ sb_hash <$> l -> md_height (sb_metadata sb) < u64_max ->
     stops_at (disk_append_stored_block st sb).1 fs fs' ->
     recovers fs' base anchor l base anchor (l ++ [sb])) /\
  (forall exe fs', readable (stored_of exe) -> sb_hash (stored_of exe) ∉ sb_hash <$> l ->
     md_height (sb_metadata (stored_of exe)) < u64_max ->
     stops_at (disk_append_block st exe).1 fs fs' ->
     recovers fs' base anchor l base anchor (l ++ [stored_of exe])) /\
  (forall state fs', stops_at (disk_write_trusted_checkpoint st state).1 fs fs' ->
     recovers fs' base anchor l base anchor l \/
     (0 < base /\ l <> [] /\ fs' = apply_ops fs (disk_write_trusted_checkpoint st state).1 /\
      exists name, open_internal fs' genesis policy = Err (StorageError.UnexpectedBlockFile name))) /\
  (forall snapshot tail_bytes chain_id fs',
     (forall md s, validate_snapshot snapshot chain_id = Ok (md, s) ->
        0 < tcm_height md /\ tcm_height md + len tail_bytes < u64_max) ->
     (forall b sb, b ∈ tail_bytes -> disk_decode_block_bytes b = Ok sb -> readable sb) ->
     stops_at (disk_bootstrap_from_external_snapshot st snapshot tail_bytes chain_id).1 fs fs' ->
     bootstrap_recovers fs' base anchor l st snapshot tail_bytes chain_id).
Proof.
  intros Hst%filed_rep. split_and!; intros.
  - by eapply append_stored_stop.
  - by eapply append_execution_stop.
  - by eapply checkpoint_stop.
  - by eapply bootstrap_stop.
Qed.

End histories.
