(* ===== verification/MigrationProps.v ===== *)
(** * The migration from files to RocksDB.

    [migrate_store] reads the blocks of a directory one by one, appends them to an empty
    database and copies the checkpoint.  The database opens with the same chain. *)

From S2P Require Import Prelude Crypto Text Types Cbor Payloads Tx FeeMarket Leaves Store StoreInv.
From S2P Require Import ApplyAccounts ApplyValidators Governance Archival ApplyTx TxSpec TxRefine.
From S2P Require Import Invariants Supply Mempool Block BlockInv Chain ChainInv Recovery.
From S2P Require Import StateRoot Examples RecoveryProps Commit Records RecordsProps Upgrade Storage.
From S2P Require Import StorageRep StorageProps StorageHistory RestartProps.
From S2P Require Import FileStore FileStoreRep FileStoreProps FileStoreHistory.

#[local] Arguments state_root : simpl never.
#[local] Arguments compute_block_hash : simpl never.

Section migration.
Context `{Ciborium, Shake, Verifier, RocksDb, !RocksDbLaws} {hex : Hex}.
Context `{!Serde StoredBlockRecord, !Serde TrustedCheckpointRecord}.
Context `{!Serde TipRecord, !Serde HashIndexRecord}.
Context `{!SerdeLaws StoredBlockRecord, !SerdeLaws TrustedCheckpointRecord}.
Context `{!SerdeLaws TipRecord, !SerdeLaws HashIndexRecord}.
Implicit Types (fs : Fs) (st : DiskChainStore) (rdb : RocksDbChainStore) (l : list StoredBlock).

(** No write of the database fails. *)
Context (Hwrites : forall db batch, is_Some (db_write db batch)).

Lemma migrate_block_Ok fs st policy genesis l rdb pre sb rest :
  store_rep fs st policy genesis 0 genesis l -> l = pre ++ sb :: rest -> copied rdb genesis pre ->
  exists rdb', migrate_block fs st rdb (len pre + 1) = Ok rdb' /\ copied rdb' genesis (pre ++ [sb]).
Proof.
  intros Hst Hl Hc. pose proof Hst as (Hr & _). pose proof (fr_max _ _ _ _ _ _ Hr) as Hmax.
  assert (l !! length pre = Some sb) as Hi by by rewrite Hl, list_lookup_middle.
  assert (len pre + 1 <= len l) as Hle by (rewrite Hl, len_app, len_cons; lia).
  destruct (fr_segment _ _ _ _ _ _ Hr _ _ Hi) as ((b & hb & _ & Henc & _) & Hok & Hrd & Hh).
  assert (counted sb) as Hcnt by exact (Forall_lookup_1 _ _ _ _ (fr_counted _ _ _ _ _ _ Hr) Hi).
  pose proof (fr_linked _ _ _ _ _ _ Hr) as Hlk. rewrite Hl in Hlk.
  pose proof (fits_tail _ _ _ _ _ Hlk Hcnt Hrd) as Hfit.
  pose proof (fr_hashes _ _ _ _ _ _ Hr) as Hnd. rewrite Hl, fmap_app in Hnd.
  destruct (append_copied Hwrites rdb genesis pre sb b) as (rdb' & Ha & Hc'); [done|done| |lia|done|].
  { apply NoDup_app in Hnd as (_ & Hdis & _). intros Hin. apply (Hdis _ Hin). by left. }
  exists rdb'. split; [|done].
  unfold migrate_block. rewrite (read_store_rep _ _ _ _ _ _ _ _ Hst) by lia. unfold block_at.
  rewrite (proj2 (N.ltb_lt 0 _)), (proj2 (N.leb_le 0 _)) by lia. cbn [andb mbind outcome_bind].
  replace (N.to_nat (len pre + 1 - 0 - 1)) with (length pre) by (unfold len; lia). rewrite Hi.
  cbn [ok_or mbind outcome_bind]. by rewrite Ha.
Qed.

Lemma migrate_blocks_Ok fs st policy genesis l rdb pre rest :
  store_rep fs st policy genesis 0 genesis l -> l = pre ++ rest -> copied rdb genesis pre ->
  exists rdb', foldM (migrate_block fs st) rdb (heights (len pre + 1) (len l)) = Ok rdb' /\
    copied rdb' genesis l.
Proof.
  intros Hst. revert pre rdb. induction rest as [|sb rest IH]; intros pre rdb Hl Hc.
  { exists rdb. rewrite app_nil_r in Hl. subst l. by rewrite heights_nil by lia. }
  destruct (migrate_block_Ok _ _ _ _ _ _ _ _ _ Hst Hl Hc) as (rdb1 & Hb & Hc1).
  destruct (IH (pre ++ [sb]) rdb1) as (rdb' & Hf & Hc'); [by rewrite <-app_assoc|done|].
  exists rdb'. split; [|done]. rewrite heights_cons by (rewrite Hl, len_app, len_cons; lia).
  cbn [foldM]. rewrite Hb. cbn [mbind outcome_bind]. by rewrite len_app in Hf.
Qed.

(** A checkpoint put under its height among the blocks. *)
Lemma disk_checkpoint_at db db' genesis l b record :
  disk_rep db genesis 0 genesis 0 [] l false -> of_cbor b = Some record ->
  tcr_version record = STATE_FORMAT_VERSION -> 0 < tcm_height (tcr_metadata record) <= len l ->
  tcm_tip_hash (tcr_metadata record) = last_hash genesis (take (N.to_nat (tcm_height (tcr_metadata record))) l) ->
  (forall cf k, db_get db' cf k =
    if decide (cf = Cf.Checkpoints /\ k = height_to_key (tcm_height (tcr_metadata record))) then Some b
    else db_get db cf k) ->
  let n := N.to_nat (tcm_height (tcr_metadata record)) in
  disk_rep db' genesis 0 genesis 0 (take n l) (drop n l) true.
Proof.
  intros [Hgen Hglen Htip Hbase Hst Hmx Hlk Hcnt Hnd Hblk Hkeys Hfst Hhi Hti Hck Hno] Hb Hv Hh Hhash Hdb n.
  assert (forall cf k, cf <> Cf.Checkpoints -> db_get db' cf k = db_get db cf k) as Hsame.
  { intros cf k Hne. rewrite Hdb, decide_False; [done|]. by intros []. }
  set (h := tcm_height (tcr_metadata record)) in *.
  assert (len (take n l) = h) as Hl1 by (subst n; unfold len in *; rewrite length_take; lia).
  assert (len (drop n l) = len l - h) as Hl2 by (subst n; unfold len in *; rewrite length_drop; lia).
  assert (len (@nil StoredBlock) = 0) as Hnil by done. cbn [app] in *. rewrite Hnil in *.
  split; rewrite ?take_drop, ?Hl1, ?Hl2; try done; try lia.
  - by rewrite Hsame.
  - rewrite (proj1 (read_meta_agree _ _ _ (Hsame Cf.Meta META_TIP_HEIGHT ltac:(done)))).
    destruct Htip as (o & Ho & He). exists o. split; [done|]. lia.
  - rewrite (snapshot_base_agree db); [done|]. intros. by apply Hsame.
  - rewrite <-(take_drop n l), fmap_app in Hnd. by apply NoDup_app in Hnd as (_ & _ & ?).
  - intros i sb Hi Hf. rewrite <-(Hblk _ _ Hi Hf). by apply read_block_agree, Hsame.
  - intros k. rewrite Hsame by done. intros (h' & ? & ? & ?)%Hkeys. exists h'. split_and!; done || lia.
  - intros k v. rewrite Hsame by done. apply Hhi.
  - intros k. rewrite Hsame by done. apply Hti.
  - destruct Hck as [Hall Hnone]. split.
    + intros k v. rewrite Hdb. case_decide as Hd.
      * intros [= <-]. exists record. split_and!; [done|done|apply Hd|lia|lia].
      * by rewrite Hnone.
    + exists b, record. split_and!; [by rewrite Hdb, decide_True|done|done|done].
Qed.

(** The database after the checkpoint, if the directory has one, is copied. *)
Lemma migrate_checkpoint_Ok fs policy genesis l rdb :
  file_rep fs policy genesis 0 genesis l -> copied rdb genesis l ->
  (forall b record, fs !! checkpoint_path = Some b -> of_cbor b = Some record ->
     0 < tcm_height (tcr_metadata record)) ->
  exists rdb' l1 l2 any,
  match disk_export_checkpoint_bytes fs with
  | Some checkpoint_bytes => import_checkpoint_for_migration rdb checkpoint_bytes
  | None => Ok rdb
  end = Ok rdb' /\ l1 ++ l2 = l /\
  disk_rep (rk_db rdb') (rk_genesis_anchor rdb') 0 genesis 0 l1 l2 any.
Proof.
  intros Hr [[Hd Hm] Hc] Hpos. unfold disk_export_checkpoint_bytes.
  pose proof (fr_checkpoint _ _ _ _ _ _ Hr) as Hck. unfold checkpoint_rep in Hck.
  destruct (fs !! checkpoint_path) as [b|] eqn:Hf; [|by exists rdb, [], l, false].
  destruct Hck as (record & Hrec & Hv & Hh & _ & Htip). rewrite N.sub_0_r in Htip.
  specialize (Hpos b record eq_refl Hrec). unfold import_checkpoint_for_migration, put_checkpoint, write_batch.
  unfold decode_cbor_slice. rewrite Hrec. cbn [ok_or mbind outcome_bind]. rewrite Hv, check_version_current.
  cbn [mbind outcome_bind]. match goal with |- context [db_write ?d ?ba] => destruct (Hwrites d ba) as [db' Hw] end.
  rewrite Hw. cbn [ok_or mbind outcome_bind]. set (n := N.to_nat (tcm_height (tcr_metadata record))).
  eexists _, (take n l), (drop n l), true. split; [done|]. split; [apply take_drop|]. cbn [rk_db rk_genesis_anchor].
  pose proof (dr_start _ _ _ _ _ _ _ _ Hd eq_refl) as Hg. rewrite <-Hg in *.
  eapply disk_checkpoint_at; [exact Hd|exact Hrec|done|lia|done|].
  intros cf k. rewrite (db_write_get _ _ _ _ _ Hw). unfold batch_effect. cbn [foldl op_effect].
  apply decide_ext. split; intros []; by split.
Qed.

(** C21 The migration keeps the chain. From a directory after any history that started at
    genesis and was never bootstrapped from a snapshot, and an empty database whose writes all
    succeed, [migrate_store] succeeds; the database then opens, whatever anchor it is given,
    with the same height and the same tip hash, reads the same block as the directory at every
    height, and finds every transaction at the height of the last block that holds it. The
    genesis anchor has 32 bytes; each block of the history has a new hash, a height below the
    maximum of u64 and transactions that read back, under their recorded hashes, from their own
    encoding; a block appended without the commit check satisfies the commit policy all the
    same, which the migration checks again; and the checkpoint, if there is one, is above
    height 0. *)
Theorem migration_keeps_chain fs st policy genesis l (db : DB) :
  filed policy genesis fs st 0 genesis l -> length genesis = 32%nat ->
  (forall cf k, db_get db cf k = None) ->
  (forall b record, fs !! checkpoint_path = Some b -> of_cbor b = Some record ->
     0 < tcm_height (tcr_metadata record)) ->
  exists rdb, migrate_store fs db genesis policy = Ok rdb /\
  forall a, exists st' : RocksDbChainStore, rocks_open_internal (rk_db rdb) a = Ok st' /\
    chain_height (rk_chain st') = chain_height (dk_chain st) /\
    expected_prev_hash (rk_chain st') = expected_prev_hash (dk_chain st) /\
    (forall h, h <= u64_max ->
       rocks_read_stored_block_at_height st' h = disk_read_stored_block_at_height fs st h) /\
    (forall k, get_tx_block_height st' k = Ok (tx_height l k)).
Proof.
  intros Hst%filed_rep Hlen Hn Hpos. pose proof Hst as (Hr & Hpol & Hgen & k & Hw).
  destruct (window_height _ _ _ _ _ Hw) as [Hch Hcp].
  destruct (file_open_rep _ _ _ _ _ _ Hr) as (legacy & Ho & Hp & Hg & Hlw).
  assert (store_rep fs legacy policy genesis 0 genesis l) as Hls by (split_and!; try done; by eexists).
  destruct (window_height _ _ _ _ _ Hlw) as [Hlh _]. unfold migrate_store. rewrite Ho.
  cbn [mbind outcome_bind]. rewrite Hlh, N.add_0_l.
  destruct (open_empty_total Hwrites db genesis Hn Hlen) as (rdb0 & Hro & Hc0). rewrite Hro. cbn [mbind outcome_bind].
  destruct (migrate_blocks_Ok _ _ _ _ _ rdb0 [] l Hls eq_refl Hc0) as (rdb1 & Hf & Hcop).
  change (len [] + 1) with 1 in Hf. rewrite Hf. cbn [mbind outcome_bind].
  destruct (migrate_checkpoint_Ok _ _ _ _ _ Hr Hcop Hpos) as (rdb' & l1 & l2 & any & -> & Hl & Hd).
  exists rdb'. split; [done|]. intros a.
  destruct (open_disk _ _ _ _ _ _ _ _ a Hd) as (c & Hoc & Hc & Hca & Hcb).
  eexists. split; [exact Hoc|]. cbn [rk_chain].
  assert (rocks_rep (mkRocksDbChainStore (rk_db rdb') c (rk_genesis_anchor rdb')) 0 genesis 0 l1 l2 any) as Hrep.
  { split; [done|]. apply rep_mem in Hc. cbn [rk_chain]. by rewrite <-Hca, <-Hcb. }
  split_and!.
  - rewrite (rep_height _ _ Hc), Hcb, Hch, <-Hl, len_app. lia.
  - by rewrite (rep_prev_hash _ _ Hc), Hca, last_hash_app, Hl, Hcp.
  - intros h Hh. by rewrite (read_block_rep _ _ _ _ _ _ _ _ Hrep Hh), (read_store_rep _ _ _ _ _ _ _ _ Hst Hh), Hl.
  - intros tx. rewrite (tx_height_rep _ _ _ _ _ _ _ _ Hrep), Hl. destruct (tx_height l tx) as [h|]; [|done].
    cbn. by rewrite (proj2 (N.leb_le 0 h)) by lia.
Qed.
End migration.

(** ** Witnesses *)

#[local] Existing Instance example_shake.
#[local] Existing Instance example_hex.
#[local] Existing Instance example_verifier.
#[local] Existing Instance Ex.cbor.
#[local] Existing Instance example_rocksdb.
#[local] Existing Instance example_rocksdb_laws.

#[global] Instance TipRecord_eq_dec : EqDecision TipRecord.
Proof. solve_decision. Defined.
#[global] Instance HashIndexRecord_eq_dec : EqDecision HashIndexRecord.
Proof. solve_decision. Defined.

Module FileEx.
Import RestartEx(produced, state, execution, block, record_of, checkpoint_record, succeeds, succeeds_Ok,
  block_readable).

(** A state at height 2 and an empty block that commits to it. *)
Definition later : StateStore := state <| st_block_height := 2 |>.
Definition next_block : StoredBlock :=
  let header := mkBlockHeader HEADER_VERSION_V1 2 (sb_hash block) (state_root later)
                  (compute_tx_root []) 0 Ex.alice empty_extension_root in
  let b := mkBlock header [] [] in
  mkStoredBlock b (mkBlockMetadata (compute_block_hash b) 2 (sb_hash block) (state_root later)
    (compute_tx_root []) 0 0 0 0 0 0) [].

#[export] Instance blocks : Serde StoredBlockRecord :=
  table_serde (record_of block ++ record_of next_block).
#[export] Instance checkpoints : Serde TrustedCheckpointRecord :=
  table_serde [checkpoint_record block state;
    mkTrustedCheckpointRecord STATE_FORMAT_VERSION
      (mkTrustedCheckpointMetadata 2 (sb_hash next_block) (state_root later)) (state_into_record later)].
#[export] Instance tips : Serde TipRecord :=
  table_serde [mkTipRecord 1 (sb_hash block); mkTipRecord 2 (sb_hash next_block)].
#[export] Instance indices : Serde HashIndexRecord :=
  table_serde [mkHashIndexRecord 1; mkHashIndexRecord 2].

#[export] Instance blocks_laws : SerdeLaws StoredBlockRecord.
Proof.
  apply table_serde_laws. unfold record_of.
  by destruct (stored_block_into_record block), (stored_block_into_record next_block).
Qed.
#[export] Instance checkpoints_laws : SerdeLaws TrustedCheckpointRecord.
Proof. by apply table_serde_laws. Qed.
#[export] Instance tips_laws : SerdeLaws TipRecord.
Proof. by apply table_serde_laws. Qed.
#[export] Instance indices_laws : SerdeLaws HashIndexRecord.
Proof. by apply table_serde_laws. Qed.

(** The result of an operation, and the operation in pieces. *)
Lemma FsM_Ok {A} (m : FsM A) : succeeds m.2 = true -> exists ops a, m = (ops, Ok a).
Proof. destruct m as [ops r]. cbn. intros [a ->]%succeeds_Ok. by exists ops, a. Qed.

Definition st0 : DiskChainStore := mkDiskChainStore (ChainStore_new_with_base RecoveryEx.anchor 0) None RecoveryEx.anchor.

Lemma opened : open_internal ∅ RecoveryEx.anchor None = Ok st0.
Proof. vm_cast_no_check (@eq_refl (outcome StorageError.t _) (Ok st0)). Qed.

Lemma start : filed None RecoveryEx.anchor ∅ st0 0 RecoveryEx.anchor [].
Proof. exact (filed_open _ _ _ opened). Qed.

Lemma block_height : md_height (sb_metadata block) = 1.
Proof. vm_cast_no_check (@eq_refl N 1). Qed.

(** One block, then a checkpoint. *)
Lemma appended_ok : succeeds (disk_append_block st0 execution).2 = true.
Proof. vm_cast_no_check (@eq_refl bool true). Qed.

Definition store_of {A} (m : FsM (DiskChainStore * A)) : DiskChainStore :=
  match m.2 with Ok (st, _) => st | _ => st0 end.
Definition st1 : DiskChainStore := store_of (disk_append_block st0 execution).
Definition fs1 : Fs := apply_ops ∅ (disk_append_block st0 execution).1.

Lemma one_block : filed None RecoveryEx.anchor fs1 st1 0 RecoveryEx.anchor [block].
Proof.
  destruct (FsM_Ok _ appended_ok) as (ops & [st m] & Ha). unfold fs1, st1. rewrite Ha. cbn [fst snd store_of].
  apply (filed_execution None RecoveryEx.anchor ∅ st0 0 RecoveryEx.anchor [] execution _ st m start block_readable).
  - by intros ?%not_elem_of_nil.
  - fold block. rewrite block_height. lia.
  - exact Ha.
Qed.

Lemma checkpoint_ok : succeeds (disk_write_trusted_checkpoint st1 state).2 = true.
Proof. vm_cast_no_check (@eq_refl bool true). Qed.

Definition fs2 : Fs := apply_ops fs1 (disk_write_trusted_checkpoint st1 state).1.

Lemma with_checkpoint : filed None RecoveryEx.anchor fs2 st1 0 RecoveryEx.anchor [block].
Proof.
  destruct (FsM_Ok _ checkpoint_ok) as (ops & m & Ha). unfold fs2. rewrite Ha. cbn [fst].
  exact (filed_checkpoint None RecoveryEx.anchor fs1 st1 0 RecoveryEx.anchor [block] state _ m one_block (or_introl eq_refl) Ha).
Qed.

(** A snapshot at height 1 and the block above it. *)
Definition snapshot : bytes := default [] (to_cbor (checkpoint_record block state)).
Definition tail : list bytes :=
  match encode_stored_block_bytes next_block with Ok b => [b] | _ => [] end.
Definition booted : FsM (DiskChainStore * TrustedCheckpointMetadata) :=
  disk_bootstrap_from_external_snapshot st0 snapshot tail (st_chain_id Ex.genesis).

Lemma booted_ok : succeeds booted.2 = true.
Proof. vm_cast_no_check (@eq_refl bool true). Qed.

Definition st3 : DiskChainStore := store_of booted.

Lemma booted_facts :
  match booted.2 with
  | Ok (st, m) => (tcm_height m =? 1) && (chain_height (dk_chain st) =? 2) &&
      bool_decide (blocks_in_order (dk_chain st) <> []) && succeeds (disk_write_trusted_checkpoint st later).2
  | _ => false
  end = true.
Proof. vm_cast_no_check (@eq_refl bool true). Qed.

(** The block of the tail has no transactions. *)
Definition no_bodies (b : bytes) : bool :=
  match disk_decode_block_bytes b with
  | Ok sb => bool_decide (sb_included_transactions sb = []) && bool_decide (blk_tx_hashes (sb_block sb) = [])
  | _ => true
  end.

Lemma tail_empty : forallb no_bodies tail = true.
Proof. vm_cast_no_check (@eq_refl bool true). Qed.

Lemma no_bodies_readable l b sb :
  forallb no_bodies l = true -> b ∈ l -> disk_decode_block_bytes b = Ok sb -> readable sb.
Proof.
  intros Hl Hin Hd. apply Is_true_true_2, forallb_True in Hl. rewrite Forall_forall in Hl.
  specialize (Hl b Hin). apply Is_true_true_1 in Hl. unfold no_bodies in Hl. rewrite Hd in Hl.
  apply andb_true_iff in Hl as [Ht%bool_decide_eq_true Hh%bool_decide_eq_true].
  unfold readable. rewrite Ht, Hh. constructor.
Qed.

Lemma booted_store : exists m, tcm_height m = 1 /\ booted.2 = Ok (st3, m) /\
  filed None RecoveryEx.anchor (apply_ops ∅ booted.1) st3 1 (tcm_tip_hash m) (blocks_in_order (dk_chain st3)).
Proof.
  destruct (FsM_Ok _ booted_ok) as (ops & [st m] & Hb). pose proof booted_facts as Hf. unfold st3. rewrite Hb in *.
  cbn [fst snd store_of] in *. bool_hyps. exists m. split; [done|]. split; [done|]. rewrite <-H.
  refine (filed_bootstrap None RecoveryEx.anchor ∅ st0 0 RecoveryEx.anchor [] snapshot tail (st_chain_id Ex.genesis)
    _ st m start Hb _ _ (fun b sb => no_bodies_readable tail b sb tail_empty)); lia.
Qed.
End FileEx.

Import FileEx.

Lemma file_store_reopens_witness : exists fs st block,
  opens_with None RecoveryEx.anchor fs 0 RecoveryEx.anchor [block] /\
  disk_read_stored_block_at_height fs st 1 = Ok (Some block).
Proof.
  exists fs2, st1, RestartEx.block.
  destruct (file_store_reopens None RecoveryEx.anchor fs2 st1 0 RecoveryEx.anchor [RestartEx.block] with_checkpoint)
    as (Ho & _ & _ & Hread).
  split; [exact Ho|exact (Hread 1 ltac:(lia))].
Defined.

Lemma interrupted_write_recovers_witness : exists st block, forall fs',
  stops_at (disk_append_stored_block st block).1 ∅ fs' ->
  recovers None RecoveryEx.anchor fs' 0 RecoveryEx.anchor [] 0 RecoveryEx.anchor [block].
Proof.
  exists st0, RestartEx.block. intros fs' Hs.
  destruct (interrupted_write_recovers None RecoveryEx.anchor ∅ st0 0 RecoveryEx.anchor [] start) as (Happ & _).
  refine (Happ RestartEx.block fs' RestartEx.block_readable _ _ Hs).
  - apply not_elem_of_nil.
  - rewrite block_height. lia.
Defined.

Lemma snapshot_store_checkpoint_unreadable_witness : exists fs st ops m name,
  disk_write_trusted_checkpoint st later = (ops, Ok m) /\
  open_internal (apply_ops fs ops) RecoveryEx.anchor None = Err (StorageError.UnexpectedBlockFile name).
Proof.
  destruct booted_store as (m & Hh & Hb & Hst). pose proof booted_facts as Hf. rewrite Hb in Hf.
  apply andb_true_iff in Hf as [[[_ _]%andb_true_iff Hne%bool_decide_eq_true]%andb_true_iff Hck].
  destruct (FsM_Ok _ Hck) as (ops & mc & Hw).
  destruct (snapshot_store_checkpoint_unreadable None RecoveryEx.anchor _ st3 1 (tcm_tip_hash m) _ later ops mc
    (filed_rep _ _ _ _ _ _ _ Hst) ltac:(lia) Hne Hw) as [name Ho].
  exists (apply_ops ∅ booted.1), st3, ops, mc, name. split; [exact Hw|exact Ho].
Defined.

Lemma checkpoint_above_zero (b : bytes) record :
  fs2 !! checkpoint_path = Some b -> of_cbor b = Some record -> 0 < tcm_height (tcr_metadata record).
Proof.
  assert (match fs2 !! checkpoint_path with
    | Some b => match of_cbor (R := TrustedCheckpointRecord) b with
                | Some r => 0 <? tcm_height (tcr_metadata r) | None => true end
    | None => true end = true) as Hf by (vm_cast_no_check (@eq_refl bool true)).
  intros Hb Hr. rewrite Hb in Hf. rewrite Hr in Hf. by apply N.ltb_lt.
Qed.

Lemma memory_writes (db : @DB example_rocksdb) batch : is_Some (db_write db batch).
Proof. by eexists. Qed.

Lemma migration_keeps_chain_witness : exists fs rdb st,
  migrate_store fs RestartEx.empty RecoveryEx.anchor None = Ok rdb /\
  rocks_open_internal (rk_db rdb) [] = Ok st /\
  rocks_read_stored_block_at_height st 1 = Ok (Some RestartEx.block).
Proof.
  destruct (migration_keeps_chain memory_writes fs2 st1 None RecoveryEx.anchor
    [RestartEx.block] RestartEx.empty with_checkpoint eq_refl (fun cf k => lookup_empty k) checkpoint_above_zero)
    as (rdb & Hm & Hopen).
  destruct (Hopen []) as (st & Ho & _ & _ & Hread & _). exists fs2, rdb, st.
  split; [exact Hm|]. split; [exact Ho|]. rewrite (Hread 1 ltac:(lia)).
  exact (read_store_rep _ _ _ _ _ _ _ 1 (filed_rep _ _ _ _ _ _ _ with_checkpoint) ltac:(lia)).
Defined.
