(* ===== verification/Tsa.v ===== *)
(** * RFC 3161 requests: [pqc-tsa/src/lib.rs].

    The DER encoder of a [TimeStampReq] for a SHA-256 digest, and a reader for the
    tag-length-value items it writes, which finds the digest again. *)

From S2P Require Import Prelude.

Definition SHA256_OID : bytes := [x60; x86; x48; x01; x65; x03; x04; x02; x01].

(** The bytes of [n] without leading zeros: [while n > 0] takes at most 8 rounds, since a
    [usize] has 64 bits. *)
Fixpoint minimal_be (fuel : nat) (n : N) : bytes :=
  match fuel with
  | O => []
  | S fuel' => if 0 <? n then minimal_be fuel' (n / 256) ++ [byte_of_N n] else []
  end.

Definition der_length (n : N) : bytes :=
  if n <? 128 then [byte_of_N n]
  else let b := minimal_be 8 n in byte_of_N (N.lor 0x80 (len b)) :: b.

Definition der_tag (tag : byte) (content : bytes) : bytes :=
  tag :: der_length (len content) ++ content.

(** [start] stops at the last byte. *)
Fixpoint strip_zeros (b : bytes) : bytes :=
  match b with
  | x00 :: (_ :: _ as rest) => strip_zeros rest
  | _ => b
  end.

Definition der_integer_u64 (n : N) : bytes :=
  let body := strip_zeros (be_bytes 8 n) in
  let body := match body with
              | x :: _ => if 0x80 <=? Byte.to_N x then x00 :: body else body
              | [] => body
              end in
  der_tag x02 body.
Definition der_boolean (value : bool) : bytes := der_tag x01 (if value then [xff] else [x00]).
Definition der_octet_string (b : bytes) : bytes := der_tag x04 b.
Definition der_null : bytes := [x05; x00].
Definition der_object_identifier (oid : bytes) : bytes := der_tag x06 oid.
Definition der_sequence (content : bytes) : bytes := der_tag x30 content.

Definition build_timestamp_request (sha256_digest : bytes) : bytes :=
  let alg_id := der_sequence (der_object_identifier SHA256_OID ++ der_null) in
  let imprint := der_sequence (alg_id ++ der_octet_string sha256_digest) in
  der_sequence (der_integer_u64 1 ++ imprint ++ der_boolean true).

(** ** Reading items back *)

(** Tag, content and rest of the first item. *)
Definition der_read (b : bytes) : option (byte * bytes * bytes) :=
  match b with
  | tag :: l :: rest =>
      let l := Byte.to_N l in
      if l <? 128 then
        if bool_decide (N.to_nat l <= length rest)%nat
        then Some (tag, take (N.to_nat l) rest, drop (N.to_nat l) rest) else None
      else
        let k := N.to_nat (l - 128) in
        let n := N.to_nat (of_be_bytes (take k rest)) in
        let rest := drop k rest in
        if bool_decide (n <= length rest)%nat then Some (tag, take n rest, drop n rest) else None
  | _ => None
  end.

(** The digest in a request. *)
Definition request_digest (b : bytes) : option bytes :=
  '(_, req, _) ← der_read b;
  '(_, _, rest) ← der_read req;
  '(_, imprint, _) ← der_read rest;
  '(_, _, rest) ← der_read imprint;
  '(_, digest, _) ← der_read rest;
  Some digest.

Lemma minimal_be_spec fuel n :
  n < 256 ^ N.of_nat fuel ->
  of_be_bytes (minimal_be fuel n) = n /\ (length (minimal_be fuel n) <= fuel)%nat /\
  (0 < n -> (0 < length (minimal_be fuel n))%nat).
Proof.
  revert n. induction fuel as [|fuel IH]; intros n Hn; cbn [minimal_be].
  { rewrite N.pow_0_r in Hn. assert (n = 0) as -> by lia. split_and!; [done|cbn; lia|lia]. }
  destruct (N.ltb_spec 0 n) as [Hpos|Hz]; [|assert (n = 0) as -> by lia; split_and!; [done|cbn; lia|lia]].
  rewrite Nat2N.inj_succ, N.pow_succ_r' in Hn.
  destruct (IH (n / 256)) as (Hv & Hl & _); [apply N.Div0.div_lt_upper_bound; lia|].
  rewrite of_be_bytes_snoc, Hv, to_N_byte_of_N, length_app. cbn [length]. split_and!; [|lia|lia].
  rewrite (N.div_mod n 256) at 3 by done. lia.
Qed.

(** An item is read back, whatever follows it. *)
Lemma der_read_tag tag content rest :
  len content < 2 ^ 64 -> der_read (der_tag tag content ++ rest) = Some (tag, content, rest).
Proof.
  intros Hlen. assert (N.to_nat (len content) = length content) as Hn by (unfold len; lia).
  unfold der_tag, der_length. destruct (N.ltb_spec (len content) 128) as [Hs|Hs].
  - cbn [app der_read]. rewrite to_N_byte_of_N, N.mod_small by lia.
    rewrite (proj2 (N.ltb_lt _ _) Hs), Hn, bool_decide_true by (rewrite length_app; lia).
    by rewrite take_app_length, drop_app_length.
  - destruct (minimal_be_spec 8 (len content)) as (Hv & Hl & Hpos); [exact Hlen|].
    set (b := minimal_be 8 (len content)) in *. specialize (Hpos ltac:(lia)).
    assert (N.lor 128 (len b) = 128 + len b) as Hlor.
    { unfold len. destruct (length b) as [|[|[|[|[|[|[|[|[|]]]]]]]]]; try reflexivity. lia. }
    cbn [app der_read]. rewrite Hlor, to_N_byte_of_N, N.mod_small by (unfold len; lia).
    rewrite (proj2 (N.ltb_ge _ _)) by lia. replace (N.to_nat (128 + len b - 128)) with (length b) by (unfold len; lia).
    rewrite <-app_assoc, take_app_length, drop_app_length, Hv, Hn.
    rewrite bool_decide_true by (rewrite length_app; lia). by rewrite take_app_length, drop_app_length.
Qed.

(** The request carries the digest where the standard has it. *)
Lemma timestamp_request_digest digest :
  len digest = 32 -> request_digest (build_timestamp_request digest) = Some digest.
Proof.
  intros Hd. assert (length digest = 32%nat) as Hl by (unfold len in Hd; lia). clear Hd.
  do 32 (destruct digest as [|? digest]; [discriminate Hl|]). destruct digest; [|discriminate Hl].
  reflexivity.
Qed.
