(* ===== verification/ColdStorage.v ===== *)
(** * Cold storage: [pqcd/src/cold_storage.rs].

    Blocks are exported from the store on RocksDB into a directory: compressed batches of
    CBOR records and a manifest, which may be signed and time-stamped.  An import checks the
    manifest and appends the blocks to another store.

    The directory is a map from names to contents.  An export that fails has written some of
    the batches and no manifest, and its result is the error alone; an import appends block
    by block, so [ImportM] keeps the store when it fails.  The compression ([Zstd]), the JSON
    form of the manifest ([Json]), reading one CBOR item off a stream ([CborStream]) and the
    time-stamping service ([TsaClient]) are parameters; the clock is an argument. *)

From S2P Require Import Prelude Crypto Text Types Cbor Payloads Tx FeeMarket Leaves Store StoreInv.
From S2P Require Import ApplyAccounts ApplyValidators Governance Archival ApplyTx Mempool Block Chain.
From S2P Require Import Recovery Commit Records Upgrade Storage FileStore NodeConfig Keystore Tsa.
From S2P Require Import SlhDsa PqVerifier.

Class Zstd := {
  zstd_encode : bytes -> option bytes;
  zstd_decode : bytes -> option bytes
}.
Class ZstdLaws `{Zstd} : Prop :=
  zstd_decode_encode : forall raw b, zstd_encode raw = Some b -> zstd_decode b = Some raw.

(** [serde_json::to_vec_pretty] and [from_slice] *)
Class Json (R : Type) := {
  to_json : R -> option bytes;
  of_json : bytes -> option R
}.
Class JsonLaws (R : Type) `{!Json R} : Prop :=
  of_to_json : forall (r : R) b, to_json r = Some b -> of_json b = Some r.

(** [ciborium::from_reader]: the first item and the bytes after it. *)
Class CborStream (R : Type) := read_item : bytes -> option (R * bytes).

(** An item that was written is read back and the rest left alone; an item takes bytes from
    the front. *)
Class CborStreamLaws (R : Type) `{!Serde R, !CborStream R} : Prop := {
  read_item_written : forall (r : R) b rest, to_cbor r = Some b -> read_item (b ++ rest) = Some (r, rest);
  read_item_prefix : forall s (r : R) rest, read_item s = Some (r, rest) ->
    exists item, item <> [] /\ s = item ++ rest
}.

(** [post url request]: the body of a successful response. *)
Class TsaClient := {
  tsa_post : bytes -> bytes -> option bytes;
  base64_encode : bytes -> bytes
}.

Definition MANIFEST_SCHEMA_VERSION_V2 : bytes := bstr "viper-cold-storage-v2".
Definition MANIFEST_SCHEMA_VERSION_V1 : bytes := bstr "viper-cold-storage-v1".
Definition MANIFEST_SIGNING_DOMAIN : bytes := bstr "VIPER-COLD-STORAGE-MANIFEST-V1".
Definition MANIFEST_TSA_DOMAIN : bytes := bstr "VIPER-COLD-STORAGE-TSA-V1".
Definition MANIFEST_FILE : bytes := bstr "manifest.json".
Definition SLH_ALG_NAME : bytes := bstr "slh-dsa-shake-256s".

Record BatchEntry := mkBatchEntry {
  be_file_name : bytes;
  be_low_height : N;
  be_high_height : N;
  be_anchor_block_hash : bytes;
  be_sha256 : bytes;
  be_uncompressed_bytes : N;
  be_compressed_bytes : N
}.

Record ManifestSignature := mkManifestSignature {
  ms_alg : bytes;
  ms_signer_address_hex : bytes;
  ms_signer_pk_hex : bytes;
  ms_value_hex : bytes
}.

Record ColdStorageManifest := mkColdStorageManifest {
  cm_schema_version : bytes;
  cm_chain_id_hex : bytes;
  cm_exported_at_unix : N;
  cm_low_height : N;
  cm_high_height : N;
  cm_batch_count : N;
  cm_batches : list BatchEntry;
  cm_signature : option ManifestSignature;
  cm_tsa_token : option bytes
}.

Global Instance eta_ColdStorageManifest : Settable ColdStorageManifest := fun x =>
  mkColdStorageManifest (cm_schema_version x) (cm_chain_id_hex x) (cm_exported_at_unix x)
    (cm_low_height x) (cm_high_height x) (cm_batch_count x) (cm_batches x) (cm_signature x)
    (cm_tsa_token x).

Record ExportOptions := mkExportOptions {
  eo_sign_with_operator_hex : option bytes;
  eo_anchor_tsa_url : option bytes;
  eo_tsa_best_effort : bool
}.

Record ImportOptions := mkImportOptions {
  io_insecure_no_verify : bool;
  io_require_tsa : bool
}.

Record ImportSummary := mkImportSummary {
  is_schema_version : bytes;
  is_chain_id_hex : bytes;
  is_low_height : N;
  is_high_height : N;
  is_batches_replayed : N;
  is_blocks_replayed : N;
  is_signature_verified : bool;
  is_tsa_token_present : bool;
  is_final_tip_hash_hex : bytes
}.

Module ColdError.
Inductive t : Type :=
  | Node (e : NodeError.t)
  | Keys (e : KeystoreError.t)
  | CutoffZero
  | CutoffAboveTip (cutoff tip : N)
  | BatchSizeZero
  | Storage (e : StorageError.t)
  | MissingBlock (height : N)
  | Compression
  | Serialisation
  | NoKeystore
  | BadOperatorHex
  | NoKeystoreEntry
  | NoArchivalKey
  | Signing (e : CryptoError.t)
  | ArchivalKeyLength (actual : N)
  | TsaFailed
  | ReadManifest
  | ParseManifest
  | UnknownSchema (version : bytes)
  | BatchCountMismatch
  | NoSignature
  | UnsupportedAlg (alg : bytes)
  | BadSignatureHex
  | VerificationFailed (e : CryptoError.t)
  | TsaRequired
  | StoreNotEmpty (tip low : N)
  | ReadBatch (file_name : bytes)
  | Sha256Mismatch (file_name : bytes)
  | Decompression (file_name : bytes)
  | DecodeItem (file_name : bytes)
  | HeightDrift (got expected : N)
  | BatchLength (got expected : N)
  | BadAnchorHash
  | AnchorMismatch (file_name : bytes).
End ColdError.

Abbreviation Files := (gmap bytes bytes).

(** [{n:08}]: at least eight digits; a [u64] has at most twenty. *)
Fixpoint unpad (n : nat) (ds : bytes) : bytes :=
  match n, ds with
  | S n', x30 :: ds' => unpad n' ds'
  | _, _ => ds
  end.
Definition format_08 (n : N) : bytes := unpad 12 (decimal 20 n).

Definition batch_file_name (low high : N) : bytes :=
  bstr "blocks-" ++ format_08 low ++ bstr "-" ++ format_08 high ++ bstr ".zst".

(** The largest capacity of a [Vec<u8>]: [isize::MAX]. *)
Definition max_capacity : N := 2 ^ 63 - 1.

(** An import changes the store up to the point at which it fails. *)
Definition ImportM `{RocksDb} (A : Type) : Type :=
  RocksDbChainStore -> RocksDbChainStore * outcome ColdError.t A.

Global Instance ImportM_ret `{RocksDb} : MRet ImportM := fun A x st => (st, Ok x).
Global Instance ImportM_bind `{RocksDb} : MBind ImportM := fun A B f m st =>
  let '(st, r) := m st in
  match r with
  | Ok x => f x st
  | Err e => (st, Err e)
  | Panic => (st, Panic)
  end.

Section cold_storage.
Context `{Ciborium, Shake, Sha2, Verifier, MlDsa, RocksDb} {hex : Hex}.
Context `{!Serde StoredBlockRecord, !Serde TrustedCheckpointRecord}.
Context `{!CborStream StoredBlockRecord, !Json ColdStorageManifest, !Zstd, !TsaClient}.

Definition lift_import {A} (o : outcome ColdError.t A) : ImportM A := fun st => (st, o).

(** ** Export *)

Definition strip (m : ColdStorageManifest) : ColdStorageManifest :=
  m <| cm_signature := None |> <| cm_tsa_token := None |>.

Definition canonical_manifest_bytes (m : ColdStorageManifest) : outcome ColdError.t bytes :=
  ok_or (to_json (strip m)) ColdError.Serialisation.

Definition collect_block (store : RocksDbChainStore) (buf : bytes) (h : N)
    : outcome ColdError.t bytes :=
  found ← map_err ColdError.Storage (rocks_export_block_bytes store h);
  b ← ok_or found (ColdError.MissingBlock h);
  Ok (buf ++ b).

Definition collect_batch_bytes (store : RocksDbChainStore) (low high : N)
    : outcome ColdError.t bytes :=
  span ← sub_checked high low;
  count ← add_checked u64_max span 1;
  if count * 1024 <=? max_capacity then foldM (collect_block store) [] (heights low high)
  else Panic.

Definition read_anchor_block_hash (store : RocksDbChainStore) (height : N)
    : outcome ColdError.t bytes :=
  found ← map_err ColdError.Storage (rocks_read_stored_block_at_height store height);
  stored ← ok_or found (ColdError.MissingBlock height);
  Ok (md_block_hash (sb_metadata stored)).

Definition cold_write_batch (store : RocksDbChainStore) (files : Files) (low high : N)
    : outcome ColdError.t (Files * BatchEntry) :=
  raw ← collect_batch_bytes store low high;
  compressed ← ok_or (zstd_encode raw) ColdError.Compression;
  let digest := hex_encode (sha256 compressed) in
  anchor ← read_anchor_block_hash store high;
  let file_name := batch_file_name low high in
  Ok (<[file_name := compressed]> files,
      mkBatchEntry file_name low high (hex_encode anchor) digest (len raw) (len compressed)).

(** The [while] loop; each round writes at least one block. *)
Fixpoint write_batches (fuel : nat) (store : RocksDbChainStore) (cutoff batch_size h : N)
    (files : Files) (batches : list BatchEntry) : outcome ColdError.t (Files * list BatchEntry) :=
  if h <=? cutoff then
    match fuel with
    | O => Panic
    | S fuel' =>
        next ← add_checked u64_max h batch_size;
        let high := N.min (next - 1) cutoff in
        '(files, entry) ← cold_write_batch store files h high;
        h ← add_checked u64_max high 1;
        write_batches fuel' store cutoff batch_size h files (batches ++ [entry])
    end
  else Ok (files, batches).

Definition signing_preimage (m : ColdStorageManifest) : outcome ColdError.t bytes :=
  canonical ← canonical_manifest_bytes m;
  Ok (MANIFEST_SIGNING_DOMAIN ++ canonical).

Definition sign_manifest_in_place (m : ColdStorageManifest) (keystore : Keystore)
    (operator_hex : bytes) : outcome ColdError.t ColdStorageManifest :=
  address ← ok_or (hex_decode (trim_start_0x operator_hex)) ColdError.BadOperatorHex;
  ensure (len address =? 32) ColdError.BadOperatorHex ;;
  entry ← ok_or (get_latest keystore address) ColdError.NoKeystoreEntry;
  sk ← ok_or (ke_archival_sk entry) ColdError.NoArchivalKey;
  preimage ← signing_preimage m;
  sig ← map_err ColdError.Signing (slh_dsa_shake_256s_sign sk preimage);
  ensure (len sk =? SLH_DSA_SHAKE_256S_SK_LEN) (ColdError.ArchivalKeyLength (len sk)) ;;
  let pk_bytes := take 64 (drop 64 sk) in
  Ok (m <| cm_signature := Some (mkManifestSignature SLH_ALG_NAME
             (to_ascii_lowercase (trim_start_0x operator_hex)) (hex_encode pk_bytes)
             (hex_encode sig)) |>).

Definition anchor_manifest_with_tsa (m : ColdStorageManifest) (tsa_url : bytes)
    : outcome ColdError.t bytes :=
  canonical ← canonical_manifest_bytes m;
  let digest := sha256 (MANIFEST_TSA_DOMAIN ++ canonical) in
  body ← ok_or (tsa_post tsa_url (build_timestamp_request digest)) ColdError.TsaFailed;
  ensure (len body <=? 64 * 1024) ColdError.TsaFailed ;;
  Ok (base64_encode body).

Definition anchor_step (m : ColdStorageManifest) (opts : ExportOptions)
    : outcome ColdError.t ColdStorageManifest :=
  match eo_anchor_tsa_url opts with
  | None => Ok m
  | Some tsa_url =>
      match anchor_manifest_with_tsa m tsa_url with
      | Ok token => Ok (m <| cm_tsa_token := Some token |>)
      | Err e => if eo_tsa_best_effort opts then Ok m else Err e
      | Panic => Panic
      end
  end.

Definition sign_step (m : ColdStorageManifest) (keystore : option Keystore) (opts : ExportOptions)
    : outcome ColdError.t ColdStorageManifest :=
  match eo_sign_with_operator_hex opts with
  | None => Ok m
  | Some operator_hex =>
      ks ← ok_or keystore ColdError.NoKeystore;
      sign_manifest_in_place m ks operator_hex
  end.

(** [files] is what the directory holds before, [now] the time of day. *)
Definition export_cold_storage (store : RocksDbChainStore) (chain_id_hex : bytes)
    (cutoff batch_size : N) (files : Files) (keystore : option Keystore) (opts : ExportOptions)
    (now : N) : outcome ColdError.t (Files * ColdStorageManifest) :=
  ensure (negb (cutoff =? 0)) ColdError.CutoffZero ;;
  let tip := chain_height (rk_chain store) in
  ensure (negb (tip <? cutoff)) (ColdError.CutoffAboveTip cutoff tip) ;;
  ensure (negb (batch_size =? 0)) ColdError.BatchSizeZero ;;
  '(files, batches) ← write_batches (N.to_nat cutoff) store cutoff batch_size 1 files [];
  let manifest := mkColdStorageManifest MANIFEST_SCHEMA_VERSION_V2 chain_id_hex now 1 cutoff
    (len batches mod 2 ^ 32) batches None None in
  manifest ← sign_step manifest keystore opts;
  manifest ← anchor_step manifest opts;
  manifest_bytes ← ok_or (to_json manifest) ColdError.Serialisation;
  Ok (<[MANIFEST_FILE := manifest_bytes]> files, manifest).

(** ** Import *)

(** The key that the manifest itself carries. *)
Definition verify_manifest_signature (m : ColdStorageManifest) : outcome ColdError.t bytes :=
  sig ← ok_or (cm_signature m) ColdError.NoSignature;
  ensure (bool_decide (ms_alg sig = SLH_ALG_NAME)) (ColdError.UnsupportedAlg (ms_alg sig)) ;;
  pk_bytes ← ok_or (hex_decode (trim_start_0x (ms_signer_pk_hex sig))) ColdError.BadSignatureHex;
  sig_bytes ← ok_or (hex_decode (trim_start_0x (ms_value_hex sig))) ColdError.BadSignatureHex;
  preimage ← signing_preimage m;
  map_err ColdError.VerificationFailed
    (PqVerifier_verify (mkPublicKey AlgId.SlhDsaShake256s pk_bytes) preimage
       (mkSigBytes AlgId.SlhDsaShake256s sig_bytes)) ;;
  Ok pk_bytes.

(** [RocksDbChainStore::decode_block_bytes_from_reader], with what the reader has left. *)
Definition decode_block_bytes_from_reader (cursor : bytes)
    : outcome StorageError.t (StoredBlock * bytes) :=
  '(record, rest) ← ok_or (read_item cursor) StorageError.Decode;
  stored ← record_into_stored_block record (md_height (sbr_metadata record));
  Ok (stored, rest).

Definition decode_block_hash_hex (s : bytes) : outcome ColdError.t bytes :=
  v ← ok_or (hex_decode (trim_start_0x s)) ColdError.BadAnchorHash;
  ensure (len v =? 32) ColdError.BadAnchorHash ;;
  Ok v.

Definition import_append (stored : StoredBlock) : ImportM unit := fun st =>
  match rocks_append_stored_block st stored None with
  | Ok (st', _) => (st', Ok tt)
  | Err e => (st, Err (ColdError.Storage e))
  | Panic => (st, Panic)
  end.

(** The loop over a batch, which counts the blocks and keeps the last hash; an item has at
    least one byte. *)
Fixpoint replay_blocks (fuel : nat) (batch : BatchEntry) (cursor : bytes) (decoded : N)
    (last_block_hash : bytes) : ImportM (N * bytes) :=
  match cursor with
  | [] => mret (decoded, last_block_hash)
  | _ :: _ =>
      match fuel with
      | O => lift_import Panic
      | S fuel' =>
          '(stored, rest) ← lift_import (map_err (fun _ => ColdError.DecodeItem (be_file_name batch))
            (decode_block_bytes_from_reader cursor));
          expected_height ← lift_import (add_checked u64_max (be_low_height batch) decoded);
          let height := md_height (sb_metadata stored) in
          lift_import (ensure (height =? expected_height)
            (ColdError.HeightDrift height expected_height)) ;;
          import_append stored ;;
          replay_blocks fuel' batch rest (decoded + 1) (md_block_hash (sb_metadata stored))
      end
  end.

Definition ZERO_HASH : bytes := replicate 32 x00.

(** Returns the blocks replayed in all and the last hash. *)
Definition replay_batch (files : Files) (acc : N * bytes) (batch : BatchEntry)
    : ImportM (N * bytes) :=
  zst_bytes ← lift_import (ok_or (files !! be_file_name batch) (ColdError.ReadBatch (be_file_name batch)));
  lift_import (ensure (bool_decide (hex_encode (sha256 zst_bytes) = be_sha256 batch))
    (ColdError.Sha256Mismatch (be_file_name batch))) ;;
  raw ← lift_import (ok_or (zstd_decode zst_bytes) (ColdError.Decompression (be_file_name batch)));
  expected_count ← lift_import (span ← sub_checked (be_high_height batch) (be_low_height batch);
    add_checked u64_max span 1);
  '(decoded, last_block_hash) ← replay_blocks (length raw) batch raw 0 ZERO_HASH;
  lift_import (ensure (decoded =? expected_count) (ColdError.BatchLength decoded expected_count)) ;;
  expected_anchor ← lift_import (decode_block_hash_hex (be_anchor_block_hash batch));
  lift_import (ensure (bool_decide (last_block_hash = expected_anchor))
    (ColdError.AnchorMismatch (be_file_name batch))) ;;
  mret (acc.1 + decoded, last_block_hash).

Fixpoint replay_batches (files : Files) (acc : N * bytes) (batches : list BatchEntry)
    : ImportM (N * bytes) :=
  match batches with
  | [] => mret acc
  | batch :: rest => acc ← replay_batch files acc batch; replay_batches files acc rest
  end.

(** Everything before the replay; the store is only asked for its tip. *)
Definition check_manifest (files : Files) (opts : ImportOptions) (live_tip : N)
    : outcome ColdError.t (ColdStorageManifest * bool) :=
  manifest_bytes ← ok_or (files !! MANIFEST_FILE) ColdError.ReadManifest;
  m ← ok_or (of_json manifest_bytes) ColdError.ParseManifest;
  ensure (bool_decide (cm_schema_version m = MANIFEST_SCHEMA_VERSION_V1)
          || bool_decide (cm_schema_version m = MANIFEST_SCHEMA_VERSION_V2))
    (ColdError.UnknownSchema (cm_schema_version m)) ;;
  ensure (len (cm_batches m) mod 2 ^ 32 =? cm_batch_count m) ColdError.BatchCountMismatch ;;
  signature_verified ←
    (match cm_signature m with
     | Some _ =>
         if io_insecure_no_verify opts then Ok false
         else verify_manifest_signature m ;; Ok true
     | None => if io_insecure_no_verify opts then Ok false else Err ColdError.NoSignature
     end);
  ensure (negb (io_require_tsa opts && negb (bool_decide (is_Some (cm_tsa_token m)))))
    ColdError.TsaRequired ;;
  ensure (negb (cm_low_height m <=? live_tip)) (ColdError.StoreNotEmpty live_tip (cm_low_height m)) ;;
  Ok (m, signature_verified).

Definition import_cold_storage (files : Files) (opts : ImportOptions) : ImportM ImportSummary :=
  fun st =>
  ('(m, signature_verified) ← lift_import (check_manifest files opts (chain_height (rk_chain st)));
   '(blocks_replayed, last_anchor_hash) ← replay_batches files (0, ZERO_HASH) (cm_batches m);
   mret (mkImportSummary (cm_schema_version m) (cm_chain_id_hex m) (cm_low_height m)
     (cm_high_height m) (cm_batch_count m) blocks_replayed signature_verified
     (bool_decide (is_Some (cm_tsa_token m))) (hex_encode last_anchor_hash))) st.

(** ** The commands: [cold_storage_export] and [cold_storage_import] of [pqcd/src/node.rs] *)

Definition cold_storage_export `{MlDsaKeys, KeystoreFormat} (db : DB) (config : NodeConfig)
    (stat : Stat) (contents : option bytes) (load_mtime : option N)
    (cutoff batch_size : N) (files : Files) (opts : ExportOptions) (now : N)
    : outcome ColdError.t (Files * ColdStorageManifest) :=
  anchor_prev_hash ← map_err ColdError.Node (anchor_of config);
  disk ← map_err ColdError.Node (open_disk_store_from_config db config anchor_prev_hash);
  keystore ←
    (if bool_decide (is_Some (eo_sign_with_operator_hex opts)) then
       ks ← map_err ColdError.Keys (from_validators (dc_validators (nc_devnet config)) true);
       match dc_keystore_path (nc_devnet config) with
       | Some _ =>
           '(ks, _) ← map_err ColdError.Keys (reload_if_changed ks stat contents load_mtime);
           Ok (Some (ks_entries ks))
       | None => Ok (Some (ks_entries ks))
       end
     else Ok None);
  export_cold_storage disk (nc_chain_id_hex config) cutoff batch_size files keystore opts now.

Definition cold_storage_import (db : DB) (config : NodeConfig) (files : Files) (opts : ImportOptions)
    : outcome ColdError.t (RocksDbChainStore * outcome ColdError.t ImportSummary) :=
  anchor_prev_hash ← map_err ColdError.Node (anchor_of config);
  disk ← map_err ColdError.Node (open_disk_store_from_config db config anchor_prev_hash);
  Ok (import_cold_storage files opts disk).
End cold_storage.
