(* ===== verification/ColdStorageProps.v ===== *)
(** * What a cold-storage archive promises.

    An archive of a store that keeps its history restores its first blocks in an empty
    store; an import keeps the store well formed whatever the directory holds. *)

From S2P Require Import Prelude Crypto Text Types Cbor Payloads Tx FeeMarket Leaves Store StoreInv.
From S2P Require Import ApplyAccounts ApplyValidators Governance Archival ApplyTx Mempool Block Chain.
From S2P Require Import ChainInv Recovery RecoveryProps Commit Records RecordsProps Upgrade Storage.
From S2P Require Import StorageRep StorageProps StorageHistory NodeConfig Keystore FileStore FileStoreRep.
From S2P Require Import SlhDsa SlhDsaProps SlhSignProps SlhCodecProps PqVerifier PqVerifierProps.
From S2P Require Import Tsa ColdStorage Examples RestartProps.

#[local] Arguments compute_block_hash : simpl never.

(** ** The names of the files *)

Lemma unpad_spec n ds : exists k, ds = replicate k x30 ++ unpad n ds.
Proof.
  revert ds. induction n as [|n IH]; intros ds; [by exists 0%nat|].
  destruct ds as [|d ds]; [by exists 0%nat|]. destruct d; try by exists 0%nat.
  destruct (IH ds) as [k Hk]. exists (S k). cbn. by rewrite <-Hk.
Qed.

Lemma unpad_inj n ds ds' : length ds = length ds' -> unpad n ds = unpad n ds' -> ds = ds'.
Proof.
  destruct (unpad_spec n ds) as [k Hk], (unpad_spec n ds') as [k' Hk']. intros Hl He.
  rewrite Hk, Hk', He in Hl. rewrite !length_app, !length_replicate in Hl.
  rewrite Hk, Hk', He. by replace k with k' by lia.
Qed.

Lemma decimal_no_dash n x : x2d ∉ decimal n x.
Proof.
  revert x. induction n as [|n IH]; intros x; [by intros ?%elem_of_nil|]. cbn.
  intros [Hin|Hin]%elem_of_app; [by apply IH in Hin|]. apply list_elem_of_singleton in Hin.
  apply (f_equal Byte.to_N) in Hin. rewrite to_N_byte_of_N in Hin.
  pose proof (N.mod_upper_bound x 10 ltac:(done)). rewrite N.mod_small in Hin by lia.
  assert (Byte.to_N x2d = 45) as Hd by reflexivity. rewrite Hd in Hin.
  clear - Hin. generalize dependent (x mod 10). lia.
Qed.

Lemma format_08_no_dash x : x2d ∉ format_08 x.
Proof.
  unfold format_08. destruct (unpad_spec 12 (decimal 20 x)) as [k Hk]. intros Hin.
  apply (decimal_no_dash 20 x). rewrite Hk. by apply elem_of_app; right.
Qed.

Lemma format_08_inj x y : x <= u64_max -> y <= u64_max -> format_08 x = format_08 y -> x = y.
Proof.
  unfold format_08. intros Hx Hy He. apply unpad_inj in He; [|by rewrite !length_decimal].
  apply block_file_name_inj; [done|done|]. unfold block_file_name, format_height. by rewrite He.
Qed.

Lemma until_dash (a a' r r' : bytes) : x2d ∉ a -> x2d ∉ a' -> a ++ x2d :: r = a' ++ x2d :: r' -> a = a'.
Proof.
  revert a'. induction a as [|c a IH]; intros [|c' a'] Ha Ha' He; cbn in He; [done|..].
  - injection He as <- _. by destruct Ha'; left.
  - injection He as -> _. by destruct Ha; left.
  - injection He as <- He. f_equal. apply IH; [by intros ?; apply Ha; right|by intros ?; apply Ha'; right|done].
Qed.

Lemma batch_file_name_inj low high low' high' :
  low <= u64_max -> low' <= u64_max -> batch_file_name low high = batch_file_name low' high' -> low = low'.
Proof.
  intros Hl Hl' He. unfold batch_file_name in He. apply app_inv_head in He.
  change (bstr "-" ++ ?r) with (x2d :: r) in He.
  apply until_dash in He; [by apply format_08_inj|apply format_08_no_dash..].
Qed.

Lemma batch_file_name_manifest low high : batch_file_name low high <> MANIFEST_FILE.
Proof. intros He. discriminate He. Qed.

Section archive.
Context `{Ciborium, Shake, Sha2, Verifier, MlDsa, RocksDb, !RocksDbLaws} {hex : Hex}.
Context `{!Serde StoredBlockRecord, !Serde TrustedCheckpointRecord}.
Context `{!SerdeLaws StoredBlockRecord, !SerdeLaws TrustedCheckpointRecord}.
Context `{!CborStream StoredBlockRecord, !CborStreamLaws StoredBlockRecord}.
Context `{!Json ColdStorageManifest, !JsonLaws ColdStorageManifest, !Zstd, !ZstdLaws, !TsaClient}.
Implicit Types (st : RocksDbChainStore) (l : list StoredBlock) (sb : StoredBlock) (files : Files).

(** ** A store that keeps its history *)

(** The database has the encoding of every block, as it was written. *)
Definition encoded (db : DB) l : Prop := forall i sb, l !! i = Some sb ->
  readable sb /\ exists b, db_get db Cf.Blocks (height_to_key (N.of_nat i + 1)) = Some b /\
    encode_stored_block_bytes sb = Ok b.

(** A store that started empty, appended blocks, replaced its tip, wrote checkpoints and was
    opened again, and was never pruned, holds the blocks [l]. *)
Inductive kept (genesis : bytes) : RocksDbChainStore -> list StoredBlock -> Prop :=
  | kept_open (db : DB) st :
      (forall cf k, db_get db cf k = None) -> length genesis = 32%nat ->
      rocks_open_internal db genesis = Ok st -> kept genesis st []
  | kept_append st l sb policy st' m :
      kept genesis st l -> readable sb -> md_height (sb_metadata sb) < u64_max ->
      rocks_append_stored_block st sb policy = Ok (st', m) -> kept genesis st' (l ++ [sb])
  | kept_execution st l exe policy st' m :
      kept genesis st l -> readable (stored_of exe) -> md_height (sb_metadata (stored_of exe)) < u64_max ->
      rocks_append_block st exe policy = Ok (st', m) -> kept genesis st' (l ++ [stored_of exe])
  | kept_replace st l sb policy st' old :
      kept genesis st (l ++ [old]) -> counted sb -> readable sb ->
      ch_by_hash (rk_chain st) !! sb_hash sb = None ->
      blk_tx_hashes (sb_block sb) = blk_tx_hashes (sb_block old) ->
      rocks_replace_canonical_at_height st sb policy = Ok (st', old) -> kept genesis st' (l ++ [sb])
  | kept_checkpoint st l state st' m :
      kept genesis st l -> 0 < st_block_height state ->
      rocks_write_trusted_checkpoint st state = Ok (st', m) ->
      kept genesis (compact_chain_to_checkpoint st' (tcm_height m) (tcm_tip_hash m)) l
  | kept_reopen st l a st' :
      kept genesis st l -> rocks_open_internal (rk_db st) a = Ok st' -> kept genesis st' l.

Definition history (genesis : bytes) st l : Prop :=
  encoded (rk_db st) l /\ exists l1 l2 any, l = l1 ++ l2 /\ rocks_rep st 0 genesis 0 l1 l2 any.

(** Writing [sb] as the block after [l] and leaving the other blocks alone. *)
Lemma encoded_snoc (db db' : DB) l sb b :
  encoded db l -> len l + 1 <= u64_max -> readable sb -> encode_stored_block_bytes sb = Ok b ->
  (forall k, db_get db' Cf.Blocks k =
     if decide (k = height_to_key (len l + 1)) then Some b else db_get db Cf.Blocks k) ->
  encoded db' (l ++ [sb]).
Proof.
  intros He Hmax Hr Hb Hdb i sb' Hi. apply lookup_snoc_cases in Hi as [Hi|[-> ->]].
  - pose proof (lookup_lt_Some _ _ _ Hi). destruct (He _ _ Hi) as (? & b' & Hg & ?). split; [done|]. exists b'. split; [|done].
    rewrite Hdb, decide_False; [done|]. intros Hk. apply height_key_inj in Hk; unfold len in *; lia.
  - split; [done|]. exists b. split; [|done]. by rewrite Hdb, decide_True.
Qed.

Lemma encoded_prefix (db : DB) l l' : encoded db (l ++ l') -> encoded db l.
Proof. intros He i sb Hi. apply He. by apply lookup_app_l_Some. Qed.

Lemma history_append genesis st l sb c' m db' :
  history genesis st l -> readable sb -> md_height (sb_metadata sb) < u64_max ->
  append_stored_block (rk_chain st) sb = Ok (c', m) -> persist_to_db st sb = Ok db' ->
  history genesis (mkRocksDbChainStore db' c' (rk_genesis_anchor st)) (l ++ [sb]).
Proof.
  intros (He & l1 & l2 & any & -> & Hrep) Hr Hmax Ha Hp.
  pose proof (append_rocks _ _ _ _ _ _ _ _ _ _ _ Hrep Hr Hmax Ha Hp) as Hrep'. split.
  - destruct (persist_Ok _ _ _ Hp) as (b & Hb & Happ). cbn [rk_db].
    destruct Hrep as [Hd Hm], (append_settled _ _ _ _ _ _ _ Hm Ha) as (_ & _ & Hc & Hm').
    destruct (mem_fits _ _ _ _ _ _ Hm' Hc Hr) as [Hfit _]. pose proof (fi_height _ _ _ _ Hfit) as Hh.
    apply (encoded_snoc (rk_db st) _ _ _ b); [done|lia|done|done|]. intros k.
    rewrite Happ, Hh. cbn. by rewrite N.add_0_l.
  - exists l1, (l2 ++ [sb]), any. by rewrite app_assoc.
Qed.

Lemma history_replace genesis st l sb policy st' old :
  history genesis st (l ++ [old]) -> counted sb -> readable sb ->
  ch_by_hash (rk_chain st) !! sb_hash sb = None ->
  blk_tx_hashes (sb_block sb) = blk_tx_hashes (sb_block old) ->
  rocks_replace_canonical_at_height st sb policy = Ok (st', old) -> history genesis st' (l ++ [sb]).
Proof.
  intros (He & l1 & l2 & any & Hl & Hrep) Hc Hr Hf Htx Ha.
  assert (forall tip, last l2 = Some tip -> blk_tx_hashes (sb_block sb) = blk_tx_hashes (sb_block tip)) as Htip.
  { intros tip Ht. destruct l2 as [|x l2] using rev_ind; [done|]. rewrite last_snoc in Ht. injection Ht as ->.
    rewrite app_assoc in Hl. apply app_inj_2 in Hl as [_ [= <-]]; done. }
  destruct (replace_rocks _ _ _ _ _ _ _ _ _ _ _ Hrep Hc Hr Hf Htip Ha) as (l0 & -> & Hrep').
  rewrite app_assoc in Hl. apply app_inj_2 in Hl as [-> _]; [|done].
  split; [|exists l1, (l0 ++ [sb]), any; by rewrite app_assoc].
  unfold rocks_replace_canonical_at_height in Ha. apply bind_Ok in Ha as ([] & _ & Ha).
  apply bind_Ok in Ha as ([trial d] & Ht%map_err_Ok & Ha). apply bind_Ok in Ha as (db' & Hp & Ha).
  injection Ha as <- <-. destruct (persist_replace_Ok _ _ _ _ Hp) as (b & _ & Hb & Hdb & _). cbn [rk_db] in *.
  destruct Hrep' as [Hd' Hm']. destruct (mem_fits _ _ _ _ _ _ Hm' Hc Hr) as [Hfit _].
  pose proof (fi_height _ _ _ _ Hfit) as Hh. pose proof (dr_max _ _ _ _ _ _ _ _ Hd') as Hmax.
  rewrite !len_app in Hmax. apply (encoded_snoc (rk_db st) _ _ _ b); [by eapply encoded_prefix| |done|done|].
  - rewrite len_app. cbn in Hmax. lia.
  - intros k. rewrite Hdb, Hh by done. cbn. by rewrite N.add_0_l.
Qed.

Lemma kept_history genesis st l : kept genesis st l -> history genesis st l.
Proof.
  induction 1 as [db st Hn Hlen Ho|st l sb policy st' m _ IH Hr Hmax Ha
    |st l exe policy st' m _ IH Hr Hmax Ha|st l sb policy st' old _ IH Hc Hr Hf Htx Hrep
    |st l state st' m _ IH Hpos Hw|st l a st' _ IH Ho].
  - split; [by intros i sb Hi|]. destruct (open_empty _ _ _ Hn Hlen Ho) as [Hrep _]. by exists [], [], false.
  - unfold rocks_append_stored_block in Ha. apply bind_Ok in Ha as ([] & _ & Ha).
    apply bind_Ok in Ha as ([trial md] & Ht%map_err_Ok & Ha). run_inv. injection Ha as <- <-.
    by eapply history_append.
  - unfold rocks_append_block in Ha. apply bind_Ok in Ha as ([] & _ & Ha).
    apply append_execution_Ok in Ha as (c' & db' & Ha & Hp & ->). by eapply history_append.
  - by eapply history_replace.
  - destruct IH as (He & l1 & l2 & any & -> & IH).
    destruct (checkpoint_rocks _ _ _ _ _ _ _ _ _ _ IH Hpos Hw) as [_ Hrep].
    split; [|exists (l1 ++ l2), [], true; by rewrite app_nil_r].
    destruct (write_checkpoint_Ok _ _ _ _ Hw) as (b & _ & _ & _ & _ & Hdb). intros i sb Hi.
    destruct (He _ _ Hi) as (? & b' & ? & ?). split; [done|]. exists b'. cbn [rk_db compact_chain_to_checkpoint].
    by rewrite Hdb, decide_False by by intros [].
  - destruct IH as (He & l1 & l2 & any & -> & IH). pose proof (reopen_rocks _ _ _ _ _ _ _ _ _ IH Ho) as Hrep.
    split; [|by exists l1, l2, any]. rewrite (open_rep _ _ _ _ _ _ _ _ IH) in Ho. by injection Ho as <-.
Qed.

(** ** The directory *)

(** The contents of a batch: the encodings of the blocks one after the other. *)
Inductive batch_stream : list StoredBlock -> bytes -> Prop :=
  | stream_nil : batch_stream [] []
  | stream_cons sb b l raw :
      encode_stored_block_bytes sb = Ok b -> batch_stream l raw -> batch_stream (sb :: l) (b ++ raw).

(** The file of an entry has the blocks [seg], which start at height [low]. *)
Definition batch_blocks files (low : N) (seg : list StoredBlock) (e : BatchEntry) : Prop :=
  exists z raw, files !! be_file_name e = Some z /\ be_sha256 e = hex_encode (sha256 z) /\
    zstd_decode z = Some raw /\ batch_stream seg raw /\ seg <> [] /\
    be_low_height e = low /\ be_high_height e = low + len seg - 1.

(** The entry also has the hash of the last one. *)
Definition batch_holds files (low : N) (seg : list StoredBlock) (e : BatchEntry) : Prop :=
  batch_blocks files low seg e /\ be_anchor_block_hash e = hex_encode (last_hash [] seg).

(** The entries cut the blocks [l] above height [low] into batches. *)
Inductive archives files : N -> list StoredBlock -> list BatchEntry -> Prop :=
  | archives_nil low : archives files low [] []
  | archives_cons low seg rest e es :
      batch_holds files low seg e -> archives files (low + len seg) rest es ->
      archives files low (seg ++ rest) (e :: es).

Lemma history_length genesis st l : history genesis st l -> len l < u64_max /\ chain_height (rk_chain st) = len l.
Proof.
  intros (_ & l1 & l2 & any & -> & [Hd Hm]). pose proof (dr_max _ _ _ _ _ _ _ _ Hd).
  rewrite len_app, (mem_height _ _ _ _ Hm). lia.
Qed.

Lemma read_history genesis st l i sb :
  history genesis st l -> l !! i = Some sb ->
  rocks_read_stored_block_at_height st (N.of_nat i + 1) = Ok (Some sb).
Proof.
  intros Hh Hi. destruct (history_length _ _ _ Hh) as [Hmax _]. pose proof (lookup_lt_Some _ _ _ Hi).
  destruct Hh as (_ & l1 & l2 & any & -> & Hrep).
  rewrite (read_block_rep _ _ _ _ _ _ _ _ Hrep) by (unfold len in *; lia). unfold block_at.
  rewrite (proj2 (N.ltb_lt 0 _)), (proj2 (N.leb_le 0 _)) by lia. cbn [andb].
  by replace (N.to_nat (N.of_nat i + 1 - 0 - 1)) with i by lia; rewrite Hi.
Qed.

Lemma export_history genesis st l i sb :
  history genesis st l -> l !! i = Some sb -> exists b,
  rocks_export_block_bytes st (N.of_nat i + 1) = Ok (Some b) /\ encode_stored_block_bytes sb = Ok b.
Proof.
  intros Hh Hi. pose proof (read_history _ _ _ _ _ Hh Hi) as Hread.
  destruct Hh as (He & _), (He _ _ Hi) as (_ & b & Hg & Hb). exists b. split; [|done].
  unfold rocks_read_stored_block_at_height, rocks_export_block_bytes in *.
  destruct (get_stored_block_by_height _ _) as [sb'|]; [|by rewrite Hg].
  injection Hread as ->. by rewrite Hb.
Qed.

Lemma collect_stream genesis st l n from buf :
  history genesis st l -> (from + n <= length l)%nat -> exists raw,
  foldM (collect_block st) buf (heights (N.of_nat from + 1) (N.of_nat (from + n))) = Ok (buf ++ raw) /\
  batch_stream (take n (drop from l)) raw.
Proof.
  intros Hh. revert from buf. induction n as [|n IH]; intros from buf Hle.
  { rewrite heights_nil by lia. exists []. rewrite app_nil_r. split; [done|constructor]. }
  destruct (lookup_lt_is_Some_2 l from) as [sb Hi]; [lia|].
  destruct (export_history _ _ _ _ _ Hh Hi) as (b & Hb & Henc).
  destruct (IH (S from) (buf ++ b)) as (raw & Hraw & Hs); [lia|]. exists (b ++ raw).
  rewrite heights_cons by lia. cbn [foldM].
  assert (collect_block st buf (N.of_nat from + 1) = Ok (buf ++ b)) as ->.
  { unfold collect_block. by rewrite Hb. }
  cbn [mbind outcome_bind]. rewrite (drop_S _ _ _ Hi). cbn [take].
  split; [|by constructor]. rewrite app_assoc, <-Hraw. f_equal. f_equal; lia.
Qed.

(** Compression and JSON never fail. *)
Context (Hzstd : forall raw, is_Some (zstd_encode raw)).
Context (Hjson : forall m : ColdStorageManifest, is_Some (to_json m)).

Lemma last_hash_any a a' l : l <> [] -> last_hash a l = last_hash a' l.
Proof. intros Hne. unfold last_hash. by destruct l as [|? ? _] using rev_ind; [|rewrite !last_snoc]. Qed.

Lemma last_hash_cons prev sb l : last_hash prev (sb :: l) = last_hash (sb_hash sb) l.
Proof. unfold last_hash. by destruct l as [|? ? _] using rev_ind; [|rewrite app_comm_cons, !last_snoc]. Qed.

Lemma last_hash_lookup anchor l n sb :
  l !! n = Some sb -> last_hash anchor (take (S n) l) = md_block_hash (sb_metadata sb).
Proof. intros Hn. unfold last_hash. by rewrite (take_S_r _ _ _ Hn), last_snoc. Qed.

Lemma write_batch_Ok genesis st l files from n :
  history genesis st l -> (0 < n)%nat -> (from + n <= length l)%nat -> N.of_nat n * 1024 <= max_capacity ->
  let low := N.of_nat from + 1 in
  let high := N.of_nat (from + n) in
  exists z e, cold_write_batch st files low high = Ok (<[batch_file_name low high := z]> files, e) /\
    be_file_name e = batch_file_name low high /\
    forall files', files' !! batch_file_name low high = Some z ->
      batch_holds files' low (take n (drop from l)) e.
Proof.
  intros Hh Hn Hle Hcap low high. destruct (collect_stream _ _ _ n from [] Hh Hle) as (raw & Hraw & Hs).
  destruct (Hzstd raw) as [z Hz]. exists z.
  destruct (lookup_lt_is_Some_2 l (from + n - 1)) as [sb Hi]; [lia|].
  assert (len (take n (drop from l)) = N.of_nat n) as Hlen.
  { unfold len. rewrite length_take, length_drop. lia. }
  assert (last_hash [] (take n (drop from l)) = md_block_hash (sb_metadata sb)) as Hlast.
  { replace n with (S (n - 1)) by lia. apply last_hash_lookup. rewrite lookup_drop.
    by replace (from + (n - 1))%nat with (from + n - 1)%nat by lia. }
  unfold cold_write_batch, collect_batch_bytes, sub_checked, add_checked.
  rewrite (proj2 (N.leb_le low high)) by lia. cbn [mbind outcome_bind].
  rewrite (proj2 (N.leb_le _ u64_max)) by (unfold max_capacity in *; lia). cbn [mbind outcome_bind].
  replace (high - low + 1) with (N.of_nat n) by lia. rewrite (proj2 (N.leb_le _ _) Hcap).
  fold low high in Hraw. rewrite Hraw. cbn [app mbind outcome_bind]. rewrite Hz.
  cbn [ok_or mbind outcome_bind]. unfold read_anchor_block_hash.
  pose proof (read_history _ _ _ _ _ Hh Hi) as Hread.
  replace (N.of_nat (from + n - 1) + 1) with high in Hread by lia. rewrite Hread.
  cbn [map_err ok_or mbind outcome_bind]. eexists. split; [done|]. split; [done|].
  intros files' Hf. split; [exists z, raw|cbn; by rewrite Hlast].
  cbn [be_file_name be_sha256 be_low_height be_high_height].
  rewrite Hlen. split_and!; [done|done|by apply zstd_decode_encode|done| |done|].
  - intros Hnil. rewrite Hnil in Hlen. unfold len in Hlen. cbn [length] in Hlen. lia.
  - lia.
Qed.

Lemma archives_agree files files' low l es :
  (forall e, e ∈ es -> files' !! be_file_name e = files !! be_file_name e) ->
  archives files low l es -> archives files' low l es.
Proof.
  intros Hf Ha. induction Ha as [|low seg rest e es [(z & raw & Hz & Hb) Hh] _ IH]; constructor.
  - split; [|done]. exists z, raw. split; [|done]. rewrite Hf; [done|by left].
  - apply IH. intros e' He'. apply Hf. by right.
Qed.

(** The loop cuts the blocks above height [from] and below [cutoff] into batches, and only
    writes files that are named after them. *)
Lemma write_batches_Ok genesis st l batch_size n fuel from files acc :
  history genesis st l -> 0 < batch_size -> (from + n <= length l)%nat -> (n <= fuel)%nat ->
  N.of_nat (from + n) + batch_size <= u64_max -> N.of_nat n * 1024 <= max_capacity ->
  exists files' es,
  write_batches fuel st (N.of_nat (from + n)) batch_size (N.of_nat from + 1) files acc = Ok (files', acc ++ es) /\
  archives files' (N.of_nat from + 1) (take n (drop from l)) es /\
  (forall e, e ∈ es -> exists low high, be_file_name e = batch_file_name low high) /\
  (forall name, (forall low high, N.of_nat from < low <= u64_max -> name <> batch_file_name low high) ->
     files' !! name = files !! name).
Proof.
  intros Hh Hbs. revert n from files acc. induction fuel as [|fuel IH]; intros n from files acc Hle Hfuel Hmax Hcap.
  { assert (n = 0%nat) as -> by lia. cbn [write_batches]. rewrite (proj2 (N.leb_gt _ _)) by lia.
    exists files, []. rewrite app_nil_r. split_and!; [done|constructor|by intros ? ?%elem_of_nil|done]. }
  cbn [write_batches]. destruct n as [|n'].
  { rewrite (proj2 (N.leb_gt _ _)) by lia.
    exists files, []. rewrite app_nil_r. split_and!; [done|constructor|by intros ? ?%elem_of_nil|done]. }
  set (n := S n') in *. rewrite (proj2 (N.leb_le _ _)) by lia.
  set (k := Nat.min (N.to_nat batch_size) n).
  unfold add_checked. rewrite (proj2 (N.leb_le _ u64_max)) by lia. cbn [mbind outcome_bind].
  replace (N.min (N.of_nat from + 1 + batch_size - 1) (N.of_nat (from + n))) with (N.of_nat (from + k)) by lia.
  destruct (write_batch_Ok _ _ _ files from k Hh) as (z & e & Hw & Hname & Hholds); [lia|lia|lia|].
  rewrite Hw. cbn [mbind outcome_bind]. rewrite (proj2 (N.leb_le _ u64_max)) by lia. cbn [mbind outcome_bind].
  destruct (IH (n - k)%nat (from + k)%nat (<[batch_file_name (N.of_nat from + 1) (N.of_nat (from + k)) := z]> files)
    (acc ++ [e])) as (files' & es & He & Ha & Hn & Hf); [lia|lia|lia|lia|].
  replace (from + k + (n - k))%nat with (from + n)%nat in He by lia. rewrite He.
  exists files', (e :: es). rewrite <-app_assoc. split; [done|]. split_and!.
  - replace (take n (drop from l)) with (take k (drop from l) ++ take (n - k) (drop (from + k) l)).
    2: { rewrite <-drop_drop. replace n with (k + (n - k))%nat at 2 by lia. by rewrite take_take_drop. }
    constructor.
    + apply Hholds. rewrite Hf; [by rewrite lookup_insert_eq|].
      intros low high Hlow Heq. apply batch_file_name_inj in Heq; lia.
    + assert (len (take k (drop from l)) = N.of_nat k) as ->.
      { unfold len. rewrite length_take, length_drop. lia. }
      by replace (N.of_nat from + 1 + N.of_nat k) with (N.of_nat (from + k) + 1) by lia.
  - intros e' [->|He']%elem_of_cons; [by eexists _, _|by apply Hn].
  - intros name Hnm. rewrite Hf by (intros; apply Hnm; lia). apply lookup_insert_ne.
    intros <-. by eapply Hnm; [|reflexivity]; lia.
Qed.

(** ** The replay *)

Lemma record_metadata sb record :
  stored_block_into_record sb = Ok record -> sbr_metadata record = sb_metadata sb.
Proof. destruct sb as [[[] ? ?] ? ?]. unfold stored_block_into_record. intros Hrec. by run_inv. Qed.

Lemma decode_written sb b rest :
  stored_ok sb -> readable sb -> encode_stored_block_bytes sb = Ok b ->
  decode_block_bytes_from_reader (b ++ rest) = Ok (sb, rest) /\ (length rest < length (b ++ rest))%nat.
Proof.
  intros Hok Hr He. unfold encode_stored_block_bytes in He.
  apply bind_Ok in He as (record & Hrec & He). apply ok_or_Ok in He.
  pose proof (read_item_written _ _ rest He) as Hread. split.
  2: { destruct (read_item_prefix _ _ _ Hread) as (item & Hne & ->). rewrite length_app.
       destruct item; [done|cbn; lia]. }
  unfold decode_block_bytes_from_reader. rewrite Hread. cbn [ok_or mbind outcome_bind].
  rewrite (record_metadata _ _ Hrec). by rewrite (proj2 (stored_record_roundtrip _ _ (so_bodies _ Hok) Hrec) Hr).
Qed.

(** No write of the database fails. *)
Context (Hwrites : forall db batch, is_Some (db_write db batch)).

(** The blocks [seg] can follow the blocks [pre]. *)
Record follows (genesis : bytes) (pre seg : list StoredBlock) : Prop := {
  fo_linked : linked genesis 0 (pre ++ seg);
  fo_counted : Forall counted seg;
  fo_readable : Forall readable seg;
  fo_hashes : NoDup (sb_hash <$> (pre ++ seg));
  fo_max : len pre + len seg < u64_max
}.

Lemma follows_next genesis pre sb seg :
  follows genesis pre (sb :: seg) ->
  fits genesis 0 pre sb /\ (sb_hash sb ∉ sb_hash <$> pre) /\ follows genesis (pre ++ [sb]) seg.
Proof.
  intros [Hl [Hc Hcs]%Forall_cons [Hr Hrs]%Forall_cons Hnd Hmax]. split; [by eapply fits_tail|].
  rewrite len_cons in Hmax. split.
  - rewrite fmap_app in Hnd. apply NoDup_app in Hnd as (_ & Hd & _). intros Hin. apply (Hd _ Hin). by left.
  - split; rewrite <-?app_assoc; try done. rewrite len_app. change (len [sb]) with 1. lia.
Qed.

Lemma follows_split genesis pre seg rest :
  follows genesis pre (seg ++ rest) -> follows genesis pre seg /\ follows genesis (pre ++ seg) rest.
Proof.
  intros [Hl [Hc Hc']%Forall_app [Hr Hr']%Forall_app Hnd Hmax]. rewrite len_app in Hmax. split.
  - rewrite app_assoc in Hl, Hnd. apply linked_app in Hl as [Hl _]. rewrite fmap_app in Hnd.
    apply NoDup_app in Hnd as (Hnd & _). split; done || lia.
  - rewrite app_assoc in Hl, Hnd. split; try done. rewrite len_app. lia.
Qed.

Lemma replay_blocks_Ok genesis batch seg raw fuel st pre decoded prev :
  batch_stream seg raw -> copied st genesis pre -> follows genesis pre seg ->
  be_low_height batch + decoded = len pre + 1 -> (length raw <= fuel)%nat ->
  exists st', replay_blocks fuel batch raw decoded prev st = (st', Ok (decoded + len seg, last_hash prev seg)) /\
    copied st' genesis (pre ++ seg).
Proof.
  intros Hs. revert fuel st pre decoded prev.
  induction Hs as [|sb b seg raw Henc _ IH]; intros fuel st pre decoded prev Hc Hf Hlow Hfuel.
  { exists st. rewrite app_nil_r. destruct fuel; cbn; by rewrite N.add_0_r. }
  destruct (follows_next _ _ _ _ Hf) as (Hfit & Hnew & Hf'). pose proof (fo_max _ _ _ Hf) as Hmax.
  rewrite len_cons in Hmax.
  destruct (decode_written sb b raw (fi_ok _ _ _ _ Hfit) (fi_readable _ _ _ _ Hfit) Henc) as [Hdec Hlt].
  destruct (append_copied Hwrites st genesis pre sb b Hc Hfit Hnew ltac:(lia) Henc) as (st1 & Happ & Hc1).
  destruct (IH (pred fuel) st1 (pre ++ [sb]) (decoded + 1) (sb_hash sb)) as (st' & Hrun & Hc');
    [done|done|rewrite len_app; change (len [sb]) with 1; lia|lia|].
  exists st'. rewrite <-app_assoc in Hc'. split; [|done].
  destruct (b ++ raw) as [|x r] eqn:Hbr; [cbn in Hlt; lia|]. destruct fuel as [|fuel]; [cbn in Hfuel; lia|].
  cbn [pred] in Hrun. cbn [replay_blocks]. unfold mbind, ImportM_bind, lift_import.
  rewrite Hdec. cbn [map_err]. unfold add_checked. rewrite Hlow, (proj2 (N.leb_le _ u64_max)) by lia.
  rewrite (fi_height _ _ _ _ Hfit), N.add_0_l, N.eqb_refl. cbn [ensure].
  unfold import_append. rewrite Happ. fold (sb_hash sb). rewrite Hrun. f_equal. f_equal. rewrite len_cons. f_equal; [lia|].
  by rewrite last_hash_cons.
Qed.

Lemma decode_hash_encode b : len b = 32 -> decode_block_hash_hex (hex_encode b) = Ok b.
Proof.
  intros Hl. unfold decode_block_hash_hex. rewrite trim_start_0x_digits by apply hex_encode_lower.
  rewrite hex_decode_encode. cbn [ok_or mbind outcome_bind]. by rewrite Hl.
Qed.

Lemma last_hash_length genesis pre seg :
  linked genesis 0 (pre ++ seg) -> seg <> [] -> len (last_hash [] seg) = 32.
Proof.
  intros Hl Hne. destruct seg as [|sb seg _] using rev_ind; [done|]. unfold last_hash. rewrite last_snoc.
  rewrite app_assoc in Hl. apply linked_app in Hl as (_ & Hok & _). cbn [from_option].
  unfold len. by rewrite (stored_hash_length sb Hok).
Qed.

(** The blocks are appended before the hash of the last one is compared. *)
Lemma replay_batch_run genesis files low seg e st pre acc :
  batch_blocks files low seg e -> copied st genesis pre -> follows genesis pre seg -> low = len pre + 1 ->
  exists st', copied st' genesis (pre ++ seg) /\
  replay_batch files acc e st
    = (st', expected_anchor ← decode_block_hash_hex (be_anchor_block_hash e);
            ensure (bool_decide (last_hash [] seg = expected_anchor))
              (ColdError.AnchorMismatch (be_file_name e)) ;;
            Ok (acc.1 + len seg, last_hash [] seg)).
Proof.
  intros (z & raw & Hz & Hsha & Hraw & Hs & Hne & Hlow & Hhigh) Hc Hf Hpre.
  pose proof (fo_max _ _ _ Hf) as Hmax.
  destruct (replay_blocks_Ok genesis e seg raw (length raw) st pre 0 ZERO_HASH Hs Hc Hf) as (st' & Hrun & Hc');
    [lia|lia|].
  exists st'. split; [done|]. unfold replay_batch, mbind, ImportM_bind, lift_import.
  rewrite Hz. cbn [ok_or]. rewrite Hsha, bool_decide_true by done. cbn [ensure]. rewrite Hraw. cbn [ok_or].
  assert (0 < len seg) as Hpos by (destruct seg; [done|rewrite len_cons; lia]).
  unfold sub_checked, add_checked, mbind, outcome_bind.
  rewrite (proj2 (N.leb_le (be_low_height e) _)) by lia. rewrite (proj2 (N.leb_le _ u64_max)) by lia.
  rewrite Hrun. replace (be_high_height e - be_low_height e + 1) with (0 + len seg) by lia.
  rewrite N.eqb_refl. cbn [ensure]. rewrite (last_hash_any ZERO_HASH [] seg Hne).
  destruct (decode_block_hash_hex _); [|done..]. by destruct (bool_decide _).
Qed.

Lemma replay_batch_Ok genesis files low seg e st pre acc :
  batch_holds files low seg e -> copied st genesis pre -> follows genesis pre seg -> low = len pre + 1 ->
  exists st', replay_batch files acc e st = (st', Ok (acc.1 + len seg, last_hash [] seg)) /\
    copied st' genesis (pre ++ seg).
Proof.
  intros [Hb Hanchor] Hc Hf Hpre. destruct (replay_batch_run _ _ _ _ _ _ _ acc Hb Hc Hf Hpre) as (st' & Hc' & Hrun).
  exists st'. split; [|done]. rewrite Hrun, Hanchor. destruct Hb as (_ & _ & _ & _ & _ & _ & Hne & _).
  rewrite decode_hash_encode by (by eapply last_hash_length, Hne; apply Hf).
  cbn [mbind outcome_bind]. by rewrite bool_decide_true.
Qed.

Lemma replay_batches_Ok genesis files low l es st pre acc :
  archives files low l es -> copied st genesis pre -> follows genesis pre l -> low = len pre + 1 ->
  exists st', replay_batches files acc es st = (st', Ok (acc.1 + len l, last_hash acc.2 l)) /\
    copied st' genesis (pre ++ l).
Proof.
  intros Ha. revert st pre acc. induction Ha as [|low seg rest e es Hb _ IH]; intros st pre acc Hc Hf Hlow.
  { exists st. rewrite app_nil_r. split; [|done]. destruct acc. cbn. by rewrite N.add_0_r. }
  apply follows_split in Hf as [Hf Hf'].
  destruct (replay_batch_Ok genesis files low seg e st pre acc Hb Hc Hf Hlow) as (st1 & Hrun & Hc1).
  destruct (IH st1 (pre ++ seg) (acc.1 + len seg, last_hash [] seg)) as (st' & Hruns & Hc');
    [done|done|rewrite len_app; lia|].
  exists st'. rewrite <-app_assoc in Hc'. split; [|done].
  cbn [replay_batches]. unfold mbind, ImportM_bind. rewrite Hrun, Hruns. cbn [fst snd].
  rewrite last_hash_app, len_app. f_equal. f_equal. f_equal; [lia|].
  destruct Hb as [(_ & _ & _ & _ & _ & _ & Hne & _) _]. unfold last_hash.
  destruct seg as [|x seg _] using rev_ind; [done|]. rewrite !last_app. by destruct (last rest).
Qed.

(** ** The manifest *)

Definition signing_key `{Rng} (keystore : option Keystore) (opts : ExportOptions) : Prop :=
  forall operator_hex, eo_sign_with_operator_hex opts = Some operator_hex ->
  exists ks address entry rng pk sk, keystore = Some ks /\
    hex_decode (trim_start_0x operator_hex) = Some address /\ len address = 32 /\
    get_latest ks address = Some entry /\ ke_archival_sk entry = Some sk /\
    slh_dsa_shake_256s_generate rng = Ok (pk, sk).

Lemma strip_signed m s t : strip (m <| cm_signature := s |> <| cm_tsa_token := t |>) = strip m.
Proof. by destruct m. Qed.

Lemma signed_signature m s t : cm_signature (m <| cm_signature := s |> <| cm_tsa_token := t |>) = s.
Proof. by destruct m. Qed.

Lemma sign_manifest_Ok `{Rng} ks operator_hex address entry rng pk sk m :
  hex_decode (trim_start_0x operator_hex) = Some address -> len address = 32 ->
  get_latest ks address = Some entry -> ke_archival_sk entry = Some sk ->
  slh_dsa_shake_256s_generate rng = Ok (pk, sk) ->
  exists s, sign_manifest_in_place m ks operator_hex = Ok (m <| cm_signature := Some s |>) /\
    forall t, verify_manifest_signature (m <| cm_signature := Some s |> <| cm_tsa_token := t |>) = Ok pk.
Proof.
  intros Haddr Hlen Hget Hsk Hgen. pose proof (slh_params_wf AlgId.SlhDsaShake256s Shake256s eq_refl) as Hwf.
  destruct (slh_generate_spec Shake256s rng Hwf) as (key & Hkey & Hgen').
  unfold slh_dsa_shake_256s_generate in Hgen. rewrite Hgen' in Hgen. injection Hgen as <- <-.
  destruct (Hjson (strip m)) as [canonical Hcan].
  assert (forall s t, signing_preimage (m <| cm_signature := s |> <| cm_tsa_token := t |>)
    = Ok (MANIFEST_SIGNING_DOMAIN ++ canonical)) as Hpre.
  { intros s t. unfold signing_preimage, canonical_manifest_bytes. by rewrite strip_signed, Hcan. }
  destruct (slh_sign_accepted AlgId.SlhDsaShake256s Shake256s key (MANIFEST_SIGNING_DOMAIN ++ canonical) eq_refl Hkey)
    as (sig & Hsign & _ & Hv).
  destruct (SigningKey_to_bytes_spec Shake256s Hwf key Hkey) as [_ Hskl].
  assert (take 64 (drop 64 (signing_key_bytes key)) = vk_bytes (sk_verifying_key key)) as Hpk.
  { destruct (signing_key_vk_wf Shake256s Hwf key Hkey) as [Hps Hpr], Hkey as (Hs & Hp & _).
    cbn [hs_N Shake256s] in *. unfold signing_key_bytes, vk_bytes. rewrite app_assoc.
    rewrite drop_app_length' by (rewrite length_app; cbn in *; lia).
    apply take_ge. rewrite length_app. cbn in *. lia. }
  eexists. split.
  - unfold sign_manifest_in_place. rewrite Haddr. cbn [ok_or mbind outcome_bind]. rewrite Hlen. cbn [N.eqb Pos.eqb ensure mbind outcome_bind].
    rewrite Hget. cbn [ok_or mbind outcome_bind]. rewrite Hsk. cbn [ok_or mbind outcome_bind].
    assert (signing_preimage m = Ok (MANIFEST_SIGNING_DOMAIN ++ canonical)) as ->.
    { unfold signing_preimage, canonical_manifest_bytes. by rewrite Hcan. }
    cbn [mbind outcome_bind]. unfold slh_dsa_shake_256s_sign. rewrite Hsign. cbn [map_err mbind outcome_bind].
    rewrite Hskl. change (SkLen Shake256s =? SLH_DSA_SHAKE_256S_SK_LEN) with true. cbn [ensure mbind outcome_bind].
    rewrite Hpk. reflexivity.
  - intros t. unfold verify_manifest_signature. rewrite Hpre.
    rewrite signed_signature. cbn [ok_or mbind outcome_bind ms_alg ms_signer_pk_hex ms_value_hex].
    rewrite bool_decide_true by done. cbn [ensure mbind outcome_bind].
    rewrite !trim_start_0x_digits by apply hex_encode_lower. rewrite !hex_decode_encode.
    cbn [ok_or mbind outcome_bind]. by rewrite Hv.
Qed.

Lemma sign_step_Ok `{Rng} keystore opts m :
  cm_signature m = None -> signing_key keystore opts ->
  exists s, sign_step m keystore opts = Ok (m <| cm_signature := s |>) /\
    (is_Some s <-> is_Some (eo_sign_with_operator_hex opts)) /\
    forall t, is_Some s -> exists pk,
      verify_manifest_signature (m <| cm_signature := s |> <| cm_tsa_token := t |>) = Ok pk.
Proof.
  intros Hm Hkey. unfold sign_step. destruct (eo_sign_with_operator_hex opts) as [operator_hex|] eqn:Hop.
  - destruct (Hkey _ Hop) as (ks & address & entry & rng & pk & sk & -> & Ha & Hl & Hg & Hsk & Hgen).
    destruct (sign_manifest_Ok _ _ _ _ _ _ _ m Ha Hl Hg Hsk Hgen) as (s & Hs & Hv).
    exists (Some s). cbn [ok_or mbind outcome_bind]. split; [done|]. split; [done|]. intros t _. by eexists.
  - exists None. split; [by destruct m; cbn in Hm; subst|]. split; [done|]. by intros t [].
Qed.

Lemma anchor_step_Ok opts m :
  cm_tsa_token m = None -> (eo_anchor_tsa_url opts = None \/ eo_tsa_best_effort opts = true) ->
  exists t, anchor_step m opts = Ok (m <| cm_tsa_token := t |>).
Proof.
  intros Hm Ho. assert (m = m <| cm_tsa_token := None |>) as Hid by (destruct m; cbn in Hm; by subst).
  unfold anchor_step. destruct (eo_anchor_tsa_url opts) as [url|]; [|exists None; by rewrite <-Hid].
  destruct Ho as [?| ->]; [done|]. unfold anchor_manifest_with_tsa, canonical_manifest_bytes.
  destruct (Hjson (strip m)) as [b ->]. cbn [ok_or mbind outcome_bind].
  destruct (tsa_post _ _) as [body|]; cbn [ok_or mbind outcome_bind]; [|exists None; by rewrite <-Hid].
  destruct (_ <=? _); cbn [ensure mbind outcome_bind]; [by eexists|exists None; by rewrite <-Hid].
Qed.

(** The manifest of an export passes the checks of an import into an empty store. *)
Lemma check_manifest_Ok files iopts m b :
  files !! MANIFEST_FILE = Some b -> to_json m = Some b -> cm_schema_version m = MANIFEST_SCHEMA_VERSION_V2 ->
  cm_batch_count m = len (cm_batches m) mod 2 ^ 32 -> cm_low_height m = 1 -> io_require_tsa iopts = false ->
  (io_insecure_no_verify iopts = true \/ is_Some (cm_signature m)) ->
  (is_Some (cm_signature m) -> exists pk, verify_manifest_signature m = Ok pk) ->
  check_manifest files iopts 0
    = Ok (m, negb (io_insecure_no_verify iopts) && bool_decide (is_Some (cm_signature m))).
Proof.
  intros Hf Hb Hver Hcount Hlow Htsa Hsig Hv. unfold check_manifest. rewrite Hf. cbn [ok_or mbind outcome_bind].
  rewrite (of_to_json _ _ Hb). cbn [ok_or mbind outcome_bind]. rewrite Hver.
  rewrite (bool_decide_true (_ = MANIFEST_SCHEMA_VERSION_V2)), orb_true_r by done. cbn [ensure mbind outcome_bind].
  rewrite Hcount, N.eqb_refl, Htsa, Hlow. cbn [ensure mbind outcome_bind andb negb].
  change (negb (1 <=? 0)) with true. cbn [ensure].
  destruct (cm_signature m) as [s|], (io_insecure_no_verify iopts); cbn [negb andb mbind outcome_bind]; try done.
  - destruct Hv as [pk ->]; [done|]. done.
  - by destruct Hsig as [?|[? ?]].
Qed.

Lemma export_Ok `{Rng} genesis src l cutoff batch_size files keystore opts now chain_id_hex :
  history genesis src l -> 0 < cutoff <= len l -> 0 < batch_size ->
  cutoff + batch_size <= u64_max -> cutoff * 1024 <= max_capacity ->
  signing_key keystore opts -> (eo_anchor_tsa_url opts = None \/ eo_tsa_best_effort opts = true) ->
  exists files' m b,
    export_cold_storage src chain_id_hex cutoff batch_size files keystore opts now = Ok (files', m) /\
    files' !! MANIFEST_FILE = Some b /\ to_json m = Some b /\
    cm_schema_version m = MANIFEST_SCHEMA_VERSION_V2 /\
    cm_batch_count m = len (cm_batches m) mod 2 ^ 32 /\ cm_low_height m = 1 /\
    (is_Some (cm_signature m) <-> is_Some (eo_sign_with_operator_hex opts)) /\
    (is_Some (cm_signature m) -> exists pk, verify_manifest_signature m = Ok pk) /\
    archives files' 1 (take (N.to_nat cutoff) l) (cm_batches m).
Proof.
  intros Hh Hcut Hbs Hmax Hcap Hkey Htsa. destruct (history_length _ _ _ Hh) as [_ Htip].
  unfold export_cold_storage. rewrite (proj2 (N.eqb_neq cutoff 0)) by lia. cbn [negb ensure mbind outcome_bind].
  rewrite Htip, (proj2 (N.ltb_ge _ _)) by lia. cbn [negb ensure mbind outcome_bind].
  rewrite (proj2 (N.eqb_neq batch_size 0)) by lia. cbn [negb ensure mbind outcome_bind].
  destruct (write_batches_Ok genesis src l batch_size (N.to_nat cutoff) (N.to_nat cutoff) 0 files [] Hh Hbs)
    as (files1 & es & Hw & Ha & Hn & _); [unfold len in *; lia|lia|lia|lia|].
  rewrite Nat.add_0_l, N2Nat.id in Hw. change (N.of_nat 0 + 1) with 1 in Hw, Ha. rewrite Hw.
  cbn [mbind outcome_bind app]. rewrite drop_0 in Ha.
  set (m0 := mkColdStorageManifest _ _ _ _ _ _ _ _ _).
  destruct (sign_step_Ok keystore opts m0 eq_refl Hkey) as (s & Hs & Hsome & Hv). rewrite Hs.
  cbn [mbind outcome_bind].
  destruct (anchor_step_Ok opts (m0 <| cm_signature := s |>)) as (t & Ht); [done|done|]. rewrite Ht.
  cbn [mbind outcome_bind].
  destruct (Hjson (m0 <| cm_signature := s |> <| cm_tsa_token := t |>)) as [b Hb]. rewrite Hb.
  eexists _, _, b. split; [reflexivity|]. rewrite lookup_insert_eq. split_and!; try done.
  - apply Hv.
  - change (cm_batches _) with es. eapply archives_agree, Ha. intros e He. apply lookup_insert_ne.
    destruct (Hn e He) as (low & high & ->). intros Heq. by eapply batch_file_name_manifest.
Qed.

(** C22 A cold-storage archive restores the chain. Take a store that appended blocks, replaced
    tips by counted siblings with the same transactions, wrote checkpoints and was never
    pruned, with readable blocks (each transaction decodes from its encoding, whose hash is the
    recorded one), a cutoff above 0 and up to its height below which no two blocks have the
    same hash, and a batch size above 0 (their sum within u64, 1024 bytes per block
    allocatable). Signing, if asked for, uses a generated archival key in the keystore; time
    stamping is off or best effort. If compression, JSON encoding and database writes succeed,
    the export succeeds, and so does the import into a new store of the same anchor, if it does
    not require a time stamp and is either [insecure_no_verify] or given a signature: it
    replays exactly the first [cutoff] blocks, verifies a signature unless told not to, and the
    new store reads at every height up to the cutoff the block that the old one reads. *)
Theorem cold_storage_restores `{Rng} genesis src l cutoff batch_size files keystore opts now
    chain_id_hex iopts (db : DB) dst :
  kept genesis src l -> 0 < cutoff <= len l -> 0 < batch_size ->
  cutoff + batch_size <= u64_max -> cutoff * 1024 <= max_capacity ->
  NoDup (sb_hash <$> take (N.to_nat cutoff) l) ->
  signing_key keystore opts -> (eo_anchor_tsa_url opts = None \/ eo_tsa_best_effort opts = true) ->
  io_require_tsa iopts = false ->
  (io_insecure_no_verify iopts = true \/ is_Some (eo_sign_with_operator_hex opts)) ->
  (forall cf k, db_get db cf k = None) -> rocks_open_internal db genesis = Ok dst ->
  exists files' m dst' summary,
    export_cold_storage src chain_id_hex cutoff batch_size files keystore opts now = Ok (files', m) /\
    import_cold_storage files' iopts dst = (dst', Ok summary) /\
    is_blocks_replayed summary = cutoff /\
    is_signature_verified summary = negb (io_insecure_no_verify iopts)
      && bool_decide (is_Some (eo_sign_with_operator_hex opts)) /\
    is_final_tip_hash_hex summary = hex_encode (expected_prev_hash (rk_chain dst')) /\
    chain_height (rk_chain dst') = cutoff /\
    forall h, h <= cutoff -> rocks_read_stored_block_at_height dst' h = rocks_read_stored_block_at_height src h.
Proof.
  intros Hh%kept_history Hcut Hbs Hmax Hcap Hnd Hkey Htsa Hreq Hins Hn Ho.
  destruct (export_Ok genesis src l cutoff batch_size files keystore opts now chain_id_hex)
    as (files' & m & b & He & Hf & Hb & Hver & Hcount & Hlow & Hsig & Hv & Ha); try done.
  pose proof Hh as (Henc & l1 & l2 & any & Hl & Hrep). pose proof (proj1 Hrep) as Hd.
  assert (length genesis = 32%nat) as Hlen.
  { rewrite (dr_start _ _ _ _ _ _ _ _ Hd eq_refl). apply Hd. }
  destruct (open_empty_total Hwrites db genesis Hn Hlen) as (dst0 & Ho' & Hc0).
  rewrite Ho in Ho'. injection Ho' as <-. set (pre := take (N.to_nat cutoff) l) in *.
  assert (len pre = cutoff) as Hpre by (unfold pre, len in *; rewrite length_take; lia).
  destruct (history_length _ _ _ Hh) as [Hll _].
  assert (follows genesis [] pre) as Hfo.
  { pose proof (dr_linked _ _ _ _ _ _ _ _ Hd) as Hlk. pose proof (dr_counted _ _ _ _ _ _ _ _ Hd) as Hcn.
    rewrite <-Hl, <-(take_drop (N.to_nat cutoff) l) in Hlk, Hcn. apply linked_app in Hlk as [Hlk _].
    apply Forall_app in Hcn as [Hcn _]. split; try done; [|rewrite Hpre; change (len []) with 0; lia].
    apply Forall_lookup. intros i sb Hi. apply lookup_take_Some in Hi as [Hi _]. by apply (Henc i). }
  destruct (replay_batches_Ok genesis files' 1 pre (cm_batches m) dst [] (0, ZERO_HASH) Ha Hc0 Hfo eq_refl)
    as (dst' & Hrun & Hc').
  destruct Hc' as [Hrep' _]. cbn [app] in Hrep'. pose proof (mem_height _ _ _ _ (proj2 (proj1 Hc0))) as Hd0.
  change (0 + len [] + len []) with 0 in Hd0.
  pose proof (proj2 Hrep') as Hm'. pose proof (mem_height _ _ _ _ Hm') as Hh'.
  change (0 + len []) with 0 in Hh'. rewrite N.add_0_l, Hpre in Hh'.
  eexists files', m, dst', _. split; [exact He|]. split.
  { unfold import_cold_storage, mbind, ImportM_bind, lift_import.
    rewrite Hd0, (check_manifest_Ok files' iopts m b) by (done || by rewrite Hsig). rewrite Hrun. reflexivity. }
  cbn [is_blocks_replayed is_signature_verified is_final_tip_hash_hex fst snd]. split_and!; [lia| | |done|].
  - f_equal. by apply bool_decide_ext.
  - rewrite (mr_prev _ _ _ _ Hm'). f_equal. apply last_hash_any. intros Hnil. rewrite Hnil in Hpre.
    change (len []) with 0 in Hpre. lia.
  - intros h Hle. rewrite (read_block_rep _ _ _ _ _ _ _ _ Hrep'), (read_block_rep _ _ _ _ _ _ _ _ Hrep) by lia.
    rewrite <-Hl. unfold block_at. cbn [app]. f_equal. destruct (_ && _) eqn:Hr; [|done].
    apply andb_true_iff in Hr as [?%N.ltb_lt _]. apply lookup_take_lt. lia.
Qed.

(** ** Any directory *)

(** The blocks in the files are such that the store reads them back after it has encoded
    them again. *)
Definition readable_stream (raw : bytes) : Prop := forall skipped cursor sb rest,
  raw = skipped ++ cursor -> decode_block_bytes_from_reader cursor = Ok (sb, rest) -> readable sb.
Definition readable_files files : Prop := forall name z raw,
  files !! name = Some z -> zstd_decode z = Some raw -> readable_stream raw.

Lemma decode_rest cursor sb rest :
  decode_block_bytes_from_reader cursor = Ok (sb, rest) -> exists item, item <> [] /\ cursor = item ++ rest.
Proof.
  unfold decode_block_bytes_from_reader. intros Hd. apply bind_Ok in Hd as ([record rest'] & Hr%ok_or_Ok & Hd).
  apply bind_Ok in Hd as (sb' & _ & [= -> ->]). by eapply read_item_prefix.
Qed.

(** [st'] has the blocks of [st] and then [new], in memory and on disk. *)
Record extends st st' (new : list StoredBlock) : Prop := {
  ex_mem : forall anchor base l, mem_rep (rk_chain st) anchor base l ->
    mem_rep (rk_chain st') anchor base (l ++ new);
  ex_disk : forall base anchor first l1 l2 any, rocks_rep st base anchor first l1 l2 any ->
    chain_height (rk_chain st') < u64_max -> rocks_rep st' base anchor first l1 (l2 ++ new) any
}.

Lemma extends_refl st : extends st st [].
Proof. split; intros; by rewrite app_nil_r. Qed.

Lemma extends_trans st st1 st' new new' :
  extends st st1 new -> extends st1 st' new' -> extends st st' (new ++ new').
Proof.
  intros [Hm Hd] [Hm' Hd']. split.
  - intros anchor base l Hl. rewrite app_assoc. by apply Hm', Hm.
  - intros base anchor first l1 l2 any Hr Hmax. rewrite app_assoc. apply Hd'; [|done]. apply Hd; [done|].
    pose proof (mem_height _ _ _ _ (Hm _ _ _ (proj2 Hr))) as Hh.
    pose proof (mem_height _ _ _ _ (Hm' _ _ _ (Hm _ _ _ (proj2 Hr)))) as Hh'. rewrite !len_app in *. lia.
Qed.

Lemma extends_append st sb st' m :
  readable sb -> rocks_append_stored_block st sb None = Ok (st', m) -> extends st st' [sb].
Proof.
  intros Hrd Ha. unfold rocks_append_stored_block in Ha.
  cbn [check_commit mbind outcome_bind] in Ha. apply bind_Ok in Ha as ([c md] & Ht%map_err_Ok & Ha).
  apply bind_Ok in Ha as (db' & Hp & [= <- _]). cbn [rk_chain]. split; cbn [rk_chain].
  - intros anchor base l Hm. by destruct (append_settled _ _ _ _ _ _ _ Hm Ht) as (_ & _ & _ & Hm').
  - intros base anchor first l1 l2 any Hr Hmax. eapply append_rocks; try done.
    destruct (append_settled _ _ _ _ _ _ _ (proj2 Hr) Ht) as (_ & _ & Hc & Hm').
    destruct (mem_fits _ _ _ _ _ _ Hm' Hc Hrd) as [Hfit _]. rewrite (fi_height _ _ _ _ Hfit).
    rewrite (mem_height _ _ _ _ Hm'), len_app in Hmax. change (len [sb]) with 1 in Hmax. rewrite len_app. lia.
Qed.

(** A step of the replay appends some blocks; when it succeeds, it has counted them and has
    the hash of the last one. *)
Definition replays st (acc : N * bytes) (res : RocksDbChainStore * outcome ColdError.t (N * bytes)) : Prop :=
  exists new, extends st res.1 new /\
  forall n h, res.2 = Ok (n, h) -> n = acc.1 + len new /\ h = last_hash acc.2 new.

Lemma replays_stop st acc o : (forall p, o <> Ok p) -> replays st acc (st, o).
Proof. intros Ho. exists []. split; [apply extends_refl|]. intros n h Hr. by destruct (Ho _ Hr). Qed.

Lemma replays_done st acc : replays st acc (st, Ok acc).
Proof.
  exists []. split; [apply extends_refl|]. destruct acc as [n0 h0]. intros n h [= <- <-]. cbn.
  by rewrite N.add_0_r.
Qed.

Lemma replay_blocks_replays fuel batch raw cursor skipped decoded prev st :
  readable_stream raw -> raw = skipped ++ cursor ->
  replays st (decoded, prev) (replay_blocks fuel batch cursor decoded prev st).
Proof.
  intros Hrd. revert skipped cursor decoded prev st.
  induction fuel as [|fuel IH]; intros skipped cursor decoded prev st Hraw;
    (destruct cursor as [|x cursor]; cbn [replay_blocks]; [apply replays_done|]).
  { by apply replays_stop. }
  unfold mbind, ImportM_bind, lift_import.
  destruct (decode_block_bytes_from_reader (x :: cursor)) as [[sb rest]| |] eqn:Hdec; cbn [map_err];
    [|by apply replays_stop..].
  destruct (add_checked _ _ _); [|by apply replays_stop..].
  destruct (_ =? _); cbn [ensure]; [|by apply replays_stop].
  unfold import_append.
  destruct (rocks_append_stored_block st sb None) as [[st1 m]| |] eqn:Happ; [|by apply replays_stop..].
  destruct (decode_rest _ _ _ Hdec) as (item & _ & Hitem).
  pose proof (extends_append _ _ _ _ (Hrd _ _ _ _ Hraw Hdec) Happ) as Hext.
  destruct (IH (skipped ++ item) rest (decoded + 1) (sb_hash sb) st1) as (new & Hnew & Hres);
    [by rewrite Hraw, Hitem, app_assoc|].
  exists (sb :: new). split; [by apply (extends_trans _ st1 _ [sb])|].
  intros n h Hr. destruct (Hres _ _ Hr) as [-> ->]. cbn [fst snd]. rewrite len_cons, last_hash_cons. split; [lia|done].
Qed.

Lemma replay_batch_replays files acc batch st :
  readable_files files -> replays st acc (replay_batch files acc batch st).
Proof.
  intros Hrd. unfold replay_batch, lift_import. unfold mbind at 1, ImportM_bind at 1.
  destruct (files !! be_file_name batch) as [z|] eqn:Hz; cbn [ok_or]; [|by apply replays_stop].
  unfold mbind at 1, ImportM_bind at 1. destruct (bool_decide _); cbn [ensure]; [|by apply replays_stop].
  unfold mbind at 1, ImportM_bind at 1. destruct (zstd_decode z) as [raw|] eqn:Hraw; cbn [ok_or]; [|by apply replays_stop].
  unfold mbind at 1, ImportM_bind at 1.
  destruct (span ← sub_checked _ _; _) as [expected| |] eqn:Hexp; [|by apply replays_stop..].
  unfold mbind at 1, ImportM_bind at 1.
  destruct (replay_blocks_replays (length raw) batch raw raw [] 0 ZERO_HASH st (Hrd _ _ _ Hz Hraw) eq_refl)
    as (new & Hext & Hres).
  destruct (replay_blocks _ _ _ _ _ st) as [st1 r]. cbn [fst snd] in *. exists new.
  destruct r as [[n h]| |]; [|by split..]. destruct (Hres _ _ eq_refl) as [-> ->].
  unfold mbind, ImportM_bind. destruct (N.eqb_spec (0 + len new) expected) as [Hcnt|]; cbn [ensure]; [|by split].
  destruct (decode_block_hash_hex _) as [anchor| |]; [|by split..].
  destruct (bool_decide _); cbn [ensure]; [|by split]. split; [done|]. intros n h [= <- <-]. cbn [fst snd].
  split; [lia|]. apply last_hash_any. intros ->. apply bind_Ok in Hexp as (span & _ & Hexp).
  apply add_checked_Ok in Hexp as [-> _]. change (len []) with 0 in Hcnt. lia.
Qed.

Lemma replay_batches_replays files acc batches st :
  readable_files files -> replays st acc (replay_batches files acc batches st).
Proof.
  intros Hrd. revert acc st. induction batches as [|e es IH]; intros acc st; [apply replays_done|].
  cbn [replay_batches]. unfold mbind, ImportM_bind.
  destruct (replay_batch_replays files acc e st Hrd) as (new & Hext & Hres).
  destruct (replay_batch files acc e st) as [st1 r]. cbn [fst snd] in *.
  destruct r as [[n h]| |]; [|by exists new..]. destruct (Hres _ _ eq_refl) as [-> ->].
  destruct (IH (acc.1 + len new, last_hash acc.2 new) st1) as (new' & Hext' & Hres').
  exists (new ++ new'). split; [by eapply extends_trans|]. intros n h Hr.
  destruct (Hres' _ _ Hr) as [-> ->]. cbn [fst snd]. rewrite last_hash_app, len_app. split; [lia|done].
Qed.

(** C23 An import cannot damage the chain.  Whatever the directory holds and whatever the
    options, the store afterwards still represents a linked chain, in memory and on disk: the
    old blocks and then the ones replayed.  When the import reports success, the count and the
    tip hash it reports are those of the replayed blocks, and without [insecure_no_verify] the
    manifest carried a signature that verifies.  When the manifest fails a check, nothing is
    replayed.  This is for files whose transactions are in their canonical encoding. *)
Theorem import_keeps_chain files iopts st base anchor first l1 l2 any st' r :
  rocks_rep st base anchor first l1 l2 any -> readable_files files ->
  import_cold_storage files iopts st = (st', r) -> chain_height (rk_chain st') < u64_max ->
  exists new, rocks_rep st' base anchor first l1 (l2 ++ new) any /\
    (forall summary, r = Ok summary ->
       is_blocks_replayed summary = len new /\
       is_final_tip_hash_hex summary = hex_encode (last_hash ZERO_HASH new) /\
       (io_insecure_no_verify iopts = false -> exists b m pk, files !! MANIFEST_FILE = Some b /\
          of_json b = Some m /\ verify_manifest_signature m = Ok pk)) /\
    ((forall p, check_manifest files iopts (chain_height (rk_chain st)) <> Ok p) -> st' = st).
Proof.
  intros Hrep Hrd Hi Hmax. unfold import_cold_storage, mbind, ImportM_bind, lift_import in Hi.
  destruct (check_manifest _ _ _) as [[m verified]| |] eqn:Hcheck.
  2, 3: injection Hi as <- <-; exists []; rewrite app_nil_r; by split_and!.
  destruct (replay_batches_replays files (0, ZERO_HASH) (cm_batches m) st Hrd) as (new & Hext & Hres).
  destruct (replay_batches _ _ _ st) as [st1 r1]. cbn [fst snd] in *. exists new.
  assert (st' = st1) as -> by (by destruct r1 as [[]| |]; injection Hi).
  split; [by apply (ex_disk _ _ _ Hext)|]. split; [|by intros Hno; destruct (Hno _ eq_refl)].
  intros summary ->. destruct r1 as [[n h]| |]; [|done..]. destruct (Hres _ _ eq_refl) as [-> ->].
  injection Hi as <-. split; [done|]. split; [done|]. intros Hins. unfold check_manifest in Hcheck.
  apply bind_Ok in Hcheck as (b & Hb%ok_or_Ok & Hcheck). apply bind_Ok in Hcheck as (m' & Hm%ok_or_Ok & Hcheck).
  apply bind_Ok in Hcheck as ([] & _ & Hcheck). apply bind_Ok in Hcheck as ([] & _ & Hcheck).
  rewrite Hins in Hcheck. apply bind_Ok in Hcheck as (v & Hv & _). destruct (cm_signature m'); [|done].
  apply bind_Ok in Hv as (pk & Hv & _). by exists b, m', pk.
Qed.

Lemma import_into_full files iopts st :
  (forall b m, files !! MANIFEST_FILE = Some b -> of_json b = Some m ->
     cm_low_height m <= chain_height (rk_chain st)) ->
  exists r, import_cold_storage files iopts st = (st, r) /\ forall summary, r <> Ok summary.
Proof.
  intros Hlow. unfold import_cold_storage, mbind, ImportM_bind, lift_import.
  destruct (check_manifest _ _ _) as [[m v]| |] eqn:Hcheck; [|by eexists..]. exfalso.
  unfold check_manifest in Hcheck.
  apply bind_Ok in Hcheck as (b & Hb%ok_or_Ok & Hcheck). apply bind_Ok in Hcheck as (m' & Hm%ok_or_Ok & Hcheck).
  do 2 apply bind_Ok in Hcheck as ([] & _ & Hcheck). apply bind_Ok in Hcheck as (v' & _ & Hcheck).
  apply bind_Ok in Hcheck as ([] & _ & Hcheck). rewrite (proj2 (N.leb_le _ _) (Hlow _ _ Hb Hm)) in Hcheck. done.
Qed.

(** A manifest with one batch that passes the checks: the blocks are in the store whatever the
    anchor says. *)
Lemma import_one_batch genesis files iopts m verified seg e (db : DB) dst :
  (forall cf k, db_get db cf k = None) -> length genesis = 32%nat -> rocks_open_internal db genesis = Ok dst ->
  check_manifest files iopts 0 = Ok (m, verified) -> cm_batches m = [e] ->
  batch_blocks files 1 seg e -> follows genesis [] seg ->
  exists dst' r, import_cold_storage files iopts dst = (dst', r) /\ copied dst' genesis seg /\
    forall hash, decode_block_hash_hex (be_anchor_block_hash e) = Ok hash -> hash <> last_hash [] seg ->
      r = Err (ColdError.AnchorMismatch (be_file_name e)).
Proof.
  intros Hn Hlen Ho Hcheck Hbs Hb Hf.
  destruct (open_empty_total Hwrites db genesis Hn Hlen) as (dst0 & Ho' & Hc0).
  rewrite Ho in Ho'. injection Ho' as <-.
  destruct (replay_batch_run genesis files 1 seg e dst [] (0, ZERO_HASH) Hb Hc0 Hf eq_refl) as (dst' & Hc' & Hrun).
  pose proof (mem_height _ _ _ _ (proj2 (proj1 Hc0))) as Hd0. change (0 + len [] + len []) with 0 in Hd0.
  unfold import_cold_storage, mbind, ImportM_bind, lift_import. rewrite Hd0, Hcheck, Hbs.
  cbn [replay_batches]. unfold mbind, ImportM_bind. rewrite Hrun. exists dst'.
  destruct (decode_block_hash_hex _) as [hash| |]; cbn [mbind outcome_bind]; [|by eexists..].
  destruct (bool_decide _) eqn:Hd; cbn [ensure mbind outcome_bind]; eexists; split; try done; (split; [done|]).
  apply bool_decide_eq_true in Hd as <-. by intros h [= <-].
Qed.

(** C39 A refused import leaves its blocks behind.  The comment on [import_cold_storage] has the
    hash of the last block checked before the blocks are appended; the code appends first.
    With a wrong anchor in the manifest the import into an empty store fails with
    [AnchorMismatch], and yet the store has every block of the batch; from then on every
    directory that starts at or below that height is refused, the right one included. *)
Theorem refused_import_keeps_blocks genesis files iopts m verified seg e hash (db : DB) dst :
  (forall cf k, db_get db cf k = None) -> length genesis = 32%nat -> rocks_open_internal db genesis = Ok dst ->
  check_manifest files iopts 0 = Ok (m, verified) -> cm_batches m = [e] ->
  batch_blocks files 1 seg e -> follows genesis [] seg ->
  decode_block_hash_hex (be_anchor_block_hash e) = Ok hash -> hash <> last_hash [] seg ->
  exists dst', import_cold_storage files iopts dst = (dst', Err (ColdError.AnchorMismatch (be_file_name e))) /\
    chain_height (rk_chain dst') = len seg /\ blocks_in_order (rk_chain dst') = seg /\
    forall files' iopts', (forall b m', files' !! MANIFEST_FILE = Some b -> of_json b = Some m' ->
        cm_low_height m' <= len seg) ->
      exists r, import_cold_storage files' iopts' dst' = (dst', r) /\ forall summary, r <> Ok summary.
Proof.
  intros Hn Hlen Ho Hcheck Hbs Hb Hf Hdec Hne.
  destruct (import_one_batch _ _ _ _ _ _ _ _ _ Hn Hlen Ho Hcheck Hbs Hb Hf) as (dst' & r & Hi & [Hrep Hc] & Hr).
  rewrite (Hr _ Hdec Hne) in Hi. pose proof (mem_height _ _ _ _ (proj2 Hrep)) as Hh.
  change (0 + len []) with 0 in Hh. rewrite N.add_0_l in Hh. exists dst'. split_and!; [done|done| |].
  - by apply rep_blocks_in_order.
  - intros files' iopts' Hlow. apply import_into_full. intros b m' Hb' Hm'. rewrite Hh. by eapply Hlow.
Qed.
End archive.

(** ** Witnesses *)

(** A stream of the records of a table, each by its position in eight bytes. *)
Definition table_stream {R} (table : list R) : CborStream R := fun s =>
  r ← (if Nat.leb 8 (length s) then table !! N.to_nat (of_be_bytes (take 8 s)) else None);
  Some (r, drop 8 s).

Lemma table_stream_laws {R} `{EqDecision R} (table : list R) :
  len table <= u64_max -> @CborStreamLaws R (table_serde table) (table_stream table).
Proof.
  intros Hlen. split.
  - intros r b rest Hb. pose proof (table_serde_laws table Hlen r b Hb) as Hof. cbn in Hb, Hof.
    apply fmap_Some in Hb as (ix & _ & ->). set (b := be_bytes 8 _) in *.
    assert (length b = 8%nat) as Hl by apply length_be_bytes. unfold read_item, table_stream.
    rewrite length_app, Hl. cbn [Nat.leb Nat.add]. rewrite take_app_length', drop_app_length' by done.
    by rewrite Hof.
  - intros s r rest. unfold read_item, table_stream. destruct (Nat.leb_spec 8 (length s)) as [Hl|]; [|done].
    destruct (table !! _); [|done]. intros [= _ <-]. exists (take 8 s). rewrite take_drop. split; [|done].
    intros Hn. apply (f_equal length) in Hn. rewrite length_take in Hn. cbn [length] in Hn. lia.
Qed.

(** A format of the values of a countable type: the bits of the code. *)
Fixpoint bits_of (p : positive) : bytes :=
  match p with xH => [] | xO p => x00 :: bits_of p | xI p => x01 :: bits_of p end.
Fixpoint of_bits (b : bytes) : positive :=
  match b with [] => xH | x01 :: b => xI (of_bits b) | _ :: b => xO (of_bits b) end.
Lemma of_bits_of p : of_bits (bits_of p) = p.
Proof. induction p as [p IH|p IH|]; cbn; by rewrite ?IH. Qed.

Definition countable_json {R} `{Countable R} : Json R := {|
  to_json := fun r => Some (bits_of (countable.encode r));
  of_json := fun b => countable.decode (of_bits b)
|}.
Lemma countable_json_laws {R} `{Countable R} : @JsonLaws R countable_json.
Proof. intros r b [= <-]. cbn. by rewrite of_bits_of, countable.decode_encode. Qed.

Definition example_zstd : Zstd := {| zstd_encode := Some; zstd_decode := Some |}.
Lemma example_zstd_laws : @ZstdLaws example_zstd.
Proof. intros raw b [= <-]. done. Qed.

(** A service that is down. *)
Definition example_tsa : TsaClient := {| tsa_post := fun _ _ => None; base64_encode := fun b => b |}.

#[global] Instance BatchEntry_eq_dec : EqDecision BatchEntry.
Proof. solve_decision. Defined.
#[global] Instance ManifestSignature_eq_dec : EqDecision ManifestSignature.
Proof. solve_decision. Defined.
#[global] Instance ColdStorageManifest_eq_dec : EqDecision ColdStorageManifest.
Proof. solve_decision. Defined.
#[global] Instance BatchEntry_countable : Countable BatchEntry.
Proof.
  refine (inj_countable'
    (fun e => (be_file_name e, be_low_height e, be_high_height e, be_anchor_block_hash e, be_sha256 e,
               be_uncompressed_bytes e, be_compressed_bytes e))
    (fun '(a, b, c, d, e, f, g) => mkBatchEntry a b c d e f g) _). by intros [].
Defined.
#[global] Instance ManifestSignature_countable : Countable ManifestSignature.
Proof.
  refine (inj_countable'
    (fun s => (ms_alg s, ms_signer_address_hex s, ms_signer_pk_hex s, ms_value_hex s))
    (fun '(a, b, c, d) => mkManifestSignature a b c d) _). by intros [].
Defined.
#[global] Instance ColdStorageManifest_countable : Countable ColdStorageManifest.
Proof.
  refine (inj_countable'
    (fun m => (cm_schema_version m, cm_chain_id_hex m, cm_exported_at_unix m, cm_low_height m,
               cm_high_height m, cm_batch_count m, cm_batches m, cm_signature m, cm_tsa_token m))
    (fun '(a, b, c, d, e, f, g, h, i) => mkColdStorageManifest a b c d e f g h i) _). by intros [].
Defined.

#[local] Existing Instance example_shake.
#[local] Existing Instance example_sha2.
#[local] Existing Instance example_mldsa.
#[local] Existing Instance example_rng.
#[local] Existing Instance example_hex.
#[local] Existing Instance example_verifier.
#[local] Existing Instance Ex.cbor.
#[local] Existing Instance example_rocksdb.
#[local] Existing Instance example_rocksdb_laws.
#[local] Existing Instance example_zstd.
#[local] Existing Instance example_zstd_laws.
#[local] Existing Instance example_tsa.

Lemma table_readable (block : StoredBlock) (cursor : bytes) (sb : StoredBlock) (rest : bytes) :
  readable block ->
  decode_block_bytes_from_reader (CborStream0 := table_stream (RestartEx.record_of block)) cursor = Ok (sb, rest) ->
  readable sb.
Proof.
  intros Hrd Hd. unfold decode_block_bytes_from_reader in Hd.
  apply bind_Ok in Hd as ([record rest'] & Hr%ok_or_Ok & Hd). apply bind_Ok in Hd as (sb' & Hsb & Hd).
  injection Hd as -> _. unfold read_item, table_stream in Hr. destruct (Nat.leb _ _); [|done].
  destruct (RestartEx.record_of block !! _) as [r|] eqn:Hl; [|done]. injection Hr as -> _.
  apply list_elem_of_lookup_2 in Hl. unfold RestartEx.record_of in Hl.
  destruct (stored_block_into_record block) as [rec| |] eqn:Hrec; [|by apply elem_of_nil in Hl..].
  apply list_elem_of_singleton in Hl as ->. rewrite (record_metadata _ _ Hrec) in Hsb.
  assert (length (blk_tx_hashes (sb_block block)) = length (sb_included_transactions block)) as Hlen.
  { symmetry. by apply (Forall2_length _ _ _ Hrd). }
  rewrite (proj2 (stored_record_roundtrip _ _ Hlen Hrec) Hrd) in Hsb. by injection Hsb as <-.
Qed.

Module ColdEx.
Import RestartEx(empty, execution, block, record_of, succeeds, succeeds_Ok, block_readable).
#[export] Existing Instance RestartEx.blocks.
#[export] Existing Instance RestartEx.blocks_laws.
#[export] Existing Instance RestartEx.checkpoints.
#[export] Existing Instance RestartEx.checkpoints_laws.
#[export] Instance stream : CborStream StoredBlockRecord := table_stream (record_of block).
#[export] Instance stream_laws : CborStreamLaws StoredBlockRecord.
Proof.
  apply table_stream_laws. unfold record_of. by destruct (stored_block_into_record block).
Qed.
#[export] Instance json : Json ColdStorageManifest := countable_json.
#[export] Instance json_laws : JsonLaws ColdStorageManifest.
Proof. exact countable_json_laws. Qed.

Lemma zstd_total raw : is_Some (zstd_encode raw).
Proof. by eexists. Qed.
Lemma json_total (m : ColdStorageManifest) : is_Some (to_json m).
Proof. by eexists. Qed.
Lemma writes_total (db : @DB example_rocksdb) batch : is_Some (db_write db batch).
Proof. by eexists. Qed.
Lemma nothing_stored cf k : db_get empty cf k = None.
Proof. apply lookup_empty. Qed.

Definition archived : outcome StorageError.t (RocksDbChainStore * RocksDbChainStore) :=
  st0 ← rocks_open_internal empty RecoveryEx.anchor;
  '(st1, _) ← rocks_append_block st0 execution None;
  Ok (st0, st1).
Lemma archived_Ok : succeeds archived = true.
Proof. vm_cast_no_check (@eq_refl bool true). Qed.

Lemma block_at_one : md_height (sb_metadata block) = 1.
Proof. vm_cast_no_check (@eq_refl N 1). Qed.

(** A fresh store and one with a block. *)
Lemma stores : exists st0 st1,
  rocks_open_internal empty RecoveryEx.anchor = Ok st0 /\ kept RecoveryEx.anchor st1 [block].
Proof.
  destruct (succeeds_Ok _ archived_Ok) as [x Hl]. unfold archived in Hl.
  apply bind_Ok in Hl as (st0 & Ho & Hl). apply bind_Ok in Hl as ([st1 md] & Ha & _).
  exists st0, st1. split; [exact Ho|].
  apply (kept_execution RecoveryEx.anchor st0 [] execution None st1 md).
  - exact (kept_open RecoveryEx.anchor empty st0 nothing_stored eq_refl Ho).
  - exact block_readable.
  - fold block. rewrite block_at_one. lia.
  - exact Ha.
Qed.

(** The block is what follows an empty chain, and what the files hold. *)
Lemma block_follows : follows RecoveryEx.anchor [] [block].
Proof.
  destruct stores as (_ & st1 & _ & (_ & l1 & l2 & any & Hl & [Hd _])%kept_history).
  pose proof (dr_linked _ _ _ _ _ _ _ _ Hd) as Hlk. pose proof (dr_counted _ _ _ _ _ _ _ _ Hd) as Hc.
  rewrite <-Hl in Hlk, Hc. split.
  - exact Hlk.
  - exact Hc.
  - constructor; [exact block_readable|constructor].
  - apply NoDup_singleton.
  - vm_compute. reflexivity.
Qed.

Lemma block_bytes : exists b, encode_stored_block_bytes block = Ok b.
Proof. apply succeeds_Ok. vm_cast_no_check (@eq_refl bool true). Qed.

Lemma wrong_anchor : replicate 32 x05 <> last_hash [] [block].
Proof.
  apply (bool_decide_unpack _). vm_cast_no_check I.
Qed.

Lemma all_readable files : readable_files files.
Proof.
  intros name z raw _ _ skipped cursor sb rest _ Hd.
  exact (table_readable block cursor sb rest block_readable Hd).
Qed.

(** A directory with the block, whose manifest has [anchor] as its hash. *)
Definition insecure : ImportOptions := mkImportOptions true false.
Definition entry_of (b anchor : bytes) : BatchEntry :=
  mkBatchEntry (batch_file_name 1 1) 1 1 (hex_encode anchor) (hex_encode (sha256 b)) (len b) (len b).
Definition manifest_of (b anchor : bytes) : ColdStorageManifest :=
  mkColdStorageManifest MANIFEST_SCHEMA_VERSION_V2 [] 0 1 1 1 [entry_of b anchor] None None.
Definition directory (b anchor : bytes) : Files :=
  <[MANIFEST_FILE := default [] (to_json (manifest_of b anchor))]> {[ batch_file_name 1 1 := b ]}.

Lemma directory_checks b anchor :
  check_manifest (directory b anchor) insecure 0 = Ok (manifest_of b anchor, false).
Proof.
  etrans; [apply (check_manifest_Ok _ _ (manifest_of b anchor) (default [] (to_json (manifest_of b anchor))))|reflexivity].
  - apply lookup_insert_eq.
  - reflexivity.
  - reflexivity.
  - reflexivity.
  - reflexivity.
  - reflexivity.
  - by left.
  - by intros [].
Qed.

Lemma directory_holds b anchor : encode_stored_block_bytes block = Ok b ->
  batch_blocks (directory b anchor) 1 [block] (entry_of b anchor).
Proof.
  intros Hb. exists b, (b ++ []). split_and!; [| | | | |reflexivity|reflexivity].
  - etrans; [apply lookup_insert_ne|apply lookup_singleton_eq]. intros Heq. by apply (batch_file_name_manifest 1 1).
  - reflexivity.
  - rewrite app_nil_r. reflexivity.
  - constructor; [exact Hb|constructor].
  - done.
Qed.
End ColdEx.

Import ColdEx RestartEx(empty, block).

Lemma cold_storage_restores_witness : exists ks src dst files m dst' summary,
  export_cold_storage src [] 1 10 ∅ (Some ks)
    (mkExportOptions (Some (hex_encode Ex.alice)) (Some (bstr "http://tsa")) true) 0 = Ok (files, m) /\
  import_cold_storage files (mkImportOptions false false) dst = (dst', Ok summary) /\
  is_blocks_replayed summary = 1 /\ is_signature_verified summary = true /\
  rocks_read_stored_block_at_height dst' 1 = rocks_read_stored_block_at_height src 1.
Proof.
  destruct stores as (dst & src & Ho & Hk).
  destruct (slh_generate_spec Shake256s (9 : @rng_state example_rng) (slh_params_wf AlgId.SlhDsaShake256s Shake256s eq_refl))
    as (key & _ & Hgen).
  exists {[ Ex.alice := [mkKeystoreEntry AlgId.MlDsa65 [] 1 [] (Some (signing_key_bytes key))] ]}, src, dst.
  destruct (cold_storage_restores zstd_total json_total writes_total RecoveryEx.anchor src [block] 1 10 ∅
    (Some {[ Ex.alice := [mkKeystoreEntry AlgId.MlDsa65 [] 1 [] (Some (signing_key_bytes key))] ]})
    (mkExportOptions (Some (hex_encode Ex.alice)) (Some (bstr "http://tsa")) true) 0 []
    (mkImportOptions false false) empty dst) as (files & m & dst' & summary & He & Hi & Hn & Hv & _ & _ & Hread).
  - exact Hk.
  - split; [reflexivity|vm_compute; discriminate].
  - reflexivity.
  - vm_compute. discriminate.
  - vm_compute. discriminate.
  - apply NoDup_singleton.
  - intros op Hop. change (Some (hex_encode Ex.alice) = Some op) in Hop. apply (inj Some) in Hop. rewrite <-Hop.
    eexists _, Ex.alice, _, (9 : @rng_state example_rng), _, (signing_key_bytes key).
    split; [reflexivity|]. split; [|split; [reflexivity|]].
    + rewrite trim_start_0x_digits by apply hex_encode_lower. apply hex_decode_encode.
    + split; [unfold get_latest; rewrite lookup_singleton_eq; reflexivity|]. split; [reflexivity|exact Hgen].
  - by right.
  - reflexivity.
  - right. by eexists.
  - exact nothing_stored.
  - exact Ho.
  - exists files, m, dst', summary. split; [exact He|]. split; [exact Hi|]. split; [exact Hn|].
    split; [rewrite Hv; reflexivity|]. apply Hread. reflexivity.
Defined.

Lemma import_keeps_chain_witness : exists st' r new,
  (exists st b, import_cold_storage (directory b Ex.alice) insecure st = (st', r)) /\
  rocks_rep st' 0 RecoveryEx.anchor 0 [] ([] ++ new) false.
Proof.
  destruct stores as (dst & _ & Ho & _). destruct block_bytes as [b Hb].
  destruct (import_one_batch writes_total RecoveryEx.anchor _ _ _ _ _ _ empty dst nothing_stored eq_refl Ho
    (directory_checks b Ex.alice) eq_refl (directory_holds b Ex.alice Hb) block_follows)
    as (dst' & r & Hi & [Hrep _] & _).
  destruct (import_keeps_chain (directory b Ex.alice) insecure dst 0 RecoveryEx.anchor 0 [] [] false dst' r)
    as (new & Hnew & _).
  - exact (proj1 (open_empty empty RecoveryEx.anchor dst nothing_stored eq_refl Ho)).
  - exact (all_readable _).
  - exact Hi.
  - rewrite (mem_height _ _ _ _ (proj2 Hrep)). vm_compute. reflexivity.
  - exists dst', r, new. split; [by exists dst, b|exact Hnew].
Defined.

Lemma refused_import_keeps_blocks_witness : exists b dst dst' name,
  import_cold_storage (directory b (replicate 32 x05)) insecure dst = (dst', Err (ColdError.AnchorMismatch name)) /\
  chain_height (rk_chain dst') = 1.
Proof.
  destruct stores as (dst & _ & Ho & _). destruct block_bytes as [b Hb].
  destruct (refused_import_keeps_blocks writes_total RecoveryEx.anchor (directory b (replicate 32 x05)) insecure
    (manifest_of b (replicate 32 x05)) false [block] (entry_of b (replicate 32 x05)) (replicate 32 x05) empty dst)
    as (dst' & Hi & Hh & _).
  - exact nothing_stored.
  - reflexivity.
  - exact Ho.
  - exact (directory_checks b (replicate 32 x05)).
  - reflexivity.
  - exact (directory_holds b (replicate 32 x05) Hb).
  - exact block_follows.
  - apply (decode_hash_encode (replicate 32 x05)). reflexivity.
  - exact wrong_anchor.
  - exists b, dst, dst', (be_file_name (entry_of b (replicate 32 x05))). split; [exact Hi|exact Hh].
Defined.
