(* ===== verification/Submission.v ===== *)
(** * Archival submissions of a node: [pqcd/src/archival.rs] and
      [emit_archival_submissions_if_epoch_boundary] of [pqcd/src/devnet/dispatch.rs].

    When a block closes an epoch, the node signs the summary of the epoch with the archival
    keys it holds, wraps each signature into a transaction and offers it to its own pool.
    Log output is left out; the task that signs may panic, which ends the step. *)

From S2P Require Import Prelude Crypto Text Types Cbor Payloads Tx FeeMarket Leaves Store StoreInv.
From S2P Require Import ApplyAccounts ApplyValidators Governance Archival ApplyTx Mempool Block Chain.
From S2P Require Import Recovery Round Commit Records Upgrade Storage NodeConfig Keystore BlockTree.
From S2P Require Import Proposer Node SlhDsa PqVerifier.

Definition SUBMIT_GAS_LIMIT : N := 5000.
Definition SUBMIT_FEE : N := 30000.
Definition SLH_DSA_SHAKE_256S_SIG_LEN : N := 29792.

Record SubmissionCandidate := mkSubmissionCandidate {
  sc_operator : Address;
  sc_consensus_alg_id : AlgId.t;
  sc_consensus_seed : bytes;
  sc_archival_sk : bytes;
  sc_sender_nonce : N
}.

Module SubmitError.
Inductive t : Type :=
  | ArchivalSign (e : CryptoError.t)
  | SignatureLength (got : N)
  | Sign
  | Encode (e : TxError.t).
End SubmitError.

(** The body of the loop over the active validators. *)
Definition submission_candidate (state : StateStore) (keystore : Keystore) (v : ValidatorRecord)
    : option SubmissionCandidate :=
  let operator := val_operator v in
  if negb (is_archival_signer state operator) then None
  else
    entry ← get_latest keystore operator;
    archival_sk ← ke_archival_sk entry;
    _ ← get_archival_key state operator;
    let sender_nonce := from_option acc_nonce 0 (get_account state operator) in
    Some (mkSubmissionCandidate operator (ke_sig_alg_id entry) (ke_commit_seed entry) archival_sk
            sender_nonce).

Definition collect_submission_candidates (state : StateStore) (keystore : Keystore)
    : list SubmissionCandidate :=
  omap (submission_candidate state keystore) (active_validators state).

Section submission.
Context `{Ciborium, Shake, Verifier, Signer}.

(** The end of both builders: sign the preimage, attach the signature. *)
Definition sign_envelope (unsigned_tx : Transaction) (seed : bytes)
    : outcome SubmitError.t Transaction :=
  let preimage := build_preimage viper_research_1 unsigned_tx in
  sig ← ok_or (ml_dsa_sign_with_seed (tx_sig_alg_id unsigned_tx) seed preimage) SubmitError.Sign;
  Ok (unsigned_tx <| tx_signature := sig |>).

Definition signed_submit_tx (chain_id : bytes) (candidate : SubmissionCandidate)
    (summary : ArchivalEpochSummary) : outcome SubmitError.t Transaction :=
  let preimage := archival_sig_preimage viper_research_1 (aes_epoch_number summary)
                    (aes_epoch_root summary) in
  sig ← map_err SubmitError.ArchivalSign
    (slh_dsa_shake_256s_sign (sc_archival_sk candidate) preimage);
  ensure (len sig =? SLH_DSA_SHAKE_256S_SIG_LEN) (SubmitError.SignatureLength (len sig)) ;;
  let payload := encode_archival_record_submit_payload
    (mkArchivalRecordSubmitPayload (aes_epoch_number summary) (aes_first_height summary)
       (aes_last_height summary) (aes_epoch_root summary) [(sc_operator candidate, sig)]) in
  sign_envelope
    (mkTransaction 1 chain_id MsgType.ArchivalRecordSubmit (sc_operator candidate)
       (sc_sender_nonce candidate) SUBMIT_FEE 0 SUBMIT_GAS_LIMIT payload
       (sc_consensus_alg_id candidate) 1 [])
    (sc_consensus_seed candidate).

Definition build_signed_submit_tx (chain_id : bytes) (candidate : SubmissionCandidate)
    (summary : ArchivalEpochSummary) : outcome SubmitError.t bytes :=
  signed_tx ← signed_submit_tx chain_id candidate summary;
  map_err SubmitError.Encode (encode_tx signed_tx).

Definition build_signed_register_archival_key_tx (chain_id : bytes) (operator : Address)
    (consensus_alg_id : AlgId.t) (consensus_seed archival_pk : bytes) (nonce : N)
    : outcome SubmitError.t bytes :=
  let payload := encode_register_archival_key_payload (AlgId.as_u16 AlgId.SlhDsaShake256s)
                   archival_pk in
  signed_tx ← sign_envelope
    (mkTransaction 1 chain_id MsgType.ValidatorRegisterArchivalKey operator nonce SUBMIT_FEE 0
       SUBMIT_GAS_LIMIT payload consensus_alg_id 1 [])
    consensus_seed;
  map_err SubmitError.Encode (encode_tx signed_tx).

(** A candidate that fails is skipped. *)
Fixpoint build_submissions (chain_id : bytes) (candidates : list SubmissionCandidate)
    (summary : ArchivalEpochSummary) : outcome SubmitError.t (list bytes) :=
  match candidates with
  | [] => Ok []
  | cand :: rest =>
      match build_signed_submit_tx chain_id cand summary with
      | Ok b => out ← build_submissions chain_id rest summary; Ok (b :: out)
      | Err _ => build_submissions chain_id rest summary
      | Panic => Panic
      end
  end.

Definition admit_submission (n : LiveNode) (raw : bytes) : outcome SubmitError.t LiveNode :=
  match try_admit (nd_mempool n) raw (nd_state n) (nd_fee_params n) with
  | Ok (pool, _) => Ok (n <| nd_mempool := pool |>)
  | Err _ => Ok n
  | Panic => Panic
  end.

(** [chain_id_hex] and [epoch_duration] are those of the configuration. *)
Definition emit_archival_submissions_if_epoch_boundary (chain_id_hex : bytes) (epoch_duration : N)
    (n : LiveNode) (block_height : N) : outcome SubmitError.t LiveNode :=
  if negb (is_epoch_boundary block_height epoch_duration) then Ok n
  else
    match summarize_closed_epoch (dk_chain (nd_disk n)) block_height epoch_duration with
    | None => Ok n
    | Some summary =>
        let candidates := collect_submission_candidates (nd_state n) (nd_keystore n) in
        if bool_decide (candidates = []) then Ok n
        else
          match build_submissions chain_id_hex candidates summary with
          | Ok submissions => foldM admit_submission n submissions
          | _ => Ok n
          end
    end.
End submission.
