(* ===== verification/SubmissionProps.v ===== *)
(** * Archival submissions from the keystore to the record.

    What a node builds is what the chain verifies; but the node offers its submissions to
    its pool under the text of the chain id instead of the chain id. *)

From S2P Require Import Prelude Crypto Text Types Cbor Payloads Tx FeeMarket Leaves Store StoreInv.
From S2P Require Import ApplyAccounts ApplyValidators Governance Archival ApplyTx Mempool Block Chain.
From S2P Require Import Recovery Round Commit Records Upgrade Storage NodeConfig Keystore BlockTree.
From S2P Require Import Proposer Node SlhDsa SlhDsaProps SlhSignProps SlhCodecProps PqVerifier.
From S2P Require Import PqVerifierProps Examples NodeProps Submission.

(** ** The text of a chain id *)

Lemma length_strip_prefix p s r : strip_prefix p s = Some r -> (length r <= length s)%nat.
Proof.
  unfold strip_prefix. destruct (bool_decide _); [|done]. intros [= <-]. rewrite length_drop. lia.
Qed.

Lemma length_trim_front ws fuel s : (length (trim_front ws fuel s) <= length s)%nat.
Proof.
  revert s. induction fuel as [|fuel IH]; intros s; [done|]. cbn.
  destruct (list_find _ ws) as [[i p]|]; [|done]. etrans; [apply IH|]. rewrite length_drop. lia.
Qed.

Lemma length_trim s : (length (trim s) <= length s)%nat.
Proof.
  unfold trim. rewrite length_reverse. etrans; [apply length_trim_front|]. rewrite length_reverse.
  apply length_trim_front.
Qed.

(** Hexadecimal text is longer than what it stands for. *)
Lemma hex_text_differs {hex : Hex} raw field b :
  decode_hex_bytes raw field = Ok b -> b <> [] -> raw <> b.
Proof.
  unfold decode_hex_bytes. intros Hd%ok_or_Ok Hne ->. apply hex_decode_length in Hd.
  assert (length (default (trim b) (strip_prefix (bstr "0x") (trim b))) <= length b)%nat as Hle.
  { destruct (strip_prefix _ _) as [r|] eqn:Hp; cbn; [apply length_strip_prefix in Hp|];
      pose proof (length_trim b); lia. }
  destruct b; [done|]. cbn [length] in *. lia.
Qed.

(** ** The pool refuses a foreign chain id *)

Section refusal.
Context `{Ciborium, Shake, Verifier, Signer}.

(** The check a transaction of another chain fails: the one on the chain id, unless one that is
    made before it fails as well. *)
Definition refusal (pool : Mempool) (s : StateStore) (tx : Transaction) (raw : bytes) : MempoolError.t :=
  let alg := AlgId.as_u16 (tx_sig_alg_id tx) in
  if bool_decide (is_Some (pool_get pool (compute_tx_hash raw))) then MempoolError.Duplicate
  else match view_alg_lifecycle s (tx_sig_alg_id tx) with
       | None => MempoolError.ValidationFailed (TxError.AlgorithmNotFound alg)
       | Some l =>
           if negb (Lifecycle.admits_transactions l)
           then MempoolError.ValidationFailed (TxError.AlgorithmBanned alg)
           else if is_vc s tx && (vc_per_block_cap pool <=? vc_admitted_count pool)
           then MempoolError.VcCapReached
           else if MAX_TX_BYTES <? len raw
           then MempoolError.ValidationFailed (TxError.TxTooLarge (len raw))
           else MempoolError.ValidationFailed TxError.ChainIdMismatch
       end.

Lemma foreign_chain_refused pool tx raw (s : StateStore) params :
  decode_tx raw = Ok tx -> tx_version tx = 1 -> tx_chain_id tx <> st_chain_id s ->
  try_admit pool raw s params = Err (refusal pool s tx raw).
Proof.
  intros Hd Hv Hne. unfold try_admit, refusal. rewrite Hd. cbn [map_err mbind outcome_bind].
  destruct (bool_decide (is_Some _)); [done|]. cbn [negb ensure mbind outcome_bind].
  destruct (view_alg_lifecycle _ _) as [l|]; [|done]. cbn [ok_or mbind outcome_bind].
  destruct (Lifecycle.admits_transactions l) eqn:Hl; [|done]. cbn [negb ensure mbind outcome_bind].
  destruct (is_vc s tx && _); [done|]. cbn [negb ensure mbind outcome_bind].
  unfold validate_tx. rewrite N.leb_antisym. destruct (MAX_TX_BYTES <? len raw); [done|].
  cbn [negb ensure mbind outcome_bind]. rewrite Hv, (N.eqb_refl 1). cbn [ensure mbind outcome_bind].
  by rewrite bool_decide_false.
Qed.

(** Every submission is the encoding of the transaction of a candidate. *)
Lemma build_submissions_from chain_id cands summary bs : build_submissions chain_id cands summary = Ok bs ->
  Forall (fun b => exists c tx, c ∈ cands /\ signed_submit_tx chain_id c summary = Ok tx /\
                    encode_tx tx = Ok b) bs.
Proof.
  revert bs. induction cands as [|c cands IH]; intros bs; cbn -[build_signed_submit_tx].
  { intros [= <-]. constructor. }
  assert (forall bs', build_submissions chain_id cands summary = Ok bs' ->
    Forall (fun b => exists c' tx, c' ∈ c :: cands /\ signed_submit_tx chain_id c' summary = Ok tx /\
                      encode_tx tx = Ok b) bs') as Hrest.
  { intros bs' Hb. eapply Forall_impl; [by apply IH|]. cbn.
    intros b (c' & tx & Hc & Htx). exists c', tx. split; [by right|done]. }
  destruct (build_signed_submit_tx _ _ _) as [b|e|] eqn:Hb; [|by apply Hrest|done].
  intros (out & Hout & [= <-])%bind_Ok. constructor; [|by apply Hrest].
  unfold build_signed_submit_tx in Hb. apply bind_Ok in Hb as (tx & Htx & Henc%map_err_Ok).
  exists c, tx. split; [by left|done].
Qed.

Lemma signed_submit_tx_fields chain_id c summary tx :
  signed_submit_tx chain_id c summary = Ok tx ->
  tx_version tx = 1 /\ tx_chain_id tx = chain_id /\ tx_sender tx = sc_operator c /\
  tx_nonce tx = sc_sender_nonce c /\ tx_fee tx = SUBMIT_FEE /\ tx_fee_tip tx = 0 /\
  tx_gas_limit tx = SUBMIT_GAS_LIMIT /\ tx_sig_key_version tx = 1.
Proof.
  unfold signed_submit_tx, sign_envelope. intros (sig & _ & Hs)%bind_Ok.
  apply bind_Ok in Hs as (? & _ & (s2 & _ & [= <-])%bind_Ok). done.
Qed.

(** What the Rust types of a candidate guarantee. *)
Definition candidate_wf (c : SubmissionCandidate) : Prop :=
  len (sc_operator c) = 32 /\ sc_sender_nonce c <= u64_max.

Lemma submission_decodes chain_id c summary tx raw :
  candidate_wf c -> signed_submit_tx chain_id c summary = Ok tx -> encode_tx tx = Ok raw ->
  (forall env, encode_envelope (tx_sig_alg_id tx) (tx_signature tx) = Ok env ->
     cbor_roundtrips (Value.Map (tx_pairs tx env))) ->
  decode_tx raw = Ok tx.
Proof.
  intros [Hop Hn] (Hv & _ & Hs & Hnonce & Hfee & Htip & Hgas & Hk)%signed_submit_tx_fields Henc Hrt.
  destruct (encode_envelope (tx_sig_alg_id tx) (tx_signature tx)) as [env| |] eqn:Henv;
    [|by unfold encode_tx in Henc; rewrite Henv in Henc..].
  destruct (tx_codec_roundtrip tx env Henv (Hrt env eq_refl)) as (b & Hb & Hdec).
  rewrite Henc in Hb. injection Hb as <-. apply Hdec. unfold tx_wf.
  rewrite Hv, Hs, Hnonce, Hfee, Htip, Hgas, Hk. unfold encode_envelope in Henv.
  apply bind_Ok in Henv as ([] & Hlen & _). run_inv. unfold SUBMIT_FEE, SUBMIT_GAS_LIMIT. split_and!; try done; lia.
Qed.

(** C40 A node never gets an archival submission of its own into its pool.  The node takes
    [config.chain_id_hex.clone().into_bytes()], the hexadecimal text, as the chain id of the
    transaction; the chain id of the state is what the text stands for.  So the pool refuses
    every submission that a candidate can build, for any summary and fee parameters: with
    [ChainIdMismatch], or with the error of a check that is made earlier and fails too
    (a duplicate, an unknown or retired signature algorithm, the cap on premium signatures, the
    size limit).  An epoch boundary leaves the node as it was, whatever keys it holds.  The
    hypotheses are that the state's chain id was read from the configuration, that it is not
    empty, that addresses have 32 bytes and nonces fit [u64], and that CBOR reads back the
    transactions that are written. *)
Theorem own_submissions_refused {hex : Hex} chain_id_hex epoch_duration n block_height :
  decode_hex_bytes chain_id_hex "chain_id_hex" = Ok (st_chain_id (nd_state n)) ->
  st_chain_id (nd_state n) <> [] ->
  let candidates := collect_submission_candidates (nd_state n) (nd_keystore n) in
  (forall c, c ∈ candidates -> candidate_wf c) ->
  (forall c summary tx env, c ∈ candidates -> signed_submit_tx chain_id_hex c summary = Ok tx ->
     encode_envelope (tx_sig_alg_id tx) (tx_signature tx) = Ok env ->
     cbor_roundtrips (Value.Map (tx_pairs tx env))) ->
  (forall c summary tx raw params, c ∈ candidates -> signed_submit_tx chain_id_hex c summary = Ok tx ->
     encode_tx tx = Ok raw ->
     try_admit (nd_mempool n) raw (nd_state n) params = Err (refusal (nd_mempool n) (nd_state n) tx raw)) /\
  emit_archival_submissions_if_epoch_boundary chain_id_hex epoch_duration n block_height = Ok n.
Proof.
  intros Hid Hne candidates Hwf Hrt.
  assert (forall c summary tx raw params, c ∈ candidates -> signed_submit_tx chain_id_hex c summary = Ok tx ->
    encode_tx tx = Ok raw ->
    try_admit (nd_mempool n) raw (nd_state n) params = Err (refusal (nd_mempool n) (nd_state n) tx raw))
    as Hrefused.
  { intros c summary tx raw params Hc Htx Henc. pose proof (signed_submit_tx_fields _ _ _ _ Htx) as (Hv & Hch & _).
    apply foreign_chain_refused; [by eapply submission_decodes; eauto|done|].
    rewrite Hch. by eapply hex_text_differs. }
  split; [exact Hrefused|]. unfold emit_archival_submissions_if_epoch_boundary.
  destruct (negb _); [done|]. destruct (summarize_closed_epoch _ _ _) as [summary|]; [|done].
  destruct (bool_decide _); [done|]. destruct (build_submissions _ _ _) as [bs| |] eqn:Hb; [|done..].
  apply build_submissions_from in Hb. induction Hb as [|b bs (c & tx & Hc & Htx & Henc) _ IH]; [done|].
  assert (admit_submission n b = Ok n) as Hadm; [|change (foldM admit_submission n (b :: bs))
    with (n' ← admit_submission n b; foldM admit_submission n' bs); by rewrite Hadm].
  unfold admit_submission. by rewrite (Hrefused c summary tx b).
Qed.
End refusal.

(** ** What the chain makes of a submission *)

Section acceptance.
Context `{Ciborium, Shake, Sha2, MlDsa, Signer, Rng}.
#[local] Existing Instance pq_verifier.

Definition submit_payload (c : SubmissionCandidate) (summary : ArchivalEpochSummary) (sig : bytes)
    : ArchivalRecordSubmitPayload :=
  mkArchivalRecordSubmitPayload (aes_epoch_number summary) (aes_first_height summary)
    (aes_last_height summary) (aes_epoch_root summary) [(sc_operator c, sig)].

Definition summary_wf (summary : ArchivalEpochSummary) : Prop :=
  aes_epoch_number summary <= u64_max /\ aes_first_height summary <= u64_max /\
  aes_last_height summary <= u64_max /\ len (aes_epoch_root summary) = 32.

Lemma decode_submit_payload c summary sig : summary_wf summary -> len (sc_operator c) = 32 ->
  cbor_roundtrips (submit_payload_value (submit_payload c summary sig)) ->
  decode_archival_record_submit_payload
    (encode_archival_record_submit_payload (submit_payload c summary sig))
    = Ok (submit_payload c summary sig).
Proof.
  intros (He & Hf & Hl & Hr) Hop Hrt.
  unfold decode_archival_record_submit_payload, encode_archival_record_submit_payload, read_map.
  rewrite Hrt. unfold decode_u64.
  repeat (cbn -[expect_uint expect_bytes_n]; rewrite ?expect_uint_of_N, ?expect_bytes_n_Bytes by done).
  done.
Qed.

(** The archival key of a candidate is registered on the chain. *)
Definition key_registered (s : StateStore) (c : SubmissionCandidate) (pk : bytes) : Prop :=
  is_archival_signer s (sc_operator c) = true /\
  exists key, get_archival_key s (sc_operator c) = Some key /\
    vak_archival_alg_id key = AlgId.as_u16 AlgId.SlhDsaShake256s /\ vak_archival_pk key = pk.

Lemma verify_archival_entry_own s c pk preimage sig : key_registered s c pk ->
  PqVerifier_verify (mkPublicKey AlgId.SlhDsaShake256s pk) preimage
    (mkSigBytes AlgId.SlhDsaShake256s sig) = Ok tt ->
  verify_archival_entry s preimage (sc_operator c, sig) = Ok tt.
Proof.
  intros (_ & key & Hk & Ha & <-) Hv. unfold verify_archival_entry. cbn [fst snd].
  rewrite Hk. cbn [ok_or mbind outcome_bind]. rewrite Ha.
  change (AlgId.from_u16 _) with (Some AlgId.SlhDsaShake256s). cbn [ok_or mbind outcome_bind].
  unfold verify, pq_verifier. by rewrite Hv.
Qed.

(** What the node signs: the archival signature is that of the node's own verifier. *)
Lemma signed_submit_tx_spec rng pk sk chain_id c summary :
  slh_dsa_shake_256s_generate rng = Ok (pk, sk) -> sc_archival_sk c = sk ->
  if is_ml_dsa (sc_consensus_alg_id c) then exists tx sig,
    signed_submit_tx chain_id c summary = Ok tx /\
    tx_payload tx = encode_archival_record_submit_payload (submit_payload c summary sig) /\
    PqVerifier_verify (mkPublicKey AlgId.SlhDsaShake256s pk)
      (archival_sig_preimage viper_research_1 (aes_epoch_number summary) (aes_epoch_root summary))
      (mkSigBytes AlgId.SlhDsaShake256s sig) = Ok tt
  else signed_submit_tx chain_id c summary = Err SubmitError.Sign.
Proof.
  intros Hgen Hsk. pose proof (slh_params_wf AlgId.SlhDsaShake256s Shake256s eq_refl) as Hwf.
  destruct (slh_generate_spec Shake256s rng Hwf) as (k & Hk & Hg). unfold slh_dsa_shake_256s_generate in Hgen.
  rewrite Hg in Hgen. injection Hgen as <- <-.
  destruct (slh_sign_accepted AlgId.SlhDsaShake256s Shake256s k
    (archival_sig_preimage viper_research_1 (aes_epoch_number summary) (aes_epoch_root summary)) eq_refl Hk)
    as (sig & Hs & Hlen & Hv).
  unfold signed_submit_tx, slh_dsa_shake_256s_sign. rewrite Hsk, Hs. cbn [map_err mbind outcome_bind].
  rewrite Hlen. change (SigLen Shake256s =? SLH_DSA_SHAKE_256S_SIG_LEN) with true.
  cbn [ensure mbind outcome_bind]. unfold sign_envelope, ml_dsa_sign_with_seed.
  cbn [tx_sig_alg_id]. destruct (is_ml_dsa _); cbn [ok_or mbind outcome_bind]; eauto.
Qed.

(** What the chain answers to a submission with one valid signature. *)
Definition submission_result (c : SubmissionCandidate) (summary : ArchivalEpochSummary) (sig : bytes)
    (s : StateStore) (h : N) : result StateStore :=
  let epoch := aes_epoch_number summary in
  if current_epoch_number h <? epoch then Err ApplyError.ArchivalEpochInFuture
  else match get_archival_record s epoch with
       | Some _ => Err ApplyError.DuplicateArchivalRecord
       | None =>
           if 1 <? (archival_threshold s).1 then Err ApplyError.ArchivalThresholdNotMet
           else Ok (insert_archival_record
                      (mkArchivalRecord epoch (aes_epoch_root summary) [sc_operator c] [sig] [] 0) s)
       end.

Lemma apply_own_submission c summary sig s tx h pk : key_registered s c pk ->
  decode_archival_record_submit_payload (tx_payload tx) = Ok (submit_payload c summary sig) ->
  PqVerifier_verify (mkPublicKey AlgId.SlhDsaShake256s pk)
    (archival_sig_preimage viper_research_1 (aes_epoch_number summary) (aes_epoch_root summary))
    (mkSigBytes AlgId.SlhDsaShake256s sig) = Ok tt ->
  apply_archival_record_submit s tx h = submission_result c summary sig s h.
Proof.
  intros Hreg Hd Hv. unfold apply_archival_record_submit, submission_result. rewrite Hd.
  cbn [mbind outcome_bind ars_slh_sig_set ars_epoch_number ars_epoch_root submit_payload].
  rewrite (N.leb_antisym (current_epoch_number h)).
  destruct (current_epoch_number h <? aes_epoch_number summary); cbn [negb ensure mbind outcome_bind]; [done|].
  destruct (get_archival_record _ _) as [r|]; [by rewrite bool_decide_true|].
  rewrite bool_decide_false by (by intros [? ?]). cbn [negb ensure mbind outcome_bind].
  replace (N.of_nat (size (list_to_set [(sc_operator c, sig)].*1 : gset bytes))) with 1
    by (cbn [fmap list_fmap list_to_set fst]; by rewrite (right_id_L ∅ (∪)), size_singleton).
  rewrite (N.leb_antisym 1). destruct (_ <? _) eqn:Hm; [done|].
  cbn [negb ensure mbind outcome_bind foldM fst].
  rewrite (proj1 Hreg). cbn [ensure mbind outcome_bind foldM].
  rewrite (verify_archival_entry_own s c pk) by done. cbn [mbind outcome_bind].
  change (sat_add u32_max 0 1) with 1. rewrite (N.leb_antisym 1), Hm. done.
Qed.

(** C28 The archival signature a node makes is one the chain verifies.  Take a candidate whose
    archival secret key comes from the crate's key generation and whose public key is registered
    on the chain for an archival signer.  With an ML-DSA consensus key the node obtains a signed
    transaction, and with another one the error [Sign].  The handler of submissions, checking
    the signature with the real verifier, refuses the transaction when the epoch is still in
    the future, when the epoch has a record already and when the overlay asks for more than one
    signer, each with its error and in this order, and otherwise stores the record of the epoch
    under the candidate's address; it never refuses the signature.  Admission to the pool is
    not part of this.  The summary fits its integer types, and CBOR reads the payload back. *)
Theorem own_submission_applied rng pk sk chain_id c summary s h :
  slh_dsa_shake_256s_generate rng = Ok (pk, sk) -> sc_archival_sk c = sk ->
  key_registered s c pk -> summary_wf summary -> len (sc_operator c) = 32 ->
  (forall sig, cbor_roundtrips (submit_payload_value (submit_payload c summary sig))) ->
  if is_ml_dsa (sc_consensus_alg_id c) then exists tx sig,
    signed_submit_tx chain_id c summary = Ok tx /\
    apply_archival_record_submit s tx h = submission_result c summary sig s h
  else signed_submit_tx chain_id c summary = Err SubmitError.Sign.
Proof.
  intros Hgen Hsk Hreg Hwf Hop Hrt.
  pose proof (signed_submit_tx_spec rng pk sk chain_id c summary Hgen Hsk) as Hspec.
  destruct (is_ml_dsa _); [|done]. destruct Hspec as (tx & sig & Htx & Hpay & Hv).
  exists tx, sig. split; [done|]. apply (apply_own_submission c summary sig s tx h pk); [done| |done].
  rewrite Hpay. by apply decode_submit_payload.
Qed.
End acceptance.

(** ** Witnesses *)

Module SubmissionEx.
#[local] Existing Instance example_shake.
#[local] Existing Instance example_sha2.
#[local] Existing Instance example_mldsa.
#[local] Existing Instance example_rng.
#[local] Existing Instance example_hex.

(** Envelope signatures of one byte. *)
Definition signer : Signer := fun _ _ _ => [x01].
#[local] Existing Instance signer.

(** Alice alone, with an archival key. *)
Definition registered (pk : bytes) : StateStore :=
  insert_archival_key (mkValidatorArchivalKey Ex.alice 0x0022 pk 0)
    (insert_validator (Ex.validator Ex.alice 500 ValidatorStatus.Active x2a)
       (StateStore_new <| st_chain_id := [x01] |>)).
Definition candidate (sk : bytes) : SubmissionCandidate :=
  mkSubmissionCandidate Ex.alice AlgId.MlDsa65 (replicate 32 x05) sk 0.
Definition summary : ArchivalEpochSummary := mkArchivalEpochSummary 0 0 59 (replicate 32 x05).

(** CBOR documents of submissions, told apart by their signature. *)
Definition submit_codec : Ciborium := {|
  from_reader := fun b => Some (submit_payload_value (submit_payload (candidate []) summary b));
  into_writer := fun v =>
    match v with
    | Value.Map [_; _; _; _; (_, Value.Array [Value.Array [_; Value.Bytes sig]])] => sig
    | _ => []
    end
|}.

Definition seed : @rng_state example_rng := 9.

Lemma generated : exists pk sk, slh_dsa_shake_256s_generate seed = Ok (pk, sk).
Proof.
  destruct (slh_generate_spec Shake256s seed
    (slh_params_wf AlgId.SlhDsaShake256s Shake256s eq_refl)) as (k & _ & Hg). eauto.
Qed.

Lemma registered_key pk sk : key_registered (registered pk) (candidate sk) pk.
Proof. split; [by vm_compute|]. exists (mkValidatorArchivalKey Ex.alice 0x0022 pk 0). by vm_compute. Qed.

Lemma registered_threshold pk : archival_threshold (registered pk) = (1, 1).
Proof. by vm_compute. Qed.

Lemma summary_sound : summary_wf summary.
Proof. by vm_compute. Qed.

Lemma registered_result pk sk sig :
  submission_result (candidate sk) summary sig (registered pk) 60 =
    Ok (insert_archival_record (mkArchivalRecord 0 (replicate 32 x05) [Ex.alice] [sig] [] 0) (registered pk)).
Proof.
  unfold submission_result. rewrite registered_threshold.
  assert (get_archival_record (registered pk) (aes_epoch_number summary) = None) as -> by by vm_compute.
  done.
Qed.

(** An epoch of one block, closed by the second. *)
Definition next : StoredBlock := NodeEx.stored (NodeEx.block_with 2 20 NodeEx.root_b []).
Definition node (pk sk : bytes) : LiveNode :=
  NodeEx.node_at Ex.alice (mkKeystoreEntry AlgId.MlDsa65 (replicate 32 x05) 1 [x2a] (Some sk)) (registered pk)
    (mkDisk (push_stored_block next (push_stored_block NodeEx.tip (ChainStore_new NodeEx.parent))) ∅ ∅).

(** The transaction of a submission in a codec that writes nothing. *)
Definition submitted : Transaction :=
  mkTransaction 1 (bstr "01") MsgType.ArchivalRecordSubmit Ex.alice 0 SUBMIT_FEE 0 SUBMIT_GAS_LIMIT []
    AlgId.MlDsa65 1 [x01].
Definition submitted_pairs : list (Value.t * Value.t) :=
  match encode_envelope AlgId.MlDsa65 [x01] with Ok env => tx_pairs submitted env | _ => [] end.
Definition tx_codec : Ciborium :=
  {| from_reader := fun _ => Some (Value.Map submitted_pairs); into_writer := fun _ => [] |}.

Lemma node_candidates pk sk :
  collect_submission_candidates (nd_state (node pk sk)) (nd_keystore (node pk sk)) = [candidate sk].
Proof. by vm_compute. Qed.

Lemma node_summary pk sk : exists summary,
  summarize_closed_epoch (dk_chain (nd_disk (node pk sk))) 2 1 = Some summary.
Proof. eexists. vm_compute. reflexivity. Qed.

Lemma submitted_tx sk s tx :
  signed_submit_tx (H := tx_codec) (bstr "01") (candidate sk) s = Ok tx -> tx = submitted.
Proof.
  unfold signed_submit_tx, sign_envelope. intros (sig & _ & Hs)%bind_Ok.
  apply bind_Ok in Hs as (? & _ & (s2 & Hs2%ok_or_Ok & [= <-])%bind_Ok).
  by injection Hs2 as <-.
Qed.

Lemma node_typed pk sk c :
  c ∈ collect_submission_candidates (nd_state (node pk sk)) (nd_keystore (node pk sk)) -> candidate_wf c.
Proof. rewrite node_candidates. by intros ->%list_elem_of_singleton. Qed.

Lemma node_codec pk sk c s tx env :
  c ∈ collect_submission_candidates (nd_state (node pk sk)) (nd_keystore (node pk sk)) ->
  signed_submit_tx (H := tx_codec) (bstr "01") c s = Ok tx ->
  encode_envelope (tx_sig_alg_id tx) (tx_signature tx) = Ok env ->
  cbor_roundtrips (H := tx_codec) (Value.Map (tx_pairs tx env)).
Proof.
  rewrite node_candidates. intros ->%list_elem_of_singleton ->%submitted_tx Henv.
  cbn [submitted tx_sig_alg_id tx_signature] in Henv.
  unfold cbor_roundtrips. cbn [from_reader tx_codec]. unfold submitted_pairs. by rewrite Henv.
Qed.

Lemma submitted_refusal pk :
  refusal Mempool_new (registered pk) submitted [] = MempoolError.ValidationFailed TxError.ChainIdMismatch.
Proof. by vm_compute. Qed.
End SubmissionEx.

#[local] Existing Instance example_shake.
#[local] Existing Instance example_sha2.
#[local] Existing Instance example_mldsa.
#[local] Existing Instance example_rng.
#[local] Existing Instance example_hex.
#[local] Existing Instance SubmissionEx.signer.

(** The node holds a key, closes an epoch and builds a submission, and nothing comes of it. *)
Lemma own_submissions_refused_witness : let cbor := SubmissionEx.tx_codec in
  let verifier := pq_verifier in
  exists pk sk summary tx raw,
    slh_dsa_shake_256s_generate SubmissionEx.seed = Ok (pk, sk) /\
    summarize_closed_epoch (dk_chain (nd_disk (SubmissionEx.node pk sk))) 2 1 = Some summary /\
    signed_submit_tx (bstr "01") (SubmissionEx.candidate sk) summary = Ok tx /\
    build_submissions (bstr "01") [SubmissionEx.candidate sk] summary = Ok [raw] /\
    try_admit Mempool_new raw (SubmissionEx.registered pk) Ex.fee_params
      = Err (MempoolError.ValidationFailed TxError.ChainIdMismatch) /\
    emit_archival_submissions_if_epoch_boundary (bstr "01") 1 (SubmissionEx.node pk sk) 2
      = Ok (SubmissionEx.node pk sk).
Proof.
  intros cbor verifier. destruct SubmissionEx.generated as (pk & sk & Hgen).
  destruct (SubmissionEx.node_summary pk sk) as [summary Hsum].
  destruct (signed_submit_tx_spec SubmissionEx.seed pk sk (bstr "01") (SubmissionEx.candidate sk) summary
    Hgen eq_refl) as (tx & sig & Htx & _).
  destruct (own_submissions_refused (bstr "01") 1 (SubmissionEx.node pk sk) 2) as [Hrefused Hemit].
  - vm_compute; reflexivity.
  - discriminate.
  - exact (SubmissionEx.node_typed pk sk).
  - exact (SubmissionEx.node_codec pk sk).
  - exists pk, sk, summary, tx, []. split_and!; [exact Hgen|exact Hsum|exact Htx| | |exact Hemit].
    + unfold build_submissions, build_signed_submit_tx. rewrite Htx.
      rewrite (SubmissionEx.submitted_tx _ _ _ Htx). vm_compute; reflexivity.
    + refine (eq_trans (Hrefused (SubmissionEx.candidate sk) summary tx [] Ex.fee_params _ Htx _) _).
      * rewrite SubmissionEx.node_candidates. apply list_elem_of_singleton. reflexivity.
      * rewrite (SubmissionEx.submitted_tx _ _ _ Htx). vm_compute; reflexivity.
      * rewrite (SubmissionEx.submitted_tx _ _ _ Htx). exact (f_equal Err (SubmissionEx.submitted_refusal pk)).
Defined.

Lemma own_submission_applied_witness : let cbor := SubmissionEx.submit_codec in
  let verifier := pq_verifier in
  exists pk sk tx sig,
    slh_dsa_shake_256s_generate SubmissionEx.seed = Ok (pk, sk) /\
    signed_submit_tx [x01] (SubmissionEx.candidate sk) SubmissionEx.summary = Ok tx /\
    apply_archival_record_submit (SubmissionEx.registered pk) tx 60
      = Ok (insert_archival_record (mkArchivalRecord 0 (replicate 32 x05) [Ex.alice] [sig] [] 0)
              (SubmissionEx.registered pk)).
Proof.
  intros cbor verifier. destruct SubmissionEx.generated as (pk & sk & Hgen).
  destruct (own_submission_applied SubmissionEx.seed pk sk [x01] (SubmissionEx.candidate sk)
    SubmissionEx.summary (SubmissionEx.registered pk) 60) as (tx & sig & Htx & Happ).
  - exact Hgen.
  - reflexivity.
  - apply SubmissionEx.registered_key.
  - exact SubmissionEx.summary_sound.
  - reflexivity.
  - reflexivity.
  - exists pk, sk, tx, sig. split_and!; [exact Hgen|exact Htx|].
    exact (eq_trans Happ (SubmissionEx.registered_result pk sk sig)).
Defined.
